(* ===== verification/_CoqProject ===== *)
-Q . S2P
Prelude.v
F64.v
Json.v
Errors.v
Principal.v
RateLimit.v
Stream.v
Sse.v
Context.v
Upstream.v
AuditLog.v
Dispatcher.v
Gateway.v
Tasks.v
Message.v
Correlation.v
A2ui.v
A2uiText.v
Surface.v
McpApp.v
Ge.v
GeCard.v
FormState.v
Routing.v
ChatIdentity.v
Manifest.v
Chat.v
TelegramMapper.v
EmailMapper.v
Telegram.v
TelegramBoot.v
Oidc.v
GoogleToken.v
HttpIdentity.v
Rest.v
ReplyText.v
Mcp.v
A2aTime.v
A2aInput.v
A2aTask.v
A2aCard.v
A2aTurn.v
A2a.v
Outbound.v
Twilio.v
Email.v
WhatsAppMapper.v
WhatsApp.v
WhatsAppBridge.v
DiscordMapper.v
Discord.v
DiscordGateway.v
Signal.v
GeminiMapper.v
PlatformAuth.v
GoogleChatAuth.v
TeamsAuth.v
GoogleChatMapper.v
Rasterizer.v
GoogleChat.v
GoogleChatFacts.v
