(* ===== verification/Prelude.v ===== *)
(** * Verification of the Triton gateway's core

    Triton is a gateway between people (chat channels, REST, MCP, A2A) and
    agents.  An adapter authenticates a caller into a [Principal] and hands its
    request to the dispatcher (crates/triton-core/src/dispatcher.rs), which runs
    an in-process tool or calls an agent through the upstream router
    (crates/triton-upstream), and writes one audit line.  Around that core sit
    the rate limiter, the task store and runner for calls that outlive a request
    (crates/triton-tasks), and the pieces chat adapters share: routing of a turn
    to an agent, sender identity, signed click tokens, message templates, and
    the multi-step forms of the Telegram adapter.

    ** Files, and the sources they model

    - [Prelude]: bytes, strings, machine integers, [Result]; tactics and hints.
    - [Json]: [serde_json]'s [Value] and map, and the text codec as the class
      [SerdeJson] (third-party code: a parameter with the laws it is used by).
    - [Errors]: triton-core/src/error.rs, [TritonError].
    - [Principal]: triton-core/src/principal.rs, [Principal], [ToolPrincipal],
      [validate_resolved].
    - [RateLimit]: triton-core/src/ratelimit.rs.  [TokenBucket],
      [PerTenantBuckets] and [RejectionWindow] over a class of floats; the
      instance [binary64] computes as the code does, the instance [exact] (the
      rationals) carries the admission theorems.
    - [Stream]: triton-core/src/stream.rs.  Events, SSE framing, and [Finalized]
      as a state machine advanced by polls and closed by its [Drop].
    - [Sse]: triton-upstream/src/sse.rs, the event-stream decoder.
    - [Context]: triton-core/src/dispatch_context.rs and the argument
      preparation of dispatcher.rs.
    - [Upstream]: triton-upstream/src/static_upstream.rs and
      triton-identity/src/signer.rs.  Breaker, minted claims, requests, streams.
    - [AuditLog]: triton-core/src/audit.rs and metrics.rs.
    - [Dispatcher]: triton-core/src/dispatcher.rs and the [Tool] trait of
      tool.rs.  [ToolOps] and [UpstreamDispatch] are the interfaces of tools and
      of the upstream; [World] is what a call may change: the audit sinks, the
      counters, the rejection window, and [outside], the state of everything
      behind the interfaces.
    - [Gateway]: the router of [Upstream] as an instance of [UpstreamDispatch],
      with the end-to-end theorems of the two.
    - [Tasks]: triton-tasks/src/lib.rs.  The class [Backend] with its laws is
      what the store relies on; [Memory] and [Sqlite] are instances of both.
      The runner is a loop over the rounds its environment offers; the processes
      that start it are a step relation.
    - [Message]: triton-correlation/src/message.rs, message templates.
    - [Correlation]: triton-correlation/src/lib.rs, click tokens and key rings.
      HMAC-SHA256, base64 and the body codec are the class [Crypto].
    - [F64]: the binary64 operations the surface code uses, over [SpecFloat].
    - [A2ui]: triton-core/src/a2ui/mod.rs, v08.rs, v09.rs and links.rs.  Every
      component kind, the checks and the sanitizer, the two envelopes and the
      way back, the link policy.
    - [A2uiText]: triton-core/src/a2ui/text.rs, the plain-text degradation.
    - [Surface]: triton-core/src/surface.rs, what a channel can show.
    - [McpApp]: triton-core/src/a2ui/mcp_app.rs, the answer card of MCP hosts.
    - [Ge], [GeCard]: triton-core/src/a2ui/ge.rs, the cards of Gemini Enterprise
      with their signed buttons; [GeCard] has the logic of a card under
      construction and the theorems on the finished one.
    - [FormState]: triton-chat-telegram/src/form_state.rs.
    - [Routing]: triton-chat-routing/src/lib.rs.  [AgentCatalog] is the trait,
      [CallerScoped] what it requires of an implementation.
    - [ChatIdentity]: triton-chat-identity/src/lib.rs, the sender table and the
      resolver, which goes through [Dispatcher].
    - [Manifest]: triton-manifest/src/lib.rs and triton-secrets/src/lib.rs, the
      adapter manifest, its validation and its secret references.
    - [Chat]: shapes the chat adapters share.
    - [TelegramMapper], [Telegram], [TelegramBoot]:
      triton-chat-telegram/src/surface_mapper.rs and lib.rs.  Rendering with
      signed buttons; webhook, long poll, clicks, forms and courier in a state
      monad; construction from the manifest.
    - [Oidc], [GoogleToken]: triton-identity/src/lib.rs.  The verifier of JWTs
      with its key cache, as a function and as the steps of concurrent callers;
      the verifier of opaque Google tokens with its two caches.  The JWT library
      is the class [Jwt], its documented behaviour [JwtLaws].
    - [HttpIdentity]: triton-adapters-http/src/identity.rs, mcp_tenants.rs and
      cors.rs, which way in admits a request, and the customer routes.
    - [Rest]: triton-adapters-http/src/rest.rs, tool calls and the views of the
      audit trail.
    - [ReplyText], [Mcp]: the prose of a result (a2a_spec.rs) and
      triton-adapters-http/src/mcp.rs, every method of the MCP face.
    - [A2aTime], [A2aInput], [A2aTask], [A2aCard], [A2aTurn], [A2a]:
      triton-adapters-http/src/a2a_v1.rs, a2a_spec.rs and a2a.rs.  Timestamps;
      what a message carries; tasks on the wire, pages and streams; cards and
      routes; a turn of the 0.3 face; the handlers of every binding, over the
      state of [Mcp].
    - [Outbound]: triton-core/src/outbound.rs and
      triton-adapters-http/src/outbound.rs.  The trait of couriers, the class
      [TenantBound] of what they promise, and the endpoint in front of them.
    - [Twilio]: triton-chat-twilio/src, both adapters; their couriers are
      instances of [TenantBound].
    - [EmailMapper], [Email]: triton-chat-email/src/surface_mapper.rs and
      courier.rs, the rendering as HTML and the courier, a third instance.
    - [WhatsAppMapper], [WhatsApp], [WhatsAppBridge]: triton-chat-whatsapp/src,
      the Cloud API adapter with its service window, and the bridge.
    - [DiscordMapper], [Discord], [DiscordGateway]: triton-chat-discord/src, the
      mapper with its menus and modals, the signed interactions endpoint, and the
      gateway worker, whose log is its history.
    - [Signal]: triton-chat-signal/src.  The connection task and the adapter's
      loop are a step relation over the writer slot and the channel between them.
    - [GeminiMapper]: triton-chat-gemini/src/surface_mapper.rs.
    - [PlatformAuth], [GoogleChatAuth], [TeamsAuth]: the tokens of the two
      workplace platforms, triton-chat-googlechat/src/jwt_verifier.rs,
      token_minter.rs and wif_minter.rs, triton-chat-msteams/src/jwt_verifier.rs
      and token_client.rs.  [PlatformAuth] has what they share, the class
      [TokenLib] of the JWT library and a cached token with its refresh.
    - [GoogleChatMapper]: triton-chat-googlechat/src/surface_mapper.rs and
      table_card.rs.
    - [Rasterizer]: triton-rasterizer/src, the caps on a dashboard, the SVG
      document it becomes, the service and the two ways to reach a renderer.
    - [GoogleChat], [GoogleChatFacts]: triton-chat-googlechat/src/lib.rs, the
      webhook, the courier, the images of a card, proactive sends and boot; what
      is proved of them, in a logic of the lines a program writes ([wp]).

    ** Conventions

    Strings and byte strings are lists of bytes.  Integers are [Z] with their
    saturation and wrap-around written out, times are nanoseconds (milliseconds
    in the task store, seconds in tokens).  A clock reading is an argument of
    the operation that reads it; where a loop reads it several times it takes
    the readings.  A lock held across an operation makes it one step.  What a
    network, a tool or a person does is an argument: an outcome, or the list of
    outcomes of successive rounds.  [None] is a panic where a function says so.

    ** What the theorems show

    - Accountability ([Dispatcher], [Stream], [AuditLog], [Gateway]): every
      invocation, buffered or streamed and however it ends, leaves exactly one
      audit line whose result is that of the answer; the finalizer of a stream
      runs exactly once; the history holds the last lines.
    - Authority ([Dispatcher], [Upstream], [Context], [ChatIdentity],
      [Routing]): refused callers reach nothing; revocation and scope
      restrictions are exactly what they say; tools never see the caller's
      credential; a minted token names the caller and its reserved claims cannot
      be overridden; the reserved argument cannot be forged; identities are
      validated at the boundary; routing only ever names entitled agents.
    - Resilience ([Upstream], [Gateway], [Sse]): the breaker opens, probes and
      settles; decoding is independent of the chunking and inverse to framing.
    - Bounds ([RateLimit], [FormState]): admission never exceeds burst plus rate
      times time and the retry hint suffices; maps stay bounded and lose no
      throttle state.
    - Tasks ([Tasks]): finished tasks never change, a run ends, files its request
      at most once and broadcasts one outcome, which is the stored one; no task
      has two runners; a list shows the owner's tasks.
    - Tokens and messages ([Correlation], [Message]): a token decodes to what was
      minted until it expires, for its holder only, across key rotation; filling
      a template agrees with what clients do with its published parts.
    - Surfaces ([A2ui], [A2uiText], [TelegramMapper]): what is extracted from a
      tool's result is safe to show; envelopes reverse to the surface; messages
      fit the platform's limits and stay well-formed markup; a button redeems to
      exactly its control.
    - Callers over HTTP ([Oidc], [GoogleToken], [HttpIdentity], [Rest]): a
      verified principal is what the signed token says, under a key of the
      configured issuer; refreshes are single-flight and spaced; caches are
      bounded; one configured way admits a request and a customer route only its
      directory; the audit trail is read per tenant; a call is audited once with
      the status of its reply.
    - Agents and hosts ([Mcp], [McpApp], [Ge], [GeCard], [A2aInput], [A2aTask],
      [A2aTurn], [A2a]): MCP requests are accounted for and answered under
      their id; cards are trees whose controls are signed or allowed links and
      whose clicks send what they were minted for; one message cannot exceed its
      limits; a stream closes once and a client has the prose once; pages visit
      every task; a task of someone else looks like one that does not exist.
    - Channels ([Telegram], [TelegramBoot], [Manifest], [Outbound], [Twilio],
      [EmailMapper], [Email], [WhatsAppMapper], [WhatsApp], [WhatsAppBridge],
      [DiscordMapper], [Discord], [DiscordGateway], [Signal], [GeminiMapper],
      [GoogleChatAuth], [TeamsAuth], [GoogleChatMapper], [Rasterizer],
      [GoogleChatFacts]):
      unauthenticated calls reach nothing; a click does what was signed; every
      message to a platform is audited; proactive messages pass every gate and stay
      in the caller's tenant; adapters fail closed at boot; an email has no markup
      but the mapper's; the service window is the history of inbound messages and
      a free-form message needs a recent one; a modal is submitted with exactly its
      fields; the bot token goes to trusted hosts only and a session is resumed
      where it stopped; the events of the Signal daemon are taken in order, and what
      is owed for one is sent before the next, however its tasks interleave; a
      token of Google Chat or of the Bot Framework is accepted under a current key
      of its issuer only, and the credentials sent to either platform are live; a
      card carries the tokens of its controls and no others; a turn of Google Chat
      is the sender's own, leaves its lines whatever fails, and its post line says
      [ok] only for an answer the platform took; a message goes unasked only into
      a conversation the adapter sealed; the image route draws only what was
      sealed, and no text of a dashboard changes the drawing.

    Theorems without a number are lemmas of the library or record where the code
    differs from its documentation or its intent, for example
    [caller_fault_wedges_half_open_breaker], [cross_tenant_eviction],
    [running_tasks_unbounded], [blank_after_slash_misparsed],
    [lookup_during_refresh_refused], [unknown_kids_accumulate],
    [long_sources_panic] and [empty_secret_boots].

    ** Fuel and bounds

    [drain_loop], [scan_from] and [segments_from] take the length of their input
    as fuel; each round consumes at least a byte, and [drain_loop_fuel],
    [scan_from_fuel] and [segments_from_fuel] show that more fuel changes
    nothing.  The runner's loop takes the list of rounds its environment offers:
    [task_run_terminates] shows that a list long enough for the task's time at
    250 ms a round always yields an outcome.  [find_stream] takes the depth
    limit of the code as fuel; [replace_all], [replace_matches], [rows_of],
    [budget_end] and [budget_scan] the length of their input, of which every
    round consumes at least one element.
    [trim_start_str] takes the length of its input, of which every round consumes
    the pattern.
    [find_vega] takes one more than the longest text in its value, since texts
    that are JSON nest ([find_vega_enough]); [walk] one more than the tasks it
    pages through ([pages_visit_all]).

    ** Not modelled

    The webhook and courier of the Teams adapter and its adaptive cards, the preview
    endpoint and the discovery documents of the REST face, discovery ([descriptors_all], [list_tools] of the upstream), the SSRF check
    of configured endpoints, the Prometheus text format, the capture of bodies,
    the fonts of the rasterizer, configuration and process wiring.  Third-party code is a
    parameter: JSON and form decoding, URL parsing, cryptography, the JWT
    library, HTTP, the drawing of an SVG document, the SQL engine behind the
    statements of the task store.  In order of importance, the next parts to add
    are the Teams adapter and the endpoint check. *)

(** ** Prelude: the Rust standard library fragments the models share *)

From stdpp Require Export base tactics option list list_numbers numbers gmap
  strings pretty.
From Stdlib Require Export Ascii.
From Stdlib Require Import Lia.

(** ** Rust strings

    A Rust [&str], [String], [&[u8]] or [Vec<u8>] is the list of its bytes.
    [len()] is then [length], [==] is decidable equality and slicing is
    [take]/[drop].  A [str] is UTF-8; operations that work on characters
    (trimming, char boundaries) are written on the encoded bytes. *)

Abbreviation str := (list ascii).

Definition lit (s : string) : str := String.list_ascii_of_string s.

Declare Scope rust_scope.
Delimit Scope rust_scope with rust.
Notation "§ s" := (lit s%string) (at level 1, s at level 0, format "§ s")
  : rust_scope.
Open Scope rust_scope.

(** The line feed. *)
Definition nl : str := ["010"%char].

(** The value of a byte. *)
Definition byte (c : ascii) : N := N_of_ascii c.

(** ** [Result] *)

Inductive result (A E : Type) :=
  | Ok (a : A)
  | Err (e : E).
Arguments Ok {A E} a.
Arguments Err {A E} e.

#[export] Instance result_eq_dec `{EqDecision A, EqDecision E} :
  EqDecision (result A E).
Proof. solve_decision. Defined.

Definition result_map {A B E} (f : A → B) (r : result A E) : result B E :=
  match r with Ok a => Ok (f a) | Err e => Err e end.

Definition result_map_err {A E F} (f : E → F) (r : result A E) : result A F :=
  match r with Ok a => Ok a | Err e => Err (f e) end.

Definition result_bind {A B E} (r : result A E) (k : A → result B E) : result B E :=
  match r with Ok a => k a | Err e => Err e end.

Definition is_ok {A E} (r : result A E) : bool :=
  match r with Ok _ => true | Err _ => false end.

(** The question-mark operator: [x ←? r; k]. *)
Notation "x ←? r ; k" := (result_bind r (λ x, k))
  (at level 20, r at level 100, k at level 200, right associativity) : rust_scope.

Definition ok_or {A E} (o : option A) (e : E) : result A E :=
  match o with Some a => Ok a | None => Err e end.

(** ** Machine integers *)

Definition u64_max : Z := (2 ^ 64 - 1)%Z.
Definition u32_max : Z := (2 ^ 32 - 1)%Z.
Definition i64_min : Z := (- 2 ^ 63)%Z.
Definition i64_max : Z := (2 ^ 63 - 1)%Z.

(** Arithmetic on [u64] in the release profile wraps. *)
Definition u64_wrap (n : Z) : Z := (n mod 2 ^ 64)%Z.
Definition u64_saturating_add (a b : Z) : Z := Z.min u64_max (a + b)%Z.
Definition u64_saturating_mul (a b : Z) : Z := Z.min u64_max (a * b)%Z.
Definition u32_saturating_add (a b : Z) : Z := Z.min u32_max (a + b)%Z.
Definition u32_saturating_mul (a b : Z) : Z := Z.min u32_max (a * b)%Z.
(** [div_ceil] on unsigned operands with a positive divisor. *)
Definition div_ceil (a b : Z) : Z :=
  (if decide (a mod b = 0) then a / b else a / b + 1)%Z.

Lemma div_ceil_spec a b : (0 < b → a ≤ b * div_ceil a b < a + b)%Z.
Proof.
  intros Hb. unfold div_ceil. pose proof (Z.div_mod a b ltac:(lia)) as E.
  pose proof (Z.mod_pos_bound a b Hb). case_decide; nia.
Qed.

Lemma u64_wrap_small n : (0 ≤ n ≤ u64_max → u64_wrap n = n)%Z.
Proof. unfold u64_max, u64_wrap. intros. apply Z.mod_small. lia. Qed.

(** Seconds, in nanoseconds. *)
Definition secs (n : Z) : Z := (n * 1000000000)%Z.

(** Decimal rendering of an integer ([Display]). *)
Definition dec (n : Z) : str := lit (pretty n).

(** ** Characters *)

Definition in_range (lo hi x : N) : bool := (lo <=? x)%N && (x <=? hi)%N.

(** [char::is_whitespace] (Unicode [White_Space]) on the one-, two- and
    three-byte encodings that have the property. *)
Definition ws1 (a : ascii) : bool := in_range 9 13 (byte a) || (byte a =? 32)%N.
Definition ws2 (a b : ascii) : bool :=
  (byte a =? 0xC2)%N && ((byte b =? 0x85)%N || (byte b =? 0xA0)%N).
Definition ws3 (a b c : ascii) : bool :=
  let x := byte a in let y := byte b in let z := byte c in
  ((x =? 0xE1) && (y =? 0x9A) && (z =? 0x80))%N
  || ((x =? 0xE2) && (y =? 0x80) &&
        (in_range 0x80 0x8A z || (z =? 0xA8) || (z =? 0xA9) || (z =? 0xAF)))%N
  || ((x =? 0xE2) && (y =? 0x81) && (z =? 0x9F))%N
  || ((x =? 0xE3) && (y =? 0x80) && (z =? 0x80))%N.

(** The byte length of the whitespace character [s] starts with, or 0. *)
Definition ws_len (s : str) : nat :=
  match s with
  | a :: b :: c :: _ =>
      if ws1 a then 1 else if ws2 a b then 2 else if ws3 a b c then 3 else 0
  | [a; b] => if ws1 a then 1 else if ws2 a b then 2 else 0
  | [a] => if ws1 a then 1 else 0
  | [] => 0
  end.

(** The same for the whitespace character a string ends with; the argument is
    the reversed string. *)
Definition ws_len_rev (s : str) : nat :=
  match s with
  | c :: b :: a :: _ =>
      if ws1 c then 1 else if ws2 b c then 2 else if ws3 a b c then 3 else 0
  | [c; b] => if ws1 c then 1 else if ws2 b c then 2 else 0
  | [c] => if ws1 c then 1 else 0
  | [] => 0
  end.

Fixpoint trim_with (len : str → nat) (skip : nat) (s : str) : str :=
  match s with
  | [] => []
  | a :: r =>
      match skip with
      | S k => trim_with len k r
      | 0 => match len s with
             | 0 => s
             | S k => trim_with len k r
             end
      end
  end.

Definition trim_start (s : str) : str := trim_with ws_len 0 s.
Definition trim_end (s : str) : str := rev (trim_with ws_len_rev 0 (rev s)).
Definition trim (s : str) : str := trim_end (trim_start s).

(** [trim_start_matches] and [trim_end_matches] of one character. *)
Fixpoint trim_start_char (c : ascii) (s : str) : str :=
  match s with
  | a :: s' => if decide (a = c) then trim_start_char c s' else s
  | [] => []
  end.
Definition trim_end_char (c : ascii) (s : str) : str := rev (trim_start_char c (rev s)).

(** [split_whitespace]; [cur] is the word being read, reversed. *)
Fixpoint words (skip : nat) (cur s : str) : list str :=
  let flush := match cur with [] => [] | _ => [rev cur] end in
  match s with
  | [] => flush
  | a :: r =>
      match skip with
      | S k => words k cur r
      | 0 => match ws_len s with
             | 0 => words 0 (a :: cur) r
             | S k => flush ++ words k [] r
             end
      end
  end.
Definition split_whitespace (s : str) : list str := words 0 [] s.

Definition is_empty {A} (s : list A) : bool :=
  match s with [] => true | _ => false end.

(** Some character of [s] is whitespace. *)
Fixpoint has_whitespace (s : str) : bool :=
  match s with
  | [] => false
  | _ :: r => negb (ws_len s =? 0)%nat || has_whitespace r
  end.

(** [char::is_control] (category Cc: C0, DEL and the C1 block C2 80..9F). *)
Fixpoint has_control (s : str) : bool :=
  match s with
  | [] => false
  | a :: r =>
      (byte a <? 32)%N || (byte a =? 127)%N
      || match r with
         | b :: _ => (byte a =? 0xC2)%N && in_range 0x80 0x9F (byte b)
         | [] => false
         end
      || has_control r
  end.

Definition ascii_lower (c : ascii) : ascii :=
  if in_range 65 90 (byte c) then ascii_of_N (byte c + 32) else c.
Definition to_ascii_lowercase (s : str) : str := ascii_lower <$> s.
Definition eq_ignore_ascii_case (s t : str) : bool :=
  bool_decide (to_ascii_lowercase s = to_ascii_lowercase t).
Definition is_ascii_digit (c : ascii) : bool := in_range 48 57 (byte c).
Definition is_ascii_alphanumeric (c : ascii) : bool :=
  in_range 48 57 (byte c) || in_range 65 90 (byte c) || in_range 97 122 (byte c).

Definition is_ascii_hexdigit (c : ascii) : bool :=
  in_range 48 57 (byte c) || in_range 65 70 (byte c) || in_range 97 102 (byte c).

Definition strip_plus (s : str) : option str :=
  match s with c :: r => if decide (c = "+"%char) then Some r else None | [] => None end.

(** [str::parse] of an unsigned type with maximum [max]: an optional plus, then
    at least one digit. *)
Definition parse_uint (max : Z) (s : str) : option Z :=
  let ds := match strip_plus s with Some r => r | None => s end in
  if is_empty ds || negb (forallb is_ascii_digit ds) then None
  else let n := fold_left (λ n c, 10 * n + (Z.of_N (byte c) - 48))%Z ds 0%Z in
       if (n <=? max)%Z then Some n else None.

(** [str::parse::<i64>]: an optional sign, then at least one digit. *)
Definition parse_i64 (s : str) : option Z :=
  match s with
  | "-"%char :: r =>
      match r with
      | "+"%char :: _ => None
      | _ => Z.opp <$> parse_uint (2 ^ 63) r
      end
  | _ => parse_uint i64_max s
  end.

(** ** Splitting and searching *)

Fixpoint strip_prefix (p s : str) : option str :=
  match p, s with
  | [], _ => Some s
  | a :: p', b :: s' => if decide (a = b) then strip_prefix p' s' else None
  | _ :: _, [] => None
  end.

Definition starts_with (p s : str) : bool := bool_decide (is_Some (strip_prefix p s)).
Definition ends_with (p s : str) : bool := starts_with (rev p) (rev s).

Definition strip_suffix (p s : str) : option str :=
  (λ r, rev r) <$> strip_prefix (rev p) (rev s).

(** Byte offset of the first occurrence of [p]. *)
Fixpoint find_sub (p s : str) : option nat :=
  if starts_with p s then Some 0
  else match s with
       | [] => None
       | _ :: s' => S <$> find_sub p s'
       end.

Definition contains (p s : str) : bool := bool_decide (is_Some (find_sub p s)).

(** [split(c)]: always at least one piece. *)
Fixpoint split_on (c : ascii) (s : str) : list str :=
  match s with
  | [] => [[]]
  | a :: r =>
      if decide (a = c) then [] :: split_on c r
      else match split_on c r with
           | [] => [[a]]
           | w :: ws => (a :: w) :: ws
           end
  end.

Fixpoint split_once (c : ascii) (s : str) : option (str * str) :=
  match s with
  | [] => None
  | a :: r =>
      if decide (a = c) then Some ([], r)
      else (λ '(x, y), (a :: x, y)) <$> split_once c r
  end.

Definition rsplit_once (c : ascii) (s : str) : option (str * str) :=
  (λ '(x, y), (rev y, rev x)) <$> split_once c (rev s).

Fixpoint join (sep : str) (l : list str) : str :=
  match l with
  | [] => []
  | [s] => s
  | s :: l' => s ++ sep ++ join sep l'
  end.

Definition count_byte (c : ascii) (s : str) : nat :=
  length (filter (λ a, a = c) s).

(** ** Char boundaries *)

(** A UTF-8 continuation byte [0b10xx_xxxx]. *)
Definition is_continuation (c : ascii) : bool := in_range 0x80 0xBF (byte c).

Definition is_char_boundary (s : str) (i : nat) : bool :=
  match i with
  | 0 => true
  | _ => match s !! i with
         | Some c => negb (is_continuation c)
         | None => (i =? length s)%nat
         end
  end.

(** [while cut > 0 && !s.is_char_boundary(cut) { cut -= 1 }]. *)
Fixpoint floor_char_boundary (s : str) (cut : nat) : nat :=
  match cut with
  | 0 => 0
  | S c => if is_char_boundary s cut then cut else floor_char_boundary s c
  end.

(** [std::str::from_utf8] accepts exactly the well-formed sequences. *)
Fixpoint valid_utf8 (s : str) : bool :=
  match s with
  | [] => true
  | a :: r1 =>
      let x := byte a in
      if (x <? 128)%N then valid_utf8 r1
      else match r1 with
      | [] => false
      | b :: r2 =>
          let y := byte b in
          if in_range 0xC2 0xDF x then is_continuation b && valid_utf8 r2
          else match r2 with
          | [] => false
          | c :: r3 =>
              if (x =? 0xE0)%N then in_range 0xA0 0xBF y && is_continuation c && valid_utf8 r3
              else if (x =? 0xED)%N then in_range 0x80 0x9F y && is_continuation c && valid_utf8 r3
              else if in_range 0xE1 0xEF x then is_continuation b && is_continuation c && valid_utf8 r3
              else match r3 with
              | [] => false
              | d :: r4 =>
                  (if (x =? 0xF0)%N then in_range 0x90 0xBF y
                   else if (x =? 0xF4)%N then in_range 0x80 0x8F y
                   else in_range 0xF1 0xF3 x && is_continuation b)
                  && is_continuation c && is_continuation d && valid_utf8 r4
              end
          end
      end
  end.

(** [s.chars().count()] and [s.chars().take(n).collect()]: a character starts
    at every byte that does not continue one. *)
Definition char_count (s : str) : nat := length (filter (λ c, is_continuation c = false) s).
Fixpoint take_chars (n : nat) (s : str) : str :=
  match s with
  | [] => []
  | c :: s' =>
      if is_continuation c then c :: take_chars n s'
      else match n with O => [] | S n' => c :: take_chars n' s' end
  end.

(** [s.replace(pat, rep)]: non-overlapping, from the left; each round consumes
    a byte. *)
Fixpoint replace_all (fuel : nat) (pat rep s : str) : str :=
  match fuel, s with
  | S fuel', a :: s' =>
      match strip_prefix pat s with
      | Some rest => rep ++ replace_all fuel' pat rep rest
      | None => a :: replace_all fuel' pat rep s'
      end
  | _, _ => s
  end.

(** A secret taken out of a text that will be logged. *)
Definition redact (mark s secret : str) : str :=
  if is_empty secret then s else replace_all (length s) secret mark s.

(** ** State passing *)

Definition ST (S A : Type) : Type := S → A * S.
Definition ret {S A : Type} (a : A) : ST S A := λ s, (a, s).
Definition bind {S A B : Type} (m : ST S A) (k : A → ST S B) : ST S B :=
  λ s, let '(a, s1) := m s in k a s1.
Notation "x ←ₛ m ; k" := (bind m (λ x, k))
  (at level 20, m at level 100, k at level 200, right associativity) : rust_scope.

Lemma bind_snd {S A B} (m : ST S A) (k : A → ST S B) (s : S) : bind m k s = k (m s).1 (m s).2.
Proof. unfold bind. by destruct (m s). Qed.

(** ** Ordering of strings: [Ord for str] compares bytes lexicographically *)

Fixpoint str_compare (s t : str) : comparison :=
  match s, t with
  | [], [] => Eq
  | [], _ :: _ => Lt
  | _ :: _, [] => Gt
  | a :: s', b :: t' =>
      match (byte a ?= byte b)%N with
      | Eq => str_compare s' t'
      | c => c
      end
  end.

(** ** Automation *)

Create HintDb rust discriminated.

Ltac case_if :=
  match goal with
  | |- context [if ?b then _ else _] => destruct b eqn:?
  | H : context [if ?b then _ else _] |- _ => destruct b eqn:?
  end.

(** Turn boolean tests that the code performs into the facts they decide. *)
Ltac bool_facts :=
  repeat match goal with
  | H : (_ && _) = true |- _ => apply andb_prop in H as [? ?]
  | H : (_ || _) = false |- _ => apply orb_false_iff in H as [? ?]
  | H : negb _ = true |- _ => apply negb_true_iff in H
  | H : negb _ = false |- _ => apply negb_false_iff in H
  | H : bool_decide _ = true |- _ => apply bool_decide_eq_true in H
  | H : bool_decide _ = false |- _ => apply bool_decide_eq_false in H
  | H : (_ <=? _)%Z = true |- _ => apply Z.leb_le in H
  | H : (_ <=? _)%Z = false |- _ => apply Z.leb_gt in H
  | H : (_ <? _)%Z = true |- _ => apply Z.ltb_lt in H
  | H : (_ <? _)%Z = false |- _ => apply Z.ltb_ge in H
  | H : (_ =? _)%Z = true |- _ => apply Z.eqb_eq in H
  | H : (_ =? _)%Z = false |- _ => apply Z.eqb_neq in H
  | H : (_ <=? _)%nat = true |- _ => apply Nat.leb_le in H
  | H : (_ <=? _)%nat = false |- _ => apply Nat.leb_gt in H
  | H : (_ <? _)%nat = true |- _ => apply Nat.ltb_lt in H
  | H : (_ <? _)%nat = false |- _ => apply Nat.ltb_ge in H
  | H : (_ =? _)%nat = true |- _ => apply Nat.eqb_eq in H
  | H : (_ =? _)%nat = false |- _ => apply Nat.eqb_neq in H
  end.

(** ** Lemmas on the string operations *)

Lemma strip_prefix_Some p s r : strip_prefix p s = Some r ↔ s = p ++ r.
Proof.
  revert s. induction p as [|a p IH]; intros [|b s]; simpl; try (clear; naive_solver).
  case_decide; subst; [rewrite IH|]; naive_solver.
Qed.

Lemma strip_suffix_app p s : strip_suffix p (s ++ p) = Some s.
Proof.
  unfold strip_suffix. rewrite rev_app_distr.
  assert (strip_prefix (rev p) (rev p ++ rev s) = Some (rev s)) as -> by by apply strip_prefix_Some.
  cbn. by rewrite rev_involutive.
Qed.

Lemma starts_with_spec p s : starts_with p s = true ↔ ∃ r, s = p ++ r.
Proof.
  unfold starts_with. rewrite bool_decide_eq_true. unfold is_Some.
  by setoid_rewrite strip_prefix_Some.
Qed.

Lemma starts_with_false p s r : starts_with p s = false → s ≠ p ++ r.
Proof.
  intros H ->. assert (starts_with p (p ++ r) = true); [|congruence].
  apply starts_with_spec. eauto.
Qed.

Lemma ends_with_spec p s : ends_with p s = true ↔ ∃ r, s = r ++ p.
Proof.
  unfold ends_with. rewrite starts_with_spec. split; intros [r Hr].
  - exists (rev r). by rewrite <-(rev_involutive s), Hr, rev_app_distr, rev_involutive.
  - exists (rev r). by rewrite Hr, rev_app_distr.
Qed.

Lemma starts_with_app p r : starts_with p (p ++ r) = true.
Proof. apply starts_with_spec. eauto. Qed.

Lemma split_once_Some c s x y :
  split_once c s = Some (x, y) ↔ s = x ++ c :: y ∧ c ∉ x.
Proof.
  revert x. induction s as [|a s IH]; intros x; simpl.
  { split; [done|]. intros [H _]. by destruct x. }
  case_decide as Ha; subst.
  - split.
    + intros; simplify_eq. split; [done|]. set_solver.
    + intros [H Hc]. destruct x as [|b x]; simplify_eq/=; [done|]. set_solver.
  - destruct (split_once c s) as [[x' y']|] eqn:E; simpl.
    + split.
      * intros; simplify_eq. destruct (proj1 (IH _) eq_refl) as [-> ?].
        split; [done|]. set_solver.
      * intros [H Hc]. destruct x as [|b x]; simplify_eq/=.
        assert (Some (x', y') = Some (x, y)) as Hx; [|by simplify_eq].
        apply IH. split; [done|set_solver].
    + split; [done|]. intros [H Hc]. destruct x as [|b x]; simplify_eq/=.
      assert (None = Some (x, y)) as Hx; [|done]. apply IH.
      split; [done|set_solver].
Qed.

Lemma split_once_app c x y : c ∉ x → split_once c (x ++ c :: y) = Some (x, y).
Proof. intros. by apply split_once_Some. Qed.

Lemma split_on_nosep c s : c ∉ s → split_on c s = [s].
Proof.
  induction s as [|a s IH]; simpl; [done|]. intros [? ?]%not_elem_of_cons.
  rewrite decide_False, IH by done. done.
Qed.

Lemma split_on_app c s t : c ∉ s → split_on c (s ++ [c] ++ t) = s :: split_on c t.
Proof.
  simpl. induction s as [|a s IH]; simpl; [by rewrite decide_True|].
  intros [? ?]%not_elem_of_cons. rewrite decide_False, IH by done. done.
Qed.

(** A pattern occurs at [i] when its bytes are there. *)
Lemma starts_with_lookup p s i :
  starts_with p (drop i s) = true ↔ ∀ j c, p !! j = Some c → s !! (i + j) = Some c.
Proof.
  rewrite starts_with_spec. split.
  - intros [r Hr] j c Hj. rewrite <-lookup_drop, Hr. by apply lookup_app_l_Some.
  - intros Hp. exists (drop (i + length p) s).
    rewrite <-(take_drop (length p) (drop i s)), drop_drop. f_equal.
    apply list_eq. intros j. destruct (p !! j) as [c|] eqn:E.
    + pose proof (lookup_lt_Some _ _ _ E).
      rewrite lookup_take_lt by done. rewrite lookup_drop. by apply Hp.
    + apply lookup_ge_None in E. apply lookup_ge_None. rewrite length_take. lia.
Qed.

Lemma find_sub_Some p s n :
  find_sub p s = Some n ↔
  starts_with p (drop n s) = true ∧ n ≤ length s
  ∧ ∀ m, m < n → starts_with p (drop m s) = false.
Proof.
  revert n. induction s as [|a s IH]; intros n; simpl find_sub.
  - destruct (starts_with p []) eqn:E; split.
    + intros; simplify_eq. repeat split; [done|simpl; lia|lia].
    + intros (_ & Hn & _). simpl in Hn. by replace n with 0 by lia.
    + done.
    + intros (H & Hn & _). simpl in Hn. replace n with 0 in H by lia. simpl in H. congruence.
  - destruct (starts_with p (a :: s)) eqn:E.
    + split.
      * intros; simplify_eq. repeat split; [done|simpl; lia|lia].
      * intros (_ & _ & H). destruct n as [|n]; [done|].
        specialize (H 0 ltac:(lia)). simpl in H. congruence.
    + rewrite fmap_Some. split.
      * intros (n' & (H1 & H2 & H3)%IH & ->). repeat split; simpl; [done|lia|].
        intros [|m] Hm; [done|]. apply H3. lia.
      * intros (H1 & H2 & H3). destruct n as [|n]; [simpl in H1; congruence|].
        exists n. split; [|done]. apply IH. repeat split; [done|simpl in H2; lia|].
        intros m Hm. apply (H3 (S m)). lia.
Qed.

Lemma find_sub_None p s m :
  find_sub p s = None → m ≤ length s → starts_with p (drop m s) = false.
Proof.
  revert m. induction s as [|a s IH]; intros m; simpl find_sub.
  - destruct (starts_with p []) eqn:E; [done|]. intros _ Hm. by rewrite drop_nil.
  - destruct (starts_with p (a :: s)) eqn:E; [done|].
    intros Hf%fmap_None Hm. destruct m as [|m]; [done|]. apply IH; [done|]. simpl in Hm. lia.
Qed.

(** An occurrence of a pattern at [m] bounds the first one. *)
Lemma find_sub_le p s m :
  starts_with p (drop m s) = true → m ≤ length s → ∃ n, find_sub p s = Some n ∧ n ≤ m.
Proof.
  intros H Hm. destruct (find_sub p s) as [n|] eqn:E.
  - exists n. split; [done|]. apply find_sub_Some in E as (_ & _ & Hf).
    destruct (decide (n ≤ m)) as [|Hlt]; [done|]. rewrite (Hf m) in H; [done|lia].
  - rewrite (find_sub_None p s m E Hm) in H. done.
Qed.

Lemma trim_with_suffix len k s : ∃ p, s = p ++ trim_with len k s.
Proof.
  revert k. induction s as [|a s IH]; intros k; simpl; [by exists []|].
  destruct k as [|k].
  - destruct (len (a :: s)) as [|k]; [by exists []|].
    destruct (IH k) as [p Hp]. exists (a :: p). simpl. by f_equal.
  - destruct (IH k) as [p Hp]. exists (a :: p). simpl. by f_equal.
Qed.

(** Trimming returns a contiguous slice of its argument. *)
Lemma trim_infix s : ∃ p q, s = p ++ trim s ++ q.
Proof.
  unfold trim, trim_end.
  destruct (trim_with_suffix ws_len 0 s) as [p Hp].
  destruct (trim_with_suffix ws_len_rev 0 (rev (trim_start s))) as [q Hq].
  exists p, (rev q). rewrite Hp at 1. f_equal.
  rewrite <-rev_app_distr, <-Hq. by rewrite rev_involutive.
Qed.

Lemma trim_length s : length (trim s) ≤ length s.
Proof. destruct (trim_infix s) as (p & q & E). rewrite E at 2. rewrite !length_app. lia. Qed.

(** ** Strings without whitespace are left alone by [trim] *)

Lemma has_whitespace_suffix p q :
  has_whitespace (p ++ q) = false → has_whitespace q = false.
Proof.
  induction p as [|a p IH]; [done|]. cbn [app has_whitespace].
  intros H. apply orb_false_iff in H as [_ H]. auto.
Qed.

Lemma trim_end_none s : has_whitespace s = false → trim_end s = s.
Proof.
  intros H. unfold trim_end. assert (ws_len_rev (rev s) = 0) as E.
  { destruct (rev s) as [|c r] eqn:Er; [done|].
    apply (f_equal (@rev ascii)) in Er. rewrite rev_involutive in Er. subst s.
    cbn [rev] in H. destruct r as [|b r].
    { cbn in H |- *. destruct (ws1 c); done. }
    cbn [rev] in H. rewrite <-app_assoc in H. pose proof (has_whitespace_suffix _ _ H) as H2.
    cbn in H2. destruct r as [|a r].
    { cbn. destruct (ws1 c); [by rewrite orb_true_r in H2|]. destruct (ws1 b), (ws2 b c); done. }
    cbn [rev] in H. rewrite <-app_assoc in H. pose proof (has_whitespace_suffix _ _ H) as H3.
    cbn in H3 |- *. destruct (ws1 c); [by rewrite !orb_true_r in H3|].
    destruct (ws1 b), (ws2 b c); try (by rewrite orb_true_r in H3).
    destruct (ws1 a), (ws2 a b), (ws3 a b c); done. }
  destruct (rev s) as [|c r] eqn:Er.
  - apply (f_equal (@rev ascii)) in Er. rewrite rev_involutive in Er. by subst.
  - cbn [trim_with]. rewrite E, <-Er. apply rev_involutive.
Qed.

Lemma trim_none s : has_whitespace s = false → trim s = s.
Proof.
  intros H. unfold trim. assert (trim_start s = s) as ->; [|by apply trim_end_none].
  unfold trim_start. destruct s as [|a s]; [done|]. cbn [trim_with].
  cbn [has_whitespace] in H. apply orb_false_iff in H as [H _]. bool_facts. by rewrite H.
Qed.

(** An ASCII separator that is not whitespace keeps two strings apart. *)
Lemma has_whitespace_sep t c s :
  (byte c <? 0x80)%N = true → ws1 c = false →
  has_whitespace (t ++ c :: s) = has_whitespace t || has_whitespace s.
Proof.
  intros Hc Hw. apply N.ltb_lt in Hc.
  assert (∀ b, ws2 b c = false) as W2.
  { intros b. unfold ws2. rewrite !(proj2 (N.eqb_neq (byte c) _)) by lia. apply andb_false_r. }
  assert (∀ b x, ws2 c b = false ∧ ws3 c b x = false ∧ ws3 b c x = false ∧ ws3 b x c = false) as W3.
  { intros b x. unfold ws2, ws3, in_range. rewrite !(proj2 (N.eqb_neq (byte c) _)) by lia.
    rewrite !(proj2 (N.leb_gt _ (byte c))) by lia. cbn [andb orb].
    rewrite ?andb_false_r, ?orb_false_r. done. }
  induction t as [|a t IH]; cbn [app has_whitespace].
  - rewrite (proj2 (Nat.eqb_eq (ws_len (c :: s)) 0)); [done|].
    unfold ws_len. destruct s as [|b [|x s]]; rewrite Hw; [done|..];
      destruct (W3 b b) as (-> & _); [done|]. by destruct (W3 b x) as (_ & -> & _).
  - rewrite IH, orb_assoc. f_equal. f_equal. f_equal. f_equal.
    destruct t as [|b [|x t]]; [| |done].
    + unfold ws_len. cbn. destruct s as [|x s]; rewrite W2; [done|].
      destruct (W3 a x) as (_ & _ & -> & _). done.
    + unfold ws_len. cbn. destruct (ws1 a), (ws2 a b); try done.
      by destruct (W3 a b) as (_ & _ & _ & ->).
Qed.

Lemma floor_char_boundary_le s n : floor_char_boundary s n ≤ n.
Proof. induction n as [|n IH]; simpl; [done|]. case_if; lia. Qed.

Lemma floor_char_boundary_ok s n :
  is_char_boundary s (floor_char_boundary s n) = true.
Proof. induction n as [|n IH]; cbn [floor_char_boundary]; [done|]. by case_if. Qed.

(** The cut is the largest boundary not above [n]. *)
Lemma floor_char_boundary_max s n m :
  m ≤ n → is_char_boundary s m = true → m ≤ floor_char_boundary s n.
Proof.
  intros Hm Hb. induction n as [|n IH]; cbn [floor_char_boundary]; [lia|].
  case_if; [lia|]. destruct (decide (m = S n)); [subst; congruence|]. apply IH. lia.
Qed.

Lemma byte_inj a b : byte a = byte b → a = b.
Proof.
  intros H. rewrite <-(ascii_N_embedding a), <-(ascii_N_embedding b).
  unfold byte in H. by rewrite H.
Qed.

Lemma str_compare_eq s t : str_compare s t = Eq ↔ s = t.
Proof.
  revert t. induction s as [|a s IH]; intros [|b t]; simpl; try done.
  destruct (N.compare_spec (byte a) (byte b)) as [E|E|E].
  - apply byte_inj in E as ->. rewrite IH. naive_solver.
  - split; [done|]. intros [= -> ->]. lia.
  - split; [done|]. intros [= -> ->]. lia.
Qed.

Lemma str_compare_antisym s t : str_compare t s = CompOpp (str_compare s t).
Proof.
  revert t. induction s as [|a s IH]; intros [|b t]; simpl; try done.
  rewrite (N.compare_antisym (byte a) (byte b)).
  destruct (byte a ?= byte b)%N; simpl; [apply IH|done|done].
Qed.

Lemma str_compare_total s t : str_compare s t ≠ Gt ∨ str_compare t s ≠ Gt.
Proof. rewrite (str_compare_antisym s t). destruct (str_compare s t); simpl; auto. Qed.

Lemma str_compare_trans s t u :
  str_compare s t ≠ Gt → str_compare t u ≠ Gt → str_compare s u ≠ Gt.
Proof.
  revert t u. induction s as [|a s IH]; intros [|b t] [|c u]; simpl; try done.
  destruct (N.compare_spec (byte a) (byte b)), (N.compare_spec (byte b) (byte c)),
    (N.compare_spec (byte a) (byte c)); try done; try lia. apply IH.
Qed.

(** ** Cutting UTF-8 at a boundary keeps it well-formed *)

Lemma boundary_tail a s i :
  is_char_boundary (a :: s) (S i) = true → is_char_boundary s i = true.
Proof. destruct i as [|i]; [done|]. exact id. Qed.

Lemma boundary_lead a b s :
  is_continuation b = true → is_char_boundary (a :: b :: s) 1 = false.
Proof. intros H. unfold is_char_boundary. simpl. by rewrite H. Qed.

Lemma in_range_continuation lo hi b :
  (0x80 <= lo)%N → (hi <= 0xBF)%N → in_range lo hi (byte b) = true →
  is_continuation b = true.
Proof.
  intros H1 H2 H. unfold is_continuation, in_range in *.
  apply andb_prop in H as [Ha%N.leb_le Hb%N.leb_le].
  apply andb_true_intro. split; apply N.leb_le; lia.
Qed.

Lemma valid_utf8_take s i :
  valid_utf8 s = true → is_char_boundary s i = true → valid_utf8 (take i s) = true.
Proof.
  remember (length s) as n eqn:En. revert s i En.
  induction (lt_wf n) as [n _ IH]. intros s i -> Hv Hb.
  destruct i as [|i]; [done|]. destruct s as [|a r1]; [done|].
  pose proof (boundary_tail _ _ _ Hb) as Hb1.
  cbn [valid_utf8 take] in *. destruct (byte a <? 128)%N.
  { apply (IH (length r1)); simpl; done || lia. }
  destruct r1 as [|b r2]; [done|]. destruct i as [|i].
  { exfalso. assert (is_continuation b = true) as Hc.
    { destruct (in_range 0xC2 0xDF (byte a)); [by bool_facts|].
      destruct r2 as [|c r3]; [done|]. repeat case_if; bool_facts; try done;
        try (by eapply in_range_continuation; [| |eassumption]; vm_compute).
      all: destruct r3 as [|d r4]; [done|]; repeat case_if; bool_facts; try done;
        try (by eapply in_range_continuation; [| |eassumption]; vm_compute). }
    by rewrite (boundary_lead a b r2 Hc) in Hb. }
  pose proof (boundary_tail _ _ _ Hb1) as Hb2. cbn [take].
  destruct (in_range 0xC2 0xDF (byte a)).
  { bool_facts. apply andb_true_intro. split; [done|].
    apply (IH (length r2)); simpl; done || lia. }
  destruct r2 as [|c r3]; [done|]. destruct i as [|i].
  { exfalso. assert (is_continuation c = true) as Hc.
    { repeat case_if; bool_facts; try done.
      all: destruct r3 as [|d r4]; [done|]; repeat case_if; bool_facts; done. }
    by rewrite (boundary_lead b c r3 Hc) in Hb1. }
  pose proof (boundary_tail _ _ _ Hb2) as Hb3. cbn [take].
  assert (valid_utf8 r3 = true → valid_utf8 (take i r3) = true) as IH3.
  { intros ?. apply (IH (length r3)); simpl; done || lia. }
  destruct (byte a =? 0xE0)%N; [apply andb_prop in Hv as [-> ?]; by apply IH3|].
  destruct (byte a =? 0xED)%N; [apply andb_prop in Hv as [-> ?]; by apply IH3|].
  destruct (in_range 0xE1 0xEF (byte a)); [apply andb_prop in Hv as [-> ?]; by apply IH3|].
  destruct r3 as [|d r4]; [done|]. destruct i as [|i].
  { exfalso. bool_facts. by rewrite (boundary_lead c d r4) in Hb2. }
  cbn [take]. apply andb_prop in Hv as [-> Hv]. cbn [andb].
  apply (IH (length r4)); simpl; [lia|done|done|by apply boundary_tail in Hb3].
Qed.

Lemma valid_utf8_floor s n :
  valid_utf8 s = true → valid_utf8 (take (floor_char_boundary s n) s) = true.
Proof. intros. by apply valid_utf8_take, floor_char_boundary_ok. Qed.

Lemma valid_utf8_app s t :
  valid_utf8 s = true → valid_utf8 t = true → valid_utf8 (s ++ t) = true.
Proof.
  intros Hs Ht. remember (length s) as n eqn:Hn. revert s Hn Hs.
  induction (lt_wf n) as [n _ IH]. intros s -> Hs.
  assert (∀ r, length r < length s → valid_utf8 r = true → valid_utf8 (r ++ t) = true) as IHs.
  { intros r Hr. by apply (IH (length r)). }
  destruct s as [|a r1]; [done|]. cbn [app valid_utf8] in *.
  destruct (byte a <? 128)%N; [apply IHs; simpl; done || lia|].
  destruct r1 as [|b r2]; [done|]. cbn [app] in *.
  destruct (in_range 0xC2 0xDF (byte a)).
  { apply andb_prop in Hs as [-> Hs]. apply IHs; simpl; done || lia. }
  destruct r2 as [|c r3]; [done|]. cbn [app] in *.
  assert (valid_utf8 r3 = true → valid_utf8 (r3 ++ t) = true) as IH3.
  { apply IHs. simpl. lia. }
  destruct (byte a =? 0xE0)%N; [apply andb_prop in Hs as [-> Hs]; by apply IH3|].
  destruct (byte a =? 0xED)%N; [apply andb_prop in Hs as [-> Hs]; by apply IH3|].
  destruct (in_range 0xE1 0xEF (byte a)); [apply andb_prop in Hs as [-> Hs]; by apply IH3|].
  destruct r3 as [|d r4]; [done|]. cbn [app] in *.
  apply andb_prop in Hs as [-> Hs]. apply IHs; simpl; done || lia.
Qed.

Lemma result_map_err_Ok {A E F} (f : E → F) (r : result A E) a :
  result_map_err f r = Ok a ↔ r = Ok a.
Proof. destruct r; cbn; naive_solver. Qed.

Lemma result_map_Ok {A B E} (f : A → B) (r : result A E) b :
  result_map f r = Ok b ↔ ∃ a, r = Ok a ∧ b = f a.
Proof. destruct r; cbn; naive_solver. Qed.

#[export] Hint Resolve starts_with_app split_once_app trim_length
  floor_char_boundary_le floor_char_boundary_ok : rust.

(** ** Decimal numbers *)

Lemma dec_inj a b : dec a = dec b → a = b.
Proof.
  unfold dec, lit. intros E. apply (inj pretty).
  apply (f_equal String.string_of_list_ascii) in E.
  by rewrite !String.string_of_list_ascii_of_string in E.
Qed.

Lemma pretty_N_go_digits (x : N) (s : string) :
  forallb is_ascii_digit (lit s) = true → forallb is_ascii_digit (lit (pretty_N_go x s)) = true.
Proof.
  revert s. induction (N.lt_wf_0 x) as [x _ IH]; intros s Hs.
  destruct (decide (0 < x)%N) as [Hx|]; [|assert (x = 0)%N as -> by lia; by rewrite pretty_N_go_0].
  rewrite pretty_N_go_step by done. apply IH; [by apply N.div_lt|].
  unfold lit. cbn [String.list_ascii_of_string forallb]. unfold lit in Hs. rewrite Hs, andb_true_r.
  unfold pretty_N_char. by repeat case_match.
Qed.

Lemma dec_digits n : forallb is_ascii_digit (dec (Z.of_nat n)) = true.
Proof.
  destruct n as [|n]; [done|]. unfold dec.
  change (pretty (Z.of_nat (S n))) with (pretty_N_go (N.pos (Pos.of_succ_nat n)) "").
  by apply pretty_N_go_digits.
Qed.
Lemma dec_nonempty n : is_empty (dec (Z.of_nat n)) = false.
Proof.
  destruct (is_empty (dec (Z.of_nat n))) eqn:E; [|done]. exfalso.
  destruct n as [|n]; [done|].
  assert (dec (Z.of_nat (S n)) = []) as E' by (by destruct (dec _)).
  unfold dec in E'. assert (pretty (Z.of_nat (S n)) = "") as Ep.
  { apply (f_equal String.string_of_list_ascii) in E'. unfold lit in E'.
    by rewrite String.string_of_list_ascii_of_string in E'. }
  assert (pretty_N_go (N.pos (Pos.of_succ_nat n)) "" = "") as Eg by exact Ep.
  assert (∀ x c s, pretty_N_go x (String c s) ≠ "") as Hne;
    [|rewrite pretty_N_go_step in Eg by done; exact (Hne _ _ _ Eg)].
  intros x. induction (N.lt_wf_0 x) as [x _ IH]; intros c s.
  destruct (decide (0 < x)%N) as [Hx|]; [|assert (x = 0)%N as -> by lia; by rewrite pretty_N_go_0].
  rewrite pretty_N_go_step by done. apply IH. by apply N.div_lt.
Qed.

Lemma digits_notin c s : is_ascii_digit c = false → forallb is_ascii_digit s = true → c ∉ s.
Proof.
  intros Hc Hs Hin. apply list_elem_of_In, (proj1 (forallb_forall _ _) Hs) in Hin. congruence.
Qed.
