(* ===== verification/F64.v ===== *)
(** * F64: doubles

    The binary64 operations the sources use, on the standard library's
    [SpecFloat]: decoding of a bit pattern, comparison and clamping, the
    saturating casts to integers, [str::parse::<f64>], the quotient of two
    integers and the bit pattern of a result. *)

From Stdlib Require Import SpecFloat.
From S2P Require Import Prelude.

(** An [f64], by its bit pattern. *)
Definition f64 := Z.

Definition f64_decode (bits : f64) : spec_float :=
  let s := Z.testbit bits 63 in
  let e := ((bits / 2 ^ 52) mod 2 ^ 11)%Z in
  let m := (bits mod 2 ^ 52)%Z in
  if (e =? 0)%Z then match m with Z.pos p => S754_finite s p (-1074) | _ => S754_zero s end
  else if (e =? 2047)%Z then match m with Z0 => S754_infinity s | _ => S754_nan end
  else match (m + 2 ^ 52)%Z with Z.pos p => S754_finite s p (e - 1075) | _ => S754_nan end.

Definition f64_zero : spec_float := S754_zero false.
Definition f64_one : spec_float := S754_finite false (2 ^ 52) (-52).
Definition f64_ten : spec_float := S754_finite false (5 * 2 ^ 50) (-49).
Definition f64_hundred : spec_float := S754_finite false (25 * 2 ^ 48) (-46).

Definition f64_lt (x y : spec_float) : bool :=
  match SFcompare x y with Some Lt => true | _ => false end.

(** [f64::clamp]; a NaN passes through. *)
Definition f64_clamp (lo hi x : spec_float) : spec_float :=
  if f64_lt x lo then lo else if f64_lt hi x then hi else x.

Definition f64_div : spec_float → spec_float → spec_float := SFdiv 53 1024.
(** [n as f64] *)
Definition f64_of_int (n : Z) : spec_float := binary_normalize 53 1024 n 0 false.

(** The bit pattern of a number that is zero or in the normal range. *)
Definition f64_encode (x : spec_float) : f64 :=
  match x with
  | S754_finite s m e =>
      ((if s then 2 ^ 63 else 0) + (e + 1075) * 2 ^ 52 + (Z.pos m - 2 ^ 52))%Z
  | S754_zero true => (2 ^ 63)%Z
  | _ => 0%Z
  end.

Definition f64_mul : spec_float → spec_float → spec_float := SFmul 53 1024.

(** [f64::round] (halves away from zero) followed by [as usize] or [as u32]:
    a NaN or a negative number becomes 0, and what does not fit saturates at
    [max]. *)
Definition f64_round_as (max : Z) (x : spec_float) : Z :=
  match x with
  | S754_finite false m e =>
      Z.min max (if (0 <=? e)%Z then Z.pos m * 2 ^ e
                 else (Z.pos m + 2 ^ (- e - 1)) / 2 ^ (- e))
  | S754_infinity false => max
  | _ => 0
  end%Z.

(** [as i64]: towards zero, saturating; a NaN becomes 0. *)
Definition f64_as_i64 (x : spec_float) : Z :=
  match x with
  | S754_finite s m e =>
      let a := if (0 <=? e)%Z then (Z.pos m * 2 ^ e)%Z else (Z.pos m / 2 ^ (- e))%Z in
      if s then Z.max i64_min (- a) else Z.min i64_max a
  | S754_infinity s => if s then i64_min else i64_max
  | _ => 0
  end%Z.

(** ** Parsing *)

Fixpoint span_digits (s : str) : str * str :=
  match s with
  | c :: r => if is_ascii_digit c then let '(d, r') := span_digits r in (c :: d, r') else ([], s)
  | [] => ([], [])
  end.

Definition digits_value (ds : str) : Z :=
  fold_left (λ n c, 10 * n + (Z.of_N (byte c) - 48))%Z ds 0%Z.

Definition take_sign (s : str) : bool * str :=
  match s with
  | "-"%char :: r => (true, r)
  | "+"%char :: r => (false, r)
  | _ => (false, s)
  end.

(** The digits of a number as an integer, and the power of ten it is scaled
    by. *)
Definition parse_decimal (s : str) : option (Z * Z) :=
  let '(int, r) := span_digits s in
  let '(frac, r) := match r with "."%char :: r' => span_digits r' | _ => ([], r) end in
  if is_empty (int ++ frac) then None
  else
    let m := digits_value (int ++ frac) in
    let e := (- Z.of_nat (length frac))%Z in
    match r with
    | [] => Some (m, e)
    | c :: r' =>
        if negb (bool_decide (ascii_lower c = "e"%char)) then None
        else
          let '(neg, r') := take_sign r' in
          let '(ds, rest) := span_digits r' in
          if is_empty ds || negb (is_empty rest) then None
          else Some (m, (if neg : bool then e - digits_value ds else e + digits_value ds)%Z)
    end.

(** The double nearest to [m] times ten to the [e]. *)
Definition f64_of_decimal (neg : bool) (m e : Z) : spec_float :=
  match m with
  | Z.pos p =>
      if (0 <=? e)%Z then
        let x := binary_normalize 53 1024 (m * 10 ^ e) 0 false in
        if neg then SFopp x else x
      else
        match (10 ^ (- e))%Z with
        | Z.pos q => SFdiv 53 1024 (S754_finite neg p 0) (S754_finite false q 0)
        | _ => S754_nan
        end
  | _ => S754_zero neg
  end.

Definition parse_f64 (s : str) : option spec_float :=
  let '(neg, r) := take_sign s in
  let word := to_ascii_lowercase r in
  if bool_decide (word = §"inf") || bool_decide (word = §"infinity") then Some (S754_infinity neg)
  else if bool_decide (word = §"nan") then Some S754_nan
  else (λ '(m, e), f64_of_decimal neg m e) <$> parse_decimal r.

Example parse_half : f64_as_i64 <$> parse_f64 §"1788600000.5" = Some 1788600000%Z.
Proof. vm_compute. reflexivity. Qed.
Example parse_exponent : f64_as_i64 <$> parse_f64 §"1.7886E+9" = Some 1788600000%Z.
Proof. vm_compute. reflexivity. Qed.
Example parse_tenth : parse_f64 §".1" = Some (f64_decode 0x3FB999999999999A%Z).
Proof. vm_compute. reflexivity. Qed.
Example parse_dot : parse_f64 §"." = None.
Proof. vm_compute. reflexivity. Qed.

Lemma f64_as_i64_range x : (i64_min ≤ f64_as_i64 x ≤ i64_max)%Z.
Proof.
  assert (∀ m e : Z, 0 ≤ m → 0 ≤ (if (0 <=? e) then m * 2 ^ e else m / 2 ^ (- e)))%Z as Ha.
  { intros m e Hm. case_if; bool_facts.
    - pose proof (Z.pow_nonneg 2 e). nia.
    - apply Z.div_pos; [done|]. apply Z.pow_pos_nonneg; lia. }
  unfold f64_as_i64, i64_min, i64_max. destruct x as [|[]| |[] m e]; try lia;
    specialize (Ha (Z.pos m) e ltac:(lia)); lia.
Qed.
