(* ===== verification/Json.v ===== *)
(** * Json: the [serde_json] value type the program passes around

    [serde_json] is a third-party crate; this file has the data type its
    documentation describes, the accessors the sources call, and the printer
    and the parser as the operations of a class ([SerdeJson]), which no file
    of the development fixes.  Objects are [BTreeMap]s (the workspace does not
    enable [preserve_order]): association lists whose keys [insert] keeps in
    byte order. *)

From S2P Require Import Prelude.

Module Value.
Inductive number :=
  | Int (z : Z)
  (** a double, by its bit pattern *)
  | Float (bits : Z).

Inductive t :=
  | Null
  | Bool (b : bool)
  | Number (n : number)
  | String (s : str)
  | Array (l : list t)
  | Object (m : list (str * t)).
End Value.

Abbreviation Value := Value.t.
Abbreviation JsonMap := (list (str * Value)).

(** Induction with the hypothesis for every element and every entry. *)
Section ValueInd.
Variable P : Value → Prop.
Hypothesis leaf : ∀ v, (∀ l, v ≠ Value.Array l) → (∀ m, v ≠ Value.Object m) → P v.
Hypothesis array : ∀ l, Forall P l → P (Value.Array l).
Hypothesis object : ∀ m, Forall (λ e, P e.2) m → P (Value.Object m).

Fixpoint Value_nested_ind (v : Value) : P v :=
  match v with
  | Value.Array l =>
      array l ((fix all (l : list Value) : Forall P l :=
        match l with
        | [] => @List.Forall_nil _ P
        | x :: l' => @List.Forall_cons _ P x l' (Value_nested_ind x) (all l')
        end) l)
  | Value.Object m =>
      object m ((fix all (m : JsonMap) : Forall (λ e, P e.2) m :=
        match m with
        | [] => @List.Forall_nil _ (λ e, P e.2)
        | e :: m' => @List.Forall_cons _ (λ e, P e.2) e m' (Value_nested_ind e.2) (all m')
        end) m)
  | v => leaf v ltac:(done) ltac:(done)
  end.
End ValueInd.

(** ** [serde_json::Map] *)
Module Map.
Fixpoint get (k : str) (m : JsonMap) : option Value :=
  match m with
  | [] => None
  | (k', v) :: m' => if decide (k = k') then Some v else get k m'
  end.

Fixpoint insert (k : str) (v : Value) (m : JsonMap) : JsonMap :=
  match m with
  | [] => [(k, v)]
  | (k', v') :: m' =>
      match str_compare k k' with
      | Eq => (k, v) :: m'
      | Lt => (k, v) :: m
      | Gt => (k', v') :: insert k v m'
      end
  end.

Fixpoint remove (k : str) (m : JsonMap) : JsonMap :=
  match m with
  | [] => []
  | (k', v) :: m' => if decide (k = k') then remove k m' else (k', v) :: remove k m'
  end.

Definition keys (m : JsonMap) : list str := m.*1.

Lemma get_insert_eq k v m : get k (insert k v m) = Some v.
Proof.
  induction m as [|[k' v'] m IH]; simpl.
  - by rewrite decide_True.
  - destruct (str_compare k k') eqn:E; simpl; [by rewrite decide_True..|].
    rewrite decide_False; [done|]. intros ->.
    assert (str_compare k' k' = Eq) by by apply str_compare_eq. congruence.
Qed.

Lemma get_insert_ne k k' v m : k ≠ k' → get k' (insert k v m) = get k' m.
Proof.
  intros Hne. induction m as [|[k2 v2] m IH]; simpl.
  - by rewrite decide_False by done.
  - destruct (str_compare k k2) eqn:E; simpl.
    + apply str_compare_eq in E as <-. by rewrite !decide_False by done.
    + by rewrite decide_False by done.
    + case_decide; done.
Qed.

Lemma get_remove_eq k m : get k (remove k m) = None.
Proof.
  induction m as [|[k' v] m IH]; simpl; [done|].
  case_decide as E; simpl; [done|]. by rewrite decide_False by done.
Qed.

Lemma get_remove_ne k k' m : k ≠ k' → get k' (remove k m) = get k' m.
Proof.
  intros Hne. induction m as [|[k2 v] m IH]; simpl; [done|].
  case_decide as E; subst; simpl; [by rewrite decide_False by done|].
  by case_decide.
Qed.

Lemma elem_of_keys_insert x k v m : x ∈ keys (insert k v m) ↔ x = k ∨ x ∈ keys m.
Proof.
  induction m as [|[k' v'] m IH]; simpl; [set_solver|].
  destruct (str_compare k k') eqn:E; simpl; [|set_solver..].
  apply str_compare_eq in E as ->. set_solver.
Qed.
(** ** Objects with keys in order are determined by [get] *)

Definition below (k : str) (m : JsonMap) : Prop :=
  Forall (λ e, str_compare k e.1 = Lt) m.

Fixpoint ordered (m : JsonMap) : Prop :=
  match m with
  | [] => True
  | (k, _) :: m' => below k m' ∧ ordered m'
  end.

Lemma str_compare_lt_trans s t u :
  str_compare s t = Lt → str_compare t u = Lt → str_compare s u = Lt.
Proof.
  revert t u. induction s as [|a s IH]; intros [|b t] [|c u]; simpl; try done.
  destruct (N.compare_spec (byte a) (byte b)), (N.compare_spec (byte b) (byte c)),
    (N.compare_spec (byte a) (byte c)); try done; try lia. apply IH.
Qed.

Lemma str_compare_gt s t : str_compare s t = Gt → str_compare t s = Lt.
Proof. intros H. rewrite (str_compare_antisym s t), H. done. Qed.

Lemma below_trans k k' m : str_compare k k' = Lt → below k' m → below k m.
Proof.
  intros Hk Hm. eapply Forall_impl; [exact Hm|]. intros e. by apply str_compare_lt_trans.
Qed.

Lemma below_get k m : below k m → get k m = None.
Proof.
  induction 1 as [|[k' v] m Hk _ IH]; cbn; [done|]. rewrite decide_False; [done|].
  intros ->. assert (str_compare k' k' = Eq) by by apply str_compare_eq. cbn in Hk. congruence.
Qed.

Lemma below_insert k k' v m :
  str_compare k k' = Lt → below k m → below k (insert k' v m).
Proof.
  intros Hk Hm. induction Hm as [|[k2 v2] m H2 Hm IH]; cbn [insert]; [by apply Forall_singleton|].
  destruct (str_compare k' k2); constructor; try done.
  by constructor.
Qed.

Lemma insert_ordered k v m : ordered m → ordered (insert k v m).
Proof.
  induction m as [|[k' v'] m IH]; cbn [insert ordered]; [by repeat constructor|]. intros [Hb Ho].
  destruct (str_compare k k') eqn:E; cbn [ordered].
  - apply str_compare_eq in E as ->. done.
  - split; [|done]. constructor; [done|]. by eapply below_trans.
  - split; [|auto]. apply below_insert; [by apply str_compare_gt|done].
Qed.

Lemma remove_incl k m e : e ∈ remove k m → e ∈ m.
Proof.
  induction m as [|[k' v] m IH]; cbn; [done|]. case_decide; set_solver.
Qed.

Lemma remove_ordered k m : ordered m → ordered (remove k m).
Proof.
  induction m as [|[k' v] m IH]; cbn [remove ordered]; [done|]. intros [Hb Ho].
  case_decide; [auto|]. cbn [ordered]. split; [|auto].
  apply Forall_forall. intros e He%remove_incl. by apply (proj1 (Forall_forall _ _) Hb).
Qed.

Lemma ordered_ext m1 m2 : ordered m1 → ordered m2 → (∀ k, get k m1 = get k m2) → m1 = m2.
Proof.
  revert m2. induction m1 as [|[k1 v1] m1 IH]; intros [|[k2 v2] m2]; cbn [ordered]; try done.
  - intros _ _ H. specialize (H k2). cbn in H. by rewrite decide_True in H.
  - intros _ _ H. specialize (H k1). cbn in H. by rewrite decide_True in H.
  - intros [Hb1 Ho1] [Hb2 Ho2] H.
    assert (k1 = k2) as <-.
    { destruct (decide (k1 = k2)) as [|E]; [done|]. exfalso. pose proof (H k1) as H1. pose proof (H k2) as H2. cbn in H1, H2.
      rewrite decide_True, decide_False in H1 by done.
      rewrite decide_False, decide_True in H2 by done.
      destruct (str_compare k1 k2) eqn:C; [by apply E, str_compare_eq| |].
      - rewrite (below_get k1 m2) in H1; [done|]. by eapply below_trans.
      - apply str_compare_gt in C. rewrite (below_get k2 m1) in H2; [done|].
        by eapply below_trans. }
    assert (v1 = v2) as <-.
    { specialize (H k1). cbn in H. rewrite !decide_True in H by done. congruence. }
    f_equal. apply IH; [done..|]. intros k. specialize (H k). cbn in H.
    case_decide as E; [|done]. subst. by rewrite !below_get.
Qed.

(** Inserting a list of bindings, the last of which wins. *)
Definition insert_all (l : list (str * Value)) (m : JsonMap) : JsonMap :=
  fold_left (λ m '(k, v), insert k v m) l m.

Lemma insert_all_ordered l m : ordered m → ordered (insert_all l m).
Proof.
  revert m. induction l as [|[k v] l IH]; intros m Hm; [done|]. by apply IH, insert_ordered.
Qed.

Lemma get_insert_all_notin k l m : k ∉ l.*1 → get k (insert_all l m) = get k m.
Proof.
  revert m. induction l as [|[k' v] l IH]; intros m Hk; [done|]. cbn in Hk.
  change (get k (insert_all l (insert k' v m)) = get k m). rewrite IH by set_solver. apply get_insert_ne. set_solver.
Qed.

Lemma get_insert_all_congr k l m m' :
  get k m = get k m' → get k (insert_all l m) = get k (insert_all l m').
Proof.
  revert m m'. induction l as [|[k' v] l IH]; intros m m' E; [done|]. apply IH.
  destruct (decide (k' = k)) as [->|]; [by rewrite !get_insert_eq|].
  by rewrite !get_insert_ne.
Qed.
(** With every key bound once, the bindings are what [get] finds in the list. *)
Lemma get_insert_all_ordered k l m :
  ordered l → get k (insert_all l m) = match get k l with Some v => Some v | None => get k m end.
Proof.
  revert m. induction l as [|[k' v] l IH]; intros m; [done|]. intros [Hb Ho].
  change (get k (insert_all l (insert k' v m)) =
    match get k ((k', v) :: l) with Some v => Some v | None => get k m end).
  rewrite IH by done. cbn [get]. case_decide as E; subst.
  - rewrite below_get by done. by rewrite get_insert_eq.
  - by rewrite get_insert_ne by congruence.
Qed.
End Map.

(** ** Accessors *)

Definition value_get (k : str) (v : Value) : option Value :=
  match v with Value.Object m => Map.get k m | _ => None end.

Definition as_str (v : Value) : option str :=
  match v with Value.String s => Some s | _ => None end.

Definition as_u64 (v : Value) : option Z :=
  match v with
  | Value.Number (Value.Int z) =>
      if decide (0 ≤ z ≤ u64_max)%Z then Some z else None
  | _ => None
  end.

Definition as_bool (v : Value) : option bool :=
  match v with Value.Bool b => Some b | _ => None end.

Definition is_object (v : Value) : bool :=
  match v with Value.Object _ => true | _ => false end.

(** [v.get(k).and_then(Value::as_str)] *)
Definition get_str (k : str) (v : Value) : option str := value_get k v ≫= as_str.

(** [json!({ k1: v1, ... })] *)
Definition json_object (l : list (str * Value)) : Value :=
  Value.Object (Map.insert_all l []).

(** ** The printer and the parser, left abstract *)

Class SerdeJson := {
  (** [serde_json::to_string] / [Display for Value]: compact, one line *)
  json_to_string : Value → str;
  (** [serde_json::from_str], [from_slice] *)
  json_from_str : str → option Value;
}.

(** The documented round trip, for one value (it does not hold of every value:
    the parser bounds the nesting depth and need not reproduce a double). *)
Definition json_roundtrips `{SerdeJson} (v : Value) : Prop :=
  json_from_str (json_to_string v) = Some v.

(** An instance that knows three values, enough to evaluate the models. *)
Definition sample_json : SerdeJson := {|
  json_to_string v :=
    match v with
    | Value.Null => §"null"
    | Value.Bool true => §"true"
    | Value.Bool false => §"false"
    | _ => §"?"
    end;
  json_from_str s :=
    if decide (s = §"null") then Some Value.Null
    else if decide (s = §"true") then Some (Value.Bool true)
    else if decide (s = §"false") then Some (Value.Bool false)
    else None;
|}.
