(* ===== verification/Errors.v ===== *)
(** * Errors: [TritonError] (crates/triton-core/src/error.rs)

    The typed errors of the dispatcher, their audit class, the HTTP status
    every surface derives from them and the sentence a person sees. *)

From S2P Require Import Prelude.

Inductive TritonError :=
  | Auth (m : str)
  | Forbidden (m : str)
  | Validation (m : str)
  | Tool (m : str)
  | Provider (m : str)
  | RateLimited (m : str).

#[export] Instance TritonError_eq_dec : EqDecision TritonError.
Proof. solve_decision. Defined.

Definition message (e : TritonError) : str :=
  match e with
  | Auth m | Forbidden m | Validation m | Tool m | Provider m | RateLimited m => m
  end.

Definition class (e : TritonError) : str :=
  match e with
  | Auth _ => §"auth"
  | Forbidden _ => §"forbidden"
  | Validation _ => §"validation"
  | Tool _ => §"tool"
  | Provider _ => §"provider"
  | RateLimited _ => §"ratelimit"
  end.

(** [Display]: the class, a colon, the message. *)
Definition to_string (e : TritonError) : str := class e ++ §": " ++ message e.

Definition user_notice (e : TritonError) : str :=
  match e with
  | Tool _ | Provider _ => §"I encountered an issue processing that request with our data tools. Please check your query parameters or try again in a moment."
  | RateLimited _ => §"The service is temporarily busy. Please wait a moment and try again."
  | Auth _ | Forbidden _ => §"Authentication or authorization check failed for this request."
  | Validation _ => §"An unexpected error occurred while processing your request. Please try again."
  end.

Definition is_circuit_open (e : TritonError) : bool :=
  match e with Tool m => starts_with §"circuit_open" m | _ => false end.

Definition is_tool_timeout (e : TritonError) : bool :=
  match e with Tool m => contains §"timed out" m | _ => false end.

Definition http_status (e : TritonError) : Z :=
  if is_circuit_open e then 503
  else if is_tool_timeout e then 504
  else match e with
       | Auth _ => 401
       | Forbidden _ => 403
       | Validation _ => 400
       | Tool _ | Provider _ => 502
       | RateLimited _ => 429
       end.

(** Every error answers with a client or server error status. *)
Lemma http_status_error e : (400 ≤ http_status e ≤ 504)%Z.
Proof. unfold http_status. repeat case_if; destruct e; lia. Qed.

Lemma http_status_circuit_open m :
  http_status (Tool (§"circuit_open" ++ m)) = 503%Z.
Proof.
  unfold http_status, is_circuit_open. by rewrite starts_with_app.
Qed.
