(* ===== verification/Principal.v ===== *)
(** * Principal: the verified identity (crates/triton-core/src/principal.rs)

    [Principal] is the credentialed identity the dispatcher and the upstream
    router hold, [ToolPrincipal] the redacted view a tool sees;
    [validate_resolved] is the boundary check on what an out-of-process
    identity resolver returned. *)

From S2P Require Import Prelude Json Errors.

Record IdpIdentity := {
  name : str;
  idp_tenant : option str;
  email : option str;
  issuer : option str;
}.

Record Principal := {
  sub : str;
  scopes : list str;
  groups : list str;
  tenant : str;
  raw_token : str;
  trace_id : str;
  sender_ref : option str;
  conversation_ref : option Value;
  idp : option IdpIdentity;
}.

Record ToolPrincipal := {
  tp_sub : str;
  tp_scopes : list str;
  tp_groups : list str;
  tp_tenant : str;
  tp_trace_id : str;
  tp_conversation_ref : option Value;
}.

Definition to_tool_principal (p : Principal) : ToolPrincipal :=
  {| tp_sub := sub p; tp_scopes := scopes p; tp_groups := groups p;
     tp_tenant := tenant p; tp_trace_id := trace_id p;
     tp_conversation_ref := conversation_ref p |}.

(** [IdpIdentity::new], [issuer], [tenant] and [email]: the builders
    normalise blank values away. *)
Definition IdpIdentity_new (n : str) : IdpIdentity :=
  {| name := n; idp_tenant := None; email := None; issuer := None |}.

Definition IdpIdentity_issuer (i : IdpIdentity) (s : str) : IdpIdentity :=
  {| name := name i; idp_tenant := idp_tenant i; email := email i; issuer := Some s |}.

Definition IdpIdentity_tenant (i : IdpIdentity) (t : option str) : IdpIdentity :=
  {| name := name i;
     idp_tenant := t ≫= λ t, if is_empty (trim t) then None else Some t;
     email := email i; issuer := issuer i |}.

Definition IdpIdentity_email (i : IdpIdentity) (e : option str) : IdpIdentity :=
  {| name := name i; idp_tenant := idp_tenant i;
     email := e ≫= λ e, let e := to_ascii_lowercase (trim e) in
                        if is_empty e then None else Some e;
     issuer := issuer i |}.

Definition MAX_RESOLVED_FIELD_LEN : nat := 128.

Definition RESERVED_TENANTS : list str := [§"-"; §"pairing"; §""].

Definition is_reserved_tenant (t : str) : bool :=
  bool_decide (trim t ∈ RESERVED_TENANTS).

(** One round of the loop of [validate_resolved]. *)
Definition validate_resolved_field (field value : str) : result unit TritonError :=
  if is_empty (trim value) then
    Err (Auth (§"identity resolver returned an empty " ++ field))
  else if (MAX_RESOLVED_FIELD_LEN <? length value)%nat then
    Err (Auth (§"identity resolver returned a " ++ field ++ §" of "
                 ++ dec (Z.of_nat (length value)) ++ §" bytes, over the 128-byte cap"))
  else if has_whitespace value || has_control value then
    Err (Auth (§"identity resolver returned a " ++ field
                 ++ §" containing whitespace or control characters"))
  else Ok ().

Definition validate_resolved (sub tenant : str) : result unit TritonError :=
  _ ←? validate_resolved_field §"sub" sub;
  validate_resolved_field §"tenant" tenant.

(** ** Properties *)

(** What a value must look like to become a map key or a signed claim. *)
Definition well_formed_field (v : str) : Prop :=
  trim v ≠ [] ∧ length v ≤ MAX_RESOLVED_FIELD_LEN
  ∧ has_whitespace v = false ∧ has_control v = false.

Lemma validate_resolved_field_ok field v :
  validate_resolved_field field v = Ok () ↔ well_formed_field v.
Proof.
  unfold validate_resolved_field, well_formed_field.
  destruct (trim v) eqn:E; simpl; [naive_solver|].
  destruct (MAX_RESOLVED_FIELD_LEN <? length v)%nat eqn:L; bool_facts.
  - split; [done|]. intros (_ & ? & _). lia.
  - destruct (has_whitespace v), (has_control v); simpl; naive_solver.
Qed.

Lemma validate_resolved_ok s t :
  validate_resolved s t = Ok () ↔ well_formed_field s ∧ well_formed_field t.
Proof.
  unfold validate_resolved, result_bind.
  rewrite <-(validate_resolved_field_ok §"sub" s),
    <-(validate_resolved_field_ok §"tenant" t).
  destruct (validate_resolved_field _ s) as [[]|]; naive_solver.
Qed.
