(* ===== verification/RateLimit.v ===== *)
(** * RateLimit: token buckets and the rejection window
    (crates/triton-core/src/ratelimit.rs)

    The bucket arithmetic of the source is [f64].  The operations it uses are
    the class [Float64]; the models are written over any instance.  Two are
    given: [binary64] is IEEE-754 double precision as the Standard Library
    specifies it, in which the definitions evaluate like the program, and
    [exact] is rational arithmetic, in which the admission bound is proved.
    What the tenant map guarantees (capacity, eviction safety, isolation) does
    not depend on rounding and is proved for every instance.

    [Instant]s and [Duration]s are nanoseconds in [Z]; [Instant::now()] is an
    argument, one per reading the code makes.  The mutexes make each operation
    atomic, so an operation is a function on the state. *)

From Stdlib Require Import QArith Qminmax Lqa Sorted.
From Stdlib Require Import SpecFloat.
From S2P Require Import Prelude.

(** ** The arithmetic *)

Class Float64 (F : Type) := {
  f_of_u32 : Z → F;
  (** [Duration::as_secs_f64], of a duration in nanoseconds *)
  f_secs : Z → F;
  f_one : F;
  f_zero : F;
  f_add : F → F → F;
  f_sub : F → F → F;
  f_mul : F → F → F;
  f_div : F → F → F;
  f_min : F → F → F;
  f_leb : F → F → bool;
  f_ltb : F → F → bool;
}.

Module binary64.
Definition prec : Z := 53.
Definition emax : Z := 1024.
Definition of_Z (n : Z) : spec_float := binary_normalize prec emax n 0 false.
Definition is_nan (x : spec_float) : bool :=
  match x with S754_nan => true | _ => false end.
Definition min (x y : spec_float) : spec_float :=
  match SFcompare x y with
  | Some Gt => y
  | Some _ => x
  | None => if is_nan x then y else x
  end.
Definition secs (ns : Z) : spec_float :=
  SFadd prec emax (of_Z (ns / 10 ^ 9))
    (SFdiv prec emax (of_Z (ns mod 10 ^ 9)) (of_Z (10 ^ 9))).

#[global] Instance ops : Float64 spec_float := {
  f_of_u32 := of_Z;
  f_secs := secs;
  f_one := of_Z 1;
  f_zero := of_Z 0;
  f_add := SFadd prec emax;
  f_sub := SFsub prec emax;
  f_mul := SFmul prec emax;
  f_div := SFdiv prec emax;
  f_min := min;
  f_leb := SFleb;
  f_ltb := SFltb;
}.
End binary64.

Module exact.
Definition secs (ns : Z) : Q := Qmake ns 1000000000.
Definition ltb (x y : Q) : bool := negb (Qle_bool y x).

#[global] Instance ops : Float64 Q := {
  f_of_u32 := inject_Z;
  f_secs := secs;
  f_one := 1%Q;
  f_zero := 0%Q;
  f_add := Qplus;
  f_sub := Qminus;
  f_mul := Qmult;
  f_div := Qdiv;
  f_min := Qmin;
  f_leb := Qle_bool;
  f_ltb := ltb;
}.
End exact.

(** [now.duration_since(earlier)] saturates at zero. *)
Definition duration_since (now earlier : Z) : Z := Z.max 0 (now - earlier).

(** ** [TokenBucket] *)
Section TokenBucket.
Context {F : Type} `{Float64 F}.

Record TokenBucket := {
  rate : F;
  burst : F;
  tokens : F;
  last_refill : Z;
}.

(** The payload of a refusal: seconds to wait, or [f64::INFINITY]. *)
Inductive RetryAfter :=
  | After (secs : F)
  | Infinity.

Definition TokenBucket_new (messages_per_sec burst now : Z) : TokenBucket :=
  let burst_f := f_of_u32 (Z.max burst 1) in
  {| rate := f_of_u32 messages_per_sec; burst := burst_f;
     tokens := burst_f; last_refill := now |}.

(** The refill both operations start with. *)
Definition refill (now : Z) (b : TokenBucket) : TokenBucket :=
  let elapsed := f_secs (duration_since now (last_refill b)) in
  {| rate := rate b; burst := burst b;
     tokens := f_min (f_add (tokens b) (f_mul elapsed (rate b))) (burst b);
     last_refill := now |}.

Definition is_replenished (now : Z) (b : TokenBucket) : bool * TokenBucket :=
  let b := refill now b in
  (f_leb (burst b) (tokens b), b).

Definition try_take (now : Z) (b : TokenBucket) : result unit RetryAfter * TokenBucket :=
  let b := refill now b in
  if f_leb f_one (tokens b) then
    (Ok (), {| rate := rate b; burst := burst b;
               tokens := f_sub (tokens b) f_one; last_refill := last_refill b |})
  else
    let retry := if f_ltb f_zero (rate b)
                 then After (f_div (f_sub f_one (tokens b)) (rate b))
                 else Infinity in
    (Err retry, b).

(** A run of [try_take] at the given instants: how many were admitted. *)
Fixpoint take_run (b : TokenBucket) (nows : list Z) : Z * TokenBucket :=
  match nows with
  | [] => (0%Z, b)
  | now :: nows' =>
      let '(r, b1) := try_take now b in
      let '(k, b2) := take_run b1 nows' in
      ((if is_ok r then 1 + k else k)%Z, b2)
  end.
End TokenBucket.
Arguments TokenBucket F : clear implicits.
Arguments RetryAfter F : clear implicits.

(** ** [PerTenantBuckets] *)

Definition MAX_TENANT_BUCKETS : nat := 4096.

Section PerTenantBuckets.
Context {F : Type} `{Float64 F}.

Record Tracked := {
  bucket : TokenBucket F;
  last_used : Z;
}.

Record PerTenantBuckets := {
  pt_rate : Z;
  pt_burst : Z;
  buckets : gmap str Tracked;
  map_full_refusals : Z;
}.

(** The clock readings of one [try_take]: on entry, one per bucket the
    eviction scan tests, when a bucket is created, and when the token is
    taken. *)
Record Readings := {
  at_entry : Z;
  at_scan : str → Z;
  at_create : Z;
  at_take : Z;
}.

(** The order in which the [HashMap] is iterated, which the program does not
    control. *)
Variable iter : gmap str Tracked → list (str * Tracked).

Definition PerTenantBuckets_new (messages_per_sec burst : Z) : PerTenantBuckets :=
  {| pt_rate := messages_per_sec; pt_burst := burst; buckets := ∅;
     map_full_refusals := 0 |}.

(** The predicate of the scan refills the buckets it tests. *)
Definition scan_bucket (c : Readings) (tenant k : str) (t : Tracked) : bool * Tracked :=
  if decide (k = tenant) then (false, t)
  else let '(full, b) := is_replenished (at_scan c k) (bucket t) in
       (full, {| bucket := b; last_used := last_used t |}).

(** [min_by_key]: the first of the smallest. *)
Fixpoint min_by_last_used (l : list (str * Tracked)) : option (str * Tracked) :=
  match l with
  | [] => None
  | kt :: l' =>
      match min_by_last_used l' with
      | Some kt' => if (last_used kt'.2 <? last_used kt.2)%Z then Some kt' else Some kt
      | None => Some kt
      end
  end.

Definition scanned (c : Readings) (tenant : str) (m : gmap str Tracked) : gmap str Tracked :=
  map_imap (λ k t, Some (scan_bucket c tenant k t).2) m.

Definition victim (c : Readings) (tenant : str) (m : gmap str Tracked) : option str :=
  fst <$> min_by_last_used
    (filter (λ kt, (scan_bucket c tenant kt.1 kt.2).1 = true) (iter m)).

Definition tenant_try_take (c : Readings) (tenant : str) (s : PerTenantBuckets)
    : result unit (RetryAfter F) * PerTenantBuckets :=
  let serve m :=
    let tracked :=
      match m !! tenant with
      | Some t => t
      | None => {| bucket := TokenBucket_new (pt_rate s) (pt_burst s) (at_create c);
                   last_used := at_entry c |}
      end in
    let '(r, b) := try_take (at_take c) (bucket tracked) in
    (r, {| pt_rate := pt_rate s; pt_burst := pt_burst s;
           buckets := <[tenant := {| bucket := b; last_used := at_entry c |}]> m;
           map_full_refusals := map_full_refusals s |}) in
  if (MAX_TENANT_BUCKETS <=? size (buckets s))%nat
     && bool_decide (buckets s !! tenant = None) then
    let m := scanned c tenant (buckets s) in
    match victim c tenant (buckets s) with
    | Some v => serve (delete v m)
    | None =>
        (Err (After f_one),
         {| pt_rate := pt_rate s; pt_burst := pt_burst s; buckets := m;
            map_full_refusals := u64_wrap (map_full_refusals s + 1) |})
    end
  else serve (buckets s).

(** States reachable from a fresh map. *)
Inductive pt_reachable (mps burst : Z) : PerTenantBuckets → Prop :=
  | pt_init : pt_reachable mps burst (PerTenantBuckets_new mps burst)
  | pt_step c tenant s :
      pt_reachable mps burst s →
      pt_reachable mps burst (tenant_try_take c tenant s).2.
End PerTenantBuckets.
Arguments Tracked F : clear implicits.
Arguments PerTenantBuckets F : clear implicits.

(** [retry_after.ceil().max(1.0) as u64] *)
Definition retry_secs (r : RetryAfter spec_float) : Z :=
  match r with
  | After (S754_finite false m e) =>
      Z.min u64_max (Z.max 1 (if (0 <=? e)%Z then Z.pos m * 2 ^ e else div_ceil (Z.pos m) (2 ^ (- e))))
  | After (S754_infinity false) | Infinity => u64_max
  | _ => 1
  end%Z.

(** ** [RejectionWindow] *)

Record WindowState := {
  opened : Z;
  suppressed : Z;
}.

Record RejectionWindow := {
  window : Z;
  win_state : gmap str WindowState;
}.

Definition RejectionWindow_new (w : Z) : RejectionWindow :=
  {| window := w; win_state := ∅ |}.

(** [Some n]: emit, standing for [n] more; [None]: swallowed. *)
Definition admit_rejection (now : Z) (key : str) (w : RejectionWindow)
    : option Z * RejectionWindow :=
  let set st := {| window := window w; win_state := <[key := st]> (win_state w) |} in
  if (window w =? 0)%Z then (Some 0%Z, w)
  else match win_state w !! key with
       | Some st =>
           if (duration_since now (opened st) <? window w)%Z then
             (None, set {| opened := opened st;
                           suppressed := u64_wrap (suppressed st + 1) |})
           else (Some (suppressed st), set {| opened := now; suppressed := 0 |})
       | None => (Some 0%Z, set {| opened := now; suppressed := 0 |})
       end.

(** A sequence of rejections: the lines emitted, in order, as the key, the
    instant and the count the line carries. *)
Fixpoint admit_run (w : RejectionWindow) (evs : list (Z * str))
    : list (str * Z * Z) * RejectionWindow :=
  match evs with
  | [] => ([], w)
  | (now, key) :: evs' =>
      let '(r, w1) := admit_rejection now key w in
      let '(out, w2) := admit_run w1 evs' in
      (match r with Some n => (key, now, n) :: out | None => out end, w2)
  end.

Lemma try_take_ok `{Float64 F} now (b : TokenBucket F) :
  f_leb f_one (tokens (refill now b)) = true → (try_take now b).1 = Ok ().
Proof. unfold try_take. by intros ->. Qed.

(** A refusal only refills, and carries the time one token takes. *)
Lemma try_take_refused `{Float64 F} now (b : TokenBucket F) e :
  (try_take now b).1 = Err e →
  (try_take now b).2 = refill now b ∧
  e = if f_ltb f_zero (rate (refill now b))
      then After (f_div (f_sub f_one (tokens (refill now b))) (rate (refill now b)))
      else Infinity.
Proof.
  unfold try_take. destruct (f_leb _ _); cbn [fst snd]; [done|].
  intros Heq. by injection Heq as <-.
Qed.

(** ** The bucket in exact arithmetic *)
Module ExactBucket.
Import exact.
Local Open Scope Q_scope.

Lemma secs_add a b : secs (a + b) == secs a + secs b.
Proof. unfold secs, Qeq, Qplus. simpl. lia. Qed.

Lemma secs_nonneg a : (0 ≤ a)%Z → 0 <= secs a.
Proof. unfold secs, Qle. simpl. lia. Qed.

(** What every reachable bucket satisfies. *)
Record wf (b : TokenBucket Q) : Prop := {
  wf_rate : 0 <= rate b;
  wf_burst : 1 <= burst b;
  wf_tokens : 0 <= tokens b;
  wf_cap : tokens b <= burst b;
}.

Lemma new_wf mps bst now : (0 ≤ mps)%Z → wf (TokenBucket_new mps bst now).
Proof.
  intros Hm.
  assert (1 <= inject_Z (Z.max bst 1))
    by (change 1 with (inject_Z 1); rewrite <-Zle_Qle; lia).
  split; simpl; [change 0 with (inject_Z 0); by rewrite <-Zle_Qle|lra..].
Qed.

Lemma refill_tokens now b :
  wf b →
  0 <= tokens (refill now b) /\ tokens (refill now b) <= burst b /\
  tokens (refill now b)
    <= tokens b + rate b * secs (duration_since now (last_refill b)).
Proof.
  intros [Hr Hb Ht Hc]. simpl.
  set (e := secs (duration_since now (last_refill b))).
  assert (0 <= e) by (apply secs_nonneg; unfold duration_since; lia).
  assert (0 <= e * rate b) by (by apply Qmult_le_0_compat).
  assert (e * rate b == rate b * e) by ring.
  repeat split.
  - apply Q.min_glb; lra.
  - apply Q.le_min_r.
  - eapply Qle_trans; [apply Q.le_min_l|]. lra.
Qed.

Lemma refill_wf now b : wf b → wf (refill now b).
Proof. intros W. destruct (refill_tokens now b W) as (? & ? & _). by destruct W. Qed.

Lemma try_take_wf now b : wf b → wf (try_take now b).2.
Proof.
  intros W. pose proof (refill_wf now b W) as [? ? ? ?]. unfold try_take.
  destruct (f_leb f_one (tokens (refill now b))) eqn:E; [|done].
  apply Qle_bool_iff in E. simpl f_one in E. split; simpl in *; [done..|lra|lra].
Qed.

Lemma try_take_budget now b :
  wf b →
  (if is_ok (try_take now b).1 then 1 else 0) + tokens (try_take now b).2
    <= tokens b + rate b * secs (duration_since now (last_refill b)).
Proof.
  intros W. destruct (refill_tokens now b W) as (_ & _ & H). unfold try_take.
  destruct (f_leb f_one (tokens (refill now b))); simpl in *; lra.
Qed.

Lemma try_take_frame now b :
  rate (try_take now b).2 = rate b ∧ burst (try_take now b).2 = burst b
  ∧ last_refill (try_take now b).2 = now.
Proof. unfold try_take. by case_if. Qed.

Lemma take_run_budget b nows :
  wf b → StronglySorted Z.le (last_refill b :: nows) →
  let '(k, b') := take_run b nows in
  0 <= tokens b' /\
  inject_Z k + tokens b'
    <= tokens b + rate b * secs (List.last nows (last_refill b) - last_refill b).
Proof.
  revert b. induction nows as [|now nows IH]; intros b W Hs.
  - simpl. destruct W. split; [done|].
    replace (last_refill b - last_refill b)%Z with 0%Z by lia.
    assert (secs 0 == 0) as -> by done. change (inject_Z 0) with 0. lra.
  - cbn [take_run].
    pose proof (try_take_wf now b W) as W1.
    pose proof (try_take_budget now b W) as B1.
    destruct (try_take_frame now b) as (Er & _ & El).
    destruct (try_take now b) as [r b1]; cbn [fst snd] in *.
    inversion_clear Hs as [|? ? Hs' Hle]. inversion_clear Hle as [|? ? Hn _].
    specialize (IH b1 W1). rewrite El in IH. specialize (IH Hs').
    destruct (take_run b1 nows) as [k b2]. destruct IH as [IH0 IH].
    split; [done|].
    assert (List.last (now :: nows) (last_refill b) = List.last nows now) as ->.
    { destruct nows as [|n nows]; [done|]. cbn. clear. revert n.
      induction nows as [|m nows IH]; intros n; [done|]. apply IH. }
    replace (duration_since now (last_refill b)) with (now - last_refill b)%Z in B1
      by (unfold duration_since; lia).
    replace (List.last nows now - last_refill b)%Z
      with ((List.last nows now - now) + (now - last_refill b))%Z by lia.
    rewrite Er in IH.
    assert (inject_Z (if is_ok r then 1 + k else k)
            == (if is_ok r then 1 else 0) + inject_Z k) as ->.
    { destruct (is_ok r); [rewrite inject_Z_plus; ring|ring]. }
    rewrite secs_add, Qmult_plus_distr_r. lra.
Qed.
End ExactBucket.

(** C11: over any run of requests a fresh bucket admits at most its burst plus
    the configured rate times the time that passed, whatever the request
    pattern: the quota [messages_per_sec]/[burst] of the manifest is enforced
    (in exact arithmetic). *)
Theorem token_bucket_admission_bound mps bst t0 nows :
  (0 ≤ mps)%Z → StronglySorted Z.le (t0 :: nows) →
  (inject_Z (take_run (F:=Q) (TokenBucket_new mps bst t0) nows).1
   <= inject_Z (Z.max bst 1) + inject_Z mps * exact.secs (List.last nows t0 - t0))%Q.
Proof.
  intros Hm Hs.
  pose proof (ExactBucket.take_run_budget (TokenBucket_new mps bst t0) nows
                (ExactBucket.new_wf _ _ _ Hm) Hs) as H.
  destruct (take_run _ nows) as [k b']. destruct H as [H0 H]. simpl in *. lra.
Qed.

Lemma token_bucket_admission_bound_witness :
  (take_run (F:=Q) (TokenBucket_new 2 3 0) [0; 0; 0; 0; 500000000; 500000001])%Z.1 = 4%Z
  ∧ (inject_Z (take_run (F:=Q) (TokenBucket_new 2 3 0)
                 [0; 0; 0; 0; 500000000; 500000001]%Z).1
     <= inject_Z (Z.max 3 1) + inject_Z 2 * exact.secs (500000001 - 0))%Q.
Proof.
  split; [by vm_compute|].
  apply (token_bucket_admission_bound 2 3 0 [0; 0; 0; 0; 500000000; 500000001]%Z);
    [lia|repeat constructor; lia].
Defined.

(** A refusal's retry hint is sufficient: a caller that waits the seconds
    [try_take] returned is admitted by its next attempt (exact arithmetic, any
    well-formed bucket). *)
Theorem retry_after_is_sufficient (b : TokenBucket Q) now now' r :
  ExactBucket.wf b → (try_take now b).1 = Err (After r) → (now ≤ now')%Z →
  (r <= exact.secs (now' - now))%Q →
  (try_take now' (try_take now b).2).1 = Ok ().
Proof.
  intros W Hr Hn Hw. pose proof (ExactBucket.refill_wf now b W) as W1.
  destruct (try_take_refused now b _ Hr) as [-> Hretry].
  assert (last_refill (refill now b) = now) as Hl by done.
  set (b1 := refill now b) in *. clearbody b1.
  destruct (f_ltb f_zero (rate b1)) eqn:Hrate; [|done]. injection Hretry as ->.
  assert (0 < rate b1)%Q as Hpos.
  { apply Qnot_le_lt. intros Hle%Qle_bool_iff.
    unfold f_ltb in Hrate. cbn -[rate] in Hrate. unfold exact.ltb in Hrate.
    rewrite Hle in Hrate. done. }
  assert (1 - tokens b1 <= exact.secs (now' - now) * rate b1)%Q as Hbudget.
  { apply (Qmult_le_compat_r _ _ (rate b1)) in Hw; [|lra].
    assert ((1 - tokens b1) / rate b1 * rate b1 == 1 - tokens b1)%Q as Hd
      by (field; lra).
    change (f_div (f_sub f_one (tokens b1)) (rate b1))
      with ((1 - tokens b1) / rate b1)%Q in Hw.
    eapply Qle_trans; [|exact Hw]. apply Qle_lteq. right. by apply Qeq_sym. }
  apply try_take_ok, Qle_bool_iff. cbn [refill tokens].
  destruct W1 as [R1 B1 T1 C1]. apply Q.min_glb; [|exact B1]. rewrite Hl. cbn.
  replace (duration_since now' now) with (now' - now)%Z by (unfold duration_since; lia).
  lra.
Qed.

Lemma retry_after_is_sufficient_witness :
  let b := {| rate := 2%Q; burst := 1%Q; tokens := 0%Q; last_refill := 0 |} in
  (try_take 500000000 (try_take 0 b).2).1 = Ok ().
Proof.
  set (b := {| rate := 2%Q; burst := 1%Q; tokens := 0%Q; last_refill := 0 |}).
  apply (retry_after_is_sufficient b 0 500000000
           match (try_take 0 b).1 with Err (After r) => r | _ => 0%Q end);
    [split; simpl; lra|by vm_compute|lia|by vm_compute].
Defined.

(** In double precision the same bucket evaluates as the program does. *)
Example binary64_bucket_run :
  (take_run (F:=spec_float) (TokenBucket_new 2 3 0)
     [0; 0; 0; 0; 500000000; 500000001]%Z).1 = 4%Z.
Proof. by vm_compute. Qed.

(** ** The tenant map, for any arithmetic and any iteration order *)
Section TenantMap.
Context {F : Type} `{Float64 F}.
Variable iter : gmap str (Tracked F) → list (str * Tracked F).
Hypothesis iter_perm : ∀ m, iter m ≡ₚ map_to_list m.

Lemma min_by_last_used_elem (l : list (str * Tracked F)) kt :
  min_by_last_used l = Some kt → kt ∈ l.
Proof using Type.
  revert kt. induction l as [|x l IH]; intros kt; simpl; [done|].
  destruct (min_by_last_used l) as [kt'|]; [case_if|]; intros; simplify_eq;
    rewrite elem_of_cons; eauto.
Qed.

Lemma min_by_last_used_None (l : list (str * Tracked F)) :
  min_by_last_used l = None → l = [].
Proof using Type.
  destruct l as [|x l]; simpl; [done|].
  destruct (min_by_last_used l); [case_if|]; done.
Qed.

(** Whoever the scan picks holds a full bucket. *)
Lemma victim_replenished c tenant m v :
  victim iter c tenant m = Some v →
  v ≠ tenant ∧
  ∃ t, m !! v = Some t ∧ (is_replenished (at_scan c v) (bucket t)).1 = true.
Proof using iter_perm.
  unfold victim. intros ([k t] & Hmin & ->)%fmap_Some. simpl.
  apply min_by_last_used_elem, list_elem_of_filter in Hmin as [Hs Hin].
  rewrite iter_perm in Hin. apply elem_of_map_to_list in Hin.
  unfold scan_bucket in Hs. simpl in Hs. case_decide as Hk; [done|].
  split; [done|]. exists t. split; [done|].
  by destruct (is_replenished (at_scan c k) (bucket t)).
Qed.

Lemma victim_None c tenant m k t :
  victim iter c tenant m = None → m !! k = Some t → k ≠ tenant →
  (is_replenished (at_scan c k) (bucket t)).1 = false.
Proof using iter_perm.
  unfold victim. intros Hv Hk Hne.
  apply fmap_None, min_by_last_used_None in Hv.
  destruct (is_replenished (at_scan c k) (bucket t)) as [[] b] eqn:E; [|done].
  assert ((k, t) ∈ ([] : list (str * Tracked F))) as []%not_elem_of_nil.
  rewrite <-Hv. apply list_elem_of_filter. split.
  - unfold scan_bucket. cbn [fst snd]. rewrite decide_False by done. by rewrite E.
  - rewrite iter_perm. by apply elem_of_map_to_list.
Qed.

Lemma scanned_lookup (c : Readings) (tenant : str) (m : gmap str (Tracked F)) (k : str) :
  scanned c tenant m !! k = (λ t, (scan_bucket c tenant k t).2) <$> m !! k.
Proof using Type. unfold scanned. rewrite map_lookup_imap. by destruct (m !! k). Qed.

Lemma scanned_size (c : Readings) (tenant : str) (m : gmap str (Tracked F)) :
  size (scanned c tenant m) = size m.
Proof using Type.
  rewrite <-!size_dom. f_equal. apply set_eq. intros k.
  rewrite !elem_of_dom, scanned_lookup, fmap_is_Some. done.
Qed.

(** The three shapes of a [try_take]. *)
Lemma tenant_try_take_cases c tenant s :
  let r := tenant_try_take iter c tenant s in
  (∃ t, buckets r.2 = <[tenant := t]> (buckets s)
      ∧ (size (buckets s) < MAX_TENANT_BUCKETS ∨ is_Some (buckets s !! tenant)))
  ∨ (∃ t v, buckets s !! tenant = None ∧ victim iter c tenant (buckets s) = Some v
      ∧ buckets r.2 = <[tenant := t]> (delete v (scanned c tenant (buckets s))))
  ∨ (buckets s !! tenant = None ∧ victim iter c tenant (buckets s) = None
      ∧ MAX_TENANT_BUCKETS ≤ size (buckets s)
      ∧ r = (Err (After f_one),
             {| pt_rate := pt_rate s; pt_burst := pt_burst s;
                buckets := scanned c tenant (buckets s);
                map_full_refusals := u64_wrap (map_full_refusals s + 1) |})).
Proof using Type.
  unfold tenant_try_take.
  destruct (MAX_TENANT_BUCKETS <=? size (buckets s))%nat eqn:Hfull;
    [destruct (bool_decide (buckets s !! tenant = None)) eqn:Hnew|];
    simpl; bool_facts.
  - right. destruct (victim iter c tenant (buckets s)) as [v|] eqn:Hv.
    + left. destruct (try_take _ _) as [r b]. naive_solver.
    + right. naive_solver.
  - left. destruct (try_take _ _) as [r b]. eexists. split; [done|].
    right. by apply not_eq_None_Some.
  - left. destruct (try_take _ _) as [r b]. eauto.
Qed.

Lemma tenant_try_take_size c tenant s :
  size (buckets s) ≤ MAX_TENANT_BUCKETS →
  size (buckets (tenant_try_take iter c tenant s).2) ≤ MAX_TENANT_BUCKETS.
Proof using iter_perm.
  intros Hs.
  destruct (tenant_try_take_cases c tenant s)
    as [(t & -> & [Hlt|Hin])|[(t & v & Hn & Hv & ->)|(_ & _ & _ & ->)]].
  - rewrite map_size_insert. case_match; unfold id; lia.
  - rewrite map_size_insert. destruct Hin as [? ->]. simpl. lia.
  - apply victim_replenished in Hv as (Hne & t' & Hv & _).
    rewrite map_size_insert, lookup_delete_ne, scanned_lookup, Hn by done. simpl.
    rewrite map_size_delete, scanned_lookup, Hv, scanned_size. simpl.
    assert (size (buckets s) ≠ 0); [|lia].
    intros E%map_size_empty_inv. rewrite E in Hv. by rewrite lookup_empty in Hv.
  - simpl. by rewrite scanned_size.
Qed.
End TenantMap.

(** The tenant map never holds more than [MAX_TENANT_BUCKETS] buckets,
    whatever tenants the traffic names: the memory bound holds in the type. *)
Theorem tenant_map_bounded `{Float64 F} iter mps bst (s : PerTenantBuckets F) :
  (∀ m, iter m ≡ₚ map_to_list m) → pt_reachable iter mps bst s →
  size (buckets s) ≤ MAX_TENANT_BUCKETS.
Proof.
  intros Hp. induction 1 as [|c tenant s _ IH]; [simpl; rewrite map_size_empty; lia|].
  by apply tenant_try_take_size.
Qed.

Lemma tenant_map_bounded_witness :
  let c := {| at_entry := 0; at_scan := λ _, 0%Z; at_create := 0; at_take := 0 |} in
  let s := (tenant_try_take map_to_list c §"acme"
              (PerTenantBuckets_new (F:=Q) 1 1)).2 in
  size (buckets s) = 1 ∧ size (buckets s) ≤ MAX_TENANT_BUCKETS.
Proof.
  split; [by vm_compute|].
  apply (tenant_map_bounded map_to_list 1 1); [done|]. apply pt_step, pt_init.
Defined.

(** One tenant's request never resets another tenant's throttle.  A bucket
    of another tenant survives, at most refilled to the present, unless it is
    the eviction victim, and a victim is always a bucket that had refilled to
    capacity, so no throttle state is lost. *)
Theorem eviction_loses_no_throttle_state `{Float64 F} iter c tenant
    (s : PerTenantBuckets F) k t :
  (∀ m, iter m ≡ₚ map_to_list m) → buckets s !! k = Some t → k ≠ tenant →
  let s' := (tenant_try_take iter c tenant s).2 in
  (∃ t', buckets s' !! k = Some t' ∧
         (t' = t ∨ t' = {| bucket := refill (at_scan c k) (bucket t);
                           last_used := last_used t |}))
  ∨ (buckets s' !! k = None ∧ (is_replenished (at_scan c k) (bucket t)).1 = true).
Proof.
  intros Hp Hk Hne s'. subst s'.
  assert ((scan_bucket c tenant k t).2
          = {| bucket := refill (at_scan c k) (bucket t); last_used := last_used t |}) as Hscan
    by (unfold scan_bucket; by rewrite decide_False by done).
  destruct (tenant_try_take_cases iter c tenant s)
    as [(t' & -> & _)|[(t' & v & _ & Hv & ->)|(_ & _ & _ & ->)]].
  - left. rewrite lookup_insert_ne by done. eauto.
  - rewrite lookup_insert_ne by done. destruct (decide (v = k)) as [->|Hvk].
    + right. rewrite lookup_delete_eq.
      apply victim_replenished in Hv as (_ & t2 & ? & ?); [|done]. by simplify_eq.
    + left. rewrite lookup_delete_ne, scanned_lookup, Hk by done. simpl. eauto.
  - left. simpl. rewrite scanned_lookup, Hk. simpl. eauto.
Qed.

Lemma eviction_loses_no_throttle_state_witness :
  let c := {| at_entry := 5; at_scan := λ _, 5%Z; at_create := 5; at_take := 5 |} in
  let t := {| bucket := TokenBucket_new (F:=Q) 1 1 0; last_used := 0 |} in
  let s := {| pt_rate := 1; pt_burst := 1; buckets := {[ §"a" := t ]};
              map_full_refusals := 0 |} in
  (∃ t', buckets (tenant_try_take map_to_list c §"b" s).2 !! §"a" = Some t' ∧
         (t' = t ∨ t' = {| bucket := refill 5 (bucket t); last_used := 0 |}))
  ∨ (buckets (tenant_try_take map_to_list c §"b" s).2 !! §"a" = None
     ∧ (is_replenished 5 (bucket t)).1 = true).
Proof.
  cbv zeta.
  set (c := {| at_entry := 5; at_scan := λ _, 5%Z; at_create := 5; at_take := 5 |}).
  set (t := {| bucket := TokenBucket_new (F:=Q) 1 1 0; last_used := 0 |}).
  apply (eviction_loses_no_throttle_state map_to_list c §"b"
    {| pt_rate := 1; pt_burst := 1; buckets := {[ §"a" := t ]}; map_full_refusals := 0 |});
    [done|by apply lookup_singleton_eq|done].
Defined.

(** When the map is full of throttled tenants a newcomer is refused (fail
    closed): nothing is evicted, no bucket is created, and the refusal is
    counted apart from ordinary throttling. *)
Theorem saturated_map_refuses_newcomer `{Float64 F} iter c tenant
    (s : PerTenantBuckets F) :
  (∀ m, iter m ≡ₚ map_to_list m) →
  MAX_TENANT_BUCKETS ≤ size (buckets s) → buckets s !! tenant = None →
  map_Forall (λ k t, (is_replenished (at_scan c k) (bucket t)).1 = false) (buckets s) →
  let r := tenant_try_take iter c tenant s in
  r.1 = Err (After f_one)
  ∧ dom (buckets r.2) = dom (buckets s)
  ∧ map_full_refusals r.2 = u64_wrap (map_full_refusals s + 1).
Proof.
  intros Hp Hfull Hnew Hall r. subst r.
  destruct (tenant_try_take_cases iter c tenant s)
    as [(t & _ & [?|[? ?]])|[(t & v & _ & Hv & _)|(_ & _ & _ & ->)]].
  - lia.
  - congruence.
  - apply victim_replenished in Hv as (_ & t' & Ht & Hr); [|done].
    by rewrite (Hall v t' Ht) in Hr.
  - simpl. split; [done|]. split; [|done]. apply set_eq. intros k.
    by rewrite !elem_of_dom, scanned_lookup, fmap_is_Some.
Qed.

(** A map saturated with depleted tenants. *)
Definition saturated_example : PerTenantBuckets Q :=
  {| pt_rate := 0; pt_burst := 1;
     buckets := list_to_map
       ((λ n, (dec (Z.of_nat n),
               {| bucket := {| rate := 0%Q; burst := 1%Q; tokens := 0%Q; last_refill := 0 |};
                  last_used := 0 |})) <$> seq 0 MAX_TENANT_BUCKETS);
     map_full_refusals := 0 |}.

Lemma saturated_map_refuses_newcomer_witness :
  let c := {| at_entry := 5; at_scan := λ _, 5%Z; at_create := 5; at_take := 5 |} in
  let r := tenant_try_take map_to_list c §"newcomer" saturated_example in
  r.1 = Err (After f_one)
  ∧ dom (buckets r.2) = dom (buckets saturated_example)
  ∧ map_full_refusals r.2 = u64_wrap (map_full_refusals saturated_example + 1).
Proof.
  apply (saturated_map_refuses_newcomer map_to_list
    {| at_entry := 5; at_scan := λ _, 5%Z; at_create := 5; at_take := 5 |}
    §"newcomer" saturated_example).
  - done.
  - apply Nat.leb_le. by vm_compute.
  - by vm_compute.
  - apply (bool_decide_eq_true_1 _). by vm_compute.
Defined.

(** ** Accounting of the rejection window *)

(** The rejections swallowed for [key] and not yet reported. *)
Definition pending (w : RejectionWindow) (key : str) : Z :=
  match win_state w !! key with Some st => suppressed st | None => 0 end.

Definition lines_of (key : str) (out : list (str * Z * Z)) : list (str * Z * Z) :=
  filter (λ l, l.1.1 = key) out.

Definition reported (out : list (str * Z * Z)) : Z := foldr (λ l n, l.2 + n)%Z 0%Z out.

Definition rejections_of (key : str) (evs : list (Z * str)) : Z :=
  Z.of_nat (length (filter (λ e, e.2 = key) evs)).

Lemma admit_rejection_pending now k w key :
  (0 ≤ pending w key < u64_max)%Z →
  let '(r, w1) := admit_rejection now k w in
  (0 ≤ pending w1 key)%Z ∧
  (if decide (k = key)
   then match r with
        | Some n => 0 ≤ n ∧ pending w1 key + n = pending w key
        | None => pending w1 key = pending w key + 1
        end
   else pending w1 key = pending w key)%Z.
Proof.
  intros Hp. unfold admit_rejection.
  destruct (window w =? 0)%Z.
  { case_decide; lia. }
  destruct (win_state w !! k) as [st|] eqn:E; [case_if|]; case_decide; subst;
    unfold pending in *; simpl; rewrite ?lookup_insert_eq, ?lookup_insert_ne by done;
    rewrite ?E in *; simpl; try lia.
  rewrite u64_wrap_small by lia. lia.
Qed.

Lemma admit_run_accounting key evs w :
  (0 ≤ pending w key)%Z → (pending w key + Z.of_nat (length evs) ≤ u64_max)%Z →
  let '(out, w') := admit_run w evs in
  (pending w key + rejections_of key evs
   = Z.of_nat (length (lines_of key out)) + reported (lines_of key out)
     + pending w' key)%Z.
Proof.
  unfold rejections_of, lines_of. revert w.
  induction evs as [|[now k] evs IH]; intros w H0 Hmax; [simpl; lia|].
  cbn [admit_run]. rewrite length_cons in Hmax.
  pose proof (admit_rejection_pending now k w key ltac:(lia)) as Hstep.
  destruct (admit_rejection now k w) as [r w1]. destruct Hstep as [H1 Hstep].
  specialize (IH w1 H1 ltac:(case_decide; [destruct r|]; lia)).
  destruct (admit_run w1 evs) as [out w2]. rewrite filter_cons. cbn [snd].
  case_decide as Hk; [subst|].
  - destruct r as [n|].
    + rewrite filter_cons. cbn [fst]. rewrite decide_True by done.
      rewrite !length_cons. simpl reported. lia.
    + rewrite length_cons. lia.
  - destruct r as [n|]; [|lia]. rewrite filter_cons. cbn [fst].
    rewrite decide_False by done. lia.
Qed.

(** No rejection is lost by coalescing.  For every key the rejections seen
    are exactly the lines emitted, plus the rejections those lines say they
    stand for, plus those of the window still open. *)
Theorem rejection_window_accounting wlen key evs :
  (Z.of_nat (length evs) ≤ u64_max)%Z →
  let '(out, w) := admit_run (RejectionWindow_new wlen) evs in
  (rejections_of key evs
   = Z.of_nat (length (lines_of key out)) + reported (lines_of key out) + pending w key)%Z.
Proof.
  intros Hmax.
  assert (pending (RejectionWindow_new wlen) key = 0)%Z as P
    by (unfold pending; simpl; by rewrite lookup_empty).
  pose proof (admit_run_accounting key evs (RejectionWindow_new wlen)) as A.
  rewrite P in A. specialize (A ltac:(lia) ltac:(lia)).
  by destruct (admit_run _ evs).
Qed.

Lemma rejection_window_accounting_witness :
  let evs := [(0, §"rest"); (1, §"rest"); (2, §"mcp"); (3, §"rest"); (60, §"rest");
              (61, §"rest")]%Z in
  let '(out, w) := admit_run (RejectionWindow_new 60) evs in
  out = [(§"rest", 0, 0); (§"mcp", 2, 0); (§"rest", 60, 2)]%Z
  ∧ (rejections_of §"rest" evs
     = Z.of_nat (length (lines_of §"rest" out)) + reported (lines_of §"rest" out)
       + pending w §"rest")%Z.
Proof.
  cbv zeta.
  set (evs := [(0, §"rest"); (1, §"rest"); (2, §"mcp"); (3, §"rest"); (60, §"rest");
              (61, §"rest")]%Z).
  pose proof (rejection_window_accounting 60 §"rest" evs ltac:(by vm_compute)) as A.
  assert ((admit_run (RejectionWindow_new 60) evs).1
          = [(§"rest", 0, 0); (§"mcp", 2, 0); (§"rest", 60, 2)]%Z) as E by by vm_compute.
  destruct (admit_run (RejectionWindow_new 60) evs) as [out w]. by split.
Defined.

(** The instants of the lines of one key, each at least [wlen] after the one
    before. *)
Fixpoint spaced (wlen : Z) (prev : option Z) (ts : list Z) : Prop :=
  match ts with
  | [] => True
  | t :: ts' =>
      match prev with Some p => (p + wlen ≤ t)%Z | None => True end
      ∧ spaced wlen (Some t) ts'
  end.

Lemma admit_run_spaced key evs w :
  (0 < window w)%Z →
  spaced (window w) (opened <$> win_state w !! key)
    (snd ∘ fst <$> lines_of key (admit_run w evs).1).
Proof.
  unfold lines_of. revert w. induction evs as [|[now k] evs IH]; intros w Hw; [done|].
  cbn [admit_run].
  assert (window (admit_rejection now k w).2 = window w) as Ew.
  { unfold admit_rejection. case_if; [done|].
    destruct (win_state w !! k); [case_if|]; done. }
  specialize (IH (admit_rejection now k w).2 ltac:(lia)). rewrite Ew in IH.
  revert IH. unfold admit_rejection. replace (window w =? 0)%Z with false by lia.
  destruct (win_state w !! k) as [st|] eqn:E;
    [destruct (duration_since now (opened st) <? window w)%Z eqn:Hd|];
    cbn [fst snd]; (destruct (admit_run _ evs) as [out w2]); cbn [fst snd win_state];
    intros IH; try (rewrite filter_cons; cbn [fst]; case_decide as Hk);
    simplify_eq/=; rewrite ?E;
    rewrite ?lookup_insert_eq, ?lookup_insert_ne in IH by done; simpl in IH |- *;
    rewrite ?E in IH; try done.
  - destruct (decide (k = key)) as [->|Hne];
      [rewrite lookup_insert_eq in IH; by rewrite E|by rewrite lookup_insert_ne in IH].
  - split; [|done]. unfold duration_since in Hd. bool_facts. lia.
Qed.

(** Coalescing bounds the audit volume: for one key any two consecutive
    lines are at least the configured window apart. *)
Theorem rejection_lines_spaced wlen key evs :
  (0 < wlen)%Z →
  spaced wlen None
    (snd ∘ fst <$> lines_of key (admit_run (RejectionWindow_new wlen) evs).1).
Proof.
  intros Hw. pose proof (admit_run_spaced key evs (RejectionWindow_new wlen) Hw) as H.
  simpl in H. by rewrite lookup_empty in H.
Qed.

Lemma rejection_lines_spaced_witness :
  spaced 60 None
    (snd ∘ fst <$> lines_of §"rest"
       (admit_run (RejectionWindow_new 60)
          [(0, §"rest"); (1, §"rest"); (60, §"rest"); (61, §"rest"); (120, §"rest")]%Z).1).
Proof. apply (rejection_lines_spaced 60); lia. Defined.
