(* ===== verification/Stream.v ===== *)
(** * Stream: streaming events and the single-fire finalizer
    (crates/triton-core/src/stream.rs)

    [StreamEvent] is the typed vocabulary of a streamed invocation and its SSE
    encoding; [Finalized] is the combinator that turns the end of a stream (a
    terminal event, an early close or a client disconnect) into exactly one
    call of its finalizer, which the dispatcher uses for the audit line and
    the upstream router for the circuit breaker. *)

From S2P Require Import Prelude Json Errors.

Module StreamEvent.
Inductive t :=
  | Tool (v : Value)
  | Token (delta : str)
  | Task (v : Value)
  | Progress (v : Value)
  | Done (v : Value)
  | Error (error : TritonError) (detail : option str).
End StreamEvent.
Abbreviation StreamEvent := StreamEvent.t.

Definition event_error (e : TritonError) : StreamEvent := StreamEvent.Error e None.
Definition error_with_detail (e : TritonError) (d : str) : StreamEvent :=
  StreamEvent.Error e (Some d).

Definition failure_detail (ev : StreamEvent) : option str :=
  match ev with StreamEvent.Error _ d => d | _ => None end.

Definition event_name (ev : StreamEvent) : str :=
  match ev with
  | StreamEvent.Tool _ => §"tool"
  | StreamEvent.Token _ => §"token"
  | StreamEvent.Task _ => §"task"
  | StreamEvent.Progress _ => §"progress"
  | StreamEvent.Done _ => §"done"
  | StreamEvent.Error _ _ => §"error"
  end.

Definition is_terminal (ev : StreamEvent) : bool :=
  match ev with StreamEvent.Done _ | StreamEvent.Error _ _ => true | _ => false end.

Definition data (ev : StreamEvent) : Value :=
  match ev with
  | StreamEvent.Tool v | StreamEvent.Done v | StreamEvent.Task v
  | StreamEvent.Progress v => v
  | StreamEvent.Token d => json_object [(§"delta", Value.String d)]
  | StreamEvent.Error e _ =>
      json_object [(§"error", Value.String (class e));
                   (§"message", Value.String (to_string e))]
  end.

Definition newline : ascii := "010".
Definition carriage_return : ascii := "013".

Section Wire.
Context `{SerdeJson}.

Definition to_sse_frame (ev : StreamEvent) : str :=
  §"event: " ++ event_name ev ++ [newline] ++ §"data: "
    ++ json_to_string (data ev) ++ [newline; newline].

(** A payload that is not JSON is kept as a JSON string. *)
Definition parse_value (d : str) : Value :=
  match json_from_str d with Some v => v | None => Value.String d end.

Definition parse (event d : str) : StreamEvent :=
  if decide (event = §"token") then
    StreamEvent.Token
      (match json_from_str d ≫= get_str §"delta" with Some s => s | None => d end)
  else if decide (event = §"done") then StreamEvent.Done (parse_value d)
  else if decide (event = §"task") then StreamEvent.Task (parse_value d)
  else if decide (event = §"progress") then StreamEvent.Progress (parse_value d)
  else if decide (event = §"error") then
    event_error (Tool (match get_str §"message" (parse_value d) with
                       | Some m => m | None => d end))
  else StreamEvent.Tool (parse_value d).
End Wire.

(** ** [Finalized] *)

Inductive Termination :=
  | Completed
  | Failed (detail : option str)
  | Truncated
  | Disconnected.

#[export] Instance Termination_eq_dec : EqDecision Termination.
Proof. solve_decision. Defined.

Definition is_success (t : Termination) : bool :=
  match t with Completed => true | _ => false end.

Record Timing := { ttfb : option Z; total : Z }.

(** The combinator's state; [fired] is what the finalizer has been called
    with so far, and [armed] whether the [Option] still holds it. *)
Record Finalized := {
  armed : bool;
  started : Z;
  first_at : option Z;
  terminated : bool;
  fired : list (Termination * Timing);
}.

Definition Finalized_new (now : Z) : Finalized :=
  {| armed := true; started := now; first_at := None; terminated := false; fired := [] |}.

Definition fire (now : Z) (term : Termination) (f : Finalized) : Finalized :=
  if armed f then
    {| armed := false; started := started f; first_at := first_at f;
       terminated := terminated f;
       fired := fired f ++
         [(term, {| ttfb := (λ t, Z.max 0 (t - started f))%Z <$> first_at f;
                    total := Z.max 0 (now - started f) |})] |}
  else f.

(** The answer of a poll. *)
Inductive Poll :=
  | Item (ev : StreamEvent)
  | End
  | Pending.

(** The termination a terminal event stands for. *)
Definition termination_of (ev : StreamEvent) : Termination :=
  match ev with
  | StreamEvent.Done _ => Completed
  | _ => Failed (failure_detail ev)
  end.

(** [poll_next]; [inner] is what the inner stream answers if it is polled, and
    the boolean of the result says whether it was. *)
Definition poll_next (now : Z) (inner : Poll) (f : Finalized) : Poll * bool * Finalized :=
  if terminated f then (End, false, f)
  else match inner with
       | Item ev =>
           let f1 := match first_at f with
                     | Some _ => f
                     | None => {| armed := armed f; started := started f;
                                  first_at := Some now; terminated := terminated f;
                                  fired := fired f |}
                     end in
           let f2 := if is_terminal ev then
                       let f' := fire now (termination_of ev) f1 in
                       {| armed := armed f'; started := started f';
                          first_at := first_at f'; terminated := true;
                          fired := fired f' |}
                     else f1 in
           (Item ev, true, f2)
       | End => (End, true, fire now Truncated f)
       | Pending => (Pending, true, f)
       end.

Definition drop_finalized (now : Z) (f : Finalized) : Finalized := fire now Disconnected f.

(** A consumer: polls, each with its instant and the inner stream's answer,
    then drops the combinator. *)
Fixpoint poll_run (f : Finalized) (polls : list (Z * Poll)) : list Poll * Finalized :=
  match polls with
  | [] => ([], f)
  | (now, p) :: polls' =>
      let '(out, _, f1) := poll_next now p f in
      let '(outs, f2) := poll_run f1 polls' in
      (out :: outs, f2)
  end.

(** ** Specification of the combinator *)

(** What a run of inner answers amounts to: the first terminal event or the
    first end decides. *)
Fixpoint classify (polls : list Poll) : Termination :=
  match polls with
  | [] => Disconnected
  | Item ev :: polls' => if is_terminal ev then termination_of ev else classify polls'
  | End :: _ => Truncated
  | Pending :: polls' => classify polls'
  end.

(** What the consumer sees: the inner answers up to the first terminal event,
    then only the end. *)
Fixpoint relayed (polls : list Poll) : list Poll :=
  match polls with
  | [] => []
  | Item ev :: polls' =>
      Item ev :: (if is_terminal ev then (λ _, End) <$> polls' else relayed polls')
  | p :: polls' => p :: relayed polls'
  end.

Lemma poll_run_terminated polls f :
  terminated f = true →
  poll_run f polls = ((λ _, End) <$> polls, f).
Proof.
  intros Ht. induction polls as [|[now p] polls IH]; [done|].
  cbn [poll_run]. unfold poll_next. rewrite Ht, IH. done.
Qed.

Lemma poll_run_relayed polls f :
  terminated f = false → (poll_run f polls).1 = relayed (snd <$> polls).
Proof.
  revert f. induction polls as [|[now p] polls IH]; intros f Ht; [done|].
  cbn [poll_run]. unfold poll_next. rewrite Ht. destruct p as [ev| |].
  - cbn [fmap list_fmap snd relayed]. destruct (is_terminal ev).
    + rewrite poll_run_terminated by done. simpl. f_equal.
      clear. induction polls; simpl; [done|]. by f_equal.
    + rewrite (surjective_pairing (poll_run _ polls)). cbn [fst]. f_equal.
      apply IH. by destruct (first_at f).
  - rewrite (surjective_pairing (poll_run _ polls)). cbn. f_equal. apply IH.
    unfold fire. by destruct (armed f).
  - rewrite (surjective_pairing (poll_run _ polls)). cbn. f_equal. by apply IH.
Qed.

Lemma poll_run_disarmed polls f :
  armed f = false →
  fired (poll_run f polls).2 = fired f ∧ armed (poll_run f polls).2 = false.
Proof.
  revert f. induction polls as [|[now p] polls IH]; intros f Ha; [done|].
  cbn [poll_run]. destruct (poll_next now p f) as [[out b] f1] eqn:E.
  rewrite (surjective_pairing (poll_run f1 polls)). cbn [snd].
  assert (armed f1 = false ∧ fired f1 = fired f) as [Ha1 Hf1].
  { revert E. unfold poll_next, fire. destruct (terminated f); [by intros; simplify_eq|].
    destruct p as [ev| |]; [destruct (first_at f), (is_terminal ev)| |];
      simpl; rewrite ?Ha; intros; by simplify_eq. }
  destruct (IH f1 Ha1) as [-> ->]. done.
Qed.

Lemma poll_run_fires polls f now :
  armed f = true → terminated f = false → fired f = [] →
  fst <$> fired (drop_finalized now (poll_run f polls).2) = [classify (snd <$> polls)].
Proof.
  revert f. induction polls as [|[n p] polls IH]; intros f Ha Ht Hf.
  { simpl. unfold drop_finalized, fire. by rewrite Ha, Hf. }
  cbn [poll_run]. destruct (poll_next n p f) as [[out b] f1] eqn:E.
  rewrite (surjective_pairing (poll_run f1 polls)). cbn [snd fmap list_fmap classify].
  assert (∀ t, armed f1 = false → fst <$> fired f1 = [t] →
    fst <$> fired (drop_finalized now (poll_run f1 polls).2) = [t]) as Hdone.
  { intros t Ha1 Hf1. destruct (poll_run_disarmed polls f1 Ha1) as [E1 E2].
    unfold drop_finalized, fire. by rewrite E2, E1. }
  revert E. unfold poll_next, fire. rewrite Ht, Ha.
  destruct p as [ev| |]; [destruct (is_terminal ev) eqn:Et| |].
  - intros E. apply Hdone; destruct (first_at f); simplify_eq/=; rewrite ?Ha;
      simpl; by rewrite ?Hf.
  - intros E. apply IH; destruct (first_at f); by simplify_eq/=.
  - intros E. apply Hdone; simplify_eq/=; [done|by rewrite Hf].
  - intros E. simplify_eq. by apply IH.
Qed.

(** The finalizer runs exactly once for every way a stream can be consumed
    and dropped, and what it is told is decided by the first terminal event or
    early close, or is a disconnect when the consumer left before either: one
    audit line and one breaker update per stream. *)
Theorem finalizer_fires_exactly_once t0 polls t1 :
  fst <$> fired (drop_finalized t1 (poll_run (Finalized_new t0) polls).2)
  = [classify (snd <$> polls)].
Proof. by apply poll_run_fires. Qed.

(** A terminal event closes the stream: the consumer sees the inner events
    unchanged up to and including the first terminal one and nothing after
    it, whatever the upstream sends later. *)
Theorem nothing_relayed_after_terminal t0 polls :
  (poll_run (Finalized_new t0) polls).1 = relayed (snd <$> polls).
Proof. by apply poll_run_relayed. Qed.

(** ** The wire encoding *)

(** The encodings for which the parser recovers the printed payload. *)
Definition wire_ok `{SerdeJson} (ev : StreamEvent) : Prop :=
  json_roundtrips (data ev) ∧
  match ev with StreamEvent.Error _ _ => False | _ => True end.

(** Parsing what [to_sse_frame] printed gives the event back. *)
Lemma parse_event_data `{SerdeJson} ev :
  wire_ok ev → parse (event_name ev) (json_to_string (data ev)) = ev.
Proof.
  intros [Hr Hev]. unfold json_roundtrips in Hr.
  destruct ev; try done; unfold parse; simpl event_name;
    repeat (rewrite decide_False by done); rewrite ?decide_True by done;
    unfold parse_value; rewrite ?Hr; try done.
Qed.
