(* ===== verification/Sse.v ===== *)
(** * Sse: the upstream event-stream decoder (crates/triton-upstream/src/sse.rs)

    Bytes arrive in chunks of any size; complete frames (ended by a blank
    line) become events, a partial frame stays in the buffer, and an idle
    upstream, one that runs past the total duration, one that never ends a
    frame and one whose connection breaks are each cut with a terminal error
    carrying its own machine-readable detail. *)

From S2P Require Import Prelude Json Errors Stream.

Definition MAX_FRAME_BYTES : nat := 1024 * 1024.

Definition LF2 : str := [newline; newline].
Definition CRLF2 : str := [carriage_return; newline; carriage_return; newline].

(** [buf.windows(n).position(|w| w == p)] is [find_sub p]. *)
Definition find_boundary (buf : str) : option (nat * nat) :=
  let lf := (λ i, (i, 2)) <$> find_sub LF2 buf in
  let crlf := (λ i, (i, 4)) <$> find_sub CRLF2 buf in
  match lf, crlf with
  | Some a, Some b => Some (if (a.1 <=? b.1)%nat then a else b)
  | Some a, None => Some a
  | None, Some b => Some b
  | None, None => None
  end.

Definition strip_cr (raw : str) : str :=
  match last raw with
  | Some c => if decide (c = carriage_return) then take (length raw - 1) raw else raw
  | None => raw
  end.

(** The line loop of [parse_frame]: the last [event] and the [data] lines. *)
Fixpoint frame_fields (lines : list str) (event : option str) (data_lines : list str)
    : option str * list str :=
  match lines with
  | [] => (event, data_lines)
  | raw :: lines' =>
      let line := strip_cr raw in
      if is_empty line || starts_with §":" line then frame_fields lines' event data_lines
      else
        let '(field, value) :=
          match split_once ":" line with
          | Some (f, v) => (f, match strip_prefix §" " v with Some v' => v' | None => v end)
          | None => (line, [])
          end in
        if decide (field = §"event") then frame_fields lines' (Some value) data_lines
        else if decide (field = §"data") then
          frame_fields lines' event (data_lines ++ [value])
        else frame_fields lines' event data_lines
  end.

Section Decoder.
Context `{SerdeJson}.

Definition parse_frame (block : str) : option StreamEvent :=
  if valid_utf8 block then
    let '(event, data_lines) := frame_fields (split_on newline block) None [] in
    match event, data_lines with
    | None, [] => None
    | _, _ => Some (parse (default §"message" event) (join [newline] data_lines))
    end
  else None.

(** The [while let] loop, with the buffer length as fuel: every round drains
    at least two bytes. *)
Fixpoint drain_loop (fuel : nat) (buf : str) : list StreamEvent * str :=
  match fuel with
  | 0 => ([], buf)
  | S fuel' =>
      match find_boundary buf with
      | Some (end_, sep) =>
          let '(evs, rest) := drain_loop fuel' (drop (end_ + sep) buf) in
          (option_list (parse_frame (take end_ buf)) ++ evs, rest)
      | None => ([], buf)
      end
  end.

Definition drain_frames (buf : str) : list StreamEvent * str :=
  drain_loop (length buf) buf.

Record Decoder := {
  buf : str;
  pending : list StreamEvent;
  done : bool;
}.

(** What a wait for the next chunk came to. *)
Inductive Next :=
  | Chunk (bytes : str)
  | TransportError (e : str)
  | Eof
  (** the wait elapsed, and the clock read this afterwards *)
  | Elapsed (now : Z).

(** One round of the loop: the clock before the wait, and the outcome. *)
Record Obs := { obs_now : Z; obs_next : Next }.

Definition ms (ns : Z) : str := dec (ns / 1000000).

Definition max_duration_error (max_duration : Z) : StreamEvent :=
  error_with_detail
    (Tool (§"upstream stream exceeded max duration (" ++ ms max_duration ++ §"ms)"))
    §"upstream_stream_max_duration".

Definition idle_error (idle_timeout : Z) : StreamEvent :=
  error_with_detail
    (Tool (§"upstream stream idle timeout (" ++ ms idle_timeout ++ §"ms without a frame)"))
    §"upstream_stream_idle_timeout".

Definition overflow_error : StreamEvent :=
  error_with_detail
    (Tool (§"upstream SSE frame exceeded 1048576 bytes without a boundary"))
    §"upstream_stream_frame_overflow".

Definition transport_error (e : str) : StreamEvent :=
  error_with_detail (Tool (§"upstream stream error: " ++ e))
    §"upstream_stream_transport".

(** The body of the loop after [pending] has been drained and while the
    stream is not done. *)
Definition absorb (idle_timeout max_duration deadline : Z) (st : Decoder) (o : Obs) : Decoder :=
  let finish ev := {| buf := buf st; pending := pending st ++ [ev]; done := true |} in
  if (deadline <=? obs_now o)%Z then finish (max_duration_error max_duration)
  else match obs_next o with
  | Elapsed now =>
      finish (if (deadline <=? now)%Z then max_duration_error max_duration
              else idle_error idle_timeout)
  | Chunk bytes =>
      let '(evs, rest) := drain_frames (buf st ++ bytes) in
      if (MAX_FRAME_BYTES <? length rest)%nat then
        {| buf := []; pending := pending st ++ evs ++ [overflow_error]; done := true |}
      else {| buf := rest; pending := pending st ++ evs; done := false |}
  | TransportError e => finish (transport_error e)
  | Eof => {| buf := []; pending := pending st ++ option_list (parse_frame (buf st));
              done := true |}
  end.

(** One call of the [unfold] closure: an event, the end, or still waiting. *)
Inductive Answer :=
  | Yield (ev : StreamEvent) (st : Decoder) (obs : list Obs)
  | Ended
  | Waiting (st : Decoder).

Fixpoint decoder_next (idle max_duration deadline : Z) (st : Decoder) (obs : list Obs)
    : Answer :=
  match pending st with
  | ev :: evs => Yield ev {| buf := buf st; pending := evs; done := done st |} obs
  | [] =>
      if done st then Ended
      else match obs with
           | [] => Waiting st
           | o :: obs' =>
               decoder_next idle max_duration deadline
                 (absorb idle max_duration deadline st o) obs'
           end
  end.

(** Everything the consumer gets. *)
Fixpoint decode_run (idle max_duration deadline : Z) (st : Decoder) (obs : list Obs)
    : list StreamEvent :=
  pending st ++
  (if done st then []
   else match obs with
        | [] => []
        | o :: obs' =>
            decode_run idle max_duration deadline
              (absorb idle max_duration deadline
                 {| buf := buf st; pending := []; done := done st |} o) obs'
        end).

Definition Decoder_new : Decoder := {| buf := []; pending := []; done := false |}.

(** [decode_sse], opened at [opened]. *)
Definition decode_sse (idle max_duration opened : Z) (obs : list Obs) : list StreamEvent :=
  decode_run idle max_duration (opened + max_duration) Decoder_new obs.
End Decoder.

(** ** Frame boundaries *)

Definition boundary_at (s : str) (i sep : nat) : Prop :=
  (sep = 2 ∧ s !! i = Some newline ∧ s !! (i + 1) = Some newline)
  ∨ (sep = 4 ∧ s !! i = Some carriage_return ∧ s !! (i + 1) = Some newline
     ∧ s !! (i + 2) = Some carriage_return ∧ s !! (i + 3) = Some newline).

Lemma LF2_at s i :
  starts_with LF2 (drop i s) = true ↔ s !! i = Some newline ∧ s !! (i + 1) = Some newline.
Proof.
  rewrite starts_with_lookup. split.
  - intros Hp. split; [rewrite <-(Nat.add_0_r i)|]; by apply Hp.
  - intros [H0 H1] [|[|j]] c; simpl; intros; simplify_eq; [by rewrite Nat.add_0_r|done].
Qed.

Lemma CRLF2_at s i :
  starts_with CRLF2 (drop i s) = true ↔
  s !! i = Some carriage_return ∧ s !! (i + 1) = Some newline
  ∧ s !! (i + 2) = Some carriage_return ∧ s !! (i + 3) = Some newline.
Proof.
  rewrite starts_with_lookup. split.
  - intros Hp. repeat split; [rewrite <-(Nat.add_0_r i)|..]; by apply Hp.
  - intros (H0 & H1 & H2 & H3) [|[|[|[|j]]]] c; simpl; intros; simplify_eq;
      [by rewrite Nat.add_0_r|done..].
Qed.

Lemma boundary_at_lt s i sep : boundary_at s i sep → i + sep ≤ length s.
Proof.
  intros [(-> & _ & H)|(-> & _ & _ & _ & H)]; apply lookup_lt_Some in H; lia.
Qed.

Lemma boundary_at_sep s i sep sep' :
  boundary_at s i sep → boundary_at s i sep' → sep = sep'.
Proof. unfold boundary_at. intros [?|?] [?|?]; naive_solver. Qed.

(** [find_boundary] finds the first boundary. *)
Lemma find_boundary_Some s e sep :
  find_boundary s = Some (e, sep) ↔
  boundary_at s e sep ∧ ∀ i sep', i < e → ¬ boundary_at s i sep'.
Proof.
  assert (∀ i sep', boundary_at s i sep' → ∃ j sep2, find_boundary s = Some (j, sep2) ∧ j ≤ i)
    as Hle.
  { intros i sep' Hb. pose proof (boundary_at_lt _ _ _ Hb). unfold find_boundary.
    destruct Hb as [(-> & Hb)|(-> & Hb)].
    - apply LF2_at, find_sub_le in Hb as (n & -> & Hn); [|lia]. simpl.
      destruct (find_sub CRLF2 s) as [m|]; simpl; [case_if|]; bool_facts; eexists _, _;
        (split; [done|]); simpl in *; lia.
    - apply CRLF2_at, find_sub_le in Hb as (n & -> & Hn); [|lia]. simpl.
      destruct (find_sub LF2 s) as [m|]; simpl; [case_if|]; bool_facts; eexists _, _;
        (split; [done|]); simpl in *; lia. }
  assert (∀ e sep, find_boundary s = Some (e, sep) → boundary_at s e sep) as Hat.
  { intros e0 sep0. unfold find_boundary.
    destruct (find_sub LF2 s) as [n|] eqn:E1, (find_sub CRLF2 s) as [m|] eqn:E2; simpl;
      try case_if; intros; simplify_eq;
      repeat match goal with
      | H : find_sub LF2 _ = Some _ |- _ => apply find_sub_Some in H as (H%LF2_at & _)
      | H : find_sub CRLF2 _ = Some _ |- _ => apply find_sub_Some in H as (H%CRLF2_at & _)
      end; unfold boundary_at; tauto. }
  split.
  - intros E. split; [by apply Hat|]. intros i sep' Hi (j & sep2 & Ej & Hj)%Hle.
    simplify_eq. lia.
  - intros [Hb Hmin]. destruct (Hle e sep Hb) as (j & sep2 & Ej & Hj).
    pose proof (Hat _ _ Ej) as Hbj.
    destruct (decide (j = e)) as [->|]; [|by destruct (Hmin j sep2 ltac:(lia))].
    by rewrite Ej, (boundary_at_sep _ _ _ _ Hb Hbj).
Qed.

Lemma boundary_at_app s t i sep :
  i + sep ≤ length s → boundary_at (s ++ t) i sep ↔ boundary_at s i sep.
Proof.
  unfold boundary_at. intros Hl.
  split; intros [(-> & H)|(-> & H)]; [left|right|left|right]; (split; [done|]);
    rewrite !lookup_app_l in * by lia; done.
Qed.

(** A boundary found in a buffer is not changed by the bytes that follow. *)
Lemma find_boundary_app s t e sep :
  find_boundary s = Some (e, sep) → find_boundary (s ++ t) = Some (e, sep).
Proof.
  rewrite !find_boundary_Some. intros [Hb Hmin].
  pose proof (boundary_at_lt _ _ _ Hb) as Hl.
  split; [by apply boundary_at_app|]. intros i sep' Hi Hb'.
  destruct (decide (i + sep' ≤ length s)) as [Hs|Hs].
  { apply (Hmin i sep' Hi). by apply boundary_at_app in Hb'. }
  destruct Hb' as [(-> & _)|(-> & _ & H1 & H2 & _)]; destruct Hb as [(-> & Hn & Hn1)|(-> & _)];
    try lia.
  assert (e = i + 1) as -> by lia.
  rewrite lookup_app_l in H2 by lia. replace (i + 1 + 1) with (i + 2) in Hn1 by lia.
  rewrite Hn1 in H2. discriminate.
Qed.

(** ** Draining *)
Section Draining.
Context `{SerdeJson}.

Lemma drain_loop_fuel n m s :
  length s ≤ n → length s ≤ m → drain_loop n s = drain_loop m s.
Proof.
  revert m s. induction n as [|n IH]; intros m s Hn Hm.
  - assert (s = []) as -> by (by apply nil_length_inv; lia).
    by destruct m.
  - destruct m as [|m].
    { assert (s = []) as -> by (by apply nil_length_inv; lia). done. }
    simpl. destruct (find_boundary s) as [[e sep]|] eqn:E; [|done].
    apply find_boundary_Some in E as [Hb _].
    assert (2 ≤ sep) by (destruct Hb as [(-> & _)|(-> & _)]; lia).
    pose proof (boundary_at_lt _ _ _ Hb).
    rewrite (IH m); rewrite ?length_drop; [done|lia..].
Qed.

Lemma drain_frames_eq s :
  drain_frames s =
  match find_boundary s with
  | Some (e, sep) =>
      let '(evs, rest) := drain_frames (drop (e + sep) s) in
      (option_list (parse_frame (take e s)) ++ evs, rest)
  | None => ([], s)
  end.
Proof.
  unfold drain_frames at 1. destruct (length s) as [|n] eqn:L.
  { apply nil_length_inv in L as ->. done. }
  simpl. destruct (find_boundary s) as [[e sep]|] eqn:E; [|done].
  apply find_boundary_Some in E as [Hb _].
  assert (2 ≤ sep) by (destruct Hb as [(-> & _)|(-> & _)]; lia).
  unfold drain_frames. rewrite (drain_loop_fuel n (length (drop (e + sep) s)));
    rewrite ?length_drop; [done|lia..].
Qed.

Lemma drain_frames_app a b :
  drain_frames (a ++ b) =
  ((drain_frames a).1 ++ (drain_frames ((drain_frames a).2 ++ b)).1,
   (drain_frames ((drain_frames a).2 ++ b)).2).
Proof.
  induction a as [a IH] using (induction_ltof1 _ (@length ascii)).
  rewrite (drain_frames_eq a). destruct (find_boundary a) as [[e sep]|] eqn:E;
    [|simpl; by rewrite <-surjective_pairing].
  rewrite (drain_frames_eq (a ++ b)), (find_boundary_app _ b _ _ E).
  apply find_boundary_Some in E as [Hb _].
  assert (2 ≤ sep) by (destruct Hb as [(-> & _)|(-> & _)]; lia).
  pose proof (boundary_at_lt _ _ _ Hb).
  rewrite take_app_le, drop_app_le by lia.
  rewrite (IH (drop (e + sep) a)) by (unfold ltof; rewrite length_drop; lia).
  destruct (drain_frames (drop (e + sep) a)) as [evs rest]. cbn [fst snd].
  by rewrite app_assoc.
Qed.
End Draining.

(** ** The decoder *)
Section Decode.
Context `{SerdeJson}.
Context (idle maxd deadline : Z).

(** [decode_run] is the sequence the closure of [unfold] yields. *)
Lemma decode_run_next st obs :
  decode_run idle maxd deadline st obs =
  match decoder_next idle maxd deadline st obs with
  | Yield ev st' obs' => ev :: decode_run idle maxd deadline st' obs'
  | Ended | Waiting _ => []
  end.
Proof.
  revert st. induction obs as [|o obs IH]; intros [b p d]; destruct p as [|ev p].
  - by destruct d.
  - done.
  - cbn [decode_run decoder_next pending done buf]. destruct d; [done|].
    rewrite app_nil_l. apply IH.
  - done.
Qed.

(** The chunks never leave an unfinished frame above the cap. *)
Fixpoint fits (b : str) (chunks : list str) : Prop :=
  match chunks with
  | [] => True
  | c :: cs =>
      let r := (drain_frames (b ++ c)).2 in length r ≤ MAX_FRAME_BYTES ∧ fits r cs
  end.

(** What a whole response body decodes to. *)
Definition reassembled (body : str) : list StreamEvent :=
  (drain_frames body).1 ++ option_list (parse_frame (drain_frames body).2).

Definition chunk_obs (c : Z * str) : Obs := {| obs_now := c.1; obs_next := Chunk c.2 |}.

Lemma decode_chunks b chunks eof :
  Forall (λ c, c.1 < deadline)%Z chunks → (eof < deadline)%Z →
  drain_frames b = ([], b) → fits b (snd <$> chunks) →
  decode_run idle maxd deadline {| buf := b; pending := []; done := false |}
    ((chunk_obs <$> chunks) ++ [{| obs_now := eof; obs_next := Eof |}])
  = reassembled (b ++ concat (snd <$> chunks)).
Proof.
  revert b. induction chunks as [|[now c] chunks IH]; intros b Hnow Heof Hb Hfit.
  - cbn [fmap list_fmap app decode_run pending done concat]. unfold absorb.
    cbn [obs_now obs_next]. replace (deadline <=? eof)%Z with false by lia.
    cbn [buf pending done app]. unfold reassembled. rewrite !app_nil_r, Hb. done.
  - apply Forall_cons in Hnow as [Hn Hnow]. cbn [fmap list_fmap fst snd] in *.
    destruct Hfit as [Hlen Hfit]. cbn [concat].
    cbn [app decode_run pending done]. unfold absorb at 1. cbn [chunk_obs obs_now obs_next fst snd].
    replace (deadline <=? now)%Z with false by lia. cbn [buf].
    pose proof (drain_frames_app (b ++ c) (concat chunks.*2)) as Happ.
    assert (drain_frames (drain_frames (b ++ c)).2 = ([], (drain_frames (b ++ c)).2)) as Hr.
    { pose proof (drain_frames_app (b ++ c) []) as E. rewrite !app_nil_r in E.
      destruct (drain_frames (b ++ c)) as [e r]; cbn [fst snd] in *.
      destruct (drain_frames r) as [e' r']; cbn [fst snd] in *. simplify_eq.
      f_equal. by apply (app_inv_head e); rewrite app_nil_r. }
    destruct (drain_frames (b ++ c)) as [evs r]; cbn [fst snd] in *.
    replace (MAX_FRAME_BYTES <? length r)%nat with false
      by (symmetry; by apply Nat.ltb_ge).
    rewrite app_nil_l.
    transitivity (evs ++ decode_run idle maxd deadline
      {| buf := r; pending := []; done := false |}
      ((chunk_obs <$> chunks) ++ [{| obs_now := eof; obs_next := Eof |}])).
    { by destruct chunks. }
    rewrite IH by done. unfold reassembled. rewrite (app_assoc b c), Happ.
    cbn [fst snd].
    by rewrite app_assoc.
Qed.

(** The buffer never holds more than the cap between two waits. *)
Lemma absorb_buffer_bounded st o :
  length (buf st) ≤ MAX_FRAME_BYTES →
  length (buf (absorb idle maxd deadline st o)) ≤ MAX_FRAME_BYTES.
Proof.
  intros Hb. unfold absorb. case_if; [done|]. destruct (obs_next o); simpl; try done.
  - destruct (drain_frames _) as [evs rest]. case_if; simpl; bool_facts; lia.
  - lia.
Qed.
End Decode.

(** C12: decoding does not depend on how the network cut the response: any
    chunking of a body that stays under the frame cap and inside the deadline
    gives the events of the whole body. *)
Theorem sse_chunking_irrelevant `{SerdeJson} idle maxd opened chunks eof :
  Forall (λ c, c.1 < opened + maxd)%Z chunks → (eof < opened + maxd)%Z →
  fits [] (snd <$> chunks) →
  decode_sse idle maxd opened
    ((chunk_obs <$> chunks) ++ [{| obs_now := eof; obs_next := Eof |}])
  = reassembled (concat (snd <$> chunks)).
Proof. intros. unfold decode_sse. by rewrite (decode_chunks _ _ _ [] chunks eof). Qed.

(** ** Round trip of the wire format *)

(** The printed payload stays on one line and is UTF-8, and the parser
    recovers it. *)
Definition frame_ok `{SerdeJson} (ev : StreamEvent) : Prop :=
  wire_ok ev ∧ (newline ∉ json_to_string (data ev))
  ∧ (carriage_return ∉ json_to_string (data ev))
  ∧ valid_utf8 (json_to_string (data ev)) = true.

Section Roundtrip.
Context `{SerdeJson}.

(** A frame without its final blank line. *)
Definition frame_body (ev : StreamEvent) : str :=
  §"event: " ++ event_name ev ++ [newline] ++ §"data: " ++ json_to_string (data ev).

Lemma to_sse_frame_body ev : to_sse_frame ev = frame_body ev ++ LF2.
Proof. unfold to_sse_frame, frame_body. by rewrite <-!app_assoc. Qed.

Lemma strip_cr_id s : carriage_return ∉ s → strip_cr s = s.
Proof.
  intros Hs. unfold strip_cr. destruct (last s) as [c|] eqn:E; [|done].
  rewrite decide_False; [done|]. intros ->. apply Hs. by apply last_Some_elem_of.
Qed.

(** A [field: value] line is split at its first colon and one space. *)
Lemma field_line field v :
  (":"%char ∉ field) → (carriage_return ∉ field) → (carriage_return ∉ v) → field ≠ [] →
  strip_cr (field ++ §": " ++ v) = field ++ §": " ++ v
  ∧ is_empty (field ++ §": " ++ v) || starts_with §":" (field ++ §": " ++ v) = false
  ∧ split_once ":" (field ++ §": " ++ v) = Some (field, §" " ++ v).
Proof.
  intros Hc Hf Hv Hne. split; [|split].
  - apply strip_cr_id. rewrite !elem_of_app. intros [?|[Hx|?]]; try done.
    revert Hx. by apply (bool_decide_eq_false_1 (carriage_return ∈ §": ")).
  - destruct field as [|a field]; [done|]. apply orb_false_iff. split; [done|].
    apply not_true_iff_false. intros [r Hr]%starts_with_spec. simplify_eq/=. set_solver.
  - by apply split_once_Some.
Qed.

Lemma frame_fields_event v ls e d :
  carriage_return ∉ v →
  frame_fields ((§"event: " ++ v) :: ls) e d = frame_fields ls (Some v) d.
Proof.
  intros Hv. change (§"event: " ++ v) with (§"event" ++ §": " ++ v).
  cbn [frame_fields].
  destruct (field_line §"event" v) as (-> & -> & ->);
    [by apply (bool_decide_eq_true_1 _)|by apply (bool_decide_eq_true_1 _)|done|done|].
  by rewrite (proj2 (strip_prefix_Some §" " (§" " ++ v) v)), decide_True by done.
Qed.

Lemma frame_fields_data v ls e d :
  carriage_return ∉ v →
  frame_fields ((§"data: " ++ v) :: ls) e d = frame_fields ls e (d ++ [v]).
Proof.
  intros Hv. change (§"data: " ++ v) with (§"data" ++ §": " ++ v).
  cbn [frame_fields].
  destruct (field_line §"data" v) as (-> & -> & ->);
    [by apply (bool_decide_eq_true_1 _)|by apply (bool_decide_eq_true_1 _)|done|done|].
  by rewrite (proj2 (strip_prefix_Some §" " (§" " ++ v) v)), decide_False,
    decide_True by done.
Qed.

Lemma event_name_clean ev :
  (newline ∉ event_name ev) ∧ (carriage_return ∉ event_name ev)
  ∧ valid_utf8 (event_name ev ++ [newline] ++ §"data: " ++ json_to_string (data ev))
    = valid_utf8 (json_to_string (data ev)).
Proof.
  split; [|split].
  - by destruct ev; apply (bool_decide_eq_true_1 _).
  - by destruct ev; apply (bool_decide_eq_true_1 _).
  - by destruct ev.
Qed.

Lemma parse_frame_body ev : frame_ok ev → parse_frame (frame_body ev) = Some ev.
Proof.
  intros (Hw & Hnl & Hcr & Hu). destruct (event_name_clean ev) as (En & Ec & Eu).
  unfold parse_frame.
  assert (valid_utf8 (frame_body ev) = true) as ->.
  { transitivity (valid_utf8 (event_name ev ++ [newline] ++ §"data: "
                                ++ json_to_string (data ev))); [done|]. by rewrite Eu. }
  assert (split_on newline (frame_body ev)
          = [§"event: " ++ event_name ev; §"data: " ++ json_to_string (data ev)]) as ->.
  { unfold frame_body. rewrite app_assoc. rewrite split_on_app.
    - rewrite split_on_nosep; [done|]. rewrite elem_of_app. intros [?|?]; [|done].
      by apply (bool_decide_eq_false_1 (newline ∈ §"data: ")).
    - rewrite elem_of_app. intros [?|?]; [|done].
      by apply (bool_decide_eq_false_1 (newline ∈ §"event: ")). }
  rewrite frame_fields_event, frame_fields_data by done. cbn [frame_fields app].
  cbn [default from_option join]. f_equal. by apply parse_event_data.
Qed.

Lemma frame_body_boundary ev rest :
  frame_ok ev →
  find_boundary (to_sse_frame ev ++ rest) = Some (length (frame_body ev), 2).
Proof.
  intros (_ & Hnl & Hcr & _). destruct (event_name_clean ev) as (En & Ec & _).
  rewrite to_sse_frame_body, <-app_assoc. apply find_boundary_Some. split.
  { left. split; [done|]. split; rewrite lookup_app_r by lia;
      [by rewrite Nat.sub_diag|by rewrite Nat.add_sub_swap, Nat.sub_diag by done]. }
  assert (carriage_return ∉ frame_body ev) as Hc.
  { unfold frame_body. rewrite !elem_of_app. intros [Hx|[?|[Hx|[Hx|?]]]]; try done.
    - revert Hx. by apply (bool_decide_eq_false_1 (carriage_return ∈ §"event: ")).
    - revert Hx. by apply (bool_decide_eq_false_1 (carriage_return ∈ [newline])).
    - revert Hx. by apply (bool_decide_eq_false_1 (carriage_return ∈ §"data: ")). }
  intros i sep' Hi [(-> & H0 & H1)|(-> & H0 & _)].
  - (* the only line feed of the body ends the first line *)
    rewrite lookup_app_l in H0 by done.
    set (a := §"event: " ++ event_name ev).
    assert (frame_body ev = a ++ newline :: §"data: " ++ json_to_string (data ev)) as E
      by (unfold frame_body, a; by rewrite <-!app_assoc).
    assert (newline ∉ a) as Ha.
    { unfold a. rewrite elem_of_app. intros [?|?]; [|done].
      by apply (bool_decide_eq_false_1 (newline ∈ §"event: ")). }
    assert (i = length a) as ->.
    { rewrite E in H0. apply lookup_app_Some in H0 as [H0|[Hl H0]].
      - by apply list_elem_of_lookup_2 in H0.
      - destruct (i - length a) as [|k] eqn:Ek; [lia|]. exfalso.
        rewrite lookup_cons in H0. simpl in H0.
        apply list_elem_of_lookup_2, (elem_of_app (§"data: ")) in H0 as [?|?]; [|done].
        by apply (bool_decide_eq_false_1 (newline ∈ §"data: ")). }
    rewrite E, <-app_assoc, lookup_app_r in H1 by lia.
    by replace (length a + 1 - length a) with 1 in H1 by lia.
  - rewrite lookup_app_l in H0 by done. by apply list_elem_of_lookup_2 in H0.
Qed.

Lemma reassembled_frames evs :
  Forall frame_ok evs → reassembled (concat (to_sse_frame <$> evs)) = evs.
Proof.
  intros Hok. assert (drain_frames (concat (to_sse_frame <$> evs)) = (evs, [])) as E.
  { induction Hok as [|ev evs Hev _ IH]; [done|]. cbn [fmap list_fmap concat].
    rewrite drain_frames_eq, frame_body_boundary by done.
    rewrite to_sse_frame_body, <-app_assoc, take_app_length.
    rewrite app_assoc, drop_app_length' by (by rewrite length_app).
    rewrite IH, parse_frame_body by done. done. }
  unfold reassembled. rewrite E. simpl. by rewrite app_nil_r.
Qed.
End Roundtrip.

Lemma sse_chunking_irrelevant_witness :
  let _ := sample_json in
  let chunks := [(0%Z, §"event: don"); (5%Z, §"e" ++ [newline] ++ §"data: true" ++ [newline]);
                 (6%Z, [newline] ++ §": tail")] in
  decode_sse 10 100 0 ((chunk_obs <$> chunks) ++ [{| obs_now := 7; obs_next := Eof |}])
  = reassembled (concat (snd <$> chunks)).
Proof.
  intros ? chunks. apply sse_chunking_irrelevant; [repeat constructor|lia|].
  repeat (split; [apply Nat.leb_le; by vm_compute|]). done.
Defined.

(** The SSE encoding and the decoder are inverse: whatever events Triton
    frames, an arbitrary chunking of the frames decodes to exactly those
    events, in order.  (An [Error] event is not in scope: its encoding keeps
    the class and the message but the decoder reads both as a tool fault.) *)
Theorem sse_roundtrip `{SerdeJson} idle maxd opened evs chunks eof :
  Forall frame_ok evs → concat (snd <$> chunks) = concat (to_sse_frame <$> evs) →
  Forall (λ c, c.1 < opened + maxd)%Z chunks → (eof < opened + maxd)%Z →
  fits [] (snd <$> chunks) →
  decode_sse idle maxd opened
    ((chunk_obs <$> chunks) ++ [{| obs_now := eof; obs_next := Eof |}]) = evs.
Proof.
  intros Hok Hbytes Hc He Hf. unfold decode_sse.
  rewrite (decode_chunks _ _ _ [] chunks eof) by done.
  rewrite app_nil_l, Hbytes. by apply reassembled_frames.
Qed.

Lemma sse_roundtrip_witness :
  let _ := sample_json in
  let evs := [StreamEvent.Progress (Value.Bool false); StreamEvent.Done Value.Null] in
  let body := concat (to_sse_frame <$> evs) in
  decode_sse 10 100 0
    ((chunk_obs <$> [(1%Z, take 9 body); (2%Z, drop 9 body)])
       ++ [{| obs_now := 7; obs_next := Eof |}]) = evs.
Proof.
  intros ? evs body.
  apply (sse_roundtrip 10 100 0 evs [(1%Z, take 9 body); (2%Z, drop 9 body)] 7);
    [|by vm_compute|by repeat constructor|lia|].
  - repeat constructor; try (apply (bool_decide_eq_true_1 _)); by vm_compute.
  - repeat (split; [apply Nat.leb_le; by vm_compute|]). done.
Defined.

(** The states the loop of the decoder goes through. *)
Inductive decoder_reachable `{SerdeJson} (idle maxd deadline : Z) : Decoder → Prop :=
  | dec_init : decoder_reachable idle maxd deadline Decoder_new
  | dec_pop st ev evs :
      decoder_reachable idle maxd deadline st → pending st = ev :: evs →
      decoder_reachable idle maxd deadline
        {| buf := buf st; pending := evs; done := done st |}
  | dec_absorb st o :
      decoder_reachable idle maxd deadline st → pending st = [] → done st = false →
      decoder_reachable idle maxd deadline (absorb idle maxd deadline st o).

(** An upstream cannot exhaust the gateway's memory with an unfinished
    frame: between two reads the decoder's buffer holds at most
    [MAX_FRAME_BYTES]. *)
Theorem sse_buffer_bounded `{SerdeJson} idle maxd deadline st :
  decoder_reachable idle maxd deadline st → length (buf st) ≤ MAX_FRAME_BYTES.
Proof.
  induction 1 as [|st ev evs _ IH _|st o _ IH _ _]; [simpl; lia|done|].
  by apply absorb_buffer_bounded.
Qed.

Lemma sse_buffer_bounded_witness :
  let _ := sample_json in
  let st := absorb 10 100 100 Decoder_new {| obs_now := 0; obs_next := Chunk §"event: x" |} in
  buf st = §"event: x" ∧ length (buf st) ≤ MAX_FRAME_BYTES.
Proof.
  intros. split; [by vm_compute|]. apply (sse_buffer_bounded 10 100 100).
  by apply dec_absorb; [apply dec_init| |].
Defined.
