(* ===== verification/Context.v ===== *)
(** * Context: where a turn is rendered, and the reserved [_triton] key
    (crates/triton-core/src/dispatch_context.rs and the argument preparation
    of crates/triton-core/src/dispatcher.rs)

    A [SurfaceDescriptor] is carried as its serialised JSON, the only form in
    which it reaches anything modelled here. *)

From S2P Require Import Prelude Json.

Record DispatchContext := {
  channel : str;
  surface : option Value;
}.

Record ContextOverrides := {
  triton_meta : JsonMap;
  ov_surface : option Value;
  client_files : option (list Value);
}.

Definition no_overrides : ContextOverrides :=
  {| triton_meta := []; ov_surface := None; client_files := None |}.

Definition RESERVED_ARGS_KEY : str := §"_triton".

Definition channel_for_protocol (protocol : str) : str :=
  let adapter := match strip_prefix §"messenger:" protocol with
                 | Some rest => default rest (head (split_on ":" rest))
                 | None => protocol
                 end in
  if decide (adapter = §"google_chat") then §"googlechat" else adapter.

Definition for_protocol (protocol : str) (surfaces : gmap str Value) : DispatchContext :=
  let channel := channel_for_protocol protocol in
  {| channel := channel; surface := surfaces !! channel |}.

(** [Dispatcher::context]. *)
Definition dispatch_context (protocol : str) (surfaces : gmap str Value)
    (ov : ContextOverrides) : DispatchContext :=
  let ctx := for_protocol protocol surfaces in
  match ov_surface ov with
  | Some s => {| channel := channel ctx; surface := Some s |}
  | None => ctx
  end.

(** [map.entry(k).or_insert(d)], then an update of the entry. *)
Definition entry_or (k : str) (d : Value) (f : Value → Value) (m : JsonMap) : JsonMap :=
  Map.insert k (f (default d (Map.get k m))) m.

Definition object_insert (k : str) (v : Value) (o : Value) : Value :=
  match o with Value.Object m => Value.Object (Map.insert k v m) | _ => o end.

Definition surface_hint (args : Value) (ctx : DispatchContext) : Value :=
  match surface ctx, args with
  | Some s, Value.Object m =>
      Value.Object (entry_or RESERVED_ARGS_KEY (Value.Object [])
                      (object_insert §"surface" s) m)
  | _, _ => args
  end.

Definition strip_reserved (args : Value) : Value :=
  match args with
  | Value.Object m => Value.Object (Map.remove RESERVED_ARGS_KEY m)
  | _ => args
  end.

Definition prepare_args (args : Value) (ov : ContextOverrides) : Value :=
  let args := strip_reserved args in
  let files := client_files ov ≫= λ f, if is_empty f then None else Some f in
  if (is_empty (triton_meta ov) && bool_decide (files = None)) || negb (is_object args)
  then args
  else
    let meta := match files with
                | Some f => entry_or §"client" (Value.Object [])
                              (object_insert §"files" (Value.Array f)) (triton_meta ov)
                | None => triton_meta ov
                end in
    object_insert RESERVED_ARGS_KEY (Value.Object meta) args.

(** ** Properties *)

(** What Triton itself puts under [_triton]. *)
Definition own_meta (ov : ContextOverrides) : option Value :=
  let files := client_files ov ≫= λ f, if is_empty f then None else Some f in
  if is_empty (triton_meta ov) && bool_decide (files = None) then None
  else Some (Value.Object
    match files with
    | Some f => entry_or §"client" (Value.Object [])
                  (object_insert §"files" (Value.Array f)) (triton_meta ov)
    | None => triton_meta ov
    end).

Lemma prepare_args_reserved m ov :
  value_get RESERVED_ARGS_KEY (prepare_args (Value.Object m) ov) = own_meta ov.
Proof.
  unfold prepare_args, own_meta. simpl strip_reserved.
  set (files := client_files ov ≫= _).
  destruct (is_empty (triton_meta ov) && bool_decide (files = None)); simpl.
  - apply Map.get_remove_eq.
  - apply Map.get_insert_eq.
Qed.

Lemma prepare_args_other m ov k :
  k ≠ RESERVED_ARGS_KEY →
  value_get k (prepare_args (Value.Object m) ov) = Map.get k m.
Proof.
  intros Hk. unfold prepare_args. simpl strip_reserved.
  destruct (_ || _); simpl; rewrite ?Map.get_insert_ne by done; by rewrite Map.get_remove_ne.
Qed.

(** A caller cannot forge Triton's reserved [_triton] argument.  What a
    tool or an agent reads under that key depends only on what the adapter
    supplied, whatever the caller sent there, and every other argument arrives
    unchanged. *)
Theorem reserved_key_unforgeable (m : JsonMap) (ov : ContextOverrides) (k : str) :
  value_get RESERVED_ARGS_KEY (prepare_args (Value.Object m) ov) = own_meta ov
  ∧ (k ≠ RESERVED_ARGS_KEY →
     value_get k (prepare_args (Value.Object m) ov) = Map.get k m).
Proof. split; [apply prepare_args_reserved|apply prepare_args_other]. Qed.

Lemma reserved_key_unforgeable_witness :
  let m := [(§"_triton", Value.Bool true); (§"q", Value.Null)] in
  value_get RESERVED_ARGS_KEY (prepare_args (Value.Object m) no_overrides) = None
  ∧ value_get §"q" (prepare_args (Value.Object m) no_overrides) = Some Value.Null.
Proof.
  destruct (reserved_key_unforgeable [(§"_triton", Value.Bool true); (§"q", Value.Null)]
              no_overrides §"q") as [H1 H2].
  split; [exact H1|by apply H2].
Defined.
