(* ===== verification/Upstream.v ===== *)
(** * Upstream: the static upstream router
    (crates/triton-upstream/src/static_upstream.rs and the token signer of
    crates/triton-identity/src/signer.rs)

    A tool name is resolved in a static map, a per-tool circuit breaker is
    consulted, a bearer is minted for the caller and one HTTP request is sent.
    [reqwest] and [jsonwebtoken] are third-party: an exchange is the function
    [http] of the environment, the JWT encoder the function [jwt_encode].
    Both breaker operations happen under a mutex, so each is one function on
    the state; the clock readings are arguments. *)

From S2P Require Import Prelude Json Errors Principal Context Stream.

(** ** The circuit breaker *)

Inductive BreakerState := Closed | Open | HalfOpen.

#[export] Instance BreakerState_eq_dec : EqDecision BreakerState.
Proof. solve_decision. Defined.

Record Breaker := {
  state : BreakerState;
  failures : Z;
  opened_at : option Z;
}.

#[export] Instance Breaker_eq_dec : EqDecision Breaker.
Proof. solve_decision. Defined.

Record BreakerPermission := {
  allowed : bool;
  was_half_open : bool;
}.

Definition Breaker_new : Breaker :=
  {| state := Closed; failures := 0; opened_at := None |}.

(** [t.elapsed()] at [now]. *)
Definition elapsed (now t : Z) : Z := Z.max 0 (now - t).

Definition check_and_arm (now cooldown : Z) (b : Breaker) : BreakerPermission * Breaker :=
  match state b with
  | Closed => ({| allowed := true; was_half_open := false |}, b)
  | Open =>
      if match opened_at b with Some t => (cooldown <=? elapsed now t)%Z | None => false end
      then ({| allowed := true; was_half_open := true |},
            {| state := HalfOpen; failures := failures b; opened_at := opened_at b |})
      else ({| allowed := false; was_half_open := false |}, b)
  | HalfOpen => ({| allowed := false; was_half_open := false |}, b)
  end.

Definition observe (now : Z) (success was_half_open : bool) (open_after : Z) (b : Breaker)
    : Breaker :=
  if was_half_open then
    if success then {| state := Closed; failures := 0; opened_at := None |}
    else {| state := Open; failures := failures b; opened_at := Some now |}
  else if success then {| state := Closed; failures := 0; opened_at := None |}
  else
    let f := u32_saturating_add (failures b) 1 in
    if (open_after <=? f)%Z then {| state := Open; failures := f; opened_at := Some now |}
    else {| state := state b; failures := f; opened_at := opened_at b |}.

(** ** Forwarded identity *)

Definition MAX_SCOPES : nat := 32.
Definition MAX_SCOPE_LEN : nat := 64.
Definition MAX_TENANT_LEN : nat := 128.
Definition MAX_SUB_LEN : nat := 128.

Definition validate_signed_field (field value : str) (max : nat) : result unit TritonError :=
  if (max <? length value)%nat then
    Err (Auth (§"resolved " ++ field ++ §" is " ++ dec (Z.of_nat (length value))
                 ++ §" bytes, over the " ++ dec (Z.of_nat max)
                 ++ §"-byte cap; refusing to mint an upstream token"))
  else if has_whitespace value || has_control value then
    Err (Auth (§"resolved " ++ field ++ §" contains whitespace or control characters; refusing to mint an upstream token"))
  else Ok ().

Definition scope_ok (s : str) : bool :=
  negb (is_empty s) && (length s <=? MAX_SCOPE_LEN)%nat && negb (has_whitespace s).

Definition allowlisted (allowlist : option (gset str)) (s : str) : bool :=
  match allowlist with Some a => bool_decide (s ∈ a) | None => true end.

Definition sanitise_scopes (scopes : list str) (allowlist : option (gset str)) : list str :=
  take MAX_SCOPES
    (filter (λ s, allowlisted allowlist s = true)
       (filter (λ s, scope_ok s = true) scopes)).

Definition parse_ui_authority (uri : str) : result str TritonError :=
  match strip_prefix §"ui://" uri with
  | None => Err (Validation (§"not a ui:// resource uri: " ++ uri))
  | Some rest =>
      let authority := (fix go (s : str) : str :=
        match s with
        | [] => []
        | c :: s' => if decide (c ∈ §"/?#") then [] else c :: go s'
        end) rest in
      if is_empty authority then
        Err (Validation (§"ui:// resource uri has no authority: " ++ uri))
      else Ok authority
  end.

(** ** [JwtSigner] *)

Definition MAX_TTL : Z := 300.
Definition TOKEN_TTL : Z := 300.

Record JwtSigner := {
  kid : str;
  signer_issuer : str;
}.

Definition RESERVED_CLAIMS : list str :=
  [§"iss"; §"aud"; §"sub"; §"iat"; §"exp"; §"nbf"; §"jti"; §"tenant";
   §"triton_sender_scopes"; §"triton_sender_groups"].

Definition strings (l : list str) : Value := Value.Array (Value.String <$> l).
Definition number (n : Z) : Value := Value.Number (Value.Int n).

Definition insert_if (c : bool) (k : str) (v : Value) (m : JsonMap) : JsonMap :=
  if c then Map.insert k v m else m.

(** The claims [sign_with_claims] signs, at unix time [now]. *)
Definition signed_claims (s : JwtSigner) (now : Z) (audiences : list str)
    (subject tenant : str) (scopes groups : list str) (extra : JsonMap) (ttl : Z) : JsonMap :=
  let claims := Map.insert §"iss" (Value.String (signer_issuer s))
    (Map.insert §"aud" (strings audiences)
      (Map.insert §"sub" (Value.String subject)
        (Map.insert §"iat" (number now)
          (Map.insert §"exp" (number (now + Z.min ttl MAX_TTL)) [])))) in
  let claims := insert_if (negb (is_empty tenant)) §"tenant" (Value.String tenant) claims in
  let claims := insert_if (negb (is_empty scopes)) §"triton_sender_scopes" (strings scopes) claims in
  let claims := insert_if (negb (is_empty groups)) §"triton_sender_groups" (strings groups) claims in
  fold_left (λ m '(k, v), insert_if (bool_decide (k ∉ RESERVED_CLAIMS)) k v m) extra claims.

(** ** The router *)

Record StaticUpstream := {
  map : gmap str str;
  token : str;
  signer : option JwtSigner;
  audience : str;
  up_tenant : str;
  forward_principal : bool;
  forward_scope_allowlist : option (gset str);
  forward_group_allowlist : option (gset str);
  circuit_open_after : Z;
  circuit_cooldown : Z;
  use_surface_hint : bool;
}.

(** [from_spec]: [name=host:port] pairs, a later name replacing an earlier. *)
Definition from_spec_map (spec : str) : gmap str str :=
  fold_left (λ m '(k, v), <[k := v]> m)
    (filter (λ kv, negb (is_empty kv.1) && negb (is_empty kv.2) = true)
      ((λ kv, (trim kv.1, trim kv.2)) <$> omap (split_once "=") (split_on "," spec))) ∅.

(** The timeouts configure the HTTP clients and the event decoder
    ([Sse.decode_sse] takes them as arguments). *)
Definition from_spec (spec token : str) (open_after cooldown : Z) : StaticUpstream :=
  {| map := from_spec_map spec; token := token; signer := None; audience := [];
     up_tenant := []; forward_principal := false; forward_scope_allowlist := None;
     forward_group_allowlist := None; circuit_open_after := open_after;
     circuit_cooldown := cooldown; use_surface_hint := true |}.

Definition with_surface_hint (on : bool) (u : StaticUpstream) : StaticUpstream :=
  {| map := map u; token := token u; signer := signer u; audience := audience u;
     up_tenant := up_tenant u; forward_principal := forward_principal u;
     forward_scope_allowlist := forward_scope_allowlist u;
     forward_group_allowlist := forward_group_allowlist u;
     circuit_open_after := circuit_open_after u; circuit_cooldown := circuit_cooldown u;
     use_surface_hint := on |}.

Definition with_signer (s : JwtSigner) (aud ten : str) (forward : bool)
    (scopes groups : option (gset str)) (u : StaticUpstream) : StaticUpstream :=
  {| map := map u; token := token u; signer := Some s; audience := aud;
     up_tenant := ten; forward_principal := forward; forward_scope_allowlist := scopes;
     forward_group_allowlist := groups; circuit_open_after := circuit_open_after u;
     circuit_cooldown := circuit_cooldown u; use_surface_hint := use_surface_hint u |}.

(** What the request carries beside the body. *)
Inductive Route :=
  | ToolCall (tool : str)
  | Mcp (method : str).

Record Request := {
  endpoint : str;
  bearer_auth : str;
  route : Route;
  channel_header : str;
  task_header : option str;
  accept_sse : bool;
  body : Value;
}.

Inductive HttpOutcome :=
  | SendTimeout
  | SendError (e : str)
  (** status code, its rendering, and the decoded body *)
  | Response (status : Z) (status_text : str) (json : result Value str).

Definition is_success_status (s : Z) : bool := (200 <=? s)%Z && (s <=? 299)%Z.

(** The mutable part of the router: the breakers and the warning latch. *)
Record UpstreamState := {
  breakers : gmap str Breaker;
  groups_dropped_warned : bool;
}.

(** The environment of one call: the clock at the breaker check, at the
    breaker update and of the wall (unix seconds, [None] before the epoch),
    and the network. *)
Record Env := {
  at_check : Z;
  at_observe : Z;
  unix_now : option Z;
  http : Request → HttpOutcome;
}.

Section Router.
(** [jsonwebtoken::encode] with the signer's key, by key id and claims. *)
Variable jwt_encode : str → Value → result str str.

Definition sign_with_claims (env : Env) (s : JwtSigner) (audiences : list str)
    (subject tenant : str) (scopes groups : list str) (extra : JsonMap) (ttl : Z)
    : result str str :=
  match unix_now env with
  | None => Err §"clock: second time provided was later than self"
  | Some now =>
      result_map_err (λ e, §"sign jwt: " ++ e)
        (jwt_encode (kid s) (Value.Object
          (signed_claims s now audiences subject tenant scopes groups extra ttl)))
  end.

(** The forwarded identity-provider claims. *)
Definition idp_claims (i : IdpIdentity) : result JsonMap TritonError :=
  _ ←? validate_signed_field §"idp" (name i) MAX_TENANT_LEN;
  let m := Map.insert §"idp" (Value.String (name i)) [] in
  m ←? match idp_tenant i with
       | Some t =>
           _ ←? validate_signed_field §"idp_tenant" t MAX_TENANT_LEN;
           Ok (Map.insert §"idp_tenant" (Value.String t) m)
       | None => Ok m
       end;
  match email i with
  | Some e =>
      _ ←? validate_signed_field §"email" e MAX_SUB_LEN;
      Ok (Map.insert §"email" (Value.String e) m)
  | None => Ok m
  end.

(** The tenant claim: the caller's, else the deployment's. *)
Definition bearer_tenant (u : StaticUpstream) (p : Principal) : result str TritonError :=
  if is_empty (tenant p) then Ok (up_tenant u)
  else _ ←? validate_signed_field §"tenant" (tenant p) MAX_TENANT_LEN; Ok (tenant p).

Definition bearer (env : Env) (u : StaticUpstream) (p : Principal) : result str TritonError :=
  match signer u with
  | None => Ok (token u)
  | Some s =>
      let auds := filter (λ a, is_empty a = false) (trim <$> split_on "," (audience u)) in
      tenant ←? bearer_tenant u p;
      let scopes := if forward_principal u
                    then sanitise_scopes (scopes p) (forward_scope_allowlist u) else [] in
      let groups := if forward_principal u
                    then sanitise_scopes (groups p) (forward_group_allowlist u) else [] in
      _ ←? validate_signed_field §"sub" (sub p) MAX_SUB_LEN;
      extra ←? match idp p with
               | Some i => if forward_principal u then idp_claims i else Ok []
               | None => Ok []
               end;
      result_map_err (λ e, Tool (§"mint upstream token: " ++ e))
        (sign_with_claims env s auds (sub p) tenant scopes groups extra TOKEN_TTL)
  end.

(** The latch set when resolved groups are dropped. *)
Definition bearer_warns (u : StaticUpstream) (p : Principal) : bool :=
  match signer u with
  | Some _ => is_ok (bearer_tenant u p) && negb (forward_principal u)
              && negb (is_empty (groups p))
  | None => false
  end.

Definition with_hint (u : StaticUpstream) (args : Value) (ctx : DispatchContext) : Value :=
  if use_surface_hint u then surface_hint args ctx else args.

(** The classification of an exchange; [what] names the callee. *)
Definition classify_response (what : str) (o : HttpOutcome) : result Value TritonError :=
  match o with
  | SendTimeout => Err (Tool (§"upstream " ++ what ++ §" timed out"))
  | SendError e => Err (Tool (§"upstream " ++ what ++ §" unreachable: " ++ e))
  | Response s text json =>
      if is_success_status s then
        result_map_err (λ e, Tool (§"upstream " ++ what ++ §" decode: " ++ e)) json
      else Err (Tool (§"upstream " ++ what ++ §" returned " ++ text))
  end.

(** A call returns its result and the request it sent, if any. *)
Definition Call : Type := result Value TritonError * option Request.

Definition do_dispatch (env : Env) (u : StaticUpstream) (tool : str) (args : Value)
    (p : Principal) (ctx : DispatchContext) : Call :=
  match map u !! tool with
  | None => (Err (Validation (§"unknown tool: " ++ tool)), None)
  | Some ep =>
      match bearer env u p with
      | Err e => (Err e, None)
      | Ok b =>
          let req := {| endpoint := ep; bearer_auth := b; route := ToolCall tool;
                        channel_header := channel ctx; task_header := None;
                        accept_sse := false; body := with_hint u args ctx |} in
          (classify_response tool (http env req), Some req)
      end
  end.

(** [do_read_resource] and [do_update_model_context] differ in the method
    and the body. *)
Definition do_mcp (env : Env) (u : StaticUpstream) (method authority : str) (b : Value)
    (p : Principal) (ctx : DispatchContext) : Call :=
  match map u !! authority with
  | None => (Err (Validation (§"unknown resource owner: " ++ authority)), None)
  | Some ep =>
      match bearer env u p with
      | Err e => (Err e, None)
      | Ok bt =>
          let req := {| endpoint := ep; bearer_auth := bt; route := Mcp method;
                        channel_header := channel ctx; task_header := None;
                        accept_sse := false; body := b |} in
          (classify_response (authority ++ §" " ++ method) (http env req), Some req)
      end
  end.

Definition do_read_resource env u authority uri p ctx : Call :=
  do_mcp env u §"resources/read" authority
    (json_object [(§"uri", Value.String uri)]) p ctx.

Definition do_update_model_context env u authority record p ctx : Call :=
  do_mcp env u §"updateModelContext" authority record p ctx.

(** [breaker_slot] creates the slot on first use. *)
Definition breaker_slot (key : str) (st : UpstreamState) : Breaker :=
  default Breaker_new (breakers st !! key).

Definition breaker_check (env : Env) (u : StaticUpstream) (key : str) (st : UpstreamState)
    : BreakerPermission * UpstreamState :=
  let '(perm, b) := check_and_arm (at_check env) (circuit_cooldown u) (breaker_slot key st) in
  (perm, {| breakers := <[key := b]> (breakers st);
            groups_dropped_warned := groups_dropped_warned st |}).

Definition breaker_update (env : Env) (u : StaticUpstream) (key : str)
    (was_half_open success : bool) (st : UpstreamState) : UpstreamState :=
  match breakers st !! key with
  | Some b =>
      {| breakers := <[key := observe (at_observe env) success was_half_open
                                (circuit_open_after u) b]> (breakers st);
         groups_dropped_warned := groups_dropped_warned st |}
  | None => st
  end.

Definition circuit_open_error (u : StaticUpstream) (key : str) : TritonError :=
  Tool (§"circuit_open: " ++ key ++ §" (cooldown "
          ++ dec (circuit_cooldown u / 1000000) ++ §"ms)").

Definition is_tool_fault (r : result Value TritonError) : bool :=
  match r with Err (Tool _) => true | _ => false end.

(** The frame [invoke], [read_resource] and [update_model_context] share:
    check, call, and update unless the fault is the caller's. *)
Definition guarded (env : Env) (u : StaticUpstream) (key : str) (p : Principal)
    (call : Call) (st : UpstreamState) : Call * UpstreamState :=
  let '(perm, st1) := breaker_check env u key st in
  if allowed perm then
    let '(outcome, req) := call in
    let st2 := {| breakers := breakers st1;
                  groups_dropped_warned :=
                    groups_dropped_warned st1
                    || (bool_decide (is_Some (map u !! key)) && bearer_warns u p) |} in
    (call,
     if is_ok outcome || is_tool_fault outcome
     then breaker_update env u key (was_half_open perm) (is_ok outcome) st2
     else st2)
  else ((Err (circuit_open_error u key), None), st1).

Definition upstream_invoke (env : Env) (u : StaticUpstream) (tool : str) (args : Value)
    (p : Principal) (ctx : DispatchContext) (st : UpstreamState) : Call * UpstreamState :=
  guarded env u tool p (do_dispatch env u tool args p ctx) st.

Definition upstream_mcp (env : Env) (u : StaticUpstream) (uri : str) (p : Principal)
    (call : str → Call) (st : UpstreamState) : Call * UpstreamState :=
  match parse_ui_authority uri with
  | Err e => ((Err e, None), st)
  | Ok authority =>
      match map u !! authority with
      | None => ((Err (Validation (§"unknown resource owner: " ++ authority)), None), st)
      | Some _ => guarded env u authority p (call authority) st
      end
  end.

Definition upstream_read_resource env u uri p ctx st : Call * UpstreamState :=
  upstream_mcp env u uri p (λ a, do_read_resource env u a uri p ctx) st.

Definition upstream_update_model_context env u uri record p ctx st : Call * UpstreamState :=
  upstream_mcp env u uri p (λ a, do_update_model_context env u a record p ctx) st.

(** ** Streaming *)

(** The body of a streaming response: a JSON document read under the idle
    timeout, or an open event stream. *)
Inductive StreamBody :=
  | JsonBody (json : result Value str)
  | JsonTimeout
  | EventStream.

Inductive StreamOutcome :=
  | StreamSendTimeout
  | StreamSendError (e : str)
  | StreamResponse (status : Z) (status_text : str) (sb : StreamBody).

(** What [open_stream] hands back: one buffered [Done], or an event stream
    whose end updates the breaker with the permission's probe flag. *)
Inductive Opened :=
  | Buffered (v : Value)
  | Streaming (probe : bool).

Definition open_stream (env : Env) (net : Request → StreamOutcome) (u : StaticUpstream)
    (tool : str) (args : Value) (p : Principal) (ctx : DispatchContext)
    (resume : option str) (st : UpstreamState)
    : result Opened TritonError * option Request * UpstreamState :=
  let '(perm, st1) := breaker_check env u tool st in
  if allowed perm then
    match map u !! tool with
    | None => (Err (Validation (§"unknown tool: " ++ tool)), None, st1)
    | Some ep =>
        let st2 := {| breakers := breakers st1;
                      groups_dropped_warned :=
                        groups_dropped_warned st1 || bearer_warns u p |} in
        match bearer env u p with
        | Err e => (Err e, None, st2)
        | Ok b =>
            let req := {| endpoint := ep; bearer_auth := b; route := ToolCall tool;
                          channel_header := channel ctx; task_header := resume;
                          accept_sse := true; body := with_hint u args ctx |} in
            let update success :=
              breaker_update env u tool (was_half_open perm) success st2 in
            match net req with
            | StreamSendTimeout =>
                (Err (Tool (§"upstream " ++ tool ++ §" timed out")), Some req, update false)
            | StreamSendError e =>
                (Err (Tool (§"upstream " ++ tool ++ §" unreachable: " ++ e)), Some req,
                 update false)
            | StreamResponse s text sb =>
                if is_success_status s then
                  match sb with
                  | JsonBody (Ok v) => (Ok (Buffered v), Some req, update true)
                  | JsonBody (Err e) =>
                      (Err (Tool (§"upstream " ++ tool ++ §" decode: " ++ e)), Some req,
                       update false)
                  | JsonTimeout =>
                      (Err (Tool (§"upstream " ++ tool ++ §" timed out")), Some req,
                       update false)
                  | EventStream => (Ok (Streaming (was_half_open perm)), Some req, st2)
                  end
                else (Err (Tool (§"upstream " ++ tool ++ §" returned " ++ text)),
                      Some req, update false)
            end
        end
    end
  else (Err (circuit_open_error u tool), None, st1).

(** The finalizer of an open stream. *)
Definition stream_finalizer (now : Z) (u : StaticUpstream) (probe : bool)
    (term : Termination) (b : Breaker) : Breaker :=
  match term with
  | Completed => observe now true probe (circuit_open_after u) b
  | Failed _ | Truncated => observe now false probe (circuit_open_after u) b
  | Disconnected => if probe then observe now false true (circuit_open_after u) b else b
  end.
End Router.

(** ** The breaker as a whole *)
Section BreakerFacts.
Variable jwt_encode : str → Value → result str str.

Lemma breaker_slot_insert key b m w :
  breaker_slot key {| breakers := <[key := b]> m; groups_dropped_warned := w |} = b.
Proof. unfold breaker_slot. simpl. by rewrite lookup_insert_eq. Qed.

(** What a guarded call does to its breaker, by the answer of the check. *)
Definition settled (env : Env) (u : StaticUpstream) (perm : BreakerPermission)
    (outcome : result Value TritonError) (b : Breaker) : Breaker :=
  if is_ok outcome || is_tool_fault outcome
  then observe (at_observe env) (is_ok outcome) (was_half_open perm)
         (circuit_open_after u) b
  else b.

Lemma guarded_eq env u key p call st :
  let '(perm, b) := check_and_arm (at_check env) (circuit_cooldown u) (breaker_slot key st) in
  (guarded env u key p call st).1
    = (if allowed perm then call else (Err (circuit_open_error u key), None))
  ∧ breaker_slot key (guarded env u key p call st).2
    = (if allowed perm then settled env u perm call.1 b else b).
Proof.
  unfold guarded, breaker_check, settled.
  destruct (check_and_arm _ _ _) as [perm b].
  destruct (allowed perm); cbn [fst snd].
  - destruct call as [outcome req]; cbn [fst snd]. split; [done|].
    destruct (is_ok outcome || is_tool_fault outcome).
    + unfold breaker_update. cbn [breakers]. rewrite lookup_insert_eq.
      apply breaker_slot_insert.
    + apply breaker_slot_insert.
  - split; [done|]. apply breaker_slot_insert.
Qed.

(** A sequence of tool calls on one router. *)
Record Attempt := {
  a_env : Env; a_args : Value; a_principal : Principal; a_ctx : DispatchContext;
}.

Definition attempt_call (u : StaticUpstream) (tool : str) (a : Attempt) : Call :=
  do_dispatch jwt_encode (a_env a) u tool (a_args a) (a_principal a) (a_ctx a).

Fixpoint invoke_all (u : StaticUpstream) (tool : str) (l : list Attempt) (st : UpstreamState)
    : list Call * UpstreamState :=
  match l with
  | [] => ([], st)
  | a :: l' =>
      let '(c, st1) := upstream_invoke jwt_encode (a_env a) u tool (a_args a)
                         (a_principal a) (a_ctx a) st in
      let '(cs, st2) := invoke_all u tool l' st1 in
      (c :: cs, st2)
  end.

Lemma half_open_refuses u tool l st :
  state (breaker_slot tool st) = HalfOpen →
  Forall (λ c, c = (Err (circuit_open_error u tool), None)) (invoke_all u tool l st).1
  ∧ state (breaker_slot tool (invoke_all u tool l st).2) = HalfOpen.
Proof.
  revert st. induction l as [|a l IH]; intros st Hs; [done|].
  cbn [invoke_all]. unfold upstream_invoke.
  pose proof (guarded_eq (a_env a) u tool (a_principal a)
                (attempt_call u tool a) st) as G.
  unfold check_and_arm in G. rewrite Hs in G. destruct G as [G1 G2].
  change (do_dispatch _ _ _ _ _ _ _) with (attempt_call u tool a).
  destruct (guarded _ _ _ _ _ _) as [c st1]; cbn [fst snd] in *.
  destruct (IH st1) as [I1 I2]; [by rewrite G2|].
  destruct (invoke_all u tool l st1) as [cs st2]; cbn [fst snd] in *.
  split; [by constructor|done].
Qed.

(** Consecutive faults count up and trip at the threshold. *)
Lemma faults_trip u tool l st :
  (0 ≤ failures (breaker_slot tool st))%Z →
  state (breaker_slot tool st) = Closed →
  Forall (λ a, is_tool_fault (attempt_call u tool a).1 = true) l →
  (failures (breaker_slot tool st) + Z.of_nat (length l) = circuit_open_after u)%Z →
  (circuit_open_after u ≤ u32_max)%Z → l ≠ [] →
  ∃ a, last l = Some a ∧
  breaker_slot tool (invoke_all u tool l st).2
  = {| state := Open; failures := circuit_open_after u;
       opened_at := Some (at_observe (a_env a)) |}.
Proof.
  revert st. induction l as [|a l IH]; intros st H0 Hs Hall Hn Hmax Hne; [done|].
  apply Forall_cons in Hall as [Ha Hall]. rewrite length_cons in Hn.
  cbn [invoke_all]. unfold upstream_invoke.
  pose proof (guarded_eq (a_env a) u tool (a_principal a) (attempt_call u tool a) st) as G.
  unfold check_and_arm in G. rewrite Hs in G. destruct G as [_ G2].
  change (do_dispatch _ _ _ _ _ _ _) with (attempt_call u tool a).
  destruct (guarded _ _ _ _ _ _) as [c st1]; cbn [fst snd] in *.
  assert (is_ok (attempt_call u tool a).1 = false) as Hk
    by (destruct (attempt_call u tool a) as [[|[]] ?]; done).
  unfold settled, observe in G2. rewrite Hk, Ha in G2. cbn in G2.
  unfold u32_saturating_add in G2. rewrite Z.min_r in G2 by lia.
  destruct l as [|a' l].
  - exists a. split; [done|]. cbn [invoke_all snd].
    rewrite (proj2 (Z.leb_le _ _)) in G2 by (cbn in Hn; lia).
    rewrite G2. f_equal. cbn in Hn. lia.
  - rewrite (proj2 (Z.leb_gt _ _)) in G2 by (rewrite length_cons in Hn; lia).
    destruct (IH st1) as (z & Hz & E); rewrite ?G2; cbn [failures state];
      [lia|done|done|lia|done|done|].
    exists z. split; [by rewrite last_cons_cons|].
    destruct (invoke_all u tool (a' :: l) st1) as [cs st2]. done.
Qed.
(** ** Every way to call the upstream *)

Inductive Operation :=
  | OpInvoke (tool : str) (args : Value) (ctx : DispatchContext)
  | OpOpenStream (net : Request → StreamOutcome) (tool : str) (args : Value) (ctx : DispatchContext)
      (resume : option str)
  | OpReadResource (uri : str) (ctx : DispatchContext)
  | OpUpdateModelContext (uri : str) (record : Value) (ctx : DispatchContext).
Record Arrival := { ar_env : Env; ar_principal : Principal; ar_op : Operation }.

(** The breaker an operation goes through, when it gets to one. *)
Definition breaker_key (u : StaticUpstream) (op : Operation) : option str :=
  match op with
  | OpInvoke tool _ _ | OpOpenStream _ tool _ _ _ => Some tool
  | OpReadResource uri _ | OpUpdateModelContext uri _ _ =>
      match parse_ui_authority uri with
      | Ok authority => match map u !! authority with Some _ => Some authority | None => None end
      | Err _ => None
      end
  end.

(** An answer, its value aside: an error or none, and the request sent. *)
Definition Answered : Type := option TritonError * option Request.
Definition error_of {A} (r : result A TritonError) : option TritonError :=
  match r with Ok _ => None | Err e => Some e end.

Definition arrive (u : StaticUpstream) (x : Arrival) (st : UpstreamState) : Answered * UpstreamState :=
  let env := ar_env x in
  let p := ar_principal x in
  let buffered (c : Call * UpstreamState) := ((error_of c.1.1, c.1.2), c.2) in
  match ar_op x with
  | OpInvoke tool args ctx => buffered (upstream_invoke jwt_encode env u tool args p ctx st)
  | OpOpenStream net tool args ctx resume =>
      let '(r, req, st) := open_stream jwt_encode env net u tool args p ctx resume st in
      ((error_of r, req), st)
  | OpReadResource uri ctx => buffered (upstream_read_resource jwt_encode env u uri p ctx st)
  | OpUpdateModelContext uri record ctx =>
      buffered (upstream_update_model_context jwt_encode env u uri record p ctx st)
  end.

Fixpoint arrive_all (u : StaticUpstream) (l : list Arrival) (st : UpstreamState)
    : list Answered * UpstreamState :=
  match l with
  | [] => ([], st)
  | x :: l =>
      let '(c, st) := arrive u x st in
      let '(cs, st) := arrive_all u l st in (c :: cs, st)
  end.

(** The breaker refuses at [now]. *)
Definition refuses (u : StaticUpstream) (now : Z) (b : Breaker) : Prop :=
  check_and_arm now (circuit_cooldown u) b = ({| allowed := false; was_half_open := false |}, b).

Lemma open_breaker_refuses u now f t :
  (elapsed now t < circuit_cooldown u)%Z → refuses u now {| state := Open; failures := f; opened_at := Some t |}.
Proof. intros Hc. unfold refuses, check_and_arm. cbn. by rewrite (proj2 (Z.leb_gt _ _) Hc). Qed.

(** A call through another breaker leaves this one alone. *)
Lemma breaker_slot_other key key' b m w :
  key ≠ key' → breaker_slot key {| breakers := <[key' := b]> m; groups_dropped_warned := w |}
               = breaker_slot key {| breakers := m; groups_dropped_warned := w |}.
Proof. intros Hk. unfold breaker_slot. simpl. by rewrite lookup_insert_ne. Qed.

Lemma breaker_slot_warned key m w w' :
  breaker_slot key {| breakers := m; groups_dropped_warned := w |}
  = breaker_slot key {| breakers := m; groups_dropped_warned := w' |}.
Proof. done. Qed.

Lemma breaker_update_other key key' env u probe success st :
  key ≠ key' → breaker_slot key (breaker_update env u key' probe success st) = breaker_slot key st.
Proof.
  intros Hk. unfold breaker_update. destruct (breakers st !! key'); [|done]. by rewrite breaker_slot_other.
Qed.

Lemma guarded_other key key' env u p call st :
  key ≠ key' → breaker_slot key (guarded env u key' p call st).2 = breaker_slot key st.
Proof.
  intros Hk. unfold guarded, breaker_check. destruct (check_and_arm _ _ _) as [perm b].
  destruct (allowed perm); [|by cbn; rewrite breaker_slot_other].
  destruct call as [outcome req]. cbn [snd]. destruct (is_ok outcome || is_tool_fault outcome).
  - rewrite breaker_update_other by done. cbn. by rewrite breaker_slot_other.
  - cbn. by rewrite breaker_slot_other.
Qed.

Lemma open_stream_other key env net u tool args p ctx resume st :
  key ≠ tool →
  breaker_slot key (open_stream jwt_encode env net u tool args p ctx resume st).2 = breaker_slot key st.
Proof.
  intros Hk. unfold open_stream, breaker_check. destruct (check_and_arm _ _ _) as [perm b].
  assert (∀ w, breaker_slot key {| breakers := <[tool := b]> (breakers st); groups_dropped_warned := w |}
    = breaker_slot key st) as Hs by (intros; by rewrite breaker_slot_other).
  destruct (allowed perm); [|by cbn; rewrite Hs]. destruct (map u !! tool); [|by cbn; rewrite Hs].
  destruct (bearer _ _ _ _); [|by cbn; rewrite Hs]. cbv zeta. cbn [breakers groups_dropped_warned].
  destruct (net _) as [|e|s text []]; cbn [snd]; try (rewrite breaker_update_other by done; apply Hs).
  all: destruct (is_success_status s); [try destruct json|]; cbn [snd];
    try (rewrite breaker_update_other by done); apply Hs.
Qed.

Lemma upstream_mcp_other key env u uri p call st :
  breaker_key u (OpReadResource uri {| channel := []; surface := None |}) ≠ Some key →
  breaker_slot key (upstream_mcp env u uri p call st).2 = breaker_slot key st.
Proof.
  unfold upstream_mcp, breaker_key. destruct (parse_ui_authority uri) as [authority|]; [|done].
  destruct (map u !! authority); [|done]. intros Hk. apply guarded_other. congruence.
Qed.

Lemma arrive_other key u x st :
  breaker_key u (ar_op x) ≠ Some key → breaker_slot key (arrive u x st).2 = breaker_slot key st.
Proof.
  intros Hk. unfold arrive. destruct (ar_op x) as [tool args ctx|net tool args ctx resume|uri ctx|uri record ctx]; cbn [snd].
  - apply guarded_other. cbn in Hk. congruence.
  - pose proof (open_stream_other key (ar_env x) net u tool args (ar_principal x) ctx resume st) as Ho.
    destruct (open_stream _ _ _ _ _ _ _ _ _) as [[r req] st']. apply Ho. cbn in Hk. congruence.
  - by apply upstream_mcp_other.
  - by apply upstream_mcp_other.
Qed.

Lemma guarded_refused env u key p call st :
  refuses u (at_check env) (breaker_slot key st) →
  (guarded env u key p call st).1 = (Err (circuit_open_error u key), None)
  ∧ breaker_slot key (guarded env u key p call st).2 = breaker_slot key st.
Proof. intros Hr. pose proof (guarded_eq env u key p call st) as G. by rewrite Hr in G. Qed.

Lemma arrive_refused key u x st :
  breaker_key u (ar_op x) = Some key → refuses u (at_check (ar_env x)) (breaker_slot key st) →
  (arrive u x st).1 = (Some (circuit_open_error u key), None)
  ∧ breaker_slot key (arrive u x st).2 = breaker_slot key st.
Proof.
  intros Hk Hr.
  assert (∀ call, let c := guarded (ar_env x) u key (ar_principal x) call st in
    (error_of c.1.1, c.1.2) = (Some (circuit_open_error u key), None) ∧ breaker_slot key c.2 = breaker_slot key st) as Hg.
  { intros call c. subst c. by destruct (guarded_refused (ar_env x) u key (ar_principal x) call st Hr) as [-> ->]. }
  assert (∀ uri call, breaker_key u (OpReadResource uri {| channel := []; surface := None |}) = Some key →
    let c := upstream_mcp (ar_env x) u uri (ar_principal x) call st in
    (error_of c.1.1, c.1.2) = (Some (circuit_open_error u key), None) ∧ breaker_slot key c.2 = breaker_slot key st) as Hm.
  { intros uri call Hkey c. subst c. revert Hkey. unfold breaker_key, upstream_mcp.
    destruct (parse_ui_authority uri) as [authority|]; [|done]. destruct (map u !! authority); [|done].
    intros [= ->]. apply Hg. }
  unfold arrive. destruct (ar_op x) as [tool args ctx|net tool args ctx resume|uri ctx|uri record ctx].
  - injection Hk as ->. apply Hg.
  - injection Hk as ->. unfold open_stream, breaker_check. rewrite Hr. cbn.
    split; [done|]. apply breaker_slot_insert.
  - by apply Hm.
  - by apply Hm.
Qed.

Lemma arrive_all_refused key u b l st :
  breaker_slot key st = b →
  Forall (λ x, breaker_key u (ar_op x) = Some key → refuses u (at_check (ar_env x)) b) l →
  let '(answers, st') := arrive_all u l st in
  Forall2 (λ x c, breaker_key u (ar_op x) = Some key → c = (Some (circuit_open_error u key), None)) l answers
  ∧ breaker_slot key st' = b.
Proof.
  revert st. induction l as [|x l IH]; intros st Hb Hl; [by split|].
  apply Forall_cons in Hl as [Hx Hl]. cbn [arrive_all].
  assert (breaker_slot key (arrive u x st).2 = b
    ∧ (breaker_key u (ar_op x) = Some key → (arrive u x st).1 = (Some (circuit_open_error u key), None))) as [H2 H1].
  { destruct (decide (breaker_key u (ar_op x) = Some key)) as [E|E].
    - rewrite <-Hb in Hx. destruct (arrive_refused key u x st E (Hx E)) as [Ha Hs]. by rewrite Hs.
    - split; [by rewrite arrive_other|done]. }
  destruct (arrive u x st) as [c st1]. cbn [fst snd] in *. specialize (IH st1 H2 Hl).
  destruct (arrive_all u l st1) as [cs st2]. destruct IH as [IH1 IH2]. split; [by constructor|done].
Qed.
End BreakerFacts.

(** C4: a sick upstream is cut off.  After [circuit_open_after] consecutive
    buffered calls of a tool that ended in tool-side faults its breaker is open,
    with the time of the last of them.  Whatever is then asked of the router, in
    any order and of any tool, every call that goes through that breaker before
    the cooldown has elapsed since then (a buffered call, a stream opened or
    resumed, a resource read, a model context updated) is answered with a 503
    [circuit_open] error, without any request being sent; and the breaker is
    still open, with the same time, after all of them.  (The end of a stream that
    was open before the faults is not a call, and does settle the breaker.) *)
Theorem breaker_opens_after_consecutive_faults jwt u tool l st a next :
  breaker_slot tool st = Breaker_new → last l = Some a →
  Z.of_nat (length l) = circuit_open_after u → (circuit_open_after u ≤ u32_max)%Z →
  Forall (λ a, is_tool_fault (attempt_call jwt u tool a).1 = true) l →
  Forall (λ x, breaker_key u (ar_op x) = Some tool →
            elapsed (at_check (ar_env x)) (at_observe (a_env a)) < circuit_cooldown u)%Z next →
  let '(answers, st') := arrive_all jwt u next (invoke_all jwt u tool l st).2 in
  Forall2 (λ x c, breaker_key u (ar_op x) = Some tool → c = (Some (circuit_open_error u tool), None))
    next answers
  ∧ http_status (circuit_open_error u tool) = 503%Z
  ∧ breaker_slot tool st' = {| state := Open; failures := circuit_open_after u;
                               opened_at := Some (at_observe (a_env a)) |}.
Proof.
  intros Hnew Hlast Hn Hmax Hall Hcool.
  destruct (faults_trip jwt u tool l st) as (a' & Ha' & E); rewrite ?Hnew;
    [cbn; lia|done|done|cbn; lia|done|by intros ->|]. simplify_eq.
  pose proof (arrive_all_refused jwt tool u _ next _ E) as H.
  destruct (arrive_all _ _ _ _) as [answers st'].
  destruct H as [H1 H2]; [|split; [done|split; [apply (http_status_circuit_open (§": " ++ tool ++ _))|done]]].
  eapply Forall_impl; [exact Hcool|]. intros x Hx Hk. by apply open_breaker_refuses, Hx.
Qed.

(** The outcome of a half-open probe.  When the cooldown has elapsed the
    next call goes through as it is; a success closes the breaker and a
    tool-side fault reopens it with a fresh cooldown. *)
Theorem half_open_probe_settles jwt env u tool args p ctx st t :
  state (breaker_slot tool st) = Open → opened_at (breaker_slot tool st) = Some t →
  (circuit_cooldown u ≤ elapsed (at_check env) t)%Z →
  let call := do_dispatch jwt env u tool args p ctx in
  let '(r, st') := upstream_invoke jwt env u tool args p ctx st in
  r = call
  ∧ (is_ok call.1 = true → breaker_slot tool st' = Breaker_new)
  ∧ (is_tool_fault call.1 = true →
     state (breaker_slot tool st') = Open
     ∧ opened_at (breaker_slot tool st') = Some (at_observe env)).
Proof.
  intros Ho Ht Hc call. unfold upstream_invoke. subst call.
  set (call := do_dispatch jwt env u tool args p ctx).
  pose proof (guarded_eq env u tool p call st) as G.
  unfold check_and_arm in G. rewrite Ho, Ht, (proj2 (Z.leb_le _ _) Hc) in G.
  destruct G as [G1 G2]. destruct (guarded _ _ _ _ _ _) as [r st']; cbn [fst snd allowed] in *.
  split; [done|]. rewrite G2. unfold settled. cbn [was_half_open]. split; intros Hk.
  - rewrite Hk. done.
  - assert (is_ok call.1 = false) as -> by (destruct call as [[|[]] ?]; done).
    rewrite Hk. done.
Qed.

(** A half-open probe that ends in a caller-side fault (the caller's
    identity cannot be signed into a token, say) never settles the breaker:
    the tool stays half-open and every later call, whoever makes it and
    however healthy the agent is, is refused as [circuit_open]. *)
Theorem caller_fault_wedges_half_open_breaker jwt env u tool args p ctx st t l :
  state (breaker_slot tool st) = Open → opened_at (breaker_slot tool st) = Some t →
  (circuit_cooldown u ≤ elapsed (at_check env) t)%Z →
  is_ok (do_dispatch jwt env u tool args p ctx).1 = false →
  is_tool_fault (do_dispatch jwt env u tool args p ctx).1 = false →
  let st' := (upstream_invoke jwt env u tool args p ctx st).2 in
  Forall (λ c, c = (Err (circuit_open_error u tool), None)) (invoke_all jwt u tool l st').1.
Proof.
  intros Ho Ht Hc Hk Hf st'. apply half_open_refuses. subst st'. unfold upstream_invoke.
  set (call := do_dispatch jwt env u tool args p ctx) in *.
  pose proof (guarded_eq env u tool p call st) as G.
  unfold check_and_arm in G. rewrite Ho, Ht, (proj2 (Z.leb_le _ _) Hc) in G.
  destruct G as [_ ->]. unfold settled. by rewrite Hk, Hf.
Qed.

(** ** Witnesses: one agent, a network that is down or up *)

Definition demo_router (s : option JwtSigner) : StaticUpstream :=
  {| map := {[ §"greet" := §"agent:1" ]}; token := §"static"; signer := s;
     audience := §"aud"; up_tenant := §"acme"; forward_principal := true;
     forward_scope_allowlist := None; forward_group_allowlist := None;
     circuit_open_after := 2; circuit_cooldown := 1000; use_surface_hint := false |}.

Definition demo_signer : JwtSigner := {| kid := §"k1"; signer_issuer := §"triton" |}.

(** A concrete [jwt_encode]: the key id stands for the token. *)
Definition demo_jwt (kid : str) (v : Value) : result str str := Ok (§"jwt:" ++ kid).

Definition demo_env (now : Z) (o : HttpOutcome) : Env :=
  {| at_check := now; at_observe := now; unix_now := Some 1000%Z; http _ := o |}.

Definition demo_principal (s : str) : Principal :=
  {| sub := s; scopes := [§"read"; §"a b"]; groups := []; tenant := §"t1"; raw_token := [];
     trace_id := []; sender_ref := None; conversation_ref := None; idp := None |}.

Definition demo_ctx : DispatchContext := {| channel := §"mcp"; surface := None |}.

Definition demo_attempt (now : Z) (o : HttpOutcome) : Attempt :=
  {| a_env := demo_env now o; a_args := Value.Null; a_principal := demo_principal §"u";
     a_ctx := demo_ctx |}.

Definition fresh_state : UpstreamState := {| breakers := ∅; groups_dropped_warned := false |}.

Definition tripped_state : UpstreamState :=
  {| breakers := {[ §"greet" := {| state := Open; failures := 2; opened_at := Some 20%Z |} ]};
     groups_dropped_warned := false |}.

Definition healthy : HttpOutcome := Response 200 §"200 OK" (Ok Value.Null).

Definition demo_arrival (now : Z) (op : Operation) : Arrival :=
  {| ar_env := demo_env now healthy; ar_principal := demo_principal §"u"; ar_op := op |}.

Lemma breaker_opens_after_consecutive_faults_witness :
  let l := [demo_attempt 10 SendTimeout; demo_attempt 20 SendTimeout] in
  let next := [demo_arrival 500 (OpInvoke §"greet" Value.Null demo_ctx);
               demo_arrival 600 (OpOpenStream (λ _, StreamSendTimeout) §"greet" Value.Null demo_ctx None)] in
  (arrive_all demo_jwt (demo_router None) next
     (invoke_all demo_jwt (demo_router None) §"greet" l fresh_state).2).1
  = [(Some (circuit_open_error (demo_router None) §"greet"), None);
     (Some (circuit_open_error (demo_router None) §"greet"), None)].
Proof.
  intros l next.
  pose proof (breaker_opens_after_consecutive_faults demo_jwt (demo_router None) §"greet" l
    fresh_state (demo_attempt 20 SendTimeout) next
    eq_refl eq_refl eq_refl ltac:(done)
    ltac:(repeat constructor) ltac:(repeat constructor)) as H.
  destruct (arrive_all _ _ _ _) as [answers st']. destruct H as (H & _).
  apply Forall2_cons_inv_l in H as (c1 & cs & H1 & H & ->).
  apply Forall2_cons_inv_l in H as (c2 & cs' & H2 & H & ->).
  apply Forall2_nil_inv_l in H as ->. cbn [fst]. by rewrite H1, H2.
Defined.

Lemma half_open_probe_settles_witness :
  let '(r, st') := upstream_invoke demo_jwt (demo_env 2000 healthy) (demo_router None)
                     §"greet" Value.Null (demo_principal §"u") demo_ctx tripped_state in
  is_ok r.1 = true ∧ breaker_slot §"greet" st' = Breaker_new.
Proof.
  pose proof (half_open_probe_settles demo_jwt (demo_env 2000 healthy) (demo_router None)
    §"greet" Value.Null (demo_principal §"u") demo_ctx tripped_state 20
    eq_refl eq_refl ltac:(done)) as H.
  destruct (upstream_invoke _ _ _ _ _ _ _ _) as [r st'].
  destruct H as (-> & H & _). split; [vm_compute; reflexivity|].
  apply H. vm_compute. reflexivity.
Defined.

Lemma caller_fault_wedges_half_open_breaker_witness :
  let u := demo_router (Some demo_signer) in
  let st' := (upstream_invoke demo_jwt (demo_env 2000 healthy) u §"greet" Value.Null
                (demo_principal §"no spaces") demo_ctx tripped_state).2 in
  Forall (λ c, c = (Err (circuit_open_error u §"greet"), None))
    (invoke_all demo_jwt u §"greet"
       [demo_attempt 10000 healthy; demo_attempt 99999999 healthy] st').1.
Proof.
  exact (caller_fault_wedges_half_open_breaker demo_jwt (demo_env 2000 healthy)
    (demo_router (Some demo_signer)) §"greet" Value.Null (demo_principal §"no spaces") demo_ctx
    tripped_state 20 [demo_attempt 10000 healthy; demo_attempt 99999999 healthy]
    eq_refl eq_refl ltac:(done) eq_refl eq_refl).
Defined.

(** ** The minted token *)

Lemma get_insert_if c k k' v m :
  Map.get k' (insert_if c k v m)
  = if c && bool_decide (k = k') then Some v else Map.get k' m.
Proof.
  unfold insert_if. destruct c; simpl; [|done].
  case_bool_decide; subst; [apply Map.get_insert_eq|by apply Map.get_insert_ne].
Qed.

Lemma fold_extra_reserved k extra claims :
  k ∈ RESERVED_CLAIMS →
  Map.get k (fold_left (λ m '(k, v), insert_if (bool_decide (k ∉ RESERVED_CLAIMS)) k v m)
               extra claims) = Map.get k claims.
Proof.
  intros Hk. revert claims. induction extra as [|[k' v] extra IH]; intros claims; [done|].
  cbn [fold_left]. rewrite IH, get_insert_if.
  destruct (decide (k' = k)) as [->|Hne].
  - by rewrite (bool_decide_eq_false_2 (k ∉ RESERVED_CLAIMS)) by tauto.
  - by rewrite (bool_decide_eq_false_2 (k' = k)), andb_false_r by done.
Qed.

(** The value of each reserved claim, whatever the extra claims are. *)
Definition expected_claim (s : JwtSigner) (now : Z) (audiences : list str)
    (subject tenant : str) (scopes groups : list str) (ttl : Z) (k : str) : option Value :=
  if decide (k = §"iss") then Some (Value.String (signer_issuer s))
  else if decide (k = §"aud") then Some (strings audiences)
  else if decide (k = §"sub") then Some (Value.String subject)
  else if decide (k = §"iat") then Some (number now)
  else if decide (k = §"exp") then Some (number (now + Z.min ttl 300))
  else if decide (k = §"tenant" ∧ tenant ≠ []) then Some (Value.String tenant)
  else if decide (k = §"triton_sender_scopes" ∧ scopes ≠ []) then Some (strings scopes)
  else if decide (k = §"triton_sender_groups" ∧ groups ≠ []) then Some (strings groups)
  else None.

Ltac solve_claim :=
  repeat (rewrite Map.get_insert_ne by done);
  first [ apply Map.get_insert_eq | reflexivity ].

Lemma signed_claims_reserved s now auds subj ten scs grs extra ttl k :
  k ∈ RESERVED_CLAIMS →
  Map.get k (signed_claims s now auds subj ten scs grs extra ttl)
  = expected_claim s now auds subj ten scs grs ttl k.
Proof.
  intros Hk. unfold signed_claims. rewrite fold_extra_reserved by done.
  rewrite !get_insert_if. unfold RESERVED_CLAIMS in Hk.
  assert (∀ A (l : list A), negb (is_empty l) = bool_decide (l ≠ [])) as Hne
    by (intros A []; reflexivity).
  rewrite !Hne. clear Hne. unfold expected_claim.
  repeat (apply elem_of_cons in Hk as [->|Hk]); [..|set_solver];
    destruct ten, scs, grs; solve_claim.
Qed.

(** Claims an identity provider contributes cannot override the claims
    Triton signs.  For every reserved claim name the minted token holds exactly
    the value derived from the signer and the caller, whatever the extra claims
    are; in particular it expires at most 300 seconds after it is issued. *)
Theorem reserved_claims_not_overridable s now auds subj ten scs grs extra ttl k :
  k ∈ RESERVED_CLAIMS →
  Map.get k (signed_claims s now auds subj ten scs grs extra ttl)
  = expected_claim s now auds subj ten scs grs ttl k
  ∧ ∃ e, Map.get §"exp" (signed_claims s now auds subj ten scs grs extra ttl)
         = Some (number e) ∧ (e ≤ now + 300)%Z.
Proof.
  intros Hk. split; [by apply signed_claims_reserved|].
  exists (now + Z.min ttl 300)%Z. split; [|lia].
  rewrite signed_claims_reserved; [reflexivity|]. unfold RESERVED_CLAIMS. set_solver.
Qed.

Lemma reserved_claims_not_overridable_witness :
  Map.get §"tenant" (signed_claims demo_signer 7 [§"aud"] §"alice" §"t1" [] []
                      [(§"tenant", Value.String §"evil"); (§"email", Value.Null)] 9999)
  = Some (Value.String §"t1").
Proof.
  destruct (reserved_claims_not_overridable demo_signer 7 [§"aud"] §"alice" §"t1" [] []
    [(§"tenant", Value.String §"evil"); (§"email", Value.Null)] 9999 §"tenant") as [H _].
  { apply (bool_decide_unpack _). vm_compute. exact I. }
  exact H.
Defined.

Lemma validate_signed_field_ok f v max :
  validate_signed_field f v max = Ok () →
  length v ≤ max ∧ has_whitespace v = false ∧ has_control v = false.
Proof. unfold validate_signed_field. intros H. repeat case_if; bool_facts; done || auto. Qed.

Lemma sanitise_scopes_sound scs allow s :
  s ∈ sanitise_scopes scs allow →
  s ∈ scs ∧ scope_ok s = true ∧ allowlisted allow s = true.
Proof.
  unfold sanitise_scopes. intros H.
  apply elem_of_take in H as (i & H & _).
  apply list_elem_of_lookup_2 in H. rewrite !list_elem_of_filter in H. tauto.
Qed.

Lemma sanitise_scopes_length scs allow : length (sanitise_scopes scs allow) ≤ 32.
Proof. unfold sanitise_scopes, MAX_SCOPES. rewrite length_take. lia. Qed.

Lemma expected_scopes s now auds subj ten scs grs ttl :
  expected_claim s now auds subj ten scs grs ttl §"triton_sender_scopes"
  = if is_empty scs then None else Some (strings scs).
Proof. by destruct ten, scs. Qed.

(** A value that may be signed into a token: bounded, on one line. *)
Definition signable (v : str) : Prop :=
  length v ≤ 128 ∧ has_whitespace v = false ∧ has_control v = false.

(** The tenant a caller's token names. *)
Definition token_tenant (u : StaticUpstream) (p : Principal) : option Value :=
  let t := if is_empty (tenant p) then up_tenant u else tenant p in
  if is_empty t then None else Some (Value.String t).

Lemma bearer_tenant_ok u p t :
  bearer_tenant u p = Ok t →
  t = (if is_empty (tenant p) then up_tenant u else tenant p) ∧ signable (tenant p).
Proof.
  unfold bearer_tenant. destruct (tenant p) as [|c r] eqn:E; cbn [is_empty].
  { intros; simplify_eq. split; [done|]. repeat split. cbn. lia. }
  destruct (validate_signed_field _ _ _) as [[]|] eqn:V; cbn [result_bind]; [|done].
  intros; simplify_eq. split; [done|]. by apply validate_signed_field_ok in V.
Qed.

Lemma strings_inj l l' : strings l = strings l' → l = l'.
Proof.
  unfold strings. intros H. injection H as H. revert l' H.
  induction l as [|a l IH]; intros [|b l'] H; simplify_eq/=; [done|].
  f_equal; auto.
Qed.

(** With a signer, every bearer is a token bound to the caller.  It names
    the caller's own subject and tenant (the deployment's when the caller has
    none), both short enough and free of whitespace and control characters,
    lives 300 seconds, and forwards only scopes the caller holds, at most 32 of
    them, each well-formed and on the allowlist, and none unless forwarding is
    on. *)
Theorem bearer_binds_caller jwt env u p s tok :
  signer u = Some s → bearer jwt env u p = Ok tok →
  ∃ now claims,
    unix_now env = Some now ∧ jwt (kid s) (Value.Object claims) = Ok tok
    ∧ Map.get §"sub" claims = Some (Value.String (sub p)) ∧ signable (sub p)
    ∧ Map.get §"tenant" claims = token_tenant u p ∧ signable (tenant p)
    ∧ Map.get §"exp" claims = Some (number (now + 300))
    ∧ ∀ scs, Map.get §"triton_sender_scopes" claims = Some (strings scs) →
        forward_principal u = true ∧ length scs ≤ 32
        ∧ Forall (λ x, x ∈ scopes p ∧ scope_ok x = true
                       ∧ allowlisted (forward_scope_allowlist u) x = true) scs.
Proof.
  intros Hs. unfold bearer. rewrite Hs.
  destruct (bearer_tenant u p) as [t|] eqn:Ht; cbn [result_bind]; [|done].
  apply bearer_tenant_ok in Ht as [-> Htok].
  destruct (validate_signed_field _ _ _) as [[]|] eqn:V; cbn [result_bind]; [|done].
  apply validate_signed_field_ok in V.
  set (ex := match idp p with Some _ => _ | None => _ end).
  destruct ex as [extra|]; cbn [result_bind]; [|done].
  unfold sign_with_claims. destruct (unix_now env) as [now|]; [|done].
  set (scs := if forward_principal u then _ else _).
  set (grs := if forward_principal u then _ else _).
  set (auds := filter _ _). set (ten := if is_empty (tenant p) then _ else _).
  destruct (jwt _ _) as [tok'|] eqn:Hj; [|done]. intros [= ->].
  exists now. eexists. split; [done|]. split; [exact Hj|].
  rewrite !signed_claims_reserved by (apply (bool_decide_unpack _); vm_compute; exact I).
  split; [done|]. split; [done|].
  split; [by unfold token_tenant; fold ten; destruct ten|]. do 2 (split; [done|]).
  intros l Hl. rewrite expected_scopes in Hl.
  destruct (is_empty scs) eqn:E; [done|].
  assert (scs = l) as <- by (apply strings_inj; congruence). subst scs. destruct (forward_principal u); [|done]. split; [done|].
  split; [apply sanitise_scopes_length|].
  apply Forall_forall. intros x Hx. by apply sanitise_scopes_sound.
Qed.

Lemma bearer_binds_caller_witness :
  ∃ claims, Map.get §"tenant" claims = Some (Value.String §"t1")
            ∧ demo_jwt §"k1" (Value.Object claims) = Ok §"jwt:k1".
Proof.
  destruct (bearer_binds_caller demo_jwt (demo_env 0 healthy) (demo_router (Some demo_signer))
    (demo_principal §"alice") demo_signer §"jwt:k1" eq_refl eq_refl)
    as (now & claims & _ & Hj & _ & _ & Ht & _).
  exists claims. split; [exact Ht|exact Hj].
Defined.

(** ** What leaves the process *)

(** A request goes to an endpoint of the operator's map, under a bearer minted
    for this caller. *)
Definition sound_request (jwt : str → Value → result str str) (env : Env)
    (u : StaticUpstream) (p : Principal) (key : str) (req : Request) : Prop :=
  map u !! key = Some (endpoint req) ∧ bearer jwt env u p = Ok (bearer_auth req).

Lemma guarded_request env u key p call st req :
  (guarded env u key p call st).1.2 = Some req → call.2 = Some req.
Proof.
  pose proof (guarded_eq env u key p call st) as G.
  destruct (check_and_arm _ _ _) as [perm b]. destruct G as [-> _].
  by destruct (allowed perm).
Qed.

Lemma do_mcp_request jwt env u m a b p ctx req :
  (do_mcp jwt env u m a b p ctx).2 = Some req → sound_request jwt env u p a req.
Proof.
  unfold do_mcp, sound_request. destruct (map u !! a) as [ep|]; [|done].
  destruct (bearer jwt env u p) as [t|e]; [|done]. cbn. by intros [= <-].
Qed.

Lemma upstream_mcp_request jwt env u uri p (call : str → Call) st req :
  (∀ a, (call a).2 = Some req → sound_request jwt env u p a req) →
  (upstream_mcp env u uri p call st).1.2 = Some req →
  ∃ a, parse_ui_authority uri = Ok a ∧ sound_request jwt env u p a req.
Proof.
  intros Hc. unfold upstream_mcp. destruct (parse_ui_authority uri) as [a|]; [|done].
  destruct (map u !! a); [|done]. intros H%guarded_request. eauto.
Qed.

(** No entry point of the router sends anything anywhere else.  A request
    sent for a tool call, an MCP-Apps read or relay, or a stream goes to the
    endpoint the operator mapped for that name and carries a bearer minted for
    this caller; where no bearer can be minted nothing is sent. *)
Theorem requests_mapped_and_authenticated jwt env net u p ctx st req :
  (∀ tool args, (upstream_invoke jwt env u tool args p ctx st).1.2 = Some req →
     sound_request jwt env u p tool req)
  ∧ (∀ uri, (upstream_read_resource jwt env u uri p ctx st).1.2 = Some req →
       ∃ a, parse_ui_authority uri = Ok a ∧ sound_request jwt env u p a req)
  ∧ (∀ uri r, (upstream_update_model_context jwt env u uri r p ctx st).1.2 = Some req →
       ∃ a, parse_ui_authority uri = Ok a ∧ sound_request jwt env u p a req)
  ∧ (∀ tool args resume,
       (open_stream jwt env net u tool args p ctx resume st).1.2 = Some req →
       sound_request jwt env u p tool req).
Proof.
  split; [|split; [|split]].
  - intros tool args H%guarded_request. unfold do_dispatch, sound_request in *.
    destruct (map u !! tool) as [ep|]; [|done].
    destruct (bearer jwt env u p) as [t|e]; [|done]. by simplify_eq/=.
  - intros uri. apply upstream_mcp_request. intros a. apply do_mcp_request.
  - intros uri r. apply upstream_mcp_request. intros a. apply do_mcp_request.
  - intros tool args resume. unfold open_stream, sound_request.
    destruct (breaker_check _ _ _ _) as [perm st1]. destruct (allowed perm); [|done].
    destruct (map u !! tool) as [ep|]; [|done].
    destruct (bearer jwt env u p) as [t|e]; [|done]. intros H.
    repeat (case_match; simplify_eq/=); done.
Qed.

Lemma requests_mapped_and_authenticated_witness :
  let req := {| endpoint := §"agent:1"; bearer_auth := §"jwt:k1"; route := ToolCall §"greet";
                channel_header := §"mcp"; task_header := None; accept_sse := false;
                body := Value.Null |} in
  sound_request demo_jwt (demo_env 0 healthy) (demo_router (Some demo_signer))
    (demo_principal §"u") §"greet" req.
Proof.
  intros req.
  exact (proj1 (requests_mapped_and_authenticated demo_jwt (demo_env 0 healthy)
    (λ _, StreamSendTimeout) (demo_router (Some demo_signer)) (demo_principal §"u") demo_ctx
    fresh_state req) §"greet" Value.Null eq_refl).
Defined.

Lemma open_stream_probe jwt env net u tool args p ctx resume st t now term :
  state (breaker_slot tool st) = Open → opened_at (breaker_slot tool st) = Some t →
  (circuit_cooldown u ≤ elapsed (at_check env) t)%Z →
  let '(r, req, st') := open_stream jwt env net u tool args p ctx resume st in
  is_Some req →
  match r with
  | Ok (Streaming probe) =>
      probe = true
      ∧ state (stream_finalizer now u probe term (breaker_slot tool st'))
        = (match term with Completed => Closed | _ => Open end)
  | Ok (Buffered _) => breaker_slot tool st' = Breaker_new
  | Err _ => state (breaker_slot tool st') = Open
             ∧ opened_at (breaker_slot tool st') = Some (at_observe env)
  end.
Proof.
  intros Ho Ht Hc. unfold open_stream, breaker_check, check_and_arm.
  rewrite Ho, Ht, (proj2 (Z.leb_le _ _) Hc). cbn [allowed was_half_open].
  destruct (map u !! tool) as [ep|]; [|by intros [??]].
  destruct (bearer jwt env u p) as [tok|e]; [|by intros [??]].
  unfold breaker_update. cbn [breakers groups_dropped_warned]. rewrite lookup_insert_eq.
  destruct (net _) as [|e|s text sb];
    [| |destruct (is_success_status s); [destruct sb as [[v|e]| |]|]];
    intros _; unfold breaker_slot; cbn [breakers]; rewrite ?lookup_insert_eq; try done.
  by destruct term.
Qed.

(** A streaming probe always settles the breaker once the request is out.
    When the cooldown of an open breaker has elapsed and a request is sent,
    either the outcome is already known and the breaker is closed or reopened,
    or a stream is open whose end, however it comes about (completion, failure,
    truncation or the client's disconnect), leaves the breaker closed or
    reopened, never half-open. *)
Theorem stream_probe_settles jwt env net u tool args p ctx resume st t now term :
  state (breaker_slot tool st) = Open → opened_at (breaker_slot tool st) = Some t →
  (circuit_cooldown u ≤ elapsed (at_check env) t)%Z →
  let '(r, req, st') := open_stream jwt env net u tool args p ctx resume st in
  is_Some req →
  match r with
  | Ok (Streaming probe) =>
      probe = true
      ∧ state (stream_finalizer now u probe term (breaker_slot tool st'))
        = (match term with Completed => Closed | _ => Open end)
  | Ok (Buffered _) => breaker_slot tool st' = Breaker_new
  | Err _ => state (breaker_slot tool st') = Open
             ∧ opened_at (breaker_slot tool st') = Some (at_observe env)
  end.
Proof. apply open_stream_probe. Qed.

Lemma stream_probe_settles_witness :
  let '(r, req, st') :=
    open_stream demo_jwt (demo_env 2000 healthy)
      (λ _, StreamResponse 200 §"200 OK" EventStream) (demo_router None) §"greet" Value.Null
      (demo_principal §"u") demo_ctx None tripped_state in
  r = Ok (Streaming true)
  ∧ state (stream_finalizer 3000 (demo_router None) true Disconnected
             (breaker_slot §"greet" st')) = Open.
Proof.
  pose proof (stream_probe_settles demo_jwt (demo_env 2000 healthy)
    (λ _, StreamResponse 200 §"200 OK" EventStream) (demo_router None) §"greet" Value.Null
    (demo_principal §"u") demo_ctx None tripped_state 20 3000 Disconnected
    eq_refl eq_refl ltac:(done)) as H.
  split; [vm_compute; reflexivity|].
  exact (proj2 (H (ltac:(eexists; reflexivity)))).
Defined.
