(* ===== verification/AuditLog.v ===== *)
(** * AuditLog: the audit record, its ring buffer and the metrics registry
    (crates/triton-core/src/audit.rs and metrics.rs)

    An [AuditRecord] borrows the fields an [AuditEntry] owns, so one record
    type serves both; [entry_of_record] is the conversion that clamps the
    caller-influenced fields.  Emitting appends one line to standard output
    and pushes the same entry into the bounded buffer. *)

From S2P Require Import Prelude.

Inductive AuditPhase := Dispatch | Rejected | Upstream | Post.

#[export] Instance AuditPhase_eq_dec : EqDecision AuditPhase.
Proof. solve_decision. Defined.

Inductive PostOutcome := Posted | Retry | Dropped.

Definition post_outcome_as_str (o : PostOutcome) : str :=
  match o with Posted => §"posted" | Retry => §"retry" | Dropped => §"dropped" end.

Record AuditRecord := {
  kind : str;
  phase : AuditPhase;
  when : str;
  who : str;
  what : str;
  env : str;
  au_result : str;
  protocol : str;
  tool : str;
  subject : str;
  au_tenant : str;
  latency_ms : Z;
  status : Z;
  status_label : option str;
  status_detail : option str;
  error_detail : option str;
  ttfb_ms : option Z;
  au_sender_ref : option str;
  destination : option str;
  au_suppressed : option Z;
  au_trace_id : str;
}.
Abbreviation AuditEntry := AuditRecord (only parsing).

Definition MAX_AUDITED_FIELD_LEN : nat := 128.

(** The ellipsis U+2026 is the three bytes E2 80 A6. *)
Definition ellipsis : str := ascii_of_N <$> [0xE2; 0x80; 0xA6]%N.

Definition clamp_audited (value : str) : str :=
  if (length value <=? MAX_AUDITED_FIELD_LEN)%nat then value
  else take (floor_char_boundary value MAX_AUDITED_FIELD_LEN) value
         ++ ellipsis ++ §"[" ++ dec (Z.of_nat (length value)) ++ §" bytes]".

(** [impl From<&AuditRecord> for AuditEntry]. *)
Definition entry_of_record (r : AuditRecord) : AuditEntry :=
  {| kind := kind r; phase := phase r; when := when r;
     who := clamp_audited (who r); what := what r; env := env r;
     au_result := au_result r; protocol := protocol r; tool := tool r;
     subject := clamp_audited (subject r); au_tenant := clamp_audited (au_tenant r);
     latency_ms := latency_ms r; status := status r; status_label := status_label r;
     status_detail := status_detail r;
     error_detail := clamp_audited <$> error_detail r; ttfb_ms := ttfb_ms r;
     au_sender_ref := clamp_audited <$> au_sender_ref r;
     destination := clamp_audited <$> destination r;
     au_suppressed := au_suppressed r; au_trace_id := au_trace_id r |}.

Definition AUDIT_BUFFER_CAPACITY : nat := 1024.

(** The buffer, oldest first. *)
Definition push_entry (e : AuditEntry) (q : list AuditEntry) : list AuditEntry :=
  (if (length q =? AUDIT_BUFFER_CAPACITY)%nat then tail q else q) ++ [e].

Definition recent_where (limit : nat) (trace : option str) (visible : AuditEntry → bool)
    (q : list AuditEntry) : list AuditEntry :=
  let it := rev q in
  let filtered := match trace with
                  | Some t => filter (λ e, au_trace_id e = t) it
                  | None => it
                  end in
  take limit (filter (λ e, visible e = true) filtered).

Definition recent (limit : nat) (trace : option str) (q : list AuditEntry) : list AuditEntry :=
  recent_where limit trace (λ _, true) q.

(** Both sinks of the emitter: the lines written to standard output, oldest
    first, and the buffer. *)
Record AuditSinks := {
  stdout : list AuditEntry;
  buffer : list AuditEntry;
}.

Definition no_lines : AuditSinks := {| stdout := []; buffer := [] |}.

Definition emit (r : AuditRecord) (s : AuditSinks) : AuditSinks :=
  let e := entry_of_record r in
  {| stdout := stdout s ++ [e]; buffer := push_entry e (buffer s) |}.

(** ** [Metrics] *)

Definition MAX_DISTINCT_TOOL_LABELS : nat := 256.
Definition OVERFLOW_LABEL : str := §"<overflow>".

Record DispatchKey := { k_tool : str; k_protocol : str; k_result : str }.

#[export] Instance DispatchKey_eq_dec : EqDecision DispatchKey.
Proof. solve_decision. Defined.

#[export] Instance DispatchKey_countable : Countable DispatchKey.
Proof.
  refine (inj_countable' (λ k, (k_tool k, k_protocol k, k_result k))
            (λ '(t, p, r), {| k_tool := t; k_protocol := p; k_result := r |}) _).
  by intros [].
Defined.

Record Metrics := {
  dispatch_total : gmap DispatchKey Z;
  audit_total : gmap str Z;
}.

Definition Metrics_new : Metrics := {| dispatch_total := ∅; audit_total := ∅ |}.

(** [*map.entry(k).or_insert(0) += 1] *)
Definition bump `{Countable K} (k : K) (m : gmap K Z) : gmap K Z :=
  <[k := u64_wrap (default 0%Z (m !! k) + 1)]> m.

Definition distinct_tools (m : gmap DispatchKey Z) : gset str :=
  list_to_set (k_tool <$> (map_to_list m).*1).

Definition tool_label (tool : str) (m : gmap DispatchKey Z) : str :=
  if (MAX_DISTINCT_TOOL_LABELS <=? size (distinct_tools m))%nat
     && bool_decide (tool ∉ distinct_tools m)
  then OVERFLOW_LABEL else tool.

Definition record_dispatch (tool protocol result : str) (m : Metrics) : Metrics :=
  {| dispatch_total :=
       bump {| k_tool := tool_label tool (dispatch_total m); k_protocol := protocol;
               k_result := result |} (dispatch_total m);
     audit_total := audit_total m |}.

Definition record_audit (phase : str) (m : Metrics) : Metrics :=
  {| dispatch_total := dispatch_total m; audit_total := bump phase (audit_total m) |}.

(** ** Properties of the emitter *)

(** What a principal-derived field looks like once recorded. *)
Definition bounded_field (v w : str) : Prop :=
  (length v ≤ 128 ∧ w = v)
  ∨ (length v > 128
     ∧ ∃ cut, cut ≤ 128 ∧ 124 < cut ∧ valid_utf8 (take cut v) = true
       ∧ w = take cut v ++ ellipsis ++ §"[" ++ dec (Z.of_nat (length v)) ++ §" bytes]").

(** A character is at most four bytes, so the cut loses at most three. *)
Lemma valid_utf8_boundary_near s n :
  valid_utf8 s = true → n < length s →
  ∃ m, m ≤ n ∧ n < m + 4 ∧ is_char_boundary s m = true.
Proof.
  remember (length s) as l eqn:El. revert s n El.
  induction (lt_wf l) as [l _ IH]. intros s n -> Hv Hn.
  assert (∀ k a r, s = a ++ r → length a = S k → k < 4 → valid_utf8 r = true →
    ∃ m, m ≤ n ∧ n < m + 4 ∧ is_char_boundary s m = true) as Hstep.
  { intros k a r -> Ha Hk Hr. destruct (decide (n < S k)) as [|Hge].
    { exists 0. split; [lia|]. split; [lia|done]. }
    rewrite length_app in Hn.
    destruct (IH (length r) ltac:(rewrite length_app; lia) r (n - S k) eq_refl Hr
      ltac:(lia)) as (m & H1 & H2 & H3).
    exists (S k + m). split; [lia|]. split; [lia|]. revert H3. unfold is_char_boundary.
    replace (S k + m) with (length a + m) by lia. rewrite lookup_app_r by lia.
    replace (length a + m - length a) with m by lia. rewrite length_app, Ha.
    destruct m as [|m]; cbn.
    - intros _. destruct r as [|c r]; [cbn in *; lia|]. cbn.
      cbn [valid_utf8] in Hr. unfold is_continuation.
      destruct (in_range 0x80 0xBF (byte c)) eqn:Ec; [|done]. exfalso. revert Hr.
      unfold in_range in Ec. apply andb_prop in Ec as [E1%N.leb_le E2%N.leb_le].
      rewrite (proj2 (N.ltb_ge _ _)) by lia. destruct r as [|d r]; [done|].
      unfold in_range at 1. rewrite (proj2 (N.leb_gt _ (byte c))) by lia. cbn [andb].
      destruct r as [|e r]; [done|].
      rewrite !(proj2 (N.eqb_neq (byte c) _)) by lia.
      unfold in_range at 1. rewrite (proj2 (N.leb_gt _ (byte c))) by lia. cbn [andb].
      destruct r as [|f r]; [done|].
      unfold in_range at 1. rewrite (proj2 (N.leb_gt _ (byte c))) by lia. done.
    - destruct (r !! S m); [done|]. intros Hm. apply Nat.eqb_eq.
      destruct (length r); [done|]. apply Nat.eqb_eq in Hm. lia. }
  destruct s as [|a r1]; [simpl in Hn; lia|]. cbn [valid_utf8] in Hv.
  destruct (byte a <? 128)%N; [by apply (Hstep 0 [a] r1); [..|lia|]|].
  destruct r1 as [|b r2]; [done|]. destruct (in_range 0xC2 0xDF (byte a)).
  { bool_facts. by apply (Hstep 1 [a; b] r2); [..|lia|]. }
  destruct r2 as [|c r3]; [done|].
  destruct (byte a =? 0xE0)%N; [bool_facts; by apply (Hstep 2 [a; b; c] r3); [..|lia|]|].
  destruct (byte a =? 0xED)%N; [bool_facts; by apply (Hstep 2 [a; b; c] r3); [..|lia|]|].
  destruct (in_range 0xE1 0xEF (byte a)).
  { bool_facts. by apply (Hstep 2 [a; b; c] r3); [..|lia|]. }
  destruct r3 as [|d r4]; [done|]. bool_facts.
  by apply (Hstep 3 [a; b; c; d] r4); [..|lia|].
Qed.

Lemma clamp_audited_bounded v :
  valid_utf8 v = true → bounded_field v (clamp_audited v).
Proof.
  intros Hv. unfold clamp_audited, bounded_field, MAX_AUDITED_FIELD_LEN.
  destruct (length v <=? 128)%nat eqn:E; bool_facts; [by left|right].
  split; [lia|]. exists (floor_char_boundary v 128).
  destruct (valid_utf8_boundary_near v 128 Hv E) as (m & H1 & H2 & H3).
  pose proof (floor_char_boundary_max v 128 m H1 H3).
  split; [auto with rust|]. split; [lia|]. split; [by apply valid_utf8_floor|done].
Qed.

(** The buffer is the tail of what was written. *)
Definition last_n {A} (n : nat) (l : list A) : list A := drop (length l - n) l.

Lemma push_entry_last e l :
  push_entry e (last_n AUDIT_BUFFER_CAPACITY l) = last_n AUDIT_BUFFER_CAPACITY (l ++ [e]).
Proof.
  unfold push_entry, last_n. rewrite length_drop, length_app. cbn [length].
  destruct (decide (AUDIT_BUFFER_CAPACITY ≤ length l)) as [Hle|Hgt].
  - replace (length l - (length l - AUDIT_BUFFER_CAPACITY)) with AUDIT_BUFFER_CAPACITY by lia.
    rewrite Nat.eqb_refl. replace (length l + 1 - AUDIT_BUFFER_CAPACITY)
      with (S (length l - AUDIT_BUFFER_CAPACITY)) by lia.
    rewrite drop_app_le by (unfold AUDIT_BUFFER_CAPACITY in *; lia). f_equal.
    assert (∀ A (x : list A), tail x = drop 1 x) as -> by (by intros A []).
    rewrite drop_drop. f_equal. lia.
  - replace (length l - AUDIT_BUFFER_CAPACITY) with 0 by lia.
    rewrite (proj2 (Nat.eqb_neq _ _)) by lia. rewrite drop_app_le by lia.
    by replace (length l + 1 - AUDIT_BUFFER_CAPACITY) with 0 by lia.
Qed.

Definition emit_all (rs : list AuditRecord) : AuditSinks := fold_left (λ s r, emit r s) rs no_lines.

Lemma emit_all_sinks rs :
  stdout (emit_all rs) = entry_of_record <$> rs
  ∧ buffer (emit_all rs) = last_n AUDIT_BUFFER_CAPACITY (entry_of_record <$> rs).
Proof.
  induction rs as [|r rs IH] using rev_ind; [done|].
  unfold emit_all in *. rewrite fold_left_app, fmap_app. cbn [fold_left].
  destruct (fold_left _ rs no_lines) as [o q]. cbn [stdout buffer] in *.
  destruct IH as [-> ->]. cbn [emit stdout buffer].
  split; [done|]. apply push_entry_last.
Qed.

(** What an operator reads back.  However many lines were emitted, the
    recent history holds the last 1024 of them, and a query returns the newest
    [limit] of those that match the trace and that the caller may see: hidden
    lines never use up the limit. *)
Theorem audit_history rs limit trace visible :
  recent_where limit trace visible (buffer (emit_all rs))
  = take limit
      (filter (λ e, visible e = true ∧ default (au_trace_id e) trace = au_trace_id e)
         (rev (last_n 1024 (entry_of_record <$> rs))))
  ∧ length (buffer (emit_all rs)) ≤ 1024.
Proof.
  destruct (emit_all_sinks rs) as [_ ->].
  set (l := last_n AUDIT_BUFFER_CAPACITY (entry_of_record <$> rs)).
  split.
  - unfold recent_where. f_equal. destruct trace as [t|].
    + rewrite list_filter_filter. apply list_filter_iff. intros e. naive_solver.
    + apply list_filter_iff. intros e. naive_solver.
  - subst l. unfold last_n. rewrite length_drop. unfold AUDIT_BUFFER_CAPACITY. lia.
Qed.

(** No caller can flood the audit log through its own identity.  Every
    caller-influenced field of a recorded line is the original value when it is
    at most 128 bytes, and otherwise a cut of 125 to 128 bytes that is still
    well-formed UTF-8, followed by a marker that names the true length. *)
Theorem audited_fields_bounded r :
  Forall (λ v, valid_utf8 v = true)
    ([who r; subject r; au_tenant r] ++ option_list (error_detail r)
       ++ option_list (au_sender_ref r) ++ option_list (destination r)) →
  let e := entry_of_record r in
  bounded_field (who r) (who e) ∧ bounded_field (subject r) (subject e)
  ∧ bounded_field (au_tenant r) (au_tenant e)
  ∧ (∀ d, error_detail r = Some d → ∃ d', error_detail e = Some d' ∧ bounded_field d d')
  ∧ (∀ d, au_sender_ref r = Some d → ∃ d', au_sender_ref e = Some d' ∧ bounded_field d d')
  ∧ (∀ d, destination r = Some d → ∃ d', destination e = Some d' ∧ bounded_field d d').
Proof.
  intros Hall. rewrite Forall_forall in Hall. cbn [entry_of_record who subject au_tenant
    error_detail au_sender_ref destination].
  repeat split; try (apply clamp_audited_bounded, Hall; set_solver);
    intros d E; rewrite E; eexists; (split; [reflexivity|]);
    apply clamp_audited_bounded, Hall; rewrite E; cbn; set_solver.
Qed.

Lemma audited_fields_bounded_witness :
  let r := {| kind := §"audit"; phase := Dispatch; when := []; who := replicate 200 "a"%char;
              what := []; env := []; au_result := []; protocol := []; tool := [];
              subject := §"alice"; au_tenant := §"acme"; latency_ms := 0; status := 200;
              status_label := None; status_detail := None; error_detail := None;
              ttfb_ms := None; au_sender_ref := None; destination := None;
              au_suppressed := None; au_trace_id := [] |} in
  bounded_field (who r) (who (entry_of_record r)).
Proof.
  intros r. apply (audited_fields_bounded r). repeat constructor.
Defined.

(** ** Properties of the metrics *)

Lemma elem_of_distinct_tools t m :
  t ∈ distinct_tools m ↔ ∃ k n, m !! k = Some n ∧ k_tool k = t.
Proof.
  unfold distinct_tools. rewrite elem_of_list_to_set, list_elem_of_fmap. split.
  - intros (k & -> & Hk). apply list_elem_of_fmap in Hk as ([k' n] & -> & Hk).
    exists k', n. split; [by apply elem_of_map_to_list|done].
  - intros (k & n & Hk & <-). exists k. split; [done|].
    apply list_elem_of_fmap. exists (k, n). split; [done|]. by apply elem_of_map_to_list.
Qed.

Lemma distinct_tools_bump k m :
  distinct_tools (bump k m) = {[k_tool k]} ∪ distinct_tools m.
Proof.
  apply set_eq. intros t. rewrite elem_of_union, elem_of_singleton, !elem_of_distinct_tools.
  unfold bump. split.
  - intros (k' & n & Hk & <-). apply lookup_insert_Some in Hk as [[-> _]|[_ ?]]; eauto.
  - intros [->|(k' & n & Hk & <-)];
      [eexists k, _; split; [apply lookup_insert_eq|done]|].
    destruct (decide (k = k')) as [<-|];
      [eexists k, _; split; [apply lookup_insert_eq|done]|].
    exists k', n. by rewrite lookup_insert_ne.
Qed.

Definition labels_ok (m : gmap DispatchKey Z) : Prop :=
  size (distinct_tools m) ≤ 256
  ∨ (size (distinct_tools m) = 257 ∧ OVERFLOW_LABEL ∈ distinct_tools m).

Lemma labels_ok_bump tool p r m :
  labels_ok m →
  labels_ok (bump {| k_tool := tool_label tool m; k_protocol := p; k_result := r |} m).
Proof.
  unfold labels_ok. rewrite distinct_tools_bump. cbn [k_tool]. unfold tool_label.
  set (d := distinct_tools m). intros Hok.
  assert (∀ x, x ∈ d → {[x]} ∪ d = d) as Hin by set_solver.
  assert (∀ x, x ∉ d → size ({[x]} ∪ d) = S (size d)) as Hout.
  { intros x Hx. rewrite size_union by set_solver. by rewrite size_singleton. }
  unfold MAX_DISTINCT_TOOL_LABELS.
  destruct (256 <=? size d)%nat eqn:Es; case_bool_decide as Hd; cbn [andb]; bool_facts.
  - destruct (decide (OVERFLOW_LABEL ∈ d)) as [Ho|Ho].
    + rewrite Hin by done. done.
    + rewrite Hout by done. right. split; [|set_solver]. destruct Hok as [|[_ ?]]; [lia|done].
  - destruct (decide (tool ∈ d)); [|done]. rewrite Hin by done. done.
  - left. rewrite Hout by done. lia.
  - destruct (decide (tool ∈ d)); [|done]. rewrite Hin by done. done.
Qed.

(** The number of dispatches the counters stand for. *)
Definition counted (m : gmap DispatchKey Z) : Z := map_fold (λ _ v n, v + n)%Z 0%Z m.

Lemma counted_insert_new k v m :
  m !! k = None → counted (<[k := v]> m) = (v + counted m)%Z.
Proof. intros Hk. unfold counted. rewrite map_fold_insert_L; [done|lia|done]. Qed.

Lemma counted_lookup k v m :
  m !! k = Some v → counted m = (v + counted (delete k m))%Z.
Proof.
  intros Hk. rewrite <-(insert_delete_id m k v Hk) at 1.
  by rewrite counted_insert_new by apply lookup_delete_eq.
Qed.

Lemma counted_nonneg m : map_Forall (λ _ v, 0 ≤ v)%Z m → (0 ≤ counted m)%Z.
Proof.
  induction m as [|k v m Hk IH] using map_ind; [done|].
  rewrite map_Forall_insert, counted_insert_new by done. intros [? ?%IH]. lia.
Qed.

Lemma counted_bump k m :
  map_Forall (λ _ v, 0 ≤ v)%Z m → (counted m < u64_max)%Z →
  counted (bump k m) = (counted m + 1)%Z ∧ map_Forall (λ _ v, 0 ≤ v)%Z (bump k m).
Proof.
  intros Hpos Hmax. unfold bump.
  assert (0 ≤ default 0 (m !! k) ∧ default 0 (m !! k) ≤ counted m)%Z as [H0 H1].
  { destruct (m !! k) as [v|] eqn:E; cbn [from_option id]; [|split; [done|by apply counted_nonneg]].
    rewrite (counted_lookup k v m E). split; [by eapply Hpos|].
    assert (0 ≤ counted (delete k m))%Z; [|lia].
    apply counted_nonneg. by apply map_Forall_delete. }
  rewrite u64_wrap_small by lia.
  split; [|apply map_Forall_insert_2; [lia|done]].
  destruct (m !! k) as [v|] eqn:E; cbn [from_option id] in *.
  - rewrite <-insert_delete_eq, counted_insert_new by apply lookup_delete_eq.
    rewrite (counted_lookup k v m E). lia.
  - rewrite counted_insert_new by done. lia.
Qed.

Definition record_all (l : list (str * str * str)) : Metrics :=
  fold_left (λ m '(t, p, r), record_dispatch t p r m) l Metrics_new.

(** Callers cannot grow the metrics registry by inventing tool names.
    Whatever dispatches are recorded, at most 257 distinct tool labels exist
    (256 names and the overflow bucket), and no dispatch goes uncounted: the
    counters add up to the number recorded. *)
Theorem metrics_labels_bounded l :
  (Z.of_nat (length l) ≤ u64_max)%Z →
  size (distinct_tools (dispatch_total (record_all l))) ≤ 257
  ∧ counted (dispatch_total (record_all l)) = Z.of_nat (length l).
Proof.
  intros Hmax.
  assert (labels_ok (dispatch_total (record_all l))
    ∧ counted (dispatch_total (record_all l)) = Z.of_nat (length l)
    ∧ map_Forall (λ _ v, 0 ≤ v)%Z (dispatch_total (record_all l))) as (H1 & H2 & _).
  { induction l as [|[[t p] r] l IH] using rev_ind.
    { split; [left; unfold record_all; vm_compute; lia|]. split; [done|apply map_Forall_empty]. }
    rewrite length_app in *. cbn [length] in *. destruct IH as (I1 & I2 & I3); [lia|].
    unfold record_all in *. rewrite fold_left_app. cbn [fold_left record_dispatch dispatch_total].
    set (m := dispatch_total _) in *.
    edestruct (counted_bump {| k_tool := tool_label t m; k_protocol := p; k_result := r |} m I3)
      as [J1 J2]; [lia|].
    split; [by apply labels_ok_bump|]. split; [|done]. rewrite J1, I2. lia. }
  split; [|done]. destruct H1 as [|[? _]]; lia.
Qed.

Lemma metrics_labels_bounded_witness :
  counted (dispatch_total (record_all [(§"a", §"rest", §"ok"); (§"b", §"rest", §"ok")])) = 2%Z.
Proof.
  apply (metrics_labels_bounded [(§"a", §"rest", §"ok"); (§"b", §"rest", §"ok")]). done.
Defined.
