(* ===== verification/Dispatcher.v ===== *)
(** * Dispatcher: the central [invoke] path
    (crates/triton-core/src/dispatcher.rs and the traits of tool.rs)

    Every adapter funnels through the operations of this file.  Each takes the
    [World] (the audit sinks, the metrics, the rejection window and whatever
    the tools and the upstream router change, [W]) and returns the new one.
    The [Tool] and [UpstreamDispatch] traits are records of operations on [W];
    the static router of [Upstream] is an instance of the second.  The clock
    readings of a call are a [Clock]. *)

From S2P Require Import Prelude Json Errors Principal RateLimit Stream Context AuditLog.

(** ** The interfaces a dispatcher calls *)

(** An open stream: its answers to the polls its consumer makes, with their
    instants, and what its own finalizer does to the outside at its end. *)
Record BoxStream (W : Type) := {
  answers : list (Z * Poll);
  settle : Termination → W → W;
}.
Arguments answers {W} _.
Arguments settle {W} _.

(** [stream::once]. *)
Definition once {W : Type} (ev : StreamEvent) : BoxStream W :=
  {| answers := [(0%Z, Item ev); (0%Z, End)]; settle _ w := w |}.

(** How a spawned tool ended. *)
Inductive Joined :=
  | Returned (r : result Value TritonError)
  | Panicked (msg : str)
  | Cancelled (msg : str)
  | JoinFailed (msg : str).

Record ToolOps (W : Type) := {
  returns_a2ui : bool;
  supports_streaming : bool;
  invoke_with_context : Value → ToolPrincipal → DispatchContext → W → Joined * W;
  invoke_streaming_with_context :
    Value → ToolPrincipal → DispatchContext → W → result (BoxStream W) TritonError * W;
}.
Arguments returns_a2ui {W} _.
Arguments supports_streaming {W} _.
Arguments invoke_with_context {W} _.
Arguments invoke_streaming_with_context {W} _.

Record UpstreamDispatch (W : Type) := {
  up_invoke : str → Value → Principal → DispatchContext → W → result Value TritonError * W;
  up_invoke_streaming :
    str → Value → Principal → DispatchContext → W → result (BoxStream W) TritonError * W;
  up_resume_streaming :
    str → str → Value → Principal → DispatchContext → W
    → result (BoxStream W) TritonError * W;
  up_read_resource : str → Principal → DispatchContext → W → result Value TritonError * W;
  up_update_model_context :
    str → Value → Principal → DispatchContext → W → result Value TritonError * W;
}.
Arguments up_invoke {W} _.
Arguments up_invoke_streaming {W} _.
Arguments up_resume_streaming {W} _.
Arguments up_read_resource {W} _.
Arguments up_update_model_context {W} _.

(** The trait's default methods around a given [invoke]. *)
Definition default_upstream {W : Type} inv : UpstreamDispatch W :=
  {| up_invoke := inv;
     up_invoke_streaming tool args p ctx w :=
       let '(r, w1) := inv tool args p ctx w in
       (result_map (λ v, once (StreamEvent.Done v)) r, w1);
     up_resume_streaming tool _ _ _ _ w :=
       (Err (Validation (§"tool " ++ tool ++ §" cannot resume a task")), w);
     up_read_resource uri _ _ w :=
       (Err (Validation (§"unknown resource uri: " ++ uri)), w);
     up_update_model_context uri _ _ _ w :=
       (Err (Validation (§"unknown resource uri: " ++ uri)), w) |}.

(** ** [DispatchControls] *)

Definition DEFAULT_REJECT_WINDOW : Z := 60 * 1000000000.
Definition ANONYMOUS_SUBJECT : str := §"-".

(** One entry of the list: [tenant/sub] with exactly one separator, both
    halves trimmed and not blank. *)
Definition parse_principal (entry : str) : option (str * str) :=
  match split_once "/" entry with
  | Some (t, s) =>
      if negb (is_empty (trim t)) && negb (is_empty (trim s))
         && (count_byte "/" entry =? 1)%nat
      then Some (trim t, trim s) else None
  | None => None
  end.

Definition parse_principal_set (raw : str) : gset (str * str) :=
  list_to_set
    (omap parse_principal
       (filter (λ s, is_empty s = false) (trim <$> split_on "," raw))).

Record DispatchControls := {
  denied_principals : gset (str * str);
  scope_restrictions_c : gmap str (gset str);
  reject_window : Z;
}.

Definition unenforced : DispatchControls :=
  {| denied_principals := ∅; scope_restrictions_c := ∅;
     reject_window := DEFAULT_REJECT_WINDOW |}.

Definition extend_denied_principals (entries : str) (c : DispatchControls) : DispatchControls :=
  {| denied_principals := denied_principals c ∪ parse_principal_set entries;
     scope_restrictions_c := scope_restrictions_c c; reject_window := reject_window c |}.

Definition replace_scope_restriction (scope : str) (tools : list str) (c : DispatchControls)
    : DispatchControls :=
  let tools : gset str := list_to_set tools in
  if bool_decide (tools = ∅) then c
  else {| denied_principals := denied_principals c;
          scope_restrictions_c := <[scope := tools]> (scope_restrictions_c c);
          reject_window := reject_window c |}.

Definition with_reject_window (w : Z) (c : DispatchControls) : DispatchControls :=
  {| denied_principals := denied_principals c;
     scope_restrictions_c := scope_restrictions_c c; reject_window := w |}.

Definition is_enforcing (c : DispatchControls) : bool :=
  negb (bool_decide (denied_principals c = ∅))
  || negb (bool_decide (scope_restrictions_c c = ∅)).

(** ** [Dispatcher] *)

Record Dispatcher (W : Type) := {
  registry : gmap str (ToolOps W);
  d_env : str;
  upstream : option (UpstreamDispatch W);
  denied : gset (str * str);
  scope_restrictions : gmap str (gset str);
  surfaces : gmap str Value;
}.
Arguments registry {W} _.
Arguments d_env {W} _.
Arguments upstream {W} _.
Arguments denied {W} _.
Arguments scope_restrictions {W} _.
Arguments surfaces {W} _.

Record World (W : Type) := {
  sinks : AuditSinks;
  metrics : Metrics;
  rejects : RejectionWindow;
  outside : W;
}.
Arguments sinks {W} _.
Arguments metrics {W} _.
Arguments rejects {W} _.
Arguments outside {W} _.
Arguments Build_World {W} _ _ _ _.

Definition set_outside {W : Type} (o : W) (w : World W) : World W :=
  Build_World (sinks w) (metrics w) (rejects w) o.

(** The readings of the clock: the timestamp of the audit line and the
    monotonic instants before and after the work. *)
Record Clock := { c_when : str; c_started : Z; c_finished : Z }.

Definition as_millis (ns : Z) : Z := (Z.max 0 ns / 1000000)%Z.
Definition elapsed_ms (c : Clock) : Z := as_millis (c_finished c - c_started c).

Record DispatchResult := {
  dr_result : Value;
  dr_trace_id : str;
  dr_latency_ms : Z;
  dr_returns_a2ui : bool;
}.

Inductive A2uiVersion := V08 | V09.

(** [Dispatcher::new]; the state it starts with beside an outside [o]. *)
Definition Dispatcher_new {W : Type} (reg : gmap str (ToolOps W)) (env : str)
    (trio : gmap str Value) (c : DispatchControls) : Dispatcher W :=
  {| registry := reg; d_env := env; upstream := None; denied := denied_principals c;
     scope_restrictions := scope_restrictions_c c; surfaces := trio |}.

Definition World_new {W : Type} (c : DispatchControls) (o : W) : World W :=
  Build_World no_lines Metrics_new (RejectionWindow_new (reject_window c)) o.

Definition with_upstream {W : Type} (u : UpstreamDispatch W) (d : Dispatcher W) : Dispatcher W :=
  {| registry := registry d; d_env := d_env d; upstream := Some u; denied := denied d;
     scope_restrictions := scope_restrictions d; surfaces := surfaces d |}.

Definition with_surfaces {W : Type} (s : gmap str Value) (d : Dispatcher W) : Dispatcher W :=
  {| registry := registry d; d_env := d_env d; upstream := upstream d; denied := denied d;
     scope_restrictions := scope_restrictions d; surfaces := s |}.

(** The line every dispatch outcome shares. *)
Definition dispatch_line (env when tool protocol : str) (p : Principal) (latency : Z)
    (result : str) (status : Z) (sdetail edetail : option str) (ttfb : option Z)
    : AuditRecord :=
  {| kind := §"audit"; phase := Dispatch; when := when; who := sub p; what := tool;
     env := env; au_result := result; protocol := protocol; tool := tool;
     subject := sub p; au_tenant := tenant p; latency_ms := latency; status := status;
     status_label := None; status_detail := sdetail; error_detail := edetail;
     ttfb_ms := ttfb; au_sender_ref := sender_ref p; destination := None;
     au_suppressed := None; au_trace_id := trace_id p |}.

(** Count and emit one line. *)
Definition log {W : Type} (phase_name : str) (r : AuditRecord) (w : World W) : World W :=
  Build_World (emit r (sinks w))
    (record_audit phase_name (record_dispatch (tool r) (protocol r) (au_result r) (metrics w)))
    (rejects w) (outside w).

Definition error_result (e : TritonError) : str := §"error:" ++ class e.

(** [fail]: audits the error and hands the same error back. *)
Definition fail {W : Type} (d : Dispatcher W) (when tool protocol : str) (p : Principal)
    (e : TritonError) (latency : Z) (w : World W) : TritonError * World W :=
  (e, log §"dispatch"
        (dispatch_line (d_env d) when tool protocol p latency (error_result e)
           (http_status e) None None None) w).

Definition SAFE : list str :=
  [§"embedded peacock render queue timed out";
   §"embedded peacock render queue closed";
   §"embedded peacock request timeout";
   §"embedded peacock request connect";
   §"embedded peacock request transport";
   §"embedded peacock response decode"].

(** [s.split_once(pat)] for a string pattern. *)
Definition split_once_str (p s : str) : option (str * str) :=
  (λ i, (take i s, drop (i + length p) s)) <$> find_sub p s.

Definition safe_dispatch_error_detail (e : TritonError) : option str :=
  match e with
  | Provider m =>
      if decide (m ∈ SAFE) then Some m
      else
        rest ← strip_prefix §"embedded peacock render_report status " m;
        '(st, kd) ← split_once_str §" error=" rest;
        n ← parse_uint 65535 st;
        if ((100 <=? n) && (n <=? 599))%Z
           && bool_decide (kd ∈ [§"auth"; §"validation"; §"data"; §"render"; §"unknown"])
        then Some m else None
  | _ => None
  end.

Definition audit_dispatch {W : Type} (d : Dispatcher W) (when tool protocol : str) (p : Principal)
    (latency : Z) (outcome : result Value TritonError) (w : World W) : World W :=
  log §"dispatch"
    match outcome with
    | Ok _ => dispatch_line (d_env d) when tool protocol p latency §"ok" 200 None None None
    | Err e => dispatch_line (d_env d) when tool protocol p latency (error_result e)
                 (http_status e) None (safe_dispatch_error_detail e) None
    end w.

Section Dispatch.
Context {W : Type} `{SerdeJson}.
(** [{:?}] of a [HashSet], whose order is unspecified. *)
Variable debug_set : gset str → str.
(** The text of a JSON syntax error. *)
Variable json_error : str → str.
(** [extract_surface] followed by [build_envelope]. *)
Variable a2ui_envelope : A2uiVersion → Value → result Value str.

Implicit Types (d : Dispatcher W) (w : World W) (p : Principal) (c : Clock).

(** ** The gates *)

Definition is_denied d p : bool :=
  if bool_decide (denied d = ∅) then false
  else bool_decide ((tenant p, sub p) ∈ denied d).

Definition can_invoke d p (tool : str) : result unit TritonError :=
  if bool_decide (scope_restrictions d = ∅) then Ok ()
  else match list_find (λ s, is_Some (scope_restrictions d !! s)) (scopes p) with
       | None => Ok ()
       | Some (_, held) =>
           match scope_restrictions d !! held with
           | Some allowed =>
               if bool_decide (tool ∉ allowed) then
                 Err (Forbidden (§"principal holds only the `" ++ held
                        ++ §"` scope, which may invoke " ++ debug_set allowed
                        ++ §" — not `" ++ tool ++ §"`"))
               else Ok ()
           | None => Ok ()
           end
       end.

Definition deny d (when tool protocol : str) p w : TritonError * World W :=
  let e := Forbidden (§"principal `" ++ tenant p ++ §"/" ++ sub p
                        ++ §"` has been revoked by the operator") in
  fail d when tool protocol p e 0 w.

Definition deny_if_revoked d c p (surface protocol : str) w
    : result unit TritonError * World W :=
  if is_denied d p then
    let '(e, w1) := deny d (c_when c) surface protocol p w in (Err e, w1)
  else (Ok (), w).

(** The two checks every entry point opens with; a refusal is audited. *)
Definition gate d c (tool protocol : str) p w : option TritonError * World W :=
  if is_denied d p then
    let '(e, w1) := deny d (c_when c) tool protocol p w in (Some e, w1)
  else match can_invoke d p tool with
       | Err e => (Some e, audit_dispatch d (c_when c) tool protocol p 0 (Err e) w)
       | Ok _ => (None, w)
       end.

(** ** Buffered dispatch *)

Definition joined (j : Joined) : result Value TritonError :=
  match j with
  | Returned r => r
  | Panicked m => Err (Tool (§"tool panic: " ++ m))
  | Cancelled m => Err (Tool (§"tool cancelled: " ++ m))
  | JoinFailed m => Err (Tool (§"tool join_error: " ++ m))
  end.

Definition run d (tool : str) (args : Value) p (ctx : DispatchContext) (o : W)
    : result Value TritonError * W :=
  match registry d !! tool with
  | Some t =>
      let '(j, o1) := invoke_with_context t args (to_tool_principal p) ctx o in
      (joined j, o1)
  | None =>
      match upstream d with
      | Some u => up_invoke u tool args p ctx o
      | None => (Err (Validation (§"unknown tool: " ++ tool)), o)
      end
  end.

Definition a2ui_of d (tool : str) : bool :=
  match registry d !! tool with
  | Some t => returns_a2ui t
  | None => bool_decide (is_Some (upstream d))
  end.

Definition finish c p (a2ui : bool) (r : result Value TritonError)
    : result DispatchResult TritonError :=
  result_map (λ v, {| dr_result := v; dr_trace_id := trace_id p;
                      dr_latency_ms := elapsed_ms c; dr_returns_a2ui := a2ui |}) r.

Definition invoke_with d c (tool : str) (args : Value) p (protocol : str)
    (ov : ContextOverrides) w : result DispatchResult TritonError * World W :=
  match gate d c tool protocol p w with
  | (Some e, w1) => (Err e, w1)
  | (None, w1) =>
      let args := prepare_args args ov in
      let ctx := dispatch_context protocol (surfaces d) ov in
      let '(r, o) := run d tool args p ctx (outside w1) in
      let w2 := audit_dispatch d (c_when c) tool protocol p (elapsed_ms c) r
                  (set_outside o w1) in
      (finish c p (a2ui_of d tool) r, w2)
  end.

Definition invoke d c tool args p protocol w : result DispatchResult TritonError * World W :=
  invoke_with d c tool args p protocol no_overrides w.

(** An empty body stands for an empty object. *)
Definition parse_body (body : str) : result Value TritonError :=
  if is_empty body then Ok (Value.Object [])
  else match json_from_str body with
       | Some v => Ok v
       | None => Err (Validation (§"invalid JSON body: " ++ json_error body))
       end.

Definition invoke_with_bytes d c (tool body : str) p (protocol : str) w
    : result DispatchResult TritonError * World W :=
  match parse_body body with
  | Ok args => invoke d c tool args p protocol w
  | Err e => let '(e, w1) := fail d (c_when c) tool protocol p e 0 w in (Err e, w1)
  end.

(** [read_resource] and [update_model_context] share this frame: gate, ask
    the upstream under the [mcp] protocol, audit. *)
Definition mcp_dispatch d c (uri : str) p
    (ask : UpstreamDispatch W → DispatchContext → W → result Value TritonError * W) w
    : result DispatchResult TritonError * World W :=
  match gate d c uri §"mcp" p w with
  | (Some e, w1) => (Err e, w1)
  | (None, w1) =>
      let '(r, o) := match upstream d with
                     | Some u => ask u (for_protocol §"mcp" (surfaces d)) (outside w1)
                     | None => (Err (Validation (§"unknown resource uri: " ++ uri)),
                                outside w1)
                     end in
      let w2 := audit_dispatch d (c_when c) uri §"mcp" p (elapsed_ms c) r
                  (set_outside o w1) in
      (finish c p false r, w2)
  end.

Definition read_resource d c (uri : str) p w : result DispatchResult TritonError * World W :=
  mcp_dispatch d c uri p (λ u ctx o, up_read_resource u uri p ctx o) w.

Definition update_model_context d c (uri : str) (record : Value) p w
    : result DispatchResult TritonError * World W :=
  mcp_dispatch d c uri p (λ u ctx o, up_update_model_context u uri record p ctx o) w.

(** ** Streaming dispatch *)

Definition done_event_a2ui (v : Value) (ver : A2uiVersion) : StreamEvent :=
  match a2ui_envelope ver v with
  | Ok env => StreamEvent.Done env
  | Err e => event_error (Tool (§"tool advertised A2UI but " ++ e))
  end.

Definition wrap_poll_a2ui (ver : A2uiVersion) (q : Poll) : Poll :=
  match q with
  | Item (StreamEvent.Done v) => Item (done_event_a2ui v ver)
  | _ => q
  end.

Definition wrap_stream_a2ui (ver : option A2uiVersion) (s : BoxStream W) : BoxStream W :=
  match ver with
  | Some v => {| answers := (λ '(t, q), (t, wrap_poll_a2ui v q)) <$> answers s;
                 settle := settle s |}
  | None => s
  end.

(** What an adapter gets: a one-event stream whose line is already written,
    or an open stream wrapped so that its end writes the line. *)
Inductive Streamed :=
  | Buffered (ev : StreamEvent)
  (** the upstream's own termination, fixed by the events before wrapping;
      the stream; the offset of its opening *)
  | Audited (inner_term : Termination) (s : BoxStream W) (open_offset : Z).

Definition audited_stream (inner wrapped : BoxStream W) (open_offset : Z) : Streamed :=
  Audited (classify (snd <$> answers inner)) wrapped open_offset.

Definition emit_stream_audit d (when tool protocol : str) p (open_offset : Z)
    (term : Termination) (tm : Timing) w : World W :=
  let '(result, status, detail) :=
    match term with
    | Completed => (§"ok", 200%Z, None)
    | Failed detail => (§"error:tool", 502%Z, detail)
    | Truncated => (§"error:tool", 502%Z, Some §"upstream_truncated")
    | Disconnected => (§"client_disconnect", 499%Z, Some §"client_disconnect")
    end in
  log §"dispatch"
    (dispatch_line (d_env d) when tool protocol p (as_millis (open_offset + total tm))
       result status detail None ((λ t, as_millis (open_offset + t)) <$> ttfb tm)) w.

(** The adapter polls the stream and drops it at [at_drop]; the upstream's
    finalizer and then the audit finalizer run. *)
Definition consume d (when tool protocol : str) p (opened at_drop : Z) (s : Streamed) w
    : list Poll * World W :=
  match s with
  | Buffered ev => ([Item ev; End], w)
  | Audited inner_term s off =>
      let '(out, f) := poll_run (Finalized_new opened) (answers s) in
      let w1 := set_outside (settle s inner_term (outside w)) w in
      (out, fold_left (λ w '(term, tm),
              emit_stream_audit d when tool protocol p off term tm w)
            (fired (drop_finalized at_drop f)) w1)
  end.

(** An open stream, or the audited error. *)
Definition open_or_fail d c (tool protocol : str) p (ver : option A2uiVersion)
    (r : result (BoxStream W) TritonError) w : result Streamed TritonError * World W :=
  match r with
  | Err e =>
      let '(e, w1) := fail d (c_when c) tool protocol p e (elapsed_ms c) w in (Err e, w1)
  | Ok inner =>
      (Ok (audited_stream inner (wrap_stream_a2ui ver inner)
             (Z.max 0 (c_finished c - c_started c))), w)
  end.

Definition invoke_streaming_with d c (tool : str) (args : Value) p (protocol : str)
    (a2ui : option A2uiVersion) (ov : ContextOverrides) w
    : result Streamed TritonError * World W :=
  match gate d c tool protocol p w with
  | (Some e, w1) => (Err e, w1)
  | (None, w1) =>
      let args := prepare_args args ov in
      let ctx := dispatch_context protocol (surfaces d) ov in
      let buffered ver :=
        let '(r, o) := run d tool args p ctx (outside w1) in
        let w2 := audit_dispatch d (c_when c) tool protocol p (elapsed_ms c) r
                    (set_outside o w1) in
        (result_map (λ v, Buffered match ver with
                                   | Some n => done_event_a2ui v n
                                   | None => StreamEvent.Done v
                                   end) r, w2) in
      match registry d !! tool with
      | Some t =>
          let ver := if returns_a2ui t then a2ui else None in
          if supports_streaming t then
            let '(r, o) := invoke_streaming_with_context t args (to_tool_principal p) ctx
                             (outside w1) in
            open_or_fail d c tool protocol p ver r (set_outside o w1)
          else buffered ver
      | None =>
          match upstream d with
          | None => buffered None
          | Some u =>
              let '(r, o) := up_invoke_streaming u tool args p ctx (outside w1) in
              open_or_fail d c tool protocol p a2ui r (set_outside o w1)
          end
      end
  end.

Definition invoke_streaming_with_bytes d c (tool body : str) p (protocol : str)
    (a2ui : option A2uiVersion) w : result Streamed TritonError * World W :=
  match parse_body body with
  | Ok args => invoke_streaming_with d c tool args p protocol a2ui no_overrides w
  | Err e => let '(e, w1) := fail d (c_when c) tool protocol p e 0 w in (Err e, w1)
  end.

Definition resume_streaming_with d c (tool task_id : str) p (protocol : str)
    (ov : ContextOverrides) w : result Streamed TritonError * World W :=
  match gate d c tool protocol p w with
  | (Some e, w1) => (Err e, w1)
  | (None, w1) =>
      let args := prepare_args (Value.Object []) ov in
      let ctx := dispatch_context protocol (surfaces d) ov in
      match upstream d with
      | None => (Err (Validation (§"tool " ++ tool ++ §" cannot resume a task")), w1)
      | Some u =>
          let '(r, o) := up_resume_streaming u tool task_id args p ctx (outside w1) in
          open_or_fail d c tool protocol p None r (set_outside o w1)
      end
  end.

(** ** Rejections and posts *)

Definition record_rejection d (when : str) (now : Z)
    (tool protocol subject tenant trace : str) (e : TritonError) w : World W :=
  let result := error_result e in
  let m := record_audit §"rejected" (record_dispatch tool protocol result (metrics w)) in
  let '(admitted, rj) :=
    if decide (subject = ANONYMOUS_SUBJECT) then
      let '(a, rj) := admit_rejection now protocol (rejects w) in
      ((λ n, if (0 <? n)%Z then Some n else None) <$> a, rj)
    else (Some None, rejects w) in
  match admitted with
  | None => Build_World (sinks w) m rj (outside w)
  | Some suppressed =>
      Build_World
        (emit {| kind := §"audit"; phase := Rejected; when := when; who := subject;
                 what := tool; env := d_env d; au_result := result; protocol := protocol;
                 tool := tool; subject := subject; au_tenant := tenant; latency_ms := 0;
                 status := http_status e; status_label := None;
                 status_detail := (λ _, §"rejections_coalesced") <$> suppressed;
                 error_detail := Some (to_string e); ttfb_ms := None;
                 au_sender_ref := None; destination := None;
                 au_suppressed := suppressed; au_trace_id := trace |} (sinks w))
        m rj (outside w)
  end.

Definition record_post_to d (when tool protocol : str) p (latency : Z)
    (outcome : result (Z * PostOutcome * option str)
                      (TritonError * Z * PostOutcome * option str))
    (destination : option str) w : World W :=
  let '(result, status, label, detail) :=
    match outcome with
    | Ok (s, label, detail) => (§"ok", s, post_outcome_as_str label, detail)
    | Err (e, s, label, detail) => (error_result e, s, post_outcome_as_str label, detail)
    end in
  log §"post"
    {| kind := §"audit"; phase := Post; when := when; who := sub p; what := tool;
       env := d_env d; au_result := result; protocol := protocol; tool := tool;
       subject := sub p; au_tenant := tenant p; latency_ms := latency; status := status;
       status_label := Some label; status_detail := detail; error_detail := None;
       ttfb_ms := None; au_sender_ref := sender_ref p; destination := destination;
       au_suppressed := None; au_trace_id := trace_id p |} w.

Definition record_post d when tool protocol p latency outcome w : World W :=
  record_post_to d when tool protocol p latency outcome None w.
End Dispatch.

(** ** One audit line per invocation *)

Section AuditFacts.
Context {W : Type}.
Variable debug_set : gset str → str.
Implicit Types (d : Dispatcher W) (w : World W) (p : Principal) (c : Clock).

(** The line describes this call by this caller. *)
Definition line_for (tl pr : str) p (l : AuditRecord) : Prop :=
  phase l = Dispatch ∧ tool l = tl ∧ protocol l = pr ∧ subject l = sub p
  ∧ au_tenant l = tenant p ∧ au_sender_ref l = sender_ref p ∧ au_trace_id l = trace_id p.

Definition line_outcome {A} (r : result A TritonError) (l : AuditRecord) : Prop :=
  match r with
  | Ok _ => au_result l = §"ok" ∧ status l = 200%Z
  | Err e => au_result l = error_result e ∧ status l = http_status e
  end.

(** The line a stream's termination stands for. *)
Definition line_termination (t : Termination) (l : AuditRecord) : Prop :=
  match t with
  | Completed => au_result l = §"ok" ∧ status l = 200%Z
  | Failed _ | Truncated => au_result l = §"error:tool" ∧ status l = 502%Z
  | Disconnected => au_result l = §"client_disconnect" ∧ status l = 499%Z
  end.

(** [w'] is [w] after exactly one more line, one more count of it, and
    nothing else but the outside. *)
Definition one_line w w' (P : AuditRecord → Prop) : Prop :=
  ∃ l, P l ∧ sinks w' = emit l (sinks w)
       ∧ audit_total (metrics w') = bump §"dispatch" (audit_total (metrics w))
       ∧ rejects w' = rejects w.

Ltac solve_line :=
  refine (ex_intro _ _ (conj _ (conj eq_refl (conj eq_refl eq_refl)))); repeat split.

Lemma fail_line d when tl pr p e ms w :
  one_line w (fail d when tl pr p e ms w).2
    (λ l, line_for tl pr p l ∧ line_outcome (A := Value) (Err e) l).
Proof. solve_line. Qed.

Lemma audit_dispatch_line d when tl pr p ms r w :
  one_line w (audit_dispatch d when tl pr p ms r w)
    (λ l, line_for tl pr p l ∧ line_outcome r l).
Proof. destruct r; solve_line. Qed.

Lemma one_line_outside o w w' P :
  one_line (set_outside o w) w' P → one_line w w' P.
Proof. done. Qed.

Lemma one_line_impl w w' (P Q : AuditRecord → Prop) :
  (∀ l, P l → Q l) → one_line w w' P → one_line w w' Q.
Proof. intros HPQ (l & HP & ?). exists l. auto. Qed.

(** What the gate does: nothing, or one refusal line. *)
Lemma gate_cases d c tl pr p w :
  (gate debug_set d c tl pr p w = (None, w)
   ∧ is_denied d p = false ∧ can_invoke debug_set d p tl = Ok ())
  ∨ ∃ m w', gate debug_set d c tl pr p w = (Some (Forbidden m), w')
       ∧ outside w' = outside w
       ∧ one_line w w' (λ l, line_for tl pr p l
                             ∧ line_outcome (A := Value) (Err (Forbidden m)) l).
Proof.
  unfold gate. destruct (is_denied d p).
  { right. unfold deny. do 2 eexists. split; [reflexivity|]. split; [done|].
    apply (fail_line d (c_when c) tl pr p). }
  destruct (can_invoke debug_set d p tl) as [[]|e] eqn:E; [by left|right].
  assert (∃ m, e = Forbidden m) as [m ->].
  { revert E. unfold can_invoke. repeat (case_match; try done). naive_solver. }
  do 2 eexists. split; [reflexivity|]. split; [done|].
  apply (audit_dispatch_line d (c_when c) tl pr p 0 (Err (Forbidden m))).
Qed.

Lemma finish_outcome c p a r l :
  line_outcome r l → line_outcome (finish c p a r) l.
Proof. by destruct r. Qed.

Lemma invoke_with_line d c tl args p pr ov w :
  one_line w (invoke_with debug_set d c tl args p pr ov w).2
    (λ l, line_for tl pr p l
          ∧ line_outcome (invoke_with debug_set d c tl args p pr ov w).1 l).
Proof.
  unfold invoke_with.
  destruct (gate_cases d c tl pr p w) as [[-> _]|(m & w' & -> & _ & Hl)]; [|exact Hl].
  destruct (run _ _ _ _ _ _) as [r o]. cbn [fst snd].
  eapply one_line_impl; [|apply (one_line_outside o), audit_dispatch_line].
  intros l [? ?]. eauto using finish_outcome.
Qed.

Lemma mcp_dispatch_line d c uri p ask w :
  one_line w (mcp_dispatch debug_set d c uri p ask w).2
    (λ l, line_for uri §"mcp" p l
          ∧ line_outcome (mcp_dispatch debug_set d c uri p ask w).1 l).
Proof.
  unfold mcp_dispatch.
  destruct (gate_cases d c uri §"mcp" p w) as [[-> _]|(m & w' & -> & _ & Hl)]; [|exact Hl].
  destruct (match upstream d with Some _ => _ | None => _ end) as [r o]. cbn [fst snd].
  eapply one_line_impl; [|apply (one_line_outside o), audit_dispatch_line].
  intros l [? ?]. eauto using finish_outcome.
Qed.

(** ** Streams *)
Variable a2ui_envelope : A2uiVersion → Value → result Value str.

(** The line a streamed invocation leaves once it is consumed. *)
Definition streamed_outcome (r : result (Streamed (W := W)) TritonError) (l : AuditRecord) : Prop :=
  match r with
  | Err e => line_outcome (A := Value) (Err e) l
  | Ok (Buffered _) => au_result l = §"ok" ∧ status l = 200%Z
  | Ok (Audited _ s _) => line_termination (classify (snd <$> answers s)) l
  end.

(** The world once the adapter is done with the answer. *)
Definition settled_world d when tl pr p opened at_drop
    (r : result Streamed TritonError * World W) : World W :=
  match r.1 with
  | Ok s => (consume d when tl pr p opened at_drop s r.2).2
  | Err _ => r.2
  end.

Lemma consume_audited d when tl pr p opened at_drop t s off w :
  one_line w (consume d when tl pr p opened at_drop (Audited t s off) w).2
    (λ l, line_for tl pr p l ∧ line_termination (classify (snd <$> answers s)) l).
Proof.
  unfold consume. pose proof (poll_run_fires (answers s) (Finalized_new opened) at_drop
    eq_refl eq_refl eq_refl) as Hf.
  destruct (poll_run _ _) as [out f]. cbn [fst snd] in *.
  destruct (fired (drop_finalized at_drop f)) as [|[term tm] [|? ?]]; try done.
  cbn [fmap list_fmap fst] in Hf. injection Hf as <-. cbn [fold_left].
  apply (one_line_outside (settle s t (outside w))). unfold emit_stream_audit.
  destruct term; solve_line.
Qed.

Lemma open_or_fail_line d c tl pr p ver r w when opened at_drop :
  let x := open_or_fail a2ui_envelope d c tl pr p ver r w in
  one_line w (settled_world d when tl pr p opened at_drop x)
    (λ l, line_for tl pr p l ∧ streamed_outcome x.1 l).
Proof.
  destruct r as [inner|e]; cbn; [|apply (fail_line d (c_when c) tl pr p e)].
  apply consume_audited.
Qed.

Lemma invoke_streaming_line d c tl args p pr a2ui ov w when opened at_drop :
  let x := invoke_streaming_with debug_set a2ui_envelope d c tl args p pr a2ui ov w in
  one_line w (settled_world d when tl pr p opened at_drop x)
    (λ l, line_for tl pr p l ∧ streamed_outcome x.1 l).
Proof.
  intros x. subst x. unfold invoke_streaming_with.
  destruct (gate_cases d c tl pr p w) as [[-> _]|(m & w' & -> & _ & Hl)]; [|exact Hl].
  assert (∀ ver r o, one_line w
    (settled_world d when tl pr p opened at_drop
      (result_map (λ v, Buffered match ver with
                                 | Some n => done_event_a2ui a2ui_envelope v n
                                 | None => StreamEvent.Done v end) r,
       audit_dispatch d (c_when c) tl pr p (elapsed_ms c) r (set_outside o w)))
    (λ l, line_for tl pr p l ∧ streamed_outcome
      (result_map (λ v, Buffered match ver with
                                 | Some n => done_event_a2ui a2ui_envelope v n
                                 | None => StreamEvent.Done v end) r) l)) as Hbuf.
  { intros ver r o. pose proof (audit_dispatch_line d (c_when c) tl pr p (elapsed_ms c) r
      (set_outside o w)) as Hl. apply one_line_outside in Hl. by destruct r. }
  assert (∀ ver r o, let x := open_or_fail a2ui_envelope d c tl pr p ver r (set_outside o w) in
    one_line w (settled_world d when tl pr p opened at_drop x)
      (λ l, line_for tl pr p l ∧ streamed_outcome x.1 l)) as Hopen.
  { intros ver r o x. apply (one_line_outside o), open_or_fail_line. }
  destruct (registry d !! tl) as [t|]; [destruct (supports_streaming t)|].
  - destruct (invoke_streaming_with_context _ _ _ _ _) as [r o]. apply Hopen.
  - destruct (run _ _ _ _ _ _) as [r o]. apply Hbuf.
  - destruct (upstream d) as [u|].
    + destruct (up_invoke_streaming _ _ _ _ _ _) as [r o]. apply Hopen.
    + destruct (run _ _ _ _ _ _) as [r o]. apply (Hbuf None).
Qed.

(** The event of a buffered answer: a result, or the error that stands for one
    whose envelope could not be built. *)
Definition result_event (ev : StreamEvent) : Prop :=
  (∃ v, ev = StreamEvent.Done v)
  ∨ ∃ ver v e, a2ui_envelope ver v = Err e ∧ ev = event_error (Tool (§"tool advertised A2UI but " ++ e)).

Lemma done_event_result v ver : result_event (done_event_a2ui a2ui_envelope v ver).
Proof. unfold done_event_a2ui, result_event. destruct (a2ui_envelope ver v) eqn:E; eauto 6. Qed.

Lemma invoke_streaming_event d c tl args p pr a2ui ov w ev :
  (invoke_streaming_with debug_set a2ui_envelope d c tl args p pr a2ui ov w).1 = Ok (Buffered ev) →
  result_event ev.
Proof.
  unfold invoke_streaming_with.
  destruct (gate_cases d c tl pr p w) as [[-> _]|(m & w' & -> & _ & _)]; [|done].
  assert (∀ ver r, result_map (λ v, Buffered (W := W) match ver with
                                 | Some n => done_event_a2ui a2ui_envelope v n
                                 | None => StreamEvent.Done v end) r = Ok (E := TritonError) (Buffered ev) →
    result_event ev) as Hbuf.
  { intros ver [v|e]; cbn; [|done]. intros [= <-]. destruct ver; [apply done_event_result|left; by eexists]. }
  destruct (registry d !! tl) as [t|]; [destruct (supports_streaming t)|].
  - destruct (invoke_streaming_with_context _ _ _ _ _) as [[] ?]; done.
  - destruct (run _ _ _ _ _ _) as [r o]. apply Hbuf.
  - destruct (upstream d) as [u|].
    + destruct (up_invoke_streaming _ _ _ _ _ _) as [[] ?]; done.
    + destruct (run _ _ _ _ _ _) as [r o]. apply (Hbuf None).
Qed.
End AuditFacts.

Lemma parse_body_Err `{SerdeJson} jerr body e : parse_body jerr body = Err e → ∃ m, e = Validation m.
Proof.
  unfold parse_body. destruct (is_empty body); [done|]. destruct (json_from_str body); [done|].
  intros [= <-]. by eexists.
Qed.

(** C1: audit symmetry.  Every buffered invocation, whichever entry point it
    comes through and however it ends (revoked caller, restricted scope,
    malformed body, unknown tool, tool error, panic or success), writes exactly
    one dispatch line and counts it once; the line names the tool, the caller
    and the trace, and its result and status are those of the answer. *)
Theorem every_invocation_audited_once {W} `{SerdeJson} dbg jerr (d : Dispatcher W)
    c tl args body uri record p pr ov w :
  let audited {A} tl pr (x : result A TritonError * World W) :=
    one_line w x.2 (λ l, line_for tl pr p l ∧ line_outcome x.1 l) in
  audited tl pr (invoke_with dbg d c tl args p pr ov w)
  ∧ audited tl pr (invoke_with_bytes dbg jerr d c tl body p pr w)
  ∧ audited uri §"mcp" (read_resource dbg d c uri p w)
  ∧ audited uri §"mcp" (update_model_context dbg d c uri record p w).
Proof.
  intros audited. split; [apply invoke_with_line|].
  split; [|split; apply mcp_dispatch_line].
  unfold invoke_with_bytes. destruct (parse_body jerr body) as [a|e];
    [apply invoke_with_line|apply (fail_line d (c_when c) tl pr p e)].
Qed.

(** C2: audit symmetry of streams.  A streamed invocation that fails before its
    first byte writes its line at once; an open stream writes exactly one line
    when it ends, whatever happens to it, and the line's result is decided by
    how it ended as its reader saw it: completed, failed (which includes a reply
    whose A2UI envelope could not be built), truncated by the upstream, or
    abandoned by the client.  A tool that does not stream, and a call without an
    upstream, is answered with one event, and its line is that of the tool's
    result, written before the event is made: the event is the result, or, where
    the line says [ok] all the same, the error of an envelope that could not be
    built.  A resumed task does the same wherever an upstream is wired, and is
    never buffered. *)
Theorem every_stream_audited_once {W} `{SerdeJson} dbg jerr env (d : Dispatcher W)
    c tl args body task p pr a2ui ov w when opened at_drop :
  let audited (x : result (Streamed (W := W)) TritonError * World W) :=
    one_line w (settled_world d when tl pr p opened at_drop x)
      (λ l, line_for tl pr p l ∧ streamed_outcome x.1 l)
    ∧ ∀ ev, x.1 = Ok (Buffered ev) → result_event env ev in
  audited (invoke_streaming_with dbg env d c tl args p pr a2ui ov w)
  ∧ audited (invoke_streaming_with_bytes dbg jerr env d c tl body p pr a2ui w)
  ∧ (upstream d ≠ None →
     let x := resume_streaming_with dbg env d c tl task p pr ov w in
     audited x ∧ ∀ ev, x.1 ≠ Ok (Buffered ev)).
Proof.
  intros audited. split; [split; [apply invoke_streaming_line|intros ev; apply invoke_streaming_event]|]. split.
  - unfold audited, invoke_streaming_with_bytes. destruct (parse_body jerr body) as [a|e].
    + split; [apply invoke_streaming_line|intros ev; apply invoke_streaming_event].
    + by split; [apply (fail_line d (c_when c) tl pr p e)|].
  - intros Hu x. assert (∀ ev, x.1 ≠ Ok (Buffered ev)) as Hb.
    { intros ev. subst x. unfold resume_streaming_with.
      destruct (gate_cases dbg d c tl pr p w) as [[-> _]|(m & w' & -> & _ & Hl)]; [|done].
      destruct (upstream d) as [u|]; [|done]. by destruct (up_resume_streaming _ _ _ _ _ _ _) as [[] o]. }
    split; [split; [|by intros ev ?%Hb]|exact Hb]. clear Hb. subst x. unfold resume_streaming_with.
    destruct (gate_cases dbg d c tl pr p w) as [[-> _]|(m & w' & -> & _ & Hl)]; [|exact Hl].
    destruct (upstream d) as [u|]; [|done].
    destruct (up_resume_streaming _ _ _ _ _ _ _) as [r o].
    apply (one_line_outside o), open_or_fail_line.
Qed.

(** Resuming a task where no upstream is wired is the one refusal that
    leaves no trace: the caller gets a validation error, and neither a line nor
    a count is written. *)
Theorem resume_without_upstream_unaudited {W} dbg env (d : Dispatcher W)
    c tl task p pr ov w :
  upstream d = None → is_denied d p = false → can_invoke dbg d p tl = Ok () →
  resume_streaming_with dbg env d c tl task p pr ov w
  = (Err (Validation (§"tool " ++ tl ++ §" cannot resume a task")), w).
Proof.
  intros Hu Hd Hc. unfold resume_streaming_with, gate. by rewrite Hd, Hc, Hu.
Qed.

(** A buffered in-process tool that advertised A2UI but returned no surface
    is audited as a success.  The caller's stream ends in an error event while
    the line, written before the result is wrapped, says [ok] and 200. *)
Theorem buffered_a2ui_failure_audited_ok {W} dbg env (d : Dispatcher W)
    c tl args p pr ver ov w t v e o m :
  is_denied d p = false → can_invoke dbg d p tl = Ok () →
  registry d !! tl = Some t → returns_a2ui t = true → supports_streaming t = false →
  invoke_with_context t (prepare_args args ov) (to_tool_principal p)
    (dispatch_context pr (surfaces d) ov) (outside w) = (Returned (Ok v), o) →
  env ver v = Err e → m = §"tool advertised A2UI but " ++ e →
  let x := invoke_streaming_with dbg env d c tl args p pr (Some ver) ov w in
  x.1 = Ok (Buffered (StreamEvent.Error (Tool m) None))
  ∧ ∃ l, last (stdout (sinks x.2)) = Some l ∧ au_result l = §"ok" ∧ status l = 200%Z.
Proof.
  intros Hd Hc Ht Ha Hs Hi He -> x. subst x. unfold invoke_streaming_with, gate, run.
  rewrite Hd, Hc, Ht, Ha, Hs, Hi. cbn [joined result_map fst snd].
  unfold done_event_a2ui. rewrite He. split; [done|].
  eexists. split; [apply last_snoc|]. done.
Qed.

(** C3: a refused caller reaches nothing.  If the caller is revoked or its scope
    is restricted away from the tool, neither a tool nor the upstream is called,
    whichever of the seven entry points the call comes through: the outside is
    left exactly as it was.  The answer is a 403 error, except that the two entry
    points that take a body read it first and answer one that is not JSON with
    the 400 of its own error. *)
Theorem refused_caller_reaches_nothing {W} `{SerdeJson} dbg jerr env (d : Dispatcher W)
    c tl args body record task p pr a2ui ov w :
  is_denied d p = true ∨ (∃ e, can_invoke dbg d p tl = Err e) →
  let answered {A} (status : Z) (x : result A TritonError * World W) :=
    (∃ e, x.1 = Err e ∧ http_status e = status) ∧ outside x.2 = outside w in
  let body_status := match parse_body jerr body with Ok _ => 403 | Err _ => 400 end%Z in
  answered 403%Z (invoke_with dbg d c tl args p pr ov w)
  ∧ answered body_status (invoke_with_bytes dbg jerr d c tl body p pr w)
  ∧ answered 403%Z (invoke_streaming_with dbg env d c tl args p pr a2ui ov w)
  ∧ answered body_status (invoke_streaming_with_bytes dbg jerr env d c tl body p pr a2ui w)
  ∧ answered 403%Z (resume_streaming_with dbg env d c tl task p pr ov w)
  ∧ answered 403%Z (read_resource dbg d c tl p w)
  ∧ answered 403%Z (update_model_context dbg d c tl record p w).
Proof.
  intros Href answered body_status.
  assert (∀ pr', ∃ m w', gate dbg d c tl pr' p w = (Some (Forbidden m), w')
    ∧ outside w' = outside w) as Hg.
  { intros pr'. destruct (gate_cases dbg d c tl pr' p w)
      as [(_ & Hd & Hc)|(m & w' & Hg & Ho & _)]; [|by exists m, w'].
    rewrite Hd, Hc in Href. naive_solver. }
  destruct (Hg pr) as (m & w' & E & Ho), (Hg §"mcp") as (m2 & w2 & E2 & Ho2).
  assert (∀ a ov', answered _ 403%Z (invoke_with dbg d c tl a p pr ov' w)) as Hi.
  { intros a ov'. unfold answered, invoke_with. rewrite E. split; [by eexists|exact Ho]. }
  assert (∀ a ov', answered _ 403%Z (invoke_streaming_with dbg env d c tl a p pr a2ui ov' w)) as Hs.
  { intros a ov'. unfold answered, invoke_streaming_with. rewrite E. split; [by eexists|exact Ho]. }
  split; [apply Hi|]. split; [|split; [apply Hs|split]].
  - unfold body_status, invoke_with_bytes. destruct (parse_body jerr body) as [a|e] eqn:Eb; [apply Hi|].
    apply parse_body_Err in Eb as [mb ->]. split; [by eexists|done].
  - unfold body_status, invoke_streaming_with_bytes. destruct (parse_body jerr body) as [a|e] eqn:Eb; [apply Hs|].
    apply parse_body_Err in Eb as [mb ->]. split; [by eexists|done].
  - unfold answered, resume_streaming_with, read_resource, update_model_context, mcp_dispatch.
    rewrite E, E2. cbn [fst snd]. repeat split; eauto.
Qed.

(** In-process tools cannot learn the inbound credential.  A buffered or
    streamed invocation of a registered tool gives the same answer, calls the
    tool with the same arguments and leaves the same audit trail whatever
    bearer token the caller presented. *)
Theorem raw_token_noninterference {W} dbg env (d : Dispatcher W)
    c tl args p pr a2ui ov w token :
  is_Some (registry d !! tl) →
  let p' := {| sub := sub p; scopes := scopes p; groups := groups p; tenant := tenant p;
               raw_token := token; trace_id := trace_id p; sender_ref := sender_ref p;
               conversation_ref := conversation_ref p; idp := idp p |} in
  invoke_with dbg d c tl args p' pr ov w = invoke_with dbg d c tl args p pr ov w
  ∧ invoke_streaming_with dbg env d c tl args p' pr a2ui ov w
    = invoke_streaming_with dbg env d c tl args p pr a2ui ov w.
Proof.
  intros [t Ht] p'.
  assert (gate dbg d c tl pr p' w = gate dbg d c tl pr p w) as Hg by done.
  unfold invoke_with, invoke_streaming_with, run. rewrite Hg, Ht. done.
Qed.

(** ** The operator's levers *)

(** A name an operator can list: not blank, no separator, no whitespace. *)
Definition listable (x : str) : Prop :=
  x ≠ [] ∧ has_whitespace x = false ∧ ("/"%char ∉ x) ∧ (","%char ∉ x).

Lemma count_byte_none c s : c ∉ s → count_byte c s = 0.
Proof.
  induction s as [|a s IH]; intros Hc; [done|]. unfold count_byte in *.
  rewrite filter_cons, decide_False by set_solver. apply IH. set_solver.
Qed.

Lemma parse_principal_listable t s :
  listable t → listable s → parse_principal (t ++ "/"%char :: s) = Some (t, s).
Proof.
  intros (Ht & Wt & St & _) (Hs & Ws & Ss & _). unfold parse_principal.
  rewrite split_once_app by done. rewrite !trim_none by done.
  assert (count_byte "/" (t ++ "/"%char :: s) = 1) as ->.
  { unfold count_byte. rewrite filter_app, filter_cons, decide_True by done.
    rewrite length_app. cbn [length].
    pose proof (count_byte_none _ _ St) as E1. pose proof (count_byte_none _ _ Ss) as E2.
    unfold count_byte in E1, E2. lia. }
  destruct t, s; done.
Qed.

Lemma parse_single_principal t s :
  listable t → listable s → parse_principal_set (t ++ "/"%char :: s) = {[ (t, s) ]}.
Proof.
  intros Ht Hs. unfold parse_principal_set.
  rewrite split_on_nosep.
  2: { destruct Ht as (_ & _ & _ & ?), Hs as (_ & _ & _ & ?). set_solver. }
  cbn [fmap list_fmap]. rewrite trim_none.
  2: { rewrite has_whitespace_sep by done. destruct Ht as (_ & -> & _), Hs as (_ & -> & _). done. }
  rewrite filter_cons, decide_True by (by destruct t).
  cbn [filter list_filter omap list_omap]. rewrite parse_principal_listable by done.
  cbn. set_solver.
Qed.

(** The revocation lever revokes exactly the named principal.  Listing
    [tenant/sub] denies that subject in that tenant and nobody else: not the
    same subject in another tenant, not another pair whose concatenation reads
    the same. *)
Theorem revocation_denies_exactly {W} reg env trio t s (p : Principal) :
  listable t → listable s →
  is_denied (Dispatcher_new (W := W) reg env trio
               (extend_denied_principals (t ++ "/"%char :: s) unenforced)) p = true
  ↔ tenant p = t ∧ sub p = s.
Proof.
  intros Ht Hs. unfold is_denied. cbn [Dispatcher_new denied denied_principals
    extend_denied_principals unenforced]. rewrite parse_single_principal by done.
  rewrite (bool_decide_eq_false_2 (∅ ∪ {[(t, s)]} = ∅)) by set_solver.
  rewrite bool_decide_eq_true. set_solver.
Qed.

Lemma revocation_denies_exactly_witness :
  is_denied (Dispatcher_new (W := unit) ∅ §"prod" ∅
    (extend_denied_principals §"acme/alice" unenforced))
    {| sub := §"alice"; scopes := []; groups := []; tenant := §"acme"; raw_token := [];
       trace_id := []; sender_ref := None; conversation_ref := None; idp := None |} = true.
Proof.
  apply (revocation_denies_exactly (W := unit) ∅ §"prod" ∅ §"acme" §"alice").
  - repeat split; try done; apply (bool_decide_unpack _); vm_compute; exact I.
  - repeat split; try done; apply (bool_decide_unpack _); vm_compute; exact I.
  - done.
Defined.

(** The scope gate.  A caller may invoke a tool exactly when it holds no
    restricted scope, or the first restricted scope among those it holds lists
    the tool. *)
Theorem scope_gate_spec {W} dbg (d : Dispatcher W) p tl :
  can_invoke dbg d p tl = Ok () ↔
  Forall (λ s, scope_restrictions d !! s = None) (scopes p)
  ∨ ∃ before held after allowed,
      scopes p = before ++ held :: after
      ∧ Forall (λ s, scope_restrictions d !! s = None) before
      ∧ scope_restrictions d !! held = Some allowed ∧ tl ∈ allowed.
Proof.
  unfold can_invoke. case_bool_decide as He.
  { split; [intros _; left|done]. apply Forall_forall. intros s _. rewrite He. apply lookup_empty. }
  destruct (list_find _ (scopes p)) as [[i held]|] eqn:Ef.
  - apply list_find_Some in Ef as (Hi & [allowed Ha] & Hbefore). rewrite Ha.
    assert (Forall (λ s, scope_restrictions d !! s = None) (take i (scopes p))) as Hfb.
    { apply Forall_lookup. intros j s Hj. apply lookup_take_Some in Hj as [Hj Hlt].
      specialize (Hbefore j s Hj Hlt). by apply eq_None_not_Some. }
    case_bool_decide as Ht; (split; [try done|]).
    + intros [Hf|(b & h & a & al & E & Hb & Hh & Hin)].
      { rewrite Forall_lookup in Hf. specialize (Hf i held Hi). congruence. }
      exfalso. assert (h = held ∧ length b = i) as [-> _]; [|simplify_eq; done].
      rewrite Forall_lookup in Hb. destruct (lt_eq_lt_dec (length b) i) as [[Hlt|Heq]|Hgt].
      * exfalso. apply (Hbefore (length b) h); [by rewrite E, list_lookup_middle|done|eauto].
      * subst i. rewrite E, list_lookup_middle in Hi by done. by simplify_eq.
      * exfalso. rewrite E, lookup_app_l in Hi by done. specialize (Hb i held Hi). congruence.
    + intros _. right. exists (take i (scopes p)), held, (drop (S i) (scopes p)), allowed.
      split; [by rewrite take_drop_middle|]. done.
    + done.
  - apply list_find_None in Ef. split; [intros _; left|done].
    eapply Forall_impl; [exact Ef|]. intros s Hs. by apply eq_None_not_Some.
Qed.

(** Restrictions do not compose.  A caller whose first restricted scope
    lists the tool may invoke it, whatever its other restricted scopes say: the
    order in which the scopes were granted decides. *)
Theorem later_restrictions_ignored {W} dbg (d : Dispatcher W) p tl held rest allowed :
  scopes p = held :: rest → scope_restrictions d !! held = Some allowed → tl ∈ allowed →
  can_invoke dbg d p tl = Ok ().
Proof.
  intros Hs Ha Hin. unfold can_invoke. case_bool_decide; [done|]. rewrite Hs.
  cbn [list_find]. rewrite decide_True by eauto. rewrite Ha.
  by rewrite bool_decide_eq_false_2 by (by intros []).
Qed.

(** Rejections at the boundary.  A refusal of an identified caller always
    writes its line, with the error's own words and status, whatever flood the
    window is absorbing; an anonymous one writes at most one; and every refusal
    is counted. *)
Theorem rejections_recorded {W} (d : Dispatcher W) when now tl pr sb tn tr e w :
  let w' := record_rejection d when now tl pr sb tn tr e w in
  audit_total (metrics w') = bump §"rejected" (audit_total (metrics w))
  ∧ outside w' = outside w
  ∧ (sinks w' = sinks w ∨ ∃ l, sinks w' = emit l (sinks w))
  ∧ (sb ≠ ANONYMOUS_SUBJECT →
     ∃ l, sinks w' = emit l (sinks w) ∧ rejects w' = rejects w
          ∧ phase l = Rejected ∧ subject l = sb ∧ status l = http_status e
          ∧ error_detail l = Some (to_string e) ∧ au_suppressed l = None).
Proof.
  cbv zeta. unfold record_rejection. case_decide as Hs.
  - destruct (admit_rejection now pr (rejects w)) as [[n|] rj]; cbn; repeat split; eauto; done.
  - cbn. repeat split; [eauto|]. intros _. eexists. repeat split.
Qed.

(** ** Witnesses: an echo tool that counts its calls *)

Definition echo_tool : ToolOps nat :=
  {| returns_a2ui := true; supports_streaming := false;
     invoke_with_context args _ _ n := (Returned (Ok args), S n);
     invoke_streaming_with_context args _ _ n := (Ok (once (StreamEvent.Done args)), S n) |}.

Definition echo_upstream : UpstreamDispatch nat :=
  default_upstream (λ _ args _ _ n, (Ok args, S n)).

Definition demo_dispatcher (u : option (UpstreamDispatch nat)) (c : DispatchControls)
    : Dispatcher nat :=
  {| registry := {[ §"echo" := echo_tool ]}; d_env := §"test"; upstream := u;
     denied := denied_principals c; scope_restrictions := scope_restrictions_c c;
     surfaces := ∅ |}.

Definition alice (scs : list str) : Principal :=
  {| sub := §"alice"; scopes := scs; groups := []; tenant := §"acme"; raw_token := §"tok";
     trace_id := §"t-1"; sender_ref := None; conversation_ref := None; idp := None |}.

Definition tick : Clock := {| c_when := §"now"; c_started := 0; c_finished := 5000000 |}.
Definition no_debug (_ : gset str) : str := [].
Definition no_surface (_ : A2uiVersion) (_ : Value) : result Value str := Err §"no surface".

Lemma every_stream_audited_once_witness :
  let d := demo_dispatcher (Some echo_upstream) unenforced in
  let w := World_new unenforced 0 in
  one_line w (settled_world d [] §"x" §"rest" (alice []) 0 0
    (resume_streaming_with no_debug no_surface d tick §"x" §"task" (alice []) §"rest"
       no_overrides w))
    (λ l, line_for §"x" §"rest" (alice []) l ∧ au_result l = §"error:validation"
          ∧ status l = 400%Z).
Proof.
  intros d w.
  exact (proj1 (proj1 (proj2 (proj2 (every_stream_audited_once (H := sample_json) no_debug (λ _, [])
    no_surface d tick §"x" Value.Null [] §"task" (alice []) §"rest" None no_overrides w [] 0 0))
    ltac:(discriminate)))).
Defined.

Lemma resume_without_upstream_unaudited_witness :
  let w := World_new unenforced 0 in
  stdout (sinks (resume_streaming_with no_debug no_surface (demo_dispatcher None unenforced)
    tick §"x" §"task" (alice []) §"rest" no_overrides w).2) = [].
Proof.
  intros w. rewrite (resume_without_upstream_unaudited no_debug no_surface
    (demo_dispatcher None unenforced) tick §"x" §"task" (alice []) §"rest" no_overrides w
    eq_refl eq_refl eq_refl). reflexivity.
Defined.

Lemma buffered_a2ui_failure_audited_ok_witness :
  let w := World_new unenforced 0 in
  let x := invoke_streaming_with no_debug no_surface (demo_dispatcher None unenforced) tick
             §"echo" Value.Null (alice []) §"rest" (Some V09) no_overrides w in
  ∃ l, last (stdout (sinks x.2)) = Some l ∧ au_result l = §"ok" ∧ status l = 200%Z.
Proof.
  intros w x.
  exact (proj2 (buffered_a2ui_failure_audited_ok no_debug no_surface
    (demo_dispatcher None unenforced) tick §"echo" Value.Null (alice []) §"rest" V09
    no_overrides w echo_tool Value.Null §"no surface" 1 _
    eq_refl eq_refl eq_refl eq_refl eq_refl eq_refl eq_refl eq_refl)).
Defined.

Lemma refused_caller_reaches_nothing_witness :
  let c := replace_scope_restriction §"pairing" [§"pair"] unenforced in
  let w := World_new c 0 in
  outside (invoke_with no_debug (demo_dispatcher None c) tick §"echo" Value.Null
             (alice [§"read"; §"pairing"]) §"rest" no_overrides w).2 = 0.
Proof.
  intros c w.
  refine (proj2 (proj1 (refused_caller_reaches_nothing (H := sample_json) no_debug (λ _, []) no_surface
    (demo_dispatcher None c) tick §"echo" Value.Null [] Value.Null [] (alice [§"read"; §"pairing"])
    §"rest" None no_overrides w _))).
  right. eexists. vm_compute. reflexivity.
Defined.

Lemma raw_token_noninterference_witness :
  let w := World_new unenforced 0 in
  invoke_with no_debug (demo_dispatcher None unenforced) tick §"echo" Value.Null
    {| sub := §"alice"; scopes := []; groups := []; tenant := §"acme"; raw_token := §"other";
       trace_id := §"t-1"; sender_ref := None; conversation_ref := None; idp := None |}
    §"rest" no_overrides w
  = invoke_with no_debug (demo_dispatcher None unenforced) tick §"echo" Value.Null (alice [])
      §"rest" no_overrides w.
Proof.
  intros w.
  exact (proj1 (raw_token_noninterference no_debug no_surface
    (demo_dispatcher None unenforced) tick §"echo" Value.Null (alice []) §"rest" None
    no_overrides w §"other" (ex_intro _ echo_tool eq_refl))).
Defined.

Lemma later_restrictions_ignored_witness :
  let c := replace_scope_restriction §"a" [§"echo"]
             (replace_scope_restriction §"b" [§"other"] unenforced) in
  can_invoke no_debug (demo_dispatcher None c) (alice [§"a"; §"b"]) §"echo" = Ok ().
Proof.
  intros c. apply (later_restrictions_ignored no_debug (demo_dispatcher None c)
    (alice [§"a"; §"b"]) §"echo" §"a" [§"b"] {[ §"echo" ]}).
  - reflexivity.
  - vm_compute. reflexivity.
  - apply elem_of_singleton. reflexivity.
Defined.

Lemma rejections_recorded_witness :
  let w := World_new unenforced tt in
  ∃ l, sinks (record_rejection (W := unit)
         {| registry := ∅; d_env := []; upstream := None; denied := ∅;
            scope_restrictions := ∅; surfaces := ∅ |}
         [] 0 §"echo" §"rest" §"alice" §"acme" [] (Auth §"bad token") w)
       = emit l (sinks w) ∧ status l = 401%Z.
Proof.
  intros w.
  destruct (rejections_recorded (W := unit)
    {| registry := ∅; d_env := []; upstream := None; denied := ∅;
       scope_restrictions := ∅; surfaces := ∅ |}
    [] 0 §"echo" §"rest" §"alice" §"acme" [] (Auth §"bad token") w) as (_ & _ & _ & H).
  destruct (H ltac:(done)) as (l & E & _ & _ & _ & S & _). exists l. split; [exact E|exact S].
Defined.
