(* ===== verification/Gateway.v ===== *)
(** * Gateway: the dispatcher wired to the static router
    (crates/triton-upstream/src/static_upstream.rs, [impl UpstreamDispatch])

    [static_upstream] is the instance of the dispatcher's [UpstreamDispatch]
    interface that the binary wires; the theorems compose the audit guarantee
    of [Dispatcher] with the circuit breaker of [Upstream]. *)

From S2P Require Import Prelude Json Errors Principal RateLimit Stream Context.
From S2P Require Import Upstream AuditLog Dispatcher.

Section Instance_.
Variable jwt_encode : str → Value → result str str.
Variable env : Env.
Variable net : Request → StreamOutcome.
(** The decoded events of the stream a request opened. *)
Variable events : option Request → list (Z * Poll).
(** The instant at which the stream's own finalizer reads the clock. *)
Variable at_end : Z.
Variable u : StaticUpstream.

Definition set_breaker (key : str) (b : Breaker) (st : UpstreamState) : UpstreamState :=
  {| breakers := <[key := b]> (breakers st);
     groups_dropped_warned := groups_dropped_warned st |}.

(** [open_stream] as the dispatcher sees it: the finalizer updates the slot
    it holds. *)
Definition stream_of (tool : str)
    (x : result Opened TritonError * option Request * UpstreamState)
    : result (BoxStream UpstreamState) TritonError * UpstreamState :=
  let '(r, req, st) := x in
  (match r with
   | Err e => Err e
   | Ok (Upstream.Buffered v) => Ok (once (StreamEvent.Done v))
   | Ok (Streaming probe) =>
       Ok {| answers := events req;
             settle term st :=
               set_breaker tool (stream_finalizer at_end u probe term (breaker_slot tool st))
                 st |}
   end, st).

Definition static_upstream : UpstreamDispatch UpstreamState :=
  {| up_invoke tool args p ctx st :=
       let '((r, _), st1) := upstream_invoke jwt_encode env u tool args p ctx st in (r, st1);
     up_invoke_streaming tool args p ctx st :=
       stream_of tool (open_stream jwt_encode env net u tool args p ctx None st);
     up_resume_streaming tool task args p ctx st :=
       stream_of tool (open_stream jwt_encode env net u tool args p ctx (Some task) st);
     up_read_resource uri p ctx st :=
       let '((r, _), st1) := upstream_read_resource jwt_encode env u uri p ctx st in (r, st1);
     up_update_model_context uri record p ctx st :=
       let '((r, _), st1) :=
         upstream_update_model_context jwt_encode env u uri record p ctx st in (r, st1) |}.
End Instance_.

Lemma set_breaker_slot key b st : breaker_slot key (set_breaker key b st) = b.
Proof. apply breaker_slot_insert. Qed.

(** An open circuit, end to end.  While a tool's breaker is open and its
    cooldown has not elapsed, an admitted caller's invocation of that upstream
    tool answers a 503 error, its single audit line says [error:tool] and 503,
    and the breaker is left as it was. *)
Theorem open_circuit_audited_503 jwt env net events at_end u dbg
    (d : Dispatcher UpstreamState) c tl args p pr ov w t :
  upstream d = Some (static_upstream jwt env net events at_end u) →
  registry d !! tl = None → is_denied d p = false → can_invoke dbg d p tl = Ok () →
  state (breaker_slot tl (outside w)) = Open →
  opened_at (breaker_slot tl (outside w)) = Some t →
  (elapsed (at_check env) t < circuit_cooldown u)%Z →
  let x := invoke_with dbg d c tl args p pr ov w in
  (∃ e, x.1 = Err e ∧ http_status e = 503%Z)
  ∧ one_line w x.2 (λ l, line_for tl pr p l ∧ au_result l = §"error:tool" ∧ status l = 503%Z)
  ∧ breaker_slot tl (outside x.2) = breaker_slot tl (outside w).
Proof.
  intros Hu Hr Hd Hc Ho Ht Hcool x.
  pose proof (invoke_with_line dbg d c tl args p pr ov w) as Hl. fold x in Hl.
  assert (http_status (circuit_open_error u tl) = 503%Z) as H503
    by apply (http_status_circuit_open (§": " ++ tl ++ _)).
  assert (x.1 = Err (circuit_open_error u tl)
    ∧ breaker_slot tl (outside x.2) = breaker_slot tl (outside w)) as [E1 E2].
  { subst x. unfold invoke_with, gate, run. rewrite Hd, Hc, Hr, Hu.
    cbn [static_upstream up_invoke]. unfold upstream_invoke.
    set (call := do_dispatch _ _ _ _ _ _ _).
    pose proof (guarded_eq env u tl p call (outside w)) as G.
    unfold check_and_arm in G. rewrite Ho, Ht, (proj2 (Z.leb_gt _ _) Hcool) in G.
    destruct G as [G1 G2]. destruct (guarded _ _ _ _ _ _) as [[r req] st1].
    cbn [fst snd allowed] in *. simplify_eq. done. }
  split; [eauto|]. split; [|done].
  eapply one_line_impl; [|exact Hl]. intros l [Hf Ho']. rewrite E1 in Ho'.
  cbn [line_outcome] in Ho'. rewrite H503 in Ho'. done.
Qed.

(** A streaming probe, end to end.  When the cooldown of an open breaker
    has elapsed and an admitted caller's streamed invocation opens an event
    stream, then once the adapter is done with it, however it was consumed,
    exactly one audit line has been written and the breaker has left the
    half-open state: closed when the agent completed, reopened otherwise. *)
Theorem streamed_probe_end_to_end jwt env net events at_end u dbg a2
    (d : Dispatcher UpstreamState) c tl args p pr ver ov w t when opened at_drop term s off :
  upstream d = Some (static_upstream jwt env net events at_end u) →
  registry d !! tl = None → is_denied d p = false → can_invoke dbg d p tl = Ok () →
  state (breaker_slot tl (outside w)) = Open →
  opened_at (breaker_slot tl (outside w)) = Some t →
  (circuit_cooldown u ≤ elapsed (at_check env) t)%Z →
  let x := invoke_streaming_with dbg a2 d c tl args p pr ver ov w in
  x.1 = Ok (Audited term s off) →
  let w' := (consume d when tl pr p opened at_drop (Audited term s off) x.2).2 in
  one_line w w' (λ l, line_for tl pr p l ∧ line_termination (classify (snd <$> answers s)) l)
  ∧ state (breaker_slot tl (outside w')) =
      match term with Completed => Closed | _ => Open end.
Proof.
  intros Hu Hr Hd Hc Ho Ht Hcool x Hx w'.
  assert (outside w' = settle s term (outside x.2)) as Ew.
  { subst w'. unfold consume. destruct (poll_run _ _) as [out f]. cbn [fst snd].
    generalize (fired (drop_finalized at_drop f)). intros fs.
    assert (∀ v, outside (fold_left (λ w '(term, tm),
      emit_stream_audit d when tl pr p off term tm w) fs v) = outside v) as ->; [|done].
    induction fs as [|[tt tm] fs IH]; intros v; [done|]. cbn [fold_left]. rewrite IH.
    unfold emit_stream_audit. by destruct tt. }
  split.
  { pose proof (invoke_streaming_line dbg a2 d c tl args p pr ver ov w when opened at_drop) as Hl.
    cbv zeta in Hl. fold x in Hl. unfold settled_world in Hl. rewrite Hx in Hl. exact Hl. }
  rewrite Ew. clear Ew w'.
  revert Hx. subst x. unfold invoke_streaming_with, gate. rewrite Hd, Hc, Hr, Hu.
  cbn [static_upstream up_invoke_streaming]. unfold stream_of.
  pose proof (λ term, open_stream_probe jwt env net u tl (prepare_args args ov) p
    (dispatch_context pr (surfaces d) ov) None (outside w) t at_end term Ho Ht Hcool) as P.
  destruct (open_stream _ _ _ _ _ _ _ _ _ _) as [[r req] st] eqn:Eo. cbn [fst snd].
  destruct r as [[v|probe]|e]; cbn; [|intros [= <- <- <-]|done].
  - intros [= <- <- <-].
    (* a buffered answer: the breaker was settled at once *)
    assert (is_Some req) as Hreq.
    { revert Eo. unfold open_stream. destruct (breaker_check _ _ _ _) as [perm st1].
      repeat (case_match; try (intros; simplify_eq; done)); intros; simplify_eq; eauto. }
    specialize (P Completed Hreq). destruct ver; cbn; rewrite P; cbn; auto.
  - assert (is_Some req) as Hreq.
    { revert Eo. unfold open_stream. destruct (breaker_check _ _ _ _) as [perm st1].
      repeat (case_match; try (intros; simplify_eq; done)); intros; simplify_eq; eauto. }
    set (term := classify _). destruct (P term Hreq) as [-> E].
    assert (∀ S : BoxStream UpstreamState, settle (wrap_stream_a2ui a2 ver S) = settle S) as ->
      by (by destruct ver).
    cbn [settle outside set_outside]. rewrite set_breaker_slot, E.
    by destruct term.
Qed.

(** ** Witnesses *)

Definition demo_net (_ : Request) : StreamOutcome := StreamResponse 200 §"200 OK" EventStream.
Definition demo_events (_ : option Request) : list (Z * Poll) :=
  [(1%Z, Item (StreamEvent.Token §"hi")); (2%Z, Item (StreamEvent.Done Value.Null))].

Definition gateway (now : Z) : Dispatcher UpstreamState :=
  {| registry := ∅; d_env := §"test";
     upstream := Some (static_upstream demo_jwt (demo_env now healthy) demo_net demo_events 0
                         (demo_router None));
     denied := ∅; scope_restrictions := ∅; surfaces := ∅ |}.

Lemma open_circuit_audited_503_witness :
  let w := World_new unenforced tripped_state in
  ∃ e, (invoke_with no_debug (gateway 500) tick §"greet" Value.Null (alice []) §"rest"
          no_overrides w).1 = Err e ∧ http_status e = 503%Z.
Proof.
  intros w.
  exact (proj1 (open_circuit_audited_503 demo_jwt (demo_env 500 healthy) demo_net demo_events 0
    (demo_router None) no_debug (gateway 500) tick §"greet" Value.Null (alice []) §"rest"
    no_overrides w 20 eq_refl eq_refl eq_refl eq_refl eq_refl eq_refl ltac:(done))).
Defined.

Lemma streamed_probe_end_to_end_witness :
  let w := World_new unenforced tripped_state in
  let x := invoke_streaming_with no_debug no_surface (gateway 2000) tick §"greet" Value.Null
             (alice []) §"rest" None no_overrides w in
  ∃ s off, x.1 = Ok (Audited Completed s off)
    ∧ state (breaker_slot §"greet" (outside
        (consume (gateway 2000) [] §"greet" §"rest" (alice []) 0 9
           (Audited Completed s off) x.2).2)) = Closed.
Proof.
  intros w x. eexists _, _. split; [reflexivity|].
  apply (streamed_probe_end_to_end demo_jwt (demo_env 2000 healthy) demo_net demo_events 0
    (demo_router None) no_debug no_surface (gateway 2000) tick §"greet" Value.Null (alice [])
    §"rest" None no_overrides w 20 [] 0 9 Completed _ _ eq_refl eq_refl eq_refl eq_refl
    eq_refl eq_refl ltac:(done) eq_refl).
Defined.
