(* ===== verification/Tasks.v ===== *)
(** * Tasks: long-running tasks (crates/triton-tasks/src/lib.rs)

    The task store over either backend, the hub of live tasks, and the runner
    that drives one dispatch to its end.  A backend is a class of operations
    with laws; the memory backend and the SQLite table are its instances, and
    the store's theorems are proved against the laws.  The runner's loop is a
    function of what each opened stream delivers, with the readings of the two
    clocks; everything it sends, stores and calls is in its state. *)

From stdpp Require Import sorting.
From S2P Require Import Prelude Json Errors Principal Context Stream.

Module TaskState.
Inductive t := Submitted | Working | Completed | Failed.
End TaskState.
Abbreviation TaskState := TaskState.t.

#[export] Instance TaskState_eq_dec : EqDecision TaskState.
Proof. solve_decision. Defined.

Definition state_is_terminal (s : TaskState) : bool :=
  match s with TaskState.Completed | TaskState.Failed => true | _ => false end.

Record Progress := {
  p_text : str;
  p_step : option str;
  p_percent : option Z;
}.

Record TaskRecord := {
  id : str;
  context_id : str;
  t_state : TaskState;
  owner : option str;
  t_tool : str;
  upstream_task_id : option str;
  check_after_seconds : option Z;
  progress : option Progress;
  receipt : option str;
  note : option str;
  result_text : option str;
  t_result : option Value;
  error : option str;
  error_class : option str;
  t_protocol : str;
  t_triton_meta : option JsonMap;
  delivery : option Value;
  created_ms : Z;
  updated_ms : Z;
}.

Definition TaskRecord_new (now : Z) (i ctx tool : str) (own : option str) : TaskRecord :=
  {| id := i; context_id := ctx; t_state := TaskState.Submitted; owner := own; t_tool := tool;
     upstream_task_id := None; check_after_seconds := None; progress := None;
     receipt := None; note := None; result_text := None; t_result := None; error := None;
     error_class := None; t_protocol := §"a2a"; t_triton_meta := None; delivery := None;
     created_ms := now; updated_ms := now |}.

(** ** Record updates (the closures the runner passes to [update_running]) *)

Definition set_updated (now : Z) (r : TaskRecord) : TaskRecord :=
  {| id := id r; context_id := context_id r; t_state := t_state r; owner := owner r;
     t_tool := t_tool r; upstream_task_id := upstream_task_id r;
     check_after_seconds := check_after_seconds r; progress := progress r;
     receipt := receipt r; note := note r; result_text := result_text r;
     t_result := t_result r; error := error r; error_class := error_class r;
     t_protocol := t_protocol r; t_triton_meta := t_triton_meta r; delivery := delivery r;
     created_ms := created_ms r; updated_ms := now |}.

Definition set_failed (cls msg : str) (r : TaskRecord) : TaskRecord :=
  {| id := id r; context_id := context_id r; t_state := TaskState.Failed; owner := owner r;
     t_tool := t_tool r; upstream_task_id := upstream_task_id r;
     check_after_seconds := check_after_seconds r; progress := progress r;
     receipt := receipt r; note := note r; result_text := result_text r;
     t_result := t_result r; error := Some msg; error_class := Some cls;
     t_protocol := t_protocol r; t_triton_meta := t_triton_meta r; delivery := delivery r;
     created_ms := created_ms r; updated_ms := updated_ms r |}.

Definition set_completed (text : str) (v : option Value) (r : TaskRecord) : TaskRecord :=
  {| id := id r; context_id := context_id r; t_state := TaskState.Completed; owner := owner r;
     t_tool := t_tool r; upstream_task_id := upstream_task_id r;
     check_after_seconds := check_after_seconds r; progress := progress r;
     receipt := receipt r; note := note r; result_text := Some text;
     t_result := v; error := error r; error_class := error_class r;
     t_protocol := t_protocol r; t_triton_meta := t_triton_meta r; delivery := delivery r;
     created_ms := created_ms r; updated_ms := updated_ms r |}.

Definition set_progress (p : Progress) (r : TaskRecord) : TaskRecord :=
  {| id := id r; context_id := context_id r; t_state := t_state r; owner := owner r;
     t_tool := t_tool r; upstream_task_id := upstream_task_id r;
     check_after_seconds := check_after_seconds r; progress := Some p;
     receipt := receipt r; note := note r; result_text := result_text r;
     t_result := t_result r; error := error r; error_class := error_class r;
     t_protocol := t_protocol r; t_triton_meta := t_triton_meta r; delivery := delivery r;
     created_ms := created_ms r; updated_ms := updated_ms r |}.

(** [keep_old] for a task already stored: an absent receipt or note leaves the
    old one. *)
Definition set_async (keep_old : bool) (up : str) (check : option Z) (rc nt : option str)
    (r : TaskRecord) : TaskRecord :=
  let pick (new old : option str) :=
    if keep_old then (if bool_decide (is_Some new) then new else old) else new in
  {| id := id r; context_id := context_id r; t_state := t_state r; owner := owner r;
     t_tool := t_tool r; upstream_task_id := Some up;
     check_after_seconds := check; progress := progress r;
     receipt := pick rc (receipt r); note := pick nt (note r); result_text := result_text r;
     t_result := t_result r; error := error r; error_class := error_class r;
     t_protocol := t_protocol r; t_triton_meta := t_triton_meta r; delivery := delivery r;
     created_ms := created_ms r; updated_ms := updated_ms r |}.

Definition set_started (protocol : str) (meta : JsonMap) (r : TaskRecord) : TaskRecord :=
  {| id := id r; context_id := context_id r; t_state := TaskState.Working; owner := owner r;
     t_tool := t_tool r; upstream_task_id := upstream_task_id r;
     check_after_seconds := check_after_seconds r; progress := progress r;
     receipt := receipt r; note := note r; result_text := result_text r;
     t_result := t_result r; error := error r; error_class := error_class r;
     t_protocol := protocol;
     t_triton_meta := if is_empty meta then t_triton_meta r else Some meta;
     delivery := delivery r; created_ms := created_ms r; updated_ms := updated_ms r |}.

(** ** Helpers *)

Definition owner_key (p : Principal) : str :=
  let issuer := match idp p with
                | Some i => default (name i) (issuer i)
                | None => §"-"
                end in
  issuer ++ §"|" ++ sub p ++ §"|" ++ tenant p.

Definition RESULT_TEXT_MAX_BYTES : nat := Z.to_nat (32 * 1024).
Definition RESULT_JSON_MAX_BYTES : Z := 256 * 1024.
Definition MEMORY_CAPACITY : nat := 1024.
Definition LIST_MAX : nat := 1000.
Definition PRUNE_EVERY : Z := 256.

(** The ellipsis U+2026. *)
Definition ellipsis : str := ascii_of_N <$> [0xE2; 0x80; 0xA6]%N.

Definition clamp (s : str) (max : nat) : str :=
  if (length s <=? max)%nat then s
  else take (floor_char_boundary s max) s ++ ellipsis.

(** ** The backends *)

(** A write takes the engine's error, if it fails, and the cutoff a prune would
    use. *)
Class Backend (S : Type) := {
  b_get : str → S → option TaskRecord;
  b_put : option str → Z → TaskRecord → S → result unit str * S;
  b_rows : S → list TaskRecord;
  (** the rows an owner's list starts from *)
  b_owned : str → S → list TaskRecord;
}.

(** What the store relies on. *)
Class BackendLaws (S : Type) `{Backend S} := {
  b_wf : S → Prop;
  (** rows are stored under their own id *)
  wf_id s i r : b_wf s → b_get i s = Some r → id r = i;
  put_wf fails cut r s : b_wf s → b_wf (b_put fails cut r s).2;
  (** a write that is acknowledged can be read back *)
  put_get fails cut r s :
    b_wf s → (cut ≤ updated_ms r)%Z → (b_put fails cut r s).1 = Ok () →
    b_get (id r) (b_put fails cut r s).2 = Some r;
  (** and nothing else is read back under its id *)
  put_own fails cut r s r' :
    b_wf s → (b_put fails cut r s).1 = Ok () →
    b_get (id r) (b_put fails cut r s).2 = Some r' → r' = r;
  (** only a failing write is refused *)
  put_accepts cut r s : (b_put None cut r s).1 = Ok ();
  (** a refused write changes nothing *)
  put_refused fails cut r s e : (b_put fails cut r s).1 = Err e → (b_put fails cut r s).2 = s;
  (** no write drops another task that is running and within retention *)
  put_keeps fails cut r s r' :
    b_wf s → id r' ≠ id r → b_get (id r') s = Some r' →
    state_is_terminal (t_state r') = false → (cut ≤ updated_ms r')%Z →
    b_get (id r') (b_put fails cut r s).2 = Some r';
  (** and none changes another task *)
  put_other fails cut r s i r' :
    b_wf s → i ≠ id r → b_get i (b_put fails cut r s).2 = Some r' → b_get i s = Some r';
  (** the owner a task is filed under; [b_owned] selects by it, and drops
      something only from an owner with more than [LIST_MAX] tasks *)
  b_owner : str → S → option str;
  owned_sound own s r :
    b_wf s → r ∈ b_owned own s → r ∈ b_rows s ∧ b_owner (id r) s = Some own;
  owned_complete own s :
    b_wf s → length (filter (λ r, b_owner (id r) s = Some own) (b_rows s)) ≤ LIST_MAX →
    b_owned own s ≡ₚ filter (λ r, b_owner (id r) s = Some own) (b_rows s);
}.

(** *** Memory *)

Record Memory := { rows : gmap str TaskRecord; order : list str }.

Definition Memory_default : Memory := {| rows := ∅; order := [] |}.

Definition evictable (m : Memory) (i : str) : bool :=
  match rows m !! i with Some r => state_is_terminal (t_state r) | None => true end.

(** One round of the eviction loop. *)
Definition evict_one (m : Memory) : Memory :=
  let victim := match list_find (λ i, evictable m i = true) (order m) with
                | Some (n, _) => n
                | None => 0
                end in
  match order m !! victim with
  | Some old => {| rows := delete old (rows m); order := delete victim (order m) |}
  | None => m
  end.

Definition memory_put (r : TaskRecord) (m : Memory) : Memory :=
  let m1 := if bool_decide (is_Some (rows m !! id r)) then m
            else
              let m0 := {| rows := rows m; order := order m ++ [id r] |} in
              Nat.iter (length (order m0) - MEMORY_CAPACITY) evict_one m0 in
  {| rows := <[id r := r]> (rows m1); order := order m1 |}.

#[export] Instance memory_backend : Backend Memory := {|
  b_get i m := rows m !! i;
  b_put _ _ r m := (Ok (), memory_put r m);
  b_rows m := (map_to_list (rows m)).*2;
  b_owned own m := filter (λ r, owner r = Some own) (map_to_list (rows m)).*2;
|}.

(** *** SQLite: the table [triton_tasks] and the count of writes.  The columns
    beside [record] are written on insert; a conflicting write updates
    [updated_ms] and [record] only. *)

Record Row := {
  row_owner : option str;
  row_context : str;
  row_created : Z;
  row_updated : Z;
  row_record : TaskRecord;
}.

Record Sqlite := { table : gmap str Row; writes : Z }.

Definition prune_table (cutoff : Z) (t : gmap str Row) : gmap str Row :=
  filter (λ kv, (cutoff ≤ row_updated kv.2)%Z) t.

Definition upsert (r : TaskRecord) (t : gmap str Row) : gmap str Row :=
  let row := match t !! id r with
             | Some old => {| row_owner := row_owner old; row_context := row_context old;
                              row_created := row_created old; row_updated := updated_ms r;
                              row_record := r |}
             | None => {| row_owner := owner r; row_context := context_id r;
                          row_created := created_ms r; row_updated := updated_ms r;
                          row_record := r |}
             end in
  <[id r := row]> t.

Definition sqlite_put (fails : option str) (cutoff : Z) (r : TaskRecord) (s : Sqlite)
    : result unit str * Sqlite :=
  match fails with
  | Some e => (Err (§"task store write failed: " ++ e), s)
  | None =>
      let t := upsert r (table s) in
      let t := if (writes s mod PRUNE_EVERY =? PRUNE_EVERY - 1)%Z
               then prune_table cutoff t else t in
      (Ok (), {| table := t; writes := u64_wrap (writes s + 1) |})
  end.

(** [TaskStore::sqlite] on a file that holds [t]: opening prunes. *)
Definition sqlite_open (cutoff : Z) (t : gmap str Row) : Sqlite :=
  {| table := prune_table cutoff t; writes := 0 |}.

(** [SELECT ... WHERE owner = ? ORDER BY created_ms DESC LIMIT ?]; the order of
    rows created at the same time is the engine's. *)
Definition created_later (a b : Row) : Prop := (row_created b ≤ row_created a)%Z.
#[global] Instance created_later_dec : RelDecision created_later.
Proof. unfold RelDecision, created_later. intros a b. apply _. Defined.

Definition select_owner (own : str) (t : gmap str Row) : list Row :=
  take LIST_MAX (merge_sort created_later
    (filter (λ row, row_owner row = Some own) (map_to_list t).*2)).

#[export] Instance sqlite_backend : Backend Sqlite := {|
  b_get i s := row_record <$> table s !! i;
  b_put := sqlite_put;
  b_rows s := row_record <$> (map_to_list (table s)).*2;
  b_owned own s := row_record <$> select_owner own (table s);
|}.

(** *** The laws hold of both *)

(** When a new id is queued, the loop drops at most one id, and one without a
    running row: the new id itself qualifies. *)
Lemma evict_one_spec m :
  (∃ i, i ∈ order m ∧ evictable m i = true) →
  ∃ old, evictable m old = true ∧ rows (evict_one m) = delete old (rows m)
         ∧ S (length (order (evict_one m))) = length (order m).
Proof.
  intros (i & Hi & He). unfold evict_one.
  destruct (list_find _ (order m)) as [[n j]|] eqn:Ef.
  - apply list_find_Some in Ef as (Hn & Hj & _). rewrite Hn. exists j.
    split; [done|]. split; [done|]. cbn [order].
    pose proof (lookup_lt_Some _ _ _ Hn). rewrite length_delete by eauto. lia.
  - apply list_find_None in Ef. rewrite Forall_forall in Ef. by destruct (Ef i Hi).
Qed.

Lemma memory_put_spec r m i :
  length (order m) ≤ MEMORY_CAPACITY →
  length (order (memory_put r m)) ≤ MEMORY_CAPACITY
  ∧ (i ≠ id r →
     rows (memory_put r m) !! i = rows m !! i
     ∨ (rows (memory_put r m) !! i = None ∧ evictable m i = true)).
Proof.
  intros Hl. unfold memory_put. case_bool_decide as Hin.
  { split; [done|]. intros Hne. left. cbn. by rewrite lookup_insert_ne. }
  set (m0 := {| rows := rows m; order := order m ++ [id r] |}).
  assert (length (order m0) = S (length (order m))) as E0
    by (cbn; rewrite length_app; cbn; lia).
  apply eq_None_not_Some in Hin.
  destruct (length (order m0) - MEMORY_CAPACITY) as [|[|k]] eqn:Ek; [| |lia].
  { cbn [Nat.iter nat_rect order rows]. split; [lia|]. intros Hne. left.
    by rewrite lookup_insert_ne. }
  cbn [Nat.iter nat_rect].
  destruct (evict_one_spec m0) as (old & He & Er & Ho).
  { exists (id r). split; [cbn; set_solver|]. unfold evictable. cbn. by rewrite Hin. }
  split; [cbn [order]; lia|]. intros Hne. cbn [rows]. rewrite Er, lookup_insert_ne by done.
  destruct (decide (i = old)) as [->|]; [right|left; by rewrite lookup_delete_ne].
  split; [apply lookup_delete_eq|done].
Qed.

Definition memory_wf (m : Memory) : Prop :=
  length (order m) ≤ MEMORY_CAPACITY ∧ map_Forall (λ i r, id r = i) (rows m).

(** A test that agrees on the elements selects the same ones. *)
Lemma filter_ext_elem {A} (P Q : A → Prop) `{∀ x, Decision (P x), ∀ x, Decision (Q x)} (l : list A) :
  (∀ x, x ∈ l → P x ↔ Q x) → filter P l = filter Q l.
Proof.
  induction l as [|x l IH]; intros Hl; [done|]. rewrite !filter_cons.
  rewrite IH by set_solver. destruct (decide (P x)), (decide (Q x)); set_solver.
Qed.

Lemma filter_fmap {A B} (f : A → B) (P : B → Prop) `{∀ x, Decision (P x)} (l : list A) :
  filter P (f <$> l) = f <$> filter (λ x, P (f x)) l.
Proof. induction l as [|x l IH]; [done|]. cbn [fmap list_fmap]. rewrite !filter_cons, IH. by case_decide. Qed.

Lemma memory_row (m : Memory) r :
  map_Forall (λ i r, id r = i) (rows m) → r ∈ (map_to_list (rows m)).*2 →
  rows m !! id r = Some r.
Proof.
  intros Hid ([i r'] & -> & Hr)%list_elem_of_fmap. apply elem_of_map_to_list in Hr.
  cbn. by rewrite (Hid _ _ Hr).
Qed.

#[export] Instance memory_laws : BackendLaws Memory.
Proof.
  refine {| b_wf := memory_wf; b_owner i m := rows m !! i ≫= owner |}.
  - intros m i r [_ Hm] Hr. by apply Hm.
  - intros ? ? r m [Hm Hid]. split; [by apply (memory_put_spec r m [])|].
    intros i r' Hi. destruct (decide (i = id r)) as [->|Hne].
    { cbn in Hi. rewrite lookup_insert_eq in Hi. by simplify_eq. }
    apply Hid. destruct (memory_put_spec r m i Hm) as (_ & [E|[E _]]); [done|..];
      cbn [b_put memory_backend snd] in Hi; congruence.
  - intros ? ? r m Hm _ _. cbn. by rewrite lookup_insert_eq.
  - intros ? ? r m r' _ _. cbn. rewrite lookup_insert_eq. by intros [= ->].
  - done.
  - done.
  - intros ? ? r m r' [Hm _] Hne Hg Hs _. cbn [b_get b_put memory_backend snd fst] in *.
    destruct (memory_put_spec r m (id r') Hm) as (_ & [->|[_ He]]); [done..|].
    unfold evictable in He. rewrite Hg in He. congruence.
  - intros ? ? r m i r' [Hm _] Hne. cbn [b_get b_put memory_backend snd fst].
    destruct (memory_put_spec r m i Hm) as (_ & [->|[-> _]]); done.
  - intros own m r [_ Hid] [Ho Hr]%list_elem_of_filter. split; [done|].
    by rewrite (memory_row m r Hid Hr).
  - intros own m [_ Hid] _. cbn. apply reflexive_eq, filter_ext_elem.
    intros r Hr. by rewrite (memory_row m r Hid Hr).
Defined.

Definition sqlite_wf (s : Sqlite) : Prop :=
  map_Forall (λ i row, row_updated row = updated_ms (row_record row)
                       ∧ id (row_record row) = i) (table s).

Lemma upsert_lookup r t : ∃ row, upsert r t = <[id r := row]> t
  ∧ row_record row = r ∧ row_updated row = updated_ms r.
Proof. unfold upsert. destruct (t !! id r); eauto. Qed.

Lemma sqlite_put_lookup cut r s i :
  sqlite_wf s → i ≠ id r →
  table (sqlite_put None cut r s).2 !! i = table s !! i
  ∨ (table (sqlite_put None cut r s).2 !! i = None
     ∧ ∃ row, table s !! i = Some row ∧ (row_updated row < cut)%Z).
Proof.
  intros Hwf Hne. unfold sqlite_put. cbn [snd table].
  destruct (upsert_lookup r (table s)) as (row & -> & _).
  destruct (writes s mod PRUNE_EVERY =? PRUNE_EVERY - 1)%Z;
    [|left; by rewrite lookup_insert_ne].
  unfold prune_table. rewrite map_lookup_filter, lookup_insert_ne by done.
  destruct (table s !! i) as [row'|] eqn:E; [|by left]. cbn.
  destruct (decide (cut ≤ row_updated row')%Z).
  - left. rewrite option_guard_True by done. done.
  - right. rewrite option_guard_False by done. split; [done|]. exists row'. split; [done|lia].
Qed.

Lemma sqlite_put_own cut r s :
  (cut ≤ updated_ms r)%Z →
  ∃ row, table (sqlite_put None cut r s).2 !! id r = Some row ∧ row_record row = r
         ∧ row_updated row = updated_ms r.
Proof.
  intros Hc. unfold sqlite_put. cbn [snd table].
  destruct (upsert_lookup r (table s)) as (row & -> & Hr & Hu). exists row.
  destruct (_ =? _)%Z; [|by rewrite lookup_insert_eq].
  unfold prune_table. rewrite map_lookup_filter, lookup_insert_eq. cbn.
  rewrite option_guard_True by (cbn; lia). done.
Qed.

Lemma sqlite_put_reads cut r s row :
  table (sqlite_put None cut r s).2 !! id r = Some row → row_record row = r.
Proof.
  unfold sqlite_put. cbn [snd table].
  destruct (upsert_lookup r (table s)) as (new & -> & Hr & _).
  destruct (_ =? _)%Z; [intros [E _]%map_lookup_filter_Some|intros E];
    rewrite lookup_insert_eq in E; by simplify_eq.
Qed.

Lemma sqlite_row s row :
  sqlite_wf s → row ∈ (map_to_list (table s)).*2 →
  table s !! id (row_record row) = Some row.
Proof.
  intros Hs ([i row'] & -> & Hr)%list_elem_of_fmap. apply elem_of_map_to_list in Hr.
  cbn. by rewrite (proj2 (Hs _ _ Hr)).
Qed.

#[export] Instance sqlite_laws : BackendLaws Sqlite.
Proof.
  refine {| b_wf := sqlite_wf; b_owner i s := table s !! i ≫= row_owner |}.
  - intros s i r Hs. cbn. destruct (table s !! i) as [row|] eqn:E; [|done].
    intros [= <-]. by destruct (Hs _ _ E).
  - intros fails cut r s Hs. destruct fails; [done|]. intros i row Hi.
    cbn in Hi. destruct (upsert_lookup r (table s)) as (new & E & Hr & Hu).
    rewrite E in Hi.
    assert (<[id r := new]> (table s) !! i = Some row) as Hi'.
    { revert Hi. destruct (_ =? _)%Z; [|done]. unfold prune_table.
      intros [? _]%map_lookup_filter_Some. done. }
    apply lookup_insert_Some in Hi' as [[<- <-]|[_ Hi']]; [by rewrite Hu, Hr|by apply Hs].
  - intros [] cut r s Hs Hc Hok; [done|].
    destruct (sqlite_put_own cut r s Hc) as (row & E & Hr & _). cbn [b_get sqlite_backend b_put].
    rewrite E. cbn. by rewrite Hr.
  - intros [] cut r s r' _ Hok; [done|]. cbn [b_get sqlite_backend b_put].
    destruct (table _ !! id r) as [row|] eqn:E; [|done]. intros [= <-].
    by apply sqlite_put_reads in E.
  - done.
  - intros [] cut r s e; [done|]. done.
  - intros [] cut r s r' Hs Hne Hg _ Hc; [done|]. cbn [b_get sqlite_backend b_put] in *.
    destruct (sqlite_put_lookup cut r s (id r') Hs Hne) as [->|[_ (row & E & Hlt)]]; [done|].
    rewrite E in Hg. cbn in Hg. injection Hg as Hg. destruct (Hs _ _ E) as [Hu _]. rewrite Hg in Hu. lia.
  - intros [] cut r s i r' Hs Hne; [done|]. cbn [b_get sqlite_backend b_put].
    destruct (sqlite_put_lookup cut r s i Hs Hne) as [->|[-> _]]; done.
  - intros own s r Hs (row & -> & Hr)%list_elem_of_fmap.
    apply elem_of_take in Hr as (k & Hr & _). apply list_elem_of_lookup_2 in Hr.
    rewrite merge_sort_Permutation in Hr. apply list_elem_of_filter in Hr as [Ho Hr].
    split; [by apply list_elem_of_fmap_2|]. by rewrite (sqlite_row s row Hs Hr).
  - intros own s Hs. cbn.
    rewrite filter_fmap, length_fmap. unfold select_owner.
    rewrite (filter_ext_elem _ (λ row, row_owner row = Some own))
      by (intros row Hr; by rewrite (sqlite_row s row Hs Hr)).
    intros Hl. rewrite take_ge by (by rewrite merge_sort_Permutation).
    by rewrite merge_sort_Permutation.
Defined.

(** ** [TaskStore] *)

(** The readings of one read-modify-write: the clock at the liveness check and
    at the update, the error of the write if it fails, and the clock of a prune. *)
Record StoreIo := {
  io_read : Z;
  io_write : Z;
  io_fails : option str;
  io_prune : Z;
}.

Section Store.
Context {S : Type} `{Backend S}.
(** The retention period in milliseconds. *)
Variable retention : Z.

Definition live (now : Z) (r : TaskRecord) : bool := (now - retention <=? updated_ms r)%Z.

Definition get (now : Z) (i : str) (s : S) : option TaskRecord :=
  match b_get i s with
  | Some r => if live now r then Some r else None
  | None => None
  end.

Definition put (io : StoreIo) (r : TaskRecord) (s : S) : result unit str * S :=
  b_put (io_fails io) (io_prune io - retention) r s.

Definition update (io : StoreIo) (i : str) (f : TaskRecord → TaskRecord) (s : S)
    : option TaskRecord * S :=
  match get (io_read io) i s with
  | None => (None, s)
  | Some r =>
      let r := set_updated (io_write io) (f r) in
      (Some r, (put io r s).2)
  end.

Definition update_running (io : StoreIo) (i : str) (f : TaskRecord → TaskRecord) (s : S)
    : option TaskRecord * S :=
  match get (io_read io) i s with
  | None => (None, s)
  | Some r =>
      if state_is_terminal (t_state r) then (None, s)
      else
        let r := set_updated (io_write io) (f r) in
        (Some r, (put io r s).2)
  end.

(** Newest first, the larger id first among equals. *)
Definition newer (a b : TaskRecord) : Prop :=
  (created_ms b < created_ms a)%Z
  ∨ (created_ms a = created_ms b ∧ str_compare (id b) (id a) ≠ Gt).

#[global] Instance newer_dec : RelDecision newer.
Proof. unfold RelDecision, newer. intros a b. apply _. Defined.

(** [list] *)
Definition list_tasks (now : Z) (own : str) (ctx : option str) (s : S) : list TaskRecord :=
  let out := filter (λ r, live now r = true) (b_owned own s) in
  let out := match ctx with
             | Some c => filter (λ r, context_id r = c) out
             | None => out
             end in
  take LIST_MAX (merge_sort newer out).

(** The SQL condition of the source repeats the closure [keep] on the stored
    JSON, and orders the rows by their creation. *)
Definition select_protocol (now : Z) (protocol : str) (keep : TaskRecord → bool) (s : S)
    : list TaskRecord :=
  filter (λ r, t_protocol r = protocol ∧ live now r = true ∧ keep r = true) (b_rows s).

Definition list_running (now : Z) (protocol : str) (s : S) : list TaskRecord :=
  select_protocol now protocol (λ r, negb (state_is_terminal (t_state r))) s.

Definition undelivered (r : TaskRecord) : bool :=
  match delivery r with
  | Some d => negb (default false (value_get §"delivered" d ≫= as_bool))
  | None => false
  end.

Definition list_undelivered (now : Z) (protocol : str) (s : S) : list TaskRecord :=
  select_protocol now protocol undelivered s.

(** [record_entry]: the unlocked legacy write. *)
Definition set_entry (st : TaskState) (res err : option str) (r : TaskRecord) : TaskRecord :=
  {| id := id r; context_id := context_id r; t_state := st; owner := owner r;
     t_tool := t_tool r; upstream_task_id := upstream_task_id r;
     check_after_seconds := check_after_seconds r; progress := progress r;
     receipt := receipt r; note := note r;
     result_text := match res with Some x => Some (clamp x RESULT_TEXT_MAX_BYTES)
                                 | None => result_text r end;
     t_result := t_result r;
     error := match err with Some x => Some (clamp x RESULT_TEXT_MAX_BYTES)
                           | None => error r end;
     error_class := error_class r;
     t_protocol := t_protocol r; t_triton_meta := t_triton_meta r; delivery := delivery r;
     created_ms := created_ms r; updated_ms := updated_ms r |}.

Definition record_entry (io : StoreIo) (trace : str) (st : TaskState) (res err : option str)
    (s : S) : S :=
  let r := default (TaskRecord_new (io_read io) trace trace [] None) (get (io_read io) trace s) in
  (put io (set_updated (io_write io) (set_entry st res err r)) s).2.

Definition state_of (now : Z) (trace : str) (s : S) : option TaskState :=
  t_state <$> get now trace s.

(** ** What the store guarantees, from the laws *)
Context `{!BackendLaws S}.

(** [update_running] with closures that keep the id. *)
Lemma update_running_cases io i f s r0 :
  get (io_read io) i s = Some r0 →
  if state_is_terminal (t_state r0) then update_running io i f s = (None, s)
  else update_running io i f s
       = (Some (set_updated (io_write io) (f r0)),
          (put io (set_updated (io_write io) (f r0)) s).2).
Proof. intros E. unfold update_running. rewrite E. by destruct (state_is_terminal _). Qed.

Lemma update_running_read io i f s r0 :
  b_wf s → get (io_read io) i s = Some r0 → state_is_terminal (t_state r0) = false →
  id (f r0) = i → io_fails io = None → (io_prune io - retention ≤ io_write io)%Z →
  b_get i (update_running io i f s).2 = Some (set_updated (io_write io) (f r0)).
Proof.
  intros Hwf Hg Ht Hid Hf Hp. pose proof (update_running_cases io i f s r0 Hg) as E.
  rewrite Ht in E. rewrite E. cbn [snd]. unfold put.
  set (r := set_updated (io_write io) (f r0)).
  assert (id r = i) as <- by done. rewrite Hf. apply put_get; [done|done|apply put_accepts].
Qed.

End Store.

(** ** Failure classes and texts *)

Definition EXPIRED : str := §"the task expired before the agent finished".
Definition CLASS_EXPIRED : str := §"expired".
Definition CLASS_INTERRUPTED : str := §"interrupted".
Definition CLASS_AGENT : str := §"agent".
Definition EXPIRED_NOTICE : str :=
  §"The request expired: it took longer than allowed and was stopped. Please send it again.".

Definition error_of (cls message : str) : TritonError :=
  if decide (cls = §"auth") then Auth message
  else if decide (cls = §"forbidden") then Forbidden message
  else if decide (cls = §"validation") then Validation message
  else if decide (cls = §"provider") then Provider message
  else if decide (cls = §"ratelimit") then RateLimited message
  else if decide (cls = CLASS_EXPIRED) then Tool EXPIRED
  else Tool message.

Definition error_notice (e : TritonError) : str :=
  if decide (e = Tool EXPIRED) then EXPIRED_NOTICE else user_notice e.

Definition user_text (cls message : str) : str :=
  if decide (cls = CLASS_INTERRUPTED) then message
  else if decide (cls = CLASS_AGENT) then message
  else error_notice (error_of cls message).

Definition stored_error (r : TaskRecord) : TritonError :=
  error_of (default §"tool" (error_class r)) (default [] (error r)).

Definition failure_text (r : TaskRecord) : str :=
  user_text (default §"tool" (error_class r)) (default [] (error r)).

(** ** Live events *)

Abbreviation TaskProgress := Progress.

Module TaskEvent.
Inductive t :=
  | Token (d : str)
  | Async (up : str) (check : option Z) (receipt note : option str)
  | Progress (p : TaskProgress)
  | Done (v : Value)
  | Failed (cls message : str).
End TaskEvent.
Abbreviation TaskEvent := TaskEvent.t.

Definition event_is_terminal (e : TaskEvent) : bool :=
  match e with TaskEvent.Done _ | TaskEvent.Failed _ _ => true | _ => false end.

(** ** [TaskHub]: the ids with a live broadcast channel *)

Definition TaskHub : Type := gset str.

Definition hub_open (i : str) (h : TaskHub) : option TaskHub :=
  if decide (i ∈ h) then None else Some ({[i]} ∪ h).
Definition hub_close (i : str) (h : TaskHub) : TaskHub := h ∖ {[i]}.

Inductive Claim :=
  | Live
  | Claimed (r : TaskRecord)
  | Finished.

Definition subscribe_or_claim {S : Type} `{Backend S} (retention now : Z) (i : str) (s : S)
    (h : TaskHub) : Claim * TaskHub :=
  if decide (i ∈ h) then (Live, h)
  else match get retention now i s with
       | Some r => if state_is_terminal (t_state r) then (Finished, h)
                   else (Claimed r, {[i]} ∪ h)
       | None => (Finished, h)
       end.

Inductive Persist := Now | OnAsync.
Inductive Start :=
  | StartDispatch (args : Value)
  | StartResume (upstream : str).

#[export] Instance Persist_eq_dec : EqDecision Persist.
Proof. solve_decision. Defined.

Record TaskSettings := {
  block : Z; stream_max : Z; task_max : Z; mcp_wait : Z; mcp_check_after_secs : Z;
}.

Definition TaskSettings_default : TaskSettings :=
  {| block := 60; stream_max := 660; task_max := 3600; mcp_wait := 20;
     mcp_check_after_secs := 30 |}.

Definition RESUME_BACKOFF_MIN : Z := 250 * 1000000.
Definition RESUME_BACKOFF_MAX : Z := 8 * 1000000000.

Inductive StartError := Running | StoreFailed (e : str).

(** ** The runner *)

(** One event of the opened stream with the readings of its store write. *)
Record Delivery := { dl_io : StoreIo; dl_ev : StreamEvent }.

Inductive StreamEnd :=
  | EndClosed
  (** the deadline passed while waiting for the next event *)
  | EndDeadline.

Inductive Opening :=
  | OpenDeadline
  | OpenErr (e : TritonError)
  | OpenOk (items : list Delivery) (en : StreamEnd).

(** What one round of the loop meets: the opening, and the monotonic clock when
    the round asks whether there is time for another. *)
Record Attempt := { at_open : Opening; at_now : Z }.

Definition Outcome : Type := result Value (str * str).

(** How an opened stream ended: the task is decided, or the stream broke. *)
Inductive Flow :=
  | Decided (o : Outcome)
  | Broken (cls msg : str).

Record RunState (S : Type) := {
  rs_store : S;
  (** broadcast so far *)
  rs_sent : list TaskEvent;
  (** calls made so far, and whether each carried the client's files *)
  rs_calls : list (Start * bool);
  rs_pending : option TaskRecord;
  rs_up : option str;
  rs_backoff : Z;
}.
Arguments rs_store {S} _.
Arguments rs_sent {S} _.
Arguments rs_calls {S} _.
Arguments rs_pending {S} _.
Arguments rs_up {S} _.
Arguments rs_backoff {S} _.
Arguments Build_RunState {S} _ _ _ _ _ _.

(** A string field: trimmed, absent when blank. *)
Definition nonblank_field (k : str) (v : Value) : option str :=
  match trim <$> get_str k v with
  | Some t => if is_empty t then None else Some t
  | None => None
  end.

Definition RESUMABLE : list str :=
  [§"upstream_stream_transport"; §"upstream_stream_idle_timeout";
   §"upstream_stream_max_duration"].

Section Runner.
Context {S : Type} `{Backend S} `{SerdeJson}.
Variable retention : Z.
Variable render : Value → str.
Implicit Types st : RunState S.

Definition fail (io : StoreIo) (i cls msg : str) (s : S) : option TaskRecord * S :=
  update_running retention io i (set_failed cls (clamp msg RESULT_TEXT_MAX_BYTES)) s.

Definition send (e : TaskEvent) st : RunState S :=
  Build_RunState (rs_store st) (rs_sent st ++ [e]) (rs_calls st) (rs_pending st)
    (rs_up st) (rs_backoff st).

Definition with_store (s : S) st : RunState S :=
  Build_RunState s (rs_sent st) (rs_calls st) (rs_pending st) (rs_up st) (rs_backoff st).

(** A [task] event: the upstream went asynchronous. *)
Definition on_task (i : str) (io : StoreIo) (v : Value) st : RunState S :=
  match nonblank_field §"task_id" v with
  | Some up =>
      if (length up <=? 200)%nat then
        let check := value_get §"check_after_seconds" v ≫= as_u64 in
        let rc := (λ t, clamp t (Z.to_nat 2048)) <$> nonblank_field §"receipt" v in
        let nt := (λ t, clamp t (Z.to_nat 512)) <$> nonblank_field §"note" v in
        let s := match rs_pending st with
                 | Some first =>
                     (put retention io
                        (set_updated (io_write io) (set_async false up check rc nt first))
                        (rs_store st)).2
                 | None =>
                     (update_running retention io i (set_async true up check rc nt)
                        (rs_store st)).2
                 end in
        send (TaskEvent.Async up check rc nt)
          (Build_RunState s (rs_sent st) (rs_calls st) None (Some up) RESUME_BACKOFF_MIN)
      else st
  | None => st
  end.

Definition on_progress (i : str) (io : StoreIo) (v : Value) st : RunState S :=
  match nonblank_field §"text" v with
  | Some text =>
      let p := {| p_text := clamp text (Z.to_nat 2048);
                  p_step := (λ s, clamp s 128) <$> get_str §"step" v;
                  p_percent := (λ n, Z.min n 100) <$> (value_get §"percent" v ≫= as_u64) |} in
      send (TaskEvent.Progress p)
        (Build_RunState (update_running retention io i (set_progress p) (rs_store st)).2
           (rs_sent st) (rs_calls st) (rs_pending st) (rs_up st) RESUME_BACKOFF_MIN)
  | None => st
  end.

(** The inner loop over one opened stream. *)
Fixpoint events (i : str) (items : list Delivery) (en : StreamEnd) st : RunState S * Flow :=
  match items with
  | [] =>
      (st, match en with
           | EndClosed => Broken §"tool" §"the agent closed the stream before it finished"
           | EndDeadline => Decided (Err (CLASS_EXPIRED, EXPIRED))
           end)
  | d :: items' =>
      match dl_ev d with
      | StreamEvent.Token t => events i items' en (send (TaskEvent.Token t) st)
      | StreamEvent.Task v => events i items' en (on_task i (dl_io d) v st)
      | StreamEvent.Progress v => events i items' en (on_progress i (dl_io d) v st)
      | StreamEvent.Tool _ => events i items' en st
      | StreamEvent.Done v => (st, Decided (Ok v))
      | StreamEvent.Error e detail =>
          let resumable := match detail with
                           | Some dt => bool_decide (dt ∈ RESUMABLE)
                           | None => false
                           end in
          if negb resumable || bool_decide (rs_up st = None) then
            (st, Decided (Err match detail with
                              | None => (CLASS_AGENT, message e)
                              | Some _ => (class e, to_string e)
                              end))
          else (st, Broken §"tool" (to_string e))
      end
  end.

(** One round: open, consume, and either decide, give up or go round again
    with a resume. *)
Definition round (i : str) (deadline : Z) (start : Start) (files : bool) (a : Attempt) st
    : RunState S * (Outcome + Start) :=
  let st := Build_RunState (rs_store st) (rs_sent st) (rs_calls st ++ [(start, files)])
              (rs_pending st) (rs_up st) (rs_backoff st) in
  let '(st, flow) :=
    match at_open a with
    | OpenDeadline => (st, Decided (Err (CLASS_EXPIRED, EXPIRED)))
    | OpenErr e => (st, Broken (class e) (to_string e))
    | OpenOk items en => events i items en st
    end in
  match flow with
  | Decided o => (st, inl o)
  | Broken cls msg =>
      match rs_up st with
      | None => (st, inl (Err (cls, msg)))
      | Some up =>
          if (deadline <=? at_now a + rs_backoff st)%Z then
            (st, inl (Err (§"tool", §"the agent's task did not finish: " ++ msg)))
          else
            (Build_RunState (rs_store st) (rs_sent st) (rs_calls st) (rs_pending st)
               (rs_up st) (Z.min (rs_backoff st * 2) RESUME_BACKOFF_MAX),
             inr (StartResume up))
      end
  end.

(** The loop, over the rounds the environment offers; [None] when they run
    out before the task is decided. *)
Fixpoint run_loop (i : str) (deadline : Z) (start : Start) (files : bool)
    (l : list Attempt) st : option (RunState S * Outcome) :=
  match l with
  | [] => None
  | a :: l' =>
      match round i deadline start files a st with
      | (st', inl o) => Some (st', o)
      | (st', inr start') => run_loop i deadline start' false l' st'
      end
  end.

(** The terminal write and event. *)
Definition conclude (i : str) (io : StoreIo) (o : Outcome) st : RunState S :=
  match o with
  | Ok v =>
      let keep := (Z.of_nat (length (json_to_string v)) <=? RESULT_JSON_MAX_BYTES)%Z in
      send (TaskEvent.Done v)
        (with_store
           (update_running retention io i
              (set_completed (clamp (render v) RESULT_TEXT_MAX_BYTES)
                 (if keep then Some v else None)) (rs_store st)).2 st)
  | Err (cls, e) =>
      send (TaskEvent.Failed cls e) (with_store (fail io i cls e (rs_store st)).2 st)
  end.

Definition run_deadline (settings : TaskSettings) (now_mono now : Z) (r : TaskRecord) : Z :=
  (now_mono + Z.max 0 (task_max settings * 1000000000
                         - Z.max 0 (now - created_ms r) * 1000000))%Z.

Definition run (settings : TaskSettings) (now_mono now : Z) (io : StoreIo)
    (r : TaskRecord) (start : Start) (files : bool) (persist : Persist)
    (l : list Attempt) (s : S) : option (RunState S) :=
  let st := Build_RunState s [] [] (if decide (persist = OnAsync) then Some r else None)
              (upstream_task_id r) RESUME_BACKOFF_MIN in
  match run_loop (id r) (run_deadline settings now_mono now r) start files l st with
  | Some (st', o) => Some (conclude (id r) io o st')
  | None => None
  end.
End Runner.

(** ** Properties of the store *)

(** A write of some party to the store, in one critical section: an
    [update_running] (the runner's and the couriers' updates) or a plain
    [update] (a courier marking a delivery). *)
Record Write := {
  wr_io : StoreIo;
  wr_id : str;
  wr_f : TaskRecord → TaskRecord;
  wr_guarded : bool;
}.

(** What a finished task is about. *)
Definition outcome (r : TaskRecord) :=
  (id r, t_state r, result_text r, t_result r, error r, error_class r).

(** No closure changes the id, and a plain update leaves the outcome alone. *)
Definition write_ok (w : Write) : Prop :=
  (∀ r, id (wr_f w r) = id r)
  ∧ (wr_guarded w = false → ∀ r, outcome (wr_f w r) = outcome r).

Section Writes.
Context {S : Type} `{BackendLaws S}.
Variable retention : Z.

Definition apply_write (s : S) (w : Write) : S :=
  ((if wr_guarded w then update_running retention (wr_io w) (wr_id w) (wr_f w)
    else update retention (wr_io w) (wr_id w) (wr_f w)) s).2.

Definition apply_writes (l : list Write) (s : S) : S := fold_left apply_write l s.

Lemma apply_write_cases w s :
  apply_write s w = s
  ∨ ∃ r, b_get (wr_id w) s = Some r
         ∧ (wr_guarded w = true → state_is_terminal (t_state r) = false)
         ∧ apply_write s w
           = (put retention (wr_io w) (set_updated (io_write (wr_io w)) (wr_f w r)) s).2.
Proof.
  unfold apply_write. destruct (wr_guarded w); unfold update_running, update, get;
    (destruct (b_get (wr_id w) s) as [r|]; [|by left]);
    (destruct (live _ _ r); [|by left]).
  2: { right. exists r. split; [done|]. split; [discriminate|done]. }
  destruct (state_is_terminal (t_state r)) eqn:E; [by left|right; exists r; auto].
Qed.

Lemma apply_write_wf w s : b_wf s → b_wf (apply_write s w).
Proof.
  intros Hs. destruct (apply_write_cases w s) as [->|(r & _ & _ & ->)]; [done|by apply put_wf].
Qed.

(** One write leaves a finished task as it is, up to what a plain update may
    touch, or drops it; a task that is gone does not come back. *)
Lemma apply_write_frozen w s j :
  b_wf s → write_ok w →
  match b_get j (apply_write s w) with
  | None => True
  | Some r' =>
      ∃ r, b_get j s = Some r
           ∧ (state_is_terminal (t_state r) = true →
              outcome r' = outcome r ∧ (wr_guarded w = true → r' = r))
  end.
Proof.
  intros Hwf [Hid Hout]. destruct (b_get j (apply_write s w)) as [r'|] eqn:E; [|done].
  destruct (apply_write_cases w s) as [Ew|(r & Hr & Hg & Ew)];
    [rewrite Ew in E; by exists r'|].
  rewrite Ew in E. unfold put in E. set (r1 := set_updated _ _) in E.
  assert (id r1 = wr_id w) as Hi.
  { change (id (wr_f w r) = wr_id w). rewrite Hid. by apply (wf_id s). }
  destruct (decide (j = wr_id w)) as [->|Hne].
  - exists r. split; [done|]. intros Ht.
    destruct (wr_guarded w); [by rewrite Hg in Ht|]. split; [|done].
    set (f := io_fails _) in E. set (cut := (_ - _)%Z) in E.
    destruct (b_put f cut r1 s).1 as [[]|e] eqn:P.
    + rewrite <-Hi in E. apply put_own in E as ->; [|done|done]. by apply Hout.
    + apply put_refused in P. rewrite P in E. congruence.
  - apply put_other in E; [|done|by rewrite Hi]. exists r'. done.
Qed.
End Writes.

Lemma update_running_wf {S : Type} `{BackendLaws S} retention io i f (s : S) :
  b_wf s → b_wf (update_running retention io i f s).2.
Proof.
  exact (apply_write_wf retention
           {| wr_io := io; wr_id := i; wr_f := f; wr_guarded := true |} s).
Qed.

(** C6: a finished task stays finished.  Whatever sequence of updates the
    runner and the channel couriers make, in whatever order, on either backend,
    the outcome of a task that has completed or failed never changes: it is read
    back with the state, result and error it had, or it has been dropped, and
    where only guarded updates ran the whole record is as it was. *)
Theorem finished_task_never_changes {S : Type} `{BackendLaws S} retention l (s : S) j r r' :
  b_wf s → b_get j s = Some r → state_is_terminal (t_state r) = true →
  Forall write_ok l → b_get j (apply_writes retention l s) = Some r' →
  outcome r' = outcome r ∧ (Forall (λ w, wr_guarded w = true) l → r' = r).
Proof.
  intros Hwf Hj Ht Hl Hr'.
  assert (∃ r0, b_get j s = Some r0 ∧ (state_is_terminal (t_state r0) = true →
            outcome r' = outcome r0 ∧ (Forall (λ w, wr_guarded w = true) l → r' = r0)))
    as (r0 & E & Hr0); [|rewrite Hj in E; injection E as <-; auto].
  clear r Hj Ht. revert s Hwf Hr'.
  induction Hl as [|w l Hw Hl IH]; intros s Hwf Hr'; [by exists r'|].
  destruct (IH _ (apply_write_wf retention w s Hwf) Hr') as (r1 & E1 & F1).
  pose proof (apply_write_frozen retention w s j Hwf Hw) as F. rewrite E1 in F.
  destruct F as (r0 & E0 & F0). exists r0. split; [done|]. intros Ht0.
  destruct (F0 Ht0) as [Ho Hg]. destruct F1 as [Ho1 Hg1].
  { injection Ho as _ Hs _ _ _ _. by rewrite Hs. }
  split; [congruence|]. intros [Hgw Hgl]%Forall_cons. rewrite Hg1 by done. by apply Hg.
Qed.

Definition task_a (st : TaskState) : TaskRecord :=
  set_entry st None None (TaskRecord_new 100 §"a" §"ctx" §"tool" None).

Definition plain_io (now : Z) : StoreIo :=
  {| io_read := now; io_write := now; io_fails := None; io_prune := now |}.

Lemma finished_task_never_changes_witness :
  let s := memory_put (task_a TaskState.Completed) Memory_default in
  let late := {| wr_io := plain_io 200; wr_id := §"a"; wr_f := set_failed §"tool" §"late";
                 wr_guarded := true |} in
  ∃ r, b_get §"a" (apply_writes 1000 [late] s) = Some r ∧ r = task_a TaskState.Completed.
Proof.
  intros s late. eexists. split; [reflexivity|].
  apply (finished_task_never_changes 1000 [late] s §"a").
  - split; [vm_compute; lia|]. cbn. apply map_Forall_insert_2; [done|apply map_Forall_empty].
  - reflexivity.
  - reflexivity.
  - by repeat constructor.
  - reflexivity.
  - by repeat constructor.
Defined.

(** The memory store does not bound the running tasks.  Storing any number
    of distinct running tasks keeps every one of them, however many: the loop
    that should make room finds the id it has just queued, which has no row yet,
    and drops that, so the new row is stored outside the bounded queue. *)
Theorem running_tasks_unbounded l :
  NoDup (id <$> l) → Forall (λ r, state_is_terminal (t_state r) = false) l →
  let m := fold_left (λ m r, memory_put r m) l Memory_default in
  size (rows m) = length l ∧ length (order m) ≤ MEMORY_CAPACITY.
Proof.
  intros Hnd Hrun m.
  assert (length (order m) ≤ MEMORY_CAPACITY
    ∧ ∀ i, rows m !! i = (list_to_map ((λ r, (id r, r)) <$> l) : gmap str TaskRecord) !! i)
    as [Ho Hrows].
  { subst m. induction l as [|r l IH] using rev_ind; [split; [cbn; lia|done]|].
    rewrite fmap_app in Hnd. apply NoDup_app in Hnd as (Hnd & Hr & _).
    apply Forall_app in Hrun as [Hrun Hr']. destruct (IH Hnd Hrun) as [Ho Hi].
    rewrite fold_left_app. cbn [fold_left]. set (m := fold_left _ l _) in *.
    split; [by apply (memory_put_spec r m [])|]. intros i.
    rewrite fmap_app, list_to_map_app, lookup_union.
    destruct (decide (i = id r)) as [->|Hne].
    - assert ((list_to_map ((λ r, (id r, r)) <$> l) : gmap str TaskRecord) !! id r = None) as ->.
      { apply not_elem_of_list_to_map_1. rewrite <-list_fmap_compose.
        intros Hin. apply (Hr (id r)); [exact Hin|set_solver]. }
      cbn. by rewrite !lookup_insert_eq.
    - change (list_to_map ((λ r, (id r, r)) <$> [r])) with (<[id r := r]> (∅ : gmap str TaskRecord)).
      rewrite (lookup_insert_ne ∅) by done. rewrite lookup_empty.
      assert (∀ o : option TaskRecord, o ∪ None = o) as -> by (by intros []). rewrite <-Hi.
      destruct (memory_put_spec r m i Ho) as (_ & [E|[E He]]); [done|done|].
      rewrite E. unfold evictable in He. destruct (rows m !! i) as [r'|] eqn:Er; [|done].
      exfalso. rewrite Hi in Er.
      apply elem_of_list_to_map_2 in Er. apply list_elem_of_fmap in Er as (r2 & [= _ ->] & Hin).
      rewrite Forall_forall in Hrun. rewrite (Hrun _ Hin) in He. done. }
  split; [|done].
  rewrite (map_eq _ _ Hrows). rewrite map_size_list_to_map; [by rewrite length_fmap|].
  by rewrite <-list_fmap_compose.
Qed.

Lemma running_tasks_unbounded_witness :
  let l := (λ n, set_entry TaskState.Working None None
                   (TaskRecord_new 0 (dec (Z.of_nat n)) [] [] None)) <$> seq 0 3 in
  size (rows (fold_left (λ m r, memory_put r m) l Memory_default)) = 3.
Proof.
  intros l. apply (running_tasks_unbounded l).
  - apply (bool_decide_unpack _). vm_compute. exact I.
  - repeat constructor.
Defined.

(** Every task is filed under the owner its record names: true as long as no
    update changes a record's owner. *)
Definition owners_agree {S : Type} `{BackendLaws S} (s : S) : Prop :=
  ∀ r, r ∈ b_rows s → b_owner (id r) s = owner r.

(** On SQLite the owner column follows the record as long as a write does not
    change the owner. *)
Lemma sqlite_owner_column fails cut r s :
  map_Forall (λ _ row, row_owner row = owner (row_record row)) (table s) →
  (∀ row, table s !! id r = Some row → owner (row_record row) = owner r) →
  map_Forall (λ _ row, row_owner row = owner (row_record row))
    (table (sqlite_put fails cut r s).2).
Proof.
  intros Hs Ho. destruct fails as [e|]; [done|]. unfold sqlite_put. cbn [snd table].
  assert (map_Forall (λ _ row, row_owner row = owner (row_record row)) (upsert r (table s))) as U.
  { unfold upsert. apply map_Forall_insert_2; [|done].
    destruct (table s !! id r) as [old|] eqn:E; cbn; [|done].
    rewrite (Hs _ _ E). by apply Ho. }
  destruct (_ =? _)%Z; [|done]. intros i row [E _]%map_lookup_filter_Some. by apply (U i).
Qed.

Definition in_context (ctx : option str) (r : TaskRecord) : Prop :=
  match ctx with Some c => context_id r = c | None => True end.
#[export] Instance in_context_dec ctx r : Decision (in_context ctx r).
Proof. unfold in_context. destruct ctx; apply _. Defined.

Lemma newer_sorts l : StronglySorted newer (merge_sort newer l).
Proof.
  apply StronglySorted_merge_sort.
  - intros a b c [H1|[H1 H1']] [H2|[H2 H2']]; [left; lia|left; lia|left; lia|].
    right. split; [lia|]. by apply (str_compare_trans _ (id b)).
  - intros a b. unfold newer. destruct (Z.lt_total (created_ms a) (created_ms b)) as [|[Ee|]];
      [right; left; lia| |left; left; lia].
    destruct (str_compare_total (id a) (id b)); [right; right|left; right]; split; done || lia.
Qed.

Lemma list_tasks_eq {S : Type} `{Backend S} retention now own ctx (s : S) :
  list_tasks retention now own ctx s
  = take LIST_MAX (merge_sort newer
      (filter (λ r, live retention now r = true ∧ in_context ctx r) (b_owned own s))).
Proof.
  unfold list_tasks, in_context. do 2 f_equal. destruct ctx as [c|].
  - rewrite list_filter_filter. apply list_filter_iff. tauto.
  - apply list_filter_iff. tauto.
Qed.

(** A task list shows a caller its own live tasks and nobody else's, of the
    context asked for if any, newest first, and at most 1000 of them; and when
    the caller owns at most 1000 tasks, all of them.  On either backend. *)
Theorem list_is_the_owners {S : Type} `{BackendLaws S} retention now own ctx (s : S) :
  b_wf s → owners_agree s →
  let mine := filter (λ r, owner r = Some own ∧ live retention now r = true
                           ∧ in_context ctx r) (b_rows s) in
  let out := list_tasks retention now own ctx s in
  (∀ r, r ∈ out → r ∈ mine) ∧ StronglySorted newer out ∧ length out ≤ 1000
  ∧ (length (filter (λ r, owner r = Some own) (b_rows s)) ≤ 1000 → out ≡ₚ mine).
Proof.
  intros Hwf Ha mine out. subst out. rewrite list_tasks_eq.
  set (shown := filter _ (b_owned own s)).
  assert (filter (λ r, b_owner (id r) s = Some own) (b_rows s)
          = filter (λ r, owner r = Some own) (b_rows s)) as Eo.
  { apply filter_ext_elem. intros r Hr. by rewrite (Ha r Hr). }
  split; [|split; [|split]].
  - intros r Hr. apply elem_of_take in Hr as (k & Hr & _). apply list_elem_of_lookup_2 in Hr.
    rewrite merge_sort_Permutation in Hr. apply list_elem_of_filter in Hr as [Hl Hr].
    apply owned_sound in Hr as [Hr Ho]; [|done]. rewrite (Ha r Hr) in Ho.
    by apply list_elem_of_filter.
  - apply (StronglySorted_app_1_l _ _ (drop LIST_MAX (merge_sort newer shown))).
    rewrite take_drop. apply newer_sorts.
  - rewrite length_take. unfold LIST_MAX. lia.
  - intros Hlen. pose proof (owned_complete own s Hwf) as Hc. rewrite Eo in Hc.
    specialize (Hc Hlen).
    assert (shown ≡ₚ mine) as Hp.
    { subst shown mine. rewrite Hc, list_filter_filter. apply reflexive_eq, list_filter_iff. tauto. }
    rewrite take_ge; [by rewrite merge_sort_Permutation|].
    rewrite merge_sort_Permutation. rewrite <-Hlen, <-Hc. apply length_filter.
Qed.

Lemma list_is_the_owners_witness :
  let r := set_entry TaskState.Working None None
             (TaskRecord_new 5 §"a" §"c" §"t" (Some §"me")) in
  list_tasks 100 10 §"me" (Some §"c") (memory_put r Memory_default) ≡ₚ [r].
Proof.
  intros r. set (m := memory_put r Memory_default).
  assert (memory_wf m) as Hwf.
  { split; [vm_compute; lia|]. cbn. apply map_Forall_insert_2; [done|apply map_Forall_empty]. }
  destruct (list_is_the_owners 100 10 §"me" (Some §"c") m) as (_ & _ & _ & P).
  - exact Hwf.
  - intros x Hx. change (rows m !! id x ≫= owner = owner x).
    by rewrite (memory_row m x (proj2 Hwf) Hx).
  - apply P. vm_compute. lia.
Defined.

(** ** Properties of the runner *)

Section RunnerFacts.
Context {S : Type} `{Backend S} `{SerdeJson}.
Variable retention : Z.
Variable render : Value → str.
Implicit Types st : RunState S.

(** What a round keeps: nothing terminal is sent, the calls only grow by the
    one it makes, and the pause stays between 250 ms and 8 s. *)
Definition quiet st : Prop := Forall (λ e, event_is_terminal e = false) (rs_sent st).
Definition paced st : Prop :=
  (RESUME_BACKOFF_MIN ≤ rs_backoff st ≤ RESUME_BACKOFF_MAX)%Z.

Definition keeps st st' : Prop :=
  rs_calls st' = rs_calls st ∧ (quiet st → quiet st') ∧ (paced st → paced st').

Lemma keeps_refl st : keeps st st.
Proof. done. Qed.

Lemma keeps_trans st1 st2 st3 : keeps st1 st2 → keeps st2 st3 → keeps st1 st3.
Proof. intros (E1 & Q1 & P1) (E2 & Q2 & P2). split; [congruence|]. auto. Qed.

Lemma paced_min s sent calls pend up :
  paced (Build_RunState (S := S) s sent calls pend up RESUME_BACKOFF_MIN).
Proof. unfold paced, RESUME_BACKOFF_MIN, RESUME_BACKOFF_MAX. cbn. lia. Qed.

Lemma send_keeps e st : event_is_terminal e = false → keeps st (send e st).
Proof.
  intros He. split; [done|]. split; [|done]. intros Hq. unfold quiet. cbn.
  apply Forall_app. split; [exact Hq|]. by constructor.
Qed.

Lemma on_task_keeps i io v st : keeps st (on_task retention i io v st).
Proof.
  unfold on_task. destruct (nonblank_field _ v) as [up|]; [|apply keeps_refl].
  destruct (length up <=? 200)%nat; [|apply keeps_refl].
  eapply keeps_trans; [|by apply send_keeps].
  split; [done|]. split; [done|]. intros _. apply paced_min.
Qed.

Lemma on_progress_keeps i io v st : keeps st (on_progress retention i io v st).
Proof.
  unfold on_progress. destruct (nonblank_field _ v) as [up|]; [|apply keeps_refl].
  eapply keeps_trans; [|by apply send_keeps].
  split; [done|]. split; [done|]. intros _. apply paced_min.
Qed.

Lemma events_keeps i items en st : keeps st (events retention i items en st).1.
Proof.
  revert st. induction items as [|d items IH]; intros st; [apply keeps_refl|].
  cbn [events]. destruct (dl_ev d) as [v|t|v|v|v|e dt].
  - apply IH.
  - eapply keeps_trans; [|apply IH]. by apply send_keeps.
  - eapply keeps_trans; [apply on_task_keeps|apply IH].
  - eapply keeps_trans; [apply on_progress_keeps|apply IH].
  - apply keeps_refl.
  - destruct (_ || _); apply keeps_refl.
Qed.

(** One round, seen from outside. *)
Lemma round_spec i deadline start files a st st' x :
  round retention i deadline start files a st = (st', x) →
  rs_calls st' = rs_calls st ++ [(start, files)]
  ∧ (quiet st → quiet st') ∧ (paced st → paced st')
  ∧ (paced st → ∀ s', x = inr s' →
     (∃ up, s' = StartResume up ∧ rs_up st' = Some up)
     ∧ (at_now a + RESUME_BACKOFF_MIN < deadline)%Z).
Proof.
  unfold round. set (st0 := Build_RunState _ _ (rs_calls st ++ _) _ _ _).
  set (p := match at_open a with OpenDeadline => _ | OpenErr _ => _ | OpenOk _ _ => _ end).
  assert (keeps st0 p.1) as (Hc & Hq & Hp).
  { subst p. destruct (at_open a); [apply keeps_refl..|apply events_keeps]. }
  destruct p as [st1 flow]. cbn [fst] in *.
  assert (∀ o : Outcome, (st1, inl o) = (st', x) →
    rs_calls st' = rs_calls st ++ [(start, files)]
    ∧ (quiet st → quiet st') ∧ (paced st → paced st')
    ∧ (paced st → ∀ s' : Start, x = inr s' →
       (∃ up, s' = StartResume up ∧ rs_up st' = Some up)
       ∧ (at_now a + RESUME_BACKOFF_MIN < deadline)%Z)) as Hdone.
  { intros o [= <- <-]. split; [exact Hc|]. split; [exact Hq|]. split; [exact Hp|]. done. }
  destruct flow as [o|cls msg]; [apply Hdone|].
  destruct (rs_up st1) as [up|] eqn:Eu; [|apply Hdone].
  destruct (deadline <=? _)%Z eqn:Ed; [apply Hdone|]. bool_facts. intros [= <- <-].
  split; [exact Hc|]. split; [exact Hq|]. split.
  - intros Hps. specialize (Hp Hps). revert Hp. unfold paced. cbn.
    unfold RESUME_BACKOFF_MIN, RESUME_BACKOFF_MAX. lia.
  - intros Hps s' [= <-]. split; [by exists up|].
    destruct (Hp Hps) as [Hmin _]. lia.
Qed.

(** Between two rounds the runner sleeps, 250 ms at least. *)
Fixpoint spaced (l : list Attempt) : Prop :=
  match l with
  | a :: ((b :: _) as l') => (at_now a + RESUME_BACKOFF_MIN ≤ at_now b)%Z ∧ spaced l'
  | _ => True
  end.

Lemma run_loop_terminates i deadline start files a l st :
  paced st → spaced (a :: l) →
  (deadline ≤ at_now a + RESUME_BACKOFF_MIN * Z.of_nat (Datatypes.S (length l)))%Z →
  is_Some (run_loop retention i deadline start files (a :: l) st).
Proof.
  revert start files a st. induction l as [|b l IH]; intros start files a st Hp Hs Hd;
    cbn [run_loop]; destruct (round retention i deadline start files a st) as [st' x] eqn:E;
    apply round_spec in E as (_ & _ & Hp' & Hx); specialize (Hx Hp);
    destruct x as [o|s']; [by eexists| |by eexists|].
  - destruct (Hx s' eq_refl) as [_ Hlt]. cbn in Hd. lia.
  - destruct Hs as [Hab Hs]. apply IH; [by apply Hp'|done|].
    rewrite length_cons in Hd. unfold RESUME_BACKOFF_MIN in *. lia.
Qed.

Lemma run_loop_spec i deadline start files l st st' o :
  run_loop retention i deadline start files l st = Some (st', o) →
  paced st → quiet st →
  quiet st' ∧ ∃ rest, rs_calls st' = rs_calls st ++ (start, files) :: rest
    ∧ Forall (λ c, ∃ up, c = (StartResume up, false)) rest.
Proof.
  revert start files st. induction l as [|a l IH]; intros start files st; [done|].
  cbn [run_loop]. destruct (round retention i deadline start files a st) as [st1 x] eqn:E.
  apply round_spec in E as (Hc & Hq & Hp & Hx). destruct x as [o1|s'].
  - intros [= <- <-] Hps Hqt. split; [auto|]. exists []. by rewrite Hc.
  - intros Hl Hps Hqt. destruct (Hx Hps s' eq_refl) as [(up & -> & _) _].
    destruct (IH _ _ _ Hl (Hp Hps) (Hq Hqt)) as [Hq' (rest & Hr & Hf)].
    split; [done|]. exists ((StartResume up, false) :: rest). split.
    + rewrite Hr, Hc, <-app_assoc. done.
    + constructor; [by exists up|done].
Qed.
End RunnerFacts.

(** C35: a task's run always ends.  If the rounds the environment offers respect
    the pause the runner makes between them and are enough to fill the task's
    time (at 250 ms a round), the run reaches its outcome; with the default
    hour that is at most 14,400 rounds, whatever the upstream does. *)
Theorem task_run_terminates {S : Type} `{Backend S} `{SerdeJson} retention render
    settings now_mono now io r start files persist a l (s : S) :
  spaced (a :: l) → (now_mono ≤ at_now a)%Z → (0 ≤ task_max settings)%Z →
  (task_max settings * 1000000000
     ≤ RESUME_BACKOFF_MIN * Z.of_nat (length (a :: l)))%Z →
  is_Some (run retention render settings now_mono now io r start files persist (a :: l) s).
Proof.
  intros Hs Hm Hmax Ht. unfold run.
  set (st := Build_RunState s [] [] _ _ _).
  destruct (run_loop_terminates retention (id r) (run_deadline settings now_mono now r) start
    files a l st) as [[st' o] E].
  - apply paced_min.
  - done.
  - unfold run_deadline. rewrite length_cons in Ht. lia.
  - rewrite E. eauto.
Qed.

(** Every run of a task broadcasts exactly one terminal event, and it is
    the last one: subscribers never see a second outcome, nor progress after
    it. *)
Theorem task_run_one_terminal_event {S : Type} `{Backend S} `{SerdeJson} retention render
    settings now_mono now io r start files persist l (s : S) st :
  run retention render settings now_mono now io r start files persist l s = Some st →
  ∃ earlier final, rs_sent st = earlier ++ [final] ∧ event_is_terminal final = true
    ∧ Forall (λ e, event_is_terminal e = false) earlier.
Proof.
  unfold run. destruct (run_loop _ _ _ _ _ _ _) as [[st' o]|] eqn:E; [|done].
  apply run_loop_spec in E as [Hq _]; [|apply paced_min|by constructor].
  intros [= <-]. destruct o as [v|[cls e]]; cbn; eauto.
Qed.

(** A request is filed at most once.  Of all the upstream calls a run makes
    the first is the one it was started with and every later one only asks
    after the upstream's own task, without the client's files. *)
Theorem task_dispatched_at_most_once {S : Type} `{Backend S} `{SerdeJson} retention render
    settings now_mono now io r start files persist l (s : S) st :
  run retention render settings now_mono now io r start files persist l s = Some st →
  ∃ rest, rs_calls st = (start, files) :: rest
    ∧ Forall (λ c, ∃ up, c = (StartResume up, false)) rest.
Proof.
  unfold run. destruct (run_loop _ _ _ _ _ _ _) as [[st' o]|] eqn:E; [|done].
  apply run_loop_spec in E as [_ (rest & Hr & Hf)]; [|apply paced_min|by constructor].
  intros [= <-]. exists rest. split; [|done]. by destruct o as [v|[cls e]].
Qed.

(** The stored outcome is the broadcast one.  When the run of a task that is
    stored and running ends and its write goes through, the record read back is
    completed or failed as the terminal event says, with the error's class and
    the message clamped. *)
Theorem stored_outcome_matches_event {S : Type} `{BackendLaws S} `{SerdeJson} retention render
    i io o (st : RunState S) r0 :
  b_wf (rs_store st) → get retention (io_read io) i (rs_store st) = Some r0 →
  state_is_terminal (t_state r0) = false → io_fails io = None →
  (io_prune io - retention ≤ io_write io)%Z →
  let st' := conclude retention render i io o st in
  ∃ r, b_get i (rs_store st') = Some r ∧
  match last (rs_sent st') with
  | Some (TaskEvent.Done v) =>
      t_state r = TaskState.Completed
      ∧ result_text r = Some (clamp (render v) RESULT_TEXT_MAX_BYTES)
  | Some (TaskEvent.Failed cls m) =>
      t_state r = TaskState.Failed ∧ error_class r = Some cls
      ∧ error r = Some (clamp m RESULT_TEXT_MAX_BYTES)
  | _ => False
  end.
Proof.
  intros Hwf Hg Ht Hf Hp st'.
  assert (id r0 = i) as Hid.
  { unfold get in Hg. destruct (b_get i _) as [r1|] eqn:E; [|done].
    destruct (live _ _ r1); [|done]. simplify_eq. by eapply wf_id. }
  subst st'. destruct o as [v|[cls e]]; cbn [conclude].
  - eexists. split.
    + eapply (update_running_read retention io); try done.
    + cbn [send rs_sent]. rewrite last_snoc. done.
  - eexists. split.
    + eapply (update_running_read retention io); try done.
    + cbn [send rs_sent]. rewrite last_snoc. done.
Qed.

(** *** Witnesses: an agent that goes asynchronous, breaks, and then finishes *)

Definition demo_task : TaskRecord :=
  set_started §"a2a" [] (TaskRecord_new 1000 §"a" §"ctx" §"tool" (Some §"me")).

Definition async_event : Value := json_object [(§"task_id", Value.String §"up-1")].

Definition demo_rounds : list Attempt :=
  [ {| at_open := OpenOk [ {| dl_io := plain_io 1001; dl_ev := StreamEvent.Task async_event |} ]
                    EndClosed; at_now := 0 |};
    {| at_open := OpenOk [ {| dl_io := plain_io 1002; dl_ev := StreamEvent.Done Value.Null |} ]
                    EndClosed; at_now := RESUME_BACKOFF_MIN |};
    {| at_open := OpenDeadline; at_now := RESUME_BACKOFF_MIN * 2 |};
    {| at_open := OpenDeadline; at_now := RESUME_BACKOFF_MIN * 3 |} ].

Definition short_settings : TaskSettings :=
  {| block := 1; stream_max := 1; task_max := 1; mcp_wait := 1; mcp_check_after_secs := 1 |}.

Definition demo_run : option (RunState Memory) :=
  run (H0 := sample_json) 1000000 (λ _, §"text") short_settings 0 1000 (plain_io 1003)
    demo_task (StartDispatch Value.Null) true Now demo_rounds
    (memory_put demo_task Memory_default).

Lemma task_run_terminates_witness : is_Some demo_run.
Proof.
  apply (task_run_terminates (H0 := sample_json) 1000000 (λ _, §"text") short_settings 0 1000
    (plain_io 1003) demo_task (StartDispatch Value.Null) true Now); cbn; unfold RESUME_BACKOFF_MIN; lia.
Defined.

Lemma task_run_one_terminal_event_witness :
  ∃ st earlier final, demo_run = Some st ∧ rs_sent st = earlier ++ [final]
    ∧ event_is_terminal final = true.
Proof.
  eexists. edestruct (task_run_one_terminal_event (H0 := sample_json) 1000000 (λ _, §"text")
    short_settings 0 1000 (plain_io 1003) demo_task (StartDispatch Value.Null) true Now
    demo_rounds (memory_put demo_task Memory_default)) as (e & f & E & T & _).
  { vm_compute. reflexivity. }
  exists e, f. split; [vm_compute; reflexivity|]. split; [exact E|exact T].
Defined.

Lemma task_dispatched_at_most_once_witness :
  ∃ st rest, demo_run = Some st ∧ rs_calls st = (StartDispatch Value.Null, true) :: rest.
Proof.
  eexists. edestruct (task_dispatched_at_most_once (H0 := sample_json) 1000000 (λ _, §"text")
    short_settings 0 1000 (plain_io 1003) demo_task (StartDispatch Value.Null) true Now
    demo_rounds (memory_put demo_task Memory_default)) as (rest & E & _).
  { vm_compute. reflexivity. }
  exists rest. split; [vm_compute; reflexivity|exact E].
Defined.

Lemma stored_outcome_matches_event_witness :
  let st := Build_RunState (memory_put demo_task Memory_default) [] [] None None
              RESUME_BACKOFF_MIN in
  ∃ r, b_get §"a" (rs_store (conclude (H0 := sample_json) 1000000 (λ _, §"text") §"a"
                               (plain_io 1003) (Ok Value.Null) st)) = Some r
       ∧ t_state r = TaskState.Completed.
Proof.
  intros st.
  destruct (stored_outcome_matches_event (H1 := sample_json) 1000000 (λ _, §"text") §"a"
    (plain_io 1003) (Ok Value.Null) st demo_task) as (r & E & P).
  - split; [vm_compute; lia|]. cbn. apply map_Forall_insert_2; [done|apply map_Forall_empty].
  - vm_compute. reflexivity.
  - reflexivity.
  - reflexivity.
  - cbn. lia.
  - exists r. split; [exact E|]. exact (proj1 P).
Defined.

(** ** Starting and resuming: at most one runner per task *)

(** The process: the hub, the store, and the runners that are alive, each with
    its task and how it was started. *)
Record Process (S : Type) := {
  hub : TaskHub;
  store : S;
  runners : list (str * Start);
}.
Arguments hub {S} _.
Arguments store {S} _.
Arguments runners {S} _.
Arguments Build_Process {S} _ _ _.

Section Start.
Context {S : Type} `{Backend S}.
Variable retention : Z.
Variable settings : TaskSettings.
Implicit Types ps : Process S.

Definition spawn (i : str) (how : Start) ps : Process S :=
  Build_Process (hub ps) (store ps) ((i, how) :: runners ps).

Definition start (io : StoreIo) (r : TaskRecord) (how : Start) (protocol : str)
    (ov : ContextOverrides) (persist : Persist) ps : result unit StartError * Process S :=
  match hub_open (id r) (hub ps) with
  | None => (Err Running, ps)
  | Some h =>
      let r := set_updated (io_write io) (set_started protocol (triton_meta ov) r) in
      match persist with
      | Now =>
          match put retention io r (store ps) with
          | (Err e, s) => (Err (StoreFailed e), Build_Process (hub_close (id r) h) s (runners ps))
          | (Ok _, s) => (Ok (), spawn (id r) how (Build_Process h s (runners ps)))
          end
      | OnAsync => (Ok (), spawn (id r) how (Build_Process h (store ps) (runners ps)))
      end
  end.

Definition INTERRUPTED : str :=
  §"the task was interrupted by a gateway restart; send the request again".

(** [true] when the caller gets a subscription. *)
Definition ensure_running (io : StoreIo) (now : Z) (r : TaskRecord) ps : bool * Process S :=
  if state_is_terminal (t_state r) then (false, ps)
  else match subscribe_or_claim retention (io_read io) (id r) (store ps) (hub ps) with
       | (Live, h) => (true, Build_Process h (store ps) (runners ps))
       | (Finished, h) => (false, Build_Process h (store ps) (runners ps))
       | (Claimed r, h) =>
           if (task_max settings * 1000 <? now - created_ms r)%Z then
             (false, Build_Process (hub_close (id r) h)
                       (fail retention io (id r) CLASS_EXPIRED EXPIRED (store ps)).2
                       (runners ps))
           else match upstream_task_id r with
                | None =>
                    (false, Build_Process (hub_close (id r) h)
                              (fail retention io (id r) CLASS_INTERRUPTED INTERRUPTED
                                 (store ps)).2 (runners ps))
                | Some up => (true, spawn (id r) (StartResume up)
                                      (Build_Process h (store ps) (runners ps)))
                end
       end.

(** The steps of the process: a start, a caller asking after its task, a
    write by a runner or a courier, and the end of a runner, whose guard
    closes the hub entry. *)
Inductive step : Process S → Process S → Prop :=
  | StepStart io r how pr ov persist ps :
      step ps (start io r how pr ov persist ps).2
  | StepEnsure io now r ps : step ps (ensure_running io now r ps).2
  | StepWrite io i f ps :
      (∀ r, id (f r) = id r) →
      step ps (Build_Process (hub ps) (update_running retention io i f (store ps)).2
                 (runners ps))
  | StepEnd i how before after ps :
      runners ps = before ++ (i, how) :: after →
      step ps (Build_Process (hub_close i (hub ps)) (store ps) (before ++ after)).

Inductive reachable (s : S) : Process S → Prop :=
  | ReachInit : reachable s (Build_Process ∅ s [])
  | ReachStep ps ps' : reachable s ps → step ps ps' → reachable s ps'.

(** The hub lists exactly the tasks that have a runner, each once. *)
Definition one_runner ps : Prop :=
  NoDup (runners ps).*1 ∧ hub ps = list_to_set (runners ps).*1.

Lemma one_runner_spawn i how ps s :
  one_runner ps → i ∉ hub ps →
  one_runner (spawn i how (Build_Process ({[i]} ∪ hub ps) s (runners ps))).
Proof.
  intros [Hnd Hh] Hi. split; cbn [spawn runners hub fmap list_fmap].
  - constructor; [|done]. rewrite Hh, elem_of_list_to_set in Hi. done.
  - rewrite Hh. done.
Qed.

Lemma close_open i (h : TaskHub) : i ∉ h → hub_close i ({[i]} ∪ h) = h.
Proof. unfold hub_close. set_solver. Qed.

Context `{!BackendLaws S}.

Lemma step_one_runner ps ps' :
  b_wf (store ps) → one_runner ps → step ps ps' → b_wf (store ps') ∧ one_runner ps'.
Proof.
  intros Hwf Hone Hst. destruct Hst as [io r how pr ov persist ps|io now r ps|io i f ps Hf
    |i how before after ps Hr].
  - unfold start, hub_open. case_decide as Hi; [done|].
    destruct persist; [|split; [done|by apply one_runner_spawn]].
    set (r1 := set_updated _ _). change (id r1) with (id r).
    pose proof (put_wf (io_fails io) (io_prune io - retention) r1 _ Hwf) as Hw.
    unfold put. destruct (b_put _ _ _ _) as [[[]|e] s]; cbn in Hw |- *.
    + split; [done|]. by apply one_runner_spawn.
    + split; [done|]. rewrite close_open by done. by destruct ps.
  - unfold ensure_running. destruct (state_is_terminal (t_state r)); [done|].
    unfold subscribe_or_claim. case_decide as Hi; [by destruct ps|].
    destruct (get _ _ _ _) as [r1|] eqn:Eg; [|by destruct ps].
    destruct (state_is_terminal (t_state r1)) eqn:Et; [by destruct ps|].
    assert (id r1 = id r) as Eid.
    { unfold get in Eg. destruct (b_get _ _) as [r2|] eqn:E; [|done].
      destruct (live _ _ r2); [|done]. simplify_eq. by eapply wf_id. }
    rewrite Eid. destruct (_ <? _)%Z; [|destruct (upstream_task_id r1) as [up|]].
    + cbn. split; [by apply update_running_wf|]. rewrite close_open by done. by destruct ps.
    + split; [done|]. by apply one_runner_spawn.
    + cbn. split; [by apply update_running_wf|]. rewrite close_open by done. by destruct ps.
  - cbn. split; [by apply update_running_wf|]. by destruct ps.
  - cbn. split; [done|]. destruct Hone as [Hnd Hh]. unfold one_runner. cbn.
    rewrite Hr in Hnd, Hh. rewrite fmap_app in Hnd, Hh |- *. cbn in Hnd, Hh.
    apply NoDup_app in Hnd as (N1 & N2 & N3). apply NoDup_cons in N3 as [N3 N4].
    split; [apply NoDup_app; repeat split; [done|set_solver|done]|].
    rewrite Hh. unfold hub_close. apply set_eq. intros x.
    rewrite elem_of_difference, !elem_of_list_to_set, !elem_of_app, elem_of_cons,
      elem_of_singleton.
    split; [naive_solver|]. intros Hx.
    assert (x ≠ i) by (intros ->; destruct Hx; [apply (N2 i); set_solver|done]). tauto.
Qed.
End Start.

(** A task never has two runners.  In every reachable state of the process,
    however starts, owners asking after their tasks, store writes and runner
    ends interleave, each task has at most one runner, and the hub lists
    exactly the tasks that have one. *)
Theorem at_most_one_runner {S : Type} `{BackendLaws S} retention settings (s : S) ps :
  b_wf s → reachable retention settings s ps →
  NoDup (runners ps).*1 ∧ hub ps = list_to_set (runners ps).*1.
Proof.
  intros Hwf Hr.
  assert (b_wf (store ps) ∧ one_runner ps) as [_ Hone]; [|exact Hone].
  induction Hr as [|ps ps' _ [IH1 IH2] Hst].
  - split; [done|]. split; [constructor|done].
  - by eapply step_one_runner.
Qed.

Lemma at_most_one_runner_witness :
  let r := TaskRecord_new 0 §"a" §"c" §"t" None in
  let ps := (start 1000 (plain_io 0) r (StartDispatch Value.Null) §"a2a" no_overrides Now
               (Build_Process ∅ Memory_default [])).2 in
  hub ps = list_to_set (runners ps).*1.
Proof.
  intros r ps. apply (at_most_one_runner 1000 TaskSettings_default Memory_default ps).
  - split; [cbn; lia|apply map_Forall_empty].
  - eapply ReachStep; [apply ReachInit|]. apply StepStart.
Defined.

(** ** A task's events in the dispatcher's vocabulary *)

(** What a receiver gets, up to the point where the channel is closed. *)
Inductive Recv :=
  | Got (e : TaskEvent)
  | Lagged.

Definition opt_string (o : option str) : Value :=
  match o with Some s => Value.String s | None => Value.Null end.
Definition opt_number (o : option Z) : Value :=
  match o with Some n => Value.Number (Value.Int n) | None => Value.Null end.

Definition stream_event_of (e : TaskEvent) : StreamEvent :=
  match e with
  | TaskEvent.Token t => StreamEvent.Token t
  | TaskEvent.Async up check rc nt =>
      StreamEvent.Task (json_object
        [(§"task_id", Value.String up); (§"check_after_seconds", opt_number check);
         (§"receipt", opt_string rc); (§"note", opt_string nt)])
  | TaskEvent.Progress p =>
      StreamEvent.Progress (json_object
        [(§"text", Value.String (p_text p)); (§"step", opt_string (p_step p));
         (§"percent", opt_number (p_percent p))])
  | TaskEvent.Done v => StreamEvent.Done v
  | TaskEvent.Failed cls m => event_error (error_of cls m)
  end.

(** The stored outcome that stands in when the channel closes early. *)
Definition stored_event (r : TaskRecord) : option StreamEvent :=
  match t_state r with
  | TaskState.Completed =>
      Some (StreamEvent.Done
        (default (json_object
           [(§"surface", json_object
               [(§"text", Value.String (default [] (result_text r)))])]) (t_result r)))
  | TaskState.Failed => Some (event_error (stored_error r))
  | _ => None
  end.

(** [closed] is the record the store holds when the channel closes. *)
Fixpoint as_stream_events (rx : list Recv) (closed : option TaskRecord) : list StreamEvent :=
  match rx with
  | [] => match closed ≫= stored_event with Some e => [e] | None => [] end
  | Lagged :: rx' => as_stream_events rx' closed
  | Got e :: rx' =>
      stream_event_of e
        :: (if event_is_terminal e then [] else as_stream_events rx' closed)
  end.

(** [wait_terminal]; the list ends at the deadline or when the channel closes. *)
Fixpoint wait_terminal (rx : list Recv) : option TaskEvent :=
  match rx with
  | [] => None
  | Got e :: rx' => if event_is_terminal e then Some e else wait_terminal rx'
  | Lagged :: rx' => wait_terminal rx'
  end.

Lemma stream_event_terminal e : is_terminal (stream_event_of e) = event_is_terminal e.
Proof. by destruct e. Qed.

(** A subscriber's stream ends properly.  If the terminal event arrives, or
    the channel closes on a task stored as completed or failed, the translated
    stream has exactly one terminal event and it is the last; lost events in
    between only shorten it. *)
Theorem task_stream_one_terminal rx closed :
  (∃ e, Got e ∈ rx ∧ event_is_terminal e = true)
  ∨ (∃ r, closed = Some r ∧ state_is_terminal (t_state r) = true) →
  ∃ earlier final, as_stream_events rx closed = earlier ++ [final]
    ∧ is_terminal final = true ∧ Forall (λ e, is_terminal e = false) earlier.
Proof.
  induction rx as [|[e|] rx IH]; intros Hend; cbn [as_stream_events].
  - destruct Hend as [(e & He & _)|(r & -> & Ht)]; [set_solver|].
    cbn. unfold stored_event. destruct (t_state r); try done; by eexists [], _.
  - destruct (event_is_terminal e) eqn:Ee.
    + exists [], (stream_event_of e). rewrite stream_event_terminal. done.
    + destruct IH as (earlier & final & -> & Hf & Hall).
      { destruct Hend as [(e' & [[= ->]|He]%elem_of_cons & Ht)|?]; [congruence|eauto|auto]. }
      exists (stream_event_of e :: earlier), final. split; [done|]. split; [done|].
      constructor; [by rewrite stream_event_terminal|done].
  - apply IH. destruct Hend as [(e & He & Ht)|?]; [|auto].
    apply elem_of_cons in He as [?|?]; [done|eauto].
Qed.

Lemma task_stream_one_terminal_witness :
  ∃ earlier final,
    as_stream_events [Got (TaskEvent.Token §"hi"); Lagged] (Some (task_a TaskState.Failed))
    = earlier ++ [final] ∧ is_terminal final = true.
Proof.
  destruct (task_stream_one_terminal [Got (TaskEvent.Token §"hi"); Lagged]
    (Some (task_a TaskState.Failed))) as (e & f & E & T & _).
  - right. eexists. split; reflexivity.
  - exists e, f. split; [exact E|exact T].
Defined.

(** ** What a person sees of a failure *)

Definition notices : list str :=
  [EXPIRED_NOTICE; user_notice (Tool []); user_notice (RateLimited []);
   user_notice (Auth []); user_notice (Validation [])].

(** An upstream's raw error text reaches a person only where it is meant to.
    For every failure class but the agent's own errors and the interrupted
    task's fixed sentence, the text shown is one of five fixed sentences,
    whatever the message says. *)
Theorem failure_text_is_neutral cls message :
  cls ≠ CLASS_INTERRUPTED → cls ≠ CLASS_AGENT → user_text cls message ∈ notices.
Proof.
  intros Hi Ha. unfold user_text. rewrite !decide_False by done. unfold error_notice.
  case_decide; [unfold notices; set_solver|]. unfold notices.
  destruct (error_of cls message); cbn [user_notice]; set_solver.
Qed.

Lemma failure_text_is_neutral_witness :
  user_text §"tool" §"upstream returned 500: secret" ∈ notices.
Proof. apply (failure_text_is_neutral §"tool"); done. Defined.

(** The class and the message of an error determine it. *)
Lemma error_of_class e : error_of (class e) (message e) = e.
Proof. by destruct e. Qed.

(** Owner keys collide.  Two different callers of the same issuer whose
    subject and tenant read the same around the separator have the same key, so
    each may read the other's tasks. *)
Theorem owner_keys_collide p q a b c :
  idp p = idp q → sub p = a ++ §"|" ++ b → tenant p = c →
  sub q = a → tenant q = b ++ §"|" ++ c → owner_key p = owner_key q.
Proof.
  intros Hi Hs Ht Hs' Ht'. unfold owner_key. rewrite Hi, Hs, Ht, Hs', Ht'.
  by rewrite <-!app_assoc.
Qed.

(** Without the separator in the subjects and the issuers the key is faithful. *)
Lemma owner_key_inj p q :
  ("|"%char ∉ sub p) → ("|"%char ∉ sub q) → idp p = idp q →
  owner_key p = owner_key q → sub p = sub q ∧ tenant p = tenant q.
Proof.
  intros Hp Hq Hi. unfold owner_key. rewrite Hi. intros E. apply app_inv_head in E.
  change (§"|" ++ sub p ++ §"|" ++ tenant p) with ("|"%char :: (sub p ++ "|"%char :: tenant p)) in E.
  change (§"|" ++ sub q ++ §"|" ++ tenant q) with ("|"%char :: (sub q ++ "|"%char :: tenant q)) in E.
  injection E as E. assert (Some (sub p, tenant p) = Some (sub q, tenant q)) as Es.
  { rewrite <-(split_once_app "|" (sub p) (tenant p)), <-(split_once_app "|" (sub q) (tenant q)) by done.
    by rewrite E. }
  by simplify_eq.
Qed.

Lemma clamp_bounded s max :
  length (clamp s max) ≤ max + 3
  ∧ (valid_utf8 s = true → ∃ cut, cut ≤ max ∧ valid_utf8 (take cut s) = true
     ∧ (clamp s max = s ∨ clamp s max = take cut s ++ ellipsis)).
Proof.
  unfold clamp. destruct (length s <=? max)%nat eqn:E; bool_facts.
  - split; [lia|]. intros Hv. exists 0. split; [lia|]. auto.
  - pose proof (floor_char_boundary_le s max). split.
    + rewrite length_app, length_take. cbn. lia.
    + intros Hv. exists (floor_char_boundary s max). split; [done|].
      split; [by apply valid_utf8_floor|auto].
Qed.
