(* ===== verification/Message.v ===== *)
(** * Message: stateless send-message actions
    (crates/triton-correlation/src/message.rs)

    A click sends one complete message: a fixed text, or a template whose
    [{name}] placeholders the submitted inputs fill and whose [[[ ... ]]]
    segments are optional.  The scanner works on byte offsets, as the source
    does. *)

From S2P Require Import Prelude Json.

Definition SEND_MESSAGE_TOOL : str := §"__send_message".

Definition text_args (text : str) : Value := json_object [(§"m", Value.String text)].
Definition template_args (tpl : str) : Value := json_object [(§"tpl", Value.String tpl)].

Inductive MessageError :=
  | Empty
  | Missing (names : list str).

(** ** The scanner *)

Definition is_name_byte (b : ascii) : bool :=
  is_ascii_alphanumeric b || bool_decide (b ∈ §"_.-").

(** How many name bytes [s] starts with. *)
Fixpoint name_len (s : str) : nat :=
  match s with
  | b :: s' => if is_name_byte b then S (name_len s') else 0
  | [] => 0
  end.

(** [part[i..j]] *)
Definition slice (i j : nat) (s : str) : str := take (j - i) (drop i s).

(** The loop from offset [i]; every round advances by a byte at least, so the
    length of the string is fuel enough. *)
Fixpoint scan_from (fuel : nat) (t : str) (i : nat) : list (str * nat * nat) :=
  match fuel with
  | 0 => []
  | S fuel' =>
      if (i <? length t)%nat then
        let j := i + 1 + name_len (drop (i + 1) t) in
        if bool_decide (t !! i = Some "{"%char) && (i + 1 <? j)%nat
           && bool_decide (t !! j = Some "}"%char)
        then (slice (i + 1) j t, i, j + 1) :: scan_from fuel' t (j + 1)
        else scan_from fuel' t (i + 1)
      else []
  end.

Definition scan (t : str) : list (str * nat * nat) := scan_from (length t) t 0.

(** [if !out.contains(name) { out.push(name) }] *)
Definition push_new (out : list str) (name : str) : list str :=
  if decide (name ∈ out) then out else out ++ [name].

Definition scan_names (t : str) : list str := (λ x, x.1.1) <$> scan t.

Definition placeholders (t : str) : list str := fold_left push_new (scan_names t) [].

(** ** Segments *)

(** The loop over [[[ ... ]]]; each round consumes four bytes at least. *)
Fixpoint segments_from (fuel : nat) (rest : str) : list (str * bool) :=
  let tail := if is_empty rest then [] else [(rest, false)] in
  match fuel with
  | 0 => tail
  | S fuel' =>
      match find_sub §"[[" rest with
      | None => tail
      | Some open =>
          match find_sub §"]]" (drop (open + 2) rest) with
          | None => tail
          | Some close =>
              (if (0 <? open)%nat then [(take open rest, false)] else [])
                ++ (slice (open + 2) (open + 2 + close) rest, true)
                :: segments_from fuel' (drop (open + 2 + close + 2) rest)
          end
      end
  end.

Definition segments (t : str) : list (str * bool) := segments_from (length t) t.

Definition required_placeholders (t : str) : list str :=
  fold_left (λ out '(part, optional),
    if (optional : bool) then out else fold_left push_new (scan_names part) out)
    (segments t) [].

(** ** Filling *)

(** The value of a placeholder, trimmed; [None] when absent or blank. *)
Definition filled_value (value : str → option str) (name : str) : option str :=
  match value name with
  | Some v => if is_empty (trim v) then None else Some (trim v)
  | None => None
  end.

Section Fill.
Variable value : str → option str.

(** The loop of [fill_part]: the text so far, the missing names, the offset
    reached. *)
Definition fill_step (part : str) (st : str * list str * nat) (x : str * nat * nat)
    : str * list str * nat :=
  let '(out, missing, last) := st in
  let '(name, start, en) := x in
  let out := out ++ slice last start part in
  match filled_value value name with
  | Some v => (out ++ v, missing, en)
  | None => (out, push_new missing name, en)
  end.

Definition fill_part (part : str) (missing : list str) : str * list str :=
  let '(out, missing, last) := fold_left (fill_step part) (scan part) ([], missing, 0) in
  (out ++ drop last part, missing).

Definition fill_segment (st : str * list str) (seg : str * bool) : str * list str :=
  let '(out, missing) := st in
  let '(part, optional) := seg in
  let '(filled, part_missing) := fill_part part [] in
  if (optional : bool) then (if is_empty part_missing then out ++ filled else out, missing)
  else (out ++ filled, fold_left push_new part_missing missing).

Definition fill_template (t : str) : result str MessageError :=
  let '(out, missing) := fold_left fill_segment (segments t) ([], []) in
  if is_empty missing then Ok out else Err (Missing missing).

Definition resolve (args : Value) : result str MessageError :=
  match get_str §"m" args with
  | Some m => let m := trim m in if is_empty m then Err Empty else Ok m
  | None =>
      match get_str §"tpl" args with
      | Some tpl =>
          text ←? fill_template tpl;
          if is_empty (trim text) then Err Empty else Ok (trim text)
      | None => Err Empty
      end
  end.
End Fill.

(** The angle quotes U+2039 and U+203A. *)
Definition open_quote : str := ascii_of_N <$> [0xE2; 0x80; 0xB9]%N.
Definition close_quote : str := ascii_of_N <$> [0xE2; 0x80; 0xBA]%N.

Definition preview_part (label : str → option str) (part : str) : str :=
  let '(out, last) :=
    fold_left (λ '(out, last) '(name, start, en),
      (out ++ slice last start part ++ open_quote ++ default name (label name) ++ close_quote, en))
      (scan part) ([], 0) in
  out ++ drop last part.

Definition preview_template (label : str → option str) (t : str) : str :=
  concat ((λ '(part, _), preview_part label part) <$> segments t).

Definition rename_placeholders (rename : str → str) (t : str) : str :=
  let '(out, last) :=
    fold_left (λ '(out, last) '(name, start, en),
      (out ++ slice last start t ++ §"{" ++ rename name ++ §"}", en))
      (scan t) ([], 0) in
  out ++ drop last t.

(** ** The template as data *)

Definition text_part (s : str) : Value := json_object [(§"text", Value.String s)].
Definition field_part (name : str) : Value := json_object [(§"field", Value.String name)].

Definition flat (part : str) : list Value :=
  let '(out, last) :=
    fold_left (λ '(out, last) '(name, start, en),
      ((if (last <? start)%nat then out ++ [text_part (slice last start part)] else out)
         ++ [field_part name], en))
      (scan part) ([], 0) in
  if (last <? length part)%nat then out ++ [text_part (drop last part)] else out.

Definition template_parts (t : str) : Value :=
  Value.Array (concat ((λ '(part, optional),
    if (optional : bool) then [json_object [(§"optional", Value.Array (flat part))]]
    else flat part) <$> segments t)).

(** What a client does with the parts, as their documentation says: literal
    text, required fields, and optional groups kept only when every field in
    them has a non-blank value; values trimmed. *)
Section Client.
Variable value : str → option str.

(** One [text] or [field] part. *)
Definition client_leaf (st : str * list str) (v : Value) : str * list str :=
  let '(out, missing) := st in
  match get_str §"text" v, get_str §"field" v with
  | Some s, _ => (out ++ s, missing)
  | None, Some name =>
      match filled_value value name with
      | Some x => (out ++ x, missing)
      | None => (out, push_new missing name)
      end
  | None, None => st
  end.

Definition client_part (st : str * list str) (v : Value) : str * list str :=
  match value_get §"optional" v with
  | Some (Value.Array l) =>
      let '(filled, m) := fold_left client_leaf l ([], []) in
      if is_empty m then (st.1 ++ filled, st.2) else st
  | _ => client_leaf st v
  end.

Definition client_fill (parts : Value) : result str MessageError :=
  match parts with
  | Value.Array l =>
      let '(out, missing) := fold_left client_part l ([], []) in
      if is_empty missing then Ok out else Err (Missing missing)
  | _ => Err Empty
  end.
End Client.

Example fill_example :
  fill_template (λ n, if decide (n = §"a") then Some §" x " else None)
    §"Do {a}[[ because {b}]] now" = Ok §"Do x now".
Proof. reflexivity. Qed.

(** ** Fuel *)

Lemma scan_from_fuel fuel t i :
  length t ≤ i + fuel → scan_from (S fuel) t i = scan_from fuel t i.
Proof.
  revert i. induction fuel as [|fuel IH]; intros i Hi.
  { cbn [scan_from]. by rewrite (proj2 (Nat.ltb_ge _ _)) by lia. }
  cbn [scan_from]. destruct (i <? length t)%nat; [|done].
  destruct (_ && _ && _); [f_equal|]; apply IH; lia.
Qed.

Lemma segments_from_fuel fuel rest :
  length rest ≤ fuel → segments_from (S fuel) rest = segments_from fuel rest.
Proof.
  revert rest. induction fuel as [|fuel IH]; intros rest Hl.
  { destruct rest; [done|simpl in Hl; lia]. }
  change (segments_from (S (S fuel)) rest) with
    (let tail := if is_empty rest then [] else [(rest, false)] in
     match find_sub §"[[" rest with
     | None => tail
     | Some open =>
         match find_sub §"]]" (drop (open + 2) rest) with
         | None => tail
         | Some close =>
             (if (0 <? open)%nat then [(take open rest, false)] else [])
               ++ (slice (open + 2) (open + 2 + close) rest, true)
               :: segments_from (S fuel) (drop (open + 2 + close + 2) rest)
         end
     end).
  cbn [segments_from]. cbv zeta. destruct (find_sub §"[[" rest) as [o|] eqn:Eo; [|done].
  destruct (find_sub §"]]" _) as [c|]; [|done]. do 2 f_equal. apply IH.
  rewrite length_drop. lia.
Qed.

(** ** Collecting names *)

Lemma push_new_in out n : n ∈ out → push_new out n = out.
Proof. intros. unfold push_new. by rewrite decide_True. Qed.

Lemma push_new_out out n : n ∉ out → push_new out n = out ++ [n].
Proof. intros. unfold push_new. by rewrite decide_False. Qed.

Lemma elem_of_push_all x xs acc : x ∈ fold_left push_new xs acc ↔ x ∈ xs ∨ x ∈ acc.
Proof.
  revert acc. induction xs as [|y xs IH]; intros acc; cbn [fold_left]; [set_solver|].
  rewrite IH. unfold push_new. case_decide; set_solver.
Qed.

Lemma push_all_dedup xs acc :
  fold_left push_new (fold_left push_new xs []) acc = fold_left push_new xs acc.
Proof.
  induction xs as [|x xs IH] using rev_ind; [done|].
  rewrite !fold_left_app. cbn [fold_left].
  destruct (decide (x ∈ fold_left push_new xs [])) as [Hx|Hx].
  - rewrite push_new_in, IH by done. rewrite push_new_in; [done|].
    apply elem_of_push_all in Hx. apply elem_of_push_all. set_solver.
  - rewrite push_new_out by done. rewrite fold_left_app, IH. done.
Qed.

Lemma filter_push_all (P : str → Prop) `{∀ x, Decision (P x)} xs acc :
  filter P (fold_left push_new xs acc) = fold_left push_new (filter P xs) (filter P acc).
Proof.
  revert acc. induction xs as [|x xs IH]; intros acc; [done|]. cbn [fold_left].
  rewrite IH, filter_cons. destruct (decide (x ∈ acc)) as [Hin|Hin].
  - rewrite push_new_in by done. case_decide as HP; [|done]. cbn [fold_left].
    rewrite (push_new_in (filter P acc)); [done|]. by apply list_elem_of_filter.
  - rewrite push_new_out, filter_app, filter_cons by done. case_decide as HP.
    + cbn [fold_left]. rewrite push_new_out; [done|]. rewrite list_elem_of_filter. tauto.
    + by rewrite app_nil_r.
Qed.

Section FillFacts.
Variable value : str → option str.

Definition unfilled (name : str) : Prop := filled_value value name = None.
#[local] Instance unfilled_dec name : Decision (unfilled name).
Proof. unfold unfilled. apply _. Defined.

(** The missing names of a part are its unfilled placeholders. *)
Lemma fill_steps_missing part l out m last :
  (fold_left (fill_step value part) l (out, m, last)).1.2
  = fold_left push_new (filter unfilled ((λ x, x.1.1) <$> l)) m.
Proof.
  revert out m last. induction l as [|[[n s] e] l IH]; intros out m last; [done|].
  cbn [fold_left fill_step fmap list_fmap fst]. rewrite filter_cons. destruct (decide (unfilled n)) as [E|E].
  - rewrite E. apply IH.
  - unfold unfilled in E. destruct (filled_value value n); [apply IH|done].
Qed.

(** The text does not depend on the names already missing. *)
Lemma fill_steps_text part l out m m' last :
  (fold_left (fill_step value part) l (out, m, last)).1.1
  = (fold_left (fill_step value part) l (out, m', last)).1.1
  ∧ (fold_left (fill_step value part) l (out, m, last)).2
    = (fold_left (fill_step value part) l (out, m', last)).2.
Proof.
  revert out m m' last. induction l as [|[[n s] e] l IH]; intros out m m' last; [done|].
  cbn [fold_left fill_step]. destruct (filled_value value n); apply IH.
Qed.

Lemma fill_part_missing part m :
  fill_part value part m
  = ((fill_part value part []).1, fold_left push_new (filter unfilled (scan_names part)) m).
Proof.
  unfold fill_part. pose proof (fill_steps_missing part (scan part) [] m 0) as E.
  destruct (fill_steps_text part (scan part) [] m [] 0) as [E1 E2].
  destruct (fold_left _ _ ([], m, 0)) as [[o x] k].
  destruct (fold_left _ _ ([], [], 0)) as [[o' x'] k']. cbn [fst snd] in *. by subst.
Qed.

Lemma client_leaf_text out m s : client_leaf value (out, m) (text_part s) = (out ++ s, m).
Proof. done. Qed.

Lemma client_leaf_field out m n :
  client_leaf value (out, m) (field_part n)
  = match filled_value value n with
    | Some x => (out ++ x, m)
    | None => (out, push_new m n)
    end.
Proof. done. Qed.

(** A flat list of parts is filled like the part it came from. *)
Lemma client_flat part out0 m0 :
  fold_left (client_leaf value) (flat part) (out0, m0)
  = (out0 ++ (fill_part value part m0).1, (fill_part value part m0).2).
Proof.
  assert (∀ l fl o m last,
    fold_left (client_leaf value) fl (out0, m0) = (out0 ++ o, m) →
    let '(fl', last') := fold_left (λ '(out, last) '(name, start, en),
      ((if (last <? start)%nat then out ++ [text_part (slice last start part)] else out)
         ++ [field_part name], en)) l (fl, last) in
    let '(o', m', last2) := fold_left (fill_step value part) l (o, m, last) in
    fold_left (client_leaf value) fl' (out0, m0) = (out0 ++ o', m') ∧ last' = last2) as Hgen.
  { intros l. induction l as [|[[n s] e] l IH]; intros fl o m last Hfl; [done|].
    cbn [fold_left fill_step].
    assert (fold_left (client_leaf value)
      ((if (last <? s)%nat then fl ++ [text_part (slice last s part)] else fl)
         ++ [field_part n]) (out0, m0)
      = match filled_value value n with
        | Some v => (out0 ++ ((o ++ slice last s part) ++ v), m)
        | None => (out0 ++ (o ++ slice last s part), push_new m n)
        end) as Hstep.
    { rewrite fold_left_app. destruct (last <? s)%nat eqn:El; bool_facts.
      - rewrite fold_left_app, Hfl. cbn [fold_left].
        rewrite client_leaf_text, client_leaf_field.
        destruct (filled_value value n); by rewrite <-!app_assoc.
      - rewrite Hfl. unfold slice. replace (s - last) with 0 by lia.
        cbn [fold_left take]. rewrite client_leaf_field, app_nil_r. destruct (filled_value value n); by rewrite <-?app_assoc. }
    destruct (filled_value value n); apply IH; exact Hstep. }
  specialize (Hgen (scan part) [] [] m0 0 ltac:(by rewrite app_nil_r)).
  unfold flat, fill_part. destruct (fold_left _ (scan part) ([], 0)) as [fl' last'].
  destruct (fold_left (fill_step value part) _ _) as [[o' m'] last2].
  destruct Hgen as [Hf ->]. cbn [fst snd].
  destruct (last2 <? length part)%nat eqn:El; bool_facts.
  - rewrite fold_left_app, Hf. cbn [fold_left]. rewrite client_leaf_text. by rewrite <-app_assoc.
  - rewrite Hf, drop_ge by done. by rewrite app_nil_r.
Qed.

Lemma client_part_leaf l st :
  Forall (λ v, value_get §"optional" v = None) l →
  fold_left (client_part value) l st = fold_left (client_leaf value) l st.
Proof.
  intros Hl. revert st. induction Hl as [|v l Hv Hl IH]; intros st; [done|].
  cbn [fold_left]. unfold client_part at 2. rewrite Hv. apply IH.
Qed.

Lemma flat_no_optional part : Forall (λ v, value_get §"optional" v = None) (flat part).
Proof.
  unfold flat.
  assert (∀ l fl last, Forall (λ v, value_get §"optional" v = None) fl →
    Forall (λ v, value_get §"optional" v = None)
      (fold_left (λ '(out, last) '(name, start, en),
        ((if (last <? start)%nat then out ++ [text_part (slice last start part)] else out)
           ++ [field_part name], en)) l (fl, last)).1) as Hgen.
  { intros l. induction l as [|[[n s] e] l IH]; intros fl last Hfl; [done|].
    cbn [fold_left]. apply IH. destruct (last <? s)%nat; rewrite !Forall_app;
      repeat split; try done; by repeat constructor. }
  specialize (Hgen (scan part) [] 0 (List.Forall_nil _)).
  destruct (fold_left _ _ _) as [fl last]. cbn [fst] in Hgen.
  destruct (last <? length part)%nat; [|done].
  apply Forall_app. split; [done|]. by repeat constructor.
Qed.

(** One segment, either way. *)
Lemma client_segment st part optional :
  fold_left (client_part value)
    (if (optional : bool) then [json_object [(§"optional", Value.Array (flat part))]]
     else flat part) st
  = fill_segment value st (part, optional).
Proof.
  destruct st as [out m]. unfold fill_segment.
  destruct (fill_part value part []) as [filled pm] eqn:E.
  destruct optional.
  - cbn [fold_left].
    assert (client_part value (out, m) (json_object [(§"optional", Value.Array (flat part))])
      = let '(filled, m') := fold_left (client_leaf value) (flat part) ([], []) in
        if is_empty m' then (out ++ filled, m) else (out, m)) as -> by done.
    rewrite client_flat, E. cbn [fst snd app]. by destruct (is_empty pm).
  - rewrite client_part_leaf by apply flat_no_optional. rewrite client_flat.
    rewrite (fill_part_missing part m), E. cbn [fst snd]. f_equal.
    pose proof (fill_part_missing part []) as E2. rewrite E in E2. injection E2 as ->.
    by rewrite push_all_dedup.
Qed.

Lemma fill_segments_missing segs out m :
  (fold_left (fill_segment value) segs (out, m)).2
  = fold_left (λ acc '(part, optional),
      if (optional : bool) then acc
      else fold_left push_new (filter unfilled (scan_names part)) acc) segs m.
Proof.
  revert out m. induction segs as [|[part []] segs IH]; intros out m; [done|..];
    cbn [fold_left fill_segment];
    destruct (fill_part value part []) as [filled pm] eqn:E; rewrite IH; f_equal.
  pose proof (fill_part_missing part []) as E2. rewrite E in E2. injection E2 as ->.
  by rewrite push_all_dedup.
Qed.
End FillFacts.

(** A client that composes the message itself sends the same one.  Filling
    the template's published parts as their documentation says gives exactly
    what filling the template gives, text and missing names alike, for every
    template and every set of inputs. *)
Theorem template_parts_faithful (value : str → option str) t :
  client_fill value (template_parts t) = fill_template value t.
Proof.
  unfold client_fill, template_parts, fill_template.
  assert (∀ segs st,
    fold_left (client_part value)
      (concat ((λ '(part, optional),
        if (optional : bool) then [json_object [(§"optional", Value.Array (flat part))]]
        else flat part) <$> segs)) st
    = fold_left (fill_segment value) segs st) as ->; [|done].
  intros segs. induction segs as [|[part optional] segs IH]; intros st; [done|].
  cbn [fmap list_fmap concat fold_left]. rewrite fold_left_app, client_segment. apply IH.
Qed.

(** A message is sent only when it is complete.  Filling succeeds exactly
    when every placeholder outside the optional segments has a value that is
    not blank, and otherwise reports exactly those that have none, each once and
    in the order of first appearance. *)
Theorem fill_reports_exactly_the_missing (value : str → option str) t :
  let missing := filter (λ n, bool_decide (filled_value value n = None) = true)
                   (required_placeholders t) in
  match fill_template value t with
  | Ok _ => missing = []
  | Err e => missing ≠ [] ∧ e = Missing missing
  end.
Proof.
  intros missing.
  assert (missing = filter (unfilled value) (required_placeholders t)) as E.
  { subst missing. apply list_filter_iff. intros n. apply bool_decide_eq_true. }
  assert ((fold_left (fill_segment value) (segments t) ([], [])).2 = missing) as Hm.
  { rewrite fill_segments_missing, E. unfold required_placeholders.
    assert (∀ segs acc,
      fold_left (λ acc '(part, optional), if (optional : bool) then acc
        else fold_left push_new (filter (unfilled value) (scan_names part)) acc) segs
        (filter (unfilled value) acc)
      = filter (unfilled value) (fold_left (λ out '(part, optional),
          if (optional : bool) then out else fold_left push_new (scan_names part) out)
          segs acc)) as Hgen; [|apply (Hgen _ [])].
    intros segs. induction segs as [|[part []] segs IH]; intros acc; [done|..];
      cbn [fold_left]; [apply IH|]. rewrite <-filter_push_all. apply IH. }
  unfold fill_template. destruct (fold_left _ _ _) as [out m]. cbn [snd] in Hm. subst m.
  by destruct missing.
Qed.

(** The text a fixed action carries is the text that is sent. *)
Lemma resolve_text value text :
  has_whitespace text = false → text ≠ [] → resolve value (text_args text) = Ok text.
Proof.
  intros Hw Hne. unfold resolve. change (get_str §"m" (text_args text)) with (Some text).
  cbv zeta iota. rewrite trim_none by done. by destruct text.
Qed.
