(* ===== verification/Correlation.v ===== *)
(** * Correlation: signed callback tokens
    (crates/triton-correlation/src/lib.rs)

    A token is [b64url(body) . b64url(tag)] with the tag an HMAC-SHA256 cut to
    eight bytes; a bound token is signed under a key derived from the platform,
    the tenant and the sender it is for.  The [hmac], [sha2], [base64] and
    [serde] crates are the operations of the class [Crypto]; what is relied on
    of them are the hypotheses of the section [Laws]. *)

From S2P Require Import Prelude Json.

Definition PLATFORM_MAX_CALLBACK_DATA : nat := 64.
Definition DISCORD_MAX_CUSTOM_ID : nat := 100.
Definition HMAC_LEN : nat := 8.
Definition MIN_KEY_LEN : nat := 16.

(** The tool, its arguments and the expiry in unix hours. *)
Record CompactBody := { cb_t : str; cb_a : Value; cb_x : option Z }.

Inductive EncodeError :=
  | EmptyTool
  | OversizedToken (len cap : nat)
  | Serialise (e : str).

Inductive DecodeError :=
  | Malformed
  | BadSignature
  | Body (e : str).

Inductive KeyRingError :=
  | RingEmpty
  | TooShort (len min : nat).

Record Binding := { b_platform : str; b_tenant : str; b_sender : str }.

Class Crypto := {
  (** the 32-byte tag of a message under a key *)
  hmac_sha256 : str → str → str;
  (** [URL_SAFE_NO_PAD] *)
  b64url_encode : str → str;
  b64url_decode : str → option str;
  (** [serde_json::to_string] and [from_slice] on the body *)
  body_to_string : CompactBody → result str str;
  body_from_slice : str → result CompactBody str;
}.

(** [KeyRing]: the keys, newest first. *)
Record KeyRing := { keys : list str }.

Definition KeyRing_parse (spec : str) : result KeyRing KeyRingError :=
  let ks := filter (λ k, is_empty k = false) (trim <$> split_on "," spec) in
  if is_empty ks then Err RingEmpty
  else match list_find (λ k, (length k <? MIN_KEY_LEN)%nat = true) ks with
       | Some (_, short) => Err (TooShort (length short) MIN_KEY_LEN)
       | None => Ok {| keys := ks |}
       end.

Definition KeyRing_single (key : str) : result KeyRing KeyRingError :=
  if (length key <? MIN_KEY_LEN)%nat then Err (TooShort (length key) MIN_KEY_LEN)
  else Ok {| keys := [key] |}.

(** The key new tokens are signed with; a parsed ring has one. *)
Definition signing (r : KeyRing) : option str := head (keys r).
Definition verifying (r : KeyRing) : list str := keys r.

Definition NUL : ascii := ascii_of_N 0.
Definition DERIVATION_LABEL : str := §"triton/correlation/tenant-key/v3".

Definition derivation_input (b : Binding) : str :=
  DERIVATION_LABEL ++ [NUL] ++ b_platform b ++ [NUL] ++ b_tenant b ++ [NUL] ++ b_sender b.

Section Tokens.
Context `{Crypto}.
Implicit Types (b : Binding) (key tok : str).

Definition compute_truncated_hmac (body key : str) : str :=
  take HMAC_LEN (hmac_sha256 key body).

Definition tenant_key key b : str := hmac_sha256 key (derivation_input b).

Definition hex_digit (n : N) : ascii :=
  ascii_of_N (if (n <? 10)%N then 48 + n else 87 + n)%N.
Definition hex_prefix (bytes : str) : str :=
  concat ((λ c, [hex_digit (byte c / 16); hex_digit (byte c mod 16)]) <$> bytes).

Definition signing_fingerprint (r : KeyRing) : option str :=
  (λ k, hex_prefix (take 4 (hmac_sha256 k §"triton/correlation/fingerprint/v1")))
    <$> signing r.

(** ** Minting *)

Definition finish (body : CompactBody) key (cap : nat) : result str EncodeError :=
  json ←? result_map_err Serialise (body_to_string body);
  let mac := compute_truncated_hmac json key in
  let tok := b64url_encode json ++ §"." ++ b64url_encode mac in
  if (cap <? length tok)%nat then Err (OversizedToken (length tok) cap) else Ok tok.

Definition encode_with_cap (tool : str) (args : Value) key (cap : nat)
    : result str EncodeError :=
  if is_empty tool then Err EmptyTool
  else finish {| cb_t := tool; cb_a := args; cb_x := None |} key cap.

Definition encode (tool : str) (args : Value) key : result str EncodeError :=
  encode_with_cap tool args key PLATFORM_MAX_CALLBACK_DATA.

Definition encode_bound_at (tool : str) (args : Value) key (cap : nat) b (exp_unix_secs : Z)
    : result str EncodeError :=
  if is_empty tool then Err EmptyTool
  else finish {| cb_t := tool; cb_a := args; cb_x := Some (div_ceil exp_unix_secs 3600) |}
         (tenant_key key b) cap.

(** The expiry [encode_bound] signs; [now] is [now_secs()], [None] before the
    epoch. *)
Definition bound_expiry (now ttl_secs : option Z) : result (option Z) EncodeError :=
  match ttl_secs with
  | Some ttl =>
      match now with
      | Some n => Ok (Some (div_ceil (u64_saturating_add n ttl) 3600))
      | None => Err (Serialise §"system clock before the epoch")
      end
  | None => Ok None
  end.

Definition encode_bound (now : option Z) (tool : str) (args : Value) key (cap : nat) b
    (ttl_secs : option Z) : result str EncodeError :=
  if is_empty tool then Err EmptyTool
  else
    exp ←? bound_expiry now ttl_secs;
    finish {| cb_t := tool; cb_a := args; cb_x := exp |} (tenant_key key b) cap.

(** ** Verifying *)

(** The comparison of the tags, on both branches of the length test: the
    shorter or longer tag is cut or padded with zeros, and refused. *)
Definition tag_matches (presented expected : str) : bool :=
  let lengths_match := (length presented =? length expected)%nat in
  let content_eq :=
    if lengths_match then bool_decide (presented = expected)
    else
      let n := Nat.min (length presented) HMAC_LEN in
      let padded := take n presented ++ replicate (HMAC_LEN - n) NUL in
      bool_decide (padded = expected) in
  content_eq && lengths_match.

Definition decode_parsed tok key (cap : nat) : result CompactBody DecodeError :=
  if (cap <? length tok)%nat then Err Malformed
  else
    halves ←? ok_or (split_once "." tok) Malformed;
    body ←? ok_or (b64url_decode halves.1) Malformed;
    presented ←? ok_or (b64url_decode halves.2) Malformed;
    if tag_matches presented (compute_truncated_hmac body key) then
      parsed ←? result_map_err Body (body_from_slice body);
      if is_empty (cb_t parsed) then Err (Body §"empty tool") else Ok parsed
    else Err BadSignature.

(** [decode_with_cap] repeats the body of [decode_parsed] and drops the
    expiry. *)
Definition decode_with_cap tok key (cap : nat) : result (str * Value) DecodeError :=
  result_map (λ p, (cb_t p, cb_a p)) (decode_parsed tok key cap).

Definition decode tok key : result (str * Value) DecodeError :=
  decode_with_cap tok key PLATFORM_MAX_CALLBACK_DATA.

Definition decode_bound (now : option Z) tok key (cap : nat) b
    : result (str * Value) DecodeError :=
  p ←? decode_parsed tok (tenant_key key b) cap;
  match cb_x p with
  | Some hours =>
      match now with
      | None => Err (Body §"system clock before the epoch; cannot check expiry")
      | Some n =>
          if (u64_saturating_mul hours 3600 <? n)%Z then Err (Body §"token expired")
          else Ok (cb_t p, cb_a p)
      end
  | None => Ok (cb_t p, cb_a p)
  end.

Definition verify_tenant_binding (now : option Z) tok key (cap : nat) b
    : result unit DecodeError :=
  result_map (λ _, ()) (decode_bound now tok key cap b).

(** ** The ring *)

(** The loop of [try_ring] with the first error so far. *)
Fixpoint try_keys {A} (verify : str → result A DecodeError) (ks : list str)
    (first_error : option DecodeError) : result A DecodeError :=
  match ks with
  | [] => Err (default BadSignature first_error)
  | k :: ks' =>
      match verify k with
      | Ok v => Ok v
      | Err (Body e) => Err (Body e)
      | Err e => try_keys verify ks' (Some (default e first_error))
      end
  end.

Definition try_ring {A} (ring : KeyRing) (verify : str → result A DecodeError)
    : result A DecodeError := try_keys verify (verifying ring) None.

Definition decode_bound_any now tok (ring : KeyRing) cap b : result (str * Value) DecodeError :=
  try_ring ring (λ key, decode_bound now tok key cap b).

Definition verify_tenant_binding_any now tok (ring : KeyRing) cap b : result unit DecodeError :=
  try_ring ring (λ key, verify_tenant_binding now tok key cap b).

Definition decode_with_cap_any tok (ring : KeyRing) cap : result (str * Value) DecodeError :=
  try_ring ring (λ key, decode_with_cap tok key cap).
End Tokens.

(** ** What is relied on of the encoders *)

Class CryptoLaws `{Crypto} := {
  b64_roundtrip x : b64url_decode (b64url_encode x) = Some x;
  (** the URL-safe alphabet has no dot *)
  b64_no_dot x : ("."%char ∉ b64url_encode x);
}.

(** The derived serialiser and parser agree on this body. *)
Definition body_roundtrips `{Crypto} (body : CompactBody) : Prop :=
  ∃ json, body_to_string body = Ok json ∧ body_from_slice json = Ok body.

Section Laws.
Context `{CryptoLaws}.

Lemma tag_matches_spec p e : tag_matches p e = bool_decide (p = e).
Proof.
  unfold tag_matches. destruct (length p =? length e)%nat eqn:E; bool_facts.
  - by rewrite andb_true_r.
  - rewrite andb_false_r. symmetry. apply bool_decide_eq_false. by intros ->.
Qed.

(** What a minted token looks like. *)
Lemma finish_Ok body key cap tok :
  finish body key cap = Ok tok →
  ∃ json, body_to_string body = Ok json ∧ length tok ≤ cap
    ∧ tok = b64url_encode json
              ++ "."%char :: b64url_encode (compute_truncated_hmac json key).
Proof.
  unfold finish. destruct (body_to_string body) as [json|e]; [|done].
  cbn [result_map_err result_bind]. set (t := b64url_encode json ++ _).
  destruct (cap <? length t)%nat eqn:E; [done|]. bool_facts. intros [= <-].
  exists json. split; [done|]. split; [lia|done].
Qed.

(** Decoding a minted token under any key. *)
Lemma decode_minted body key key' cap tok :
  finish body key cap = Ok tok → body_roundtrips body → cb_t body ≠ [] →
  ∃ json, body_to_string body = Ok json ∧
  decode_parsed tok key' cap
  = if bool_decide (compute_truncated_hmac json key = compute_truncated_hmac json key')
    then Ok body else Err BadSignature.
Proof.
  intros (json & Hj & Hl & ->)%finish_Ok (json' & Hj' & Hr) Ht.
  rewrite Hj in Hj'. injection Hj' as <-.
  exists json. split; [done|]. unfold decode_parsed. rewrite (proj2 (Nat.ltb_ge _ _)) by done.
  rewrite split_once_app by apply b64_no_dot. cbn [ok_or result_bind fst snd].
  rewrite !b64_roundtrip. cbn [ok_or result_bind]. rewrite tag_matches_spec.
  case_bool_decide; [|done]. rewrite Hr. cbn [result_map_err result_bind].
  by destruct (cb_t body).
Qed.

(** Why a token was accepted. *)
Lemma decode_parsed_sound tok key cap p :
  decode_parsed tok key cap = Ok p →
  ∃ x y body, split_once "." tok = Some (x, y) ∧ length tok ≤ cap
    ∧ b64url_decode x = Some body ∧ b64url_decode y = Some (compute_truncated_hmac body key)
    ∧ body_from_slice body = Ok p ∧ cb_t p ≠ [].
Proof.
  unfold decode_parsed. destruct (cap <? length tok)%nat eqn:El; [done|]. bool_facts.
  destruct (split_once "." tok) as [[x y]|] eqn:Es; [|done]. cbn [ok_or result_bind fst snd].
  destruct (b64url_decode x) as [body|] eqn:Ex; [|done]. cbn [ok_or result_bind].
  destruct (b64url_decode y) as [mac|] eqn:Ey; [|done]. cbn [ok_or result_bind].
  rewrite tag_matches_spec. case_bool_decide as Hm; [|done].
  destruct (body_from_slice body) as [p'|] eqn:Eb; [|done]. cbn [result_map_err result_bind].
  destruct (cb_t p') eqn:Et; [done|]. intros [= <-].
  exists x, y, body. subst mac. repeat split; try done. by rewrite Et.
Qed.
End Laws.

(** ** Properties *)

(** The life of a bound token under the key that minted it. *)
Lemma minted_lifetime `{CryptoLaws} n ttl tool args key cap b tok n' :
  (0 ≤ n)%Z → (0 ≤ ttl)%Z → (n + ttl + 3600 ≤ u64_max)%Z →
  body_roundtrips {| cb_t := tool; cb_a := args; cb_x := Some (div_ceil (n + ttl) 3600) |} →
  encode_bound (Some n) tool args key cap b (Some ttl) = Ok tok →
  length tok ≤ cap
  ∧ ((n' ≤ n + ttl)%Z → decode_bound (Some n') tok key cap b = Ok (tool, args))
  ∧ ((n + ttl + 3600 ≤ n')%Z →
     decode_bound (Some n') tok key cap b = Err (Body §"token expired")).
Proof.
  intros Hn Ht Hmax Hrt. unfold encode_bound. destruct (is_empty tool) eqn:Et; [done|].
  unfold bound_expiry. cbn [result_bind]. unfold u64_saturating_add.
  rewrite Z.min_r by lia. intros Hf.
  pose proof (div_ceil_spec (n + ttl) 3600 ltac:(lia)) as Hc.
  pose proof Hf as (json & _ & Hl & _)%finish_Ok.
  destruct (decode_minted _ _ (tenant_key key b) _ _ Hf Hrt) as (json' & _ & Hd);
    [by destruct tool|].
  rewrite bool_decide_eq_true_2 in Hd by done.
  split; [done|]. unfold decode_bound. rewrite Hd. cbn [result_bind cb_x cb_t cb_a].
  unfold u64_saturating_mul. rewrite Z.min_r by lia. split; intros Hn'.
  - by rewrite (proj2 (Z.ltb_ge _ _)) by lia.
  - by rewrite (proj2 (Z.ltb_lt _ _)) by lia.
Qed.

(** C9: the life of a bound token.  A token minted with a time to live is at
    most as long as the platform allows; until its time has passed it decodes,
    for the same platform, tenant and sender, to exactly the tool and arguments
    it was minted for, and an hour after that at the latest it is refused as
    expired. *)
Theorem bound_token_lifetime `{CryptoLaws} n ttl tool args key cap b tok n' :
  (0 ≤ n)%Z → (0 ≤ ttl)%Z → (n + ttl + 3600 ≤ u64_max)%Z →
  body_roundtrips {| cb_t := tool; cb_a := args; cb_x := Some (div_ceil (n + ttl) 3600) |} →
  encode_bound (Some n) tool args key cap b (Some ttl) = Ok tok →
  length tok ≤ cap
  ∧ ((n' ≤ n + ttl)%Z → decode_bound (Some n') tok key cap b = Ok (tool, args))
  ∧ ((n + ttl + 3600 ≤ n')%Z →
     decode_bound (Some n') tok key cap b = Err (Body §"token expired")).
Proof. apply minted_lifetime. Qed.

(** Values a binding is made of contain no NUL. *)
Definition no_nul (b : Binding) : Prop :=
  (NUL ∉ b_platform b) ∧ (NUL ∉ b_tenant b) ∧ (NUL ∉ b_sender b).

Lemma derivation_input_inj b b' :
  no_nul b → no_nul b' → derivation_input b = derivation_input b' → b = b'.
Proof.
  intros (P & T & _) (P' & T' & _) E. unfold derivation_input in E.
  apply app_inv_head in E. cbn [app] in E. injection E as E.
  pose proof (split_once_app NUL _ (b_tenant b ++ NUL :: b_sender b) P) as S1.
  rewrite E, split_once_app in S1 by done. injection S1 as S1 S2.
  pose proof (split_once_app NUL _ (b_sender b) T) as S3.
  rewrite <-S2, split_once_app in S3 by done. injection S3 as S3 S4.
  destruct b, b'. cbn in *. by subst.
Qed.

(** A bound token is good for one platform, one tenant and one sender.  If
    the same token is ever accepted under two bindings, then either they are
    the same, or the eight-byte tags of one body under two keys derived from
    different inputs coincide: redeeming somebody else's token takes an HMAC
    collision. *)
Theorem bound_token_single_holder `{CryptoLaws} now now' tok key cap b b' r r' :
  no_nul b → no_nul b' →
  decode_bound now tok key cap b = Ok r → decode_bound now' tok key cap b' = Ok r' →
  b = b' ∨
  ∃ body, derivation_input b ≠ derivation_input b'
    ∧ compute_truncated_hmac body (hmac_sha256 key (derivation_input b))
      = compute_truncated_hmac body (hmac_sha256 key (derivation_input b')).
Proof.
  intros Hb Hb' Hd Hd'.
  assert (∀ now b r, decode_bound now tok key cap b = Ok r →
    ∃ p, decode_parsed tok (tenant_key key b) cap = Ok p) as Hp.
  { intros n c q. unfold decode_bound. destruct (decode_parsed _ _ _); [eauto|done]. }
  apply Hp in Hd as [p (x & y & body & E & _ & Ex & Ey & _)%decode_parsed_sound].
  apply Hp in Hd' as [p' (x' & y' & body' & E' & _ & Ex' & Ey' & _)%decode_parsed_sound].
  destruct (decide (derivation_input b = derivation_input b')) as [Ed|Ed];
    [left; by apply derivation_input_inj|right].
  exists body. split; [done|]. rewrite E in E'. unfold tenant_key in *.
  simplify_eq. congruence.
Qed.

(** *** Rotation *)

Lemma try_keys_skip {A} (verify : str → result A DecodeError) newer k rest fe :
  Forall (λ k', verify k' = Err BadSignature) newer →
  is_ok (verify k) = true ∨ (∃ e, verify k = Err (Body e)) →
  try_keys verify (newer ++ k :: rest) fe = verify k.
Proof.
  intros Hn Hk. revert fe. induction Hn as [|k' newer Hk' Hn IH]; intros fe; cbn [app try_keys].
  - destruct Hk as [Hk|[e Hk]]; [|by rewrite Hk]. by destruct (verify k) as [|[]].
  - rewrite Hk'. apply IH.
Qed.

Lemma try_keys_sound {A} (verify : str → result A DecodeError) ks fe v :
  try_keys verify ks fe = Ok v → ∃ k, k ∈ ks ∧ verify k = Ok v.
Proof.
  revert fe. induction ks as [|k ks IH]; intros fe; [done|]. cbn [try_keys].
  destruct (verify k) as [a|[| |e]] eqn:E; intros Hv; simplify_eq; [set_solver|..];
    apply IH in Hv as (k' & ? & ?); set_solver.
Qed.

(** Rotating the key breaks no button.  A token minted under a key that is
    still on the ring verifies after newer keys were put in front of it, as long
    as none of them happens to produce the same eight-byte tag; and a token is
    only ever accepted because some key on the ring accepts it. *)
Theorem rotation_keeps_tokens_valid `{CryptoLaws} now tool args newer old rest cap b ttl tok n' :
  let ring := {| keys := newer ++ old :: rest |} in
  (∀ x, bound_expiry now ttl = Ok x →
     body_roundtrips {| cb_t := tool; cb_a := args; cb_x := x |}) →
  encode_bound now tool args old cap b ttl = Ok tok →
  (∀ k x y body, k ∈ newer → split_once "." tok = Some (x, y) → b64url_decode x = Some body →
     compute_truncated_hmac body (tenant_key old b)
     ≠ compute_truncated_hmac body (tenant_key k b)) →
  decode_bound_any n' tok ring cap b = decode_bound n' tok old cap b
  ∧ (∀ r, decode_bound_any n' tok ring cap b = Ok r →
       ∃ k, k ∈ keys ring ∧ decode_bound n' tok k cap b = Ok r).
Proof.
  intros ring Hrt Henc Hneq.
  split; [|intros r; apply (try_keys_sound (λ k, decode_bound n' tok k cap b))].
  revert Henc. unfold encode_bound. destruct (is_empty tool) eqn:Et; [done|].
  assert (tool ≠ []) as Htool by (by destruct tool).
  destruct (bound_expiry now ttl) as [x|] eqn:Ex; [|done]. cbn [result_bind]. intros Hf.
  pose proof (Hrt x eq_refl) as Hr. pose proof Hf as (json & Hj & _ & Etok)%finish_Ok.
  apply (try_keys_skip (λ k, decode_bound n' tok k cap b)).
  - apply Forall_forall. intros k Hk. unfold decode_bound.
    destruct (decode_minted _ _ (tenant_key k b) _ _ Hf Hr Htool) as (json' & Hj' & ->).
    rewrite Hj in Hj'. injection Hj' as <-.
    rewrite bool_decide_eq_false_2; [done|].
    eapply Hneq; [done| |apply b64_roundtrip].
    rewrite Etok. apply split_once_app, b64_no_dot.
  - unfold decode_bound.
    destruct (decode_minted _ _ (tenant_key old b) _ _ Hf Hr Htool) as (json' & _ & ->).
    rewrite bool_decide_eq_true_2 by done. cbn [result_bind cb_x].
    destruct x as [h|]; [|by left]. destruct n' as [n|]; [|right; by eexists].
    case_if; [right; by eexists|by left].
Qed.

(** A key ring is never empty and never holds a short key.  Whatever the
    operator pasted, a ring that parses has a signing key, and every key on it
    has at least 16 bytes. *)
Theorem key_ring_sound spec r :
  KeyRing_parse spec = Ok r →
  (∃ k, signing r = Some k) ∧ Forall (λ k, 16 ≤ length k) (keys r).
Proof.
  unfold KeyRing_parse. set (ks := filter _ _).
  destruct (is_empty ks) eqn:Ee; [done|]. destruct (list_find _ ks) as [[i s]|] eqn:Ef; [done|].
  intros [= <-]. split.
  - unfold signing. cbn. destruct ks; [done|]. by eexists.
  - apply list_find_None in Ef. cbn [keys]. eapply Forall_impl; [exact Ef|].
    intros k Hk. apply not_true_is_false, Nat.ltb_ge in Hk. exact Hk.
Qed.

(** *** Witnesses: a hexadecimal encoder and a tag that is the key and the text *)

Definition hex_value (c : ascii) : option N :=
  if in_range 48 57 (byte c) then Some (byte c - 48)%N
  else if in_range 97 102 (byte c) then Some (byte c - 87)%N else None.

Fixpoint hex_decode (s : str) : option str :=
  match s with
  | [] => Some []
  | a :: b :: r =>
      x ← hex_value a; y ← hex_value b; t ← hex_decode r; Some (ascii_of_N (16 * x + y) :: t)
  | _ => None
  end.

(** Bodies with null arguments and no or a short expiry. *)
#[local] Instance demo_crypto : Crypto := {|
  hmac_sha256 k m := take 32 (k ++ rev m ++ replicate 32 NUL);
  b64url_encode := hex_prefix;
  b64url_decode := hex_decode;
  body_to_string body :=
    match cb_x body with
    | None => Ok (§"n" ++ cb_t body)
    | Some x => Ok (§"x" ++ replicate (Z.to_nat x) "i"%char ++ §";" ++ cb_t body)
    end;
  body_from_slice s :=
    match s with
    | c :: r =>
        if decide (c = "n"%char) then Ok {| cb_t := r; cb_a := Value.Null; cb_x := None |}
        else match split_once ";" r with
             | Some (i, t) => Ok {| cb_t := t; cb_a := Value.Null;
                                    cb_x := Some (Z.of_nat (length i)) |}
             | None => Err §"eof"
             end
    | [] => Err §"eof"
    end;
|}.

Lemma hex_byte c :
  (hex_value (hex_digit (byte c / 16)), hex_value (hex_digit (byte c mod 16)))
  = (Some (byte c / 16)%N, Some (byte c mod 16)%N)
  ∧ ascii_of_N (16 * (byte c / 16) + byte c mod 16) = c
  ∧ (hex_digit (byte c / 16) ≠ "."%char) ∧ (hex_digit (byte c mod 16) ≠ "."%char).
Proof. destruct c as [[] [] [] [] [] [] [] []]; vm_compute; repeat split; discriminate. Qed.

#[local] Instance demo_laws : CryptoLaws.
Proof.
  split.
  - intros x. cbn. induction x as [|c x IH]; [done|].
    unfold hex_prefix. cbn [fmap list_fmap concat app]. fold (hex_prefix x).
    cbn [hex_decode]. destruct (hex_byte c) as ([= -> ->] & E & _). cbn. by rewrite IH, E.
  - intros x. cbn. induction x as [|c x IH]; [set_solver|].
    unfold hex_prefix. cbn [fmap list_fmap concat app]. fold (hex_prefix x).
    destruct (hex_byte c) as (_ & _ & ? & ?). set_solver.
Defined.

Definition demo_binding : Binding :=
  {| b_platform := §"telegram"; b_tenant := §"acme"; b_sender := §"42" |}.

Definition token_or_nil (r : result str EncodeError) : str :=
  match r with Ok t => t | Err _ => [] end.

(** A token for [echo] that expires at the end of the second hour, and one that
    does not expire, signed under [old-key]. *)
Definition demo_token : str := Eval vm_compute in
  token_or_nil (encode_bound (Some 3600%Z) §"echo" Value.Null §"k" 100 demo_binding (Some 10%Z)).
Definition old_token : str := Eval vm_compute in
  token_or_nil (encode_bound None §"echo" Value.Null §"old-key" 100 demo_binding None).

Lemma bound_token_lifetime_witness :
  decode_bound (Some 3610%Z) demo_token §"k" 100 demo_binding = Ok (§"echo", Value.Null)
  ∧ decode_bound (Some 9000%Z) demo_token §"k" 100 demo_binding = Err (Body §"token expired").
Proof.
  assert (body_roundtrips {| cb_t := §"echo"; cb_a := Value.Null; cb_x := Some 2%Z |}) as Hr.
  { exists (§"xii;echo"). split; vm_compute; reflexivity. }
  assert (encode_bound (Some 3600%Z) §"echo" Value.Null §"k" 100 demo_binding (Some 10%Z)
    = Ok demo_token) as He by (vm_compute; reflexivity).
  split.
  - apply (bound_token_lifetime 3600 10 §"echo" Value.Null §"k" 100 demo_binding demo_token 3610
      ltac:(lia) ltac:(lia) ltac:(unfold u64_max; lia) Hr He). lia.
  - apply (bound_token_lifetime 3600 10 §"echo" Value.Null §"k" 100 demo_binding demo_token 9000
      ltac:(lia) ltac:(lia) ltac:(unfold u64_max; lia) Hr He). lia.
Defined.

Lemma bound_token_single_holder_witness :
  demo_binding = demo_binding ∨
  ∃ body, derivation_input demo_binding ≠ derivation_input demo_binding
    ∧ compute_truncated_hmac body (hmac_sha256 §"old-key" (derivation_input demo_binding))
      = compute_truncated_hmac body (hmac_sha256 §"old-key" (derivation_input demo_binding)).
Proof.
  assert (no_nul demo_binding) as Hn
    by (unfold no_nul; repeat split; apply (bool_decide_unpack _); vm_compute; exact I).
  apply (bound_token_single_holder None None old_token §"old-key" 100 demo_binding demo_binding
    (§"echo", Value.Null) (§"echo", Value.Null) Hn Hn); vm_compute; reflexivity.
Defined.

Lemma key_ring_sound_witness :
  ∃ r, KeyRing_parse §"0123456789abcdef, fedcba9876543210" = Ok r
       ∧ signing r = Some §"0123456789abcdef".
Proof.
  eexists. split; [vm_compute; reflexivity|].
  destruct (key_ring_sound §"0123456789abcdef, fedcba9876543210" _ ltac:(vm_compute; reflexivity))
    as [[k Hk] _]. rewrite Hk. vm_compute in Hk. by rewrite <-Hk.
Defined.

Lemma rotation_keeps_tokens_valid_witness :
  decode_bound_any None old_token {| keys := [§"new-key"; §"old-key"] |} 100 demo_binding
  = decode_bound None old_token §"old-key" 100 demo_binding.
Proof.
  apply (rotation_keeps_tokens_valid None §"echo" Value.Null [§"new-key"] §"old-key" [] 100
    demo_binding None old_token None).
  - intros x [= <-]. exists (§"necho"). split; vm_compute; reflexivity.
  - vm_compute. reflexivity.
  - intros k x y body Hk Hs Hd. apply list_elem_of_singleton in Hk as ->.
    vm_compute in Hs. injection Hs as <- <-. vm_compute in Hd. injection Hd as <-.
    vm_compute. discriminate.
Defined.
