(* ===== verification/A2ui.v ===== *)
(** * A2ui: the canonical surface, its rules and its wire envelopes
    (crates/triton-core/src/a2ui/mod.rs, v08.rs, v09.rs,
    crates/triton-core/src/links.rs)

    A tool answers with a [Surface]: a list of [Component]s.  [extract_surface]
    decodes it, applies the structural rules and drops every link that may not
    become a one-tap action; the builders put a surface into the envelope of a
    negotiated version, and [envelope_to_surface] takes a version 0.9 envelope
    back.  The decoder that serde derives for the types and the URL parser are
    third-party code: operations of the classes [SerdeA2ui] and [UrlParse]. *)

From S2P Require Import Prelude F64 Json.

(** ** Links *)

(** What [links.rs] reads of a parsed [url::Url]. *)
Record Url := {
  url_scheme : str;
  url_host_str : option str;
  url_username : str;
  url_password : option str;
}.

Class UrlParse := { url_parse : str → option Url }.

(** The process-wide host list: a cell that is set once. *)
Definition HttpHosts : Type := option (list str).

(** The answer says whether this call set the list. *)
Definition allow_http_hosts (hosts : list str) (cell : HttpHosts) : bool * HttpHosts :=
  let hosts := filter (λ h, is_empty h = false) ((λ h, to_ascii_lowercase (trim h)) <$> hosts) in
  match cell with
  | Some _ => (false, cell)
  | None => (true, Some hosts)
  end.

Definition http_hosts (cell : HttpHosts) : list str := default [] cell.

Section Links.
Context `{UrlParse}.

Definition no_credentials (u : Url) : bool :=
  is_empty (url_username u) && bool_decide (url_password u = None).

Definition http_link_allowed (url : str) (hosts : list str) : bool :=
  if is_empty hosts || negb (starts_with §"http://" url) then false
  else match url_parse url with
       | None => false
       | Some u =>
           match url_host_str u with
           | None => false
           | Some host =>
               let host := trim_end_char "]" (trim_start_char "[" host) in
               bool_decide (url_scheme u = §"http") && no_credentials u
               && existsb (λ h, eq_ignore_ascii_case h host) hosts
           end
       end.

Definition is_allowed_link (cell : HttpHosts) (url : str) : bool :=
  match strip_prefix §"https://" url with
  | Some rest =>
      if starts_with §"/" rest || starts_with §"\" rest then false
      else match url_parse url with
           | Some u =>
               bool_decide (url_scheme u = §"https")
               && match url_host_str u with Some h => negb (is_empty h) | None => false end
               && no_credentials u
           | None => false
           end
  | None => http_link_allowed url (http_hosts cell)
  end.
End Links.

(** ** The component vocabulary *)

Module Action.
Inductive t :=
  | SendMessage (text : str)
  | OpenUrl (url : str).
End Action.
Abbreviation Action := Action.t.

Inductive SelectionStyle := Dropdown | Radio.
#[export] Instance SelectionStyle_eq_dec : EqDecision SelectionStyle.
Proof. solve_decision. Defined.

Record SubmitTemplate := {
  st_label : str;
  st_template : str;
  st_preview_label : option str;
}.

Record SelectionOption := { o_label : str; o_value : str }.

Inductive FormFieldKind := KString | KInteger | KBoolean | KSelect | KText.

Record FormField := {
  f_name : str;
  f_label : str;
  f_kind : FormFieldKind;
  required : bool;
  placeholder : option str;
  default_value : option Value;
  options : list SelectionOption;
  f_style : SelectionStyle;
}.

Record FormGroup := {
  g_label : str;
  g_fields : list FormField;
  g_send_template : str;
}.

Record ListItem := {
  li_label : str;
  li_detail : option str;
  li_action : option Action;
  li_action_label : option str;
}.

Record TableColumn := { c_key : str; c_label : str }.

(** [BTreeMap<String, String>] in key order. *)
Definition StrMap := list (str * str).

Fixpoint str_map_get (k : str) (m : StrMap) : option str :=
  match m with
  | (k', v) :: m' => if decide (k = k') then Some v else str_map_get k m'
  | [] => None
  end.

Record TableRow := { r_cells : StrMap; r_action : option Action }.

Record Chip := { chip_label : str; chip_message : str }.

Record TreeCount := { tc_label : str; tc_value : str }.

Inductive TreeNode := {
  n_label : str;
  n_counts : list TreeCount;
  n_gap : bool;
  n_expanded : bool;
  n_chips : list Chip;
  n_action : option Action;
  n_action_label : option str;
  n_children : list TreeNode;
}.

Inductive Tone := Info | Warn | Attention.
#[export] Instance Tone_eq_dec : EqDecision Tone.
Proof. solve_decision. Defined.

Inductive StepState := Done | Active | Pending.

Record ProgressStep := { ps_label : str; ps_state : StepState }.

Record KeyValuePair := { kv_label : str; kv_value : str; kv_before : option str }.

Inductive DiffLine :=
  | Add (text : str)
  | Del (text : str)
  | Ctx (text : str)
  | Fold (count : nat) (hidden : list DiffLine).

Record SourceItem := { s_label : str; s_resource : str }.

Record DashboardTile := { t_label : str; t_value : str; t_trend : option str }.

Module Component.
Inductive t :=
  | Text (value : str) (pills : StrMap)
  | Button (label tool : str) (args : Value) (action : option Action)
      (resource : option str) (primary : bool)
  | Narration (text : str)
  | Selection (prompt : str) (options : list SelectionOption) (tool args_key : str)
      (style : SelectionStyle) (submit : option SubmitTemplate)
  | Form (title : str) (fields : list FormField) (submit_label tool : str)
      (send_template preview_label : option str)
  | Dashboard (title : str) (tiles : list DashboardTile)
  | Report (report_id : str) (args : Value) (title : option str) (series : list f64)
      (labels : list str)
  | Diff (lines : list DiffLine)
  | Sources (items : list SourceItem)
  | List (title : option str) (items : list ListItem)
  | Table (title : option str) (columns : list TableColumn) (rows : list TableRow)
  | Chips (prompt : option str) (chips : list Chip)
  | Tree (title : option str) (nodes : list TreeNode) (gaps_toggle : option str)
  | Header (title : str) (context stamp : option str)
  | FormGroups (title : option str) (groups : list FormGroup) (submit_label : str)
      (note : option str)
  | Notice (tone : Tone) (title : option str) (text : str)
  | Progress (title : option str) (steps : list ProgressStep) (fraction : option f64)
  | KeyValue (title : option str) (pairs : list KeyValuePair)
  | Embed (url title : str) (height : option Z) (fallback : t).
End Component.
Abbreviation Component := Component.t.

Record Surface := { components : list Component }.

(** The derived decoders ([serde_json::from_value]). *)
Class SerdeA2ui := {
  surface_from_value : Value → result Surface str;
  component_from_value : Value → result Component str;
}.

(** ** Nodes *)

Definition action_caption (n : TreeNode) : str := default (n_label n) (n_action_label n).

Fixpoint has_gap (n : TreeNode) : bool := n_gap n || existsb has_gap (n_children n).

(** The text degradation of a diff; a fold stays folded. *)
Definition diff_line (l : DiffLine) : str :=
  match l with
  | Add text => §"+ " ++ text ++ nl
  | Del text => §"- " ++ text ++ nl
  | Ctx text => §"  " ++ text ++ nl
  | Fold count _ => §"@@ " ++ dec (Z.of_nat count) ++ §" unchanged lines @@" ++ nl
  end.
Definition diff_to_text (lines : list DiffLine) : str := trim_end (concat (diff_line <$> lines)).

(** ** Rules *)

Definition is_conversation (c : Component) : bool :=
  match c with
  | Component.Button _ _ _ action _ _ => bool_decide (is_Some action)
  | Component.Selection _ _ _ _ _ submit => bool_decide (is_Some submit)
  | Component.Form _ _ _ _ send_template _ => bool_decide (is_Some send_template)
  | Component.Header _ _ _ | Component.FormGroups _ _ _ _ | Component.List _ _
  | Component.Table _ _ _ | Component.Chips _ _ | Component.Tree _ _ _
  | Component.Notice _ _ _ | Component.Progress _ _ _ | Component.KeyValue _ _
  | Component.Embed _ _ _ _ => true
  | Component.Text _ _ | Component.Narration _ | Component.Dashboard _ _
  | Component.Report _ _ _ _ _ | Component.Diff _ | Component.Sources _ => false
  end.

Definition is_conversation_block (c : Component) : bool :=
  is_conversation c
  && match c with
     | Component.Button _ _ _ _ _ _ | Component.Selection _ _ _ _ _ _
     | Component.Form _ _ _ _ _ _ => false
     | _ => true
     end.

Definition check (c : Component) : result unit str :=
  match c with
  | Component.Embed _ _ _ (Component.Embed _ _ _ _) =>
      Err §"invalid A2UI surface: an embed's fallback must not be an embed"
  | Component.Selection _ _ _ args_key _ (Some _) =>
      if is_empty (trim args_key)
      then Err §"invalid A2UI surface: a selection with `submit` needs `args_key`"
      else Ok ()
  | Component.FormGroups _ groups _ _ =>
      if is_empty groups || existsb (λ g, is_empty (trim (g_send_template g))) groups
      then Err §"invalid A2UI surface: form groups need at least one group, each with a template"
      else Ok ()
  | _ => Ok ()
  end.

Fixpoint check_all (cs : list Component) : result unit str :=
  match cs with
  | [] => Ok ()
  | c :: cs' => _ ←? check c; check_all cs'
  end.

(** ** The link rule on components *)

Section Sanitize.
Context `{UrlParse} (cell : HttpHosts).

Definition is_safe (a : Action) : bool :=
  match a with
  | Action.OpenUrl url => is_allowed_link cell url
  | Action.SendMessage _ => true
  end.

Definition safe (a : option Action) : option Action :=
  match a with Some a => if is_safe a then Some a else None | None => None end.

Fixpoint sanitize_node (n : TreeNode) : TreeNode :=
  {| n_label := n_label n; n_counts := n_counts n; n_gap := n_gap n;
     n_expanded := n_expanded n; n_chips := n_chips n; n_action := safe (n_action n);
     n_action_label := n_action_label n; n_children := map sanitize_node (n_children n) |}.

Definition sanitize_item (i : ListItem) : ListItem :=
  {| li_label := li_label i; li_detail := li_detail i; li_action := safe (li_action i);
     li_action_label := li_action_label i |}.

Definition sanitize_row (r : TableRow) : TableRow :=
  {| r_cells := r_cells r; r_action := safe (r_action r) |}.

Fixpoint sanitized (c : Component) : option Component :=
  match c with
  | Component.Button _ _ _ (Some a) _ _ => if is_safe a then Some c else None
  | Component.List title items => Some (Component.List title (sanitize_item <$> items))
  | Component.Table title columns rows =>
      Some (Component.Table title columns (sanitize_row <$> rows))
  | Component.Tree title nodes gaps_toggle =>
      Some (Component.Tree title (sanitize_node <$> nodes) gaps_toggle)
  | Component.Embed url title height fallback =>
      if is_allowed_link cell url
      then (λ f, Component.Embed url title height f) <$> sanitized fallback
      else sanitized fallback
  | other => Some other
  end.

Context `{SerdeA2ui}.

Definition extract_surface (res : Value) : result Surface str :=
  surface ←? ok_or (value_get §"surface" res) §"tool emitted no `surface` field";
  s ←? result_map_err (app §"invalid A2UI surface: ") (surface_from_value surface);
  _ ←? check_all (components s);
  Ok {| components := omap sanitized (components s) |}.

Definition parse (raw : Value) : option Component :=
  match component_from_value raw with
  | Ok c => match check c with Ok _ => sanitized c | Err _ => None end
  | Err _ => None
  end.
End Sanitize.

(** ** The derived [Serialize] *)

Definition js (s : str) : Value := Value.String s.
Definition jss (l : list str) : Value := Value.Array (js <$> l).

(** A field that [skip_serializing_if = "Option::is_none"] may leave out. *)
Definition opt {A} (k : str) (f : A → Value) (o : option A) : list (str * Value) :=
  match o with Some a => [(k, f a)] | None => [] end.
(** [skip_serializing_if = "Vec::is_empty"] *)
Definition opt_list {A} (k : str) (f : A → Value) (l : list A) : list (str * Value) :=
  match l with [] => [] | _ => [(k, Value.Array (f <$> l))] end.
Definition opt_str (k : str) (s : str) : list (str * Value) :=
  match s with [] => [] | _ => [(k, js s)] end.
(** [skip_serializing_if = "is_false"] *)
Definition opt_flag (k : str) (b : bool) : list (str * Value) :=
  if b then [(k, Value.Bool true)] else [].

Definition action_value (a : Action) : Value :=
  match a with
  | Action.SendMessage text => json_object [(§"type", js §"send_message"); (§"text", js text)]
  | Action.OpenUrl url => json_object [(§"type", js §"open_url"); (§"url", js url)]
  end.

Definition str_map_value (m : StrMap) : Value := json_object (prod_map id js <$> m).

Definition style_value (s : SelectionStyle) : Value :=
  match s with Dropdown => js §"dropdown" | Radio => js §"radio" end.
Definition opt_style (s : SelectionStyle) : list (str * Value) :=
  match s with Dropdown => [] | Radio => [(§"style", style_value Radio)] end.

Definition submit_value (s : SubmitTemplate) : Value :=
  json_object ([(§"label", js (st_label s)); (§"template", js (st_template s))]
    ++ opt §"preview_label" js (st_preview_label s)).

Definition option_value (o : SelectionOption) : Value :=
  json_object [(§"label", js (o_label o)); (§"value", js (o_value o))].

Definition form_kind_str (k : FormFieldKind) : str :=
  match k with
  | KString => §"string"
  | KInteger => §"integer"
  | KBoolean => §"boolean"
  | KSelect => §"select"
  | KText => §"text"
  end.

Definition field_value (f : FormField) : Value :=
  json_object ([(§"name", js (f_name f)); (§"label", js (f_label f));
                (§"kind", js (form_kind_str (f_kind f))); (§"required", Value.Bool (required f))]
    ++ opt §"placeholder" js (placeholder f) ++ opt §"default" id (default_value f)
    ++ opt_list §"options" option_value (options f) ++ opt_style (f_style f)).

Definition group_value (g : FormGroup) : Value :=
  json_object [(§"label", js (g_label g));
               (§"fields", Value.Array (field_value <$> g_fields g));
               (§"send_template", js (g_send_template g))].

Definition item_value (i : ListItem) : Value :=
  json_object ([(§"label", js (li_label i))] ++ opt §"detail" js (li_detail i)
    ++ opt §"action" action_value (li_action i) ++ opt §"action_label" js (li_action_label i)).

Definition column_value (c : TableColumn) : Value :=
  json_object [(§"key", js (c_key c)); (§"label", js (c_label c))].

Definition row_value (r : TableRow) : Value :=
  json_object ([(§"cells", str_map_value (r_cells r))] ++ opt §"action" action_value (r_action r)).

Definition chip_value (c : Chip) : Value :=
  json_object [(§"label", js (chip_label c)); (§"message", js (chip_message c))].

Definition count_value (c : TreeCount) : Value :=
  json_object [(§"label", js (tc_label c)); (§"value", js (tc_value c))].

Fixpoint node_value (n : TreeNode) : Value :=
  json_object ([(§"label", js (n_label n))] ++ opt_list §"counts" count_value (n_counts n)
    ++ opt_flag §"gap" (n_gap n) ++ opt_flag §"expanded" (n_expanded n)
    ++ opt_list §"chips" chip_value (n_chips n) ++ opt §"action" action_value (n_action n)
    ++ opt §"action_label" js (n_action_label n)
    ++ opt_list §"children" id (map node_value (n_children n))).

Definition step_value (s : ProgressStep) : Value :=
  json_object [(§"label", js (ps_label s));
    (§"state", js match ps_state s with
                  | Done => §"done" | Active => §"active" | Pending => §"pending"
                  end)].

Definition pair_value (p : KeyValuePair) : Value :=
  json_object ([(§"label", js (kv_label p)); (§"value", js (kv_value p))]
    ++ opt §"before" js (kv_before p)).

Fixpoint diff_value (l : DiffLine) : Value :=
  match l with
  | Add text => json_object [(§"op", js §"add"); (§"text", js text)]
  | Del text => json_object [(§"op", js §"del"); (§"text", js text)]
  | Ctx text => json_object [(§"op", js §"ctx"); (§"text", js text)]
  | Fold count hidden =>
      json_object [(§"op", js §"fold"); (§"count", Value.Number (Value.Int (Z.of_nat count)));
                   (§"hidden", Value.Array (map diff_value hidden))]
  end.

Definition source_value (i : SourceItem) : Value :=
  json_object [(§"label", js (s_label i)); (§"resource", js (s_resource i))].

Definition tile_value (t : DashboardTile) : Value :=
  json_object ([(§"label", js (t_label t)); (§"value", js (t_value t))]
    ++ opt §"trend" js (t_trend t)).

(** A double that is not finite has no JSON form and becomes [null]. *)
Definition f64_value (bits : f64) : Value :=
  if decide ((bits / 2 ^ 52) mod 2 ^ 11 = 2047)%Z then Value.Null
  else Value.Number (Value.Float bits).

Definition opt_map (k : str) (m : StrMap) : list (str * Value) :=
  match m with [] => [] | _ => [(k, str_map_value m)] end.

Definition kind_str (c : Component) : str :=
  match c with
  | Component.Text _ _ => §"text"
  | Component.Button _ _ _ _ _ _ => §"button"
  | Component.Narration _ => §"narration"
  | Component.Selection _ _ _ _ _ _ => §"selection"
  | Component.Form _ _ _ _ _ _ => §"form"
  | Component.Dashboard _ _ => §"dashboard"
  | Component.Report _ _ _ _ _ => §"report"
  | Component.Diff _ => §"diff"
  | Component.Sources _ => §"sources"
  | Component.List _ _ => §"list"
  | Component.Table _ _ _ => §"table"
  | Component.Chips _ _ => §"chips"
  | Component.Tree _ _ _ => §"tree"
  | Component.Header _ _ _ => §"header"
  | Component.FormGroups _ _ _ _ => §"form_groups"
  | Component.Notice _ _ _ => §"notice"
  | Component.Progress _ _ _ => §"progress"
  | Component.KeyValue _ _ => §"key_value"
  | Component.Embed _ _ _ _ => §"embed"
  end.

(** The fields of a component in the order of their declaration, with the
    [skip_serializing_if] of each. *)
Fixpoint component_fields (c : Component) : list (str * Value) :=
  match c with
  | Component.Text value pills => (§"value", js value) :: opt_map §"pills" pills
  | Component.Button label tool args action resource primary =>
      (§"label", js label) :: opt_str §"tool" tool
      ++ match args with Value.Null => [] | _ => [(§"args", args)] end
      ++ opt §"action" action_value action ++ opt §"resource" js resource
      ++ opt_flag §"primary" primary
  | Component.Narration text => [(§"text", js text)]
  | Component.Selection prompt options tool args_key style submit =>
      (§"prompt", js prompt) :: (§"options", Value.Array (option_value <$> options))
      :: opt_str §"tool" tool ++ (§"args_key", js args_key) :: opt_style style
      ++ opt §"submit" submit_value submit
  | Component.Form title fields submit_label tool send_template preview_label =>
      (§"title", js title) :: (§"fields", Value.Array (field_value <$> fields))
      :: (§"submit_label", js submit_label) :: opt_str §"tool" tool
      ++ opt §"send_template" js send_template ++ opt §"preview_label" js preview_label
  | Component.Dashboard title tiles =>
      [(§"title", js title); (§"tiles", Value.Array (tile_value <$> tiles))]
  | Component.Report report_id args title series labels =>
      (§"report_id", js report_id) :: (§"args", args) :: opt §"title" js title
      ++ opt_list §"series" f64_value series ++ opt_list §"labels" js labels
  | Component.Diff lines => [(§"lines", Value.Array (diff_value <$> lines))]
  | Component.Sources items => [(§"items", Value.Array (source_value <$> items))]
  | Component.List title items =>
      opt §"title" js title ++ [(§"items", Value.Array (item_value <$> items))]
  | Component.Table title columns rows =>
      opt §"title" js title ++ [(§"columns", Value.Array (column_value <$> columns));
                                 (§"rows", Value.Array (row_value <$> rows))]
  | Component.Chips prompt chips =>
      opt §"prompt" js prompt ++ [(§"chips", Value.Array (chip_value <$> chips))]
  | Component.Tree title nodes gaps_toggle =>
      opt §"title" js title ++ (§"nodes", Value.Array (node_value <$> nodes))
      :: opt §"gaps_toggle" js gaps_toggle
  | Component.Header title context stamp =>
      (§"title", js title) :: opt §"context" js context ++ opt §"stamp" js stamp
  | Component.FormGroups title groups submit_label note =>
      opt §"title" js title
      ++ (§"groups", Value.Array (group_value <$> groups)) :: (§"submit_label", js submit_label)
      :: opt §"note" js note
  | Component.Notice tone title text =>
      match tone with
      | Info => []
      | Warn => [(§"tone", js §"warn")]
      | Attention => [(§"tone", js §"attention")]
      end ++ opt §"title" js title ++ [(§"text", js text)]
  | Component.Progress title steps fraction =>
      opt §"title" js title ++ (§"steps", Value.Array (step_value <$> steps))
      :: opt §"fraction" f64_value fraction
  | Component.KeyValue title pairs =>
      opt §"title" js title ++ [(§"pairs", Value.Array (pair_value <$> pairs))]
  | Component.Embed url title height fallback =>
      (§"url", js url) :: (§"title", js title)
      :: opt §"height" (λ h, Value.Number (Value.Int h)) height
      ++ [(§"fallback", json_object ((§"kind", js (kind_str fallback))
                                       :: component_fields fallback))]
  end.

(** [serde_json::to_value(c)] *)
Definition component_value (c : Component) : Value :=
  json_object ((§"kind", js (kind_str c)) :: component_fields c).

(** [v[k] = x] on an object; [v.as_object_mut()] and [remove]. *)
Definition set_key (k : str) (x : Value) (v : Value) : Value :=
  match v with Value.Object m => Value.Object (Map.insert k x m) | _ => v end.
Definition set_opt {A} (k : str) (f : A → Value) (o : option A) (v : Value) : Value :=
  match o with Some a => set_key k (f a) v | None => v end.
Definition set_if (b : bool) (k : str) (x : Value) (v : Value) : Value :=
  if b then set_key k x v else v.

Definition button_action (tool : str) (args : Value) (action : option Action) : Value :=
  match action with
  | Some a => action_value a
  | None => json_object [(§"tool", js tool); (§"args", args)]
  end.

Definition tile_to_json (t : DashboardTile) : Value :=
  set_opt §"trend" js (t_trend t)
    (json_object [(§"label", js (t_label t)); (§"value", js (t_value t))]).

(** ** Version 0.9: flat nodes *)
Module V09.
Definition form_field_to_json (f : FormField) : Value :=
  let o := json_object [(§"name", js (f_name f)); (§"label", js (f_label f));
                        (§"kind", js (form_kind_str (f_kind f)));
                        (§"required", Value.Bool (required f))] in
  let o := set_opt §"placeholder" js (placeholder f) o in
  let o := set_opt §"default" id (default_value f) o in
  let o := set_if (negb (is_empty (options f))) §"options"
             (Value.Array (option_value <$> options f)) o in
  set_if (bool_decide (f_style f = Radio)) §"style" (style_value (f_style f)) o.

Definition component_to_json (c : Component) : Value :=
  match c with
  | Component.Text value pills =>
      set_if (negb (is_empty pills)) §"pills" (str_map_value pills)
        (json_object [(§"type", js §"text"); (§"text", js value)])
  | Component.Narration text => json_object [(§"type", js §"narration"); (§"text", js text)]
  | Component.Button label tool args action resource primary =>
      let b := json_object [(§"type", js §"button"); (§"label", js label);
                            (§"action", button_action tool args action)] in
      let b := set_opt §"resource" js resource b in
      set_if primary §"primary" (Value.Bool true) b
  | Component.Selection prompt options tool args_key style submit =>
      let o := json_object [(§"type", js §"selection"); (§"prompt", js prompt);
                            (§"options", Value.Array (option_value <$> options));
                            (§"tool", js tool); (§"args_key", js args_key)] in
      let o := set_if (bool_decide (style ≠ Dropdown)) §"style" (style_value style) o in
      set_opt §"submit" submit_value submit o
  | Component.Form title fields submit_label tool send_template preview_label =>
      let o := json_object [(§"type", js §"form"); (§"title", js title);
                            (§"fields", Value.Array (form_field_to_json <$> fields));
                            (§"submit_label", js submit_label); (§"tool", js tool)] in
      let o := set_opt §"send_template" js send_template o in
      set_opt §"preview_label" js preview_label o
  | Component.Dashboard title tiles =>
      json_object [(§"type", js §"dashboard"); (§"title", js title);
                   (§"tiles", Value.Array (tile_to_json <$> tiles))]
  | Component.Report report_id args title series labels =>
      let r := json_object [(§"type", js §"report"); (§"report_id", js report_id);
                            (§"args", args)] in
      let r := set_opt §"title" js title r in
      let r := set_if (negb (is_empty series)) §"series"
                 (Value.Array (f64_value <$> series)) r in
      set_if (negb (is_empty labels)) §"labels" (jss labels) r
  | Component.Diff lines =>
      json_object [(§"type", js §"diff"); (§"lines", Value.Array (diff_value <$> lines))]
  | Component.Sources items =>
      json_object [(§"type", js §"sources"); (§"items", Value.Array (source_value <$> items))]
  | _ =>
      match component_value c with
      | Value.Object obj =>
          match Map.get §"kind" obj with
          | Some kind => Value.Object (Map.insert §"type" kind (Map.remove §"kind" obj))
          | None => Value.Object obj
          end
      | v => v
      end
  end.

Definition build (s : Surface) : Value :=
  json_object [(§"version", js §"0.9");
               (§"stream", Value.Array (component_to_json <$> components s))].
End V09.

(** ** Version 0.8: nodes under a capitalised name *)
Module V08.
Definition ascii_upper (c : ascii) : ascii :=
  if in_range 97 122 (byte c) then ascii_of_N (byte c - 32) else c.

(** [key_value] becomes [KeyValue]. *)
Definition pascal (snake : str) : str :=
  concat ((λ w, match w with f :: r => ascii_upper f :: r | [] => [] end)
            <$> split_on "_" snake).

Definition form_field_to_json (f : FormField) : Value :=
  let o := json_object [(§"name", js (f_name f)); (§"label", js (f_label f));
                        (§"kind", js (form_kind_str (f_kind f)));
                        (§"required", Value.Bool (required f))] in
  let o := set_opt §"placeholder" js (placeholder f) o in
  let o := set_opt §"default" id (default_value f) o in
  set_if (negb (is_empty (options f))) §"options" (Value.Array (option_value <$> options f)) o.

Definition inner (c : Component) : str * Value :=
  match c with
  | Component.Text value pills =>
      (§"Text", set_if (negb (is_empty pills)) §"pills" (str_map_value pills)
                  (json_object [(§"text", js value)]))
  | Component.Narration text => (§"Narration", json_object [(§"text", js text)])
  | Component.Button label tool args action resource primary =>
      let b := json_object [(§"label", js label); (§"action", button_action tool args action)] in
      let b := set_opt §"resource" js resource b in
      (§"Button", set_if primary §"primary" (Value.Bool true) b)
  | Component.Selection prompt options tool args_key _ _ =>
      (§"Selection", json_object [(§"prompt", js prompt);
         (§"options", Value.Array (option_value <$> options));
         (§"action", json_object [(§"tool", js tool); (§"args_key", js args_key)])])
  | Component.Form title fields submit_label tool _ _ =>
      (§"Form", json_object [(§"title", js title);
         (§"fields", Value.Array (form_field_to_json <$> fields));
         (§"submit_label", js submit_label); (§"action", json_object [(§"tool", js tool)])])
  | Component.Dashboard title tiles =>
      (§"Dashboard", json_object [(§"title", js title);
         (§"tiles", Value.Array (tile_to_json <$> tiles))])
  | Component.Report report_id args title series labels =>
      let r := json_object [(§"report_id", js report_id); (§"args", args)] in
      let r := set_opt §"title" js title r in
      let r := set_if (negb (is_empty series)) §"series"
                 (Value.Array (f64_value <$> series)) r in
      (§"Report", set_if (negb (is_empty labels)) §"labels" (jss labels) r)
  | Component.Diff lines =>
      (§"Diff", json_object [(§"lines", Value.Array (diff_value <$> lines))])
  | Component.Sources items =>
      (§"Sources", json_object [(§"items", Value.Array (source_value <$> items))])
  | _ =>
      match component_value c with
      | Value.Object obj =>
          (match Map.get §"kind" obj with Some (Value.String k) => pascal k | _ => [] end,
           Value.Object (Map.remove §"kind" obj))
      | v => ([], v)
      end
  end.

Definition component_to_json (c : Component) : Value :=
  let '(k, v) := inner c in json_object [(§"Component", json_object [(k, v)])].

Definition build (s : Surface) : Value :=
  json_object [(§"version", js §"0.8");
               (§"stream", Value.Array (component_to_json <$> components s))].
End V08.

Inductive BuilderVersion := BV08 | BV09.

Definition build_envelope (s : Surface) (v : BuilderVersion) : Value :=
  match v with BV08 => V08.build s | BV09 => V09.build s end.

(** ** The way back from a version 0.9 envelope *)

Definition as_array (v : Value) : option (list Value) :=
  match v with Value.Array l => Some l | _ => None end.

(** The search at depth [7 - fuel]; depth 6 is the deepest it looks. *)
Fixpoint find_stream (fuel : nat) (v : Value) : option (list Value) :=
  match fuel with
  | 0 => None
  | S fuel' =>
      match value_get §"stream" v ≫= as_array with
      | Some stream => Some stream
      | None =>
          match v with
          | Value.Object m =>
              (fix first (m : JsonMap) : option (list Value) :=
                 match m with
                 | [] => None
                 | (_, x) :: m' =>
                     match find_stream fuel' x with
                     | Some stream => Some stream
                     | None => first m'
                     end
                 end) m
          | _ => None
          end
      end
  end.

Definition carried_kinds : list str :=
  [§"selection"; §"form"; §"dashboard"; §"report"; §"diff"; §"sources"; §"list"; §"table";
   §"chips"; §"tree"; §"notice"; §"progress"; §"key_value"; §"embed"; §"header"; §"form_groups"].

(** The canonical object a version 0.9 node stands for. *)
Definition v09_node_to_object (node : Value) : option JsonMap :=
  ty ← get_str §"type" node;
  let obj := Map.insert §"kind" (js ty) [] in
  let put k := λ o obj, match o with Some x => Map.insert k x obj | None => obj end in
  if decide (ty = §"text") then
    text ← value_get §"text" node;
    Some (put §"pills" (value_get §"pills" node) (Map.insert §"value" text obj))
  else if decide (ty = §"narration") then
    text ← value_get §"text" node;
    Some (Map.insert §"text" text obj)
  else if decide (ty = §"button") then
    label ← value_get §"label" node;
    let obj := Map.insert §"label" label obj in
    action ← value_get §"action" node;
    obj ← (match value_get §"type" action with
           | Some _ => Some (Map.insert §"action" action obj)
           | None =>
               tool ← value_get §"tool" action;
               Some (Map.insert §"args" (default (Value.Object []) (value_get §"args" action))
                       (Map.insert §"tool" tool obj))
           end);
    Some (put §"primary" (value_get §"primary" node)
            (put §"resource" (value_get §"resource" node) obj))
  else if decide (ty ∈ carried_kinds) then
    match node with
    | Value.Object m =>
        Some (fold_left (λ obj '(k, v), if decide (k = §"type") then obj
                                        else Map.insert k v obj) m obj)
    | _ => None
    end
  else None.

Section Reverse.
Context `{SerdeA2ui}.

Definition v09_node_to_component (node : Value) : option Component :=
  obj ← v09_node_to_object node;
  match component_from_value (Value.Object obj) with Ok c => Some c | Err _ => None end.

Definition envelope_to_surface (v : Value) : option Surface :=
  stream ← find_stream 7 v;
  cs ← mapM v09_node_to_component stream;
  Some {| components := cs |}.
End Reverse.

(** ** Every link of an extracted surface is allowed *)

(** Nested lists of nodes: induction with the hypothesis for each child. *)
Section TreeNodeInd.
Variable P : TreeNode → Prop.
Hypothesis step : ∀ n, Forall P (n_children n) → P n.

Fixpoint TreeNode_nested_ind (n : TreeNode) : P n :=
  step n
    ((fix all (l : list TreeNode) : Forall P l :=
        match l with
        | [] => @List.Forall_nil _ P
        | c :: l' => @List.Forall_cons _ P c l' (TreeNode_nested_ind c) (all l')
        end) (n_children n)).
End TreeNodeInd.

Definition action_links (a : option Action) : list str :=
  match a with Some (Action.OpenUrl url) => [url] | _ => [] end.

Fixpoint node_links (n : TreeNode) : list str :=
  action_links (n_action n) ++ concat (map node_links (n_children n)).

(** Every URL a channel may turn into a one-tap action. *)
Fixpoint links (c : Component) : list str :=
  match c with
  | Component.Button _ _ _ action _ _ => action_links action
  | Component.List _ items => concat ((λ i, action_links (li_action i)) <$> items)
  | Component.Table _ _ rows => concat ((λ r, action_links (r_action r)) <$> rows)
  | Component.Tree _ nodes _ => concat (node_links <$> nodes)
  | Component.Embed url _ _ fallback => url :: links fallback
  | _ => []
  end.

(** What a reader may be sent to: an [https] URL that names a host and no
    credentials, or an [http] URL of a host on the process's list. *)
Definition https_link `{UrlParse} (url : str) : Prop :=
  ∃ rest u h, url = §"https://" ++ rest ∧ starts_with §"/" rest = false
    ∧ starts_with §"\" rest = false ∧ url_parse url = Some u ∧ url_scheme u = §"https"
    ∧ url_host_str u = Some h ∧ h ≠ [] ∧ url_username u = [] ∧ url_password u = None.

Definition listed_http_link `{UrlParse} (hosts : list str) (url : str) : Prop :=
  ∃ rest u h l, url = §"http://" ++ rest ∧ url_parse url = Some u ∧ url_scheme u = §"http"
    ∧ url_host_str u = Some h ∧ l ∈ hosts
    ∧ to_ascii_lowercase l = to_ascii_lowercase (trim_end_char "]" (trim_start_char "[" h))
    ∧ url_username u = [] ∧ url_password u = None.

Section SanitizeProofs.
Context `{UrlParse} (cell : HttpHosts).

Lemma no_credentials_spec u :
  no_credentials u = true ↔ url_username u = [] ∧ url_password u = None.
Proof.
  unfold no_credentials. rewrite andb_true_iff, bool_decide_eq_true.
  destruct (url_username u); cbn; naive_solver.
Qed.

Lemma http_link_allowed_spec url hosts :
  http_link_allowed url hosts = true ↔ listed_http_link hosts url.
Proof.
  unfold http_link_allowed, listed_http_link. split.
  - intros Hl. destruct (_ || _) eqn:E; [done|]. apply orb_false_iff in E as [_ E].
    apply negb_false_iff, starts_with_spec in E as [rest E].
    destruct (url_parse url) as [u|] eqn:Eu; [|done].
    destruct (url_host_str u) as [h|] eqn:Eh; [|done]. bool_facts.
    rewrite no_credentials_spec in *. apply existsb_exists in H1 as (l & Hl & El).
    unfold eq_ignore_ascii_case in El. bool_facts.
    exists rest, u, h, l. rewrite list_elem_of_In. naive_solver.
  - intros (rest & u & h & l & -> & -> & Hs & -> & Hl & El & Hu & Hp).
    destruct hosts as [|h0 hosts]; [by apply elem_of_nil in Hl|].
    rewrite starts_with_app. cbn [is_empty orb negb].
    rewrite (proj2 (no_credentials_spec u)) by done. rewrite bool_decide_true by done.
    cbn [andb]. apply existsb_exists. exists l. split; [by apply list_elem_of_In|].
    by apply bool_decide_eq_true.
Qed.

Lemma is_allowed_link_spec url :
  is_allowed_link cell url = true ↔ https_link url ∨ listed_http_link (http_hosts cell) url.
Proof.
  unfold is_allowed_link. destruct (strip_prefix §"https://" url) as [rest|] eqn:E.
  - apply strip_prefix_Some in E as ->. split.
    + intros Hl. left. destruct (_ || _) eqn:E; [done|]. apply orb_false_iff in E as [E1 E2].
      destruct (url_parse _) as [u|] eqn:Eu; [|done].
      destruct (url_host_str u) as [h|] eqn:Eh; bool_facts; [|done].
      apply no_credentials_spec in H1 as [??].
      exists rest, u, h. repeat split; try done. by destruct h.
    + intros [(r & u & h & Er & H1 & H2 & -> & Hs & Hh & Hne & Hu & Hp)
             |(r & u & h & l & Er & _)]; [|done].
      apply app_inv_head in Er as <-. rewrite H1, H2, Hs, Hh. cbn [orb].
      rewrite bool_decide_true by done. rewrite (proj2 (no_credentials_spec u)) by done.
      by destruct h.
  - rewrite http_link_allowed_spec. split; [by right|]. intros [(r & ? & ? & Er & _)|]; [|done].
    apply strip_prefix_Some in Er. congruence.
Qed.

Definition all_allowed (us : list str) : Prop := ∀ u, u ∈ us → is_allowed_link cell u = true.

Lemma all_allowed_concat {A} (f : A → list str) l :
  all_allowed (concat (f <$> l)) ↔ ∀ a, a ∈ l → all_allowed (f a).
Proof.
  unfold all_allowed. setoid_rewrite list_elem_of_In. setoid_rewrite in_concat.
  setoid_rewrite in_map_iff. split; [|naive_solver].
  intros Hl a Ha u Hu. apply Hl. exists (f a). split; [by exists a|done].
Qed.

Lemma safe_links a : all_allowed (action_links (safe cell a)).
Proof.
  intros u. destruct a as [[m|url]|]; cbn; [set_solver| |set_solver].
  destruct (is_allowed_link cell url) eqn:E; cbn; [|set_solver].
  by intros ->%list_elem_of_singleton.
Qed.

Lemma safe_id a : all_allowed (action_links a) → safe cell a = a.
Proof.
  destruct a as [[m|url]|]; cbn; try done. intros Hl. rewrite (Hl url); [done|set_solver].
Qed.

Lemma sanitize_node_links n : all_allowed (node_links (sanitize_node cell n)).
Proof.
  induction n as [n IH] using TreeNode_nested_ind. destruct n. cbn in IH |- *.
  intros u [Hu|Hu]%elem_of_app; [by eapply safe_links|]. revert u Hu.
  rewrite map_map. apply all_allowed_concat. intros c Hc. by apply (proj1 (Forall_forall _ _) IH).
Qed.

Lemma sanitize_node_id n : all_allowed (node_links n) → sanitize_node cell n = n.
Proof.
  induction n as [n IH] using TreeNode_nested_ind. intros Hl.
  destruct n as [lab cnt gap ex ch act al kids]. cbn in IH, Hl |- *.
  rewrite safe_id; [f_equal|]; [|intros u Hu; apply Hl; set_solver].
  assert (all_allowed (concat (node_links <$> kids))) as Hk.
  { intros u Hu. apply Hl. apply elem_of_app. by right. }
  clear Hl. induction IH as [|c kids Hc _ IHk]; [done|]. cbn. f_equal.
  - apply Hc. intros u Hu. apply Hk. cbn. set_solver.
  - apply IHk. intros u Hu. apply Hk. cbn. set_solver.
Qed.

Lemma map_ext_elem {A B} (f g : A → B) (l : list A) : (∀ a, a ∈ l → f a = g a) → f <$> l = g <$> l.
Proof. intros Hl. apply list_fmap_ext. intros i a Ha. apply Hl. by eapply list_elem_of_lookup_2. Qed.

(** A sanitized component has allowed links only... *)
Lemma sanitized_links c c' : sanitized cell c = Some c' → all_allowed (links c').
Proof.
  revert c'. induction c; intros c'; cbn [sanitized]; try (intros; simplify_eq; cbn; set_solver).
  - destruct action as [a|]; [|intros; simplify_eq; cbn; set_solver].
    destruct (is_safe cell a) eqn:E; [|done]. intros; simplify_eq. cbn.
    destruct a as [m|url]; [set_solver|]. by intros u ->%list_elem_of_singleton.
  - intros; simplify_eq. cbn. rewrite <-list_fmap_compose. apply all_allowed_concat.
    intros i _. apply safe_links.
  - intros; simplify_eq. cbn. rewrite <-list_fmap_compose. apply all_allowed_concat.
    intros r _. apply safe_links.
  - intros; simplify_eq. cbn. rewrite <-list_fmap_compose. apply all_allowed_concat.
    intros n _. apply sanitize_node_links.
  - destruct (is_allowed_link cell url) eqn:E; [|auto].
    intros (f & Hf & ->)%fmap_Some. cbn.
    intros u [->|Hu]%elem_of_cons; [done|]. by eapply IHc.
Qed.

(** ... and a component whose links are all allowed is left as it is. *)
Lemma sanitized_id c : all_allowed (links c) → sanitized cell c = Some c.
Proof.
  induction c; cbn [sanitized links]; intros Hl; try done.
  - destruct action as [[m|url]|]; [done| |done]. cbn. rewrite (Hl url); [done|cbn; set_solver].
  - do 2 f_equal. rewrite <-(list_fmap_id items) at 2. apply map_ext_elem. intros [] Hi.
    unfold sanitize_item. cbn. f_equal. apply safe_id.
    by apply (proj1 (all_allowed_concat (λ i, action_links (li_action i)) _) Hl _ Hi).
  - do 2 f_equal. rewrite <-(list_fmap_id rows) at 2. apply map_ext_elem. intros [] Hi.
    unfold sanitize_row. cbn. f_equal. apply safe_id.
    by apply (proj1 (all_allowed_concat (λ i, action_links (r_action i)) _) Hl _ Hi).
  - do 2 f_equal. rewrite <-(list_fmap_id nodes) at 2. apply map_ext_elem. intros n Hi.
    apply sanitize_node_id. by apply (proj1 (all_allowed_concat _ _) Hl).
  - rewrite (Hl url) by set_solver. rewrite IHc; [done|]. intros u Hu. apply Hl. set_solver.
Qed.

(** What stands in an embed's fallback is never an embed. *)
Definition flat_embed (c : Component) : Prop :=
  match c with
  | Component.Embed _ _ _ (Component.Embed _ _ _ _) => False
  | _ => True
  end.

Definition is_embed (c : Component) : bool :=
  match c with Component.Embed _ _ _ _ => true | _ => false end.

Lemma sanitized_not_embed c c' :
  is_embed c = false → sanitized cell c = Some c' → is_embed c' = false.
Proof.
  destruct c; cbn [is_embed sanitized]; try (intros; simplify_eq; done).
  destruct action as [a|]; [destruct (is_safe cell a)|]; intros; by simplify_eq.
Qed.

Lemma not_embed_flat c : is_embed c = false → flat_embed c.
Proof. by destruct c. Qed.

Lemma sanitized_flat c c' : check c = Ok () → sanitized cell c = Some c' → flat_embed c'.
Proof.
  intros Hc Hs. destruct (is_embed c) eqn:Ee.
  2: { by eapply not_embed_flat, sanitized_not_embed. }
  destruct c as [| | | | | | | | | | | | | | | | | |url title height fb]; try done.
  assert (is_embed fb = false) as Hfb by by destruct fb.
  cbn [sanitized] in Hs. destruct (is_allowed_link cell url).
  - apply fmap_Some in Hs as (f & Hf & ->). apply sanitized_not_embed in Hf; [|done].
    by destruct f.
  - by eapply not_embed_flat, sanitized_not_embed.
Qed.

Lemma check_all_Ok cs : check_all cs = Ok () ↔ ∀ c, c ∈ cs → check c = Ok ().
Proof.
  induction cs as [|c cs IH]; cbn [check_all]; [split; [by intros _ c ?%elem_of_nil|done]|].
  setoid_rewrite elem_of_cons. destruct (check c) as [[]|e] eqn:E; cbn [result_bind].
  - rewrite IH. naive_solver.
  - split; [done|]. intros Hc. rewrite <-E. auto.
Qed.

Context `{SerdeA2ui}.

(** C14: the surface a tool's result is turned into has only links that may be
    opened: each URL of a button, a row, a tree node or an embed, at any depth,
    is an [https] URL that names a host and carries no credentials, or an
    [http] URL of a host the process lists.  Sanitizing loses nothing else: the
    decoded components whose links are all allowed are all there, unchanged and
    in order.  No embed has an embed as its fallback. *)
Theorem extracted_surface_safe res s :
  extract_surface cell res = Ok s →
  (∀ c u, c ∈ components s → u ∈ links c →
     https_link u ∨ listed_http_link (http_hosts cell) u)
  ∧ (∀ c, c ∈ components s → flat_embed c)
  ∧ ∃ v s0, value_get §"surface" res = Some v ∧ surface_from_value v = Ok s0
      ∧ ∀ l, sublist l (components s0) → (∀ c, c ∈ l → all_allowed (links c)) →
             sublist l (components s).
Proof.
  unfold extract_surface. destruct (value_get _ res) as [v|]; cbn; [|done].
  destruct (surface_from_value v) as [s0|e] eqn:Ev; cbn; [|done].
  destruct (check_all (components s0)) as [[]|e] eqn:Ec; cbn; [|done]. intros [= <-].
  rewrite check_all_Ok in Ec. cbn [components]. split; [|split].
  - intros c u (c0 & _ & Hs)%list_elem_of_omap Hu. apply is_allowed_link_spec.
    by eapply sanitized_links.
  - intros c (c0 & Hc0 & Hs)%list_elem_of_omap. eapply sanitized_flat; [|done]. auto.
  - exists v, s0. split; [done|]. split; [done|]. intros l Hl Ha. clear Ec Ev.
    induction Hl as [|c l1 l2 Hl IH|c l1 l2 Hl IH]; cbn; [constructor|..].
    + rewrite sanitized_id by (apply Ha; set_solver). constructor. apply IH. set_solver.
    + destruct (sanitized cell c); [constructor|]; auto.
Qed.
End SanitizeProofs.

(** A parser that knows two URLs, enough to evaluate the models. *)
Definition sample_url : UrlParse := {|
  url_parse s :=
    if decide (s = §"https://app.example/a")
    then Some {| url_scheme := §"https"; url_host_str := Some §"app.example";
                 url_username := []; url_password := None |}
    else if decide (s = §"https://app.example@evil.example/")
    then Some {| url_scheme := §"https"; url_host_str := Some §"evil.example";
                 url_username := §"app.example"; url_password := None |}
    else None
|}.

Definition sample_item (url : str) : ListItem :=
  {| li_label := §"row"; li_detail := None; li_action := Some (Action.OpenUrl url);
     li_action_label := None |}.
Definition sample_surface : Surface :=
  {| components := [Component.List None [sample_item §"https://app.example/a";
                                         sample_item §"javascript:alert(1)"];
                    Component.Button §"b" [] Value.Null
                      (Some (Action.OpenUrl §"https://app.example@evil.example/")) None false;
                    Component.Text §"hello" []] |}.
Definition sample_serde : SerdeA2ui := {|
  surface_from_value v :=
    match v with Value.Null => Ok sample_surface | _ => Err §"unknown shape" end;
  component_from_value _ := Err §"unknown shape";
|}.

Lemma extracted_surface_safe_witness :
  ∃ s, @extract_surface sample_url None sample_serde (json_object [(§"surface", Value.Null)]) = Ok s
    ∧ length (components s) = 2
    ∧ ∀ c u, c ∈ components s → u ∈ links c →
        @https_link sample_url u ∨ @listed_http_link sample_url [] u.
Proof.
  destruct (@extract_surface sample_url None sample_serde (json_object [(§"surface", Value.Null)]))
    as [s|e] eqn:E; [|by vm_compute in E].
  exists s. split; [done|]. split; [by vm_compute in E; simplify_eq|].
  apply (@extracted_surface_safe sample_url None sample_serde _ s E).
Defined.

(** ** Round trip of the version 0.9 envelope *)

(** The fields a version 0.9 node has, under their canonical names: the
    controls of the earlier vocabulary write [tool] and [args] even when they
    are empty. *)
Definition wire_fields (c : Component) : list (str * Value) :=
  match c with
  | Component.Button label tool args action resource primary =>
      (§"label", js label)
      :: match action with
         | Some a => [(§"action", action_value a)]
         | None => [(§"tool", js tool); (§"args", args)]
         end
      ++ opt §"resource" js resource ++ opt_flag §"primary" primary
  | Component.Selection prompt options tool args_key style submit =>
      [(§"prompt", js prompt); (§"options", Value.Array (option_value <$> options));
       (§"tool", js tool); (§"args_key", js args_key)]
      ++ opt_style style ++ opt §"submit" submit_value submit
  | Component.Form title fields submit_label tool send_template preview_label =>
      [(§"title", js title); (§"fields", Value.Array (field_value <$> fields));
       (§"submit_label", js submit_label); (§"tool", js tool)]
      ++ opt §"send_template" js send_template ++ opt §"preview_label" js preview_label
  | _ => component_fields c
  end.

(** The canonical object of a node. *)
Definition wire_value (c : Component) : Value :=
  json_object ((§"kind", js (kind_str c)) :: wire_fields c).

Lemma set_key_json k x l : set_key k x (json_object l) = json_object (l ++ [(k, x)]).
Proof. unfold set_key, json_object, Map.insert_all. by rewrite fold_left_app. Qed.

Lemma set_opt_json {A} k (f : A → Value) o l :
  set_opt k f o (json_object l) = json_object (l ++ opt k f o).
Proof. destruct o; [apply set_key_json|]. cbn. by rewrite app_nil_r. Qed.

Lemma set_if_json b k x l :
  set_if b k x (json_object l) = json_object (l ++ if b then [(k, x)] else []).
Proof. destruct b; [apply set_key_json|]. cbn. by rewrite app_nil_r. Qed.

Lemma opt_list_if {A} k (f : A → Value) (l : list A) :
  (if negb (is_empty l) then [(k, Value.Array (f <$> l))] else []) = opt_list k f l.
Proof. by destruct l. Qed.

Lemma form_field_to_json_value f : V09.form_field_to_json f = field_value f.
Proof.
  unfold V09.form_field_to_json, field_value.
  rewrite !set_opt_json, !set_if_json, opt_list_if, <-!app_assoc.
  by destruct (f_style f).
Qed.

Lemma tile_to_json_value t : tile_to_json t = tile_value t.
Proof. unfold tile_to_json, tile_value. by rewrite set_opt_json. Qed.

(** No field is called [kind] or [type]. *)
Definition carried (c : Component) : bool :=
  match c with
  | Component.Text _ _ | Component.Narration _ | Component.Button _ _ _ _ _ _ => false
  | _ => true
  end.

Definition plain_keys (l : list (str * Value)) : bool :=
  forallb (λ e, negb (bool_decide (e.1 = §"kind")) && negb (bool_decide (e.1 = §"type"))) l.

Lemma plain_keys_notin l k :
  plain_keys l = true → k = §"kind" ∨ k = §"type" → k ∉ l.*1.
Proof.
  intros Hl Hk. induction l as [|[k' v] l IH]; cbn in *; [set_solver|].
  apply andb_prop in Hl as [Hl1 Hl2]. bool_facts.
  apply not_elem_of_cons. split; [naive_solver|auto].
Qed.

Lemma wire_fields_plain c : plain_keys (wire_fields c) = true.
Proof.
  destruct c; cbn [wire_fields component_fields]; unfold opt, opt_str, opt_list, opt_map,
    opt_style, opt_flag;
  repeat match goal with |- context [match ?x with _ => _ end] =>
    lazymatch x with context [match _ with _ => _ end] => fail | _ => destruct x end end;
  reflexivity.
Qed.

Lemma json_object_ordered l : Map.ordered (Map.insert_all l []).
Proof. by apply Map.insert_all_ordered. Qed.

(** [get] after a binding that the rest of the list does not touch. *)
Lemma get_head k v l m : k ∉ l.*1 → Map.get k (Map.insert_all ((k, v) :: l) m) = Some v.
Proof.
  intros Hk. change (Map.get k (Map.insert_all l (Map.insert k v m)) = Some v).
  rewrite Map.get_insert_all_notin by done. apply Map.get_insert_eq.
Qed.

Lemma get_skip k k' v l m :
  k ≠ k' → Map.get k (Map.insert_all ((k', v) :: l) m) = Map.get k (Map.insert_all l m).
Proof.
  intros Hk. apply (Map.get_insert_all_congr k l (Map.insert k' v m) m).
  by apply Map.get_insert_ne.
Qed.

(** Renaming the tag of an object, each way. *)
Lemma retag k v l :
  plain_keys l = true →
  Map.insert §"type" v (Map.remove §"kind" (Map.insert_all ((§"kind", k) :: l) []))
  = Map.insert_all ((§"type", v) :: l) [].
Proof.
  intros Hl. apply Map.ordered_ext.
  - apply Map.insert_ordered, Map.remove_ordered, json_object_ordered.
  - apply json_object_ordered.
  - intros x. destruct (decide (x = §"type")) as [->|Ht].
    { rewrite Map.get_insert_eq, get_head; [done|]. eapply plain_keys_notin; auto. }
    rewrite Map.get_insert_ne by done. rewrite get_skip by done.
    destruct (decide (x = §"kind")) as [->|Hk].
    { rewrite Map.get_remove_eq, Map.get_insert_all_notin; [done|].
      eapply plain_keys_notin; auto. }
    rewrite Map.get_remove_ne by done. by apply get_skip.
Qed.

Lemma untag_fold m obj :
  fold_left (λ obj '(k, v), if decide (k = §"type") then obj else Map.insert k v obj) m obj
  = Map.insert_all (Map.remove §"type" m) obj.
Proof.
  revert obj. induction m as [|[k v] m IH]; intros obj; [done|]. cbn [fold_left Map.remove].
  rewrite IH. repeat case_decide; try done; congruence.
Qed.

Lemma untag k l :
  plain_keys l = true →
  Map.insert_all (Map.remove §"type" (Map.insert_all ((§"type", k) :: l) []))
    (Map.insert §"kind" k []) = Map.insert_all ((§"kind", k) :: l) [].
Proof.
  intros Hl. apply Map.ordered_ext.
  - by apply Map.insert_all_ordered, Map.insert_ordered.
  - apply json_object_ordered.
  - intros x. rewrite Map.get_insert_all_ordered by apply Map.remove_ordered, json_object_ordered.
    destruct (decide (x = §"kind")) as [->|Hk].
    { rewrite Map.get_remove_ne by done. rewrite get_skip by done.
      rewrite (get_head (§"kind")) by (eapply plain_keys_notin; auto).
      rewrite Map.get_insert_all_notin by (eapply plain_keys_notin; auto). done. }
    rewrite Map.get_insert_ne by done. rewrite (get_skip x (§"kind")) by done. cbn [Map.get].
    destruct (decide (x = §"type")) as [->|Ht].
    { rewrite Map.get_remove_eq, Map.get_insert_all_notin; [done|].
      eapply plain_keys_notin; auto. }
    rewrite Map.get_remove_ne by done. rewrite get_skip by done. by destruct (Map.get _ _).
Qed.

Lemma component_node c :
  carried c = true →
  V09.component_to_json c = json_object ((§"type", js (kind_str c)) :: wire_fields c).
Proof.
  intros Hc.
  assert (wire_fields c = component_fields c →
    match component_value c with
    | Value.Object obj =>
        match Map.get §"kind" obj with
        | Some kind => Value.Object (Map.insert §"type" kind (Map.remove §"kind" obj))
        | None => Value.Object obj
        end
    | v => v
    end = json_object ((§"type", js (kind_str c)) :: wire_fields c)) as Hblock.
  { intros E. pose proof (wire_fields_plain c) as Hp. rewrite E in Hp |- *.
    unfold component_value, json_object. rewrite get_head by (eapply plain_keys_notin; auto).
    by rewrite retag. }
  destruct c; try done; try (by apply Hblock); clear Hblock; unfold V09.component_to_json;
    rewrite ?set_opt_json, ?set_if_json; cbn [kind_str wire_fields component_fields];
    rewrite ?set_opt_json, ?set_if_json, <-?app_assoc.
  - by destruct style.
  - by rewrite (list_fmap_ext V09.form_field_to_json field_value)
      by (intros; apply form_field_to_json_value).
  - by rewrite (list_fmap_ext tile_to_json tile_value) by (intros; apply tile_to_json_value).
  - unfold jss. by rewrite !opt_list_if.
Qed.

Lemma kind_carried c : carried c = true → kind_str c ∈ carried_kinds.
Proof. intros Hc. apply (bool_decide_unpack _). by destruct c. Qed.

(** The reverse of a node is its canonical object. *)
Lemma node_to_object c :
  v09_node_to_object (V09.component_to_json c)
  = match wire_value c with Value.Object m => Some m | _ => None end.
Proof.
  destruct (carried c) eqn:Hc.
  - rewrite component_node by done. pose proof (wire_fields_plain c) as Hp.
    unfold v09_node_to_object, wire_value, json_object, get_str, value_get.
    rewrite get_head by (eapply plain_keys_notin; auto). cbn [mbind option_bind as_str js].
    pose proof (kind_carried c Hc) as Hk.
    rewrite !(decide_False (P := kind_str c = _)) by (by destruct c). rewrite decide_True by done.
    rewrite untag_fold. f_equal. by apply untag.
  - destruct c; try done.
    + cbn. by destruct pills.
    + by destruct action as [[]|], resource, primary.
Qed.

(** The envelope under the keys a protocol wraps around it ([result],
    [structuredContent]). *)
Definition wrapped (ks : list str) (v : Value) : Value :=
  foldr (λ k v, json_object [(k, v)]) v ks.

Lemma find_stream_wrapped ks n s :
  find_stream (length ks + S n) (wrapped ks (V09.build s))
  = Some (V09.component_to_json <$> components s).
Proof.
  induction ks as [|k ks IH]; [done|]. cbn [length Nat.add wrapped foldr find_stream].
  fold (wrapped ks (V09.build s)).
  assert (value_get §"stream" (json_object [(k, wrapped ks (V09.build s))]) ≫= as_array = None)
    as ->.
  { cbn. case_decide; [|done]. by destruct ks. }
  cbn [json_object Map.insert_all fold_left Map.insert]. by rewrite IH.
Qed.

Section RoundTrip.
Context `{SerdeA2ui}.

Lemma node_to_component c :
  component_from_value (wire_value c) = Ok c →
  v09_node_to_component (V09.component_to_json c) = Some c.
Proof.
  intros Hc. unfold v09_node_to_component. rewrite node_to_object.
  unfold wire_value, json_object in Hc |- *. cbn [mbind option_bind]. by rewrite Hc.
Qed.

(** A version 0.9 envelope is taken back to the surface it was built from,
    through up to six wrappers: for every component the decoder reads from its
    canonical object, building the envelope and reversing it is the identity,
    whatever the components and their order. *)
Theorem v09_roundtrip s ks :
  (∀ c, c ∈ components s → component_from_value (wire_value c) = Ok c) →
  length ks ≤ 6 →
  envelope_to_surface (wrapped ks (V09.build s)) = Some s.
Proof.
  intros Hd Hk. unfold envelope_to_surface.
  replace 7 with (length ks + S (6 - length ks)) by lia. rewrite find_stream_wrapped.
  cbn [mbind option_bind]. destruct s as [cs]. cbn [components] in *.
  assert (mapM v09_node_to_component (V09.component_to_json <$> cs) = Some cs) as ->; [|done].
  apply mapM_Some_2. induction cs as [|c cs IH]; [constructor|]. cbn [fmap list_fmap].
  constructor; [apply node_to_component, Hd; set_solver|]. apply IH. set_solver.
Qed.
End RoundTrip.

(** A decoder that reads one button. *)
Definition demo_button : Component :=
  Component.Button §"Go" §"t" (Value.Bool true) None (Some §"ui://x") true.
Definition button_serde : SerdeA2ui := {|
  surface_from_value _ := Err [];
  component_from_value v :=
    match get_str §"label" v, get_str §"tool" v, value_get §"args" v, get_str §"resource" v with
    | Some l, Some t, Some a, r =>
        Ok (Component.Button l t a None r (bool_decide (is_Some (value_get §"primary" v))))
    | _, _, _, _ => Err §"missing field"
    end;
|}.

Lemma v09_roundtrip_witness :
  let s := {| components := [demo_button; demo_button] |} in
  @envelope_to_surface button_serde (wrapped [§"result"] (V09.build s)) = Some s.
Proof.
  apply (@v09_roundtrip button_serde {| components := [demo_button; demo_button] |} [§"result"]).
  - intros c Hc. assert (c = demo_button) as -> by set_solver. reflexivity.
  - cbn. lia.
Defined.

(** ** Behaviour at the edges *)

(** The structural rules are applied to the top level only: the fallback of an
    embed whose page may not be linked stands alone, unchecked. *)
Lemma unlinkable_embed_exposes_unchecked_fallback :
  let fb := Component.FormGroups None [] §"Submit" None in
  let c := Component.Embed §"http://x" §"t" None fb in
  check c = Ok () ∧ @sanitized sample_url None c = Some fb ∧ check fb ≠ Ok ().
Proof. done. Qed.

(** An empty version 0.8 envelope is taken for a version 0.9 one. *)
Lemma empty_v08_envelope_reverses `{SerdeA2ui} :
  envelope_to_surface (V08.build {| components := [] |}) = Some {| components := [] |}.
Proof. reflexivity. Qed.
