(* ===== verification/A2uiText.v ===== *)
(** * A2uiText: the plain-text degradation of a surface
    (crates/triton-core/src/a2ui/text.rs)

    What a channel without widgets shows: each action that sends a message is
    the complete line to copy, each link its URL.  Doubles occur once, in the
    progress bar; they are evaluated with the binary64 operations of the
    standard library's [SpecFloat]. *)

From Stdlib Require Import SpecFloat.
From S2P Require Import Prelude F64 Json Message A2ui.

(** ** Lines *)

Definition SEND_MARK : str := §"› ".

Definition action_line (label : str) (a : Action) : str :=
  match a with
  | Action.OpenUrl url => label ++ §": " ++ url
  | Action.SendMessage text => SEND_MARK ++ text
  end.

Definition heading (title : option str) : list str :=
  match title with
  | Some t => if is_empty (trim t) then [] else [t]
  | None => []
  end.

(** A non-empty optional string. *)
Definition non_empty (o : option str) : option str :=
  match o with Some (a :: s) => Some (a :: s) | _ => None end.

Definition row_action (a : option Action) : list str :=
  match a with
  | Some (Action.OpenUrl url) => [§"   " ++ url]
  | Some (Action.SendMessage text) => [§"   " ++ SEND_MARK ++ text]
  | None => []
  end.

Definition numbered (i : nat) (s : str) : str := dec (Z.of_nat i + 1) ++ §". " ++ s.

Definition list_item (i : nat) (it : ListItem) : list str :=
  numbered i (li_label it
    ++ match non_empty (li_detail it) with Some d => §" — " ++ d | None => [] end)
  :: row_action (li_action it).

Definition list_text (title : option str) (items : list ListItem) : str :=
  join nl (heading title ++ concat (imap list_item items)).

(** The cells a row shows: those with a value, the first without its label. *)
Definition row_cells (columns : list TableColumn) (r : TableRow) : list str :=
  imap (λ j '(label, v), if decide (j = 0) then v else label ++ §": " ++ v)
    (omap (λ c, v ← str_map_get (c_key c) (r_cells r);
                if is_empty v then None else Some (c_label c, v)) columns).

Definition table_row (columns : list TableColumn) (i : nat) (r : TableRow) : list str :=
  numbered i (join §" · " (row_cells columns r)) :: row_action (r_action r).

Definition table_text (title : option str) (columns : list TableColumn) (rows : list TableRow)
    : str :=
  join nl (heading title ++ concat (imap (table_row columns) rows)).

Definition chips_text (prompt : option str) (chips : list Chip) : str :=
  join nl (heading prompt ++ ((λ c, SEND_MARK ++ chip_message c) <$> chips)).

Definition counts_suffix (n : TreeNode) : str :=
  match n_counts n with
  | [] => []
  | cs => §" — " ++ join §" · " ((λ c, trim (tc_value c ++ §" " ++ tc_label c)) <$> cs)
  end.

Definition is_gap_leaf (n : TreeNode) : bool :=
  n_gap n && is_empty (n_children n) && is_empty (n_chips n).

Definition indent (depth : nat) : str := concat (replicate depth §"  ").

(** The lines of a node itself. *)
Definition node_head (n : TreeNode) (depth : nat) : list str :=
  let gap := if n_gap n then §" ⚠" else [] in
  let labels := join §", " (chip_label <$> n_chips n) in
  let head := indent depth ++ n_label n ++ counts_suffix n ++ gap in
  (if is_empty (n_children n) && negb (is_empty (n_chips n)) then [head ++ §": " ++ labels]
   else head :: if is_empty (n_chips n) then [] else [indent (depth + 1) ++ §"· " ++ labels])
  ++ match n_action n with
     | Some (Action.OpenUrl url) => [indent (depth + 1) ++ action_caption n ++ §": " ++ url]
     | Some (Action.SendMessage text) => [indent (depth + 1) ++ SEND_MARK ++ text]
     | None => []
     end.

Definition gap_line (n : TreeNode) (depth : nat) : list str :=
  match n_label <$> filter (λ c, is_gap_leaf c = true) (n_children n) with
  | [] => []
  | gaps => [indent (depth + 1) ++ join §", " gaps ++ §" ⚠"]
  end.

Fixpoint tree_node (n : TreeNode) (depth : nat) : list str :=
  node_head n depth
  ++ concat (map (λ c, if is_gap_leaf c then [] else tree_node c (depth + 1)) (n_children n))
  ++ gap_line n depth.

Definition tree_text (title : option str) (nodes : list TreeNode) : str :=
  join nl (heading title ++ concat ((λ n, tree_node n 0) <$> nodes)).

Definition notice_text (tone : Tone) (title : option str) (text : str) : str :=
  let mark := match tone with Info => §"ⓘ" | Warn | Attention => §"⚠" end in
  match non_empty title with
  | Some t => mark ++ §" " ++ t ++ §": " ++ text
  | None => mark ++ §" " ++ text
  end.

Definition step_mark (s : StepState) : str :=
  match s with Done => §"✓" | Active => §"▶" | Pending => §"○" end.

(** The filled tenths and the percentage.  [usize] has 64 bits here. *)
Definition filled_tenths (fraction : f64) : Z :=
  f64_round_as u64_max (f64_mul (f64_clamp f64_zero f64_one (f64_decode fraction)) f64_ten).
Definition percent (fraction : f64) : Z :=
  f64_round_as u32_max (f64_mul (f64_clamp f64_zero f64_one (f64_decode fraction)) f64_hundred).

(** U+00A0 *)
Definition nbsp : str := ascii_of_N <$> [0xC2; 0xA0]%N.

(** [s.repeat(n)] of one character; [10 - filled] wraps below zero. *)
Definition repeat_char (n : Z) (c : ascii) : str := replicate (Z.to_nat n) c.

Definition progress_bar (fraction : f64) : str :=
  §"[" ++ repeat_char (filled_tenths fraction) "#"
  ++ repeat_char (u64_wrap (10 - filled_tenths fraction)) "-"
  ++ §"] " ++ dec (percent fraction) ++ nbsp ++ §"%".

Definition progress_text (title : option str) (steps : list ProgressStep) (fraction : option f64)
    : str :=
  join nl (heading title ++ ((λ s, step_mark (ps_state s) ++ §" " ++ ps_label s) <$> steps)
    ++ match fraction with Some f => [progress_bar f] | None => [] end).

Definition key_value_text (title : option str) (pairs : list KeyValuePair) : str :=
  join nl (heading title ++ ((λ p, kv_label p ++ §": "
    ++ match kv_before p with Some b => b ++ §" → " | None => [] end ++ kv_value p) <$> pairs)).

Definition header_text (title : str) (context stamp : option str) : str :=
  join nl ((title ++ match non_empty stamp with Some s => §" (" ++ s ++ §")" | None => [] end)
           :: match non_empty context with Some c => [c] | None => [] end).

(** The label of the field a placeholder names. *)
Definition field_label (fields : list FormField) (name : str) : option str :=
  (λ x, f_label x.2) <$> list_find (λ f, f_name f = name) fields.

Definition select_lines (fields : list FormField) : list str :=
  omap (λ f, match f_kind f, options f with
             | KSelect, (_ :: _) as opts =>
                 Some (§"  " ++ f_label f ++ §": " ++ join §" | " (o_label <$> opts))
             | _, _ => None
             end) fields.

Definition group_lines (g : FormGroup) : list str :=
  (g_label g ++ §": " ++ SEND_MARK
     ++ preview_template (field_label (g_fields g)) (g_send_template g))
  :: select_lines (g_fields g).

Definition form_groups_text (title : option str) (groups : list FormGroup) : str :=
  join nl (option_list (non_empty title) ++ concat (group_lines <$> groups)).

(** The options whose value fills the template. *)
Definition selection_lines (prompt : str) (opts : list SelectionOption) (args_key : str)
    (template : str) : list str :=
  filter (λ l, is_empty (trim l) = false)
    (prompt :: omap (λ o,
       match fill_template (λ k, if decide (k = args_key) then Some (o_value o) else None) template
       with Ok msg => Some (SEND_MARK ++ msg) | Err _ => None end) opts).

Definition form_text (title : str) (fields : list FormField) (tpl : str) : str :=
  join nl ((if is_empty title then [] else [title])
    ++ (SEND_MARK ++ preview_template (field_label fields) tpl) :: select_lines fields).

(** ** Components and surfaces *)

Section Degrade.
Context `{UrlParse} (cell : HttpHosts).

Definition source_line (i : SourceItem) : str :=
  if is_allowed_link cell (s_resource i) then s_label i ++ §": " ++ s_resource i else s_label i.

(** What a component contributes to the text of a surface; [degraded] is its
    degradation. *)
Definition chunk (degraded : option str) (c : Component) : list str :=
  match c with
  | Component.Text value _ => [value]
  | Component.Narration text => [text]
  | Component.Diff lines => [diff_to_text lines]
  | Component.Dashboard title tiles =>
      [join nl (title :: ((λ t, t_label t ++ §": " ++ t_value t) <$> tiles))]
  | Component.Sources items => [join nl (source_line <$> items)]
  | _ => option_list degraded
  end.

Definition join_chunks (chunks : list str) : str :=
  join (nl ++ nl) (filter (λ c, is_empty (trim c) = false) chunks).

(** [out.trim_end()], [None] when nothing is left. *)
Definition trimmed (out : str) : option str :=
  let out := trim_end out in if is_empty out then None else Some out.

Fixpoint degrade (c : Component) : option str :=
  match c with
  | Component.List title items => trimmed (list_text title items)
  | Component.Table title columns rows => trimmed (table_text title columns rows)
  | Component.Chips prompt chips => trimmed (chips_text prompt chips)
  | Component.Tree title nodes _ => trimmed (tree_text title nodes)
  | Component.Notice tone title text => trimmed (notice_text tone title text)
  | Component.Progress title steps fraction => trimmed (progress_text title steps fraction)
  | Component.KeyValue title pairs => trimmed (key_value_text title pairs)
  | Component.Header title context stamp => trimmed (header_text title context stamp)
  | Component.FormGroups title groups _ _ => trimmed (form_groups_text title groups)
  | Component.Embed url title _ fallback =>
      let s := join_chunks (chunk (degrade fallback) fallback) in
      trimmed ((if is_empty s then [] else s ++ nl ++ nl) ++ title ++ §": " ++ url)
  | Component.Button label _ _ (Some a) _ _ => trimmed (action_line label a)
  | Component.Selection prompt options _ args_key _ (Some sub) =>
      trimmed (join nl (selection_lines prompt options args_key (st_template sub)))
  | Component.Form title fields _ _ (Some tpl) _ => trimmed (form_text title fields tpl)
  | _ => None
  end.

Definition surface_to_text (s : Surface) : str :=
  join_chunks (concat ((λ c, chunk (degrade c) c) <$> components s)).
End Degrade.

Example bar_half : progress_bar 0x3FE0000000000000%Z = §"[#####-----] 50" ++ nbsp ++ §"%".
Proof. vm_compute. reflexivity. Qed.
Example bar_third : progress_bar 0x3FD5555555555555%Z = §"[###-------] 33" ++ nbsp ++ §"%".
Proof. vm_compute. reflexivity. Qed.
Example bar_nan : progress_bar 0x7FF8000000000000%Z = §"[----------] 0" ++ nbsp ++ §"%".
Proof. vm_compute. reflexivity. Qed.
Example bar_over : progress_bar 0x4000000000000000%Z = §"[##########] 100" ++ nbsp ++ §"%".
Proof. vm_compute. reflexivity. Qed.

(** ** The bar is ten characters wide, whatever the double *)

Section Bar.
Open Scope Z_scope.

Lemma shr_1_half r : 0 ≤ shr_m r → shr_m (shr_1 r) = shr_m r / 2 ∧ 0 ≤ shr_m (shr_1 r).
Proof.
  destruct r as [m r s]. cbn. intros Hm.
  assert (∀ p, Z.pos p = Z.pos p~1 / 2) by
    (intros p; apply Z.div_unique with 1; lia).
  assert (∀ p, Z.pos p = Z.pos p~0 / 2) by
    (intros p; apply Z.div_unique with 0; lia).
  destruct m as [|[p|p|]|p]; cbn; split; auto; lia.
Qed.

Lemma iter_shr p r :
  0 ≤ shr_m r →
  shr_m (SpecFloat.iter_pos shr_1 p r) = shr_m r / 2 ^ Z.pos p ∧ 0 ≤ shr_m (SpecFloat.iter_pos shr_1 p r).
Proof.
  revert r. induction p as [p IH|p IH|]; intros r Hr; cbn [SpecFloat.iter_pos].
  - destruct (shr_1_half r Hr) as [E1 H1]. destruct (IH _ H1) as [E2 H2].
    destruct (IH _ H2) as [E3 H3]. split; [|done].
    rewrite E3, E2, E1, !Z.div_div by lia. f_equal.
    replace (Z.pos p~1) with (1 + Z.pos p + Z.pos p) by lia. rewrite !Z.pow_add_r by lia. lia.
  - destruct (IH _ Hr) as [E2 H2]. destruct (IH _ H2) as [E3 H3]. split; [|done].
    rewrite E3, E2, !Z.div_div by lia. f_equal.
    replace (Z.pos p~0) with (Z.pos p + Z.pos p) by lia. rewrite Z.pow_add_r by lia. lia.
  - apply shr_1_half, Hr.
Qed.

Lemma digits_le m n : 0 ≤ m < 2 ^ n → 0 ≤ n → Zdigits2 m ≤ n.
Proof.
  intros [Hm Hn] H0. destruct m as [|p|p]; [done| |lia]. cbn.
  assert (2 ^ (Z.pos (digits2_pos p) - 1) ≤ Z.pos p) as Hp.
  { clear. induction p as [p IH|p IH|]; cbn [digits2_pos]; [..|done];
      rewrite Pos2Z.inj_succ;
      replace (Z.succ (Z.pos (digits2_pos p)) - 1) with (Z.succ (Z.pos (digits2_pos p) - 1)) by lia;
      rewrite Z.pow_succ_r by lia; lia. }
  apply Z.nlt_ge. intros Hlt.
  assert (2 ^ n ≤ 2 ^ (Z.pos (digits2_pos p) - 1)) by (apply Z.pow_le_mono_r; lia). lia.
Qed.

(** Bringing a mantissa below [2 ^ (7 - e)] into format shifts it right and
    leaves an exponent of -46 at most. *)
Lemma shr_fexp_small m e r e' :
  0 ≤ m < 2 ^ (7 - e) → e ≤ -46 → shr_fexp 53 1024 m e loc_Exact = (r, e') →
  e ≤ e' ≤ -46 ∧ 0 ≤ shr_m r ∧ shr_m r = m / 2 ^ (e' - e).
Proof.
  intros Hm He. unfold shr_fexp, shr. cbn [shr_record_of_loc].
  assert (fexp 53 1024 (Zdigits2 m + e) ≤ -46) as Hf.
  { pose proof (digits_le m (7 - e) Hm ltac:(lia)). unfold fexp, emin. lia. }
  destruct (fexp 53 1024 (Zdigits2 m + e) - e) as [|p|p] eqn:E; intros Hs; injection Hs as <- <-.
  - rewrite Z.sub_diag, Z.div_1_r. cbn. lia.
  - destruct (iter_shr p {| shr_m := m; shr_r := false; shr_s := false |}) as [E1 H1]; [cbn; lia|].
    cbn [shr_m] in E1. rewrite E1 in *. replace (e + Z.pos p - e) with (Z.pos p) by lia. lia.
  - rewrite Z.sub_diag, Z.div_1_r. cbn. lia.
Qed.

Lemma div_pow_bound m n a b :
  0 ≤ a ≤ b → m ≤ n * 2 ^ b → m / 2 ^ a ≤ n * 2 ^ (b - a).
Proof.
  intros Hab Hm. transitivity (n * 2 ^ b / 2 ^ a); [apply Z.div_le_mono; lia|].
  replace b with (b - a + a) at 1 by lia. rewrite Z.pow_add_r, Z.mul_assoc, Z.div_mul by lia. lia.
Qed.

Lemma round_up_one m l : round_nearest_even m l ≤ m + 1 ∧ m ≤ round_nearest_even m l.
Proof. destruct l as [|[]]; cbn; try case_if; lia. Qed.

(** A number that is at most [n] before rounding is [n] at most as an
    integer. *)
Lemma round_le max m e n :
  0 ≤ n ≤ 100 → n ≤ max → 0 < m ≤ n * 2 ^ (- e) → e ≤ -46 →
  0 ≤ f64_round_as max (binary_round_aux 53 1024 false m e loc_Exact) ≤ n.
Proof.
  intros Hn Hmax Hm He. unfold binary_round_aux.
  destruct (shr_fexp 53 1024 m e loc_Exact) as [r e1] eqn:E1.
  assert (∀ x, x ≤ -46 → n * 2 ^ (- x) + 1 < 2 ^ (7 - x)) as Hbig.
  { intros x Hx. replace (7 - x) with (7 + - x) by lia. rewrite Z.pow_add_r by lia.
    pose proof (Z.pow_pos_nonneg 2 (- x)). nia. }
  apply shr_fexp_small in E1 as (He1 & Hr & Er); [|specialize (Hbig e); lia|lia].
  set (m2 := round_nearest_even _ _).
  destruct (round_up_one (shr_m r) (loc_of_shr_record r)) as [Hm2 Hm2']. fold m2 in Hm2, Hm2'.
  assert (shr_m r ≤ n * 2 ^ (- e1)) as Hr'.
  { rewrite Er. replace (- e1) with (- e - (e1 - e)) by lia. apply div_pow_bound; lia. }
  destruct (shr_fexp 53 1024 m2 e1 loc_Exact) as [r2 e2] eqn:E2.
  apply shr_fexp_small in E2 as (He2 & Hr2 & Er2); [|specialize (Hbig e1); lia|lia].
  assert (shr_m r2 ≤ n * 2 ^ (- e2) + 1) as Hb.
  { rewrite Er2. transitivity ((n * 2 ^ (- e2)) * 2 ^ (e2 - e1) / 2 ^ (e2 - e1) + 1).
    2: { rewrite Z.div_mul; lia. }
    rewrite <-Z.div_add by lia. apply Z.div_le_mono; [lia|].
    rewrite <-Z.mul_assoc, <-Z.pow_add_r by lia.
    replace (- e2 + (e2 - e1)) with (- e1) by lia.
    pose proof (Z.pow_pos_nonneg 2 (e2 - e1)). lia. }
  destruct (shr_m r2) as [|p|p] eqn:Ep; cbn [f64_round_as]; [lia| |lia].
  rewrite (proj2 (Z.leb_le e2 (1024 - 53))) by lia. cbn [f64_round_as].
  rewrite (proj2 (Z.leb_gt 0 e2)) by lia.
  assert (0 < 2 ^ (- e2 - 1)) by (apply Z.pow_pos_nonneg; lia).
  assert (2 ^ (- e2) = 2 * 2 ^ (- e2 - 1)) as E.
  { rewrite <-Z.pow_succ_r by lia. f_equal. lia. }
  assert (1 < 2 ^ (- e2 - 1)) by (apply Z.pow_gt_1; lia).
  split.
  - apply Z.min_glb; [lia|]. apply Z.div_pos; lia.
  - transitivity ((Z.pos p + 2 ^ (- e2 - 1)) / 2 ^ (- e2)); [lia|].
    apply Z.lt_succ_r, Z.div_lt_upper_bound; lia.
Qed.

(** A clamped fraction is 0, not a number, or a positive double of at most 1. *)
Lemma clamped_fraction bits :
  let x := f64_clamp f64_zero f64_one (f64_decode bits) in
  x = S754_nan ∨ (∃ s, x = S754_zero s)
  ∨ ∃ m e, x = S754_finite false m e ∧ e ≤ -52 ∧ Z.pos m ≤ 2 ^ (- e).
Proof.
  assert (∀ s m e, Z.pos m < 2 ^ 53 → let x := f64_clamp f64_zero f64_one (S754_finite s m e) in
    (∃ s, x = S754_zero s) ∨ ∃ m e, x = S754_finite false m e ∧ e ≤ -52 ∧ Z.pos m ≤ 2 ^ (- e)) as Hf.
  { intros s m e Hm. unfold f64_clamp, f64_lt, f64_zero, f64_one. cbn [SFcompare].
    destruct s; [left; by exists false|]. right.
    destruct (Z.compare_spec (-52) e) as [<-|He|He].
    - change (Pos.compare_cont Eq (2 ^ 52) m) with (2 ^ 52 ?= m)%positive.
      destruct (Pos.compare_spec (2 ^ 52) m);
        [exists m, (-52)|exists (2 ^ 52)%positive, (-52)|exists m, (-52)]; repeat split; lia.
    - exists (2 ^ 52)%positive, (-52). repeat split; lia.
    - exists m, e. repeat split; [lia|]. transitivity (2 ^ 53); [lia|]. apply Z.pow_le_mono_r; lia. }
  cbn zeta. unfold f64_decode. pose proof (Z.mod_pos_bound bits (2 ^ 52) ltac:(lia)) as Hm.
  repeat case_if.
  - destruct (bits mod 2 ^ 52) eqn:E; [right; left|right; apply Hf; lia|lia].
    eexists. reflexivity.
  - destruct (bits mod 2 ^ 52); [|by left..]. destruct (Z.testbit bits 63).
    + right. left. eexists. reflexivity.
    + right. right. exists (2 ^ 52)%positive, (-52). repeat split; lia.
  - destruct (bits mod 2 ^ 52 + 2 ^ 52) eqn:E; [by left| |by left]. right. apply Hf. lia.
Qed.

Lemma scaled_le max bits c ec n :
  0 ≤ n ≤ 100 → n ≤ max → Z.pos c = n * 2 ^ (- ec) → -60 ≤ ec ≤ 0 →
  0 ≤ f64_round_as max (f64_mul (f64_clamp f64_zero f64_one (f64_decode bits))
                          (S754_finite false c ec)) ≤ n.
Proof.
  intros Hn Hmax Hc Hec.
  destruct (clamped_fraction bits) as [->|[[s ->]|(m & e & -> & He & Hm)]];
    cbn [f64_mul SFmul xorb f64_round_as]; [lia|lia|].
  unfold f64_mul. cbn [SFmul xorb]. apply round_le; [done|done| |lia].
  rewrite Pos2Z.inj_mul, Hc. replace (- (e + ec)) with (- e + - ec) by lia.
  rewrite Z.pow_add_r by lia. pose proof (Z.pow_pos_nonneg 2 (- ec)). nia.
Qed.

(** The progress bar is drawn for every double, the subnormal, negative,
    infinite and undefined ones included: the filled part never exceeds the ten
    positions, so the subtraction that counts the empty ones does not wrap, the
    bar is always ten characters wide, and the percentage is between 0 and
    100. *)
Theorem progress_bar_ten_wide bits :
  0 ≤ filled_tenths bits ≤ 10
  ∧ u64_wrap (10 - filled_tenths bits) = 10 - filled_tenths bits
  ∧ 0 ≤ percent bits ≤ 100
  ∧ ∃ bar, progress_bar bits = §"[" ++ bar ++ §"] " ++ dec (percent bits) ++ nbsp ++ §"%"
           ∧ length bar = 10%nat.
Proof.
  assert (0 ≤ filled_tenths bits ≤ 10) as Hf by (apply scaled_le; unfold u64_max; lia).
  assert (u64_wrap (10 - filled_tenths bits) = 10 - filled_tenths bits) as Hw.
  { apply u64_wrap_small. unfold u64_max. lia. }
  split; [done|]. split; [done|]. split; [apply scaled_le; unfold u32_max; lia|].
  exists (repeat_char (filled_tenths bits) "#" ++ repeat_char (10 - filled_tenths bits) "-").
  unfold progress_bar, repeat_char. rewrite Hw, <-!app_assoc. split; [done|].
  rewrite length_app, !length_replicate. lia.
Qed.
End Bar.
