(* ===== verification/Surface.v ===== *)
(** * Surface: what a channel can show (crates/triton-core/src/surface.rs)

    The capability profile of a channel, its wire form, and the registry the
    dispatcher reads.  The dispatcher and the context keep descriptors in their
    wire form ([registry_values]). *)

From S2P Require Import Prelude Json Errors A2ui.

Module Markdown.
Inductive t := None | Basic | Full.
End Markdown.
Module Tables.
Inductive t := Text | Native.
End Tables.
Module Charts.
Inductive t := None | Caption | Image | Native.
End Charts.

(** [rename_all = "snake_case"] *)
Definition markdown_value (m : Markdown.t) : Value :=
  js match m with Markdown.None => §"none" | Markdown.Basic => §"basic" | Markdown.Full => §"full" end.
Definition tables_value (t : Tables.t) : Value :=
  js match t with Tables.Text => §"text" | Tables.Native => §"native" end.
Definition charts_value (c : Charts.t) : Value :=
  js match c with
     | Charts.None => §"none" | Charts.Caption => §"caption"
     | Charts.Image => §"image" | Charts.Native => §"native"
     end.

Record SurfaceProfile := {
  sp_channel : str;
  sp_markdown : Markdown.t;
  sp_tables : Tables.t;
  sp_buttons : bool;
  sp_max_buttons : option nat;
  sp_charts : Charts.t;
  sp_images : bool;
  sp_max_text_bytes : option nat;
  sp_streaming : bool;
  sp_subject_line : bool;
  sp_guidance : str;
}.

(** [None]: the program does not compile. *)
Definition text_cap (p : SurfaceProfile) : option nat := sp_max_text_bytes p.
Definition button_cap (p : SurfaceProfile) : option nat := sp_max_buttons p.

Definition REST : SurfaceProfile :=
  {| sp_channel := §"rest"; sp_markdown := Markdown.Full; sp_tables := Tables.Native;
     sp_buttons := true; sp_max_buttons := None; sp_charts := Charts.Native; sp_images := true;
     sp_max_text_bytes := None; sp_streaming := true; sp_subject_line := false;
     sp_guidance := §"Web client: the full surface renders. Markdown, tables, buttons and charts all work." |}.

Definition MCP : SurfaceProfile :=
  {| sp_channel := §"mcp"; sp_markdown := Markdown.Full; sp_tables := Tables.Native;
     sp_buttons := false; sp_max_buttons := None; sp_charts := Charts.Image; sp_images := true;
     sp_max_text_bytes := None; sp_streaming := false; sp_subject_line := false;
     sp_guidance := §"MCP host: the answer is shown as markdown prose with an inline chart image. Buttons are not shown." |}.

Definition A2A : SurfaceProfile :=
  {| sp_channel := §"a2a"; sp_markdown := Markdown.Full; sp_tables := Tables.Native;
     sp_buttons := false; sp_max_buttons := None; sp_charts := Charts.Image; sp_images := true;
     sp_max_text_bytes := None; sp_streaming := true; sp_subject_line := false;
     sp_guidance := §"A2A client: the answer is shown as markdown prose with an inline chart image. Buttons are not shown." |}.

Definition A2A_A2UI : SurfaceProfile :=
  {| sp_channel := §"a2a"; sp_markdown := sp_markdown A2A; sp_tables := sp_tables A2A;
     sp_buttons := true; sp_max_buttons := sp_max_buttons A2A; sp_charts := Charts.Native;
     sp_images := sp_images A2A; sp_max_text_bytes := sp_max_text_bytes A2A;
     sp_streaming := sp_streaming A2A; sp_subject_line := sp_subject_line A2A;
     sp_guidance := §"A2A client with A2UI (e.g. Gemini Enterprise): native components. Markdown, tables, buttons and charts all render." |}.

Definition A2A_A2UI_KEY : str := §"a2a+a2ui".
Definition DESCRIPTOR_VERSION : Z := 1.

Record ButtonSupport := { bs_supported : bool; bs_max : option nat }.

Record SurfaceDescriptor := {
  sd_v : Z;
  sd_channel : str;
  sd_markdown : Markdown.t;
  sd_tables : Tables.t;
  sd_buttons : ButtonSupport;
  sd_charts : Charts.t;
  sd_images : bool;
  sd_max_text_bytes : option nat;
  sd_streaming : bool;
  sd_subject_line : bool;
  sd_guidance : str;
}.

Definition from_profile (p : SurfaceProfile) (guidance : option str) : SurfaceDescriptor :=
  {| sd_v := DESCRIPTOR_VERSION; sd_channel := sp_channel p; sd_markdown := sp_markdown p;
     sd_tables := sp_tables p;
     sd_buttons := {| bs_supported := sp_buttons p;
                      bs_max := if sp_buttons p then sp_max_buttons p else None |};
     sd_charts := sp_charts p; sd_images := sp_images p;
     sd_max_text_bytes := sp_max_text_bytes p; sd_streaming := sp_streaming p;
     sd_subject_line := sp_subject_line p; sd_guidance := default (sp_guidance p) guidance |}.

(** The derived serialisation: an absent number is [null]. *)
Definition opt_nat (o : option nat) : Value :=
  match o with Some n => Value.Number (Value.Int (Z.of_nat n)) | None => Value.Null end.
Definition descriptor_value (d : SurfaceDescriptor) : Value :=
  json_object
    [(§"v", Value.Number (Value.Int (sd_v d))); (§"channel", js (sd_channel d));
     (§"markdown", markdown_value (sd_markdown d)); (§"tables", tables_value (sd_tables d));
     (§"buttons", json_object [(§"supported", Value.Bool (bs_supported (sd_buttons d)));
                               (§"max", opt_nat (bs_max (sd_buttons d)))]);
     (§"charts", charts_value (sd_charts d)); (§"images", Value.Bool (sd_images d));
     (§"max_text_bytes", opt_nat (sd_max_text_bytes d)); (§"streaming", Value.Bool (sd_streaming d));
     (§"subject_line", Value.Bool (sd_subject_line d)); (§"guidance", js (sd_guidance d))].

Definition SurfaceRegistry : Type := gmap str SurfaceDescriptor.

Definition registry_insert_as (key : str) (p : SurfaceProfile) (guidance : option str)
    (r : SurfaceRegistry) : SurfaceRegistry := <[key := from_profile p guidance]> r.
Definition registry_insert (p : SurfaceProfile) (guidance : option str) (r : SurfaceRegistry)
    : SurfaceRegistry := registry_insert_as (sp_channel p) p guidance r.

Definition with_trio_defaults : SurfaceRegistry :=
  registry_insert_as A2A_A2UI_KEY A2A_A2UI None
    (fold_left (λ r p, registry_insert p None r) [REST; MCP; A2A] ∅).

Definition registry_values (r : SurfaceRegistry) : gmap str Value := descriptor_value <$> r.

(** A registered channel is found under its name, an override of its guidance
    changes nothing else, and no descriptor names a number of buttons where
    buttons are not shown. *)
Lemma registry_insert_lookup p g r :
  registry_insert p g r !! sp_channel p = Some (from_profile p g).
Proof. unfold registry_insert, registry_insert_as. apply lookup_insert_eq. Qed.

Lemma from_profile_buttons p g :
  bs_supported (sd_buttons (from_profile p g)) = false → bs_max (sd_buttons (from_profile p g)) = None.
Proof. cbn. by destruct (sp_buttons p). Qed.

(** The variant for A2UI clients does not replace the plain channel. *)
Lemma trio_defaults :
  with_trio_defaults !! §"a2a" = Some (from_profile A2A None)
  ∧ with_trio_defaults !! A2A_A2UI_KEY = Some (from_profile A2A_A2UI None).
Proof. done. Qed.
