(* ===== verification/McpApp.v ===== *)
(** * McpApp: the answer card of an MCP Apps host
    (crates/triton-core/src/a2ui/mcp_app.rs)

    [widget_data] turns a tool result's surface into the data the static widget
    draws; [card_text] is the line the model reads instead of the rows.  The
    page itself and the hash in its URI are not modelled. *)

From Stdlib Require Import SpecFloat.
From S2P Require Import Prelude F64 Json Context Message A2ui.

Definition MIME_TYPE : str := §"text/html;profile=mcp-app".
Definition DATA_VERSION : Z := 1.
Definition META_KEY : str := §"triton/widget".
Definition MAX_ROWS : nat := 50.
Definition MAX_TREE_DEPTH : nat := 4.
Definition MAX_TREE_NODES : nat := 200.
Definition MAX_TEXT : nat := 500.
Definition MAX_URL : nat := 2048.
Definition MAX_BYTES : nat := 64 * 1024.

Definition jn (n : nat) : Value := Value.Number (Value.Int (Z.of_nat n)).

(** [v[key]]: [null] where there is nothing. *)
Definition index (k : str) (v : Value) : Value := default Value.Null (value_get k v).

Definition is_widget_uri (uri : str) : bool :=
  match strip_prefix §"ui://triton/answer-card" uri with
  | Some rest => bool_decide (is_Some (strip_suffix §".html" rest)) && negb (contains §"/" rest)
  | None => false
  end.

(** ** What a control may send or open *)

(** U+061C, U+200E, U+200F, U+202A to U+202E, U+2066 to U+2069. *)
Definition bidi_marks : list str :=
  map (map ascii_of_N)
  [[0xD8; 0x9C]; [0xE2; 0x80; 0x8E]; [0xE2; 0x80; 0x8F];
   [0xE2; 0x80; 0xAA]; [0xE2; 0x80; 0xAB]; [0xE2; 0x80; 0xAC]; [0xE2; 0x80; 0xAD];
   [0xE2; 0x80; 0xAE];
   [0xE2; 0x81; 0xA6]; [0xE2; 0x81; 0xA7]; [0xE2; 0x81; 0xA8]; [0xE2; 0x81; 0xA9]]%N.
Definition has_bidi (s : str) : bool := existsb (λ m, contains m s) bidi_marks.

Definition sendable (t : str) : bool :=
  negb (is_empty (trim t)) && (char_count t <=? MAX_TEXT)%nat && negb (has_bidi t).

(** ** Cutting *)

Definition ellipsis : str := §"…".

(** Keys whose values are not shown. *)
Definition uncut (k : str) : bool :=
  bool_decide (k = §"url" ∨ k = §"name" ∨ k = §"field" ∨ k = §"default").

Fixpoint cap_texts (v : Value) : Value :=
  match v with
  | Value.String s =>
      if (MAX_TEXT <? char_count s)%nat
      then Value.String (take_chars (MAX_TEXT - 1) s ++ ellipsis) else v
  | Value.Object m =>
      Value.Object (map (λ e, (e.1, if uncut e.1 then e.2 else cap_texts e.2)) m)
  | Value.Array a => Value.Array (map cap_texts a)
  | _ => v
  end.

Section Fit.
Context `{SerdeJson}.

Definition json_size (v : Value) : nat := length (json_to_string v).

(** The longest prefix of the blocks that fits. *)
Fixpoint kept_blocks (used : nat) (body : list Value) : nat :=
  match body with
  | [] => 0
  | b :: body' =>
      let s := json_size b + 1 in
      if (MAX_BYTES <? used + s)%nat then 0 else S (kept_blocks (used + s) body')
  end.

Definition fit_bytes (out : Value) : option Value :=
  if (json_size out <=? MAX_BYTES)%nat then Some out
  else
    body ← as_array (index §"body" out);
    let out := object_insert §"body" (Value.Array []) out in
    let base := json_size out + 32 in
    let kept := kept_blocks base body in
    if (MAX_BYTES <? base)%nat then None
    else
      let out := object_insert §"body" (Value.Array (take kept body)) out in
      Some (object_insert §"more" (jn (length body - kept)) out).
End Fit.

(** The first rows of a block. *)
Definition first_rows (key : str) (items : list Value) (block : Value) : Value :=
  let block := if (MAX_ROWS <? length items)%nat
               then object_insert §"more" (jn (length items - MAX_ROWS)) block else block in
  object_insert key (Value.Array (take MAX_ROWS items)) block.

(** A text that is there and not blank. *)
Definition put_text (key : str) (s : option str) (v : Value) : Value :=
  match s with
  | Some s => if is_empty (trim s) then v else object_insert key (js s) v
  | None => v
  end.
Definition put_flag (key : str) (b : bool) (v : Value) : Value :=
  if b then object_insert key (Value.Bool true) v else v.
Definition put_some (key : str) (x : option Value) (v : Value) : Value :=
  match x with Some x => object_insert key x v | None => v end.

(** ** The card *)

Record Card := {
  header : option Value;
  body : list Value;
  actions : list Value;
  tone : option str;
}.
Definition empty_card : Card := {| header := None; body := []; actions := []; tone := None |}.
Definition push_body (b : Value) (c : Card) : Card :=
  {| header := header c; body := body c ++ [b]; actions := actions c; tone := tone c |}.
Definition push_action (a : Value) (c : Card) : Card :=
  {| header := header c; body := body c; actions := actions c ++ [a]; tone := tone c |}.

(** [f.clamp(0.0, 1.0)], by bit patterns. *)
Definition clamp_fraction (f : f64) : f64 :=
  if f64_lt (f64_decode f) f64_zero then 0%Z
  else if f64_lt f64_one (f64_decode f) then 0x3FF0000000000000%Z else f.

Definition fact (p : KeyValuePair) : Value :=
  put_text §"before" (kv_before p)
    (json_object [(§"label", js (kv_label p)); (§"value", js (kv_value p))]).

Definition field (f : FormField) : Value :=
  let v := json_object [(§"name", js (f_name f)); (§"label", js (f_label f));
                        (§"kind", js (form_kind_str (f_kind f)))] in
  let v := put_flag §"required" (required f) v in
  let v := put_text §"placeholder" (placeholder f) v in
  let v := put_some §"default" (default_value f) v in
  let v := if is_empty (options f) then v
           else object_insert §"options" (Value.Array (option_value <$>
                  filter (λ o, (char_count (o_value o) <=? MAX_TEXT)%nat
                               && negb (has_bidi (o_value o)) = true) (options f))) v in
  if decide (f_style f = Radio) then object_insert §"style" (js §"radio") v else v.

Definition bad_text (s : str) : bool := (MAX_TEXT <? char_count s)%nat || has_bidi s.

Definition group (label : option str) (fields : list FormField) (template : str) : option Value :=
  let named n := length (filter (λ f, f_name f = n) fields) in
  if bad_text template then None
  else if existsb (λ p, negb (named p =? 1)%nat) (placeholders template)
          || existsb (λ f, negb (named (f_name f) =? 1)%nat) fields then None
  else if existsb (λ f, match default_value f ≫= as_str with
                        | Some d => bad_text d | None => false end) fields then None
  else
    let fields := field <$> fields in
    if existsb (λ f, bool_decide (as_str (index §"kind" f) = Some §"select")
                     && bool_decide (as_bool (index §"required" f) = Some true)
                     && match as_array (index §"options" f) with
                        | Some o => is_empty o | None => true end) fields then None
    else Some (put_text §"label" label
           (json_object [(§"fields", Value.Array fields); (§"template", template_parts template)])).

Section Widget.
Context `{UrlParse}.
Variable cell : HttpHosts.

Definition openable (u : str) : bool :=
  (length u <=? MAX_URL)%nat && starts_with §"https://" u && is_allowed_link cell u.

Definition is_widget_action (a : Value) : bool :=
  let text_ok k ok := match get_str k a with Some s => ok s | None => false end in
  match get_str §"type" a with
  | Some ty =>
      if decide (ty = §"send_message") then text_ok §"text" sendable
      else if decide (ty = §"open_url") then text_ok §"url" openable
      else false
  | None => false
  end.

Definition action (a : Action) : option Value :=
  let v := action_value a in if is_widget_action v then Some v else None.

Definition send (text : str) : Value := action_value (Action.SendMessage text).

Definition chip_list (chips : list Chip) : list Value :=
  omap (λ c, let a := send (chip_message c) in
             if is_widget_action a
             then Some (json_object [(§"label", js (chip_label c)); (§"action", a)])
             else None) chips.

Definition list_item (it : ListItem) : Value :=
  let v := put_text §"detail" (li_detail it) (json_object [(§"label", js (li_label it))]) in
  match li_action it ≫= action with
  | Some a => put_text §"action_label" (li_action_label it) (object_insert §"action" a v)
  | None => v
  end.

Definition table_row (columns : list TableColumn) (r : TableRow) : Value :=
  put_some §"action" (r_action r ≫= action)
    (json_object [(§"cells", jss ((λ c, default [] (str_map_get (c_key c) (r_cells r))) <$> columns))]).

(** *** Trees *)

(** One node without its children. *)
Definition tree_node (n : TreeNode) : Value :=
  let v := json_object [(§"label", js (n_label n))] in
  let counts := (λ c, trim (tc_value c ++ §" " ++ tc_label c)) <$> n_counts n in
  let v := if is_empty counts then v else object_insert §"count" (js (join §" · " counts)) v in
  let v := put_flag §"gap" (n_gap n) v in
  let v := put_flag §"expanded" (n_expanded n) v in
  let chips := chip_list (n_chips n) in
  let v := if is_empty chips then v else object_insert §"chips" (Value.Array chips) v in
  match n_action n ≫= action with
  | Some a => object_insert §"action_label" (js (action_caption n)) (object_insert §"action" a v)
  | None => v
  end.

(** Nodes per level; level 0 is that of the roots. *)
Definition count_level (l k : nat) (acc : list nat) : list nat :=
  let acc := if (length acc <=? l)%nat then acc ++ [0] else acc in alter (λ n, n + k) l acc.
Fixpoint walk_node (l : nat) (acc : list nat) (n : TreeNode) : list nat :=
  if is_empty (n_children n) then acc
  else fold_left (λ acc c, walk_node (S l) acc c) (n_children n)
         (count_level (S l) (length (n_children n)) acc).
Definition per_level (roots : list TreeNode) : list nat :=
  if is_empty roots then []
  else fold_left (walk_node 0) roots (count_level 0 (length roots) []).

(** Each level takes what the levels above it leave. *)
Fixpoint quotas (left : nat) (levels : list nat) : list nat :=
  match levels with
  | [] => []
  | n :: levels' => let q := Nat.min n left in q :: quotas (left - q) levels'
  end.
Definition tree_quota (roots : list TreeNode) : list nat :=
  quotas MAX_TREE_NODES (take MAX_TREE_DEPTH (per_level roots)).
Definition tree_dropped (roots : list TreeNode) : nat :=
  sum_list (per_level roots) - sum_list (tree_quota roots).

(** The walk under the quota: level [l] (from 0), what has been used. *)
Fixpoint budget_node (quota : list nat) (l : nat) (n : TreeNode) (used : list nat)
    : Value * list nat :=
  let v := tree_node n in
  let '(children, used) :=
    fold_left (λ '(out, used) c,
      if (nth (S l) used 0 <? nth (S l) quota 0)%nat
      then let '(v, used) := budget_node quota (S l) c (alter S (S l) used) in (out ++ [v], used)
      else (out, used)) (n_children n) ([], used) in
  (if is_empty children then v else object_insert §"children" (Value.Array children) v, used).
Definition budget_nodes (quota : list nat) (l : nat) (ns : list TreeNode) (used : list nat)
    : list Value * list nat :=
  fold_left (λ '(out, used) n,
    if (nth l used 0 <? nth l quota 0)%nat
    then let '(v, used) := budget_node quota l n (alter S l used) in (out ++ [v], used)
    else (out, used)) ns ([], used).

Definition tree_block (title : option str) (nodes : list TreeNode) (gaps_toggle : option str)
    : Value :=
  let quota := tree_quota nodes in
  let '(kept, _) := budget_nodes quota 0 nodes (replicate (length quota) 0) in
  let b := json_object [(§"type", js §"tree"); (§"nodes", Value.Array kept)] in
  let b := if (0 <? tree_dropped nodes)%nat
           then object_insert §"more" (jn (tree_dropped nodes)) b else b in
  put_text §"gaps_toggle" gaps_toggle (put_text §"title" title b).

(** *** Components *)

Definition tone_str (t : Tone) : str :=
  match t with Info => §"info" | Warn => §"warn" | Attention => §"attention" end.

Definition form_block (submit_label : str) (groups : list Value) : Value :=
  json_object [(§"type", js §"form"); (§"submit_label", js submit_label);
               (§"groups", Value.Array groups)].

Definition card_action (label : str) (primary : bool) (a : Value) : Value :=
  json_object [(§"label", js label); (§"primary", Value.Bool primary); (§"action", a)].

Fixpoint card_component (card : Card) (c : Component) : Card :=
  match c with
  | Component.Header title context stamp =>
      let h := put_text §"stamp" stamp (put_text §"context" context
                 (json_object [(§"title", js title)])) in
      {| header := Some (default h (header card)); body := body card; actions := actions card;
         tone := tone card |}
  | Component.Table title columns rows =>
      push_body (put_text §"title" title (first_rows §"rows" (table_row columns <$> rows)
        (json_object [(§"type", js §"table"); (§"columns", jss (c_label <$> columns))]))) card
  | Component.List title items =>
      push_body (put_text §"title" title (first_rows §"items" (list_item <$> items)
        (json_object [(§"type", js §"list")]))) card
  | Component.KeyValue title pairs =>
      push_body (put_text §"title" title (first_rows §"pairs" (fact <$> pairs)
        (json_object [(§"type", js §"facts")]))) card
  | Component.Tree title nodes gaps_toggle => push_body (tree_block title nodes gaps_toggle) card
  | Component.Notice t title text =>
      push_body (put_text §"title" title
        (json_object [(§"type", js §"notice"); (§"tone", js (tone_str t)); (§"text", js text)]))
        (if decide (t = Attention)
         then {| header := header card; body := body card; actions := actions card;
                 tone := Some §"attention" |}
         else card)
  | Component.Progress title steps fraction =>
      push_body (put_some §"fraction" ((λ f, f64_value (clamp_fraction f)) <$> fraction)
        (put_text §"title" title
           (json_object [(§"type", js §"progress"); (§"steps", Value.Array (step_value <$> steps))])))
        card
  | Component.Chips prompt chips =>
      let chips := chip_list chips in
      if is_empty chips then card
      else push_body (put_text §"prompt" prompt
             (json_object [(§"type", js §"chips"); (§"chips", Value.Array chips)])) card
  | Component.Selection prompt options _ args_key style (Some sb) =>
      let fields := [{| f_name := args_key; f_label := prompt; f_kind := KSelect; required := true;
                        placeholder := None; default_value := None; A2ui.options := options;
                        f_style := style |}] in
      match group None fields (st_template sb) with
      | None => card
      | Some g => push_body (form_block (st_label sb)
                    [put_text §"preview_label" (st_preview_label sb) g]) card
      end
  | Component.Form title fields submit_label _ (Some tpl) preview_label =>
      match group None fields tpl with
      | None => card
      | Some g => push_body (put_text §"title" (Some title)
                    (form_block submit_label [put_text §"preview_label" preview_label g])) card
      end
  | Component.FormGroups title groups submit_label note =>
      let groups := omap (λ g, group (Some (g_label g)) (g_fields g) (g_send_template g)) groups in
      if is_empty groups then card
      else push_body (put_text §"note" note (put_text §"title" title
             (form_block submit_label groups))) card
  | Component.Button label _ _ (Some a) _ primary =>
      match action a with
      | Some a => push_action (card_action label primary a) card
      | None => card
      end
  | Component.Embed url title _ fallback =>
      let card := card_component card fallback in
      match action (Action.OpenUrl url) with
      | Some a => push_action (card_action title false a) card
      | None => card
      end
  | _ => card
  end.

Context `{SerdeA2ui, SerdeJson}.

Definition is_primary (a : Value) : bool := default false (as_bool (index §"primary" a)).
(** [sort_by_key] on a boolean. *)
Definition primary_first (l : list Value) : list Value :=
  filter (λ a, is_primary a = true) l ++ filter (λ a, is_primary a = false) l.

Definition widget_data (res : Value) : option Value :=
  surface ← value_get §"surface" res;
  components ← value_get §"components" surface;
  raw ← as_array components;
  let card := fold_left card_component (omap (parse cell) raw) empty_card in
  if bool_decide (¬ is_Some (header card)) && is_empty (body card) && is_empty (actions card) then None
  else
    let out := json_object [(§"version", Value.Number (Value.Int DATA_VERSION));
                            (§"body", Value.Array (body card));
                            (§"actions", Value.Array (primary_first (actions card)))] in
    let out := put_some §"header" (header card) out in
    let out := put_some §"tone" (js <$> tone card) out in
    fit_bytes (cap_texts out).
End Widget.

(** ** The text beside the card *)

Definition SUMMARY_NAMES : nat := 20.
Definition SUMMARY_NAME_CHARS : nat := 60.
Definition CARD_NOTE : str :=
  §"The card shows these rows to the user; add at most one sentence and do not repeat them.".

(** [label.split(" · ").next()] *)
Definition before_dot (label : str) : str :=
  match find_sub §" · " label with Some i => take i label | None => label end.

Definition row_name (label : str) : str :=
  let name := trim (before_dot label) in
  if (char_count name <=? SUMMARY_NAME_CHARS)%nat then name
  else take_chars (SUMMARY_NAME_CHARS - 1) name ++ ellipsis.

(** [v[key].as_array().into_iter().flatten()] *)
Definition elements (key : str) (v : Value) : list Value := default [] (as_array (index key v)).

Definition block_names (b : Value) : list str :=
  match as_str (index §"type" b) with
  | Some ty =>
      if decide (ty = §"table")
      then omap (λ r, match index §"cells" r with
                      | Value.Array (c :: _) => as_str c | _ => None end) (elements §"rows" b)
      else if decide (ty = §"list") then omap (get_str §"label") (elements §"items" b)
      else if decide (ty = §"tree") then omap (get_str §"label") (elements §"nodes" b)
      else []
  | None => []
  end.

Definition was_cut (v : Value) : bool :=
  match value_get §"more" v ≫= as_u64 with Some n => (0 <? n)%Z | None => false end.

(** [trim_end_matches(['.', ':', ';'])] *)
Fixpoint drop_stops (s : str) : str :=
  match s with
  | c :: s' => if decide (c ∈ ["."; ":"; ";"]%char) then drop_stops s' else s
  | [] => []
  end.

Definition non_empty (s : str) : option str := if is_empty s then None else Some s.

Definition card_text (data : Value) (note : str) : option str :=
  blocks ← as_array (index §"body" data);
  if was_cut data || existsb was_cut blocks then None
  else
    let '(names, block_title) :=
      fold_left (λ '(names, block_title) b,
        let found := block_names b in
        if is_empty found then (names, block_title)
        else (names ++ filter (λ n, is_empty n = false) (row_name <$> found),
              match block_title with Some t => Some t | None => as_str (index §"title" b) end))
        blocks ([] : list str, None : option str) in
    if is_empty names then None
    else
      let head := index §"header" data in
      let title :=
        match match as_str (index §"title" head) with Some t => Some t | None => block_title end with
        | Some t => non_empty (trim_end (rev (drop_stops (rev (trim t)))))
        | None => None
        end in
      let context := match as_str (index §"context" head) with
                     | Some c => non_empty (trim c) | None => None end in
      let more := length names - SUMMARY_NAMES in
      let names := take SUMMARY_NAMES names in
      let line :=
        match title with
        | Some t => t ++ match context with Some c => §" (" ++ c ++ §")" | None => [] end ++ §": "
        | None => []
        end in
      let line := line ++ join §", " names in
      let line := if (0 <? more)%nat
                  then line ++ §", … and " ++ dec (Z.of_nat more) ++ §" more" else line in
      let line := line ++ §" — shown in the card." in
      let note := trim note in
      Some (if is_empty note then line else line ++ nl ++ note).

(** ** Every control of a card is safe *)

Section Controls.
Context `{UrlParse}.
Variable cell : HttpHosts.

(** Wherever an action stands, it is one the widget may carry out.  What a
    producer puts into a field's default is data. *)
Fixpoint controls_ok (v : Value) : bool :=
  match v with
  | Value.Array l => forallb controls_ok l
  | Value.Object m =>
      forallb (λ e, bool_decide (e.1 = §"default")
                    || (bool_decide (e.1 ≠ §"action") || is_widget_action cell e.2)
                       && controls_ok e.2) m
  | _ => true
  end.

Definition entry_ok (e : str * Value) : bool :=
  bool_decide (e.1 = §"default")
  || (bool_decide (e.1 ≠ §"action") || is_widget_action cell e.2) && controls_ok e.2.

Lemma controls_object m : controls_ok (Value.Object m) = forallb entry_ok m.
Proof using Type. done. Qed.

Lemma entry_plain k v : k ≠ §"action" → controls_ok v = true → entry_ok (k, v) = true.
Proof using Type.
  intros Hk Hv. unfold entry_ok. cbn [fst snd]. rewrite Hv, (bool_decide_eq_true_2 (k ≠ _)) by done.
  apply orb_true_r.
Qed.
Lemma entry_action v :
  is_widget_action cell v = true → controls_ok v = true → entry_ok (§"action", v) = true.
Proof using Type.
  intros Ha Hv. unfold entry_ok. cbn [fst snd]. by rewrite Ha, Hv, orb_true_r.
Qed.
Lemma entry_default v : entry_ok (§"default", v) = true.
Proof using Type. done. Qed.

Lemma insert_ok k v m :
  entry_ok (k, v) = true → forallb entry_ok m = true → forallb entry_ok (Map.insert k v m) = true.
Proof using Type.
  intros Hk. induction m as [|[k' v'] m IH]; cbn [Map.insert forallb]; [by rewrite Hk|].
  intros [He Hm]%andb_prop. destruct (str_compare k k'); cbn [forallb]; rewrite ?Hk, ?He; auto.
Qed.
Lemma insert_all_ok l m :
  forallb entry_ok l = true → forallb entry_ok m = true →
  forallb entry_ok (Map.insert_all l m) = true.
Proof using Type.
  revert m. induction l as [|[k v] l IH]; intros m; [done|]. cbn [forallb].
  intros [Hk Hl]%andb_prop Hm. by apply IH, insert_ok.
Qed.
Lemma json_object_ok l : forallb entry_ok l = true → controls_ok (json_object l) = true.
Proof using Type. intros Hl. by apply insert_all_ok. Qed.
Lemma object_insert_ok k v o :
  entry_ok (k, v) = true → controls_ok o = true → controls_ok (object_insert k v o) = true.
Proof using Type. intros Hk Ho. destruct o; try done. by apply insert_ok. Qed.

Lemma array_ok l : (∀ v, v ∈ l → controls_ok v = true) → controls_ok (Value.Array l) = true.
Proof using Type.
  intros Hl. cbn. apply forallb_forall. intros v Hv. apply Hl. by apply list_elem_of_In.
Qed.
Lemma jss_ok l : controls_ok (jss l) = true.
Proof using Type. apply array_ok. intros v (s & -> & _)%list_elem_of_fmap. done. Qed.

Lemma put_text_ok k s v :
  k ≠ §"action" → controls_ok v = true → controls_ok (put_text k s v) = true.
Proof using Type.
  intros Hk Hv. destruct s as [s|]; [|done]. cbn. destruct (is_empty (trim s)); [done|].
  apply object_insert_ok; [|done]. by apply entry_plain.
Qed.
Lemma put_flag_ok k b v :
  k ≠ §"action" → controls_ok v = true → controls_ok (put_flag k b v) = true.
Proof using Type.
  intros Hk Hv. destruct b; [|done]. apply object_insert_ok; [|done]. by apply entry_plain.
Qed.
Lemma put_some_ok k x v :
  (∀ y, x = Some y → entry_ok (k, y) = true) → controls_ok v = true →
  controls_ok (put_some k x v) = true.
Proof using Type. intros Hk Hv. destruct x; [|done]. by apply object_insert_ok; [apply Hk|]. Qed.

Lemma action_ok a v :
  action cell a = Some v → is_widget_action cell v = true ∧ controls_ok v = true.
Proof using Type.
  unfold action. destruct (is_widget_action cell (action_value a)) eqn:E; [|done].
  intros [= <-]. split; [done|]. by destruct a.
Qed.

Lemma chip_list_ok chips v : v ∈ chip_list cell chips → controls_ok v = true.
Proof using Type.
  unfold chip_list. intros (c & _ & Hc)%list_elem_of_omap.
  destruct (is_widget_action cell (send (chip_message c))) eqn:E; [|done].
  injection Hc as <-. apply json_object_ok. cbn [forallb].
  rewrite entry_action by done. by rewrite entry_plain.
Qed.
End Controls.

Lemma forallb_cons_intro {A} (f : A → bool) a l :
  f a = true → forallb f l = true → forallb f (a :: l) = true.
Proof. intros Ha Hl. cbn. by rewrite Ha. Qed.

Create HintDb controls.
#[local] Hint Resolve json_object_ok object_insert_ok put_text_ok put_flag_ok jss_ok entry_plain
  entry_action entry_default : controls.
(** A literal key is not the key of an action. *)
#[local] Hint Extern 1 (_ ≠ _) => discriminate : controls.
#[local] Hint Extern 1 (controls_ok _ (js _) = true) => reflexivity : controls.
#[local] Hint Extern 1 (controls_ok _ (jn _) = true) => reflexivity : controls.
#[local] Hint Resolve forallb_cons_intro : controls.
#[local] Hint Extern 1 (forallb _ [] = true) => reflexivity : controls.

Section CardControls.
Context `{UrlParse}.
Variable cell : HttpHosts.
Abbreviation ok := (controls_ok cell).

Lemma map_ok {A} (f : A → Value) l : (∀ a, ok (f a) = true) → ok (Value.Array (f <$> l)) = true.
Proof using Type. intros Hf. apply array_ok. by intros v (a & -> & _)%list_elem_of_fmap. Qed.

Lemma first_rows_ok key items b :
  key ≠ §"action" → ok (Value.Array items) = true → ok b = true →
  ok (first_rows key items b) = true.
Proof using Type.
  intros Hk Hi Hb. unfold first_rows. apply object_insert_ok.
  - apply entry_plain; [done|]. apply array_ok. intros v Hv.
    apply (proj1 (forallb_forall _ _) Hi). apply list_elem_of_In.
    by eapply subseteq_take.
  - destruct (_ <? _)%nat; [|done]. auto with controls.
Qed.

Lemma fact_ok p : ok (fact p) = true.
Proof using Type. unfold fact. auto with controls. Qed.

Lemma list_item_ok it : ok (list_item cell it) = true.
Proof using Type.
  unfold list_item. destruct (li_action it) as [a|]; cbn [mbind option_bind]; [|auto with controls].
  destruct (action cell a) as [v|] eqn:E; [|auto with controls].
  apply action_ok in E as [Ha Hv]. auto 7 with controls.
Qed.

Lemma table_row_ok columns r : ok (table_row cell columns r) = true.
Proof using Type.
  unfold table_row. apply put_some_ok; [|auto with controls].
  intros v Hv. destruct (r_action r) as [a|]; [|done]. apply action_ok in Hv as [Ha Hv].
  auto with controls.
Qed.

(** Parts of a template hold texts and field names only. *)
Lemma flat_ok p v : v ∈ flat p → ok v = true.
Proof using Type.
  assert (∀ steps acc, (∀ v, v ∈ acc.1 → ok v = true) →
    ∀ v, v ∈ (fold_left (λ '(out, last) '(name, start, en),
      ((if (last <? start)%nat then out ++ [text_part (slice last start p)] else out)
         ++ [field_part name], en)) steps acc).1 → ok v = true) as Hsteps.
  { induction steps as [|[[name start] en] steps IH]; intros [out last] Ho; [done|].
    cbn [fold_left]. apply IH. cbn [fst] in *. intros v'.
    case_match; rewrite ?elem_of_app, ?list_elem_of_singleton; naive_solver. }
  specialize (Hsteps (scan p) ([], 0)). unfold flat.
  destruct (fold_left _ (scan p) _) as [out last]. cbn [fst] in Hsteps.
  assert (∀ v', v' ∈ out → ok v' = true) as Hout by (apply Hsteps; set_solver).
  case_match; rewrite ?elem_of_app, ?list_elem_of_singleton; naive_solver.
Qed.

Lemma template_parts_ok t : ok (template_parts t) = true.
Proof using Type.
  apply array_ok. intros v Hv. apply list_elem_of_In, in_concat in Hv as (l & Hl & Hv).
  apply list_elem_of_In, list_elem_of_fmap in Hl as ([part opt] & -> & _).
  apply list_elem_of_In in Hv. destruct opt; [|by eapply flat_ok].
  apply list_elem_of_singleton in Hv as ->.
  assert (ok (Value.Array (flat part)) = true) by (apply array_ok, flat_ok).
  auto with controls.
Qed.

Lemma field_ok f : ok (field f) = true.
Proof using Type.
  assert (∀ l, ok (Value.Array (option_value <$> l)) = true) as Hopts.
  { intros l. apply map_ok. intros o. unfold option_value. auto with controls. }
  assert (ok (put_some §"default" (default_value f) (put_text §"placeholder" (placeholder f)
    (put_flag §"required" (required f) (json_object [(§"name", js (f_name f));
      (§"label", js (f_label f)); (§"kind", js (form_kind_str (f_kind f)))])))) = true) as Hbase.
  { apply put_some_ok; auto 7 with controls. }
  unfold field. case_decide; [apply object_insert_ok; [by apply entry_plain|]|];
    (case_match; [done|apply object_insert_ok; [by apply entry_plain|done]]).
Qed.

Lemma group_ok label fields template g : group label fields template = Some g → ok g = true.
Proof using Type.
  unfold group. do 4 (case_match; [done|]). intros Hg. apply (inj Some) in Hg as <-.
  pose proof (map_ok field fields field_ok). pose proof (template_parts_ok template).
  auto 12 with controls.
Qed.

Lemma tree_node_ok n : ok (tree_node cell n) = true.
Proof using Type.
  unfold tree_node.
  assert (ok (Value.Array (chip_list cell (n_chips n))) = true) by (apply array_ok, chip_list_ok).
  set (v0 := put_flag _ _ _).
  assert (ok v0 = true) as Hv0.
  { unfold v0. apply put_flag_ok; [done|]. apply put_flag_ok; [done|].
    case_match; auto 7 with controls. }
  clearbody v0. set (v1 := if is_empty (chip_list _ _) then _ else _).
  assert (ok v1 = true) by (unfold v1; case_match; auto with controls).
  clearbody v1. destruct (n_action n ≫= action cell) as [a|] eqn:E; [|done].
  destruct (n_action n) as [a'|]; [|done]. apply action_ok in E as [Ha Hv].
  auto 7 with controls.
Qed.

Lemma with_children_ok v children :
  ok v = true → (∀ c, c ∈ children → ok c = true) →
  ok (if is_empty children then v else object_insert §"children" (Value.Array children) v) = true.
Proof using Type.
  intros Hv Hc. case_match; [done|]. apply object_insert_ok; [|done].
  apply entry_plain; [done|]. by apply array_ok.
Qed.

Lemma budget_nodes_all quota l ns used :
  Forall (λ n, ∀ l used, ok (budget_node cell quota l n used).1 = true) ns →
  ∀ v, v ∈ (budget_nodes cell quota l ns used).1 → ok v = true.
Proof using Type.
  intros Hns. unfold budget_nodes.
  assert (∀ c, c ∈ (@nil Value, used).1 → ok c = true) as Hacc by (cbn; set_solver).
  revert Hacc. generalize (@nil Value, used) as acc.
  induction Hns as [|n ns Hn _ IH]; intros [out u] Hacc; [done|]. cbn [fold_left fst] in *.
  apply IH. case_match; [|done]. specialize (Hn l (alter S l u)).
  destruct (budget_node _ _ _ _ _) as [v' u']. cbn [fst] in *.
  intros c. rewrite elem_of_app, list_elem_of_singleton. naive_solver.
Qed.

Lemma budget_node_unfold quota l n used :
  budget_node cell quota l n used =
  let '(children, used) := budget_nodes cell quota (S l) (n_children n) used in
  (if is_empty children then tree_node cell n
   else object_insert §"children" (Value.Array children) (tree_node cell n), used).
Proof using Type. by destruct n. Qed.

Lemma budget_node_ok quota n l used : ok (budget_node cell quota l n used).1 = true.
Proof using Type.
  revert l used. induction n as [n IH] using TreeNode_nested_ind. intros l used.
  rewrite budget_node_unfold. pose proof (budget_nodes_all quota (S l) _ used IH) as Hkids.
  destruct (budget_nodes _ _ _ _ _) as [children used'].
  by apply with_children_ok; [apply tree_node_ok|].
Qed.

Lemma tree_block_ok title nodes gaps : ok (tree_block cell title nodes gaps) = true.
Proof using Type.
  unfold tree_block.
  pose proof (budget_nodes_all (tree_quota nodes) 0 nodes (replicate (length (tree_quota nodes)) 0)) as Hk.
  destruct (budget_nodes _ _ _ _ _) as [kept u]. cbn [fst] in Hk.
  assert (ok (Value.Array kept) = true).
  { apply array_ok, Hk. apply Forall_forall. intros n _ l used. apply budget_node_ok. }
  case_match; auto 12 with controls.
Qed.

Lemma form_block_ok label groups :
  (∀ g, g ∈ groups → ok g = true) → ok (form_block label groups) = true.
Proof using Type. intros Hg%array_ok. unfold form_block. auto 12 with controls. Qed.

Lemma one_group_ok label preview g :
  ok g = true → ok (form_block label [put_text §"preview_label" preview g]) = true.
Proof using Type.
  intros Hg. apply form_block_ok. intros g' ->%list_elem_of_singleton. auto with controls.
Qed.

Lemma f64_value_ok f : ok (f64_value f) = true.
Proof using Type. unfold f64_value. by repeat case_match. Qed.

(** The card's invariant. *)
Definition card_ok (c : Card) : Prop :=
  (∀ h, header c = Some h → ok h = true) ∧
  (∀ b, b ∈ body c → ok b = true) ∧ (∀ a, a ∈ actions c → ok a = true).

Lemma push_body_ok b c : ok b = true → card_ok c → card_ok (push_body b c).
Proof using Type.
  intros Hb (Hh & Hbs & Ha). split_and!; [done| |done]. cbn. intros b'.
  rewrite elem_of_app, list_elem_of_singleton. naive_solver.
Qed.
Lemma push_action_ok label primary a c v :
  action cell a = Some v → card_ok c → card_ok (push_action (card_action label primary v) c).
Proof using Type.
  intros [Hw Hv]%action_ok (Hh & Hbs & Ha). split_and!; [done|done|]. cbn. intros a'.
  rewrite elem_of_app, list_elem_of_singleton. intros [?| ->]; [by apply Ha|].
  unfold card_action. apply json_object_ok. cbn [forallb].
  by rewrite (entry_plain _ §"label"), (entry_plain _ §"primary"), entry_action by done.
Qed.

Lemma card_component_ok c card : card_ok card → card_ok (card_component cell card c).
Proof using Type.
  revert card. induction c; intros card Hc; cbn [card_component]; try done.
  - (* Button *)
    destruct action0 as [a|]; [|done]. destruct (action cell a) eqn:E; [|done].
    by eapply push_action_ok.
  - (* Selection *)
    destruct submit as [sb|]; [|done]. case_match; [|done]. apply push_body_ok; [|done].
    apply one_group_ok. by eapply group_ok.
  - (* Form *)
    destruct send_template as [tpl|]; [|done]. case_match; [|done]. apply push_body_ok; [|done].
    apply put_text_ok; [done|]. apply one_group_ok. by eapply group_ok.
  - (* List *)
    apply push_body_ok; [|done]. apply put_text_ok; [done|].
    apply first_rows_ok; [done|apply map_ok, list_item_ok|auto with controls].
  - (* Table *)
    apply push_body_ok; [|done]. apply put_text_ok; [done|].
    apply first_rows_ok; [done|apply map_ok, table_row_ok|auto 7 with controls].
  - (* Chips *)
    case_match; [done|]. apply push_body_ok; [|done].
    assert (ok (Value.Array (chip_list cell chips)) = true) by (apply array_ok, chip_list_ok).
    auto 12 with controls.
  - (* Tree *)
    apply push_body_ok, Hc. apply tree_block_ok.
  - (* Header *)
    destruct Hc as (Hh & Hb & Ha). split_and!; [|done|done]. intros h Hs.
    apply (inj Some) in Hs as <-. destruct (header card) as [h|]; [by apply Hh|].
    cbn [default from_option id]. auto 12 with controls.
  - (* FormGroups *)
    case_match; [done|]. apply push_body_ok; [|done]. do 2 (apply put_text_ok; [done|]).
    apply form_block_ok. intros g (fg & _ & Hg)%list_elem_of_omap. by eapply group_ok.
  - (* Notice *)
    apply push_body_ok; [auto 12 with controls|]. by case_decide.
  - (* Progress *)
    apply push_body_ok; [|done]. apply put_some_ok.
    + intros v Hv. apply entry_plain; [done|]. destruct fraction; [|done].
      apply (inj Some) in Hv as <-. apply f64_value_ok.
    + assert (ok (Value.Array (step_value <$> steps)) = true).
      { apply map_ok. intros st. unfold step_value. auto with controls. }
      auto 12 with controls.
  - (* KeyValue *)
    apply push_body_ok; [|done]. apply put_text_ok; [done|].
    apply first_rows_ok; [done|apply map_ok, fact_ok|auto with controls].
  - (* Embed *)
    case_match eqn:E; [|by apply IHc]. eapply push_action_ok; [exact E|]. by apply IHc.
Qed.
End CardControls.

(** *** Cutting keeps the controls *)

Section Cutting.
Context `{UrlParse}.
Variable cell : HttpHosts.

Definition cap_entry (e : str * Value) : str * Value :=
  (e.1, if uncut e.1 then e.2 else cap_texts e.2).

Lemma cap_get k v :
  value_get k (cap_texts v) = (λ x, if uncut k then x else cap_texts x) <$> value_get k v.
Proof using Type.
  destruct v as [| | |s| |m]; try done; [cbn; by case_match|]. cbn [cap_texts value_get].
  induction m as [|[k' v] m IH]; [done|]. cbn [map Map.get fst snd].
  by case_decide; subst.
Qed.

Lemma cap_short s : (char_count s ≤ MAX_TEXT)%nat → cap_texts (Value.String s) = Value.String s.
Proof using Type. intros Hs. cbn [cap_texts]. by rewrite (proj2 (Nat.ltb_ge _ _) Hs). Qed.

Lemma cap_get_str k v s :
  get_str k v = Some s → uncut k = true ∨ (char_count s ≤ MAX_TEXT)%nat →
  get_str k (cap_texts v) = Some s.
Proof using Type.
  unfold get_str. rewrite cap_get. destruct (value_get k v) as [x|]; [|done].
  cbn. destruct x; try done. cbn [as_str]. intros Hs. apply (inj Some) in Hs as <-.
  destruct (uncut k); [done|]. intros [?|Hs]; [done|]. by rewrite cap_short.
Qed.

(** An action that passed the filter is never cut. *)
Lemma cap_widget_action v : is_widget_action cell v = true → is_widget_action cell (cap_texts v) = true.
Proof using Type.
  unfold is_widget_action. destruct (get_str §"type" v) as [ty|] eqn:Ety; [|done].
  repeat case_decide; subst; try done.
  - destruct (get_str §"text" v) as [t|] eqn:Et; [|done]. intros Ht.
    rewrite (cap_get_str _ _ _ Ety), (cap_get_str _ _ _ Et); [done| |by right; apply Nat.leb_le].
    right. unfold sendable in Ht. bool_facts. lia.
  - destruct (get_str §"url" v) as [t|] eqn:Et; [|done].
    rewrite (cap_get_str _ _ _ Ety), (cap_get_str _ _ _ Et); [done|by left|by right; apply Nat.leb_le].
Qed.

Lemma cap_texts_ok v : controls_ok cell v = true → controls_ok cell (cap_texts v) = true.
Proof using Type.
  induction v as [v Ha Ho|l IH|m IH] using Value_nested_ind.
  - destruct v; try done; [|naive_solver..]. intros _. cbn. by case_match.
  - cbn. induction IH as [|x l Hx _ IH]; [done|]. cbn. intros [Hv Hl]%andb_prop.
    by rewrite Hx, IH.
  - change (forallb (entry_ok cell) m = true → forallb (entry_ok cell) (map cap_entry m) = true).
    induction IH as [|[k x] m Hx _ IH]; [done|]. cbn [map forallb].
    intros [He Hm]%andb_prop. rewrite (IH Hm), andb_true_r. cbn [snd] in Hx.
    unfold entry_ok, cap_entry in *. cbn [fst snd] in *.
    destruct (bool_decide (k = §"default")); [done|]. cbn [orb] in *.
    destruct (uncut k); [done|]. apply andb_prop in He as [Hk Hv].
    rewrite Hx by done. rewrite andb_true_r. apply orb_prop in Hk as [->|Hk]; [done|].
    rewrite cap_widget_action by done. apply orb_true_r.
Qed.

Context `{SerdeA2ui, SerdeJson}.

Lemma fit_bytes_ok out v :
  fit_bytes out = Some v → controls_ok cell out = true → controls_ok cell v = true.
Proof using Type.
  unfold fit_bytes. case_match; [intros Hv; by apply (inj Some) in Hv as <-|].
  destruct (as_array (index §"body" out)) as [b|] eqn:Eb; [|done]. cbn [mbind option_bind].
  case_match; [done|]. intros Hv Hok. apply (inj Some) in Hv as <-.
  assert (controls_ok cell (Value.Array b) = true) as Hb.
  { unfold index, value_get in Eb. destruct out as [| | | | |m]; try done.
    destruct (Map.get §"body" m) as [x|] eqn:Ex; [|done]. cbn [default from_option id] in Eb.
    destruct x; try done. apply (inj Some) in Eb as ->.
    rewrite controls_object in Hok. revert Ex Hok. clear.
    induction m as [|[k x] m IH]; [done|]. cbn [Map.get forallb].
    intros Hget [He Hm]%andb_prop. case_decide; [|by apply IH]. subst.
    apply (inj Some) in Hget as ->. by apply andb_prop in He as [_ ?]. }
  assert (∀ n, controls_ok cell (Value.Array (take n b)) = true) as Ht.
  { intros n. apply array_ok. intros x Hx. apply (proj1 (forallb_forall _ _) Hb).
    apply list_elem_of_In. by eapply subseteq_take. }
  auto 12 with controls.
Qed.

Lemma widget_data_ok res v : widget_data cell res = Some v → controls_ok cell v = true.
Proof using Type.
  unfold widget_data. destruct (value_get §"surface" res) as [sf|]; [|done]. cbn [mbind option_bind].
  destruct (value_get §"components" sf) as [cs|]; [|done]. cbn [mbind option_bind].
  destruct (as_array cs) as [raw|]; [|done]. cbn [mbind option_bind].
  set (card := fold_left _ _ _).
  assert (card_ok cell card) as (Hh & Hb & Ha).
  { unfold card. assert (card_ok cell empty_card) as Hc by (split_and!; [done|set_solver..]).
    revert Hc. generalize empty_card. induction (omap (parse cell) raw) as [|c l IH]; [done|].
    intros c0 Hc. by apply IH, card_component_ok. }
  clearbody card. case_match; [done|]. intros Hv. eapply fit_bytes_ok; [exact Hv|].
  apply cap_texts_ok. apply array_ok in Hb.
  assert (controls_ok cell (Value.Array (primary_first (actions card))) = true).
  { apply array_ok. unfold primary_first. intros x.
    rewrite elem_of_app, !list_elem_of_filter. naive_solver. }
  apply put_some_ok.
  { intros y. destruct (tone card); [|done]. intros Hy. apply (inj Some) in Hy as <-.
    by apply entry_plain. }
  apply put_some_ok; [intros y Hy; apply entry_plain; auto|].
  auto 12 with controls.
Qed.
End Cutting.

(** ** What the card promises *)

(** [a] is an action of a control somewhere in [v]. *)
Inductive control_in (a : Value) : Value → Prop :=
  | control_here m : (§"action", a) ∈ m → control_in a (Value.Object m)
  | control_entry k v m : (k, v) ∈ m → k ≠ §"default" → control_in a v → control_in a (Value.Object m)
  | control_element v l : v ∈ l → control_in a v → control_in a (Value.Array l).

(** A message a user could have typed and can read, or a link that may be
    opened. *)
Definition harmless `{UrlParse} (cell : HttpHosts) (a : Value) : Prop :=
  (∃ text, get_str §"type" a = Some §"send_message" ∧ get_str §"text" a = Some text ∧
     trim text ≠ [] ∧ (char_count text ≤ 500)%nat ∧ ∀ m, m ∈ bidi_marks → contains m text = false) ∨
  (∃ url, get_str §"type" a = Some §"open_url" ∧ get_str §"url" a = Some url ∧
     (length url ≤ 2048)%nat ∧ starts_with §"https://" url = true ∧ is_allowed_link cell url = true).

Lemma widget_action_harmless `{UrlParse} cell a : is_widget_action cell a = true → harmless cell a.
Proof.
  unfold is_widget_action. destruct (get_str §"type" a) as [ty|] eqn:Ety; [|done].
  repeat case_decide; subst; try done.
  - destruct (get_str §"text" a) as [t|] eqn:Et; [|done]. unfold sendable. intros Ht.
    bool_facts. left. exists t. split_and!; try done.
    + by destruct (trim t).
    + intros m Hm. destruct (contains m t) eqn:E; [|done].
      assert (has_bidi t = true); [|congruence]. apply existsb_exists. exists m.
      by rewrite <- list_elem_of_In.
  - destruct (get_str §"url" a) as [t|] eqn:Et; [|done]. unfold openable. intros Ht.
    bool_facts. right. by exists t.
Qed.

Lemma control_in_ok `{UrlParse} cell v a :
  controls_ok cell v = true → control_in a v → is_widget_action cell a = true.
Proof.
  intros Hok Hin. induction Hin as [m Hm|k v m Hm Hk _ IH|v l Hl _ IH].
  - rewrite controls_object in Hok. apply list_elem_of_In in Hm.
    by apply (proj1 (forallb_forall _ _) Hok), andb_prop in Hm as [? _].
  - rewrite controls_object in Hok. apply list_elem_of_In in Hm. apply IH.
    apply (proj1 (forallb_forall _ _) Hok) in Hm. unfold entry_ok in Hm. cbn [fst snd] in Hm.
    rewrite bool_decide_eq_false_2 in Hm by done. by apply andb_prop in Hm as [_ ?].
  - apply IH. apply list_elem_of_In in Hl. by apply (proj1 (forallb_forall _ _) Hok).
Qed.

(** Every control of a widget's card, wherever it stands, sends a text of at
    most 500 characters without direction marks or opens an allowed https link
    of at most 2048 bytes: the producer's surface, however nested, and the
    cutting to size cannot put anything else behind a button, a row, a chip or
    a tree node. *)
Theorem widget_controls_safe `{UrlParse, SerdeA2ui, SerdeJson} (cell : HttpHosts) (res v a : Value) :
  widget_data cell res = Some v → control_in a v → harmless cell a.
Proof.
  intros Hv%widget_data_ok Ha. by eapply widget_action_harmless, control_in_ok.
Qed.

(** ** The card fits *)

(** What compact JSON is: no blanks, a comma between elements, a colon after a
    key. *)
Class CompactJson `{SerdeJson} := {
  size_array l :
    json_size (Value.Array l) = (2 + sum_list (json_size <$> l) + (length l - 1))%nat;
  size_object m :
    json_size (Value.Object m) =
    (2 + sum_list ((λ e, json_size (js e.1) + 1 + json_size e.2) <$> m) + (length m - 1))%nat;
  size_int z : json_size (Value.Number (Value.Int z)) = length (dec z);
  size_more : json_size (js §"more") = 6%nat;
}.

Lemma pretty_N_go_length (k : nat) (x : N) (s : string) :
  (x < 10 ^ N.of_nat k)%N → (String.length (pretty_N_go x s) ≤ k + String.length s)%nat.
Proof.
  revert x s. induction k as [|k IH]; intros x s Hx.
  - assert (x = 0)%N as -> by (cbn in Hx; lia). by rewrite pretty_N_go_0.
  - destruct (decide (0 < x)%N) as [Hpos|]; [|assert (x = 0)%N as -> by lia; rewrite pretty_N_go_0; lia].
    rewrite pretty_N_go_step by done.
    assert (x `div` 10 < 10 ^ N.of_nat k)%N as Hd.
    { apply N.Div0.div_lt_upper_bound. rewrite Nat2N.inj_succ, N.pow_succ_r' in Hx. lia. }
    specialize (IH (x `div` 10)%N (String (pretty_N_char (x `mod` 10)) s) Hd). cbn [String.length] in IH. lia.
Qed.

Lemma dec_length n : (Z.of_nat n ≤ u64_max)%Z → (length (dec (Z.of_nat n)) ≤ 20)%nat.
Proof.
  intros Hn. unfold dec, lit.
  assert (∀ s : string, length (String.list_ascii_of_string s) = String.length s) as Hlen.
  { intros s. induction s; cbn; congruence. }
  rewrite Hlen. destruct n as [|n]; [by apply Nat.leb_le|].
  change (pretty (Z.of_nat (S n))) with (pretty_N_go (N.pos (Pos.of_succ_nat n)) "").
  eapply Nat.le_trans; [apply (pretty_N_go_length 20)|cbn; lia].
  unfold u64_max in Hn. cbn -[Pos.of_succ_nat] in *. lia.
Qed.

Section Fits.
Context `{CompactJson}.
#[local] Opaque MAX_BYTES.

Definition entry_size (e : str * Value) : nat := json_size (js e.1) + 1 + json_size e.2.
Definition map_size (m : JsonMap) : nat := sum_list (entry_size <$> m).

Lemma insert_twice k v v0 m : Map.insert k v (Map.insert k v0 m) = Map.insert k v m.
Proof using Type.
  assert (str_compare k k = Eq) as Hk by by apply str_compare_eq.
  induction m as [|[k' v'] m IH]; cbn [Map.insert]; [by rewrite Hk|].
  destruct (str_compare k k') eqn:E; cbn [Map.insert]; rewrite ?Hk, ?E; [done..|by rewrite IH].
Qed.

Lemma map_size_cons k v m :
  map_size ((k, v) :: m) = (json_size (js k) + 1 + json_size v + map_size m)%nat.
Proof using Type. done. Qed.

Lemma insert_size k v v0 m :
  (map_size (Map.insert k v m) + json_size v0 = map_size (Map.insert k v0 m) + json_size v)%nat
  ∧ length (Map.insert k v m) = length (Map.insert k v0 m).
Proof using Type.
  induction m as [|[k' v'] m [IH IHl]]; cbn [Map.insert];
    [|destruct (str_compare k k')]; rewrite !map_size_cons; cbn [length]; split; lia.
Qed.

Lemma insert_size_le k v m :
  (map_size (Map.insert k v m) ≤ map_size m + entry_size (k, v))%nat
  ∧ (length (Map.insert k v m) ≤ S (length m))%nat.
Proof using Type.
  unfold entry_size. cbn [fst snd].
  induction m as [|[k' v'] m [IH IHl]]; cbn [Map.insert];
    [|destruct (str_compare k k')]; rewrite !map_size_cons; cbn [length]; split; lia.
Qed.

Lemma kept_blocks_fit used body :
  (used ≤ MAX_BYTES)%nat →
  (used + sum_list ((λ b, json_size b + 1) <$> take (kept_blocks used body) body) ≤ MAX_BYTES)%nat.
Proof using Type.
  revert used. induction body as [|b body IH]; intros used Hu; [cbn; lia|].
  cbn [kept_blocks]. case_match eqn:E; bool_facts; cbn [take fmap list_fmap sum_list_with id]; [lia|].
  specialize (IH (used + (json_size b + 1))%nat ltac:(lia)). lia.
Qed.

Lemma sum_sizes_le l :
  (sum_list (json_size <$> l) + (length l - 1) ≤ sum_list ((λ b, json_size b + 1) <$> l))%nat.
Proof using Type.
  assert (sum_list (json_size <$> l) + length l = sum_list ((λ b, json_size b + 1) <$> l))%nat; [|lia].
  induction l as [|b l IH]; [done|]. cbn [fmap list_fmap sum_list_with id length]. lia.
Qed.

Lemma fit_bytes_fits out v :
  fit_bytes out = Some v →
  (Z.of_nat (length (elements §"body" out)) ≤ u64_max)%Z →
  (json_size v ≤ MAX_BYTES)%nat.
Proof using All.
  unfold fit_bytes, elements.
  destruct (json_size out <=? MAX_BYTES)%nat eqn:E; [intros Hv; apply (inj Some) in Hv as <-; by bool_facts|].
  destruct (as_array (index §"body" out)) as [b|] eqn:Eb; [|done]. cbn [mbind option_bind].
  destruct out as [| | | | |m]; try done. cbn [object_insert default from_option id].
  set (base := (json_size _ + 32)%nat). destruct (MAX_BYTES <? base)%nat eqn:Ebase; [done|].
  intros Hv Hlen. apply (inj Some) in Hv as <-. bool_facts.
  set (kept := kept_blocks base b). rewrite insert_twice, size_object.
  change (λ e, _) with entry_size. fold (map_size (Map.insert §"more" (jn (length b - kept)) (Map.insert §"body" (Value.Array (take kept b)) m))).
  destruct (insert_size_le §"more" (jn (length b - kept)) (Map.insert §"body" (Value.Array (take kept b)) m)) as [H1 H2].
  destruct (insert_size §"body" (Value.Array (take kept b)) (Value.Array []) m) as [H3 H4].
  assert (length (dec (Z.of_nat (length b - kept))) ≤ 20)%nat as Hd by (apply dec_length; lia).
  unfold entry_size in H1. cbn [fst snd] in H1. unfold jn in H1 at 2. rewrite size_more, size_int in H1.
  rewrite !size_array in H3. pose proof (sum_sizes_le (take kept b)).
  pose proof (kept_blocks_fit base b ltac:(lia)) as Hk. fold kept in Hk.
  assert (base = 34 + map_size (Map.insert §"body" (Value.Array []) m)
    + (length (Map.insert §"body" (Value.Array []) m) - 1))%nat as Hb.
  { unfold base. rewrite size_object. change (λ e, _) with entry_size. unfold map_size. lia. }
  cbn [fmap list_fmap sum_list_with id length] in H3. lia.
Qed.
End Fits.

Lemma card_component_body `{UrlParse} cell card c :
  (length (body (card_component cell card c)) ≤ S (length (body card)))%nat.
Proof.
  assert (∀ b card', length (body (push_body b card')) = S (length (body card'))) as Hpush.
  { intros. cbn. rewrite length_app. cbn. lia. }
  revert card. induction c; intros card; cbn [card_component]; try (cbn; lia);
    try (rewrite Hpush; lia);
    try (repeat case_match; rewrite ?Hpush; cbn; lia).
  case_match; [|apply IHc]. exact (IHc card).
Qed.

Lemma put_some_get k k' x m :
  k ≠ k' → value_get k' (put_some k x (Value.Object m)) = Map.get k' m.
Proof. intros Hk. destruct x; [|done]. by apply Map.get_insert_ne. Qed.

(** The components of a tool result's surface. *)
Definition result_components (res : Value) : list Value :=
  elements §"components" (index §"surface" res).

(** A card that is drawn at all is at most 64 KiB of compact JSON: when the
    whole is larger, the blocks that stay and the count of those that do not fit
    beside the header and the actions. *)
Theorem widget_fits `{CompactJson} `{UrlParse, SerdeA2ui} (cell : HttpHosts) (res v : Value) :
  widget_data cell res = Some v →
  (Z.of_nat (length (result_components res)) ≤ u64_max)%Z →
  (json_size v ≤ MAX_BYTES)%nat.
Proof.
  unfold widget_data, result_components, elements, index.
  destruct (value_get §"surface" res) as [sf|]; [|done]. cbn [mbind option_bind default from_option id].
  destruct (value_get §"components" sf) as [cs|]; [|done]. cbn [mbind option_bind default from_option id].
  destruct (as_array cs) as [raw|]; [|done]. cbn [mbind option_bind default from_option id].
  set (card := fold_left _ _ _). intros Hv Hraw.
  assert (length (body card) ≤ length raw)%nat as Hbody.
  { assert (∀ l c0, length (body (fold_left (card_component cell) (omap (parse cell) l) c0))
                    ≤ length (body c0) + length l)%nat as Hf; [|apply (Hf _ empty_card)].
    induction l as [|c l IH]; intros c0; [cbn; lia|]. cbn [omap list_omap].
    destruct (parse cell c) as [c'|]; cbn [fold_left length].
    - pose proof (IH (card_component cell c0 c')). pose proof (card_component_body cell c0 c'). lia.
    - pose proof (IH c0). lia. }
  clearbody card. revert Hv. case_match; [done|]. intros Hv.
  eapply fit_bytes_fits; [exact Hv|]. unfold elements, index. rewrite cap_get.
  set (o := json_object _). assert (value_get §"body" o = Some (Value.Array (body card))) as Ho by done.
  destruct o as [| | | | |m]; try done. clear Hv.
  assert (value_get §"body" (put_some §"tone" (js <$> tone card)
    (put_some §"header" (header card) (Value.Object m))) = Some (Value.Array (body card))) as ->.
  { destruct (header card) as [h|]; cbn [put_some object_insert]; rewrite put_some_get by done; [|done].
    by rewrite Map.get_insert_ne by done. }
  change (uncut §"body") with false.
  cbn [fmap option_fmap option_map default from_option id cap_texts as_array].
  rewrite length_map. lia.
Qed.

(** *** A compact printer, enough to evaluate the model *)

Definition single_quoted (s : str) : str := §"'" ++ s ++ §"'".
Fixpoint compact (v : Value) : str :=
  match v with
  | Value.Null => §"null"
  | Value.Bool b => if b then §"true" else §"false"
  | Value.Number (Value.Int z) | Value.Number (Value.Float z) => dec z
  | Value.String s => single_quoted s
  | Value.Array l => §"[" ++ join §"," (map compact l) ++ §"]"
  | Value.Object m => §"{" ++ join §"," (map (λ e, single_quoted e.1 ++ §":" ++ compact e.2) m) ++ §"}"
  end.
Definition compact_json : SerdeJson :=
  {| json_to_string := compact; json_from_str _ := None |}.

Lemma join_comma_length l : length (join §"," l) = (sum_list (length <$> l) + (length l - 1))%nat.
Proof.
  induction l as [|s [|s' l] IH]; [done|cbn; lia|].
  change (length (s ++ §"," ++ join §"," (s' :: l)) =
    (length s + sum_list (length <$> s' :: l) + length (s' :: l))%nat).
  rewrite !length_app, IH. cbn [length]. change (length §",") with 1%nat. lia.
Qed.

Lemma joined_size {A} (f : A → str) (size : A → nat) l a b :
  (∀ x, length (f x) = size x) →
  length ([a] ++ join §"," (map f l) ++ [b]) = (2 + sum_list (size <$> l) + (length l - 1))%nat.
Proof.
  intros Hf. rewrite !length_app, join_comma_length, length_map. cbn [length].
  assert (length <$> map f l = size <$> l) as -> by (induction l; cbn; congruence). lia.
Qed.

Lemma quoted_length s : length (single_quoted s) = S (S (length s)).
Proof. unfold single_quoted. rewrite !length_app. change (length §"'") with 1%nat. lia. Qed.

Lemma compact_laws : @CompactJson compact_json.
Proof.
  split; [intros l..| |]; try done.
  - exact (joined_size compact (λ v, length (compact v)) l _ _ (λ _, eq_refl)).
  - apply (joined_size (λ e, single_quoted e.1 ++ §":" ++ compact e.2)). intros e.
    rewrite !length_app. unfold json_size. cbn [json_to_string compact_json js compact].
    change (length §":") with 1%nat. lia.
Qed.

(** *** The theorems on a concrete card *)

Definition demo_node (text : str) (kids : list TreeNode) : TreeNode :=
  {| n_label := §"node"; n_counts := []; n_gap := false; n_expanded := true;
     n_chips := [{| chip_label := §"c"; chip_message := text |}];
     n_action := Some (Action.SendMessage text); n_action_label := None; n_children := kids |}.
Definition demo_component : Component :=
  Component.Tree (Some §"t") [demo_node §"show" [demo_node (repeat "x"%char 501) []]] None.
Definition demo_serde : SerdeA2ui := {|
  surface_from_value _ := Err [];
  component_from_value _ := Ok demo_component;
|}.
Definition demo_result (n : nat) : Value :=
  json_object [(§"surface",
    json_object [(§"components", Value.Array (repeat Value.Null n))])].
Definition demo_card (n : nat) : option Value :=
  @widget_data sample_url None demo_serde compact_json (demo_result n).

(** The first node's action is there; its child's, which is too long, is not. *)
Definition demo_block : Value :=
  json_object [(§"type", js §"tree"); (§"title", js §"t"); (§"nodes", Value.Array [
    json_object [(§"label", js §"node"); (§"action_label", js §"node"); (§"expanded", Value.Bool true);
      (§"action", send §"show");
      (§"chips", Value.Array [json_object [(§"label", js §"c"); (§"action", send §"show")]]);
      (§"children", Value.Array [json_object [(§"label", js §"node"); (§"expanded", Value.Bool true)]])]])].

Lemma demo_card_value : demo_card 1 = Some (json_object [(§"version", jn 1);
  (§"body", Value.Array [demo_block]); (§"actions", Value.Array [])]).
Proof. vm_compute. reflexivity. Qed.

Lemma widget_controls_safe_witness :
  ∃ v, demo_card 1 = Some v ∧ control_in (send §"show") v ∧ @harmless sample_url None (send §"show").
Proof.
  eexists. split; [exact demo_card_value|].
  assert (control_in (send §"show") (json_object [(§"version", jn 1);
    (§"body", Value.Array [demo_block]); (§"actions", Value.Array [])])) as Hin.
  { eapply (control_entry _ §"body"); [right; left|done|].
    eapply control_element; [left|]. eapply (control_entry _ §"nodes"); [left|done|].
    eapply control_element; [left|]. apply control_here. left. }
  split; [exact Hin|].
  exact (@widget_controls_safe sample_url demo_serde compact_json None (demo_result 1) _ _ demo_card_value Hin).
Defined.

(** Three hundred such blocks do not fit; the card says how many are left out. *)
Lemma demo_card_cut :
  @widget_data sample_url None demo_serde compact_json (demo_result 300) ≫= value_get §"more"
  = Some (jn 46).
Proof. vm_compute. reflexivity. Qed.

Lemma bind_Some_intro {A B} (x : option A) (f : A → option B) b :
  x ≫= f = Some b → ∃ a, x = Some a ∧ f a = Some b.
Proof. destruct x; [eauto|done]. Qed.

Lemma demo_few : (Z.of_nat (length (result_components (demo_result 300))) ≤ u64_max)%Z.
Proof. apply Z.leb_le. vm_compute. reflexivity. Qed.

Lemma widget_fits_witness :
  ∃ v, @widget_data sample_url None demo_serde compact_json (demo_result 300) = Some v ∧
    value_get §"more" v = Some (jn 46) ∧ (@json_size compact_json v ≤ MAX_BYTES)%nat.
Proof.
  destruct (bind_Some_intro _ _ _ demo_card_cut) as (v & E & Hcut).
  exists v. split; [exact E|]. split; [exact Hcut|].
  apply (@widget_fits compact_json compact_laws sample_url demo_serde None (demo_result 300) v E).
  exact demo_few.
Defined.
