(* ===== verification/Ge.v ===== *)
(** * Ge: the answer card of Gemini Enterprise
    (crates/triton-core/src/a2ui/ge.rs)

    A result's surface becomes a flat list of components that refer to each
    other by id; a clickable component's id carries a signed token, so that any
    replica with the key resolves the click.  The environment, the random ids
    and the clock are arguments: a card is built at one reading of the clock. *)

From Stdlib Require Import SpecFloat.
From S2P Require Import Prelude F64 Json Message Correlation A2ui.

Definition EXTENSION_URI : str := §"https://a2ui.org/a2a-extension/a2ui/v0.9".
Definition MIME : str := §"application/json+a2ui".
Definition BASIC_CATALOG : str :=
  §"https://www.gstatic.com/vertexaisearch/a2ui/v0_9/gemini_enterprise_composite_catalog.json".
Definition THEME_PRIMARY_COLOR : str := §"#1a73e8".
Definition SURFACE_PREFIX : str := §"triton-answer-".
Definition PASSTHROUGH_PREFIX : str := §"triton-a2ui-".
Definition GE_ACTION_CAP : nat := 2048.
Definition GE_ACTION_TTL_SECS : Z := 30 * 24 * 3600.
Definition GE_DOC_TTL_SECS : Z := 24 * 3600.
Definition OPEN_DOC_TOOL : str := §"__open_doc".
Definition GE_PLATFORM : str := §"a2ui-ge".
Definition MAX_PASSTHROUGH_SURFACES : nat := 8.
Definition MAX_DISPLAY_NAME_CHARS : nat := 64.

(** U+0001 *)
Definition SOH : ascii := ascii_of_N 1.

Inductive GeAction :=
  | GeMessage (m : str)
  | GeIncomplete (names : list str)
  | GeOpenDoc (label skill i url : str).

(** ** Switches *)

Definition truthy (v : str) : bool :=
  bool_decide (trim v ∈ [§"1"; §"true"; §"TRUE"; §"yes"; §"on"]).
Definition falsy (v : str) : bool :=
  bool_decide (trim v ∈ [§"0"; §"false"; §"FALSE"; §"no"; §"off"]).

Record GeOptions := { open_url : bool; embed : bool; form_fields : bool }.
Definition GeOptions_default : GeOptions :=
  {| open_url := false; embed := false; form_fields := true |}.

Section Environment.
Variable env_var : str → option str.

Definition env_on (k : str) : bool := match env_var k with Some v => truthy v | None => false end.
Definition env_off (k : str) : bool := match env_var k with Some v => falsy v | None => false end.

Definition doc_canvas_enabled : bool := env_on §"TRITON_GE_DOC_CANVAS".
(** The first of the two that is set decides. *)
Definition doc_iframe_enabled : bool :=
  match env_var §"TRITON_GE_DOC_IFRAME" with
  | Some v => truthy v
  | None => env_on §"TRITON_GE_DOC_CANVAS"
  end.

Definition from_env : GeOptions :=
  {| open_url := env_on §"TRITON_GE_OPEN_URL"; embed := env_on §"TRITON_GE_EMBED";
     form_fields := negb (env_off §"TRITON_GE_FORM_FIELDS") |}.
End Environment.

(** ** Signed actions *)

Record ActionSigner := { ring : KeyRing }.

Definition binding : Binding := {| b_platform := GE_PLATFORM; b_tenant := []; b_sender := [] |}.

Inductive ActionKeyState := Configured | Ephemeral.

(** The process-wide cell: the first key that is set stays. *)
Definition configure_action_key (raw : option str) (installed : option ActionSigner)
    : result ActionKeyState KeyRingError * option ActionSigner :=
  match raw with
  | None => (Ok Ephemeral, installed)
  | Some raw =>
      match KeyRing_parse raw with
      | Err e => (Err e, installed)
      | Ok r => (Ok Configured, Some (default {| ring := r |} installed))
      end
  end.

(** [random] are the two random ids of the process. *)
Definition ephemeral (random : str) : ActionSigner := {| ring := {| keys := [random] |} |}.
Definition global (random : str) (installed : option ActionSigner) : ActionSigner :=
  default (ephemeral random) installed.

Definition ok {A E} (r : result A E) : option A := match r with Ok a => Some a | Err _ => None end.

Definition component_id (n : nat) (token : str) : str :=
  §"a" ++ dec (Z.of_nat n) ++ §"-" ++ token.

Definition template_labels_args (template : str) (labels : list (str * str)) : Value :=
  set_key §"labels" (json_object (prod_map (λ x, x) js <$> labels)) (template_args template).

Definition open_doc_args (label skill i url : str) : Value :=
  json_object [(§"l", js label); (§"s", js skill); (§"i", js i); (§"u", js url)].

(** What a click's context holds for a field. *)
Definition context_input `{SerdeJson} (context : Value) (k : str) : option str :=
  match value_get k context with
  | Some (Value.String s) => Some s
  | Some (Value.Array a) => head a ≫= as_str
  | Some (Value.Number x) => Some (json_to_string (Value.Number x))
  | _ => None
  end.

Definition field_label (args : Value) (name : str) : str :=
  default name (value_get §"labels" args ≫= get_str name).

Section Signer.
Context `{Crypto} `{SerdeJson}.
Variable now : option Z.
Variable s : ActionSigner.

Definition mint (tool : str) (args : Value) (ttl : Z) : option str :=
  key ← signing (ring s);
  ok (encode_bound now tool args key GE_ACTION_CAP binding (Some ttl)).

Definition sign (message : str) : option str :=
  mint SEND_MESSAGE_TOOL (text_args message) GE_ACTION_TTL_SECS.

Definition sign_template (template : str) (labels : list (str * str)) : option str :=
  mint SEND_MESSAGE_TOOL (template_labels_args template labels) GE_ACTION_TTL_SECS.

Definition sign_open_doc (n : nat) (label skill i url : str) : option str :=
  token ← mint OPEN_DOC_TOOL (open_doc_args label skill i url) GE_DOC_TTL_SECS;
  Some (component_id n token).

(** The typed action of a verified body. *)
Definition typed_action (context : Value) (tool : str) (args : Value) : option GeAction :=
  let f k := default [] (get_str k args) in
  if decide (tool = OPEN_DOC_TOOL) then Some (GeOpenDoc (f §"l") (f §"s") (f §"i") (f §"u"))
  else if decide (tool = SEND_MESSAGE_TOOL) then
    match resolve (context_input context) args with
    | Ok m => Some (GeMessage m)
    | Err (Missing names) => Some (GeIncomplete (field_label args <$> names))
    | Err Empty => None
    end
  else None.

Definition open_action_with (component_id : str) (context : Value) : option GeAction :=
  rest ← strip_prefix §"a" component_id;
  '(n, token) ← split_once "-" rest;
  if is_empty n || negb (forallb is_ascii_digit n) then None
  else
    '(tool, args) ← ok (decode_bound_any now token (ring s) GE_ACTION_CAP binding);
    typed_action context tool args.

Definition open_action (component_id : str) : option GeAction :=
  open_action_with component_id Value.Null.

Definition open (component_id : str) : option str :=
  match open_action component_id with Some (GeMessage m) => Some m | _ => None end.

(** The in-band form of an action; [sentinel] has the nonce of the process. *)
Definition question_for (sentinel : str) (source_component_id : str) : option str :=
  match open_action source_component_id with
  | Some (GeMessage m) => Some m
  | Some (GeOpenDoc label skill i url) =>
      Some (sentinel ++ label ++ [SOH] ++ skill ++ [SOH] ++ i ++ [SOH] ++ url)
  | _ => None
  end.
End Signer.

(** A click, resolved with the key of the process. *)
Definition action_for_with `{Crypto} `{SerdeJson} (now : option Z) (random : str)
    (installed : option ActionSigner) (source_component_id : str) (context : Value)
    : option GeAction :=
  open_action_with now (global random installed) source_component_id context.
Definition action_for `{Crypto} `{SerdeJson} (now : option Z) (random : str)
    (installed : option ActionSigner) (source_component_id : str) : option GeAction :=
  open_action now (global random installed) source_component_id.

(** [splitn] *)
Fixpoint splitn (n : nat) (c : ascii) (s : str) : list str :=
  match n with
  | 0 => []
  | S 0 => [s]
  | S k => match split_once c s with Some (x, y) => x :: splitn k c y | None => [s] end
  end.

Record OpenDocRef := { od_label : str; od_skill : str; od_id : str; od_url : str }.

Definition open_doc (sentinel : str) (text : str) : option OpenDocRef :=
  rest ← strip_prefix sentinel text;
  let part i := default [] (splitn 4 SOH rest !! i) in
  let url := trim (part 3) in
  if negb (is_empty (part 1)) && negb (is_empty (part 2)) || negb (is_empty url)
  then Some {| od_label := part 0; od_skill := part 1; od_id := part 2; od_url := url |}
  else None.

(** [split_once(" · ")] *)
Definition split_skill_id (label : str) : str * str :=
  match find_sub §" · " label with
  | Some i => (trim (take i label), trim (drop (i + length §" · ") label))
  | None => ([], [])
  end.

(** ** The card under construction *)

Record Card := { flat : list Value; n : nat; forms : nat }.
Definition empty_card : Card := {| flat := []; n := 0; forms := 0 |}.

Definition push_flat (v : Value) (c : Card) : Card :=
  {| flat := flat c ++ [v]; n := n c; forms := forms c |}.
Definition bump (c : Card) : Card := {| flat := flat c; n := S (n c); forms := forms c |}.
Definition jn (k : nat) : Value := Value.Number (Value.Int (Z.of_nat k)).

(** A loop that collects; one whose body may yield nothing. *)
Section Loops.
Context {S A B : Type}.
Variable f : A → ST S B.
Fixpoint st_map (l : list A) : ST S (list B) :=
  match l with
  | [] => ret []
  | a :: l' => b ←ₛ f a; bs ←ₛ st_map l'; ret (b :: bs)
  end.
End Loops.
Definition st_filter_map {S A B} (f : A → ST S (option B)) (l : list A) : ST S (list B) :=
  bs ←ₛ st_map f l; ret (omap (λ x, x) bs).

Definition next_id (prefix : str) : ST Card str := λ c,
  let c := bump c in (prefix ++ §"-" ++ dec (Z.of_nat (n c)), c).

Definition add (prefix : str) (comp : Value) : ST Card str :=
  i ←ₛ next_id prefix;
  λ c, (i, push_flat (set_key §"id" (js i) comp) c).

Definition text_comp (text hint : str) : Value :=
  json_object [(§"component", js §"MaterialText"); (§"text", js text); (§"usageHint", js hint)].
Definition text (t hint : str) : ST Card str := add §"t" (text_comp t hint).

Definition column (children : list str) : ST Card str :=
  add §"col" (json_object [(§"component", js §"MaterialColumn"); (§"children", jss children)]).

Definition row (children : list str) : ST Card str :=
  add §"row" (json_object [(§"component", js §"MaterialRow"); (§"children", jss children);
                           (§"justify", js §"start"); (§"align", js §"stretch")]).

Definition event (name : str) (context : Value) : Value :=
  json_object [(§"event", json_object [(§"name", js name); (§"context", context)])].
Definition no_context : Value := json_object [].

Definition button_comp (label variant : str) (action : Value) : list (str * Value) :=
  [(§"component", js §"MaterialButton"); (§"label", js label); (§"variant", js variant);
   (§"color", js §"primary"); (§"action", action)].

(** Buttons two in a row. *)
Fixpoint chunks2 {A} (l : list A) : list (list A) :=
  match l with
  | a :: b :: l' => [a; b] :: chunks2 l'
  | [a] => [[a]]
  | [] => []
  end.
Definition button_rows (ids : list str) : ST Card (list str) := st_map row (chunks2 ids).

(** [Some] heading, before what follows. *)
Definition opt_text (t : option str) (hint : str) : ST Card (list str) :=
  match t with Some t => i ←ₛ text t hint; ret [i] | None => ret [] end.
Definition nonempty_text (t : str) (hint : str) : ST Card (list str) :=
  if is_empty t then ret [] else i ←ₛ text t hint; ret [i].
Definition filter_nonempty (t : option str) : option str :=
  match t with Some s => if is_empty s then None else Some s | None => None end.

(** The bits of an integer up to 100 as a double. *)
Definition small_bits (k : Z) : Z :=
  if (k <=? 0)%Z then 0%Z
  else let e := Z.log2 k in ((1023 + e) * 2 ^ 52 + (k - 2 ^ e) * 2 ^ (52 - e))%Z.

(** [(f.clamp(0.0, 1.0) * 100.0).round()] as JSON *)
Definition percent_value (f : f64) : Value :=
  match f64_mul (f64_clamp f64_zero f64_one (f64_decode f)) f64_hundred with
  | S754_nan => Value.Null
  | S754_zero true => Value.Number (Value.Float (2 ^ 63))
  | x => Value.Number (Value.Float (small_bits (f64_round_as 100 x)))
  end.

Definition tone_icon (t : Tone) : str * str :=
  match t with
  | Info => (§"info", §"primary")
  | Warn => (§"warning", §"warn")
  | Attention => (§"error", §"warn")
  end.
Definition icon_comp (icon color : str) : Value :=
  json_object [(§"component", js §"MaterialIcon"); (§"icon", js icon); (§"color", js color)].

Definition step_icon (s : StepState) : str :=
  match s with
  | Done => §"check_circle"
  | Active => §"pending"
  | Pending => §"radio_button_unchecked"
  end.
Definition step_hint (s : StepState) : str :=
  match s with Active => §"body1" | _ => §"body2" end.

Definition progress_bar (fraction : option f64) : Value :=
  match fraction with
  | Some f => json_object [(§"component", js §"MaterialProgressBar"); (§"mode", js §"determinate");
                           (§"value", percent_value f)]
  | None => json_object [(§"component", js §"MaterialProgressBar"); (§"mode", js §"indeterminate")]
  end.

Definition table_columns (columns : list TableColumn) : list Value :=
  (λ c, json_object [(§"header", js (c_label c)); (§"field", js (c_key c))]) <$> columns.
Definition table_row (columns : list TableColumn) (r : TableRow) : Value :=
  json_object ((λ c, (c_key c, js (default [] (str_map_get (c_key c) (r_cells r))))) <$> columns).
Definition table_comp (columns rows : list Value) : Value :=
  json_object [(§"component", js §"MaterialTable"); (§"columns", Value.Array columns);
               (§"rows", Value.Array rows)].
Definition set_caption (title : option str) (v : Value) : Value :=
  set_opt §"caption" js title v.

Definition pair_row (p : KeyValuePair) : Value :=
  json_object [(§"label", js (kv_label p));
               (§"value", js (match kv_before p with
                              | Some b => b ++ §" → " ++ kv_value p
                              | None => kv_value p
                              end))].

Definition counts_line (n : TreeNode) : str :=
  join §" · " ((λ c, trim (tc_value c ++ §" " ++ tc_label c)) <$> n_counts n).
Definition node_line (n : TreeNode) : str :=
  let description := counts_line n in
  if is_empty description then n_label n else n_label n ++ §" — " ++ description.

(** A form field's input, bound to its place in the data model. *)
Definition path_value (path : str) : Value := json_object [(§"path", js path)].
Definition field_input (path : str) (f : FormField) : Value :=
  match f_kind f with
  | KSelect =>
      json_object [(§"component", js §"MaterialSelect"); (§"label", js (f_label f));
                   (§"options", Value.Array ((λ o, json_object [(§"label", js (o_label o));
                                                               (§"value", js (o_value o))])
                                              <$> options f));
                   (§"value", path_value path)]
  | KInteger =>
      json_object [(§"component", js §"MaterialInput"); (§"label", js (f_label f));
                   (§"type", js §"number"); (§"value", path_value path)]
  | _ =>
      set_opt §"placeholder" js (placeholder f)
        (json_object [(§"component", js §"MaterialInput"); (§"label", js (f_label f));
                      (§"value", path_value path)])
  end.

Section Build.
Context `{Crypto} `{UrlParse}.
Variable cell : HttpHosts.
Variable now : option Z.
Variable signer : ActionSigner.
Variable opts : GeOptions.

Definition send_button (label message variant : str) : ST Card (option str) := λ c,
  match sign now signer message with
  | None => (None, c)
  | Some token =>
      let c := bump c in
      let i := component_id (n c) token in
      (Some i, push_flat (json_object ((§"id", js i)
                 :: button_comp label variant (event §"send_message" no_context))) c)
  end.

Definition doc_button (label : str) (doc : str * str * str * str) : ST Card (option str) := λ c,
  let '(l, s, d, u) := doc in
  let c := bump c in
  match sign_open_doc now signer (n c) l s d u with
  | None => (None, c)
  | Some i =>
      (Some i, push_flat (json_object ((§"id", js i)
                 :: button_comp label §"outlined" (event §"open_doc" no_context))) c)
  end.

Definition open_url_action (url : str) : Value :=
  json_object [(§"functionCall", json_object [(§"call", js §"openUrl");
    (§"args", json_object [(§"url", js url)]); (§"returnType", js §"void")])].

Definition url_button (label url : str) : ST Card (option str) :=
  if negb (open_url opts) || negb (is_allowed_link cell url) then ret None
  else i ←ₛ add §"lnk" (json_object (button_comp label §"basic" (open_url_action url)));
       ret (Some i).

Definition action_button (label : str) (a : Action) (variant : str) : ST Card (option str) :=
  match a with
  | Action.SendMessage t => send_button label t variant
  | Action.OpenUrl u => url_button label u
  end.

Definition list_item (it : ListItem) : ST Card str :=
  ht ←ₛ match li_action it, li_action_label it with
         | Some a, Some caption => t ←ₛ action_button caption a §"stroked"; ret (None, t)
         | Some a, None => h ←ₛ action_button (li_label it) a §"basic"; ret (h, None)
         | None, _ => ret (None, None)
         end;
  let '(hd, tl) := ht in
  h ←ₛ match hd with Some i => ret i | None => text (li_label it) §"body1" end;
  ds ←ₛ opt_text (filter_nonempty (li_detail it)) §"caption";
  col ←ₛ column (h :: ds);
  match tl with
  | Some btn => row [col; btn]
  | None => ret col
  end.

Definition chip_buttons (chips : list Chip) : ST Card (list str) :=
  bs ←ₛ st_filter_map (λ ch, send_button (chip_label ch) (chip_message ch) §"stroked") chips;
  button_rows bs.

(** One button for each option the template can be filled with. *)
Definition option_buttons (tpl key : str) (os : list SelectionOption) : ST Card (list str) :=
  bs ←ₛ st_filter_map (λ o,
    match fill_template (λ k, if decide (k = key) then Some (o_value o) else None) tpl with
    | Ok msg => send_button (o_label o) msg §"stroked"
    | Err _ => ret None
    end) os;
  button_rows bs.

Definition is_select (f : FormField) : bool :=
  match f_kind f with KSelect => true | _ => false end.
Definition only_select (tpl : str) (fields : list FormField) : option FormField :=
  match required_placeholders tpl with
  | [one] => head (filter (λ f, f_name f = one ∧ is_select f = true) fields)
  | _ => None
  end.

Definition template_form (title : str) (fields : list FormField) (tpl : str)
    (preview_label : option str) : ST Card (list str) :=
  ids ←ₛ nonempty_text title §"subtitle2";
  match only_select tpl fields with
  | Some f => rows ←ₛ option_buttons tpl (f_name f) (options f); ret (ids ++ rows)
  | None =>
      let preview := preview_template
        (λ name, f_label <$> head (filter (λ f, f_name f = name) fields)) tpl in
      match preview_label with
      | Some label => i ←ₛ text (label ++ §": " ++ preview) §"body2"; ret (ids ++ [i])
      | None => ret ids
      end
  end.

Definition field_path (ns : str) (f : FormField) : str := ns ++ §"/" ++ f_name f.
Definition form_context (ns : str) (fields : list FormField) : Value :=
  json_object ((λ f, (f_name f, path_value (field_path ns f))) <$> fields).
Definition next_form : ST Card str := λ c,
  let c := {| flat := flat c; n := n c; forms := S (forms c) |} in
  (§"/f" ++ dec (Z.of_nat (forms c)), c).
(** [flat.truncate(flat.len() - k)] *)
Definition drop_last (k : nat) : ST Card unit := λ c,
  (tt, {| flat := take (length (flat c) - k) (flat c); n := n c; forms := forms c |}).

Definition field_form (fields : list FormField) (tpl submit_label : str) : ST Card (list str) :=
  ns ←ₛ next_form;
  ids ←ₛ st_map (λ f, add §"in" (field_input (field_path ns f) f)) fields;
  match sign_template now signer tpl ((λ f, (f_name f, f_label f)) <$> fields) with
  | None => _ ←ₛ drop_last (length ids); template_form [] fields tpl None
  | Some token =>
      λ c,
        let c := bump c in
        let i := component_id (n c) token in
        let label := if is_empty submit_label then §"Send" else submit_label in
        (ids ++ [i], push_flat (json_object ((§"id", js i)
           :: button_comp label §"flat" (event §"submit" (form_context ns fields)))) c)
  end.

Definition form_group (submit_label : str) (note : option str) (k : nat) (g : FormGroup)
    : ST Card str :=
  inner ←ₛ (if form_fields opts then field_form (g_fields g) (g_send_template g) submit_label
            else template_form [] (g_fields g) (g_send_template g) None);
  notes ←ₛ opt_text (filter_nonempty note) §"caption";
  add §"grp" (json_object [(§"component", js §"MaterialExpansionPanel"); (§"title", js (g_label g));
                           (§"expanded", Value.Bool (k =? 0)%nat);
                           (§"children", jss (inner ++ notes))]).

(** [enumerate] *)
Definition enumerate {A} (l : list A) : list (nat * A) := imap pair l.

Definition form_groups (title : option str) (groups : list FormGroup) (submit_label : str)
    (note : option str) : ST Card (list str) :=
  ids ←ₛ opt_text (filter_nonempty title) §"subtitle2";
  gs ←ₛ st_map (λ '(k, g), form_group submit_label note k g) (enumerate groups);
  ret (ids ++ gs).

Definition panel (nd : TreeNode) (inner : list str) : Value :=
  set_if (negb (is_empty (counts_line nd))) §"description" (js (counts_line nd))
    (json_object [(§"component", js §"MaterialExpansionPanel"); (§"title", js (n_label nd));
                  (§"expanded", Value.Bool (n_expanded nd || n_gap nd));
                  (§"children", jss inner)]).

Definition opt_action (label : str) (a : option Action) (variant : str) : ST Card (option str) :=
  match a with Some a => action_button label a variant | None => ret None end.

Fixpoint tree_node (nd : TreeNode) : ST Card str :=
  if is_empty (n_children nd) && is_empty (n_chips nd) then
    i ←ₛ (if n_gap nd then ret None else opt_action (node_line nd) (n_action nd) §"basic");
    match i with Some i => ret i | None => text (node_line nd) §"body2" end
  else
    rows ←ₛ chip_buttons (n_chips nd);
    a ←ₛ opt_action (action_caption nd) (n_action nd) §"basic";
    kids ←ₛ st_map tree_node (n_children nd);
    let inner := rows ++ option_list a ++ kids in
    if is_empty inner then text (node_line nd) §"body2"
    else add §"node" (panel nd inner).

Definition progress_step (s : ProgressStep) : ST Card str :=
  ic ←ₛ add §"ic" (icon_comp (step_icon (ps_state s)) §"primary");
  tx ←ₛ text (ps_label s) (step_hint (ps_state s));
  row [ic; tx].

Definition form_component (title : str) (fields : list FormField) (submit_label tpl : str)
    (preview_label : option str) : ST Card (list str) :=
  if form_fields opts then
    ids ←ₛ nonempty_text title §"subtitle2";
    fs ←ₛ field_form fields tpl submit_label;
    ret (ids ++ fs)
  else template_form title fields tpl preview_label.

(** The context line and the stamp on one caption; the text part says the title. *)
Definition header_component (context stamp : option str) : ST Card (list str) :=
  let line := filter (λ t, is_empty t = false) (omap (λ x, x) [context; stamp]) in
  if is_empty line then ret []
  else i ←ₛ text (join §" · " line) §"caption"; ret [i].

Fixpoint component (c : Component) : ST Card (list str) :=
  match c with
  | Component.List title items =>
      ids ←ₛ opt_text title §"subtitle1"; rows ←ₛ st_map list_item items; ret (ids ++ rows)
  | Component.Table title columns rows =>
      i ←ₛ add §"tbl" (set_caption title
             (table_comp (table_columns columns) (table_row columns <$> rows)));
      ret [i]
  | Component.Chips prompt chips =>
      ids ←ₛ opt_text prompt §"body2"; rows ←ₛ chip_buttons chips; ret (ids ++ rows)
  | Component.Tree title nodes _ =>
      ids ←ₛ opt_text title §"subtitle1"; ns ←ₛ st_map tree_node nodes; ret (ids ++ ns)
  | Component.Notice tone title t =>
      ic ←ₛ add §"ic" (icon_comp (tone_icon tone).1 (tone_icon tone).2);
      let body := match filter_nonempty title with Some h => h ++ §": " ++ t | None => t end in
      tx ←ₛ text body §"body2";
      r ←ₛ row [ic; tx];
      ret [r]
  | Component.Progress title steps fraction =>
      ids ←ₛ opt_text title §"subtitle2";
      bar ←ₛ add §"pb" (progress_bar fraction);
      rows ←ₛ st_map progress_step steps;
      ret (ids ++ bar :: rows)
  | Component.KeyValue title pairs =>
      i ←ₛ add §"kv" (set_caption title
             (table_comp [json_object [(§"header", js []); (§"field", js §"label")];
                          json_object [(§"header", js []); (§"field", js §"value")]]
                (pair_row <$> pairs)));
      ret [i]
  | Component.Selection prompt os _ args_key _ (Some sub) =>
      p ←ₛ text prompt §"body2";
      rows ←ₛ option_buttons (st_template sub) args_key os;
      ret (p :: rows)
  | Component.Form title fields submit_label _ (Some tpl) preview_label =>
      form_component title fields submit_label tpl preview_label
  | Component.Header _ context stamp => header_component context stamp
  | Component.FormGroups title groups submit_label note =>
      form_groups title groups submit_label note
  | Component.Button label _ _ (Some a) _ _ =>
      i ←ₛ action_button label a §"flat"; ret (option_list i)
  | Component.Embed _ _ _ fallback => component fallback
  | Component.Text value _ => i ←ₛ text value §"body1"; ret [i]
  | Component.Narration t => i ←ₛ text t §"caption"; ret [i]
  | _ => ret []
  end.
End Build.

(** ** A chart *)

(** [v.get_mut(k).and_then(Value::as_object_mut)] and a change there. *)
Definition modify_object (k : str) (f : JsonMap → JsonMap) (m : JsonMap) : JsonMap :=
  match Map.get k m with
  | Some (Value.Object o) => Map.insert k (Value.Object (f o)) m
  | _ => m
  end.
Definition upright_axis (x : JsonMap) : JsonMap :=
  match Map.get §"axis" x with
  | Some (Value.Object a) =>
      Map.insert §"axis" (Value.Object (Map.insert §"labelAngle" (jn 0) a)) x
  | _ => Map.insert §"axis" (json_object [(§"labelAngle", jn 0)]) x
  end.
Definition drop_legend (x_field : str) (color : JsonMap) : JsonMap :=
  if decide (Map.get §"field" color ≫= as_str = Some x_field)
  then Map.insert §"legend" Value.Null color else color.
Definition beautify_encoding (enc : JsonMap) : JsonMap :=
  let x_field := Map.get §"x" enc ≫= get_str §"field" in
  let enc := modify_object §"x" upright_axis enc in
  match x_field with Some xf => modify_object §"color" (drop_legend xf) enc | None => enc end.
Definition beautify_vega_for_ge (spec : Value) : Value :=
  match spec with
  | Value.Object obj =>
      Value.Object (modify_object §"encoding" beautify_encoding
                      (Map.insert §"width" (js §"container") obj))
  | _ => spec
  end.

Definition chart_comp (c : Value) : option Value :=
  match value_get §"vega_spec" c with
  | Some (Value.Object o) =>
      Some (json_object [(§"component", js §"VegaChart");
                         (§"spec", beautify_vega_for_ge (Value.Object o)); (§"height", jn 300)])
  | _ =>
      url ← get_str §"image_url" c;
      Some (set_opt §"description" js (get_str §"title" c)
              (json_object [(§"component", js §"Image"); (§"url", js url);
                            (§"fit", js §"contain")]))
  end.

(** ** Surfaces and messages *)

Definition base_theme : Value :=
  json_object [(§"primaryColor", js THEME_PRIMARY_COLOR);
               (§"agentDisplayName", js §"DataZoo Agent")].
Definition create_surface (surface_id : str) (theme : Value) : Value :=
  json_object [(§"version", js §"v0.9");
    (§"createSurface", json_object [(§"surfaceId", js surface_id);
       (§"catalogId", js BASIC_CATALOG); (§"theme", theme)])].
Definition update_components (surface_id : str) (flat : list Value) : Value :=
  json_object [(§"version", js §"v0.9");
    (§"updateComponents", json_object [(§"surfaceId", js surface_id);
       (§"components", Value.Array flat)])].

(** [uuid] is the random id of the surface. *)
Definition surface_pair (uuid : str) (flat : list Value) : list Value :=
  let surface_id := SURFACE_PREFIX ++ uuid in
  [create_surface surface_id base_theme; update_components surface_id flat].

Definition frame_flat (url title : str) (height : Z) (auto_open : bool) : list Value :=
  [json_object [(§"id", js §"frame"); (§"component", js §"IFrameUrl"); (§"url", js url);
                (§"height", Value.Number (Value.Int height))];
   json_object [(§"id", js §"root"); (§"component", js §"Canvas"); (§"children", jss [§"frame"]);
                (§"autoOpen", Value.Bool auto_open); (§"cardTitle", js title);
                (§"cardIcon", js §"account_tree")]].
Definition embed_canvas (uuid url title : str) (height : Z) (auto_open : bool) : list Value :=
  surface_pair uuid (frame_flat url title height auto_open).

Definition document_flat (url title : str) : list Value :=
  [json_object [(§"id", js §"doc-frame"); (§"component", js §"IFrameUrl"); (§"url", js url);
                (§"title", js title); (§"height", jn 640)];
   json_object [(§"id", js §"root"); (§"component", js §"Canvas");
                (§"children", jss [§"doc-frame"]); (§"autoOpen", Value.Bool true);
                (§"cardTitle", js title); (§"cardDescription", js §"Open the source document");
                (§"cardIcon", js §"description")]].
Definition build_document_canvas (uuid url title : str) : list Value :=
  surface_pair uuid (document_flat url title).

(** Under the top column of an outlined card. *)
Definition root_comps (children : list str) : list Value :=
  [json_object [(§"id", js §"root-col"); (§"component", js §"MaterialColumn");
                (§"children", jss children)];
   json_object [(§"id", js §"root"); (§"component", js §"MaterialCard");
                (§"appearance", js §"outlined"); (§"children", jss [§"root-col"])]].

(** *** A document in native widgets *)

Definition values_first (v : Value) : option Value :=
  match v with Value.Object m => head m.*2 | _ => None end.

Definition fact_row (f : Value) : option Value :=
  k ← get_str §"key" f;
  v ← get_str §"value" f;
  Some (json_object [(§"field", js k); (§"value", js v)]).
Definition fact_columns : list Value :=
  [json_object [(§"header", js §"Field"); (§"field", js §"field")];
   json_object [(§"header", js §"Value"); (§"field", js §"value")]].

Definition event_line (e : Value) : str :=
  let at_ := default [] (get_str §"at" e) in
  let src := default [] (get_str §"source" e) in
  let ttl := default [] (get_str §"title" e) in
  let meta := join §" · " (filter (λ s, is_empty s = false) [at_; src]) in
  if is_empty meta then ttl else ttl ++ §" — " ++ meta.

Definition document_facts (inst : Value) : list Value :=
  match value_get §"facts" inst ≫= as_array with
  | Some facts =>
      let rows := omap fact_row facts in
      if is_empty rows then [] else [table_comp fact_columns rows]
  | None => []
  end.
Definition document_body (inst : Value) : list Value :=
  match get_str §"markdown" inst with
  | Some md => if is_empty (trim md) then [] else [text_comp md §"body"]
  | None => []
  end.
Definition document_events (inst : Value) : list Value :=
  match value_get §"events" inst ≫= as_array with
  | Some (e :: es) =>
      text_comp §"Activity" §"subtitle2"
      :: ((λ e, text_comp (event_line e) §"caption") <$> (e :: es))
  | _ => []
  end.

Definition document_id (k : nat) : str := §"d-" ++ dec (Z.of_nat (S k)).
Definition number_comps (comps : list Value) : list Value :=
  imap (λ k v, set_key §"id" (js (document_id k)) v) comps.

Definition document_comps (structured : Value) (title : str) : list Value :=
  let inst := value_get §"instances" structured ≫= values_first in
  let heading := if is_empty title
                 then default §"Document" (inst ≫= get_str §"id") else title in
  let head := text_comp heading §"h3" in
  let content := match inst with
                 | Some inst => document_facts inst ++ document_body inst ++ document_events inst
                 | None => []
                 end in
  head :: (if is_empty content
           then [text_comp §"This document is unavailable right now." §"body"] else content).

Definition material_flat (structured : Value) (title : str) : list Value :=
  let comps := document_comps structured title in
  number_comps comps ++ root_comps (imap (λ k _, document_id k) comps).
Definition build_document_material (uuid : str) (structured : Value) (title : str) : list Value :=
  surface_pair uuid (material_flat structured title).

(** *** The surfaces of a producer *)

Definition theme_name (over : JsonMap) : option str :=
  name ← Map.get §"agentDisplayName" over ≫= as_str;
  let name := trim name in
  if negb (is_empty name) && (char_count name <=? MAX_DISPLAY_NAME_CHARS)%nat
     && negb (has_control name)
  then Some name else None.
Definition theme_color (over : JsonMap) : option str :=
  color ← Map.get §"primaryColor" over ≫= as_str;
  if (length color =? 7)%nat && starts_with §"#" color && forallb is_ascii_hexdigit (drop 1 color)
  then Some color else None.
Definition passthrough_theme (spec : option Value) : Value :=
  match spec with
  | Some (Value.Object over) =>
      set_opt §"primaryColor" js (theme_color over)
        (set_opt §"agentDisplayName" js (theme_name over) base_theme)
  | _ => base_theme
  end.

Definition passthrough_messages (uuid : str) (surface : Value) : list Value :=
  match value_get §"components" surface ≫= as_array with
  | None => []
  | Some comps =>
      if negb (existsb (λ c, bool_decide (get_str §"id" c = Some §"root")) comps) then []
      else
        let surface_id := PASSTHROUGH_PREFIX ++ uuid in
        [create_surface surface_id (passthrough_theme (value_get §"theme" surface));
         update_components surface_id comps]
        ++ match value_get §"data_model" surface with
           | Some Value.Null | None => []
           | Some model =>
               [json_object [(§"version", js §"v0.9");
                  (§"updateDataModel", json_object [(§"surfaceId", js surface_id);
                     (§"path", js §"/"); (§"value", model)])]]
           end
  end.

(** The random id of each surface, by its place. *)
Definition passthrough_surfaces (uuid : nat → str) (spec : option Value) : list Value :=
  match spec ≫= as_array with
  | None => []
  | Some surfaces =>
      concat (imap (λ k s, passthrough_messages (uuid k) s) (take MAX_PASSTHROUGH_SURFACES surfaces))
  end.

(** [chars().take(23)] and an ellipsis past 24. *)
Definition display_label (label : str) : str :=
  if (24 <? char_count label)%nat then take_chars 23 label ++ §"…" else label.

(** ** The card of a result *)

Record Build := {
  root_children : list str;
  action_btn_ids : list str;
  source_btn_ids : list str;
  canvases : list (str * str * option Z);
}.
Definition add_root (ids : list str) (b : Build) : Build :=
  {| root_children := root_children b ++ ids; action_btn_ids := action_btn_ids b;
     source_btn_ids := source_btn_ids b; canvases := canvases b |}.
Definition add_actions (ids : list str) (b : Build) : Build :=
  {| root_children := root_children b; action_btn_ids := action_btn_ids b ++ ids;
     source_btn_ids := source_btn_ids b; canvases := canvases b |}.
Definition add_source (i : str) (b : Build) : Build :=
  {| root_children := root_children b; action_btn_ids := action_btn_ids b;
     source_btn_ids := source_btn_ids b ++ [i]; canvases := canvases b |}.
Definition add_canvas (x : str * str * option Z) (b : Build) : Build :=
  {| root_children := root_children b; action_btn_ids := action_btn_ids b;
     source_btn_ids := source_btn_ids b; canvases := canvases b ++ [x] |}.

Section Messages.
Context `{Crypto} `{UrlParse} `{SerdeA2ui}.
Variable cell : HttpHosts.
Variable now : option Z.
Variable doc_canvas : bool.
Variable signer : ActionSigner.
Variable opts : GeOptions.

(** A follow-up that is not an action: its question, when it has one. *)
Definition legacy_button (c : Value) : ST Card str :=
  let label := default §"Open" (get_str §"label" c) in
  let tool := default [] (get_str §"tool" c) in
  let question :=
    a ← value_get §"args" c;
    q ← match value_get §"question" a with Some q => Some q | None => value_get §"message" a end;
    q ← as_str q;
    if decide (tool = §"render_report") then None else Some q in
  i ←ₛ match question with
       | Some q => send_button now signer label q §"flat"
       | None => ret None
       end;
  match i with
  | Some i => ret i
  | None => add §"btn" (json_object (button_comp label §"flat" (event tool no_context)))
  end.

(** The buttons of one [sources] component: the loop ends once there are two. *)
Fixpoint source_buttons (items : list Value) (b : Build) : ST Card Build :=
  match items with
  | [] => ret b
  | it :: items' =>
      match get_str §"resource" it with
      | Some url =>
          if is_allowed_link cell url then
            let label := default §"source" (get_str §"label" it) in
            let '(skill, doc_id) := split_skill_id label in
            i ←ₛ doc_button now signer (§"Open: " ++ display_label label) (label, skill, doc_id, url);
            let b := match i with Some i => add_source i b | None => b end in
            if (2 <=? length (source_btn_ids b))%nat then ret b else source_buttons items' b
          else source_buttons items' b
      | None => source_buttons items' b
      end
  end.

Definition render (comp : Component) : ST Card (list str) := component cell now signer opts comp.

Definition add_parsed (c : Value) (b : Build) : ST Card Build :=
  match parse cell c with
  | Some comp => ids ←ₛ render comp; ret (add_root ids b)
  | None => ret b
  end.

Definition card_component (c : Value) (b : Build) : ST Card Build :=
  let kind := default [] (get_str §"kind" c) in
  if decide (kind = §"text" ∨ kind = §"narration") then ret b
  else if decide (kind = §"report") then
    match chart_comp c with
    | Some v => i ←ₛ add §"chart" v; ret (add_root [i] b)
    | None => ret b
    end
  else if decide (kind = §"button") then
    match value_get §"action" c with
    | Some (Value.Object _) =>
        match parse cell c with
        | Some comp => ids ←ₛ render comp; ret (add_actions ids b)
        | None => ret b
        end
    | _ => i ←ₛ legacy_button c; ret (add_actions [i] b)
    end
  else if decide (kind = §"sources") then
    if doc_canvas then
      match value_get §"items" c ≫= as_array with
      | Some items => source_buttons items b
      | None => ret b
      end
    else ret b
  else if decide (kind = §"embed") then
    if embed opts then
      match parse cell c with
      | Some (Component.Embed url title height fallback) =>
          if is_allowed_link cell url then ret (add_canvas (url, title, height) b)
          else ids ←ₛ render (Component.Embed url title height fallback); ret (add_root ids b)
      | Some comp => ids ←ₛ render comp; ret (add_root ids b)
      | None => ret b
      end
    else add_parsed c b
  else add_parsed c b.

Fixpoint card_loop (cs : list Value) (b : Build) : ST Card Build :=
  match cs with
  | [] => ret b
  | c :: cs' => b ←ₛ card_component c b; card_loop cs' b
  end.

Definition empty_build : Build :=
  {| root_children := []; action_btn_ids := []; source_btn_ids := []; canvases := [] |}.

(** The children of the root column, and the canvases. *)
Definition card_body (cs : list Value) : ST Card (list str * list (str * str * option Z)) :=
  b ←ₛ card_loop cs empty_build;
  actions ←ₛ button_rows (action_btn_ids b);
  sources ←ₛ button_rows (source_btn_ids b);
  ret (root_children b ++ actions ++ sources, canvases b).

(** The component lists of the surfaces, in order. *)
Definition card_surfaces (cs : list Value) : list (list Value) :=
  let '((children, canvases), c) := card_body cs empty_card in
  (if is_empty children then [] else [flat c ++ root_comps children])
  ++ ((λ '(url, title, height), frame_flat url title (default 640%Z height) false) <$> canvases).

Definition surface_components (res : Value) : option (list Value) :=
  surface ← value_get §"surface" res;
  comps ← value_get §"components" surface;
  as_array comps.

Definition card_messages (uuid : nat → str) (res : Value) : option (list Value) :=
  cs ← surface_components res;
  let messages := concat (imap (λ k flat, surface_pair (uuid k) flat) (card_surfaces cs)) in
  if is_empty messages then None else Some messages.

(** The ids of the producer's surfaces and of Triton's own. *)
Definition build_messages_with (uuid uuid' : nat → str) (res : Value) : option (list Value) :=
  let messages :=
    passthrough_surfaces uuid (value_get §"surface" res ≫= value_get §"a2ui")
    ++ default [] (card_messages uuid' res) in
  if is_empty messages then None else Some messages.

Definition build_messages (uuid uuid' : nat → str) (res : Value) : option (list Value) :=
  build_messages_with uuid uuid' res.

Definition without_a2ui (res : Value) : Value :=
  match res with
  | Value.Object m => Value.Object (modify_object §"surface" (Map.remove §"a2ui") m)
  | _ => res
  end.

Definition build_messages_negotiated (uuid uuid' : nat → str) (res : Value) (a2ui : bool)
    : option (list Value) :=
  if a2ui || bool_decide (value_get §"surface" res ≫= value_get §"a2ui" = None)
  then build_messages uuid uuid' res
  else build_messages uuid uuid' (without_a2ui res).
End Messages.

Definition data_part (m : Value) : Value :=
  json_object [(§"kind", js §"data"); (§"data", m);
               (§"metadata", json_object [(§"mimeType", js MIME)])].
Definition data_parts (messages : list Value) : list Value := data_part <$> messages.

(** * Clicks *)

Section Clicks.
Context `{CryptoLaws} `{SerdeJson}.

(** What an id names: only a token some key of the ring accepts, for the
    platform of the cards. *)
Lemma opened_is_signed now s i context a :
  open_action_with now s i context = Some a →
  ∃ k token key tool args,
    i = §"a" ++ k ++ §"-" ++ token ∧ forallb is_ascii_digit k = true ∧ key ∈ keys (ring s)
    ∧ decode_bound now token key GE_ACTION_CAP binding = Ok (tool, args)
    ∧ typed_action context tool args = Some a.
Proof.
  unfold open_action_with. destruct (strip_prefix §"a" i) as [rest|] eqn:Ep; [|done].
  apply strip_prefix_Some in Ep as ->. cbn [mbind option_bind].
  destruct (split_once "-" rest) as [[k token]|] eqn:Es; [|done].
  apply split_once_Some in Es as [-> _]. cbn [mbind option_bind].
  destruct (is_empty k || negb (forallb is_ascii_digit k)) eqn:Ek; [done|]. bool_facts.
  destruct (decode_bound_any _ _ _ _ _) as [[tool args]|] eqn:Ed; [|done].
  cbn [ok mbind option_bind]. intros Ht.
  destruct (try_keys_sound _ _ _ _ Ed) as (key & Hkey & Hdec).
  by exists k, token, key, tool, args.
Qed.

(** Opening an id tries its token. *)
Lemma open_component_id now s k token context :
  open_action_with now s (component_id k token) context
  = match decode_bound_any now token (ring s) GE_ACTION_CAP binding with
    | Ok (tool, args) => typed_action context tool args
    | Err _ => None
    end.
Proof.
  unfold open_action_with, component_id.
  rewrite (proj2 (strip_prefix_Some §"a" _ _) eq_refl). cbn [mbind option_bind].
  change (§"-") with ["-"%char]. cbn [app].
  rewrite split_once_app by (apply digits_notin; [done|apply dec_digits]).
  cbn [mbind option_bind]. rewrite dec_nonempty, dec_digits. cbn [orb negb].
  by destruct (decode_bound_any _ _ _ _ _) as [[]|].
Qed.

(** A minted id opens, until its time, on any replica whose ring still has the
    key. *)
Lemma minted_opens t ttl s key tool args tok newer rest k context t' :
  signing (ring s) = Some key → mint (Some t) s tool args ttl = Some tok →
  (0 ≤ t)%Z → (0 ≤ ttl)%Z → (t + ttl + 3600 ≤ u64_max)%Z → (t' ≤ t + ttl)%Z →
  body_roundtrips {| cb_t := tool; cb_a := args; cb_x := Some (div_ceil (t + ttl) 3600) |} →
  (∀ k x y body, k ∈ newer → split_once "." tok = Some (x, y) → b64url_decode x = Some body →
     compute_truncated_hmac body (tenant_key key binding)
     ≠ compute_truncated_hmac body (tenant_key k binding)) →
  length tok ≤ GE_ACTION_CAP
  ∧ open_action_with (Some t') {| ring := {| keys := newer ++ key :: rest |} |}
      (component_id k tok) context
    = typed_action context tool args.
Proof.
  intros Hk Hm Ht Httl Hmax Ht' Hr Hneq. unfold mint in Hm. rewrite Hk in Hm.
  cbn [mbind option_bind] in Hm.
  destruct (encode_bound _ _ _ _ _ _ _) as [tok'|] eqn:He; [|done].
  cbn [ok] in Hm. apply (inj Some) in Hm as ->.
  destruct (minted_lifetime t ttl tool args key _ _ tok t' Ht Httl Hmax Hr He) as (Hl & Hd & _).
  split; [done|]. rewrite open_component_id. cbn [ring].
  destruct (rotation_keeps_tokens_valid (Some t) tool args newer key rest GE_ACTION_CAP binding
    (Some ttl) tok (Some t')) as [-> _]; [|done|done|].
  - intros x Hx. unfold bound_expiry, u64_saturating_add in Hx. rewrite Z.min_r in Hx by lia.
    by injection Hx as <-.
  - by rewrite Hd.
Qed.

Lemma typed_text context m :
  trim m ≠ [] → typed_action context SEND_MESSAGE_TOOL (text_args m) = Some (GeMessage (trim m)).
Proof.
  intros Hm. unfold typed_action. rewrite decide_False by done. rewrite decide_True by done.
  unfold resolve. change (get_str §"m" (text_args m)) with (Some m). cbv zeta iota.
  by destruct (trim m).
Qed.
End Clicks.

(** C21: The buttons of a Gemini Enterprise card carry their own request.  The
    id minted for a message is a token of at most 2048 bytes; for thirty days,
    on any replica that still has the key behind newer ones (which do not happen
    to give its text the same tag), a click on it sends exactly that message,
    trimmed, whatever context the host forwards.  And
    an id that opens at all is [a<digits>-<token>] with a token that some key
    of the ring accepts under the platform of these cards. *)
Theorem ge_click_resolves `{CryptoLaws} `{SerdeJson} t s key m tok newer rest k context t' i a :
  signing (ring s) = Some key → sign (Some t) s m = Some tok → trim m ≠ [] →
  (0 ≤ t)%Z → (t + GE_ACTION_TTL_SECS + 3600 ≤ u64_max)%Z → (t' ≤ t + GE_ACTION_TTL_SECS)%Z →
  body_roundtrips {| cb_t := SEND_MESSAGE_TOOL; cb_a := text_args m;
                     cb_x := Some (div_ceil (t + GE_ACTION_TTL_SECS) 3600) |} →
  (∀ k x y body, k ∈ newer → split_once "." tok = Some (x, y) → b64url_decode x = Some body →
     compute_truncated_hmac body (tenant_key key binding)
     ≠ compute_truncated_hmac body (tenant_key k binding)) →
  let replica := {| ring := {| keys := newer ++ key :: rest |} |} in
  length tok ≤ GE_ACTION_CAP
  ∧ open_action_with (Some t') replica (component_id k tok) context = Some (GeMessage (trim m))
  ∧ (open_action_with (Some t') replica i context = Some a →
     ∃ d token key tool args,
       i = §"a" ++ d ++ §"-" ++ token ∧ forallb is_ascii_digit d = true
       ∧ key ∈ keys (ring replica)
       ∧ decode_bound (Some t') token key GE_ACTION_CAP binding = Ok (tool, args)
       ∧ typed_action context tool args = Some a).
Proof.
  intros Hk Hs Hm Ht Hmax Ht' Hr Hneq replica.
  destruct (minted_opens t GE_ACTION_TTL_SECS s key _ _ tok newer rest k context t' Hk Hs Ht
    ltac:(unfold GE_ACTION_TTL_SECS; lia) Hmax Ht' Hr Hneq) as [Hl Ho].
  split; [done|]. split; [|apply opened_is_signed]. unfold replica. rewrite Ho. by apply typed_text.
Qed.

(** A click on a button whose text is blank opens nothing. *)
Lemma blank_button_is_dead `{SerdeJson} context m :
  trim m = [] → typed_action context SEND_MESSAGE_TOOL (text_args m) = None.
Proof.
  intros Hm. unfold typed_action. rewrite decide_False by done. rewrite decide_True by done.
  unfold resolve. change (get_str §"m" (text_args m)) with (Some m). cbv zeta iota. by rewrite Hm.
Qed.

(** Turning the document buttons on turns the framed rendering on as well. *)
Lemma canvas_flag_turns_iframe_on env_var :
  env_var §"TRITON_GE_DOC_IFRAME" = None → doc_iframe_enabled env_var = doc_canvas_enabled env_var.
Proof. intros He. unfold doc_iframe_enabled. by rewrite He. Qed.

(** ** Evaluation *)

(** Bodies of a message that expires at the 720th hour; a tag that is the key. *)
Definition ge_crypto : Crypto := {|
  hmac_sha256 k m := take 32 (k ++ rev m ++ replicate 32 NUL);
  b64url_encode := hex_prefix;
  b64url_decode := hex_decode;
  body_to_string body := Ok (default [] (get_str §"m" (cb_a body)));
  body_from_slice s :=
    Ok {| cb_t := SEND_MESSAGE_TOOL; cb_a := text_args s; cb_x := Some 720%Z |};
|}.
Definition ge_laws : @CryptoLaws ge_crypto.
Proof. constructor; [apply (@b64_roundtrip _ demo_laws)|apply (@b64_no_dot _ demo_laws)]. Qed.

Definition ge_signer : ActionSigner := {| ring := {| keys := [§"0123456789abcdef"] |} |}.
Definition ge_token : str := Eval vm_compute in default [] (@sign ge_crypto (Some 0%Z) ge_signer §"Go").
Lemma ge_click_resolves_witness :
  @open_action_with ge_crypto sample_json (Some 2592000%Z)
    {| ring := {| keys := [§"fedcba9876543210"; §"0123456789abcdef"] |} |}
    (component_id 3 ge_token) Value.Null
  = Some (GeMessage §"Go").
Proof.
  apply (@ge_click_resolves ge_crypto ge_laws sample_json 0 ge_signer §"0123456789abcdef" §"Go"
    ge_token [§"fedcba9876543210"] [] 3 Value.Null 2592000 [] (GeMessage [])); try reflexivity.
  - vm_compute. discriminate.
  - unfold GE_ACTION_TTL_SECS, u64_max. lia.
  - exists (§"Go"). split; reflexivity.
  - intros k x y body Hk Hs Hd. apply list_elem_of_singleton in Hk as ->.
    vm_compute in Hs. injection Hs as <- <-. vm_compute in Hd. injection Hd as <-.
    vm_compute. discriminate.
Defined.
