(* ===== verification/GeCard.v ===== *)
(** * GeCard: the surfaces Triton builds for Gemini Enterprise are trees

    The builders of [Ge] add components to a flat list and hand ids around.
    [makes m inp out] says of such a step that, of the ids it is given and
    those it adds, each becomes the child of exactly one component it adds or
    is handed on; the steps compose like commands of a program logic. *)

From S2P Require Import Prelude Json Message Correlation A2ui Ge.

Definition id_of (v : Value) : str := default [] (get_str §"id" v).
Definition kids (v : Value) : list str :=
  match value_get §"children" v with Some (Value.Array l) => omap as_str l | _ => [] end.

(** The addresses a component opens, by a function call, and those it frames. *)
Definition called_url (v : Value) : option str :=
  a ← value_get §"action" v;
  f ← value_get §"functionCall" a;
  args ← value_get §"args" f;
  get_str §"url" args.
Definition opens (v : Value) : list str := option_list (called_url v).
Definition frames (v : Value) : list str :=
  if decide (get_str §"component" v = Some §"IFrameUrl") then option_list (get_str §"url" v) else [].

(** Every child stands before its parent. *)
Fixpoint built_from (seen : list str) (vs : list Value) : Prop :=
  match vs with
  | [] => True
  | v :: vs' => (∀ k, k ∈ kids v → k ∈ seen) ∧ built_from (id_of v :: seen) vs'
  end.

(** The ids are distinct, each but [root] is the child of exactly one
    component, and every child stands before its parent. *)
Definition is_tree (flat : list Value) : Prop :=
  NoDup (id_of <$> flat)
  ∧ (id_of <$> flat) ≡ₚ §"root" :: concat (kids <$> flat)
  ∧ built_from [] flat.

Lemma built_from_mono s s' vs : (∀ k, k ∈ s → k ∈ s') → built_from s vs → built_from s' vs.
Proof.
  revert s s'. induction vs as [|v vs IH]; intros s s' Hs; cbn [built_from]; [done|].
  intros [Hk Hv]. split; [eauto|]. eapply IH; [|exact Hv]. set_solver.
Qed.

Lemma built_from_app s vs ws :
  built_from s (vs ++ ws) ↔ built_from s vs ∧ built_from ((id_of <$> vs) ++ s) ws.
Proof.
  revert s. induction vs as [|v vs IH]; intros s; cbn [built_from app fmap list_fmap].
  { split; [done|by intros [_ ?]]. }
  rewrite IH, <- Logic.and_assoc. apply and_iff_compat_l.
  split; apply built_from_mono; cbn [app]; intros k; rewrite !elem_of_app, ?elem_of_cons,
    ?elem_of_app, ?elem_of_cons; tauto.
Qed.

(** ** Ids *)

Definition PREFIXES : list str :=
  [§"t"; §"col"; §"row"; §"lnk"; §"tbl"; §"ic"; §"pb"; §"kv"; §"in"; §"grp"; §"node"; §"chart";
   §"btn"].
Definition names (i : str) (k : nat) : Prop :=
  (∃ p, p ∈ PREFIXES ∧ i = p ++ §"-" ++ dec (Z.of_nat k)) ∨ ∃ tok, i = component_id k tok.

Lemma prefix_shape p : p ∈ PREFIXES → ("-"%char ∉ p) ∧ ∀ r, p ≠ §"a" ++ r.
Proof.
  intros Hp. unfold PREFIXES in Hp. rewrite !elem_of_cons in Hp.
  repeat destruct Hp as [->|Hp]; [..|by apply elem_of_nil in Hp];
    (split; [by apply (bool_decide_unpack _)|by intros r [=]]).
Qed.

Lemma names_split i k :
  names i k →
  (∃ p, p ∈ PREFIXES ∧ split_once "-" i = Some (p, dec (Z.of_nat k)))
  ∨ (∃ tok, split_once "-" i = Some (§"a" ++ dec (Z.of_nat k), tok)).
Proof.
  intros [(p & Hp & ->)|[tok ->]].
  - left. exists p. split; [done|]. apply split_once_app. by apply prefix_shape.
  - right. exists tok. unfold component_id. rewrite app_assoc. apply split_once_app.
    apply not_elem_of_app. split; [by apply (bool_decide_unpack _)|].
    by apply digits_notin, dec_digits.
Qed.

(** An id tells its number. *)
Lemma names_inj i k k' : names i k → names i k' → k = k'.
Proof.
  intros Hk Hk'.
  assert (dec (Z.of_nat k) = dec (Z.of_nat k') → k = k') as Hd by (intros ?%dec_inj; lia).
  apply names_split in Hk as [(p & Hp & E)|[t E]]; apply names_split in Hk' as [(p' & Hp' & E')|[t' E']];
    rewrite E in E'; apply (inj Some) in E'.
  - apply Hd. congruence.
  - apply (f_equal fst) in E'. cbn [fst] in E'. by destruct (proj2 (prefix_shape p Hp) _ E').
  - apply (f_equal fst) in E'. cbn [fst] in E'. symmetry in E'.
    by destruct (proj2 (prefix_shape p' Hp') _ E').
  - apply (f_equal fst) in E'. cbn [fst] in E'. by apply app_inv_head, Hd in E'.
Qed.

Lemma names_NoDup ids ks : Forall2 names ids ks → NoDup ks → NoDup ids.
Proof.
  induction 1 as [|i k ids ks Hi Hr IH]; intros Hn; [constructor|].
  apply NoDup_cons in Hn as [Hk Hn]. constructor; [|auto]. intros Hin.
  apply list_elem_of_lookup_1 in Hin as [x Hx].
  destruct (Forall2_lookup_l _ _ _ _ _ Hr Hx) as (k' & Hk' & Hi').
  apply Hk. rewrite (names_inj _ _ _ Hi Hi'). by eapply list_elem_of_lookup_2.
Qed.

(** The two ids without a number. *)
Lemma names_not_root i k : names i k → i ≠ §"root" ∧ i ≠ §"root-col".
Proof.
  intros Hn. split; intros ->.
  - apply names_split in Hn as [(p & _ & E)|[t E]]; by vm_compute in E.
  - apply names_split in Hn as [(p & Hp & E)|[t E]].
    + assert (split_once "-" §"root-col" = Some (§"root", §"col")) as E' by reflexivity.
      rewrite E' in E. apply (inj Some) in E. apply (f_equal snd) in E. cbn [snd] in E.
      pose proof (dec_digits k) as Hd. rewrite <- E in Hd. by vm_compute in Hd.
    + assert (split_once "-" §"root-col" = Some (§"root", §"col")) as E' by reflexivity.
      rewrite E' in E. apply (inj Some) in E. apply (f_equal fst) in E. cbn [fst] in E. done.
Qed.

(** ** Steps of the construction *)

Section Steps.
(** What a component may open. *)
Variable may_open : str → Prop.

Definition comp_ok (v : Value) : Prop := (∀ u, u ∈ opens v → may_open u) ∧ frames v = [].

Lemma opens_nothing v : opens v ++ frames v = [] → comp_ok v.
Proof using Type.
  intros [Ho Hf]%app_eq_nil. split; [|done]. rewrite Ho. by intros ? ?%elem_of_nil.
Qed.

Definition step (c c' : Card) (inp out : list str) : Prop :=
  ∃ added ks,
    flat c' = flat c ++ added
    ∧ inp ++ (id_of <$> added) ≡ₚ concat (kids <$> added) ++ out
    ∧ built_from inp added
    ∧ Forall comp_ok added
    ∧ Forall2 names (id_of <$> added) ks ∧ NoDup ks
    ∧ Forall (λ k, n c < k ≤ n c') ks
    ∧ n c ≤ n c'.

Definition makes {A} (m : ST Card A) (inp : list str) (out : A → list str) : Prop :=
  ∀ c, step c (m c).2 inp (out (m c).1).

Lemma step_refl c l : step c c l l.
Proof. exists [], []. rewrite !app_nil_r. repeat split; try done; constructor. Qed.

Lemma step_trans c c1 c2 a b d : step c c1 a b → step c1 c2 b d → step c c2 a d.
Proof.
  intros (v1 & k1 & F1 & P1 & B1 & O1 & N1 & D1 & R1 & L1)
    (v2 & k2 & F2 & P2 & B2 & O2 & N2 & D2 & R2 & L2).
  exists (v1 ++ v2), (k1 ++ k2). rewrite !fmap_app, concat_app. repeat split.
  - by rewrite F2, F1, app_assoc.
  - rewrite app_assoc, P1, <- !app_assoc, P2. solve_Permutation.
  - apply built_from_app. split; [done|]. eapply built_from_mono; [|exact B2].
    intros k Hk. assert (k ∈ a ++ (id_of <$> v1)) as Hin by (rewrite P1; set_solver). set_solver.
  - by apply Forall_app.
  - by apply Forall2_app.
  - apply NoDup_app. split; [done|]. split; [|done]. intros k Hk1 Hk2.
    rewrite Forall_forall in R1, R2. specialize (R1 k Hk1). specialize (R2 k Hk2). lia.
  - apply Forall_app. split; eapply Forall_impl; [exact R1|..|exact R2|]; cbn; lia.
  - lia.
Qed.

Lemma step_frame c c' i o f : step c c' i o → step c c' (i ++ f) (o ++ f).
Proof.
  intros (v & k & F & P & B & O & N & D & R & L). exists v, k. repeat split; try done.
  - rewrite (app_assoc _ o f), <- P. solve_Permutation.
  - eapply built_from_mono; [|exact B]. set_solver.
Qed.

Lemma step_perm c c' i o i' o' : i ≡ₚ i' → o ≡ₚ o' → step c c' i o → step c c' i' o'.
Proof.
  intros Hi Ho (v & k & F & P & B & O & N & D & R & L). exists v, k. repeat split; try done.
  - by rewrite <- Hi, <- Ho.
  - eapply built_from_mono; [|exact B]. intros x. by rewrite Hi.
Qed.

(** ** The rules *)

Lemma makes_ret {A} (a : A) inp out : inp ≡ₚ out a → makes (ret a) inp out.
Proof. intros Hp c. apply (step_perm c c inp inp); [done|exact Hp|apply step_refl]. Qed.

Lemma makes_weaken {A} (m : ST Card A) inp inp' out :
  makes m inp out → inp ≡ₚ inp' → makes m inp' out.
Proof. intros Hm Hi c. by eapply step_perm; [exact Hi|done|apply Hm]. Qed.

(** First a step that takes nothing, then the rest with what it leaves. *)
Lemma makes_bind {A B} (m : ST Card A) (k : A → ST Card B) o f out :
  makes m [] o → (∀ a, makes (k a) (o a ++ f) out) → makes (bind m k) f out.
Proof.
  intros Hm Hk c. unfold bind. specialize (Hm c). destruct (m c) as [a c1]. cbn [fst snd] in Hm.
  eapply step_trans; [|apply Hk]. apply (step_frame _ _ _ _ f) in Hm. exact Hm.
Qed.
(** First a step that takes what there is. *)
Lemma makes_then {A B} (m : ST Card A) (k : A → ST Card B) i o out :
  makes m i o → (∀ a, makes (k a) (o a) out) → makes (bind m k) i out.
Proof.
  intros Hm Hk c. unfold bind. specialize (Hm c). destruct (m c) as [a c1]. cbn [fst snd] in Hm.
  eapply step_trans; [exact Hm|apply Hk].
Qed.

Lemma makes_map {A B} (f : A → ST Card B) (g : B → list str) l :
  (∀ a, a ∈ l → makes (f a) [] g) → makes (st_map f l) [] (λ bs, concat (g <$> bs)).
Proof.
  induction l as [|a l IH]; intros Hf; [by apply makes_ret|]. cbn [st_map].
  eapply makes_bind; [apply Hf; set_solver|]. intros b. eapply makes_bind; [apply IH; set_solver|].
  intros bs. apply makes_ret. cbn. rewrite app_nil_r. solve_Permutation.
Qed.

Lemma concat_singletons (l : list str) : concat ((λ i, [i]) <$> l) = l.
Proof. induction l as [|a l IH]; [done|]. cbn. by f_equal. Qed.

Lemma makes_map1 {A} (f : A → ST Card str) l :
  (∀ a, a ∈ l → makes (f a) [] (λ i, [i])) → makes (st_map f l) [] (λ ids, ids).
Proof. intros Hf c. pose proof (makes_map f (λ i, [i]) l Hf c) as Hm.
  cbv beta in Hm. by rewrite concat_singletons in Hm. Qed.

Lemma makes_filter_map {A} (f : A → ST Card (option str)) l :
  (∀ a, a ∈ l → makes (f a) [] option_list) → makes (st_filter_map f l) [] (λ ids, ids).
Proof.
  intros Hf. unfold st_filter_map. eapply makes_then; [by apply (makes_map _ option_list)|].
  intros bs. apply makes_ret. induction bs as [|[b|] bs IH]; cbn; [done|by constructor|done].
Qed.

(** One component under a new number. *)
Lemma step_push c i comp ks :
  names i (S (n c)) → id_of comp = i → kids comp = ks → comp_ok comp →
  step c (push_flat comp (bump c)) ks [i].
Proof.
  intros Hn Hi Hk Hc. exists [comp], [S (n c)]. cbn [push_flat flat bump n fmap list_fmap concat app].
  rewrite Hi, Hk. repeat split.
  - solve_Permutation.
  - by rewrite Hk.
  - by constructor.
  - by constructor.
  - apply NoDup_singleton.
  - constructor; [lia|constructor].
  - lia.
Qed.

Lemma makes_add prefix comp ks :
  prefix ∈ PREFIXES → is_object comp = true → kids comp = ks → comp_ok comp →
  makes (add prefix comp) ks (λ i, [i]).
Proof.
  intros Hp Ho Hk Hc c. unfold add, bind, next_id. cbn [fst snd].
  destruct comp as [| | | | |m]; try done.
  set (i := prefix ++ §"-" ++ dec (Z.of_nat (n (bump c)))).
  assert (∀ k, k ≠ §"id" → value_get k (set_key §"id" (js i) (Value.Object m))
    = value_get k (Value.Object m)) as Hget.
  { intros k Hne. cbn [set_key value_get]. by rewrite Map.get_insert_ne. }
  apply step_push.
  - left. by exists prefix.
  - unfold id_of, get_str. cbn [set_key value_get]. by rewrite Map.get_insert_eq.
  - rewrite <- Hk. unfold kids. by rewrite Hget.
  - destruct Hc as [Hc Hf]. split.
    + intros u. unfold opens, called_url. rewrite !Hget by done. apply Hc.
    + unfold frames, get_str. rewrite !Hget by done. exact Hf.
Qed.

(** A step that only turns the counters. *)
Lemma step_count c c' l : flat c' = flat c → n c ≤ n c' → step c c' l l.
Proof.
  intros Hf Hn. exists [], []. rewrite !app_nil_r. repeat split; try done; try constructor.
Qed.
End Steps.

(** ** The components *)

Lemma omap_as_str_jss (l : list str) : omap as_str (js <$> l) = l.
Proof. induction l as [|a l IH]; [done|]. cbn. by f_equal. Qed.

Ltac no_opens := by apply opens_nothing.

Section Components.
Context `{Crypto} `{UrlParse}.
Variable cell : HttpHosts.
Variable now : option Z.
Variable signer : ActionSigner.
Variable opts : GeOptions.

Definition link_on (u : str) : Prop := open_url opts = true ∧ is_allowed_link cell u = true.
Local Abbreviation makes := (makes link_on).

Lemma makes_leaf prefix l :
  bool_decide (prefix ∈ PREFIXES) = true → kids (json_object l) = [] →
  opens (json_object l) ++ frames (json_object l) = [] →
  makes (add prefix (json_object l)) [] (λ i, [i]).
Proof.
  intros Hp Hk Ho. apply makes_add; [by apply bool_decide_eq_true in Hp|done|done|].
  by apply opens_nothing.
Qed.

Lemma text_makes t hint : makes (text t hint) [] (λ i, [i]).
Proof. by apply makes_leaf. Qed.
Lemma column_makes cs : makes (column cs) cs (λ i, [i]).
Proof.
  apply makes_add; [by apply (bool_decide_unpack _)|done| |no_opens].
  unfold kids. cbn. apply omap_as_str_jss.
Qed.
Lemma row_makes cs : makes (row cs) cs (λ i, [i]).
Proof.
  apply makes_add; [by apply (bool_decide_unpack _)|done| |no_opens].
  unfold kids. cbn. apply omap_as_str_jss.
Qed.
Lemma button_rows_makes ids : makes (button_rows ids) ids (λ rs, rs).
Proof.
  unfold button_rows.
  assert (makes (st_map row (chunks2 ids)) (concat (chunks2 ids)) (λ rs, rs)) as Hm.
  { induction (chunks2 ids) as [|ch chs IH]; [by apply makes_ret|]. cbn [st_map concat].
    intros c. unfold bind. pose proof (row_makes ch c) as Hr. destruct (row ch c) as [r c1].
    specialize (IH c1). destruct (st_map row chs c1) as [rs c2]. cbn [fst snd ret] in *.
    pose proof (step_frame _ _ _ _ _ (concat chs) Hr) as Hr'.
    pose proof (step_frame _ _ _ _ _ [r] IH) as IH'.
    eapply step_trans; [exact Hr'|]. eapply step_perm; [..|exact IH']; solve_Permutation. }
  assert (∀ k l, length l ≤ k → concat (@chunks2 str l) = l) as Hc.
  { induction k as [|k IHk]; intros [|a [|b l]]; cbn; try done; try lia.
    intros Hl. by rewrite IHk by lia. }
  by rewrite (Hc _ _ (Nat.le_refl _)) in Hm.
Qed.

Lemma opt_text_makes t hint : makes (opt_text t hint) [] (λ l, l).
Proof.
  unfold opt_text. destruct t as [t|]; [|by apply makes_ret].
  eapply makes_then; [apply text_makes|]. intros i. by apply makes_ret.
Qed.
Lemma nonempty_text_makes t hint : makes (nonempty_text t hint) [] (λ l, l).
Proof.
  unfold nonempty_text. destruct (is_empty t); [by apply makes_ret|].
  eapply makes_then; [apply text_makes|]. intros i. by apply makes_ret.
Qed.

Lemma signed_step c tok label variant name context :
  step link_on c (push_flat (json_object ((§"id", js (component_id (S (n c)) tok))
      :: button_comp label variant (event name context))) (bump c))
    [] [component_id (S (n c)) tok].
Proof. apply step_push; [right; by eexists|done|done|no_opens]. Qed.

Lemma send_button_makes label m variant : makes (send_button now signer label m variant) [] option_list.
Proof.
  intros c. unfold send_button. destruct (sign now signer m) as [tok|]; [|apply step_refl].
  apply signed_step.
Qed.
Lemma doc_button_makes label doc : makes (doc_button now signer label doc) [] option_list.
Proof.
  intros c. unfold doc_button. destruct doc as [[[l s] d] u]. unfold sign_open_doc.
  destruct (mint _ _ _ _ _) as [tok|]; cbn [mbind option_bind].
  - apply signed_step.
  - apply step_count; [done|cbn; lia].
Qed.
Lemma url_button_makes label url : makes (url_button cell opts label url) [] option_list.
Proof.
  unfold url_button. destruct (open_url opts) eqn:Eo; [|by apply makes_ret].
  destruct (is_allowed_link cell url) eqn:El; [|by apply makes_ret]. cbn [negb orb].
  apply (makes_then _ _ _ _ (λ i, [i])); [|intros i; by apply makes_ret].
  apply makes_add; [by apply (bool_decide_unpack _)|done|done|].
  split; [|done]. intros u Hu. change (u ∈ [url]) in Hu. by apply list_elem_of_singleton in Hu as ->.
Qed.
Lemma action_button_makes label a variant :
  makes (action_button cell now signer opts label a variant) [] option_list.
Proof. destruct a; [apply send_button_makes|apply url_button_makes]. Qed.
Lemma opt_action_makes label a variant :
  makes (opt_action cell now signer opts label a variant) [] option_list.
Proof. destruct a; [apply action_button_makes|by apply makes_ret]. Qed.

(** *** Items, chips and forms *)

Lemma list_item_makes it : makes (list_item cell now signer opts it) [] (λ i, [i]).
Proof.
  unfold list_item.
  apply (makes_then _ _ _ _ (λ ht, option_list ht.1 ++ option_list ht.2)).
  { destruct (li_action it) as [a|]; [|by apply makes_ret].
    destruct (li_action_label it) as [cap|];
      (eapply makes_then; [apply action_button_makes|]; intros o; apply makes_ret; cbn;
       by rewrite ?app_nil_r). }
  intros [hd tl]. cbn [fst snd].
  apply (makes_then _ _ _ _ (λ h, h :: option_list tl)).
  { destruct hd as [h|]; [by apply makes_ret|].
    intros c. apply (step_frame _ _ _ _ _ (option_list tl) (text_makes _ _ c)). }
  intros h. eapply makes_bind; [apply opt_text_makes|]. intros ds.
  apply (makes_then _ _ _ _ (λ i, i :: option_list tl)).
  { intros c. eapply step_perm; [|done|
      apply (step_frame _ _ _ _ _ (option_list tl) (column_makes (h :: ds) c))].
    solve_Permutation. }
  intros col. destruct tl as [btn|]; [apply row_makes|by apply makes_ret].
Qed.

Lemma chip_buttons_makes chips : makes (chip_buttons now signer chips) [] (λ l, l).
Proof.
  eapply makes_then; [|intros; apply button_rows_makes].
  apply makes_filter_map. intros; apply send_button_makes.
Qed.
Lemma option_buttons_makes tpl key os : makes (option_buttons now signer tpl key os) [] (λ l, l).
Proof.
  eapply makes_then; [|intros; apply button_rows_makes].
  apply makes_filter_map. intros o _. destruct (fill_template _ _); [|by apply makes_ret].
  apply send_button_makes.
Qed.

Lemma template_form_makes title fields tpl preview :
  makes (template_form now signer title fields tpl preview) [] (λ l, l).
Proof.
  unfold template_form. eapply makes_bind; [apply nonempty_text_makes|]. intros ids.
  destruct (only_select tpl fields) as [f|].
  - eapply makes_bind; [apply option_buttons_makes|]. intros rows. apply makes_ret. solve_Permutation.
  - cbv zeta. destruct preview as [label|]; [|apply makes_ret; by rewrite app_nil_r].
    eapply makes_bind; [apply text_makes|]. intros i. apply makes_ret. solve_Permutation.
Qed.

Lemma field_input_makes path f : makes (add §"in" (field_input path f)) [] (λ i, [i]).
Proof.
  unfold field_input.
  destruct (f_kind f); try (by apply makes_leaf);
    (destruct (placeholder f); (apply makes_add; [by apply (bool_decide_unpack _)|done|done|no_opens])).
Qed.

(** The inputs of a form are the last components. *)
Lemma inputs_added ns fields c :
  let r := st_map (λ f, add §"in" (field_input (field_path ns f) f)) fields c in
  ∃ added, flat r.2 = flat c ++ added ∧ length added = length r.1 ∧ n c ≤ n r.2.
Proof.
  revert c. induction fields as [|f fs IH]; intros c.
  { exists []. cbn. by rewrite app_nil_r. }
  cbn [st_map]. unfold bind.
  assert (∃ i v, add §"in" (field_input (field_path ns f) f) c = (i, push_flat v (bump c)))
    as (i & v & ->) by (eexists _, _; reflexivity).
  specialize (IH (push_flat v (bump c))). destruct (st_map _ fs _) as [ids c2]. cbn [fst snd] in *.
  destruct IH as (added & Hf & Hl & Hn). cbn [push_flat bump flat n] in Hf, Hn.
  exists (v :: added). cbn [ret fst snd length]. rewrite Hf, <- app_assoc. repeat split; [cbn; lia|lia].
Qed.

Lemma field_form_makes fields tpl label : makes (field_form now signer fields tpl label) [] (λ l, l).
Proof.
  intros c. unfold field_form, next_form, bind. cbv beta iota zeta.
  set (c0 := {| flat := flat c; n := n c; forms := S (forms c) |}).
  set (ns := §"/f" ++ _).
  destruct (sign_template _ _ _ _) as [tok|].
  - assert (makes (st_map (λ f, add §"in" (field_input (field_path ns f) f)) fields) []
      (λ ids, ids)) as Hm by (apply makes_map1; intros; apply field_input_makes).
    specialize (Hm c0). destruct (st_map _ fields c0) as [ids c1]. cbn [fst snd] in *.
    eapply step_trans; [apply (step_count _ c c0); [done|cbn; lia]|].
    eapply step_trans; [exact Hm|].
    pose proof (step_frame _ _ _ _ _ ids (signed_step c1 tok
      (if is_empty label then §"Send" else label) §"flat" §"submit" (form_context ns fields))) as Hs.
    eapply step_perm; [..|exact Hs]; cbn [app bump n]; solve_Permutation.
  - pose proof (inputs_added ns fields c0) as Hin. cbv zeta in Hin.
    destruct (st_map _ fields c0) as [ids c1]. cbn [fst snd] in *.
    destruct Hin as (added & Hf & Hl & Hn). unfold drop_last.
    eapply step_trans; [|apply template_form_makes].
    apply step_count; [|done]. cbn [flat]. rewrite Hf, length_app, <- Hl.
    replace (length (flat c0) + length added - length added) with (length (flat c0)) by lia.
    by rewrite take_app_length.
Qed.

Lemma kids_children (l : list (str * Value)) ks :
  value_get §"children" (json_object l) = Some (jss ks) → kids (json_object l) = ks.
Proof. unfold kids. intros ->. apply omap_as_str_jss. Qed.

Lemma form_group_makes label note k g :
  makes (form_group now signer opts label note k g) [] (λ i, [i]).
Proof.
  unfold form_group. apply (makes_then _ _ _ _ (λ l, l)).
  { destruct (form_fields opts); [apply field_form_makes|apply template_form_makes]. }
  intros inner. eapply makes_bind; [apply opt_text_makes|]. intros notes.
  eapply makes_weaken; [|apply Permutation_app_comm].
  apply makes_add; [by apply (bool_decide_unpack _)|done|by apply kids_children|no_opens].
Qed.

Lemma form_groups_makes title groups label note :
  makes (form_groups now signer opts title groups label note) [] (λ l, l).
Proof.
  unfold form_groups. eapply makes_bind; [apply opt_text_makes|]. intros ids.
  eapply makes_bind; [apply makes_map1; intros [k g] _; apply form_group_makes|].
  intros gs. apply makes_ret. solve_Permutation.
Qed.

(** *** Trees *)

Lemma panel_kids nd inner : kids (panel nd inner) = inner.
Proof.
  unfold panel, set_if. destruct (negb _); unfold kids; cbn; apply omap_as_str_jss.
Qed.
Lemma panel_opens nd inner : opens (panel nd inner) ++ frames (panel nd inner) = [].
Proof. unfold panel, set_if. by destruct (negb _). Qed.

Lemma tree_node_eq nd :
  tree_node cell now signer opts nd
  = (if is_empty (n_children nd) && is_empty (n_chips nd) then
       i ←ₛ (if n_gap nd then ret None
             else opt_action cell now signer opts (node_line nd) (n_action nd) §"basic");
       match i with Some i => ret i | None => text (node_line nd) §"body2" end
     else
       rows ←ₛ chip_buttons now signer (n_chips nd);
       a ←ₛ opt_action cell now signer opts (action_caption nd) (n_action nd) §"basic";
       ks ←ₛ st_map (tree_node cell now signer opts) (n_children nd);
       let inner := rows ++ option_list a ++ ks in
       if is_empty inner then text (node_line nd) §"body2"
       else add §"node" (panel nd inner)).
Proof. by destruct nd. Qed.

Lemma tree_node_makes nd : makes (tree_node cell now signer opts nd) [] (λ i, [i]).
Proof.
  induction nd as [nd IH] using TreeNode_nested_ind.
  rewrite tree_node_eq.
  destruct (is_empty (n_children nd) && is_empty (n_chips nd)).
  - eapply makes_then.
    { instantiate (1 := option_list). destruct (n_gap nd); [by apply makes_ret|apply opt_action_makes]. }
    intros [i|]; [by apply makes_ret|apply text_makes].
  - eapply makes_bind; [apply chip_buttons_makes|]. intros rows.
    eapply makes_bind; [apply opt_action_makes|]. intros a.
    eapply makes_bind; [apply makes_map1|].
    { intros m Hm. rewrite Forall_forall in IH. by apply IH. }
    intros ks. cbv zeta. set (inner := rows ++ option_list a ++ ks).
    assert (ks ++ option_list a ++ rows ++ [] ≡ₚ inner) as Hp by (unfold inner; solve_Permutation).
    eapply makes_weaken; [|symmetry; exact Hp].
    destruct (is_empty inner) eqn:E.
    + assert (inner = []) as -> by (by destruct inner). apply text_makes.
    + apply makes_add; [by apply (bool_decide_unpack _)|unfold panel, set_if; by destruct (negb _)
        |apply panel_kids|].
      apply opens_nothing, panel_opens.
Qed.

Lemma icon_makes icon color : makes (add §"ic" (icon_comp icon color)) [] (λ i, [i]).
Proof. by apply makes_leaf. Qed.

Lemma icon_row_makes icon color t hint :
  makes (ic ←ₛ add §"ic" (icon_comp icon color); tx ←ₛ text t hint; row [ic; tx]) [] (λ i, [i]).
Proof.
  eapply makes_bind; [apply icon_makes|]. intros ic. eapply makes_bind; [apply text_makes|].
  intros tx. eapply makes_weaken; [apply row_makes|]. solve_Permutation.
Qed.

Lemma table_makes prefix title cols rows :
  bool_decide (prefix ∈ PREFIXES) = true →
  makes (add prefix (set_caption title (table_comp cols rows))) [] (λ i, [i]).
Proof.
  intros Hp. apply bool_decide_eq_true in Hp.
  destruct title; (apply makes_add; [done|done|done|no_opens]).
Qed.

(** A heading and what stands under it. *)
Lemma headed_makes (m k : ST Card (list str)) :
  makes m [] (λ l, l) → makes k [] (λ l, l) →
  makes (ids ←ₛ m; rest ←ₛ k; ret (ids ++ rest)) [] (λ l, l).
Proof.
  intros Hm Hk. eapply makes_bind; [exact Hm|]. intros ids. eapply makes_bind; [exact Hk|].
  intros rest. apply makes_ret. solve_Permutation.
Qed.
Lemma single_makes (m : ST Card str) :
  makes m [] (λ i, [i]) → makes (i ←ₛ m; ret [i]) [] (λ l, l).
Proof. intros Hm. eapply makes_then; [exact Hm|]. intros i. by apply makes_ret. Qed.

Lemma component_makes comp : makes (component cell now signer opts comp) [] (λ l, l).
Proof.
  induction comp; cbn [component]; try (by apply makes_ret); try done.
  - apply single_makes, text_makes.
  - destruct action; [|by apply makes_ret]. eapply makes_then; [apply action_button_makes|].
    intros i. by apply makes_ret.
  - apply single_makes, text_makes.
  - destruct submit; [|by apply makes_ret]. eapply makes_bind; [apply text_makes|]. intros p.
    eapply makes_bind; [apply option_buttons_makes|]. intros rows. apply makes_ret. solve_Permutation.
  - destruct send_template; [|by apply makes_ret]. unfold form_component.
    destruct (form_fields opts).
    + apply headed_makes; [apply nonempty_text_makes|apply field_form_makes].
    + apply template_form_makes.
  - apply headed_makes; [apply opt_text_makes|]. apply makes_map1. intros; apply list_item_makes.
  - apply single_makes. by apply table_makes.
  - apply headed_makes; [apply opt_text_makes|apply chip_buttons_makes].
  - apply headed_makes; [apply opt_text_makes|]. apply makes_map1. intros; apply tree_node_makes.
  - unfold header_component. cbv zeta. destruct (is_empty _); [by apply makes_ret|].
    apply single_makes, text_makes.
  - apply form_groups_makes.
  - cbv zeta. pose proof (icon_row_makes (tone_icon tone).1 (tone_icon tone).2
      (match filter_nonempty title with Some h => h ++ §": " ++ text | None => text end) §"body2") as Hr.
    intros c. specialize (Hr c). revert Hr. unfold bind, ret.
    destruct (add §"ic" _ c) as [ic c1]. destruct (Ge.text _ _ c1) as [tx c2].
    by destruct (row _ c2).
  - eapply makes_bind; [apply opt_text_makes|]. intros ids.
    eapply makes_bind; [destruct fraction; by apply makes_leaf|]. intros bar.
    eapply makes_bind; [apply makes_map1; intros st _; apply icon_row_makes|].
    intros rows. apply makes_ret. solve_Permutation.
  - apply single_makes. by apply table_makes.
Qed.
End Components.

(** ** The card *)

Section Cards.
Context `{Crypto} `{UrlParse} `{SerdeA2ui}.
Variable cell : HttpHosts.
Variable now : option Z.
Variable doc_canvas : bool.
Variable signer : ActionSigner.
Variable opts : GeOptions.
Local Abbreviation makes := (makes (link_on cell opts)).

(** The ids the loop holds. *)
Definition pool (b : Build) : list str := root_children b ++ action_btn_ids b ++ source_btn_ids b.

Lemma pool_add_root ids b : pool (add_root ids b) ≡ₚ ids ++ pool b.
Proof. unfold pool. cbn [add_root root_children action_btn_ids source_btn_ids]. solve_Permutation. Qed.
Lemma pool_add_actions ids b : pool (add_actions ids b) ≡ₚ ids ++ pool b.
Proof. unfold pool. cbn [add_actions root_children action_btn_ids source_btn_ids]. solve_Permutation. Qed.
Lemma pool_add_source i b : pool (add_source i b) ≡ₚ [i] ++ pool b.
Proof. unfold pool. cbn [add_source root_children action_btn_ids source_btn_ids]. solve_Permutation. Qed.

Lemma legacy_button_makes c : makes (legacy_button now signer c) [] (λ i, [i]).
Proof.
  unfold legacy_button. cbv zeta. eapply makes_then.
  { instantiate (1 := option_list).
    match goal with |- context [match ?q with Some _ => _ | None => ret None end] => destruct q end;
      [apply send_button_makes|by apply makes_ret]. }
  intros [i|]; [by apply makes_ret|]. by apply makes_leaf.
Qed.

Lemma source_buttons_makes items b : makes (source_buttons cell now signer items b) (pool b) pool.
Proof.
  revert b. induction items as [|it items IH]; intros b; cbn [source_buttons]; [by apply makes_ret|].
  destruct (get_str §"resource" it) as [url|]; [|apply IH].
  destruct (is_allowed_link cell url); [|apply IH]. destruct (split_skill_id _) as [skill doc].
  eapply makes_bind; [apply doc_button_makes|]. intros i. cbv zeta.
  set (b' := match i with Some i => add_source i b | None => b end).
  assert (option_list i ++ pool b ≡ₚ pool b') as Hp.
  { destruct i; [symmetry; apply pool_add_source|done]. }
  eapply makes_weaken; [|symmetry; exact Hp].
  destruct (2 <=? _)%nat; [by apply makes_ret|apply IH].
Qed.

(** Ids that join the root, or the buttons. *)
Lemma add_ids_makes (m : ST Card (list str)) (put : list str → Build → Build) b :
  makes m [] (λ l, l) → (∀ ids, pool (put ids b) ≡ₚ ids ++ pool b) →
  makes (ids ←ₛ m; ret (put ids b)) (pool b) pool.
Proof.
  intros Hm Hp. eapply makes_bind; [exact Hm|]. intros ids. apply makes_ret. symmetry. apply Hp.
Qed.
Lemma render_root_makes comp b :
  makes (ids ←ₛ render cell now signer opts comp; ret (add_root ids b)) (pool b) pool.
Proof. apply add_ids_makes; [apply component_makes|]. intros. apply pool_add_root. Qed.

Lemma chart_makes c v : chart_comp c = Some v → makes (add §"chart" v) [] (λ i, [i]).
Proof.
  unfold chart_comp. intros Hc.
  assert (∃ l, v = json_object l ∧ kids v = [] ∧ opens v ++ frames v = []
    ∨ ∃ url t, v = set_key §"description" t (json_object [(§"component", js §"Image");
        (§"url", js url); (§"fit", js §"contain")])) as (l & [(-> & Hk & Ho)|(url & t & ->)]).
  { destruct (value_get §"vega_spec" c) as [[]|];
      try (destruct (get_str §"image_url" c) as [url|]; [|done];
           cbn [mbind option_bind] in Hc; apply (inj Some) in Hc as <-;
           destruct (get_str §"title" c) as [t|];
           [exists []; right; by eexists _, _|eexists; left; repeat split]).
    apply (inj Some) in Hc as <-. eexists. left. repeat split. }
  - apply makes_add; [by apply (bool_decide_unpack _)|done|done|].
    by apply opens_nothing.
  - apply makes_add; [by apply (bool_decide_unpack _)|done|done|no_opens].
Qed.

Lemma card_component_makes c b :
  makes (card_component cell now doc_canvas signer opts c b) (pool b) pool.
Proof.
  unfold card_component, add_parsed. cbv zeta.
  assert (makes (ret b) (pool b) pool) as Hret by (by apply makes_ret).
  assert (∀ comp, makes (ids ←ₛ render cell now signer opts comp; ret (add_root ids b)) (pool b) pool)
    as Hroot by (intros; apply render_root_makes).
  repeat case_decide; try done.
  - destruct (chart_comp c) as [v|] eqn:E; [|done].
    eapply makes_bind; [by apply (chart_makes c)|]. intros i. apply makes_ret.
    symmetry. apply (pool_add_root [i]).
  - assert (makes (i ←ₛ legacy_button now signer c; ret (add_actions [i] b)) (pool b) pool) as Hl.
    { eapply makes_bind; [apply legacy_button_makes|]. intros i. apply makes_ret.
      symmetry. apply (pool_add_actions [i]). }
    destruct (value_get §"action" c) as [[]|]; try done. destruct (parse cell c); [|done].
    apply add_ids_makes; [apply component_makes|]. intros. apply pool_add_actions.
  - destruct doc_canvas; [|done]. destruct (value_get §"items" c ≫= as_array); [|done].
    apply source_buttons_makes.
  - destruct (embed opts); [|destruct (parse cell c); [apply Hroot|done]].
    destruct (parse cell c) as [[]|]; try apply Hroot; try done.
    destruct (is_allowed_link cell _); [|apply Hroot]. by apply makes_ret.
  - destruct (parse cell c); [apply Hroot|done].
Qed.

Lemma card_loop_makes cs b : makes (card_loop cell now doc_canvas signer opts cs b) (pool b) pool.
Proof.
  revert b. induction cs as [|c cs IH]; intros b; cbn [card_loop]; [by apply makes_ret|].
  eapply makes_then; [apply card_component_makes|]. intros b'. apply IH.
Qed.

Lemma card_body_makes cs : makes (card_body cell now doc_canvas signer opts cs) [] fst.
Proof.
  unfold card_body. apply (makes_then _ _ _ _ pool).
  { apply (card_loop_makes cs empty_build). }
  intros b. unfold pool. intros c. unfold bind, ret.
  pose proof (button_rows_makes cell opts (action_btn_ids b) c) as Ha.
  destruct (button_rows (action_btn_ids b) c) as [ar c1].
  pose proof (button_rows_makes cell opts (source_btn_ids b) c1) as Hs.
  destruct (button_rows (source_btn_ids b) c1) as [sr c2]. cbn [fst snd] in *.
  apply (step_frame _ _ _ _ _ (root_children b ++ source_btn_ids b)) in Ha.
  apply (step_frame _ _ _ _ _ (root_children b ++ ar)) in Hs.
  apply (step_trans _ _ c1 _ _ (source_btn_ids b ++ root_children b ++ ar)).
  - eapply step_perm; [..|exact Ha]; solve_Permutation.
  - eapply step_perm; [..|exact Hs]; solve_Permutation.
Qed.

(** *** Canvases *)

Definition canvas_ok (x : str * str * option Z) : Prop :=
  embed opts = true ∧ is_allowed_link cell x.1.1 = true.

Lemma source_buttons_canvases items b c :
  canvases (source_buttons cell now signer items b c).1 = canvases b.
Proof.
  revert b c. induction items as [|it items IH]; intros b c; cbn [source_buttons]; [done|].
  destruct (get_str §"resource" it) as [url|]; [|apply IH].
  destruct (is_allowed_link cell url); [|apply IH]. destruct (split_skill_id _) as [skill doc].
  unfold bind. destruct (doc_button _ _ _ _ c) as [i c1].
  destruct (2 <=? _)%nat; [|rewrite IH]; by destruct i.
Qed.

Lemma card_component_canvases v b c :
  Forall canvas_ok (canvases b) →
  Forall canvas_ok (canvases (card_component cell now doc_canvas signer opts v b c).1).
Proof.
  intros Hb. unfold card_component, add_parsed, bind, ret. cbv zeta.
  repeat case_decide; try done.
  - destruct (chart_comp v); [|done]. by destruct (add _ _ c).
  - destruct (value_get §"action" v) as [[]|]; try (by destruct (legacy_button _ _ _ c)).
    destruct (parse cell v); [|done]. by destruct (render _ _ _ _ _ c).
  - destruct doc_canvas; [|done]. destruct (value_get §"items" v ≫= as_array); [|done].
    by rewrite source_buttons_canvases.
  - destruct (embed opts) eqn:Ee; [|destruct (parse cell v); [by destruct (render _ _ _ _ _ c)|done]].
    destruct (parse cell v) as [comp|]; [|done].
    destruct comp; try (by destruct (render _ _ _ _ _ c)).
    destruct (is_allowed_link cell _) eqn:El; [|by destruct (render _ _ _ _ _ c)].
    cbn [fst add_canvas canvases]. apply Forall_app. split; [done|]. by repeat constructor.
  - destruct (parse cell v); [|done]. by destruct (render _ _ _ _ _ c).
Qed.

Lemma card_loop_canvases cs b c :
  Forall canvas_ok (canvases b) →
  Forall canvas_ok (canvases (card_loop cell now doc_canvas signer opts cs b c).1).
Proof.
  revert b c. induction cs as [|v cs IH]; intros b c Hb; cbn [card_loop]; [done|]. unfold bind.
  pose proof (card_component_canvases v b c Hb) as Hv.
  destruct (card_component _ _ _ _ _ v b c) as [b' c']. by apply IH.
Qed.

(** ** Whole surfaces *)

(** A list of components under a root column. *)
Lemma rooted_tree vs children :
  (id_of <$> vs) ≡ₚ concat (kids <$> vs) ++ children →
  NoDup (id_of <$> vs) → built_from [] vs →
  Forall (λ i, i ≠ §"root" ∧ i ≠ §"root-col") (id_of <$> vs) →
  is_tree (vs ++ root_comps children).
Proof.
  intros Hp Hn Hb Hr. rewrite Forall_forall in Hr.
  assert (id_of <$> root_comps children = [§"root-col"; §"root"]) as Hids by reflexivity.
  assert (kids <$> root_comps children = [children; [§"root-col"]]) as Hk.
  { unfold root_comps. cbn [fmap list_fmap]. f_equal. apply omap_as_str_jss. }
  split; [|split].
  - rewrite fmap_app, Hids. apply NoDup_app. split; [done|]. split.
    + intros i Hi. destruct (Hr i Hi). set_solver.
    + apply (bool_decide_unpack _). vm_compute. exact I.
  - rewrite !fmap_app, concat_app, Hids, Hk, Hp. cbn [concat app]. solve_Permutation.
  - apply built_from_app. split; [done|]. cbn [built_from root_comps].
    rewrite app_nil_r. split; [|split; [|done]].
    + intros k. change (kids _) with (omap as_str (js <$> children)) at 1.
      rewrite omap_as_str_jss, Hp. set_solver.
    + intros k Hk'. change (k ∈ [§"root-col"]) in Hk'. apply list_elem_of_singleton in Hk' as ->.
      by left.
Qed.

(** Every address is one the link policy allows, opened under the one switch and
    framed under the other. *)
Definition links_allowed (vs : list Value) : Prop :=
  ∀ v u, v ∈ vs →
    (u ∈ opens v → is_allowed_link cell u = true ∧ open_url opts = true)
    ∧ (u ∈ frames v → is_allowed_link cell u = true ∧ embed opts = true).

Lemma frame_tree url title h b :
  is_tree (frame_flat url title h b)
  ∧ ∀ v u, v ∈ frame_flat url title h b → ¬ (u ∈ opens v) ∧ (u ∈ frames v → u = url).
Proof.
  split.
  - split; [|split].
    + apply (bool_decide_unpack _). vm_compute. exact I.
    + change (id_of <$> _) with [§"frame"; §"root"]. change (concat _) with [§"frame"].
      solve_Permutation.
    + repeat split; intros k Hk; [by apply elem_of_nil in Hk|].
      change (k ∈ [§"frame"]) in Hk. change (k ∈ [§"frame"]). done.
  - intros v u Hv. unfold frame_flat in Hv.
    apply elem_of_cons in Hv as [->|Hv]; [|apply list_elem_of_singleton in Hv as ->];
      (split; [apply not_elem_of_nil|]; intros Hu).
    + change (u ∈ [url]) in Hu. by apply list_elem_of_singleton in Hu.
    + by apply elem_of_nil in Hu.
Qed.

Lemma card_surfaces_ok cs :
  Forall (λ vs, is_tree vs ∧ links_allowed vs) (card_surfaces cell now doc_canvas signer opts cs).
Proof.
  unfold card_surfaces. pose proof (card_body_makes cs empty_card) as Hm.
  assert (Forall canvas_ok (card_body cell now doc_canvas signer opts cs empty_card).1.2) as Hc.
  { unfold card_body, bind, ret. pose proof (card_loop_canvases cs empty_build empty_card) as Hl.
    destruct (card_loop _ _ _ _ _ cs _ _) as [b c]. destruct (button_rows _ c) as [ar c1].
    destruct (button_rows _ c1) as [sr c2]. by apply Hl. }
  destruct (card_body _ _ _ _ _ cs empty_card) as [[children canvs] c]. cbn [fst snd] in *.
  apply Forall_app. split.
  - destruct (is_empty children); constructor; [|constructor].
    destruct Hm as (vs & ks & Hf & Hp & Hb & Ho & Hn & Hd & _). cbn [flat empty_card app] in Hf, Hp.
    rewrite Hf. split.
    + apply rooted_tree; [done|by eapply names_NoDup|done|].
      apply Forall_forall. intros i Hi. apply list_elem_of_lookup_1 in Hi as [x Hx].
      destruct (Forall2_lookup_l _ _ _ _ _ Hn Hx) as (k & _ & Hk). by eapply names_not_root.
    + intros v u Hv. apply elem_of_app in Hv as [Hv|Hv].
      * rewrite Forall_forall in Ho. destruct (Ho v Hv) as [Hl Hfr]. rewrite Hfr.
        split; [|by intros ?%elem_of_nil]. intros Hu. by destruct (Hl u Hu).
      * unfold root_comps in Hv. rewrite !elem_of_cons in Hv.
        destruct Hv as [->|[->|Hv]]; [split; by intros ?%elem_of_nil..|by apply elem_of_nil in Hv].
  - apply Forall_fmap, Forall_forall. intros [[url title] h] Hx. rewrite Forall_forall in Hc.
    destruct (Hc _ Hx) as [He Hl]. cbn in He, Hl. destruct (frame_tree url title (default 640%Z h) false) as [Ht Hf].
    split; [done|]. intros v u Hv. destruct (Hf v u Hv) as [Hno Hu]. split; [done|]. by intros ->%Hu.
Qed.
End Cards.

(** *** A document in native widgets *)

Definition leaf_comp (v : Value) : Prop := is_object v = true ∧ kids v = [].

Lemma document_id_inj j k : document_id j = document_id k → j = k.
Proof. unfold document_id. intros E%app_inv_head%dec_inj. lia. Qed.

Lemma document_leaves structured title : Forall leaf_comp (document_comps structured title).
Proof.
  unfold document_comps. cbv zeta.
  assert (∀ t h, leaf_comp (text_comp t h)) as Ht by done.
  constructor; [done|]. case_match; [by repeat constructor|].
  destruct (value_get §"instances" structured ≫= values_first) as [inst|]; [|done].
  rewrite !Forall_app. repeat split.
  - unfold document_facts. case_match; [|done]. cbv zeta. case_match; by repeat constructor.
  - unfold document_body. case_match; [|done]. case_match; by repeat constructor.
  - unfold document_events. case_match; [|done]. case_match; [done|].
    constructor; [done|]. apply Forall_fmap, Forall_true. done.
Qed.

Lemma numbered_facts (f : nat → str) comps :
  Forall leaf_comp comps →
  let vs := imap (λ j v, set_key §"id" (js (f j)) v) comps in
  id_of <$> vs = imap (λ j _, f j) comps ∧ Forall (λ v, kids v = []) vs.
Proof.
  intros Hl. revert f. induction Hl as [|v comps [Ho Hk] Hl IH]; intros f; [done|].
  destruct (IH (f ∘ S)) as [IH1 IH2]. destruct v as [| | | | |m]; try done.
  cbn [imap fmap list_fmap]. split.
  - f_equal; [|exact IH1]. unfold id_of, get_str. cbn [set_key value_get]. by rewrite Map.get_insert_eq.
  - constructor; [|exact IH2]. rewrite <- Hk. unfold kids. cbn [set_key value_get].
    by rewrite Map.get_insert_ne.
Qed.

Lemma leaves_built seen vs : Forall (λ v, kids v = []) vs → built_from seen vs.
Proof.
  intros Hv. revert seen. induction Hv as [|v vs Hk Hv IH]; intros seen; [done|].
  split; [|apply IH]. intros k. rewrite Hk. by intros ?%elem_of_nil.
Qed.

Lemma material_tree structured title : is_tree (material_flat structured title).
Proof.
  unfold material_flat, number_comps. cbv zeta. set (comps := document_comps structured title).
  destruct (numbered_facts document_id comps (document_leaves structured title)) as [Hi Hk].
  cbv zeta in Hi, Hk. set (vs := imap _ comps) in *.
  assert (concat (kids <$> vs) = []) as Hc.
  { clear Hi. induction Hk as [|v l Hv Hl IH]; [done|]. cbn. by rewrite Hv. }
  apply rooted_tree.
  - by rewrite Hi, Hc.
  - rewrite Hi. apply NoDup_alt. intros a b x Ha Hb. rewrite list_lookup_imap in Ha, Hb.
    destruct (comps !! a); [|done]. destruct (comps !! b); [|done].
    cbn [fmap option_fmap option_map] in Ha, Hb. apply (inj Some) in Ha, Hb.
    apply document_id_inj. by rewrite Ha, Hb.
  - by apply leaves_built.
  - rewrite Hi. apply Forall_forall. intros i Hin. apply list_elem_of_lookup_1 in Hin as [x Hx].
    rewrite list_lookup_imap in Hx. destruct (comps !! x); [|done].
    cbn [fmap option_fmap option_map] in Hx. apply (inj Some) in Hx as <-. by split.
Qed.

(** C22: What Triton sends Gemini Enterprise can be drawn.  The messages of a
    result are the surfaces the producer wrote itself, which Triton passes on
    unvetted, followed by Triton's own: one [createSurface] and
    [updateComponents] pair for each surface.  In every surface of Triton's own
    the ids are distinct, each component but [root] is the child of exactly one
    other, and children stand before their parents; a component opens an address
    only if the link policy allows it and links are switched on, and frames one
    only if the policy allows it and embeds are switched on, whatever
    components the tool sent.  The view of a cited document is such a tree as
    well. *)
Theorem ge_surfaces_are_trees `{Crypto} `{UrlParse} `{SerdeA2ui}
    cell now doc_canvas signer opts uuid uuid' res ms :
  build_messages_with cell now doc_canvas signer opts uuid uuid' res = Some ms →
  (∃ flats,
     ms = passthrough_surfaces uuid (value_get §"surface" res ≫= value_get §"a2ui")
          ++ concat (imap (λ k vs, surface_pair (uuid' k) vs) flats)
     ∧ Forall (λ vs, is_tree vs ∧ links_allowed cell opts vs) flats
     ∧ (passthrough_surfaces uuid (value_get §"surface" res ≫= value_get §"a2ui") = [] → flats ≠ []))
  ∧ ∀ u structured title,
      ∃ vs, build_document_material u structured title = surface_pair u vs ∧ is_tree vs.
Proof.
  intros Hm. split.
  2: { intros u structured title. eexists. split; [reflexivity|apply material_tree]. }
  unfold build_messages_with, card_messages in Hm. cbv zeta in Hm.
  destruct (Ge.surface_components res) as [cs|]; cbn [mbind option_bind] in Hm; cbv zeta in Hm.
  - exists (card_surfaces cell now doc_canvas signer opts cs).
    assert (∀ l : list Value, default [] (if is_empty l then None else Some l) = l) as Hd by by intros [].
    rewrite Hd in Hm. destruct (is_empty _) eqn:E in Hm; [done|]. apply (inj Some) in Hm as <-.
    split; [done|]. split; [apply card_surfaces_ok|]. intros Hp Hn. by rewrite Hp, Hn in E.
  - exists []. destruct (is_empty _) eqn:E in Hm; [done|]. apply (inj Some) in Hm as <-.
    split; [done|]. split; [done|]. intros Hp. by rewrite Hp in E.
Qed.

(** Two source buttons are the limit of one [sources] component, not of the
    card: each further component adds another. *)
Lemma source_buttons_past_two `{Crypto} `{UrlParse} cell now signer it items b c url i c' :
  get_str §"resource" it = Some url → is_allowed_link cell url = true →
  (let label := default §"source" (get_str §"label" it) in
   doc_button now signer (§"Open: " ++ display_label label)
     (label, (split_skill_id label).1, (split_skill_id label).2, url) c) = (Some i, c') →
  1 ≤ length (source_btn_ids b) →
  source_btn_ids (source_buttons cell now signer (it :: items) b c).1 = source_btn_ids b ++ [i].
Proof.
  intros Hr Ha Hd Hb. cbn [source_buttons]. rewrite Hr, Ha. cbv zeta in *.
  destruct (split_skill_id _) as [skill doc]. cbn [fst snd] in Hd. unfold bind. rewrite Hd.
  cbn [add_source source_btn_ids]. rewrite length_app. cbn [length].
  rewrite (proj2 (Nat.leb_le _ _)) by lia. done.
Qed.

(** ** Evaluation *)

Definition demo_chips : Component := Component.Chips (Some §"Next?")
  [{| chip_label := §"A"; chip_message := §"Go" |}; {| chip_label := §"B"; chip_message := §"Stop" |};
   {| chip_label := §"C"; chip_message := §"Wait" |}].
Definition chips_serde : SerdeA2ui := {|
  surface_from_value _ := Err [];
  component_from_value _ := Ok demo_chips;
|}.
(** Three chips, a framed report, and a surface of the producer's own. *)
Definition demo_result : Value :=
  json_object [(§"surface", json_object
    [(§"components", Value.Array [
       json_object [(§"kind", js §"chips")];
       json_object [(§"kind", js §"report"); (§"image_url", js §"https://app.example/a")]]);
     (§"a2ui", Value.Array [json_object
       [(§"components", Value.Array [json_object [(§"id", js §"root")]])]])])].

Lemma demo_card :
  (match @build_messages_with ge_crypto sample_url chips_serde None (Some 0%Z) false ge_signer
     GeOptions_default (λ _, §"p") (λ _, §"u") demo_result with
   | Some ms => length ms
   | None => 0
   end) = 4.
Proof. vm_compute. reflexivity. Qed.

Lemma ge_surfaces_are_trees_witness :
  ∃ ms flats,
    @build_messages_with ge_crypto sample_url chips_serde None (Some 0%Z) false ge_signer
      GeOptions_default (λ _, §"p") (λ _, §"u") demo_result = Some ms
    ∧ length ms = 4 ∧ length ms = 2 + 2 * length flats ∧ Forall is_tree flats.
Proof.
  pose proof demo_card as Hl.
  destruct (@build_messages_with ge_crypto sample_url chips_serde None (Some 0%Z) false ge_signer
    GeOptions_default (λ _, §"p") (λ _, §"u") demo_result) as [ms|] eqn:E; [|done].
  destruct (@ge_surfaces_are_trees ge_crypto sample_url chips_serde None (Some 0%Z) false ge_signer
    GeOptions_default (λ _, §"p") (λ _, §"u") demo_result ms E) as [(flats & Hs & Hf & _) _].
  exists ms, flats. split; [done|]. split; [exact Hl|]. split.
  - rewrite Hs. destruct flats as [|f1 [|f2 [|f3 fl]]]; rewrite Hs in Hl; vm_compute in Hl; try done.
  - eapply Forall_impl; [exact Hf|]. by intros vs [].
Defined.
