(* ===== verification/FormState.v ===== *)
(** * FormState: the numbered-prompts state machine
    (crates/triton-chat-telegram/src/form_state.rs)

    A form is walked one message per field; the store keeps one form per
    (chat, user) and a first-in queue of keys per tenant that bounds how many a
    tenant may have in flight.  Every operation runs under one lock, so each is
    a function on the store. *)

From S2P Require Import Prelude Json A2ui.

Definition DEFAULT_PER_TENANT_CAP : nat := 100.
Definition MAX_FIELDS_PER_FORM : nat := 16.

Record ActiveForm := {
  submit_tool : str;
  fields : list FormField;
  args : JsonMap;
  step : nat;
  form_sub : str;
  form_tenant : str;
}.

Definition ActiveForm_new (tool : str) (fs : list FormField) (sub tenant : str) : ActiveForm :=
  {| submit_tool := tool; fields := fs;
     args := fold_left (λ m f, Map.insert (f_name f) Value.Null m) fs [];
     step := 0; form_sub := sub; form_tenant := tenant |}.

Definition is_complete (f : ActiveForm) : bool := (length (fields f) <=? step f)%nat.
Definition current_field (f : ActiveForm) : option FormField := fields f !! step f.

Definition next_prompt (f : ActiveForm) : option str :=
  (λ fd, dec (Z.of_nat (step f + 1)) ++ §"/" ++ dec (Z.of_nat (length (fields f)))
           ++ §" — " ++ f_label fd
           ++ (if required fd then §" (required)"
               else §" (optional, send a blank message to skip)"))
    <$> current_field f.

Record FormKey := { chat_id : Z; telegram_user_id : Z }.

#[export] Instance FormKey_eq_dec : EqDecision FormKey.
Proof. solve_decision. Defined.
#[export] Instance FormKey_countable : Countable FormKey.
Proof.
  refine (inj_countable' (λ k, (chat_id k, telegram_user_id k))
            (λ '(c, u), {| chat_id := c; telegram_user_id := u |}) _).
  by intros [].
Defined.

Inductive InstallOutcome :=
  | Installed
  | InstalledEvicted (evicted : FormKey) (evicted_sub evicted_tenant : str).

Inductive InstallError :=
  | NoFields
  | TooManyFields (n : nat)
  | EmptyFieldName
  | DuplicateFieldName (n : str).

Inductive AdvanceOutcome :=
  | NeedMore
  | Complete (tool : str) (args : Value)
  | Reprompt (reason : str).

Record FormStateStore := {
  forms : gmap FormKey ActiveForm;
  per_tenant_order : gmap str (list FormKey);
  cap_per_tenant : nat;
}.

Definition with_cap (cap : nat) : FormStateStore :=
  {| forms := ∅; per_tenant_order := ∅; cap_per_tenant := Nat.max cap 1 |}.
Definition FormStateStore_new : FormStateStore := with_cap DEFAULT_PER_TENANT_CAP.

Definition has_active (k : FormKey) (s : FormStateStore) : bool :=
  bool_decide (is_Some (forms s !! k)).
Definition peek_prompt (k : FormKey) (s : FormStateStore) : option str :=
  forms s !! k ≫= next_prompt.

Definition queue (tenant : str) (s : FormStateStore) : list FormKey :=
  default [] (per_tenant_order s !! tenant).

(** The loop over the names, with those seen so far. *)
Fixpoint check_names (seen : list str) (fs : list FormField) : result unit InstallError :=
  match fs with
  | [] => Ok ()
  | f :: fs' =>
      if is_empty (f_name f) then Err EmptyFieldName
      else if decide (f_name f ∈ seen) then Err (DuplicateFieldName (f_name f))
      else check_names (f_name f :: seen) fs'
  end.

Definition maybe_evict (tenant : str) (s : FormStateStore)
    : option (FormKey * str * str) * FormStateStore :=
  match per_tenant_order s !! tenant with
  | None => (None, s)
  | Some q =>
      if (length q <? cap_per_tenant s)%nat then (None, s)
      else match q with
           | [] => (None, s)
           | k :: q' =>
               let s1 := {| forms := forms s;
                            per_tenant_order := <[tenant := q']> (per_tenant_order s);
                            cap_per_tenant := cap_per_tenant s |} in
               match forms s !! k with
               | None => (None, s1)
               | Some f =>
                   (Some (k, form_sub f, form_tenant f),
                    {| forms := delete k (forms s);
                       per_tenant_order := per_tenant_order s1;
                       cap_per_tenant := cap_per_tenant s |})
               end
           end
  end.

Definition install (k : FormKey) (tool : str) (fs : list FormField) (sub tenant : str)
    (s : FormStateStore) : result InstallOutcome InstallError * FormStateStore :=
  if is_empty fs then (Err NoFields, s)
  else if (MAX_FIELDS_PER_FORM <? length fs)%nat then (Err (TooManyFields (length fs)), s)
  else match check_names [] fs with
       | Err e => (Err e, s)
       | Ok _ =>
           let form := ActiveForm_new tool fs sub tenant in
           let replacing := has_active k s in
           let '(ev, s1) := if replacing then (None, s) else maybe_evict tenant s in
           let s2 := {| forms := <[k := form]> (forms s1);
                        per_tenant_order :=
                          if replacing then per_tenant_order s1
                          else <[tenant := queue tenant s1 ++ [k]]> (per_tenant_order s1);
                        cap_per_tenant := cap_per_tenant s1 |} in
           (Ok match ev with
               | Some (k', sub', tenant') => InstalledEvicted k' sub' tenant'
               | None => Installed
               end, s2)
       end.

(** Remove the first occurrence. *)
Fixpoint remove_first (k : FormKey) (q : list FormKey) : list FormKey :=
  match q with
  | [] => []
  | k' :: q' => if decide (k' = k) then q' else k' :: remove_first k q'
  end.

Definition drop_form (k : FormKey) (s : FormStateStore) : FormStateStore :=
  match forms s !! k with
  | None => s
  | Some f =>
      {| forms := delete k (forms s);
         per_tenant_order :=
           match per_tenant_order s !! form_tenant f with
           | Some q => <[form_tenant f := remove_first k q]> (per_tenant_order s)
           | None => per_tenant_order s
           end;
         cap_per_tenant := cap_per_tenant s |}
  end.

Definition cancel (k : FormKey) (s : FormStateStore) : bool * FormStateStore :=
  if has_active k s then (true, drop_form k s) else (false, s).

(** ** Coercion *)

(** [str::parse::<i64>]: an optional sign, then at least one digit. *)
Definition parse_i64 (s : str) : option Z :=
  let digits ds : option Z :=
    if is_empty ds || negb (forallb is_ascii_digit ds) then None
    else Some (fold_left (λ n c, 10 * n + (Z.of_N (byte c) - 48))%Z ds 0%Z) in
  n ← match s with
      | c :: ds => if decide (c = "-"%char) then Z.opp <$> digits ds
                   else if decide (c = "+"%char) then digits ds else digits s
      | [] => None
      end;
  if ((i64_min <=? n) && (n <=? i64_max))%Z then Some n else None.

Definition parse_bool (raw : str) : option bool :=
  let l := to_ascii_lowercase raw in
  if decide (l ∈ [§"yes"; §"y"; §"true"; §"1"]) then Some true
  else if decide (l ∈ [§"no"; §"n"; §"false"; §"0"]) then Some false
  else None.

Definition clip (raw : str) (n : nat) : str :=
  take (floor_char_boundary raw (Nat.min (length raw) n)) raw.

Definition option_matches (raw : str) (o : SelectionOption) : bool :=
  eq_ignore_ascii_case (o_value o) raw || eq_ignore_ascii_case (o_label o) raw.

Definition coerce (f : FormField) (raw : str) : result Value str :=
  if is_empty raw then
    if required f then
      Err (§"the `" ++ f_label f ++ §"` field is required — please send a non-empty value")
    else Ok Value.Null
  else match f_kind f with
       | KString | KText => Ok (Value.String raw)
       | KSelect =>
           match list_find (λ o, option_matches raw o = true) (options f) with
           | Some (_, o) => Ok (Value.String (o_value o))
           | None => Err (§"expected one of " ++ join §", " (o_label <$> options f) ++ §" for `"
                            ++ f_label f ++ §"`, got `" ++ clip raw 32 ++ §"`.")
           end
       | KInteger =>
           match parse_i64 raw with
           | Some n => Ok (Value.Number (Value.Int n))
           | None => Err (§"expected an integer for `" ++ f_label f ++ §"`, got `"
                            ++ clip raw 32 ++ §"`. Please send a number.")
           end
       | KBoolean =>
           match parse_bool raw with
           | Some b => Ok (Value.Bool b)
           | None => Err (§"expected yes/no for `" ++ f_label f ++ §"`, got `" ++ clip raw 32
                            ++ §"`. Reply with yes/no, true/false, or 1/0.")
           end
       end.

Definition advance (k : FormKey) (message : str) (s : FormStateStore)
    : option AdvanceOutcome * FormStateStore :=
  match forms s !! k with
  | None => (None, s)
  | Some form =>
      match current_field form with
      | None => (None, drop_form k s)
      | Some field =>
          match coerce field (trim message) with
          | Err reason => (Some (Reprompt reason), s)
          | Ok v =>
              let form1 := {| submit_tool := submit_tool form; fields := fields form;
                              args := Map.insert (f_name field) v (args form);
                              step := S (step form); form_sub := form_sub form;
                              form_tenant := form_tenant form |} in
              let s1 := {| forms := <[k := form1]> (forms s);
                           per_tenant_order := per_tenant_order s;
                           cap_per_tenant := cap_per_tenant s |} in
              if is_complete form1 then
                (Some (Complete (submit_tool form1) (Value.Object (args form1))), drop_form k s1)
              else (Some NeedMore, s1)
          end
      end
  end.

(** ** The queues mirror the forms *)

Record wf (s : FormStateStore) : Prop := {
  wf_cap : 1 ≤ cap_per_tenant s;
  wf_queue t : NoDup (queue t s) ∧ length (queue t s) ≤ cap_per_tenant s;
  wf_mirror k t : k ∈ queue t s ↔ ∃ f, forms s !! k = Some f ∧ form_tenant f = t;
}.

(** The queue of [t] once that of [tenant] has been replaced. *)
Lemma queue_insert t tenant q m fm c :
  queue t {| forms := fm; per_tenant_order := <[tenant := q]> m; cap_per_tenant := c |}
  = if decide (t = tenant) then q else default [] (m !! t).
Proof.
  unfold queue. cbn. case_decide as E; subst; [by rewrite lookup_insert_eq|].
  by rewrite lookup_insert_ne.
Qed.

Lemma elem_of_remove_first k x q : NoDup q → x ∈ remove_first k q ↔ x ∈ q ∧ x ≠ k.
Proof.
  induction 1 as [|y q Hy Hnd IH]; cbn; [set_solver|]. case_decide; subst; set_solver.
Qed.

Lemma remove_first_NoDup k q : NoDup q → NoDup (remove_first k q).
Proof.
  induction 1 as [|y q Hy Hnd IH]; cbn; [constructor|]. case_decide; [done|].
  constructor; [|done]. rewrite elem_of_remove_first by done. tauto.
Qed.

Lemma remove_first_length k q : length (remove_first k q) ≤ length q.
Proof. induction q as [|y q IH]; cbn; [done|]. case_decide; cbn; lia. Qed.

Lemma drop_form_wf k s : wf s → wf (drop_form k s).
Proof.
  intros [Hc Hq Hm]. unfold drop_form. destruct (forms s !! k) as [f|] eqn:Ef; [|by split].
  assert (k ∈ queue (form_tenant f) s) as Hin by (apply Hm; eauto).
  unfold queue in Hin. destruct (per_tenant_order s !! form_tenant f) as [q|] eqn:Eq;
    [|cbn in Hin; set_solver].
  assert (queue (form_tenant f) s = q) as Eqq by (unfold queue; by rewrite Eq).
  destruct (Hq (form_tenant f)) as [Hnd Hlen]. rewrite Eqq in Hnd, Hlen.
  split; [done|..].
  - intros t. rewrite queue_insert. cbn [cap_per_tenant]. case_decide as E; [|apply Hq].
    split; [by apply remove_first_NoDup|]. pose proof (remove_first_length k q). lia.
  - intros x t. rewrite queue_insert. cbn [forms]. case_decide as E.
    + subst t. rewrite elem_of_remove_first by done. rewrite <-Eqq, Hm. split.
      * intros [(g & Hg & Ht) Hne]. exists g. by rewrite lookup_delete_ne.
      * intros (g & Hg & Ht). apply lookup_delete_Some in Hg as [Hne Hg]. split; [eauto|done].
    + change (x ∈ default [] (per_tenant_order s !! t)) with (x ∈ queue t s). rewrite Hm. split.
      * intros (g & Hg & Ht). exists g. rewrite lookup_delete_ne; [done|].
        intros <-. simplify_eq.
      * intros (g & Hg & Ht). apply lookup_delete_Some in Hg as [_ Hg]. eauto.
Qed.

(** After the eviction there is room for one more. *)
Lemma maybe_evict_wf tenant s :
  wf s →
  let s' := (maybe_evict tenant s).2 in
  wf s' ∧ length (queue tenant s') < cap_per_tenant s' ∧ cap_per_tenant s' = cap_per_tenant s
  ∧ ∀ k, forms s !! k = None → forms s' !! k = None.
Proof.
  intros Hwf. pose proof Hwf as [Hc Hq Hm]. cbv zeta. unfold maybe_evict.
  destruct (per_tenant_order s !! tenant) as [q|] eqn:Eq.
  2: { cbn [snd]. assert (queue tenant s = []) as -> by (unfold queue; by rewrite Eq).
       split; [done|]. split; [cbn; lia|]. done. }
  assert (queue tenant s = q) as Eqq by (unfold queue; by rewrite Eq).
  destruct (length q <? cap_per_tenant s)%nat eqn:El; bool_facts.
  { cbn. rewrite Eqq. done. }
  destruct q as [|k q]; [cbn in El; lia|].
  destruct (Hq tenant) as [Hnd Hlen]. rewrite Eqq in Hnd, Hlen.
  apply NoDup_cons in Hnd as [Hk Hnd]. cbn [length] in *.
  assert (k ∈ queue tenant s) as Hin by (rewrite Eqq; set_solver).
  apply Hm in Hin as (f & Ef & Et). rewrite Ef. cbn [snd per_tenant_order].
  split; [split; [done|..]|].
  - intros t. rewrite queue_insert. cbn [cap_per_tenant]. case_decide as E; [|apply Hq].
    split; [done|lia].
  - intros x t. rewrite queue_insert. cbn [forms]. case_decide as E.
    + subst t. pose proof (Hm x tenant) as Hx. rewrite Eqq, elem_of_cons in Hx. split.
      * intros Hxq. destruct (proj1 Hx (or_intror Hxq)) as (g & Hg & Ht). exists g.
        rewrite lookup_delete_ne; [done|]. by intros <-.
      * intros (g & Hg & Ht). apply lookup_delete_Some in Hg as [Hne Hg].
        destruct (proj2 Hx (ex_intro _ g (conj Hg Ht))); [by subst|done].
    + change (x ∈ default [] (per_tenant_order s !! t)) with (x ∈ queue t s). rewrite Hm. split.
      * intros (g & Hg & Ht). exists g. rewrite lookup_delete_ne; [done|]. intros <-. simplify_eq.
      * intros (g & Hg & Ht). apply lookup_delete_Some in Hg as [_ Hg]. eauto.
  - rewrite queue_insert, decide_True by done. cbn. split; [lia|]. split; [done|].
    intros x Hx. rewrite lookup_delete_None. auto.
Qed.

(** Storing a form of the same tenant under a key that has one. *)
Lemma replace_wf k f f' s :
  wf s → forms s !! k = Some f → form_tenant f' = form_tenant f →
  wf {| forms := <[k := f']> (forms s); per_tenant_order := per_tenant_order s;
        cap_per_tenant := cap_per_tenant s |}.
Proof.
  intros [Hc Hq Hm] Hk Ht. split; [done|apply Hq|]. intros x t.
  change (queue t {| forms := <[k := f']> (forms s); per_tenant_order := per_tenant_order s;
    cap_per_tenant := cap_per_tenant s |}) with (queue t s). rewrite Hm. cbn [forms].
  destruct (decide (x = k)) as [->|Hne].
  - rewrite lookup_insert_eq, Hk. split; intros (g & ? & ?); simplify_eq; eauto; congruence.
  - by rewrite lookup_insert_ne.
Qed.

(** The same key never changes tenant. *)
Definition stable (k : FormKey) (tenant : str) (s : FormStateStore) : Prop :=
  ∀ f, forms s !! k = Some f → form_tenant f = tenant.

Lemma install_wf k tool fs sub tenant s :
  wf s → stable k tenant s → wf (install k tool fs sub tenant s).2.
Proof.
  intros Hwf Hst. unfold install. destruct (is_empty fs); [done|].
  destruct (_ <? _)%nat; [done|]. destruct (check_names [] fs); [|done].
  unfold has_active. case_bool_decide as Ha.
  - destruct Ha as [f Hf]. cbn. eapply replace_wf; [done|done|]. cbn. symmetry. by apply Hst.
  - apply eq_None_not_Some in Ha.
    destruct (maybe_evict_wf tenant s Hwf) as ([Hc Hq Hm] & Hroom & Hcap & Hnone).
    destruct (maybe_evict tenant s) as [ev s1]. cbn [snd] in *. specialize (Hnone k Ha).
    split; [done|..].
    + intros t. rewrite queue_insert. cbn [cap_per_tenant]. case_decide as E; [|apply Hq].
      split; [|rewrite length_app; cbn; lia].
      apply NoDup_app. split; [apply Hq|]. split; [|apply NoDup_singleton].
      intros x Hx Hxk. apply list_elem_of_singleton in Hxk as ->.
      apply Hm in Hx as (g & Hg & _). congruence.
    + intros x t. rewrite queue_insert. cbn [forms]. case_decide as E.
      * subst t. rewrite elem_of_app, list_elem_of_singleton, Hm.
        destruct (decide (x = k)) as [->|Hne].
        { rewrite lookup_insert_eq. split; [|by right]. intros _. by eexists. }
        rewrite lookup_insert_ne by done. naive_solver.
      * change (x ∈ default [] (per_tenant_order s1 !! t)) with (x ∈ queue t s1). rewrite Hm.
        destruct (decide (x = k)) as [->|Hne].
        { rewrite lookup_insert_eq, Hnone. split; intros (g & ? & ?); simplify_eq. }
        by rewrite lookup_insert_ne.
Qed.

Lemma advance_wf k msg s : wf s → wf (advance k msg s).2.
Proof.
  intros Hwf. unfold advance. destruct (forms s !! k) as [f|] eqn:Ef; [|done].
  destruct (current_field f) as [fd|]; [|by apply drop_form_wf].
  destruct (coerce fd (trim msg)) as [v|]; [|done].
  destruct (is_complete _); cbn [snd]; [apply drop_form_wf|]; by eapply replace_wf.
Qed.

Lemma cancel_wf k s : wf s → wf (cancel k s).2.
Proof. intros. unfold cancel. destruct (has_active k s); [by apply drop_form_wf|done]. Qed.

(** The store as a transition system. *)
Inductive fstep : FormStateStore → FormStateStore → Prop :=
  | FInstall k tool fs sub tenant s :
      stable k tenant s → fstep s (install k tool fs sub tenant s).2
  | FAdvance k msg s : fstep s (advance k msg s).2
  | FCancel k s : fstep s (cancel k s).2.

Lemma with_cap_wf cap : wf (with_cap cap).
Proof.
  assert (∀ t, queue t (with_cap cap) = []) as Hq
    by (intros t; unfold queue; cbn [with_cap per_tenant_order]; by rewrite lookup_empty).
  split; [cbn; lia|..].
  - intros t. rewrite Hq. split; [constructor|cbn; lia].
  - intros k t. rewrite Hq. cbn [with_cap forms]. split; [set_solver|].
    intros (f & Hf & _). by rewrite lookup_empty in Hf.
Qed.

Lemma drop_form_cap k s : cap_per_tenant (drop_form k s) = cap_per_tenant s.
Proof. unfold drop_form. by destruct (forms s !! k). Qed.

Lemma maybe_evict_cap t s : cap_per_tenant (maybe_evict t s).2 = cap_per_tenant s.
Proof. unfold maybe_evict. by repeat case_match. Qed.

Lemma fstep_cap s s' : fstep s s' → cap_per_tenant s' = cap_per_tenant s.
Proof.
  intros [k tool fs sub tenant s0 _|k msg s0|k s0].
  - unfold install. destruct (is_empty fs); [done|]. destruct (_ <? _)%nat; [done|].
    destruct (check_names [] fs); [|done]. destruct (has_active k s0); [done|].
    pose proof (maybe_evict_cap tenant s0) as E. by destruct (maybe_evict tenant s0).
  - unfold advance. repeat case_match; cbn [snd]; rewrite ?drop_form_cap; done.
  - unfold cancel. case_match; cbn [snd]; rewrite ?drop_form_cap; done.
Qed.

Lemma steps_wf s s' :
  rtc fstep s s' → wf s → wf s' ∧ cap_per_tenant s' = cap_per_tenant s.
Proof.
  induction 1 as [s|s1 s2 s3 Hst _ IH]; intros Hwf; [done|].
  rewrite <-(fstep_cap _ _ Hst). apply IH. destruct Hst.
  - by apply install_wf.
  - by apply advance_wf.
  - by apply cancel_wf.
Qed.

(** The forms a tenant has in flight. *)
Definition in_flight (t : str) (s : FormStateStore) : gmap FormKey ActiveForm :=
  filter (λ kv, form_tenant kv.2 = t) (forms s).

Lemma wf_in_flight s t : wf s → size (in_flight t s) = length (queue t s).
Proof.
  intros [Hc Hq Hm]. destruct (Hq t) as [Hnd _]. rewrite <-size_dom.
  assert (dom (in_flight t s) = list_to_set (queue t s)) as ->; [|by apply size_list_to_set].
  apply set_eq. intros k. rewrite elem_of_dom, elem_of_list_to_set, Hm. unfold in_flight.
  split.
  - intros [f Hf]. apply map_lookup_filter_Some in Hf as [Hf Ht]. eauto.
  - intros (f & Hf & Ht). exists f. apply map_lookup_filter_Some. done.
Qed.

(** C8: no tenant can fill the memory with forms.  However installs, replies and
    cancellations interleave, as long as a user's tenant does not change while a
    form is open, each tenant has at most its cap of forms in flight, and its
    queue lists exactly those, each once. *)
Theorem forms_bounded_per_tenant cap s t :
  rtc fstep (with_cap cap) s →
  size (in_flight t s) ≤ Nat.max cap 1 ∧ NoDup (queue t s)
  ∧ ∀ k, k ∈ queue t s ↔ is_Some (in_flight t s !! k).
Proof.
  intros Hr. destruct (steps_wf _ _ Hr (with_cap_wf cap)) as [Hwf Hcap].
  rewrite wf_in_flight by done. destruct (wf_queue s Hwf t) as [Hnd Hlen].
  rewrite Hcap in Hlen. split; [exact Hlen|]. split; [done|]. intros k.
  rewrite (wf_mirror s Hwf). unfold in_flight, is_Some.
  setoid_rewrite map_lookup_filter_Some. cbn. naive_solver.
Qed.

Definition demo_field (n : str) : FormField :=
  {| f_name := n; f_label := n; f_kind := KString; required := true;
     placeholder := None; default_value := None; options := []; f_style := Dropdown |}.
Definition key_of (n : Z) : FormKey := {| chat_id := n; telegram_user_id := n |}.

Lemma forms_bounded_per_tenant_witness :
  let s1 := (install (key_of 1) §"t" [demo_field §"a"] §"u" §"acme" (with_cap 1)).2 in
  let s2 := (install (key_of 2) §"t" [demo_field §"a"] §"v" §"acme" s1).2 in
  size (in_flight §"acme" s2) ≤ 1 ∧ has_active (key_of 2) s2 = true.
Proof.
  intros s1 s2. split; [|reflexivity].
  apply (forms_bounded_per_tenant 1 s2 §"acme").
  eapply rtc_l; [apply (FInstall (key_of 1) §"t" [demo_field §"a"] §"u" §"acme"); intros f Hf; done|].
  eapply rtc_l; [apply (FInstall (key_of 2) §"t" [demo_field §"a"] §"v" §"acme"); intros f Hf; done|].
  apply rtc_refl.
Defined.

(** ** What a completed form submits *)

(** A value the field's declaration admits. *)
Definition admits (f : FormField) (v : Value) : Prop :=
  match v with
  | Value.Null => required f = false
  | Value.String s =>
      f_kind f = KString ∨ f_kind f = KText
      ∨ (f_kind f = KSelect ∧ ∃ o, o ∈ options f ∧ o_value o = s)
  | Value.Number (Value.Int n) => f_kind f = KInteger ∧ (i64_min ≤ n ≤ i64_max)%Z
  | Value.Bool _ => f_kind f = KBoolean
  | _ => False
  end.

Lemma coerce_admits f raw v : coerce f raw = Ok v → admits f v.
Proof.
  unfold coerce. destruct (is_empty raw).
  { destruct (required f) eqn:Er; [done|]. by intros [= <-]. }
  destruct (f_kind f) eqn:Ek.
  - intros [= <-]. by left.
  - unfold parse_i64. destruct (match raw with [] => _ | _ :: _ => _ end) as [n|]; [|done].
    cbn. destruct (_ && _) eqn:E; [|done]. intros [= <-]. bool_facts. done.
  - destruct (parse_bool raw); [|done]. by intros [= <-].
  - destruct (list_find _ (options f)) as [[i o]|] eqn:E; [|done]. intros [= <-].
    apply list_find_Some in E as (Hi & _ & _). right. right. split; [done|].
    exists o. split; [by eapply list_elem_of_lookup_2|done].
  - intros [= <-]. right. by left.
Qed.

(** The names are distinct and every field already walked has its value. *)
Record form_ok (f : ActiveForm) : Prop := {
  fo_names : NoDup (f_name <$> fields f);
  fo_walked j fd : fields f !! j = Some fd → j < step f →
    ∃ v, Map.get (f_name fd) (args f) = Some v ∧ admits fd v;
}.

Definition forms_ok (s : FormStateStore) : Prop := map_Forall (λ _ f, form_ok f) (forms s).

Lemma check_names_NoDup seen fs :
  check_names seen fs = Ok () → NoDup (f_name <$> fs) ∧ ∀ f, f ∈ fs → (f_name f ∉ seen).
Proof.
  revert seen. induction fs as [|f fs IH]; intros seen; cbn [check_names].
  { intros _. split; [constructor|set_solver]. }
  destruct (is_empty (f_name f)); [done|]. case_decide as Hin; [done|].
  intros [Hnd Hout]%IH. cbn [fmap list_fmap]. split.
  - constructor; [|done]. intros (g & Hg & Hgin)%list_elem_of_fmap.
    apply (Hout g Hgin). rewrite <-Hg. set_solver.
  - intros g [->|Hg]%elem_of_cons; [done|]. specialize (Hout g Hg). set_solver.
Qed.

Lemma advance_form_ok f fd v :
  form_ok f → current_field f = Some fd → admits fd v →
  form_ok {| submit_tool := submit_tool f; fields := fields f;
             args := Map.insert (f_name fd) v (args f); step := S (step f);
             form_sub := form_sub f; form_tenant := form_tenant f |}.
Proof.
  intros [Hnd Hw] Hc Ha. split; [done|]. cbn [fields args step]. intros j fd' Hj Hlt.
  destruct (decide (f_name fd = f_name fd')) as [En|En].
  - exists v. rewrite <-En, Map.get_insert_eq. split; [done|].
    assert (j = step f) as ->.
    { apply (NoDup_lookup (f_name <$> fields f) j (step f) (f_name fd) Hnd);
        rewrite list_lookup_fmap.
      - by rewrite Hj, En.
      - unfold current_field in Hc. by rewrite Hc. }
    unfold current_field in Hc. by simplify_eq.
  - rewrite Map.get_insert_ne by done. apply (Hw j); [done|].
    destruct (decide (j = step f)) as [->|]; [|lia].
    unfold current_field in Hc. simplify_eq.
Qed.

Lemma drop_form_forms_ok k s : forms_ok s → forms_ok (drop_form k s).
Proof.
  intros H. unfold drop_form. destruct (forms s !! k); [|done]. by apply map_Forall_delete.
Qed.

Lemma fstep_forms_ok s s' : fstep s s' → forms_ok s → forms_ok s'.
Proof.
  intros Hst Hok. destruct Hst as [k tool fs sub tenant s _|k msg s|k s].
  - unfold install. destruct (is_empty fs); [done|]. destruct (_ <? _)%nat; [done|].
    destruct (check_names [] fs) as [[]|] eqn:Ec; [|done]. apply check_names_NoDup in Ec as [Hnd _].
    assert (form_ok (ActiveForm_new tool fs sub tenant)) as Hnew.
    { split; [done|]. intros j fd _ Hlt. cbn in Hlt. lia. }
    destruct (has_active k s); cbn; [by apply map_Forall_insert_2|].
    assert (forms_ok (maybe_evict tenant s).2) as Hev.
    { unfold maybe_evict. repeat case_match; try done. cbn. by apply map_Forall_delete. }
    destruct (maybe_evict tenant s) as [ev s1]. cbn. by apply map_Forall_insert_2.
  - unfold advance. destruct (forms s !! k) as [f|] eqn:Ef; [|done].
    destruct (current_field f) as [fd|] eqn:Ec; [|by apply drop_form_forms_ok].
    destruct (coerce fd (trim msg)) as [v|] eqn:Ev; [|done].
    pose proof (advance_form_ok f fd v (Hok k f Ef) Ec (coerce_admits _ _ _ Ev)) as Hf.
    destruct (is_complete _); cbn [snd]; [apply drop_form_forms_ok|];
      by apply map_Forall_insert_2.
  - unfold cancel. destruct (has_active k s); [by apply drop_form_forms_ok|done].
Qed.

(** A submitted form is complete and well typed.  Whatever messages users
    send to whatever forms, when a form completes the arguments it dispatches
    hold, for every declared field, a value the field admits: of its kind, one
    of the options of a selection, in the range of a 64-bit integer, and null
    only where the field is optional; and the form is gone from the store. *)
Theorem completed_form_well_typed cap s k msg tool a s' f :
  rtc fstep (with_cap cap) s → forms s !! k = Some f →
  advance k msg s = (Some (Complete tool (Value.Object a)), s') →
  tool = submit_tool f
  ∧ (∀ fd, fd ∈ fields f → ∃ v, Map.get (f_name fd) a = Some v ∧ admits fd v)
  ∧ has_active k s' = false.
Proof.
  intros Hr Hf. assert (forms_ok s) as Hok.
  { assert (forms_ok (with_cap cap)) as H0 by apply map_Forall_empty.
    revert H0. induction Hr as [|s1 s2 s3 Hst _ IH]; intros H0; [done|].
    apply IH; [done|]. by eapply fstep_forms_ok. }
  unfold advance. rewrite Hf. destruct (current_field f) as [fd|] eqn:Ec; [|done].
  destruct (coerce fd (trim msg)) as [v|] eqn:Ev; [|done].
  pose proof (advance_form_ok f fd v (Hok k f Hf) Ec (coerce_admits _ _ _ Ev)) as [_ Hw].
  cbn [fields args step] in Hw. unfold is_complete. cbn [fields step].
  destruct (_ <=? _)%nat eqn:Ed; [|done]. bool_facts. intros [= <- <- <-].
  split; [done|]. split.
  - intros g (j & Hj)%list_elem_of_lookup_1. apply (Hw j g Hj).
    pose proof (lookup_lt_Some _ _ _ Hj). lia.
  - unfold has_active, drop_form. cbn [forms]. rewrite lookup_insert_eq. cbn [forms].
    rewrite lookup_delete_eq. done.
Qed.

Lemma completed_form_well_typed_witness :
  let s := (install (key_of 1) §"book" [demo_field §"name"] §"u" §"acme" (with_cap 5)).2 in
  let f := ActiveForm_new §"book" [demo_field §"name"] §"u" §"acme" in
  ∃ v, Map.get §"name" [(§"name", Value.String §"Ada")] = Some v ∧ admits (demo_field §"name") v.
Proof.
  intros s f.
  destruct (completed_form_well_typed 5 s (key_of 1) §" Ada " §"book"
    [(§"name", Value.String §"Ada")]
    (advance (key_of 1) §" Ada " s).2 f) as (_ & H & _).
  - eapply rtc_l; [apply (FInstall (key_of 1) §"book" [demo_field §"name"] §"u" §"acme");
      intros g Hg; done|apply rtc_refl].
  - reflexivity.
  - vm_compute. reflexivity.
  - apply (H (demo_field §"name")). cbn. apply list_elem_of_singleton. reflexivity.
Defined.

(** Replacing a form under another tenant leaves the old tenant's queue
    pointing at it, so the old tenant's next install at its cap evicts the other
    tenant's form. *)
Theorem cross_tenant_eviction :
  let s1 := (install (key_of 1) §"t" [demo_field §"a"] §"u" §"acme" (with_cap 1)).2 in
  let s2 := (install (key_of 1) §"t" [demo_field §"a"] §"u" §"globex" s1).2 in
  (install (key_of 2) §"t" [demo_field §"a"] §"v" §"acme" s2).1
  = Ok (InstalledEvicted (key_of 1) §"u" §"globex").
Proof. vm_compute. reflexivity. Qed.
