(* ===== verification/Routing.v ===== *)
(** * Routing: which agent handles a chat turn
    (crates/triton-chat-routing/src/lib.rs)

    [resolve] is pure: the catalog is caller-scoped, the sticky binding is an
    argument.  A string slice off a character boundary panics in the source;
    the functions that slice return [None] there. *)

From S2P Require Import Prelude.

Record AgentDescriptor := {
  id : str;
  display : str;
  description : str;
  is_default : bool;
}.

(** The trait, and what it requires of its implementations: whatever a lookup
    returns is on the caller's list. *)
Class AgentCatalog (C : Type) := {
  cat_list : C → list AgentDescriptor;
  cat_get : C → str → option AgentDescriptor;
  default_for : C → str → option AgentDescriptor;
}.
Class CallerScoped (C : Type) `{AgentCatalog C} := {
  get_entitled c i a : cat_get c i = Some a → a ∈ cat_list c ∧ id a = i;
  default_entitled c t a : default_for c t = Some a → a ∈ cat_list c;
}.

(** The trait's default [get] and [global_default]. *)
Definition find_agent (P : AgentDescriptor → bool) (l : list AgentDescriptor)
    : option AgentDescriptor := snd <$> list_find (λ a, P a = true) l.

Definition get_in (l : list AgentDescriptor) (i : str) : option AgentDescriptor :=
  find_agent (λ a, bool_decide (id a = i)) l.

Definition global_default {C : Type} `{AgentCatalog C} (c : C) : option AgentDescriptor :=
  find_agent is_default (cat_list c).

(** [InMemoryCatalog]. *)
Record InMemoryCatalog := {
  agents : list AgentDescriptor;
  tenant_defaults : gmap str str;
}.

Definition InMemoryCatalog_new (l : list AgentDescriptor) : InMemoryCatalog :=
  {| agents := l; tenant_defaults := ∅ |}.

Definition with_tenant_default (t i : str) (c : InMemoryCatalog) : InMemoryCatalog :=
  {| agents := agents c; tenant_defaults := <[t := i]> (tenant_defaults c) |}.

#[export] Instance in_memory_catalog : AgentCatalog InMemoryCatalog := {|
  cat_list := agents;
  cat_get c i := get_in (agents c) i;
  default_for c t := tenant_defaults c !! t ≫= get_in (agents c);
|}.

Inductive SelectionSource := SwitchTo | Sticky | TenantDefault | GlobalDefault | ChooserPick.
Inductive ChooserReason := FirstContact | UnknownAgent | Ambiguous | BindingGone.
Inductive ReservedCmd := ListAgents | WhoAmI.

Inductive Resolution :=
  | Selection (agent_id text : str) (source : SelectionSource) (bind : option str)
  | Chooser (candidates : list AgentDescriptor) (reason : ChooserReason) (pending_text : str)
  | Reserved (cmd : ReservedCmd).

(** ** Words *)

(** [s.find(char::is_whitespace)] *)
Fixpoint find_ws (s : str) : option nat :=
  match s with
  | [] => None
  | _ :: r => if (ws_len s =? 0)%nat then S <$> find_ws r else Some 0
  end.

(** [s.split_whitespace().next()] *)
Definition first_word (s : str) : option str :=
  let t := trim_start s in
  if is_empty t then None
  else Some match find_ws t with Some i => take i t | None => t end.

(** [&s[i..]]: panics off a character boundary or past the end. *)
Definition slice_from (i : nat) (s : str) : option str :=
  if (i <=? length s)%nat && is_char_boundary s i then Some (drop i s) else None.

Definition split_first_word (s : str) : str * str :=
  let s := trim_start s in
  match find_ws s with
  | Some i => (take i s, trim_start (drop i s))
  | None => (s, [])
  end.

Definition parse_reserved (text : str) : option ReservedCmd :=
  word ← strip_prefix §"/" text;
  let head := to_ascii_lowercase (default word (first_word word)) in
  if decide (head ∈ [§"agents"; §"agent"]) then Some ListAgents
  else if decide (head = §"whoami") then Some WhoAmI
  else None.

Record Switch := { sw_name : str; sw_rest : str; sticky : bool }.

Definition switch_of (s : str) (sticky : bool) : option Switch :=
  let '(n, rest) := split_first_word s in
  if is_empty n then None else Some {| sw_name := n; sw_rest := rest; sticky := sticky |}.

(** The outer option is the panic. *)
Definition parse_switch (text : str) : option (option Switch) :=
  match strip_prefix §"/" text with
  | Some rest =>
      let head := default rest (first_word rest) in
      if eq_ignore_ascii_case head §"use" then
        (λ after, switch_of (trim_start after) true) <$> slice_from (length head) rest
      else Some None
  | None =>
      Some match strip_prefix §"@" text with
           | Some after => switch_of after false
           | None => None
           end
  end.

(** ** Matching a name *)

Inductive MatchResult :=
  | MOne (a : AgentDescriptor)
  | MNone
  | MMany (l : list AgentDescriptor).

Section Resolve.
Context {C : Type} `{AgentCatalog C}.

Definition exact_match (name : str) (a : AgentDescriptor) : bool :=
  eq_ignore_ascii_case (id a) name || eq_ignore_ascii_case (display a) name.
Definition prefix_match (name : str) (a : AgentDescriptor) : bool :=
  starts_with name (to_ascii_lowercase (id a))
  || starts_with name (to_ascii_lowercase (display a)).
Definition sub_match (name : str) (a : AgentDescriptor) : bool :=
  contains name (to_ascii_lowercase (id a))
  || contains name (to_ascii_lowercase (display a)).

Definition keep (P : AgentDescriptor → bool) (c : C) : list AgentDescriptor :=
  filter (λ a, P a = true) (cat_list c).

Definition match_one (c : C) (name : str) : MatchResult :=
  let name := to_ascii_lowercase (trim name) in
  if is_empty name then MNone
  else match keep (exact_match name) c with
       | [a] => MOne a
       | _ :: _ as l => MMany l
       | [] =>
           match keep (prefix_match name) c with
           | [a] => MOne a
           | _ :: _ as l => MMany l
           | [] =>
               match keep (sub_match name) c with
               | [a] => MOne a
               | [] => MNone
               | l => MMany l
               end
           end
       end.

Definition sw_bind (c : C) (name : str) : str :=
  match match_one c name with MOne a => id a | _ => name end.

(** Steps 3 to 5: no command and no switch. *)
Definition resolve_plain (trimmed : str) (binding : option str) (tenant : str) (c : C)
    : Resolution :=
  match binding with
  | Some bound =>
      match cat_get c bound with
      | Some a => Selection (id a) trimmed Sticky None
      | None => Chooser (cat_list c) BindingGone trimmed
      end
  | None =>
      match default_for c tenant with
      | Some a => Selection (id a) trimmed TenantDefault (Some (id a))
      | None =>
          match cat_list c with
          | [a] => Selection (id a) trimmed GlobalDefault (Some (id a))
          | l => Chooser l FirstContact trimmed
          end
      end
  end.

(** [None] is a panic. *)
Definition resolve (text : str) (binding : option str) (tenant : str) (c : C)
    : option Resolution :=
  let trimmed := trim text in
  match parse_reserved trimmed with
  | Some cmd => Some (Reserved cmd)
  | None =>
      match parse_switch trimmed with
      | None => None
      | Some (Some sw) =>
          Some match match_one c (sw_name sw) with
               | MOne a =>
                   Selection (id a) (sw_rest sw) SwitchTo
                     (if sticky sw then Some (sw_bind c (sw_name sw)) else None)
               | MNone => Chooser (cat_list c) UnknownAgent (sw_rest sw)
               | MMany l => Chooser l Ambiguous (sw_rest sw)
               end
      | Some None => Some (resolve_plain trimmed binding tenant c)
      end
  end.

Definition confirm_pick (i msg : str) (c : C) : option Resolution :=
  (λ a, Selection (id a) msg ChooserPick (Some (id a))) <$> cat_get c i.
End Resolve.

(** ** Conversation keys and the in-memory binding store *)

Record ConvKey := { platform : str; space : str; thread : str; caller : str }.

(** One dash per character that is not alphanumeric: continuation bytes vanish. *)
Definition san (s : str) : str :=
  omap (λ c, if is_ascii_alphanumeric c then Some c
             else if is_continuation c then None else Some "-"%char) s.

Definition storage_id (k : ConvKey) : str :=
  san (platform k) ++ §"__" ++ san (space k) ++ §"__" ++ san (thread k) ++ §"__"
    ++ san (caller k).

Definition InMemoryBindingStore : Type := gmap str str.
Definition binding_get (k : ConvKey) (s : InMemoryBindingStore) : option str :=
  s !! storage_id k.
Definition binding_set (k : ConvKey) (agent : str) (s : InMemoryBindingStore)
    : InMemoryBindingStore := <[storage_id k := agent]> s.
Definition binding_clear (k : ConvKey) (s : InMemoryBindingStore) : InMemoryBindingStore :=
  delete (storage_id k) s.

(** ** Properties *)

#[export] Instance in_memory_scoped : CallerScoped InMemoryCatalog.
Proof.
  assert (∀ l i a, get_in l i = Some a → a ∈ l ∧ id a = i) as Hg.
  { intros l i a. unfold get_in, find_agent.
    destruct (list_find _ l) as [[n b]|] eqn:E; [|done]. intros [= <-].
    apply list_find_Some in E as (Hn & Hb & _). bool_facts.
    split; [by eapply list_elem_of_lookup_2|done]. }
  split; [intros c; apply Hg|]. intros c t a. cbn.
  destruct (tenant_defaults c !! t); [|done]. cbn. intros Ha. by apply Hg in Ha as [? _].
Defined.

Section Facts.
Context {C : Type} `{CallerScoped C}.

Lemma keep_sub P (c : C) l a : keep P c = l → a ∈ l → a ∈ cat_list c.
Proof. intros <-. unfold keep. rewrite list_elem_of_filter. tauto. Qed.

Lemma match_one_entitled (c : C) name :
  match match_one c name with
  | MOne a => a ∈ cat_list c
  | MNone => True
  | MMany l => ∀ a, a ∈ l → a ∈ cat_list c
  end.
Proof.
  unfold match_one. destruct (is_empty _); [done|].
  destruct (keep (exact_match _) c) as [|a [|b l]] eqn:E1;
    [destruct (keep (prefix_match _) c) as [|a [|b l]] eqn:E2;
      [destruct (keep (sub_match _) c) as [|a [|b l]] eqn:E3|..]|..];
    try done; try intros x Hx; (eapply keep_sub; [eassumption|set_solver]).
Qed.

(** What a resolution may name. *)
Definition entitled (c : C) (r : Resolution) : Prop :=
  match r with
  | Selection i _ src bind =>
      (∃ a, a ∈ cat_list c ∧ id a = i) ∧ (bind = None ∨ bind = Some i)
  | Chooser l _ _ => ∀ a, a ∈ l → a ∈ cat_list c
  | Reserved _ => True
  end.

Lemma resolve_plain_entitled text b t (c : C) : entitled c (resolve_plain text b t c).
Proof.
  unfold resolve_plain. destruct b as [bound|].
  - destruct (cat_get c bound) as [a|] eqn:E; [|by intros a].
    apply get_entitled in E as [? _]. cbn. eauto.
  - destruct (default_for c t) as [a|] eqn:E.
    + apply default_entitled in E. cbn. eauto.
    + destruct (cat_list c) as [|a [|a' l]] eqn:El; cbn; rewrite ?El;
        [done| |done].
      split; [|by right]. exists a. split; [set_solver|done].
Qed.
End Facts.

(** Routing is fail-closed.  For every message, binding and tenant, the
    agent a turn is routed to, the agent a conversation is bound to and every
    agent offered in a chooser is one the caller is entitled to, and a binding
    is only ever written to the agent the turn goes to; a chooser click is
    confirmed only for an entitled agent. *)
Theorem routing_entitled {C : Type} `{CallerScoped C} text binding tenant (c : C) i msg :
  (∀ r, resolve text binding tenant c = Some r → entitled c r)
  ∧ (∀ r, confirm_pick i msg c = Some r → entitled c r).
Proof.
  split.
  - intros r. unfold resolve. destruct (parse_reserved _); [by intros [= <-]|].
    destruct (parse_switch _) as [[sw|]|]; [| |done]; intros [= <-];
      [|apply resolve_plain_entitled].
    pose proof (match_one_entitled c (sw_name sw)) as M.
    destruct (match_one c (sw_name sw)) as [a| |l] eqn:E; [|intros x Hx; exact Hx|exact M].
    cbn. split; [eauto|]. destruct (sticky sw); [right|by left].
    unfold sw_bind. by rewrite E.
  - intros r. unfold confirm_pick. destruct (cat_get c i) as [a|] eqn:E; [|done].
    intros [= <-]. apply get_entitled in E as [? _]. cbn. eauto.
Qed.

Definition agent (i : str) : AgentDescriptor :=
  {| id := i; display := i; description := []; is_default := false |}.
Definition demo_catalog : InMemoryCatalog := InMemoryCatalog_new [agent §"sales"; agent §"ops"].

Lemma routing_entitled_witness :
  entitled demo_catalog (Selection §"ops" §"hello" SwitchTo (Some §"ops")).
Proof.
  apply (proj1 (routing_entitled §"/use op hello" None §"acme" demo_catalog [] [])).
  vm_compute. reflexivity.
Defined.

(** ** Slices fall on character boundaries *)

Lemma ws_len_lead c r : ws_len (c :: r) ≠ 0 → is_continuation c = false.
Proof.
  assert (∀ P : Prop, (P → byte c < 0x80 ∨ 0xBF < byte c)%N → P → is_continuation c = false) as R.
  { intros P HP [Hn|Hn]%HP; unfold is_continuation, in_range; apply andb_false_iff;
      rewrite !N.leb_gt; lia. }
  assert (ws1 c = true → is_continuation c = false) as W1.
  { apply R. unfold ws1, in_range.
    rewrite orb_true_iff, andb_true_iff, !N.leb_le, N.eqb_eq. lia. }
  assert (∀ x, ws2 c x = true → is_continuation c = false) as W2.
  { intros x. apply R. unfold ws2. rewrite andb_true_iff, N.eqb_eq. lia. }
  assert (∀ x y, ws3 c x y = true → is_continuation c = false) as W3.
  { intros x y. apply R. unfold ws3. rewrite !orb_true_iff, !andb_true_iff, !N.eqb_eq. lia. }
  unfold ws_len. destruct r as [|b [|d r]]; repeat case_match; naive_solver.
Qed.

Lemma find_ws_boundary s i :
  find_ws s = Some i → i ≤ length s ∧ is_char_boundary s i = true.
Proof.
  intros H. assert (∃ c, s !! i = Some c ∧ is_continuation c = false) as (c & Hc & Hn).
  { revert i H. induction s as [|a s IH]; [done|]. cbn [find_ws]. intros i.
    destruct (Nat.eqb_spec (ws_len (a :: s)) 0) as [E|E].
    - destruct (find_ws s) as [j|]; [|done]. intros [= <-]. by apply IH.
    - intros [= <-]. exists a. split; [done|]. by apply ws_len_lead in E. }
  split; [apply lookup_lt_Some in Hc; lia|].
  unfold is_char_boundary. destruct i; [done|]. by rewrite Hc, Hn.
Qed.

Lemma trim_start_id s : ws_len s = 0 → trim_start s = s.
Proof. unfold trim_start. destruct s; [done|]. cbn [trim_with]. by intros ->. Qed.

Lemma head_slice rest :
  ws_len rest = 0 → is_Some (slice_from (length (default rest (first_word rest))) rest).
Proof.
  intros H. unfold first_word. rewrite (trim_start_id rest H).
  unfold slice_from. destruct (is_empty rest) eqn:Ee; [by destruct rest|].
  cbn [from_option Datatypes.id]. destruct (find_ws rest) as [i|] eqn:E.
  - apply find_ws_boundary in E as [Hi Hb].
    rewrite length_take, Nat.min_l by done. rewrite Hb, (proj2 (Nat.leb_le _ _)) by done. eauto.
  - rewrite Nat.leb_refl. unfold is_char_boundary. destruct (length rest) eqn:El; [eauto|].
    rewrite <-El, lookup_ge_None_2, Nat.eqb_refl by lia. eauto.
Qed.

(** Every message gets a resolution, without a slice off a character
    boundary, unless it is a slash followed by whitespace. *)
Theorem routing_total {C : Type} `{AgentCatalog C} text binding tenant (c : C) :
  (∀ r, trim text = "/"%char :: r → ws_len r = 0) →
  is_Some (resolve text binding tenant c).
Proof.
  intros Hs. unfold resolve. destruct (parse_reserved (trim text)); [eauto|].
  assert (is_Some (parse_switch (trim text))) as [sw ->]; [|destruct sw; eauto].
  unfold parse_switch. destruct (strip_prefix §"/" (trim text)) as [rest|] eqn:E; [|eauto].
  assert (trim text = "/"%char :: rest) as Er.
  { destruct (trim text) as [|a t]; [done|]. cbn in E. by case_decide; simplify_eq. }
  case_match; [|eauto].
  destruct (head_slice rest) as [x ->]; [by apply Hs|cbn; eauto].
Qed.

Definition nbsp : str := [ascii_of_N 0xC2; ascii_of_N 0xA0].

Lemma routing_total_witness : is_Some (resolve (§"/use" ++ nbsp ++ §"ops") None §"acme" demo_catalog).
Proof.
  apply (routing_total (C := InMemoryCatalog)). vm_compute. by intros r [= <-].
Defined.

(** A slash followed by whitespace: the word is found after the whitespace but
    the slice is taken from the start.  With two no-break spaces the slice
    splits a character and panics; with one blank the name is wrong. *)
Theorem blank_after_slash_misparsed :
  resolve (§"/" ++ nbsp ++ nbsp ++ §"use") None §"acme" demo_catalog = None
  ∧ parse_switch §"/ use ops" =
      Some (Some {| sw_name := §"e"; sw_rest := §"ops"; sticky := true |}).
Proof. split; vm_compute; reflexivity. Qed.

(** ** A switch sticks *)

Lemma ws_len_ascii_sep t c s :
  (byte c <? 0x80)%N = true → t ≠ [] → ws_len (t ++ c :: s) = ws_len t.
Proof.
  intros Hc%N.ltb_lt Ht.
  assert (∀ a, ws2 a c = false) as W2.
  { intros a. unfold ws2. rewrite !(proj2 (N.eqb_neq (byte c) _)) by lia. apply andb_false_r. }
  assert (∀ a x, ws3 a c x = false ∧ ws3 a x c = false) as W3.
  { intros a x. unfold ws3, in_range. rewrite !(proj2 (N.eqb_neq (byte c) _)) by lia.
    rewrite !(proj2 (N.leb_gt _ (byte c))) by lia. cbn [andb orb].
    by rewrite ?andb_false_r, ?orb_false_r. }
  destruct t as [|a [|b [|d t]]]; [done|..|done]; unfold ws_len; cbn.
  - destruct s as [|x s]; rewrite W2; [done|]. by rewrite (proj1 (W3 a x)).
  - by rewrite (proj2 (W3 a b)).
Qed.

Lemma has_whitespace_cons a t :
  has_whitespace (a :: t) = false → ws_len (a :: t) = 0 ∧ has_whitespace t = false.
Proof.
  cbn [has_whitespace]. intros [H ?]%orb_false_iff. split; [|done].
  by apply Nat.eqb_eq, negb_false_iff.
Qed.

Lemma find_ws_word t s :
  has_whitespace t = false → find_ws (t ++ " "%char :: s) = Some (length t).
Proof.
  induction t as [|a t IH].
  - intros _. cbn [app find_ws length]. by destruct s as [|? [|? ?]].
  - intros [Ha Ht]%has_whitespace_cons. cbn [app find_ws length].
    change (a :: t ++ " "%char :: s) with ((a :: t) ++ " "%char :: s).
    by rewrite ws_len_ascii_sep, Ha, IH.
Qed.

Lemma trim_start_blank s : ws_len s = 0 → trim_start (" "%char :: s) = s.
Proof.
  intros Hs. unfold trim_start. cbn [trim_with].
  assert (ws_len (" "%char :: s) = 1) as -> by (by destruct s as [|? [|? ?]]).
  by apply trim_start_id.
Qed.

Lemma ws_len_word t s :
  t ≠ [] → has_whitespace t = false → ws_len (t ++ " "%char :: s) = 0.
Proof.
  intros Hn Hw. rewrite ws_len_ascii_sep by done. destruct t; [done|].
  by apply has_whitespace_cons in Hw as [? _].
Qed.

Lemma split_first_word_app name msg :
  name ≠ [] → has_whitespace name = false → ws_len msg = 0 →
  split_first_word (name ++ " "%char :: msg) = (name, msg).
Proof.
  intros Hn Hw Hm. unfold split_first_word. rewrite trim_start_id by by apply ws_len_word.
  by rewrite find_ws_word, take_app_length, drop_app_length, trim_start_blank.
Qed.

Lemma use_parses name msg :
  name ≠ [] → has_whitespace name = false → ws_len msg = 0 →
  parse_reserved (§"/use " ++ name ++ " "%char :: msg) = None
  ∧ parse_switch (§"/use " ++ name ++ " "%char :: msg) =
      Some (Some {| sw_name := name; sw_rest := msg; sticky := true |}).
Proof.
  intros Hn Hw Hm. pose proof (split_first_word_app name msg Hn Hw Hm) as E.
  set (t := name ++ _) in *.
  assert (first_word (§"use " ++ t) = Some §"use") as Ef.
  { unfold first_word. rewrite trim_start_id by done. cbn [is_empty lit app].
    change (§"use " ++ t) with (§"use" ++ " "%char :: t). by rewrite find_ws_word. }
  assert (strip_prefix §"/" (§"/use " ++ t) = Some (§"use " ++ t)) as Es by done.
  unfold parse_reserved, parse_switch. rewrite Es. cbn [mbind option_bind]. rewrite Ef.
  split; [done|]. change (slice_from _ _) with (Some (" "%char :: t)).
  cbn [fmap option_fmap option_map]. rewrite trim_start_blank by by apply ws_len_word.
  unfold switch_of. rewrite E. destruct name; done.
Qed.

(** [/use NAME MSG] is a sticky switch.  When [NAME] matches one agent, the
    turn goes to that agent with [MSG] as its text and the binding names it;
    and once the binding is stored, the conversation's next message that is no
    command and no mention goes to the same agent and leaves the binding as it
    is, whatever the tenant default. *)
Theorem use_switch_sticks {C : Type} `{CallerScoped C} (c : C) text name msg a b t k st text' :
  trim text = §"/use " ++ name ++ " "%char :: msg →
  name ≠ [] → has_whitespace name = false → ws_len msg = 0 →
  match_one c name = MOne a → cat_get c (id a) = Some a →
  strip_prefix §"/" (trim text') = None → strip_prefix §"@" (trim text') = None →
  resolve text b t c = Some (Selection (id a) msg SwitchTo (Some (id a)))
  ∧ resolve text' (binding_get k (binding_set k (id a) st)) t c =
      Some (Selection (id a) (trim text') Sticky None).
Proof.
  intros Ht Hn Hw Hm Ha Hg Hs Hat. unfold resolve. rewrite Ht.
  destruct (use_parses name msg Hn Hw Hm) as [-> ->]. cbn [sw_name sw_rest sticky].
  unfold sw_bind. rewrite Ha. split; [done|].
  assert (binding_get k (binding_set k (id a) st) = Some (id a)) as ->
    by apply lookup_insert_eq.
  unfold parse_reserved, parse_switch, resolve_plain. by rewrite Hs, Hat, Hg.
Qed.

Definition demo_key (space : str) : ConvKey :=
  {| platform := §"msteams"; space := space; thread := []; caller := §"u1" |}.

Lemma use_switch_sticks_witness :
  resolve §" /use op hello " None §"acme" demo_catalog =
    Some (Selection §"ops" §"hello" SwitchTo (Some §"ops"))
  ∧ resolve §"status?" (binding_get (demo_key §"c") (binding_set (demo_key §"c") §"ops" ∅))
      §"acme" demo_catalog = Some (Selection §"ops" §"status?" Sticky None).
Proof.
  apply (use_switch_sticks demo_catalog §" /use op hello " §"op" §"hello" (agent §"ops") None
           §"acme" (demo_key §"c") ∅ §"status?"); vm_compute; done.
Defined.

(** Two conversations can share a binding: the key's punctuation is erased. *)
Theorem conversation_keys_collide :
  demo_key §"19:ab" ≠ demo_key §"19-ab"
  ∧ ∀ st a, binding_get (demo_key §"19-ab") (binding_set (demo_key §"19:ab") a st) = Some a.
Proof.
  split; [done|]. intros st a. unfold binding_get, binding_set.
  change (storage_id (demo_key §"19:ab")) with (storage_id (demo_key §"19-ab")).
  exact (lookup_insert_eq st _ a).
Qed.
