(* ===== verification/ChatIdentity.v ===== *)
(** * ChatIdentity: from a platform sender to a principal
    (crates/triton-chat-identity/src/lib.rs)

    Two strategies: an operator's table, validated when it is parsed, and a
    resolver tool asked through the dispatcher.  Decoding JSON into the table
    and into the resolver's reply is [serde_json]'s, and is a parameter. *)

From S2P Require Import Prelude Json Errors Principal Context AuditLog Dispatcher.

Record SenderClaims := {
  sc_sub : str; sc_scopes : list str; sc_groups : list str; sc_tenant : str;
}.

(** Its fields are private in the source and [checked] is its only
    constructor. *)
Record Resolved := {
  r_sub : str; r_scopes : list str; r_groups : list str; r_tenant : str;
}.

Definition checked (sub : str) (scopes groups : list str) (tenant : str)
    : result Resolved TritonError :=
  _ ←? validate_resolved sub tenant;
  Ok {| r_sub := sub; r_scopes := scopes; r_groups := groups; r_tenant := tenant |}.

Inductive IdentityError :=
  | TableParse (e : str)
  | TableEntry (key reason : str)
  | EmptyResolverTool
  | ResolverToolCollision (tool : str)
  | UnsupportedKind (adapter got supported : str).

Inductive IdentityKind := KSenderTable | KAzure | KSelfEnrol | KUpstream.
#[export] Instance identity_kind_eq_dec : EqDecision IdentityKind.
Proof. solve_decision. Defined.

Definition kind_debug (k : IdentityKind) : str :=
  match k with
  | KSenderTable => §"SenderTable"
  | KAzure => §"Azure"
  | KSelfEnrol => §"SelfEnrol"
  | KUpstream => §"Upstream"
  end.

Definition require_supported_kind (adapter : str) (kind : IdentityKind)
    (supported : list IdentityKind) : result unit IdentityError :=
  if bool_decide (kind ∈ supported) then Ok ()
  else Err (UnsupportedKind adapter (kind_debug kind) (join §", " (kind_debug <$> supported))).

Definition validate_table_entry (key sub tenant : str) : result unit IdentityError :=
  result_map_err (λ e, TableEntry key (to_string e)) (validate_resolved sub tenant).

(** ** The sender table *)

Definition SenderTable : Type := gmap str SenderClaims.

(** The loop of [SenderTable::parse], in the map's iteration order. *)
Fixpoint validate_entries (raw : list (str * SenderClaims)) : result unit IdentityError :=
  match raw with
  | [] => Ok ()
  | (key, c) :: raw' =>
      _ ←? result_map_err (λ e, TableEntry key (to_string e))
             (validate_resolved (sc_sub c) (sc_tenant c));
      validate_entries raw'
  end.

Section Table.
(** [serde_json::from_str], with its error's text. *)
Variable decode_table : str → result SenderTable str.

Definition SenderTable_parse (json : str) : result SenderTable IdentityError :=
  raw ←? result_map_err TableParse (decode_table json);
  _ ←? validate_entries (map_to_list raw);
  Ok raw.
End Table.

Definition SenderTable_resolve (table : SenderTable) (sender_key : str) : option Resolved :=
  c ← table !! sender_key;
  match checked (sc_sub c) (sc_scopes c) (sc_groups c) (sc_tenant c) with
  | Ok r => Some r
  | Err _ => None
  end.

(** ** The upstream resolver *)

Record UpstreamResolver := {
  ur_tool : str;
  ur_platform : str;
  ur_protocol : str;
}.

Definition UpstreamResolver_new {W : Type} (tool platform protocol : str) (d : Dispatcher W)
    : result UpstreamResolver IdentityError :=
  if is_empty (trim tool) then Err EmptyResolverTool
  else if bool_decide (is_Some (registry d !! tool)) then Err (ResolverToolCollision tool)
  else Ok {| ur_tool := tool; ur_platform := platform; ur_protocol := protocol |}.

Record ResolverReply := {
  rr_sub : str; rr_scopes : list str; rr_groups : list str; rr_tenant : str;
}.

(** The principal the resolver is asked as; [trace] is a fresh v4 UUID. *)
Definition bootstrap (sender_key trace : str) : Principal :=
  {| sub := §"identity-resolver"; scopes := [§"resolve"]; groups := []; tenant := §"system";
     raw_token := []; trace_id := trace; sender_ref := Some sender_key;
     conversation_ref := None; idp := None |}.

Definition resolver_args (r : UpstreamResolver) (sender_key : str) : Value :=
  json_object [(§"platform", Value.String (ur_platform r)); (§"sender", Value.String sender_key)].

Section Resolver.
Context {W : Type}.
Variable debug_set : gset str → str.
(** [serde_json::from_value], with its error's text. *)
Variable decode_reply : Value → result ResolverReply str.

Definition resolver_resolve (r : UpstreamResolver) (d : Dispatcher W) (c : Clock)
    (trace sender_key : str) (w : World W) : result Resolved TritonError * World W :=
  if is_empty sender_key then (Err (Auth §"empty sender for upstream resolver"), w)
  else
    let '(res, w1) := invoke debug_set d c (ur_tool r) (resolver_args r sender_key)
                        (bootstrap sender_key trace) (ur_protocol r) w in
    (match res with
     | Err e => Err (Auth (§"identity resolver `" ++ ur_tool r ++ §"`: " ++ to_string e))
     | Ok dispatch =>
         match decode_reply (dr_result dispatch) with
         | Err e => Err (Auth (§"resolver reply not {sub,scopes,tenant}: " ++ e))
         | Ok reply => checked (rr_sub reply) (rr_scopes reply) (rr_groups reply)
                         (rr_tenant reply)
         end
     end, w1).
End Resolver.

(** ** Properties *)

Lemma checked_spec s sc g t r :
  checked s sc g t = Ok r ↔
    well_formed_field s ∧ well_formed_field t
    ∧ r = {| r_sub := s; r_scopes := sc; r_groups := g; r_tenant := t |}.
Proof.
  pose proof (validate_resolved_ok s t) as V. unfold checked, result_bind.
  destruct (validate_resolved s t) as [[]|e]; split.
  - intros [= <-]. by destruct (proj1 V eq_refl).
  - by intros (_ & _ & ->).
  - done.
  - intros (Hs & Ht & _). by specialize (proj2 V (conj Hs Ht)).
Qed.

Lemma validate_entries_ok raw :
  validate_entries raw = Ok () ↔
    Forall (λ kc, well_formed_field (sc_sub kc.2) ∧ well_formed_field (sc_tenant kc.2)) raw.
Proof.
  induction raw as [|[k c] raw IH]; simpl; [by split|].
  unfold result_bind, result_map_err. rewrite Forall_cons, <-IH. cbn [snd].
  rewrite <-validate_resolved_ok.
  destruct (validate_resolved (sc_sub c) (sc_tenant c)) as [[]|]; [tauto|].
  split; [done|]. by intros [? _].
Qed.

(** The identity an entry stands for. *)
Definition entry_identity (c : SenderClaims) : Resolved :=
  {| r_sub := sc_sub c; r_scopes := sc_scopes c; r_groups := sc_groups c;
     r_tenant := sc_tenant c |}.

(** A sender table that parsed resolves every sender it names, to that
    entry's own claims, and nobody else; and every identity it can yield has a
    bounded, printable subject and tenant.  A document with one unusable entry
    is refused. *)
Theorem sender_table_sound decode json table :
  decode json = Ok table →
  match SenderTable_parse decode json with
  | Ok t =>
      t = table
      ∧ ∀ key, SenderTable_resolve t key =
          entry_identity <$> table !! key
      ∧ ∀ r, SenderTable_resolve t key = Some r →
          well_formed_field (r_sub r) ∧ well_formed_field (r_tenant r)
  | Err _ =>
      ∃ key c, table !! key = Some c
               ∧ ¬ (well_formed_field (sc_sub c) ∧ well_formed_field (sc_tenant c))
  end.
Proof.
  intros E. unfold SenderTable_parse. rewrite E. cbn [result_map_err result_bind].
  destruct (validate_entries (map_to_list table)) as [[]|e] eqn:V; cbn [result_bind].
  - split; [done|]. apply validate_entries_ok in V. rewrite Forall_forall in V.
    assert (∀ key, SenderTable_resolve table key = entry_identity <$> table !! key) as R.
    { intros key. unfold SenderTable_resolve. destruct (table !! key) as [c|] eqn:K; [|done].
      destruct (V (key, c)) as [Hs Ht]; [by apply elem_of_map_to_list|]. cbn.
      by rewrite (proj2 (checked_spec _ _ _ _ _) (conj Hs (conj Ht eq_refl))). }
    intros key. split; [apply R|]. rewrite R. intros r.
    destruct (table !! key) as [c|] eqn:K; [|done]. intros [= <-].
    by apply (V (key, c)), elem_of_map_to_list.
  - assert (¬ Forall (λ kc, well_formed_field (sc_sub kc.2) ∧ well_formed_field (sc_tenant kc.2))
              (map_to_list table)) as N by (rewrite <-validate_entries_ok; congruence).
    apply not_Forall_Exists in N; [|intros ?; apply _].
    apply Exists_exists in N as ([key c] & Hin & Hn). exists key, c.
    split; [by apply elem_of_map_to_list|exact Hn].
Qed.

Definition demo_claims (s : str) : SenderClaims :=
  {| sc_sub := s; sc_scopes := []; sc_groups := []; sc_tenant := §"acme" |}.
Definition demo_table : SenderTable := {[ §"42" := demo_claims §"alice" ]}.
Definition bad_table : SenderTable := {[ §"42" := demo_claims §"alice smith" ]}.
Definition demo_decode (json : str) : result SenderTable str :=
  if bool_decide (json = §"bad") then Ok bad_table else Ok demo_table.

Lemma sender_table_sound_witness :
  match SenderTable_parse demo_decode §"{..}" with
  | Ok t => SenderTable_resolve t §"42" = Some (entry_identity (demo_claims §"alice"))
  | Err _ => False
  end
  ∧ SenderTable_parse demo_decode §"bad"
    = Err (TableEntry §"42" §"auth: identity resolver returned a sub containing whitespace or control characters").
Proof.
  split; [|vm_compute; reflexivity].
  pose proof (sender_table_sound demo_decode §"{..}" demo_table eq_refl) as H.
  destruct (SenderTable_parse demo_decode §"{..}") as [t|e] eqn:E.
  - destruct H as [-> H]. rewrite (proj1 (H §"42")). vm_compute. reflexivity.
  - vm_compute in E. discriminate E.
Defined.

Lemma upstream_answered {W : Type} dbg (d : Dispatcher W) c tl args p pr ov w dr w1 :
  invoke_with dbg d c tl args p pr ov w = (Ok dr, w1) → registry d !! tl = None →
  ∃ u, upstream d = Some u
       ∧ (up_invoke u tl (prepare_args args ov) p (dispatch_context pr (surfaces d) ov)
            (outside w)).1 = Ok (dr_result dr).
Proof.
  intros I Hreg. unfold invoke_with, run in I.
  destruct (gate_cases dbg d c tl pr p w) as [[E _]|(m & w' & E & _)]; rewrite E in I; [|done].
  rewrite Hreg in I. destruct (upstream d) as [u|]; [|done]. exists u. split; [done|].
  destruct (up_invoke _ _ _ _ _ _) as [[v|e] o]; [|done]. by injection I as <- _.
Qed.

(** An identity the upstream strategy yields was answered by the upstream.
    When a resolver was accepted for a dispatcher and resolves a sender, the
    sender is not empty, the upstream router (never an in-process tool) was
    called with that sender, its answer decoded to exactly these claims, their
    subject and tenant passed the boundary check, and the call left one audit
    line, under the resolver's own protocol label, that names the sender. *)
Theorem upstream_identity_sound {W : Type} dbg decode (d : Dispatcher W) tl platform protocol
    ur c trace key w r w' :
  UpstreamResolver_new tl platform protocol d = Ok ur →
  resolver_resolve dbg decode ur d c trace key w = (Ok r, w') →
  key ≠ [] ∧ well_formed_field (r_sub r) ∧ well_formed_field (r_tenant r)
  ∧ (∃ u v ctx reply,
        upstream d = Some u
        ∧ (up_invoke u tl (prepare_args (resolver_args ur key) no_overrides)
             (bootstrap key trace) ctx (outside w)).1 = Ok v
        ∧ decode v = Ok reply
        ∧ r = {| r_sub := rr_sub reply; r_scopes := rr_scopes reply;
                 r_groups := rr_groups reply; r_tenant := rr_tenant reply |})
  ∧ one_line w w' (λ l, line_for tl protocol (bootstrap key trace) l
                        ∧ au_sender_ref l = Some key ∧ au_result l = §"ok").
Proof.
  unfold UpstreamResolver_new. destruct (is_empty (trim tl)); [done|].
  case_bool_decide as Hreg; [done|]. intros [= <-]. apply eq_None_not_Some in Hreg.
  unfold resolver_resolve, invoke. cbn [ur_tool ur_protocol].
  destruct (is_empty key) eqn:Ek; [done|].
  set (ur := {| ur_tool := tl |}).
  pose proof (invoke_with_line dbg d c tl (resolver_args ur key) (bootstrap key trace) protocol
                no_overrides w) as L.
  destruct (invoke_with _ _ _ _ _ _ _ _ _) as [res w1] eqn:I. cbn [fst snd] in L.
  destruct res as [dr|e]; [|done].
  destruct (decode (dr_result dr)) as [reply|e] eqn:D; [|done].
  intros [= C <-]. apply checked_spec in C as (Hs & Ht & ->).
  split; [by intros ->|]. split; [done|]. split; [done|]. split.
  - destruct (upstream_answered _ _ _ _ _ _ _ _ _ _ _ I Hreg) as (u & Hu & Hv).
    eauto 10.
  - eapply one_line_impl; [|exact L]. intros l [Hf [Ho _]]. split; [done|].
    split; [apply Hf|done].
Qed.

Definition demo_reply (v : Value) : result ResolverReply str :=
  match get_str §"sender" v with
  | Some s => Ok {| rr_sub := s; rr_scopes := []; rr_groups := []; rr_tenant := §"acme" |}
  | None => Err §"missing field `sub`"
  end.

Definition demo_resolver : UpstreamResolver :=
  {| ur_tool := §"who"; ur_platform := §"telegram"; ur_protocol := §"telegram-resolve" |}.
Definition demo_identity : Resolved :=
  {| r_sub := §"42"; r_scopes := []; r_groups := []; r_tenant := §"acme" |}.
Definition asked (d : Dispatcher nat) : result Resolved TritonError * World nat :=
  resolver_resolve no_debug demo_reply demo_resolver d tick §"t" §"42" (World_new unenforced 0).

Lemma upstream_identity_sound_witness :
  let d := demo_dispatcher (Some echo_upstream) unenforced in
  (asked d).1 = Ok demo_identity ∧ well_formed_field (r_sub demo_identity).
Proof.
  intros d. assert ((asked d).1 = Ok demo_identity) as E by (vm_compute; reflexivity).
  split; [exact E|].
  assert (UpstreamResolver_new §"who" §"telegram" §"telegram-resolve" d = Ok demo_resolver) as N
    by (vm_compute; reflexivity).
  assert (asked d = (Ok demo_identity, (asked d).2)) as A by (by rewrite <-E, <-surjective_pairing).
  exact (proj1 (proj2 (upstream_identity_sound _ _ _ _ _ _ _ _ _ _ _ _ _ N A))).
Defined.
