(* ===== verification/Manifest.v ===== *)
(** * Manifest: the deployment manifest and its secrets
    (crates/triton-manifest/src/lib.rs, crates/triton-secrets/src/lib.rs)

    A manifest is decoded from YAML (a third-party decoder, a parameter), its
    version is checked, and [validate] applies the rules that span fields: every
    adapter covers what the tools emit, has the credentials its schemes need and
    a positive rate, and in production holds no literal credential.  Maps are
    [BTreeMap]s: association lists in key order. *)

From S2P Require Import Prelude ChatIdentity.

Module Env.
Inductive t := Dev | Production.
End Env.

Inductive AdapterKind :=
  | AKTelegram | AKWhatsappWeb | AKWhatsappCloud | AKSignal | AKMsTeams | AKDiscord
  | AKGoogleChat | AKEmail | AKTwilioWhatsapp | AKTwilioRcs.
#[export] Instance AdapterKind_eq_dec : EqDecision AdapterKind.
Proof. solve_decision. Defined.

Inductive InboundKind := IWebhook | ISocket | ILongPoll.
#[export] Instance InboundKind_eq_dec : EqDecision InboundKind.
Proof. solve_decision. Defined.
Inductive OutboundKind := ORestApi | OSocket | OBotConnector.
#[export] Instance OutboundKind_eq_dec : EqDecision OutboundKind.
Proof. solve_decision. Defined.

Definition inbound_kind_debug (k : InboundKind) : str :=
  match k with IWebhook => §"Webhook" | ISocket => §"Socket" | ILongPoll => §"LongPoll" end.
Definition outbound_kind_debug (k : OutboundKind) : str :=
  match k with ORestApi => §"RestApi" | OSocket => §"Socket" | OBotConnector => §"BotConnector" end.

Inductive SignatureScheme :=
  | SecretToken | Hmac256 | BotFrameworkJwt | Ed25519 | GoogleOidcJwt | TrustedSocket
  | TwilioSignature.
#[export] Instance SignatureScheme_eq_dec : EqDecision SignatureScheme.
Proof. solve_decision. Defined.

Definition scheme_debug (s : SignatureScheme) : str :=
  match s with
  | SecretToken => §"SecretToken"
  | Hmac256 => §"Hmac256"
  | BotFrameworkJwt => §"BotFrameworkJwt"
  | Ed25519 => §"Ed25519"
  | GoogleOidcJwt => §"GoogleOidcJwt"
  | TrustedSocket => §"TrustedSocket"
  | TwilioSignature => §"TwilioSignature"
  end.

Inductive ComponentKind :=
  | CText | CNarration | CMedia | CButtons | CSelections | CForms | CDashboard | CSources
  | CReport | CLists | CTables | CChips | CTrees | CNotices | CProgress | CKeyValues | CEmbeds.
#[export] Instance ComponentKind_eq_dec : EqDecision ComponentKind.
Proof. solve_decision. Defined.

Definition component_kind_str (k : ComponentKind) : str :=
  match k with
  | CText => §"text" | CNarration => §"narration" | CMedia => §"media"
  | CButtons => §"buttons" | CSelections => §"selections" | CForms => §"forms"
  | CDashboard => §"dashboard" | CSources => §"sources" | CReport => §"report"
  | CLists => §"lists" | CTables => §"tables" | CChips => §"chips" | CTrees => §"trees"
  | CNotices => §"notices" | CProgress => §"progress" | CKeyValues => §"key_values"
  | CEmbeds => §"embeds"
  end.

Inductive DegradeRule :=
  | Passthrough | ChunkedText | InlineKeyboard | ComponentsV2 | AdaptiveCard
  | AdaptiveCardColumnSet | NumberedPrompts | RasterisedPng | CardV2 | NumberedList
  | CopyLines | IndentedText | StatusLines | KeyValueLines | InlineFallback | TaskModule.

(** ** Credentials *)

Inductive SecretField :=
  | Vault (path field : str)
  | EnvRef (var : str)
  | Literal (s : str).

(** [s.chars().count()]: the bytes that start a character. *)
Definition char_count (s : str) : nat :=
  length (filter (λ c, is_continuation c = false) s).

(** The form an operator sees: references as they are, a literal masked. *)
Definition secret_serialize (f : SecretField) : str :=
  match f with
  | Vault path field => §"vault://" ++ path ++ §"#" ++ field
  | EnvRef var => §"env://" ++ var
  | Literal v => §"<literal:" ++ dec (Z.of_nat (char_count v)) ++ §" chars>"
  end.

Definition secret_deserialize (s : str) : result SecretField str :=
  match strip_prefix §"vault://" s with
  | Some rest =>
      match split_once "#" rest with
      | None => Err §"vault ref must be `vault://<path>#<field>` (missing `#` separator)"
      | Some (path, field) =>
          if is_empty path then Err §"vault ref `<path>` MUST be non-empty"
          else if is_empty field then Err §"vault ref `<field>` MUST be non-empty after `#`"
          else Ok (Vault path field)
      end
  | None =>
      match strip_prefix §"env://" s with
      | Some var =>
          if is_empty var then Err §"env ref `env://<VARNAME>` MUST name a non-empty variable"
          else Ok (EnvRef var)
      | None => Ok (Literal s)
      end
  end.

Inductive ResolveError :=
  | VaultDecommissioned (ref_string : str)
  | EnvNotSet (var : str).

Definition missing_env_var (e : ResolveError) : option str :=
  match e with EnvNotSet var => Some var | VaultDecommissioned _ => None end.

(** [getenv] is the process environment: [None] when the variable is unset or
    not UTF-8. *)
Definition resolve_env (getenv : str → option str) (var : str) : result str ResolveError :=
  ok_or (getenv var) (EnvNotSet var).

Definition LiteralResolver_resolve (getenv : str → option str) (f : SecretField)
    : result str ResolveError :=
  match f with
  | Literal s => Ok s
  | EnvRef var => resolve_env getenv var
  | Vault path field => Err (VaultDecommissioned (§"vault://" ++ path ++ §"#" ++ field))
  end.

(** ** The manifest *)

Definition Credentials := list (str * SecretField).

Fixpoint cred (k : str) (m : Credentials) : option SecretField :=
  match m with
  | (k', v) :: m' => if decide (k = k') then Some v else cred k m'
  | [] => None
  end.
Definition has_cred (k : str) (m : Credentials) : bool := bool_decide (is_Some (cred k m)).

Record Inbound := {
  in_kind : InboundKind; in_signature : SignatureScheme; in_credentials : Credentials;
}.
Record Outbound := { out_kind : OutboundKind; out_credentials : Credentials }.
Record Identity := {
  id_kind : IdentityKind; id_pairing_tool : option str; id_credentials : Credentials;
}.
Record RateLimit := { rl_messages_per_sec : Z; rl_burst : Z }.

Inductive TemplateCategory := Utility | Marketing | Authentication.
#[export] Instance TemplateCategory_eq_dec : EqDecision TemplateCategory.
Proof. solve_decision. Defined.

Record TemplateDecl := { td_name : str; td_language : str }.

Record Adapter := {
  a_kind : AdapterKind;
  a_tool : str;
  a_inbound : Inbound;
  a_outbound : Outbound;
  a_identity : Identity;
  a_degrade : list (ComponentKind * DegradeRule);
  a_rate_limit : RateLimit;
  a_correlation_key : SecretField;
  a_templates : list (TemplateCategory * TemplateDecl);
  a_surface_guidance : option str;
}.

Definition MAX_SURFACE_GUIDANCE_CHARS : nat := 1000.

Record ToolDecl := { surface_components : list ComponentKind }.

Record Manifest := {
  version : str;
  adapters : list (str * Adapter);
  tools : list (str * ToolDecl);
}.

Inductive ManifestError :=
  | Io (path source : str)
  | Parse (path source : str)
  | CoverageGap (tool : str) (component : ComponentKind) (adapter : str)
  | LiteralCredentialInProd (path : str)
  | UnsupportedVersion (actual : str)
  | MissingSchemeCredential (adapter scheme field : str)
  | ZeroRateLimit (adapter field : str)
  | SurfaceGuidanceTooLong (adapter : str) (chars : nat).

Definition SUPPORTED_VERSIONS : list str := [§"0.2"].

(** [read] is [std::fs::read], [from_slice] the YAML decoder. *)
Definition load (read : str → result str str) (from_slice : str → result Manifest str)
    (path : str) : result Manifest ManifestError :=
  bytes ←? result_map_err (Io path) (read path);
  parsed ←? result_map_err (Parse path) (from_slice bytes);
  if bool_decide (version parsed ∈ SUPPORTED_VERSIONS) then Ok parsed
  else Err (UnsupportedVersion (version parsed)).

(** ** Required credentials *)

Definition inbound_required (a : Adapter) : list (str * str) :=
  match in_signature (a_inbound a) with
  | SecretToken => [(§"secret_token", §"secret")]
  | Hmac256 => [(§"hmac256", §"secret")]
  | Ed25519 => [(§"ed25519", §"public_key")]
  | BotFrameworkJwt => [(§"bot_framework_jwt", §"audience")]
  | GoogleOidcJwt => [(§"google_oidc_jwt", §"audience")]
  | TrustedSocket =>
      match a_kind a with
      | AKSignal => [(§"trusted_socket", §"signald_addr"); (§"trusted_socket", §"account")]
      | _ => []
      end
  | TwilioSignature => [(§"twilio_signature", §"secret")]
  end.

Definition outbound_required (a : Adapter) : list (str * str) :=
  match out_kind (a_outbound a) with
  | ORestApi => [(§"rest_api", §"token")]
  | OSocket => []
  | OBotConnector => [(§"bot_connector", §"client_id")]
  end.

Definition identity_required (a : Adapter) : str * str :=
  match id_kind (a_identity a) with
  | KSenderTable => (§"sender_table", §"table")
  | KSelfEnrol => (§"self_enrol", §"fallback_table")
  | KAzure => (§"azure", §"azure_identity")
  | KUpstream => (§"upstream", §"resolver_tool")
  end.

(** The first missing field of a list of (scheme, field). *)
Fixpoint require_all (name prefix : str) (req : list (str * str)) (m : Credentials)
    : result unit ManifestError :=
  match req with
  | [] => Ok ()
  | (scheme, field) :: req' =>
      if has_cred field m then require_all name prefix req' m
      else Err (MissingSchemeCredential name (prefix ++ scheme) field)
  end.

(** Exactly one proof for a bot connector, and a tenant for the federated one. *)
Definition check_bot_connector (name : str) (a : Adapter) : result unit ManifestError :=
  if bool_decide (out_kind (a_outbound a) = OBotConnector) then
    let has_secret := has_cred §"client_secret" (out_credentials (a_outbound a)) in
    let has_federated := has_cred §"federated_token_file" (out_credentials (a_outbound a)) in
    if Bool.eqb has_secret has_federated then
      Err (MissingSchemeCredential name §"outbound.kind=bot_connector"
             (if has_secret
              then §"exactly one of client_secret or federated_token_file (both declared)"
              else §"client_secret or federated_token_file"))
    else if has_federated && negb (has_cred §"tenant_id" (out_credentials (a_outbound a))) then
      Err (MissingSchemeCredential name §"outbound.kind=bot_connector (federated)" §"tenant_id")
    else Ok ()
  else Ok ().

Definition twilio_kind_label (k : AdapterKind) : option str :=
  match k with
  | AKTwilioWhatsapp => Some §"twilio_whatsapp"
  | AKTwilioRcs => Some §"twilio_rcs"
  | _ => None
  end.

Definition check_required_credentials (a : Adapter) (name : str) : result unit ManifestError :=
  let inb := in_credentials (a_inbound a) in
  let out := out_credentials (a_outbound a) in
  _ ←? require_all name §"inbound.signature=" (inbound_required a) inb;
  _ ←? require_all name §"outbound.kind=" (outbound_required a) out;
  _ ←? check_bot_connector name a;
  _ ←? (if bool_decide (a_kind a = AKWhatsappCloud)
        then require_all name §"kind=" [(§"whatsapp_cloud", §"phone_number_id")] out else Ok ());
  _ ←? match twilio_kind_label (a_kind a) with
       | Some l =>
           _ ←? require_all name §"kind=" [(l, §"account_sid"); (l, §"from")] out;
           require_all name §"kind=" [(l, §"public_url")] inb
       | None => Ok ()
       end;
  require_all name §"identity.kind=" [identity_required a] (id_credentials (a_identity a)).

(** ** Literals *)

Definition is_twilio (k : AdapterKind) : bool := bool_decide (is_Some (twilio_kind_label k)).

(** Not a secret: a Twilio adapter's own public URLs, the name of a resolver
    tool. *)
Definition inbound_exempt (a : Adapter) (k : str) : bool :=
  (bool_decide (k = §"public_url") || bool_decide (k = §"status_callback_public_url"))
  && is_twilio (a_kind a).

Definition secret_paths (name : str) (a : Adapter) : list (str * SecretField) :=
  let at_ part := λ '(k, v), (§"adapters." ++ name ++ §"." ++ part ++ §"." ++ k, v) in
  (at_ §"inbound" <$> filter (λ e, inbound_exempt a e.1 = false) (in_credentials (a_inbound a)))
  ++ (at_ §"outbound" <$> out_credentials (a_outbound a))
  ++ (at_ §"identity" <$> filter (λ e, e.1 ≠ §"resolver_tool") (id_credentials (a_identity a)))
  ++ [(§"adapters." ++ name ++ §".correlation_key", a_correlation_key a)].

Fixpoint visit_paths (env : Env.t) (paths : list (str * SecretField)) (warnings : list str)
    : result (list str) ManifestError :=
  match paths with
  | [] => Ok warnings
  | (path, Literal _) :: paths' =>
      match env with
      | Env.Production => Err (LiteralCredentialInProd path)
      | Env.Dev =>
          visit_paths env paths'
            (warnings ++ [§"dev manifest carries literal credential at " ++ path
                            ++ §" (production deploy would refuse)"])
      end
  | _ :: paths' => visit_paths env paths' warnings
  end.

Definition visit_secrets (a : Adapter) (name : str) (env : Env.t) (warnings : list str)
    : result (list str) ManifestError :=
  visit_paths env (secret_paths name a) warnings.

(** ** [validate] *)

Fixpoint for_each {A E} (l : list A) (f : A → result unit E) : result unit E :=
  match l with
  | [] => Ok ()
  | a :: l' => _ ←? f a; for_each l' f
  end.

Definition degrades (a : Adapter) (c : ComponentKind) : bool :=
  bool_decide (c ∈ (a_degrade a).*1).

Definition check_coverage (m : Manifest) : result unit ManifestError :=
  for_each (tools m) (λ '(tool, t),
    for_each (surface_components t) (λ c,
      for_each (adapters m) (λ '(name, a),
        if degrades a c then Ok () else Err (CoverageGap tool c name)))).

Definition check_rate (name : str) (a : Adapter) : result unit ManifestError :=
  if (rl_messages_per_sec (a_rate_limit a) =? 0)%Z
  then Err (ZeroRateLimit name §"messages_per_sec")
  else if (rl_burst (a_rate_limit a) =? 0)%Z then Err (ZeroRateLimit name §"burst")
  else Ok ().

Definition check_guidance (name : str) (a : Adapter) : result unit ManifestError :=
  match a_surface_guidance a with
  | Some g => if (MAX_SURFACE_GUIDANCE_CHARS <? char_count g)%nat
              then Err (SurfaceGuidanceTooLong name (char_count g)) else Ok ()
  | None => Ok ()
  end.

Fixpoint visit_all (env : Env.t) (l : list (str * Adapter)) (warnings : list str)
    : result (list str) ManifestError :=
  match l with
  | [] => Ok warnings
  | (name, a) :: l' =>
      warnings ←? visit_secrets a name env warnings;
      visit_all env l' warnings
  end.

Definition validate (m : Manifest) (env : Env.t) : result (list str) ManifestError :=
  _ ←? check_coverage m;
  _ ←? for_each (adapters m) (λ '(name, a), check_required_credentials a name);
  _ ←? for_each (adapters m) (λ '(name, a), check_rate name a);
  _ ←? for_each (adapters m) (λ '(name, a), check_guidance name a);
  visit_all env (adapters m) [].

(** ** Properties *)

Lemma for_each_Ok {A E} (l : list A) (f : A → result unit E) :
  for_each l f = Ok () ↔ ∀ a, a ∈ l → f a = Ok ().
Proof.
  induction l as [|a l IH]; cbn [for_each]; [split; [by intros _ a ?%elem_of_nil|done]|].
  setoid_rewrite elem_of_cons. destruct (f a) as [[]|e] eqn:E'; cbn [result_bind].
  - rewrite IH. naive_solver.
  - split; [done|]. intros Hl. rewrite <-E'. auto.
Qed.

Lemma result_bind_Ok {A B E} (r : result A E) (k : A → result B E) b :
  result_bind r k = Ok b ↔ ∃ a, r = Ok a ∧ k a = Ok b.
Proof. destruct r; cbn; naive_solver. Qed.

Lemma unit_bind_Ok {B E} (r : result unit E) (k : result B E) b :
  result_bind r (λ _, k) = Ok b ↔ r = Ok () ∧ k = Ok b.
Proof. rewrite result_bind_Ok. split; [intros ([] & ? & ?); done|naive_solver]. Qed.

Lemma require_all_Ok name prefix req m :
  require_all name prefix req m = Ok () ↔ ∀ r, r ∈ req → has_cred r.2 m = true.
Proof.
  induction req as [|[sc f] req IH]; cbn [require_all]; [split; [by intros _ r ?%elem_of_nil|done]|].
  setoid_rewrite elem_of_cons. destruct (has_cred f m) eqn:E; [rewrite IH; naive_solver|].
  split; [done|]. intros Hr. specialize (Hr (sc, f) (or_introl eq_refl)). cbn in Hr. congruence.
Qed.

(** A bot connector proves itself with exactly one of its two credentials. *)
Definition bot_connector_proof (a : Adapter) : Prop :=
  let out := out_credentials (a_outbound a) in
  out_kind (a_outbound a) = OBotConnector →
  (has_cred §"client_secret" out = true ∧ has_cred §"federated_token_file" out = false)
  ∨ (has_cred §"client_secret" out = false ∧ has_cred §"federated_token_file" out = true
     ∧ has_cred §"tenant_id" out = true).

(** Every credential the adapter's schemes need is declared. *)
Record credentials_present (a : Adapter) : Prop := {
  cp_inbound r : r ∈ inbound_required a → has_cred r.2 (in_credentials (a_inbound a)) = true;
  cp_outbound r : r ∈ outbound_required a → has_cred r.2 (out_credentials (a_outbound a)) = true;
  cp_connector : bot_connector_proof a;
  cp_cloud : a_kind a = AKWhatsappCloud →
    has_cred §"phone_number_id" (out_credentials (a_outbound a)) = true;
  cp_twilio : is_twilio (a_kind a) = true →
    has_cred §"account_sid" (out_credentials (a_outbound a)) = true
    ∧ has_cred §"from" (out_credentials (a_outbound a)) = true
    ∧ has_cred §"public_url" (in_credentials (a_inbound a)) = true;
  cp_identity : has_cred (identity_required a).2 (id_credentials (a_identity a)) = true;
}.

Lemma check_bot_connector_Ok name a :
  check_bot_connector name a = Ok () ↔ bot_connector_proof a.
Proof.
  unfold check_bot_connector, bot_connector_proof. case_bool_decide as E; [|split; [done|done]].
  set (out := out_credentials (a_outbound a)).
  destruct (has_cred §"client_secret" out), (has_cred §"federated_token_file" out),
    (has_cred §"tenant_id" out); cbn [Bool.eqb andb negb];
    (split; [first [done|by auto]|]); intros Hp; try done;
    by destruct (Hp E) as [[? ?]|(? & ? & ?)].
Qed.

Lemma check_required_Ok a name :
  check_required_credentials a name = Ok () ↔ credentials_present a.
Proof.
  unfold check_required_credentials. rewrite !unit_bind_Ok, !require_all_Ok, check_bot_connector_Ok.
  assert ((if bool_decide (a_kind a = AKWhatsappCloud)
           then require_all name §"kind=" [(§"whatsapp_cloud", §"phone_number_id")]
                  (out_credentials (a_outbound a)) else Ok ()) = Ok ()
    ↔ (a_kind a = AKWhatsappCloud →
       has_cred §"phone_number_id" (out_credentials (a_outbound a)) = true)) as ->.
  { case_bool_decide; [|split; [done|done]]. rewrite require_all_Ok.
    split; [intros Hr _; apply (Hr (§"whatsapp_cloud", §"phone_number_id")); left|].
    intros Hr r ->%list_elem_of_singleton. auto. }
  assert (match twilio_kind_label (a_kind a) with
          | Some l =>
              _ ←? require_all name §"kind=" [(l, §"account_sid"); (l, §"from")]
                     (out_credentials (a_outbound a));
              require_all name §"kind=" [(l, §"public_url")] (in_credentials (a_inbound a))
          | None => Ok ()
          end = Ok ()
    ↔ (is_twilio (a_kind a) = true →
       has_cred §"account_sid" (out_credentials (a_outbound a)) = true
       ∧ has_cred §"from" (out_credentials (a_outbound a)) = true
       ∧ has_cred §"public_url" (in_credentials (a_inbound a)) = true)) as ->.
  { unfold is_twilio. destruct (twilio_kind_label (a_kind a)) as [l|]; [|split; [done|done]].
    rewrite bool_decide_true by done. rewrite unit_bind_Ok, !require_all_Ok. split.
    - intros [Ho Hi] _. split; [apply (Ho (l, §"account_sid")); left|].
      split; [apply (Ho (l, §"from")); right; left|apply (Hi (l, §"public_url")); left].
    - intros Hp. destruct (Hp eq_refl) as (H1 & H2 & H3). split.
      + by intros r [->| ->%list_elem_of_singleton]%elem_of_cons.
      + by intros r ->%list_elem_of_singleton. }
  split.
  - intros (H1 & H2 & H3 & H4 & H5 & H6). split; try done. apply (H6 (identity_required a)). left.
  - intros [H1 H2 H3 H4 H5 H6]. repeat (split; [assumption|]).
    by intros r ->%list_elem_of_singleton.
Qed.

Definition not_literal (f : SecretField) : Prop :=
  match f with Literal _ => False | _ => True end.

(** No field that carries a secret is written out. *)
Record no_literals (a : Adapter) : Prop := {
  nl_inbound k f : (k, f) ∈ in_credentials (a_inbound a) → inbound_exempt a k = false → not_literal f;
  nl_outbound k f : (k, f) ∈ out_credentials (a_outbound a) → not_literal f;
  nl_identity k f : (k, f) ∈ id_credentials (a_identity a) → k ≠ §"resolver_tool" → not_literal f;
  nl_correlation : not_literal (a_correlation_key a);
}.

Lemma visit_paths_production paths ws ws' :
  visit_paths Env.Production paths ws = Ok ws' ↔
  ws' = ws ∧ ∀ e, e ∈ paths → not_literal e.2.
Proof.
  induction paths as [|[path f] paths IH]; cbn [visit_paths].
  { split; [|naive_solver]. intros [= ->]. split; [done|]. by intros e ?%elem_of_nil. }
  setoid_rewrite elem_of_cons. destruct f; rewrite ?IH; cbn; naive_solver.
Qed.

Lemma secret_paths_not_literal name a :
  (∀ e, e ∈ secret_paths name a → not_literal e.2) ↔ no_literals a.
Proof.
  unfold secret_paths. setoid_rewrite elem_of_app. setoid_rewrite elem_of_app.
  setoid_rewrite elem_of_app. setoid_rewrite list_elem_of_fmap.
  setoid_rewrite list_elem_of_filter. setoid_rewrite list_elem_of_singleton. split.
  - intros Hl. split.
    + intros k f Hin Hex. eapply (Hl (_, f)). left. by exists (k, f).
    + intros k f Hin. eapply (Hl (_, f)). right. left. by exists (k, f).
    + intros k f Hin Hex. eapply (Hl (_, f)). right. right. left. by exists (k, f).
    + eapply (Hl (_, a_correlation_key a)). right. right. right. done.
  - intros [H1 H2 H3 H4] e [([k f] & -> & Hx & Hin)|[([k f] & -> & Hin)|[([k f] & -> & Hx & Hin)| ->]]];
      cbn in *; eauto.
Qed.

Lemma visit_all_production l ws ws' :
  visit_all Env.Production l ws = Ok ws' ↔ ws' = ws ∧ ∀ x, x ∈ l → no_literals x.2.
Proof.
  revert ws. induction l as [|[name a] l IH]; intros ws; cbn [visit_all].
  { split; [|naive_solver]. intros [= ->]. split; [done|]. by intros x ?%elem_of_nil. }
  rewrite result_bind_Ok. setoid_rewrite IH. unfold visit_secrets.
  setoid_rewrite visit_paths_production. setoid_rewrite elem_of_cons.
  setoid_rewrite secret_paths_not_literal. cbn. naive_solver.
Qed.

(** What a production deployment may rely on. *)
Record production_ready (m : Manifest) : Prop := {
  pr_covered tool t c name a :
    (tool, t) ∈ tools m → c ∈ surface_components t → (name, a) ∈ adapters m → degrades a c = true;
  pr_credentials name a : (name, a) ∈ adapters m → credentials_present a;
  pr_rate name a : (name, a) ∈ adapters m →
    rl_messages_per_sec (a_rate_limit a) ≠ 0%Z ∧ rl_burst (a_rate_limit a) ≠ 0%Z;
  pr_guidance name a g : (name, a) ∈ adapters m → a_surface_guidance a = Some g →
    char_count g ≤ MAX_SURFACE_GUIDANCE_CHARS;
  pr_secrets name a : (name, a) ∈ adapters m → no_literals a;
}.

(** The production gate is exact.  A manifest passes validation for
    production, with no warning, if and only if every adapter has a rule for
    every component a tool declares, declares every credential its schemes need
    (a bot connector exactly one proof, a federated one its tenant), limits its
    rate to something positive, keeps its guidance short, and holds no literal
    secret anywhere. *)
Theorem production_gate_exact m ws :
  validate m Env.Production = Ok ws ↔ ws = [] ∧ production_ready m.
Proof.
  unfold validate, check_coverage. rewrite !unit_bind_Ok, !for_each_Ok, visit_all_production.
  split.
  - intros (Hc & Hr & Hl & Hg & -> & Hs). split; [done|]. split.
    + intros tool t c name a Ht Hcomp Ha. specialize (Hc _ Ht). cbn in Hc.
      rewrite for_each_Ok in Hc. specialize (Hc _ Hcomp). rewrite for_each_Ok in Hc.
      specialize (Hc _ Ha). cbn in Hc. by destruct (degrades a c).
    + intros name a Ha. by apply (check_required_Ok a name), (Hr _ Ha).
    + intros name a Ha. specialize (Hl _ Ha). cbn in Hl. unfold check_rate in Hl.
      repeat case_if; try done. bool_facts. done.
    + intros name a g Ha Hgd. specialize (Hg _ Ha). cbn in Hg. unfold check_guidance in Hg.
      rewrite Hgd in Hg. case_if; [done|]. bool_facts. done.
    + intros name a Ha. apply (Hs _ Ha).
  - intros [-> [H1 H2 H3 H4 H5]]. split; [|split; [|split; [|split; [|split; [done|]]]]].
    + intros [tool t] Ht. rewrite for_each_Ok. intros c Hcomp. rewrite for_each_Ok.
      intros [name a] Ha. by rewrite (H1 _ _ _ _ _ Ht Hcomp Ha).
    + intros [name a] Ha. by apply check_required_Ok, (H2 name).
    + intros [name a] Ha. destruct (H3 _ _ Ha) as [Hm Hb]. unfold check_rate.
      by rewrite !(proj2 (Z.eqb_neq _ _)).
    + intros [name a] Ha. unfold check_guidance. destruct (a_surface_guidance a) as [g|] eqn:E; [|done].
      rewrite (proj2 (Nat.ltb_ge _ _)); [done|]. by eapply H4.
    + intros [name a] Ha. by apply (H5 name).
Qed.

(** Credentials on the way in and out.  A field that was read as a
    reference is shown to operators exactly as it was written; a field that was
    read as a literal is the whole string, and what is shown of it tells only
    how many characters it has. *)
Theorem secret_field_shown s f :
  secret_deserialize s = Ok f →
  match f with
  | Literal v => v = s ∧ ∀ v', char_count v' = char_count v →
                   secret_serialize (Literal v') = secret_serialize f
  | _ => secret_serialize f = s
  end.
Proof.
  unfold secret_deserialize. destruct (strip_prefix §"vault://" s) as [rest|] eqn:E1.
  - apply strip_prefix_Some in E1 as ->.
    destruct (split_once "#" rest) as [[path field]|] eqn:E2; [|done].
    apply split_once_Some in E2 as [-> _]. repeat case_if; try done. by intros [= <-].
  - destruct (strip_prefix §"env://" s) as [var|] eqn:E2.
    + apply strip_prefix_Some in E2 as ->. case_if; [done|]. by intros [= <-].
    + intros [= <-]. split; [done|]. intros v' Hv. unfold secret_serialize. by rewrite Hv.
Qed.

Lemma secret_field_shown_witness :
  secret_serialize (EnvRef §"TOKEN") = §"env://TOKEN".
Proof. apply (secret_field_shown §"env://TOKEN" (EnvRef §"TOKEN") eq_refl). Defined.
