(* ===== verification/Chat.v ===== *)
(** * Chat: shapes the chat adapters share

    Each adapter crate has its own copy of these; the Telegram crate's
    (crates/triton-chat-telegram/src/lib.rs) stand for all.  [ChatState] is what
    an adapter without conversation state keeps; the network is part of the
    world outside. *)

From Stdlib Require Import SpecFloat.
From S2P Require Import Prelude Json Errors Principal RateLimit Context AuditLog Dispatcher.

(** ** Outcomes of a courier call *)

Inductive PostLabel := LPosted | LRetry | LDropped.

Definition post_label_str (l : PostLabel) : str :=
  match l with LPosted => §"posted" | LRetry => §"retry" | LDropped => §"dropped" end.
Definition to_outcome (l : PostLabel) : PostOutcome :=
  match l with LPosted => Posted | LRetry => Retry | LDropped => Dropped end.

Record SendOutcome := { so_http_status : Z; so_label : PostLabel }.

Lemma outcome_str l : post_outcome_as_str (to_outcome l) = post_label_str l.
Proof. by destruct l. Qed.

(** ** Answers to a webhook *)

Record Response := {
  resp_status : Z;
  resp_retry_after : option Z;
  resp_body : str;
}.

Definition respond (status : Z) (body : str) : Response :=
  {| resp_status := status; resp_retry_after := None; resp_body := body |}.
Definition ok_response : Response := respond 200 [].

Definition too_many (r : RetryAfter spec_float) (body : str) : Response :=
  {| resp_status := 429; resp_retry_after := Some (retry_secs r); resp_body := body |}.

(** ** Results that are not surfaces *)

Definition bare_text `{SerdeJson} (res : Value) : str :=
  match res with
  | Value.Object [(_, Value.String s)] => s
  | Value.String s => s
  | _ => json_to_string res
  end.

(** ** State and readings *)

Record ChatState (W : Type) := {
  cs_world : World W;
  cs_rate : TokenBucket spec_float;
  cs_tenants : PerTenantBuckets spec_float;
}.
Arguments cs_world {W} _.
Arguments cs_rate {W} _.
Arguments cs_tenants {W} _.
Arguments Build_ChatState {W} _ _ _.

(** What one inbound call reads. *)
Record ChatEnv := {
  ce_rate_now : Z;
  ce_tenant_now : Readings;
  (** of the one rejection there can be *)
  ce_reject_when : str;
  ce_reject_now : Z;
  ce_reject_uuid : str;
  (** the fresh trace id of the principal *)
  ce_trace : str;
  ce_dispatch : Clock;
  ce_post : Clock;
}.

Definition on_chat_world {W A : Type} (f : World W → A * World W) : ST (ChatState W) A :=
  λ s, let '(a, w) := f (cs_world s) in (a, Build_ChatState w (cs_rate s) (cs_tenants s)).
Definition to_chat_world {W : Type} (f : World W → World W) : ST (ChatState W) unit :=
  on_chat_world (λ w, ((), f w)).
Definition on_chat_rate {W A : Type} (f : TokenBucket spec_float → A * TokenBucket spec_float)
    : ST (ChatState W) A :=
  λ s, let '(a, b) := f (cs_rate s) in (a, Build_ChatState (cs_world s) b (cs_tenants s)).
Definition on_chat_tenants {W A : Type}
    (f : PerTenantBuckets spec_float → A * PerTenantBuckets spec_float) : ST (ChatState W) A :=
  λ s, let '(a, b) := f (cs_tenants s) in (a, Build_ChatState (cs_world s) (cs_rate s) b).
