(* ===== verification/TelegramMapper.v ===== *)
(** * TelegramMapper: a surface as one Telegram message
    (crates/triton-chat-telegram/src/surface_mapper.rs)

    Text and narration become HTML chunks, tool controls an inline keyboard of
    signed tokens, the first dashboard an image; the text is cut to the
    platform's limit without breaking the markup. *)

From S2P Require Import Prelude Json Message A2ui A2uiText Correlation.

Definition TELEGRAM_TEXT_MAX_BYTES : nat := 4096.
Definition TELEGRAM_CAPTION_MAX_BYTES : nat := 1024.
Definition TELEGRAM_BUTTONS_PER_ROW : nat := 8.

Definition TRUNCATION_SENTINEL : str :=
  nl ++ nl ++ §"[truncated — content exceeded Telegram's 4096-byte limit]".
Definition BUTTON_ONLY_PLACEHOLDER : str := §"Choose an option:".

Record RasterDashboard := { rd_title : str; rd_tiles : list DashboardTile }.

Record RenderedMessage := {
  rm_text : str;
  rm_parse_mode : option str;
  rm_reply_markup : option Value;
  rm_deferred_buttons : nat;
  rm_deferred_selections : nat;
  rm_deferred_dashboards : nat;
  rm_truncated : bool;
  rm_dashboard : option RasterDashboard;
}.

Inductive RenderError := EmptyAfterRender.

Inductive RawKind := RawText | RawNarration.

Record PreRender := {
  p_chunk : str;
  p_has_html : bool;
  p_raw : option (RawKind * str);
}.

(** ** Escaping *)

(** [s.replace(c, r)] for an ASCII character. *)
Definition replace_char (c : ascii) (r : str) (s : str) : str :=
  concat ((λ a, if decide (a = c) then r else [a]) <$> s).

Definition html_escape (s : str) : str :=
  replace_char ">" §"&gt;" (replace_char "<" §"&lt;" (replace_char "&" §"&amp;" s)).

(** The bytes of the character a string starts with: an ASCII byte alone, any
    other leading byte with its continuation bytes. *)
Fixpoint continuation_len (s : str) : nat :=
  match s with
  | a :: s' => if is_continuation a then S (continuation_len s') else 0
  | [] => 0
  end.
Definition char_len (s : str) : nat :=
  match s with
  | [] => 0
  | a :: s' => if (byte a <? 128)%N then 1 else S (continuation_len s')
  end.

(** The escaped length of that character. *)
Definition char_cost (s : str) : nat :=
  match s with
  | "&"%char :: _ => 5
  | "<"%char :: _ | ">"%char :: _ => 4
  | _ => char_len s
  end.

(** The loop of [budget_raw_for_html_escape] from offset [en] with [cost]
    spent; each round consumes a character, so the length is fuel enough. *)
Fixpoint budget_end (fuel : nat) (rest : str) (max cost en : nat) : nat :=
  match fuel with
  | 0 => en
  | S fuel' =>
      match rest with
      | [] => en
      | _ =>
          if (max <? cost + char_cost rest)%nat then en
          else budget_end fuel' (drop (char_len rest) rest) max (cost + char_cost rest)
                 (en + char_len rest)
      end
  end.

Definition budget_raw_for_html_escape (raw : str) (max : nat) : str :=
  take (budget_end (length raw) raw max 0 0) raw.

Definition pre_text (raw : str) : PreRender :=
  {| p_chunk := html_escape raw; p_has_html := false; p_raw := Some (RawText, raw) |}.
Definition pre_narration (raw : str) : PreRender :=
  {| p_chunk := §"<i>" ++ html_escape raw ++ §"</i>"; p_has_html := true;
     p_raw := Some (RawNarration, raw) |}.
Definition pre_rendered (chunk : str) (has_html : bool) : PreRender :=
  {| p_chunk := chunk; p_has_html := has_html; p_raw := None |}.

(** [slice::chunks(n)] *)
Fixpoint rows_of {A} (fuel n : nat) (l : list A) : list (list A) :=
  match fuel, l with
  | S fuel', _ :: _ => take n l :: rows_of fuel' n (drop n l)
  | _, _ => []
  end.

(** What the loop over the components has collected. *)
Record Collected := {
  chunks : list PreRender;
  deferred_buttons : nat;
  deferred_selections : nat;
  deferred_dashboards : nat;
  keyboard_rows : list (list Value);
  first_dashboard : option RasterDashboard;
}.

Definition nothing : Collected :=
  {| chunks := []; deferred_buttons := 0; deferred_selections := 0; deferred_dashboards := 0;
     keyboard_rows := []; first_dashboard := None |}.

Definition push_chunk (p : PreRender) (a : Collected) : Collected :=
  {| chunks := chunks a ++ [p]; deferred_buttons := deferred_buttons a;
     deferred_selections := deferred_selections a; deferred_dashboards := deferred_dashboards a;
     keyboard_rows := keyboard_rows a; first_dashboard := first_dashboard a |}.
Definition push_rows (rows : list (list Value)) (a : Collected) : Collected :=
  {| chunks := chunks a; deferred_buttons := deferred_buttons a;
     deferred_selections := deferred_selections a; deferred_dashboards := deferred_dashboards a;
     keyboard_rows := keyboard_rows a ++ rows; first_dashboard := first_dashboard a |}.
Definition defer_button (a : Collected) : Collected :=
  {| chunks := chunks a; deferred_buttons := S (deferred_buttons a);
     deferred_selections := deferred_selections a; deferred_dashboards := deferred_dashboards a;
     keyboard_rows := keyboard_rows a; first_dashboard := first_dashboard a |}.
Definition defer_selection (a : Collected) : Collected :=
  {| chunks := chunks a; deferred_buttons := deferred_buttons a;
     deferred_selections := S (deferred_selections a);
     deferred_dashboards := deferred_dashboards a;
     keyboard_rows := keyboard_rows a; first_dashboard := first_dashboard a |}.
Definition add_dashboard (d : RasterDashboard) (a : Collected) : Collected :=
  match first_dashboard a with
  | None => {| chunks := chunks a; deferred_buttons := deferred_buttons a;
               deferred_selections := deferred_selections a;
               deferred_dashboards := deferred_dashboards a;
               keyboard_rows := keyboard_rows a; first_dashboard := Some d |}
  | Some _ => {| chunks := chunks a; deferred_buttons := deferred_buttons a;
               deferred_selections := deferred_selections a;
               deferred_dashboards := S (deferred_dashboards a);
               keyboard_rows := keyboard_rows a; first_dashboard := first_dashboard a |}
  end.

Section Render.
Context `{UrlParse} (cell : HttpHosts) `{Crypto}.
Variables (correlation_key tenant sender : str).

Definition telegram_binding : Binding :=
  {| b_platform := §"telegram"; b_tenant := tenant; b_sender := sender |}.

(** The token of a control; no expiry is signed, so the clock is not read. *)
Definition mint (tool : str) (args : Value) : result str EncodeError :=
  encode_bound None tool args correlation_key PLATFORM_MAX_CALLBACK_DATA telegram_binding None.

Definition keyboard_button (label token : str) : Value :=
  json_object [(§"text", js label); (§"callback_data", js token)].

Definition option_args (args_key : str) (o : SelectionOption) : Value :=
  json_object [(args_key, js (o_value o))].

(** The buttons of a selection; [None] as soon as one token does not fit. *)
Fixpoint option_buttons (tool args_key : str) (opts : list SelectionOption)
    : option (list Value) :=
  match opts with
  | [] => Some []
  | o :: opts' =>
      match mint tool (option_args args_key o) with
      | Ok token => cons (keyboard_button (o_label o) token) <$> option_buttons tool args_key opts'
      | Err _ => None
      end
  end.

Definition render_component (a : Collected) (c : Component) : Collected :=
  if is_conversation c then
    match degrade cell c with Some t => push_chunk (pre_text t) a | None => a end
  else
    match c with
    | Component.Text value _ => push_chunk (pre_text value) a
    | Component.Report _ _ _ _ _ => a
    | Component.Sources items =>
        if is_empty items then a
        else push_chunk (pre_text (§"Sources: " ++ join §" · " (s_label <$> items))) a
    | Component.Narration text => push_chunk (pre_narration text) a
    | Component.Diff lines =>
        push_chunk (pre_rendered (§"<pre>" ++ html_escape (diff_to_text lines) ++ §"</pre>") true) a
    | Component.Button label tool args _ _ _ =>
        match mint tool args with
        | Ok token => push_rows [[keyboard_button label token]] a
        | Err _ => defer_button a
        end
    | Component.Selection prompt options tool args_key _ _ =>
        if is_empty options then defer_selection a
        else match option_buttons tool args_key options with
             | None => defer_selection a
             | Some bs =>
                 push_chunk (pre_rendered (html_escape prompt) false)
                   (push_rows (rows_of (length bs) TELEGRAM_BUTTONS_PER_ROW bs) a)
             end
    | Component.Form title fields _ _ _ _ =>
        let names := (λ f, html_escape (f_label f)) <$> fields in
        let body := §"<b>" ++ html_escape title ++ §"</b>" ++ nl ++ join §", " names in
        defer_button (push_chunk (pre_rendered body true) a)
    | Component.Dashboard title tiles =>
        add_dashboard {| rd_title := title; rd_tiles := tiles |} a
    | _ => a
    end.

Definition collect (s : Surface) : Collected :=
  fold_left render_component (components s) nothing.

(** The prefix of chunks that fits under [budget], with [total] bytes already
    accepted. *)
Fixpoint accepted_prefix (budget total : nat) (first : bool) (cs : list str) : list str :=
  match cs with
  | [] => []
  | c :: cs' =>
      let sep_cost := if first then 0 else 2 in
      if (budget <? total + sep_cost + length c)%nat then []
      else c :: accepted_prefix budget (total + sep_cost + length c) false cs'
  end.

(** The first chunk cut down to the budget. *)
Definition cut_first (budget : nat) (first : PreRender) : str :=
  match p_raw first with
  | Some (RawText, raw) =>
      html_escape (budget_raw_for_html_escape raw (budget - 0)) ++ TRUNCATION_SENTINEL
  | Some (RawNarration, raw) =>
      §"<i>" ++ html_escape (budget_raw_for_html_escape raw (budget - length §"<i></i>"))
        ++ §"</i>" ++ TRUNCATION_SENTINEL
  | None => trim_start TRUNCATION_SENTINEL
  end.

(** The text and whether it was cut; [chunks[0]] exists when the text is over
    the cap. *)
Definition fit (text_cap : nat) (cs : list PreRender) : str * bool :=
  let chunk_strings := p_chunk <$> cs in
  let joined := join (nl ++ nl) chunk_strings in
  if (length joined <=? text_cap)%nat then (joined, false)
  else
    let budget := text_cap - length TRUNCATION_SENTINEL in
    match accepted_prefix budget 0 true chunk_strings with
    | [] => (match cs with first :: _ => cut_first budget first | [] => [] end, true)
    | accepted => (join (nl ++ nl) accepted ++ TRUNCATION_SENTINEL, true)
    end.

Definition text_cap (d : option RasterDashboard) : nat :=
  match d with Some _ => TELEGRAM_CAPTION_MAX_BYTES | None => TELEGRAM_TEXT_MAX_BYTES end.

Definition finish_render (a : Collected) : result RenderedMessage RenderError :=
  let no_dashboard := bool_decide (first_dashboard a = None) in
  if is_empty (chunks a) && is_empty (keyboard_rows a) && no_dashboard
  then Err EmptyAfterRender
  else
    let cs := if is_empty (chunks a) && negb (is_empty (keyboard_rows a)) && no_dashboard
              then [pre_rendered BUTTON_ONLY_PLACEHOLDER false] else chunks a in
    let '(text, truncated) := fit (text_cap (first_dashboard a)) cs in
    Ok {| rm_text := text;
          rm_parse_mode := if existsb p_has_html cs then Some §"HTML" else None;
          rm_reply_markup :=
            match keyboard_rows a with
            | [] => None
            | rows => Some (json_object [(§"inline_keyboard", Value.Array (Value.Array <$> rows))])
            end;
          rm_deferred_buttons := deferred_buttons a;
          rm_deferred_selections := deferred_selections a;
          rm_deferred_dashboards := deferred_dashboards a;
          rm_truncated := truncated;
          rm_dashboard := first_dashboard a |}.

Definition render (s : Surface) : result RenderedMessage RenderError :=
  finish_render (collect s).

Context `{SerdeA2ui}.

Definition try_render_surface (res : Value) : option (result RenderedMessage RenderError) :=
  match extract_surface cell res with Ok s => Some (render s) | Err _ => None end.

Record FormOnly := { fo_title : str; fo_submit_tool : str; fo_fields : list FormField }.

Definition try_extract_form_only (res : Value) : option FormOnly :=
  match extract_surface cell res with
  | Ok {| components := [Component.Form title fields _ tool None _] |} =>
      Some {| fo_title := title; fo_submit_tool := tool; fo_fields := fields |}
  | _ => None
  end.
End Render.

(** ** Bodies *)

Definition build_send_message_body (chat_id : Z) (msg : RenderedMessage) : Value :=
  let body := json_object [(§"chat_id", Value.Number (Value.Int chat_id));
                           (§"text", js (rm_text msg))] in
  let body := set_opt §"parse_mode" js (rm_parse_mode msg) body in
  set_opt §"reply_markup" id (rm_reply_markup msg) body.

Record SendPhotoFields := {
  sp_chat_id : Z;
  sp_caption : option str;
  sp_parse_mode : option str;
  sp_reply_markup : option str;
}.

Definition build_send_photo_fields `{SerdeJson} (chat_id : Z) (msg : RenderedMessage)
    : SendPhotoFields :=
  {| sp_chat_id := chat_id;
     sp_caption := if is_empty (rm_text msg) then None else Some (rm_text msg);
     sp_parse_mode := rm_parse_mode msg;
     sp_reply_markup := json_to_string <$> rm_reply_markup msg |}.

(** ** Escaping, byte by byte *)

Lemma replace_char_app c r s t :
  replace_char c r (s ++ t) = replace_char c r s ++ replace_char c r t.
Proof. unfold replace_char. by rewrite fmap_app, concat_app. Qed.

Lemma html_escape_app s t : html_escape (s ++ t) = html_escape s ++ html_escape t.
Proof. unfold html_escape. by rewrite !replace_char_app. Qed.

Lemma html_escape_nil : html_escape [] = [].
Proof. reflexivity. Qed.

(** What an escaped byte is. *)
Lemma html_escape_byte a :
  html_escape [a] = §"&amp;" ∨ html_escape [a] = §"&lt;" ∨ html_escape [a] = §"&gt;"
  ∨ (html_escape [a] = [a] ∧ a ≠ "&"%char ∧ a ≠ "<"%char ∧ a ≠ ">"%char).
Proof.
  destruct (decide (a = "&"%char)) as [->|H1]; [by left|].
  destruct (decide (a = "<"%char)) as [->|H2]; [by right; left|].
  destruct (decide (a = ">"%char)) as [->|H3]; [by right; right; left|].
  right. right. right. split; [|done]. unfold html_escape, replace_char.
  cbn [fmap list_fmap concat]. rewrite (decide_False (P := a = "&"%char)) by done.
  cbn [app fmap list_fmap concat]. rewrite (decide_False (P := a = "<"%char)) by done.
  cbn [app fmap list_fmap concat]. by rewrite decide_False by done.
Qed.

Lemma html_escape_high s : Forall (λ a, (128 <= byte a)%N) s → html_escape s = s.
Proof.
  induction 1 as [|a s Ha _ IH]; [done|]. change (a :: s) with ([a] ++ s).
  rewrite html_escape_app, IH. f_equal.
  destruct (html_escape_byte a) as [E|[E|[E|[E _]]]]; [..|done];
    destruct a as [[] [] [] [] [] [] [] []]; try done; vm_compute in Ha; done.
Qed.

Lemma continuation_high s : Forall (λ a, (128 <= byte a)%N) (take (continuation_len s) s).
Proof.
  induction s as [|a s IH]; cbn; [constructor|]. destruct (is_continuation a) eqn:E; [|constructor].
  cbn. constructor; [|done]. unfold is_continuation, in_range in E. apply andb_prop in E as [E _].
  by apply N.leb_le in E.
Qed.

Lemma continuation_len_le s : continuation_len s ≤ length s.
Proof. induction s as [|a s IH]; cbn; [done|]. destruct (is_continuation a); lia. Qed.

Lemma char_len_bounds a s : 1 ≤ char_len (a :: s) ≤ length (a :: s).
Proof. cbn. pose proof (continuation_len_le s). destruct (_ <? _)%N; lia. Qed.

(** The cost of a character is the length of its escape. *)
Lemma char_cost_spec a s :
  length (html_escape (take (char_len (a :: s)) (a :: s))) = char_cost (a :: s).
Proof.
  destruct (byte a <? 128)%N eqn:E.
  - unfold char_cost, char_len. rewrite E. cbn [take]. rewrite take_0. clear E.
    by destruct a as [[] [] [] [] [] [] [] []].
  - unfold char_len at 1. rewrite E. cbn [take]. apply N.ltb_ge in E.
    rewrite html_escape_high by (constructor; [done|apply continuation_high]).
    cbn [length]. rewrite length_take_le by apply continuation_len_le.
    unfold char_cost, char_len. rewrite (proj2 (N.ltb_ge _ _)) by done.
    destruct a as [[] [] [] [] [] [] [] []]; try done; vm_compute in E; done.
Qed.

(** The prefix that is kept escapes to [max] bytes at most, and is the longest
    run of characters that does. *)
Lemma budget_end_spec fuel rest max cost en :
  cost ≤ max →
  ∃ k, budget_end fuel rest max cost en = en + k ∧ k ≤ length rest
    ∧ cost + length (html_escape (take k rest)) ≤ max.
Proof.
  revert rest cost en. induction fuel as [|fuel IH]; intros rest cost en Hc.
  { exists 0. rewrite take_0, html_escape_nil. cbn. lia. }
  destruct rest as [|a s]; [exists 0; rewrite take_0, html_escape_nil; cbn; lia|]. cbn [budget_end].
  destruct (max <? cost + char_cost (a :: s))%nat eqn:E; bool_facts.
  { exists 0. rewrite take_0, html_escape_nil. cbn [length]. lia. }
  pose proof (char_len_bounds a s) as Hl. set (n := char_len (a :: s)) in *.
  destruct (IH (drop n (a :: s)) (cost + char_cost (a :: s)) (en + n) ltac:(lia))
    as (k & -> & Hk & Hm).
  exists (n + k). rewrite length_drop in Hk. repeat split; [lia|lia|].
  rewrite <-take_take_drop, html_escape_app, length_app. subst n. rewrite char_cost_spec. lia.
Qed.

Lemma budget_raw_bound raw max : length (html_escape (budget_raw_for_html_escape raw max)) ≤ max.
Proof.
  unfold budget_raw_for_html_escape.
  destruct (budget_end_spec (length raw) raw max 0 0) as (k & -> & _ & Hm); [lia|].
  exact Hm.
Qed.

(** ** The cut stays within the platform's limit *)

Lemma join_cons sep s l : join sep (s :: l) = s ++ concat (app sep <$> l).
Proof.
  revert s. induction l as [|t l IH]; intros s; [by rewrite app_nil_r|].
  change (join sep (s :: t :: l)) with (s ++ sep ++ join sep (t :: l)).
  rewrite IH. cbn. by rewrite <-app_assoc.
Qed.

Definition tail_length (cs : list str) : nat := length (concat (app (nl ++ nl) <$> cs)).

Lemma accepted_rest budget total cs :
  total ≤ budget → total + tail_length (accepted_prefix budget total false cs) ≤ budget.
Proof.
  revert total. induction cs as [|c cs IH]; intros total Ht; cbn [accepted_prefix]; [cbn; lia|].
  destruct (_ <? _)%nat eqn:E; bool_facts; [cbn; lia|].
  unfold tail_length in *. cbn [fmap list_fmap concat].
  rewrite length_app, length_app. specialize (IH (total + 2 + length c) ltac:(lia)).
  change (length (nl ++ nl)) with 2. lia.
Qed.

Lemma accepted_bound budget cs :
  length (join (nl ++ nl) (accepted_prefix budget 0 true cs)) ≤ budget.
Proof.
  destruct cs as [|c cs]; cbn [accepted_prefix]; [cbn; lia|].
  destruct (_ <? _)%nat eqn:E; bool_facts; [cbn; lia|].
  rewrite join_cons, length_app.
  pose proof (accepted_rest budget (length c) cs ltac:(lia)) as H. unfold tail_length in H.
  cbn [Nat.add]. lia.
Qed.

Lemma cut_first_bound budget first :
  7 ≤ budget → length (cut_first budget first) ≤ budget + length TRUNCATION_SENTINEL.
Proof.
  intros Hb. unfold cut_first. destruct (p_raw first) as [[[] raw]|].
  - rewrite length_app. pose proof (budget_raw_bound raw (budget - 0)). lia.
  - rewrite !length_app. pose proof (budget_raw_bound raw (budget - length §"<i></i>")).
    cbn [length lit String.list_ascii_of_string] in *. lia.
  - transitivity (length TRUNCATION_SENTINEL); [|lia]. by apply Nat.leb_le.
Qed.

Lemma fit_bound cap cs : 100 ≤ cap → length (fit cap cs).1 ≤ cap.
Proof.
  intros Hcap. assert (length TRUNCATION_SENTINEL ≤ 90) as Hs by by apply Nat.leb_le.
  unfold fit. destruct (_ <=? cap)%nat eqn:E; bool_facts; [done|].
  pose proof (accepted_bound (cap - length TRUNCATION_SENTINEL) (p_chunk <$> cs)) as Ha.
  destruct (accepted_prefix _ _ _ _) as [|c l]; cbn [fst].
  - destruct cs as [|p cs]; [cbn; lia|].
    pose proof (cut_first_bound (cap - length TRUNCATION_SENTINEL) p ltac:(lia)). lia.
  - rewrite length_app. lia.
Qed.

(** ** What reaches the platform is well-formed markup *)

(** Text in which the markup characters occur as entities only. *)
Inductive inline : str → Prop :=
  | inline_nil : inline []
  | inline_char a s : a ≠ "&"%char → a ≠ "<"%char → a ≠ ">"%char → inline s → inline (a :: s)
  | inline_entity e s : e ∈ [§"&amp;"; §"&lt;"; §"&gt;"] → inline s → inline (e ++ s).

Inductive markup : str → Prop :=
  | markup_inline s : inline s → markup s
  | markup_tag t s : t ∈ [§"i"; §"b"; §"pre"] → inline s →
      markup (§"<" ++ t ++ §">" ++ s ++ §"</" ++ t ++ §">")
  | markup_app s t : markup s → markup t → markup (s ++ t).

Lemma inline_app s t : inline s → inline t → inline (s ++ t).
Proof.
  induction 1; intros Ht; [done|by constructor; auto|]. rewrite <-app_assoc. constructor; auto.
Qed.

Lemma inline_escape s : inline (html_escape s).
Proof.
  induction s as [|a s IH]; [constructor|]. change (a :: s) with ([a] ++ s).
  rewrite html_escape_app. apply inline_app; [|done].
  destruct (html_escape_byte a) as [->|[->|[->|(-> & ? & ? & ?)]]].
  1-3: rewrite <-(app_nil_r (lit _)); apply inline_entity; [set_solver|constructor].
  by repeat constructor.
Qed.

(** No markup character occurs, decided. *)
Definition plain (s : str) : bool :=
  forallb (λ a, negb (bool_decide (a ∈ §"&<>"))) s.

Lemma plain_inline s : plain s = true → inline s.
Proof.
  induction s as [|a s IH]; [constructor|]. cbn. intros Hp.
  apply andb_prop in Hp as [Ha Hs]. bool_facts. cbn in Ha.
  constructor; [set_solver..|auto].
Qed.

Lemma markup_join sep l : markup sep → Forall markup l → markup (join sep l).
Proof.
  intros Hs Hl. induction Hl as [|x l Hx Hl IH]; [by repeat constructor|].
  destruct l as [|y l]; [done|]. repeat apply markup_app; done.
Qed.

Lemma join_inline sep l : inline sep → Forall inline l → inline (join sep l).
Proof.
  intros Hs Hl. induction Hl as [|x l Hx Hl IH]; [constructor|].
  destruct l as [|y l]; [done|]. repeat apply inline_app; done.
Qed.

Lemma markup_plain s : plain s = true → markup s.
Proof. intros. by apply markup_inline, plain_inline. Qed.

Lemma pre_text_markup raw : markup (p_chunk (pre_text raw)).
Proof. apply markup_inline, inline_escape. Qed.
Lemma pre_narration_markup raw : markup (p_chunk (pre_narration raw)).
Proof. apply (markup_tag §"i"); [set_solver|apply inline_escape]. Qed.

#[export] Hint Resolve inline_escape pre_text_markup pre_narration_markup : rust.

Lemma cut_first_markup budget first : markup (cut_first budget first).
Proof.
  assert (markup TRUNCATION_SENTINEL) by by apply markup_plain.
  unfold cut_first. destruct (p_raw first) as [[[] raw]|].
  - apply markup_app; [|done]. auto using markup_inline with rust.
  - rewrite !app_assoc. apply markup_app; [|done]. rewrite <-!app_assoc.
    apply (markup_tag §"i"); [set_solver|auto with rust].
  - by apply markup_plain.
Qed.

Lemma accepted_sub budget total first cs P :
  Forall P cs → Forall (P : str → Prop) (accepted_prefix budget total first cs).
Proof.
  intros H. revert total first. induction H; intros total first; cbn; [constructor|].
  case_if; by constructor.
Qed.

Lemma fit_markup cap cs : Forall markup (p_chunk <$> cs) → markup (fit cap cs).1.
Proof.
  intros Hc. assert (markup (nl ++ nl)) by by apply markup_plain. unfold fit.
  case_if; [by apply markup_join|].
  pose proof (accepted_sub (cap - length TRUNCATION_SENTINEL) 0 true _ _ Hc) as Ha.
  destruct (accepted_prefix _ _ _ _) as [|c l]; cbn [fst].
  - destruct cs; [by apply markup_plain|]. apply cut_first_markup.
  - apply markup_app; [by apply markup_join|by apply markup_plain].
Qed.

(** ** What the loop collects *)

Lemma rows_of_spec {A} fuel n (l : list A) row :
  0 < n → row ∈ rows_of fuel n l → 1 ≤ length row ≤ n ∧ ∀ x, x ∈ row → x ∈ l.
Proof.
  intros Hn. revert l. induction fuel as [|fuel IH]; intros l; [set_solver|].
  destruct l as [|a l]; [set_solver|]. cbn [rows_of].
  intros [->|Hr]%elem_of_cons.
  - rewrite length_take. cbn [length]. split; [lia|]. intros x Hx.
    by eapply subseteq_take in Hx || (apply elem_of_take in Hx as (i & Hi & _);
      by eapply list_elem_of_lookup_2).
  - destruct (IH _ Hr) as [Hl Hs]. split; [done|]. intros x Hx%Hs.
    rewrite <-(take_drop n (a :: l)). set_solver.
Qed.

(** The tool call a control stands for. *)
Inductive offers : Component → str → str → Value → Prop :=
  | offers_button label tool args r p :
      offers (Component.Button label tool args None r p) label tool args
  | offers_option prompt opts tool key style o :
      o ∈ opts →
      offers (Component.Selection prompt opts tool key style None)
        (o_label o) tool (option_args key o).

Section RenderProofs.
Context `{UrlParse} (cell : HttpHosts) `{Crypto}.
Variables (key tenant sender : str).

Definition signed_button (cs : list Component) (b : Value) : Prop :=
  ∃ c label tool args tok, c ∈ cs ∧ offers c label tool args
    ∧ mint key tenant sender tool args = Ok tok ∧ b = keyboard_button label tok.

(** The invariant of the loop over the components [cs]. *)
Record collected_ok (cs : list Component) (a : Collected) : Prop := {
  ok_chunks : Forall markup (p_chunk <$> chunks a);
  ok_rows : ∀ row, row ∈ keyboard_rows a → 1 ≤ length row ≤ TELEGRAM_BUTTONS_PER_ROW
              ∧ ∀ b, b ∈ row → signed_button cs b;
}.

Lemma push_chunk_ok cs p a : markup (p_chunk p) → collected_ok cs a → collected_ok cs (push_chunk p a).
Proof.
  intros Hp [Hc Hr]. split; [|done]. cbn [chunks push_chunk].
  rewrite fmap_app. apply Forall_app. split; [done|]. by constructor.
Qed.

Lemma push_rows_ok cs rows a :
  (∀ row, row ∈ rows → 1 ≤ length row ≤ TELEGRAM_BUTTONS_PER_ROW
     ∧ ∀ b, b ∈ row → signed_button cs b) →
  collected_ok cs a → collected_ok cs (push_rows rows a).
Proof.
  intros Hn [Hc Hr]. split; [done|]. intros row. cbn [keyboard_rows push_rows].
  intros [?|?]%elem_of_app; auto.
Qed.

Lemma defer_button_ok cs a : collected_ok cs a → collected_ok cs (defer_button a).
Proof. by intros []. Qed.

Lemma option_buttons_signed cs c prompt opts0 tool k style opts bs :
  c = Component.Selection prompt opts0 tool k style None → c ∈ cs → opts ⊆ opts0 →
  option_buttons key tenant sender tool k opts = Some bs →
  length bs = length opts ∧ ∀ b, b ∈ bs → signed_button cs b.
Proof.
  intros Hc Hin. revert bs. induction opts as [|o opts IH]; intros bs Hsub; cbn [option_buttons].
  { intros [= <-]. split; [done|]. by intros b ?%elem_of_nil. }
  destruct (mint key tenant sender tool (option_args k o)) as [tok|e] eqn:Em; [|done].
  intros (bs' & Hbs & ->)%fmap_Some. destruct (IH bs') as [Hl Hs]; [set_solver|done|].
  split; [cbn; congruence|]. intros b [->|Hb]%elem_of_cons; [|auto].
  exists c, (o_label o), tool, (option_args k o), tok. split; [done|].
  split; [|done]. subst c. constructor. set_solver.
Qed.

Lemma render_component_ok cs a c :
  c ∈ cs → collected_ok cs a → collected_ok cs (render_component cell key tenant sender a c).
Proof.
  intros Hin Ha. unfold render_component. destruct (is_conversation c) eqn:Econv.
  { destruct (degrade cell c); [|done]. apply push_chunk_ok; auto with rust. }
  destruct c; try done; try (apply push_chunk_ok; by auto with rust).
  - destruct action; [discriminate Econv|].
    destruct (mint _ _ _ tool args) as [tok|e] eqn:Em; [|by destruct Ha].
    apply push_rows_ok; [|done]. intros row ->%list_elem_of_singleton.
    split; [cbn; unfold TELEGRAM_BUTTONS_PER_ROW; lia|].
    intros b ->%list_elem_of_singleton. eexists _, _, _, _, _. split; [done|].
    split; [constructor|done].
  - destruct submit; [discriminate Econv|].
    destruct (is_empty options); [by destruct Ha|].
    destruct (option_buttons _ _ _ _ _ _) as [bs|] eqn:Eb; [|by destruct Ha].
    apply push_chunk_ok; [apply markup_inline, inline_escape|].
    apply push_rows_ok; [|done]. intros row [Hl Hs]%rows_of_spec;
      [|unfold TELEGRAM_BUTTONS_PER_ROW; lia]. split; [done|].
    eapply (option_buttons_signed cs) in Eb as [_ Hb]; [|done|done|done]. auto.
  - apply defer_button_ok, push_chunk_ok; [|done].
    cbn [p_chunk pre_rendered]. rewrite !app_assoc. apply markup_app.
    + apply markup_app; [|by apply markup_plain]. rewrite <-!app_assoc.
      apply (markup_tag §"b"); [set_solver|auto with rust].
    + apply markup_inline, join_inline; [by apply plain_inline|].
      apply Forall_fmap, Forall_true. intros f. cbn. auto with rust.
  - destruct Ha. unfold add_dashboard. by destruct (first_dashboard a); split.
  - apply push_chunk_ok; [|done]. apply (markup_tag §"pre"); [set_solver|auto with rust].
  - destruct items; [done|]. apply push_chunk_ok; auto with rust.
Qed.

Lemma fold_invariant {A B} (P : A → Prop) (f : A → B → A) l :
  ∀ a, (∀ a b, b ∈ l → P a → P (f a b)) → P a → P (fold_left f l a).
Proof.
  induction l as [|b l IH]; intros a Hf Ha; [done|]. cbn. apply IH; [|apply Hf; set_solver].
  intros; apply Hf; set_solver.
Qed.

Lemma collect_ok s : collected_ok (components s) (collect cell key tenant sender s).
Proof.
  unfold collect. apply fold_invariant; [|split; [constructor|cbn; set_solver]].
  intros a c Hc. by apply render_component_ok.
Qed.

(** The text of a rendered surface fits the limit that applies and is
    well-formed markup, also where it was cut. *)
Lemma rendered_text_ok s msg :
  render cell key tenant sender s = Ok msg →
  length (rm_text msg) ≤ match rm_dashboard msg with Some _ => 1024 | None => 4096 end
  ∧ markup (rm_text msg).
Proof.
  unfold render, finish_render. destruct (collect_ok s) as [Hc _].
  set (a := collect _ _ _ _ s) in *. case_if; [done|].
  match goal with |- context [fit _ ?x] => set (cs := x) end.
  assert (Forall markup (p_chunk <$> cs)) as Hcs.
  { subst cs. case_if; [|done]. constructor; [by apply markup_plain|constructor]. }
  pose proof (fit_bound (text_cap (first_dashboard a)) cs) as Hb.
  pose proof (fit_markup (text_cap (first_dashboard a)) cs Hcs) as Hm.
  destruct (fit _ cs) as [text cut]. intros [= <-]. cbn [rm_text rm_dashboard fst] in *.
  split; [|done]. apply Hb. clear. destruct (first_dashboard a); apply Nat.leb_le; reflexivity.
Qed.

(** The rows of a keyboard. *)
Definition row_buttons (r : Value) : list Value :=
  match r with Value.Array bs => bs | _ => [] end.
Definition keyboard (msg : RenderedMessage) : list (list Value) :=
  match rm_reply_markup msg ≫= value_get §"inline_keyboard" with
  | Some (Value.Array rows) => row_buttons <$> rows
  | _ => []
  end.

Lemma row_buttons_arrays (rows : list (list Value)) : row_buttons <$> (Value.Array <$> rows) = rows.
Proof. induction rows as [|r rows IH]; [done|]. cbn. by f_equal. Qed.

Lemma keyboard_render s msg :
  render cell key tenant sender s = Ok msg →
  keyboard msg = keyboard_rows (collect cell key tenant sender s).
Proof.
  unfold render, finish_render. set (a := collect _ _ _ _ s). case_if; [done|].
  destruct (fit _ _) as [text cut]. intros [= <-]. unfold keyboard. cbn [rm_reply_markup].
  destruct (keyboard_rows a) as [|r rows]; [done|]. exact (row_buttons_arrays (r :: rows)).
Qed.

Lemma mint_decodes `{!CryptoLaws} tool args tok now :
  mint key tenant sender tool args = Ok tok →
  length tok ≤ 64
  ∧ (body_roundtrips {| cb_t := tool; cb_a := args; cb_x := None |} →
     decode_bound now tok key 64 (telegram_binding tenant sender) = Ok (tool, args)).
Proof.
  unfold mint, encode_bound. destruct (is_empty tool) eqn:Et; [done|].
  cbn [bound_expiry result_bind]. intros Hf. pose proof Hf as (json & _ & Hl & _)%finish_Ok.
  split; [done|]. intros Hrt.
  destruct (decode_minted _ _ (tenant_key key (telegram_binding tenant sender)) _ _ Hf Hrt)
    as (json' & _ & Hd); [by destruct tool|].
  rewrite bool_decide_eq_true_2 in Hd by done. unfold decode_bound.
  change 64 with PLATFORM_MAX_CALLBACK_DATA. by rewrite Hd.
Qed.

Lemma keyboard_signed s msg row b :
  render cell key tenant sender s = Ok msg → row ∈ keyboard msg → b ∈ row →
  1 ≤ length row ≤ 8 ∧ signed_button (components s) b.
Proof.
  intros Hr. rewrite (keyboard_render _ _ Hr). intros Hrow Hb.
  destruct (ok_rows _ _ (collect_ok s) _ Hrow) as [Hl Hs]. auto.
Qed.

(** The inline keyboard of a rendered surface has rows of one to eight
    buttons, and each button stands for a control of the surface: it shows the
    control's label, its callback data is at most 64 bytes and, redeemed by the
    sender the surface was rendered for, yields exactly the control's tool and
    arguments. *)
Theorem keyboard_redeems_to_its_control `{!CryptoLaws} s msg row b now :
  render cell key tenant sender s = Ok msg → row ∈ keyboard msg → b ∈ row →
  1 ≤ length row ≤ 8
  ∧ ∃ c label tool args tok, c ∈ components s ∧ offers c label tool args
      ∧ b = keyboard_button label tok ∧ length tok ≤ 64
      ∧ (body_roundtrips {| cb_t := tool; cb_a := args; cb_x := None |} →
         decode_bound now tok key 64 (telegram_binding tenant sender) = Ok (tool, args)).
Proof.
  intros Hr Hrow Hb.
  destruct (keyboard_signed _ _ _ _ Hr Hrow Hb)
    as [Hl (c & label & tool & args & tok & Hc & Ho & Hm & ->)]. split; [done|].
  destruct (mint_decodes _ _ _ now Hm) as [H64 Hd].
  exists c, label, tool, args, tok. repeat split; done.
Qed.

(** A component that puts nothing in the message: a chart, an empty list of
    sources, a conversation component without text, or a control whose token
    does not fit. *)
Definition silent (c : Component) : Prop :=
  match c with
  | Component.Text _ _ | Component.Narration _ | Component.Diff _ | Component.Dashboard _ _ => False
  | Component.Report _ _ _ _ _ => True
  | Component.Sources items => items = []
  | Component.Button _ tool args None _ _ => ∃ e, mint key tenant sender tool args = Err e
  | Component.Selection _ opts tool k _ None =>
      opts = [] ∨ ∃ o e, o ∈ opts ∧ mint key tenant sender tool (option_args k o) = Err e
  | Component.Form _ _ _ _ None _ => False
  | _ => degrade cell c = None
  end.

Definition empty_so_far (a : Collected) : Prop :=
  chunks a = [] ∧ keyboard_rows a = [] ∧ first_dashboard a = None.

Lemma option_buttons_None tool k opts :
  option_buttons key tenant sender tool k opts = None ↔
  ∃ o e, o ∈ opts ∧ mint key tenant sender tool (option_args k o) = Err e.
Proof.
  induction opts as [|o opts IH]; cbn [option_buttons].
  { split; [done|]. by intros (o & e & ?%elem_of_nil & _). }
  destruct (mint key tenant sender tool (option_args k o)) as [tok|e] eqn:E.
  - rewrite fmap_None, IH. setoid_rewrite elem_of_cons. split; [naive_solver|].
    intros (o' & e' & [->|Ho] & He); [congruence|naive_solver].
  - split; [|done]. intros _. exists o, e. split; [set_solver|done].
Qed.

Lemma push_chunk_not_empty p a : ¬ empty_so_far (push_chunk p a).
Proof. intros (E & _). cbn in E. by destruct (chunks a). Qed.

Lemma rows_of_nonempty {A} n (b : A) l : ∃ r rs, rows_of (length (b :: l)) n (b :: l) = r :: rs.
Proof. eexists _, _. reflexivity. Qed.

Lemma push_rows_not_empty r rows a : ¬ empty_so_far (push_rows (r :: rows) a).
Proof. intros (_ & E & _). cbn in E. by destruct (keyboard_rows a). Qed.

(** One round leaves the message empty exactly when it was and the component is
    silent. *)
Lemma render_component_empty a c :
  empty_so_far (render_component cell key tenant sender a c) ↔ empty_so_far a ∧ silent c.
Proof.
  pose proof (push_chunk_not_empty) as Hp.
  assert (∀ P Q : Prop, ¬ P → ¬ Q → (P ↔ empty_so_far a ∧ Q)) as Hno by naive_solver.
  assert (∀ d, empty_so_far d ↔ empty_so_far a → ∀ Q : Prop, Q →
            (empty_so_far d ↔ empty_so_far a ∧ Q)) as Hyes by naive_solver.
  unfold render_component. destruct (is_conversation c) eqn:Econv.
  { assert (silent c = (degrade cell c = None)) as ->.
    { destruct c; try done; cbn in Econv.
      - by destruct action.
      - by destruct submit.
      - by destruct send_template. }
    destruct (degrade cell c); [by apply Hno|]. by apply Hyes. }
  destruct c; try discriminate Econv; cbn [silent]; try (by apply Hno; auto).
  - destruct action; [discriminate Econv|]. destruct (mint _ _ _ tool args) as [tok|e].
    + apply Hno; [apply push_rows_not_empty|]. by intros [].
    + apply Hyes; [done|eauto].
  - destruct submit; [discriminate Econv|]. destruct options as [|o opts]; [apply Hyes; auto|].
    cbn [is_empty]. destruct (option_buttons _ _ _ _ _ _) as [bs|] eqn:E.
    + apply Hno; [apply Hp|]. intros [?|H2]; [done|].
      apply option_buttons_None in H2. congruence.
    + apply Hyes; [done|]. right. by apply option_buttons_None.
  - destruct send_template; [discriminate Econv|]. apply Hno; [|auto].
    apply (Hp (pre_rendered _ _) a).
  - apply Hno; [|auto]. unfold add_dashboard. intros (_ & _ & E). destruct (first_dashboard a) eqn:Ea;
      cbn in E; congruence.
  - by apply Hyes.
  - destruct items; [by apply Hyes|]. apply Hno; [apply Hp|done].
Qed.

Lemma collect_empty cs a :
  empty_so_far (fold_left (render_component cell key tenant sender) cs a)
  ↔ empty_so_far a ∧ ∀ c, c ∈ cs → silent c.
Proof.
  revert a. induction cs as [|c cs IH]; intros a; cbn [fold_left]; [set_solver|].
  rewrite IH, render_component_empty. setoid_rewrite elem_of_cons. naive_solver.
Qed.

(** Rendering fails exactly on a surface none of whose components puts
    anything in the message, and the failure is the one documented error: no
    message is posted for such a surface, and none is lost otherwise. *)
Theorem render_fails_iff_silent s :
  render cell key tenant sender s = Err EmptyAfterRender ↔ ∀ c, c ∈ components s → silent c.
Proof.
  assert ((∀ c, c ∈ components s → silent c) ↔ empty_so_far (collect cell key tenant sender s)) as ->.
  { unfold collect. rewrite collect_empty. split; [|naive_solver]. by repeat split. }
  unfold render, finish_render, empty_so_far. set (a := collect _ _ _ _ s).
  destruct (chunks a), (keyboard_rows a), (first_dashboard a); cbn; try naive_solver;
    destruct (fit _ _); naive_solver.
Qed.
End RenderProofs.

(** *** Witnesses *)

#[local] Existing Instance demo_crypto.
#[local] Existing Instance demo_laws.
#[local] Existing Instance sample_url.

Definition demo_controls : Surface :=
  {| components := [Component.Text §"a < b" []; Component.Narration §"note";
                    Component.Button §"Go" §"echo" Value.Null None None false] |}.

Definition demo_message : RenderedMessage := Eval vm_compute in
  match render None §"key" §"acme" §"42" demo_controls with
  | Ok msg => msg
  | Err _ => {| rm_text := []; rm_parse_mode := None; rm_reply_markup := None;
                rm_deferred_buttons := 0; rm_deferred_selections := 0;
                rm_deferred_dashboards := 0; rm_truncated := false; rm_dashboard := None |}
  end.
Definition demo_key : Value := Eval vm_compute in
  keyboard_button §"Go" (token_or_nil (mint §"key" §"acme" §"42" §"echo" Value.Null)).

Example demo_text : rm_text demo_message = §"a &lt; b" ++ nl ++ nl ++ §"<i>note</i>".
Proof. reflexivity. Qed.

Lemma keyboard_redeems_to_its_control_witness :
  keyboard demo_message = [[demo_key]]
  ∧ ∃ c label tool args tok, c ∈ components demo_controls ∧ offers c label tool args
      ∧ demo_key = keyboard_button label tok ∧ length tok ≤ 64
      ∧ (body_roundtrips {| cb_t := tool; cb_a := args; cb_x := None |} →
         decode_bound None tok §"key" 64 (telegram_binding §"acme" §"42") = Ok (tool, args)).
Proof.
  assert (render None §"key" §"acme" §"42" demo_controls = Ok demo_message) as E
    by (vm_compute; reflexivity).
  split; [reflexivity|].
  apply (keyboard_redeems_to_its_control None §"key" §"acme" §"42" demo_controls demo_message
    [demo_key] demo_key None E); left.
Defined.

(** ** Behaviour at the edges *)

(** A text without narration is escaped but not sent as HTML, so its reader
    sees the entities. *)
Lemma plain_text_shows_entities :
  ∃ msg, render None §"key" §"acme" §"42" {| components := [Component.Text §"R&D" []] |} = Ok msg
    ∧ rm_text msg = §"R&amp;D" ∧ rm_parse_mode msg = None.
Proof. eexists. split; [vm_compute; reflexivity|]. split; reflexivity. Qed.

(** A surface whose only component is an empty text renders to a message
    without text, which the platform refuses. *)
Lemma empty_text_is_rendered :
  ∃ msg, render None §"key" §"acme" §"42" {| components := [Component.Text [] []] |} = Ok msg
    ∧ rm_text msg = [] ∧ rm_dashboard msg = None.
Proof. eexists. split; [vm_compute; reflexivity|]. split; reflexivity. Qed.
