(* ===== verification/EmailMapper.v ===== *)
(** * EmailMapper: surfaces as email
    (crates/triton-chat-email/src/surface_mapper.rs)

    A surface as a subject, an HTML document and a plain text.  The regular
    expressions of the source are written out as matchers: each starts at an
    ASCII character and has at most one way to match at a place, so trying every
    place from the left and going on after a match is what [replace_all] does. *)

From S2P Require Import Prelude Json Errors A2ui A2uiText Surface TelegramMapper.

Definition SURFACE : SurfaceProfile :=
  {| sp_channel := §"email"; sp_markdown := Markdown.Full; sp_tables := Tables.Native;
     sp_buttons := true; sp_max_buttons := None; sp_charts := Charts.Image; sp_images := true;
     sp_max_text_bytes := Some (Z.to_nat 512000); sp_streaming := false; sp_subject_line := true;
     sp_guidance := §"Email: the richest surface. Full markdown, tables, links and an inline chart; the first line becomes the subject, so make it a good one." |}.

Definition EMAIL_HTML_MAX_BYTES : Z := 512000.

(** The double quote, and a quoted attribute. *)
Definition QUOTE : ascii := ascii_of_N 34.
Definition attr (name value : str) : str := name ++ §"=" ++ [QUOTE] ++ value ++ [QUOTE].

Definition TRUNCATION_SENTINEL_HTML : str :=
  §"<p " ++ attr §"style" §"color:#999"
  ++ §"><em>[truncated — message exceeded the email size limit]</em></p>".
Definition TRUNCATION_SENTINEL_TEXT : str :=
  nl ++ nl ++ §"[truncated — message exceeded the email size limit]".
Definition DEFAULT_SUBJECT : str := §"A message from your assistant".

Record RenderedEmail := {
  em_subject : str;
  em_html : str;
  em_text : str;
  em_deferred_buttons : nat;
  em_deferred_selections : nat;
  em_deferred_forms : nat;
  em_deferred_dashboards : nat;
  em_truncated : bool;
}.

(** ** Escaping *)

Definition escape_html (s : str) : str :=
  replace_char ">" §"&gt;" (replace_char "<" §"&lt;" (replace_char "&" §"&amp;" s)).
Definition escape_attr (s : str) : str := replace_char QUOTE §"&quot;" (escape_html s).

Definition sanitize_href (escaped_url : str) : str :=
  let lower := to_ascii_lowercase (trim escaped_url) in
  if existsb (λ scheme, starts_with scheme lower) [§"http://"; §"https://"; §"mailto:"; §"ui://"]
  then replace_char QUOTE §"&quot;" escaped_url
  else §"#".

(** ** Patterns *)

Fixpoint take_while (f : ascii → bool) (s : str) : str :=
  match s with
  | a :: s' => if f a then a :: take_while f s' else []
  | [] => []
  end.

(** [Regex::replace_all]: [m] is a match at the start, what stands for it, and
    what follows it. *)
Fixpoint replace_matches (m : str → option (str * str)) (fuel : nat) (s : str) : str :=
  match fuel, s with
  | S fuel, a :: r =>
      match m s with
      | Some (out, rest) => out ++ replace_matches m fuel rest
      | None => a :: replace_matches m fuel r
      end
  | _, _ => s
  end.
Definition rewrite_all (m : str → option (str * str)) (s : str) : str := replace_matches m (length s) s.

(** [k] times [c], what lies between, [k] times [c]. *)
Definition fenced (c : ascii) (k : nat) (s : str) : option (str * str) :=
  rest ← strip_prefix (replicate k c) s;
  let inner := take_while (λ a, negb (bool_decide (a = c)) && negb (bool_decide (nl = [a]))) rest in
  rest ← strip_prefix (replicate k c) (drop (length inner) rest);
  if is_empty inner then None else Some (inner, rest).

Definition in_tag (tag : str) (m : str → option (str * str)) (s : str) : option (str * str) :=
  x ← m s; Some (§"<" ++ tag ++ §">" ++ x.1 ++ §"</" ++ tag ++ §">", x.2).

Definition BOLD_STAR : str → option (str * str) := fenced "*" 2.
Definition BOLD_UNDER : str → option (str * str) := fenced "_" 2.
Definition CODE : str → option (str * str) := fenced "`" 1.
Definition BOLD (s : str) : option (str * str) :=
  match BOLD_STAR s with Some x => Some x | None => BOLD_UNDER s end.

(** The characters of an address: up to a parenthesis or white space. *)
Fixpoint take_url (s : str) : str :=
  match s with
  | a :: s' => if bool_decide (a = ")"%char) || negb (ws_len s =? 0)%nat then [] else a :: take_url s'
  | [] => []
  end.

(** The text and the address of a link, and what follows it. *)
Definition LINK (s : str) : option (str * str * str) :=
  rest ← strip_prefix §"[" s;
  let text := take_while (λ a, negb (bool_decide (a = "]"%char))) rest in
  rest ← strip_prefix §"](" (drop (length text) rest);
  let url := take_url rest in
  rest ← strip_prefix §")" (drop (length url) rest);
  if is_empty text || is_empty url then None else Some (text, url, rest).

(** At most [n] white space characters. *)
Fixpoint drop_ws (n : nat) (s : str) : str :=
  match n with
  | S n => if (ws_len s =? 0)%nat then s else drop_ws n (drop (ws_len s) s)
  | 0 => s
  end.

(** What follows [^\s{0,3}#{1,6}\s+]. *)
Definition HEADER (s : str) : option str :=
  let s := drop_ws 3 s in
  let k := length (take_while (λ a, bool_decide (a = "#"%char)) s) in
  let rest := drop k s in
  if (1 <=? k)%nat && (k <=? 6)%nat && negb (ws_len rest =? 0)%nat then Some (trim_start rest) else None.

Definition BULLET (s : str) : option str :=
  match trim_start s with
  | c :: rest =>
      if (bool_decide (c = "-"%char) || bool_decide (c = "*"%char)) && negb (ws_len rest =? 0)%nat
      then Some (trim_start rest) else None
  | [] => None
  end.

(** [str::lines] *)
Definition strip_cr (l : str) : str := default l (strip_suffix ["013"%char] l).
Fixpoint lines_of (pieces : list str) : list str :=
  match pieces with
  | [] => []
  | [last] => if is_empty last then [] else [last]
  | l :: rest => strip_cr l :: lines_of rest
  end.
Definition lines (s : str) : list str := lines_of (split_on "010" s).

(** ** Markdown *)

Definition inline_md (s : str) : str :=
  let link s := x ← LINK s;
    Some (§"<a " ++ attr §"href" (sanitize_href x.1.2) ++ §">" ++ x.1.1 ++ §"</a>", x.2) in
  let linked := rewrite_all link (escape_html s) in
  let bold := rewrite_all (in_tag §"strong" BOLD_STAR) linked in
  let bold := rewrite_all (in_tag §"strong" BOLD_UNDER) bold in
  rewrite_all (in_tag §"code" CODE) bold.

(** The writer: what is out, the paragraph and the list being read. *)
Record Md := { md_out : str; md_para : list str; md_list : list str }.

Definition flush_para (m : Md) : Md :=
  if is_empty (md_para m) then m
  else {| md_out := md_out m ++ §"<p>" ++ join §"<br>" (md_para m) ++ §"</p>"; md_para := [];
          md_list := md_list m |}.
Definition flush_list (m : Md) : Md :=
  if is_empty (md_list m) then m
  else {| md_out := md_out m ++ §"<ul>" ++ concat (md_list m) ++ §"</ul>"; md_para := md_para m;
          md_list := [] |}.

Definition md_line (m : Md) (raw : str) : Md :=
  if is_empty (trim raw) then flush_list (flush_para m)
  else match HEADER raw with
  | Some t =>
      let m := flush_list (flush_para m) in
      {| md_out := md_out m ++ §"<h3>" ++ inline_md (trim_end t) ++ §"</h3>"; md_para := md_para m;
         md_list := md_list m |}
  | None =>
      match BULLET raw with
      | Some t =>
          let m := flush_para m in
          {| md_out := md_out m; md_para := md_para m;
             md_list := md_list m ++ [§"<li>" ++ inline_md t ++ §"</li>"] |}
      | None =>
          let m := flush_list m in
          {| md_out := md_out m; md_para := md_para m ++ [inline_md raw]; md_list := md_list m |}
      end
  end.

Definition md_to_html (md : str) : str :=
  md_out (flush_list (flush_para (fold_left md_line (lines md)
    {| md_out := []; md_para := []; md_list := [] |}))).

Definition strip_markdown (s : str) : str := rewrite_all BOLD (default s (HEADER s)).

(** ** Blocks *)

Definition td (s : str) : str := §"<td>" ++ escape_html s ++ §"</td>".
Definition th (s : str) : str := §"<th " ++ attr §"align" §"left" ++ §">" ++ s ++ §"</th>".

Definition dashboard_table (title : str) (tiles : list DashboardTile) : str :=
  let has_trend := existsb (λ t, bool_decide (is_Some (t_trend t))) tiles in
  let head := §"<tr>" ++ th §"Metric" ++ th §"Value" ++ (if has_trend then th §"Trend" else []) ++ §"</tr>" in
  let rows := concat ((λ t, §"<tr>" ++ td (t_label t) ++ td (t_value t)
                ++ (if has_trend then td (default [] (t_trend t)) else []) ++ §"</tr>") <$> tiles) in
  let caption := if is_empty title then []
    else §"<caption " ++ attr §"style" §"text-align:left;font-weight:600;padding-bottom:4px" ++ §">"
           ++ escape_html title ++ §"</caption>" in
  §"<table " ++ attr §"cellpadding" §"6" ++ §" "
  ++ attr §"style" §"border-collapse:collapse;border:1px solid #ddd" ++ §">"
  ++ caption ++ head ++ rows ++ §"</table>".

Definition action_link (b : str * str) : str :=
  §"<a " ++ attr §"href" (escape_attr b.2) ++ §" "
  ++ attr §"style" §"display:inline-block;padding:8px 14px;margin:4px 6px 4px 0;background:#eef;border-radius:8px;color:#1a3;text-decoration:none;font-weight:600"
  ++ §">" ++ escape_html b.1 ++ §"</a>".

Definition li (s : str) : str := §"<li>" ++ s ++ §"</li>".
Definition ul (l : list str) : str := §"<ul>" ++ concat l ++ §"</ul>".

(** A block of the document and of the plain text. *)
Definition Block : Type := str * str.

(** The run of buttons before a block. *)
Definition flush (pending : list (str * str)) : list Block :=
  if is_empty pending then []
  else [(§"<p " ++ attr §"class" §"actions" ++ §">" ++ concat (action_link <$> pending) ++ §"</p>",
         join §"  " ((λ b, §"[" ++ b.1 ++ §"]") <$> pending))].

Definition button_href (resource : option str) : str :=
  match resource with
  | Some r => if starts_with §"ui://" r || starts_with §"http" r then r else §"#"
  | None => §"#"
  end.

Definition CHART : str := §"📊".

Section Render.
Context `{UrlParse}.
Variable cell : HttpHosts.

(** What a component other than a plain button adds: nothing, or the end of the
    run of buttons and maybe a block. *)
Definition component_block (c : Component) : option (list Block) :=
  if is_conversation c then
    (λ t, [(§"<p " ++ attr §"style" §"white-space:pre-wrap" ++ §">" ++ escape_html t ++ §"</p>", t)])
    <$> degrade cell c
  else match c with
  | Component.Text value _ => Some [(md_to_html value, strip_markdown value)]
  | Component.Narration text =>
      Some [(§"<p " ++ attr §"style" §"color:#666" ++ §"><em>" ++ escape_html text ++ §"</em></p>",
             §"(" ++ text ++ §")")]
  | Component.Selection prompt options _ _ _ _ =>
      Some [(§"<p>" ++ escape_html prompt ++ §"</p>" ++ ul ((λ o, li (escape_html (o_label o))) <$> options),
             prompt ++ nl ++ §"- " ++ join (nl ++ §"- ") (o_label <$> options))]
  | Component.Form title fields _ _ _ _ =>
      Some [(§"<p><strong>" ++ escape_html title ++ §"</strong></p>"
             ++ ul ((λ f, li (escape_html (f_label f) ++ §": <span " ++ attr §"style" §"color:#999"
                              ++ §">____</span>")) <$> fields)
             ++ §"<p " ++ attr §"style" §"color:#999" ++ §"><em>Open in the app to submit.</em></p>",
             title ++ §" (open in the app to submit)")]
  | Component.Dashboard title tiles =>
      Some [(dashboard_table title tiles,
             trim_end ((if is_empty title then [] else title ++ nl)
               ++ concat ((λ t, §"- " ++ t_label t ++ §": " ++ t_value t ++ nl) <$> tiles)))]
  | Component.Report report_id _ _ _ _ =>
      Some [(§"<p>" ++ CHART ++ §" <em>" ++ escape_html report_id ++ §"</em></p>",
             CHART ++ §" " ++ report_id)]
  | Component.Diff dl =>
      let text := diff_to_text dl in
      Some [(§"<pre " ++ attr §"style" §"font-family:monospace" ++ §">" ++ escape_html text ++ §"</pre>", text)]
  | Component.Sources items =>
      Some (if is_empty items then []
            else [(§"<p><strong>Sources</strong></p>"
                   ++ ul ((λ i, li (§"<a " ++ attr §"href" (escape_attr (s_resource i)) ++ §">"
                                     ++ escape_html (s_label i) ++ §"</a>")) <$> items),
                   §"Sources: " ++ join §" · " (s_label <$> items))])
  | _ => None
  end.

(** The loop over the components. *)
Fixpoint blocks_of (pending : list (str * str)) (cs : list Component) : list Block :=
  match cs with
  | [] => flush pending
  | c :: cs' =>
      match c with
      | Component.Button label _ _ None resource _ =>
          blocks_of (pending ++ [(label, button_href resource)]) cs'
      | _ =>
          match component_block c with
          | Some bs => flush pending ++ bs ++ blocks_of [] cs'
          | None => blocks_of pending cs'
          end
      end
  end.

End Render.

Definition is_deferred_form (c : Component) : bool :=
  negb (is_conversation c) && match c with Component.Form _ _ _ _ _ _ => true | _ => false end.

(** ** Subject and size *)

Definition truncate_to_char_boundary (s : str) (max : nat) : str :=
  if (char_count s <=? max)%nat then s else trim_end (take_chars max s) ++ §"…".

Definition lead_line (c : Component) : option str :=
  match c with
  | Component.Text value _ => head (filter (λ l, is_empty l = false) (trim <$> lines value))
  | _ => None
  end.
Definition derive_subject (s : Surface) : str :=
  match head (omap lead_line (components s)) with
  | None => DEFAULT_SUBJECT
  | Some line =>
      let stripped := trim (strip_markdown line) in
      if is_empty stripped then DEFAULT_SUBJECT else truncate_to_char_boundary stripped 120
  end.

Definition len (s : str) : Z := Z.of_nat (length s).
Definition truncate_str_to_boundary (s : str) (max : Z) : str :=
  if (len s <=? max)%Z then s else take (floor_char_boundary s (Z.to_nat max)) s.

(** How many blocks fit. *)
Fixpoint kept_blocks (budget running : Z) (bs : list Block) : nat :=
  match bs with
  | [] => 0
  | b :: bs' => if (budget <? running + len b.1)%Z then 0 else S (kept_blocks budget (running + len b.1) bs')
  end.

Definition budget : Z := Z.max 0 (EMAIL_HTML_MAX_BYTES - len TRUNCATION_SENTINEL_HTML).

Definition truncate_blocks (bs : list Block) : list Block * bool :=
  let total := foldr (λ b n, len b.1 + n)%Z 0%Z bs in
  if (total <=? EMAIL_HTML_MAX_BYTES)%Z then (bs, false)
  else
    let kept := Nat.max (kept_blocks budget 0 bs) 1 in
    (match take kept bs with
     | [b] => [(truncate_str_to_boundary b.1 budget, truncate_str_to_boundary b.2 budget)]
     | l => l
     end, true).

Definition wrap_document (subject : str) (bs : list str) (truncated : bool) : str :=
  let body := join nl bs ++ (if truncated then nl ++ TRUNCATION_SENTINEL_HTML else []) in
  §"<!doctype html>" ++ nl ++ §"<html><head><meta " ++ attr §"charset" §"utf-8" ++ §"><meta "
  ++ attr §"name" §"viewport" ++ §" " ++ attr §"content" §"width=device-width" ++ §"><title>"
  ++ escape_html subject ++ §"</title></head><body "
  ++ attr §"style" §"font-family:-apple-system,Segoe UI,Roboto,sans-serif;color:#222;max-width:640px;margin:0 auto;padding:16px;line-height:1.5"
  ++ §">" ++ nl ++ body ++ nl ++ §"</body></html>".

(** ** Rendering *)

(** [None]: every component rendered to nothing. *)
Definition render `{UrlParse} (cell : HttpHosts) (s : Surface) : option RenderedEmail :=
  let bs := blocks_of cell [] (components s) in
  if is_empty bs then None
  else
    let subject := derive_subject s in
    let '(kept, truncated) := truncate_blocks bs in
    Some {| em_subject := subject;
            em_html := wrap_document subject (fst <$> kept) truncated;
            em_text := join (nl ++ nl) (snd <$> kept)
                         ++ (if truncated then TRUNCATION_SENTINEL_TEXT else []);
            em_deferred_buttons := 0; em_deferred_selections := 0; em_deferred_dashboards := 0;
            em_deferred_forms := length (filter (λ c, is_deferred_form c = true) (components s));
            em_truncated := truncated |}.

Definition try_render_surface `{UrlParse, SerdeA2ui} (cell : HttpHosts) (res : Value)
    : option (option RenderedEmail) :=
  match extract_surface cell res with Ok s => Some (render cell s) | Err _ => None end.

(** The examples of the source's tests. *)
Example inline_bold : inline_md §"**a** & b" = §"<strong>a</strong> &amp; b".
Proof. vm_compute. reflexivity. Qed.
Example inline_link :
  inline_md §"[x](javascript:alert) [y](http://h)"
  = §"<a " ++ attr §"href" §"#" ++ §">x</a> <a " ++ attr §"href" §"http://h" ++ §">y</a>".
Proof. vm_compute. reflexivity. Qed.

(** * The markup is the mapper's own *)

(** The tags the mapper writes, without the anchors. *)
Definition TAGS : list str :=
  [§"<p>"; §"<p style="; §"<p class="; §"</p>"; §"</a>"; §"<ul>"; §"</ul>"; §"<li>"; §"</li>";
   §"<strong>"; §"</strong>"; §"<em>"; §"</em>"; §"<code>"; §"</code>"; §"<br>"; §"<h3>"; §"</h3>";
   §"<span style="; §"</span>"; §"<table cellpadding="; §"</table>"; §"<caption style="; §"</caption>";
   §"<tr>"; §"</tr>"; §"<th align="; §"</th>"; §"<td>"; §"</td>"; §"<pre style="; §"</pre>";
   §"<!doctype html>"; §"<html>"; §"<head>"; §"<meta charset="; §"<meta name="; §"<title>"; §"</title>";
   §"</head>"; §"<body style="; §"</body>"; §"</html>"].

(** The address ends at its first quote, where the tag ends or its style
    begins: it cannot add an attribute. *)
Fixpoint address_closes (s : str) : bool :=
  match s with
  | a :: s' => if decide (a = QUOTE) then starts_with §">" s' || starts_with §" style=" s'
               else address_closes s'
  | [] => false
  end.
Definition ANCHOR : str := §"<a href=" ++ [QUOTE].
Definition own_tag (s : str) : bool :=
  existsb (λ t, starts_with t s) TAGS
  || match strip_prefix ANCHOR s with Some rest => address_closes rest | None => false end.

(** Every [<] begins a tag of the mapper. *)
Fixpoint own_markup (s : str) : bool :=
  match s with
  | a :: s' => (if decide (a = "<"%char) then own_tag s else true) && own_markup s'
  | [] => true
  end.

Lemma starts_with_more p s t : starts_with p s = true → starts_with p (s ++ t) = true.
Proof. rewrite !starts_with_spec. intros [r ->]. exists (r ++ t). by rewrite app_assoc. Qed.

Lemma address_closes_app s t : address_closes s = true → address_closes (s ++ t) = true.
Proof.
  induction s as [|a s IH]; [done|]. cbn [address_closes app]. case_decide; [|done].
  rewrite !orb_true_iff. intros [E|E]; [left|right]; by apply starts_with_more.
Qed.
Lemma own_tag_app s t : own_tag s = true → own_tag (s ++ t) = true.
Proof.
  unfold own_tag. rewrite !orb_true_iff. intros [E|E].
  - left. apply existsb_exists in E as (x & Hx & E). apply existsb_exists. exists x.
    split; [done|by apply starts_with_more].
  - right. destruct (strip_prefix ANCHOR s) as [r|] eqn:Es; [|done].
    apply strip_prefix_Some in Es as ->. rewrite <- app_assoc.
    rewrite (proj2 (strip_prefix_Some ANCHOR _ _) eq_refl). by apply address_closes_app.
Qed.
Lemma own_markup_app s t : own_markup s = true → own_markup t = true → own_markup (s ++ t) = true.
Proof.
  intros Hs Ht. induction s as [|a s IH]; [done|]. cbn [own_markup app] in *.
  apply andb_true_iff in Hs as [Ha Hs]. rewrite IH by done. rewrite andb_true_r.
  case_decide; [|done]. by apply (own_tag_app (a :: s) t).
Qed.
Lemma own_markup_concat l : Forall (λ s, own_markup s = true) l → own_markup (concat l) = true.
Proof. induction 1; [done|]. by apply own_markup_app. Qed.
Lemma own_markup_join sep l :
  own_markup sep = true → Forall (λ s, own_markup s = true) l → own_markup (join sep l) = true.
Proof.
  intros Hsep Hl. induction Hl as [|s l Hs Hl IH]; [done|]. destruct l as [|s' l]; [done|].
  cbn [join] in *. by repeat apply own_markup_app.
Qed.

(** ** Text without markup *)

Definition plain_text (s : str) : Prop := ("<"%char ∉ s).
Lemma plain_own s : plain_text s → own_markup s = true.
Proof.
  unfold plain_text. induction s as [|a s IH]; [done|]. cbn [own_markup]. intros Hs.
  rewrite IH by set_solver. case_decide; [set_solver|done].
Qed.

Lemma replace_char_elem c r s x : x ∈ replace_char c r s → x ∈ r ∨ x ∈ s ∧ x ≠ c.
Proof.
  unfold replace_char. induction s as [|a s IH]; cbn [fmap list_fmap concat].
  - by intros ?%not_elem_of_nil.
  - intros [Hx|Hx]%elem_of_app; [|set_solver]. case_decide; [by left|].
    apply list_elem_of_singleton in Hx as ->. right. split; [set_solver|done].
Qed.
Lemma escape_html_plain s : plain_text (escape_html s).
Proof.
  unfold plain_text, escape_html. intros Hx.
  apply replace_char_elem in Hx as [Hx|[Hx _]]; [revert Hx; by apply (bool_decide_unpack (_ ∉ _))|].
  apply replace_char_elem in Hx as [Hx|[_ Hx]]; [revert Hx; by apply (bool_decide_unpack (_ ∉ _))|done].
Qed.
Lemma escape_html_own s : own_markup (escape_html s) = true.
Proof. apply plain_own, escape_html_plain. Qed.

Definition unquoted (s : str) : Prop := (QUOTE ∉ s).
Lemma escape_attr_unquoted s : unquoted (escape_attr s).
Proof.
  unfold unquoted, escape_attr. intros Hx.
  apply replace_char_elem in Hx as [Hx|[_ Hx]]; [revert Hx; by apply (bool_decide_unpack (_ ∉ _))|done].
Qed.
Lemma sanitize_href_unquoted s : unquoted (sanitize_href s).
Proof.
  unfold unquoted, sanitize_href. case_match; intros Hx.
  - apply replace_char_elem in Hx as [Hx|[_ Hx]]; [revert Hx; by apply (bool_decide_unpack (_ ∉ _))|done].
  - revert Hx. by apply (bool_decide_unpack (_ ∉ _)).
Qed.
Lemma replace_char_plain c r s : plain_text r → plain_text s → plain_text (replace_char c r s).
Proof. unfold plain_text. intros Hr Hs [Hx|[Hx _]]%replace_char_elem; auto. Qed.
Lemma sanitize_href_plain s : plain_text s → plain_text (sanitize_href s).
Proof.
  intros Hs. unfold sanitize_href. case_match.
  - apply replace_char_plain; [by apply (bool_decide_unpack (_ ∉ _))|done].
  - by apply (bool_decide_unpack (_ ∉ _)).
Qed.
Lemma escape_attr_plain s : plain_text (escape_attr s).
Proof. apply replace_char_plain; [by apply (bool_decide_unpack (_ ∉ _))|apply escape_html_plain]. Qed.

Lemma address_closes_value v tail :
  unquoted v → starts_with §">" tail || starts_with §" style=" tail = true →
  address_closes (v ++ QUOTE :: tail) = true.
Proof.
  unfold unquoted. intros Hv Ht. induction v as [|a v IH]; cbn [address_closes app].
  - by rewrite decide_True.
  - rewrite decide_False by set_solver. apply IH. set_solver.
Qed.

(** An anchor with an address and a tail that ends the tag. *)
Lemma anchor_own v tail :
  unquoted v → plain_text v → starts_with §">" tail || starts_with §" style=" tail = true →
  own_markup tail = true →
  own_markup (§"<a " ++ attr §"href" v ++ tail) = true.
Proof.
  intros Hu Hp Ht Ho. unfold attr. rewrite <- !app_assoc.
  assert (own_markup (v ++ QUOTE :: tail) = true) as Hrest.
  { apply own_markup_app; [by apply plain_own|]. cbn [own_markup]. by rewrite Ho. }
  assert (own_tag (ANCHOR ++ v ++ QUOTE :: tail) = true) as Htag.
  { unfold own_tag. rewrite (proj2 (strip_prefix_Some ANCHOR _ _) eq_refl).
    rewrite address_closes_value by done. apply orb_true_r. }
  change (own_tag (ANCHOR ++ v ++ QUOTE :: tail) && own_markup (v ++ QUOTE :: tail) = true).
  by rewrite Htag, Hrest.
Qed.

(** ** The passes over a line *)

(** [s'] is [s] with some fences replaced by tags. *)
Definition fence_char (a : ascii) : bool :=
  bool_decide (a = "*"%char) || bool_decide (a = "_"%char) || bool_decide (a = "`"%char).
Inductive marked : str → str → Prop :=
  | MarkedNil : marked [] []
  | MarkedKeep a s s' : marked s s' → marked (a :: s) (a :: s')
  | MarkedTag f t s s' :
      f ≠ [] → forallb fence_char f = true →
      t ∈ [§"<strong>"; §"</strong>"; §"<code>"; §"</code>"] →
      marked s s' → marked (f ++ s) (t ++ s').

Lemma marked_refl s : marked s s.
Proof. induction s; by constructor. Qed.
Lemma marked_app a a' b b' : marked a a' → marked b b' → marked (a ++ b) (a' ++ b').
Proof.
  intros Ha Hb. induction Ha as [|x s s' _ IH|f t s s' Hf Hc Ht _ IH]; cbn [app]; [done|by constructor|].
  rewrite <- !app_assoc. by constructor.
Qed.

Lemma marked_cons a s s' :
  fence_char a = false → marked (a :: s) s' → ∃ s'', s' = a :: s'' ∧ marked s s''.
Proof.
  intros Ha Hm. inversion Hm as [|a' s1 s1' Hs1|f t s1 s1' Hf Hc Ht Hs1 E]; subst; [eauto|].
  destruct f as [|b f]; [done|]. injection E as -> _. cbn [forallb] in Hc. rewrite Ha in Hc. done.
Qed.
Lemma marked_prefix p s s' :
  forallb (λ a, negb (fence_char a)) p = true → marked (p ++ s) s' → ∃ s'', s' = p ++ s'' ∧ marked s s''.
Proof.
  revert s'. induction p as [|a p IH]; intros s' Hp Hm; [eauto|]. cbn [forallb app] in *.
  apply andb_true_iff in Hp as [Ha%negb_true_iff Hp].
  apply marked_cons in Hm as (s1 & -> & Hm); [|done]. apply IH in Hm as (s2 & -> & Hm); [|done]. eauto.
Qed.
Lemma marked_starts p s s' :
  forallb (λ a, negb (fence_char a)) p = true → marked s s' → starts_with p s = true →
  starts_with p s' = true.
Proof.
  rewrite !starts_with_spec. intros Hp Hm [r ->]. apply marked_prefix in Hm as (s'' & -> & _); eauto.
Qed.

Lemma marked_closes s s' : marked s s' → address_closes s = true → address_closes s' = true.
Proof.
  induction 1 as [|a s s' Hm IH|f t s s' Hf Hc Ht Hm IH]; [done|..].
  - cbn [address_closes]. case_decide; [|done]. rewrite !orb_true_iff.
    intros [E|E]; [left|right]; by eapply marked_starts.
  - intros Ha. assert (address_closes s = true) as Hs.
    { clear -Hc Ha. induction f as [|b f IH]; [done|]. cbn [forallb app address_closes] in *.
      apply andb_true_iff in Hc as [Hb Hc]. rewrite decide_False in Ha by (by intros ->). auto. }
    apply IH in Hs. repeat apply elem_of_cons in Ht as [->|Ht]; try exact Hs.
    by apply not_elem_of_nil in Ht.
Qed.

Lemma tags_unfenced : Forall (λ t, forallb (λ a, negb (fence_char a)) t = true) TAGS.
Proof. repeat (constructor; [reflexivity|]). constructor. Qed.
Lemma marked_own_tag s s' : marked s s' → own_tag s = true → own_tag s' = true.
Proof.
  intros Hm. unfold own_tag. rewrite !orb_true_iff. intros [E|E].
  - left. apply existsb_exists in E as (x & Hx & E). apply existsb_exists. exists x. split; [done|].
    eapply marked_starts; [|done|done]. apply list_elem_of_In in Hx.
    by apply (proj1 (Forall_forall _ _) tags_unfenced x).
  - right. destruct (strip_prefix ANCHOR s) as [r|] eqn:Es; [|done].
    apply strip_prefix_Some in Es as ->. apply marked_prefix in Hm as (s'' & -> & Hm); [|done].
    rewrite (proj2 (strip_prefix_Some ANCHOR _ _) eq_refl). by eapply marked_closes.
Qed.
Lemma marked_own s s' : marked s s' → own_markup s = true → own_markup s' = true.
Proof.
  induction 1 as [|a s s' Hm IH|f t s s' Hf Hc Ht Hm IH]; [done|..].
  - cbn [own_markup]. intros [Ha Hs]%andb_true_iff. rewrite IH by done. rewrite andb_true_r.
    case_decide; [|done]. eapply marked_own_tag; [|exact Ha]. by constructor.
  - intros Hs. assert (own_markup s = true) as Hs'.
    { clear -Hs. induction f as [|b f IH]; [done|]. cbn [own_markup app] in Hs.
      apply andb_true_iff in Hs as [_ Hs]. auto. }
    apply own_markup_app; [|auto]. repeat apply elem_of_cons in Ht as [->|Ht]; try done.
    by apply not_elem_of_nil in Ht.
Qed.

Lemma take_while_split f s : s = take_while f s ++ drop (length (take_while f s)) s.
Proof.
  induction s as [|a s IH]; [done|]. cbn [take_while]. destruct (f a); [|done].
  cbn [length drop app]. by rewrite <- IH.
Qed.
Lemma take_url_split s : s = take_url s ++ drop (length (take_url s)) s.
Proof.
  induction s as [|a s IH]; [done|]. cbn [take_url]. destruct (_ || _); [done|].
  cbn [length drop app]. by rewrite <- IH.
Qed.

Lemma fenced_spec c k s inner rest :
  fenced c k s = Some (inner, rest) → s = replicate k c ++ inner ++ replicate k c ++ rest.
Proof.
  unfold fenced. destruct (strip_prefix (replicate k c) s) as [r|] eqn:E1; [|done].
  cbn [mbind option_bind]. cbv zeta. set (i := take_while _ r).
  destruct (strip_prefix _ (drop (length i) r)) as [r2|] eqn:E2; [|done]. cbn [mbind option_bind].
  destruct (is_empty i); [done|]. intros [= <- <-].
  apply strip_prefix_Some in E1 as ->, E2. rewrite <- E2. f_equal. apply take_while_split.
Qed.

Lemma pass_marked c k tag s :
  fence_char c = true → k ≠ 0 → tag ∈ [§"strong"; §"code"] →
  marked s (rewrite_all (in_tag tag (fenced c k)) s).
Proof.
  intros Hc Hk Htag. unfold rewrite_all.
  assert (replicate k c ≠ [] ∧ forallb fence_char (replicate k c) = true) as [Hne Hall].
  { split; [by destruct k|]. clear -Hc. induction k; [done|]. cbn [replicate forallb]. by rewrite Hc. }
  generalize (length s) as fuel. intros fuel. revert s.
  induction fuel as [|fuel IH]; intros s; [apply marked_refl|]. destruct s as [|a s]; [constructor|].
  cbn [replace_matches]. unfold in_tag at 1.
  destruct (fenced c k (a :: s)) as [[inner rest]|] eqn:E; cbn [mbind option_bind fst snd]; [|by constructor].
  apply fenced_spec in E. rewrite E, <- !app_assoc.
  rewrite (app_assoc tag §">"), (app_assoc §"<"), (app_assoc tag §">" (replace_matches _ _ _)),
    (app_assoc §"</" (tag ++ §">")).
  constructor; [done|done|set_solver|]. apply marked_app; [apply marked_refl|].
  constructor; [done|done|set_solver|apply IH].
Qed.

Lemma LINK_spec s text url rest :
  LINK s = Some (text, url, rest) → s = §"[" ++ text ++ §"](" ++ url ++ §")" ++ rest.
Proof.
  unfold LINK. destruct (strip_prefix §"[" s) as [r|] eqn:E1; [|done]. cbn [mbind option_bind]. cbv zeta.
  set (t := take_while _ r).
  destruct (strip_prefix §"](" (drop (length t) r)) as [r2|] eqn:E2; [|done]. cbn [mbind option_bind].
  set (u := take_url r2).
  destruct (strip_prefix §")" (drop (length u) r2)) as [r3|] eqn:E3; [|done]. cbn [mbind option_bind].
  destruct (is_empty t || is_empty u); [done|]. intros [= <- <- <-].
  apply strip_prefix_Some in E1 as ->, E2, E3. f_equal.
  rewrite <- E3, <- (take_url_split r2 : r2 = u ++ drop (length u) r2), <- E2.
  apply take_while_split.
Qed.

Lemma plain_app s t : plain_text (s ++ t) ↔ plain_text s ∧ plain_text t.
Proof. unfold plain_text. rewrite elem_of_app. tauto. Qed.

Lemma inline_md_own s : own_markup (inline_md s) = true.
Proof.
  unfold inline_md. cbv zeta.
  eapply marked_own; [by apply pass_marked; [..|apply (bool_decide_unpack _)]|].
  eapply marked_own; [by apply pass_marked; [..|apply (bool_decide_unpack _)]|].
  eapply marked_own; [by apply pass_marked; [..|apply (bool_decide_unpack _)]|].
  unfold rewrite_all. set (e := escape_html s). pose proof (escape_html_plain s : plain_text e) as He.
  clearbody e. generalize (length e) as fuel. intros fuel. revert e He.
  induction fuel as [|fuel IH]; intros e He; [by apply plain_own|]. destruct e as [|a e]; [done|].
  cbn [replace_matches].
  destruct (LINK (a :: e)) as [[[text url] rest]|] eqn:E; cbn [mbind option_bind fst snd].
  - apply LINK_spec in E. rewrite E in He. rewrite !plain_app in He.
    destruct He as (_ & Htext & _ & Hurl & _ & Hrest).
    rewrite <- !app_assoc. apply anchor_own; [apply sanitize_href_unquoted|by apply sanitize_href_plain|done|].
    apply own_markup_app; [done|]. apply own_markup_app; [by apply plain_own|].
    apply own_markup_app; [done|]. by apply IH.
  - change (a :: e) with ([a] ++ e) in He. apply plain_app in He as [Ha He].
    apply (own_markup_app [a]); [by apply plain_own|by apply IH].
Qed.

(** What is out, and what is being read. *)
Definition md_own (m : Md) : Prop :=
  own_markup (md_out m) = true ∧ Forall (λ s, own_markup s = true) (md_para m)
  ∧ Forall (λ s, own_markup s = true) (md_list m).

Lemma flush_para_own m : md_own m → md_own (flush_para m).
Proof.
  intros (Ho & Hp & Hl). unfold flush_para. destruct (is_empty (md_para m)); [done|].
  split_and!; cbn [md_out md_para md_list]; [|constructor|done].
  apply own_markup_app; [done|]. apply own_markup_app; [done|].
  apply own_markup_app; [by apply own_markup_join|done].
Qed.
Lemma flush_list_own m : md_own m → md_own (flush_list m).
Proof.
  intros (Ho & Hp & Hl). unfold flush_list. destruct (is_empty (md_list m)); [done|].
  split_and!; cbn [md_out md_para md_list]; [|done|constructor].
  apply own_markup_app; [done|]. apply own_markup_app; [done|].
  apply own_markup_app; [by apply own_markup_concat|done].
Qed.
Lemma md_line_own m raw : md_own m → md_own (md_line m raw).
Proof.
  intros Hm. unfold md_line. destruct (is_empty (trim raw)); [by apply flush_list_own, flush_para_own|].
  destruct (HEADER raw) as [t|].
  - pose proof (flush_list_own _ (flush_para_own _ Hm)) as (Ho & Hp & Hl).
    split_and!; cbn [md_out md_para md_list]; [|done|done].
    apply own_markup_app; [done|]. apply own_markup_app; [done|].
    apply own_markup_app; [apply inline_md_own|done].
  - destruct (BULLET raw) as [t|].
    + pose proof (flush_para_own _ Hm) as (Ho & Hp & Hl).
      split_and!; cbn [md_out md_para md_list]; [done|done|]. apply Forall_app. split; [done|].
      constructor; [|constructor]. apply own_markup_app; [done|].
      apply own_markup_app; [apply inline_md_own|done].
    + pose proof (flush_list_own _ Hm) as (Ho & Hp & Hl).
      split_and!; cbn [md_out md_para md_list]; [done| |done]. apply Forall_app. split; [done|].
      constructor; [apply inline_md_own|constructor].
Qed.
Lemma md_to_html_own md : own_markup (md_to_html md) = true.
Proof.
  unfold md_to_html. apply flush_list_own, flush_para_own.
  assert (md_own {| md_out := []; md_para := []; md_list := [] |}) as Hm by (repeat constructor).
  revert Hm. generalize {| md_out := []; md_para := []; md_list := [] |} as m.
  induction (lines md) as [|l ls IH]; intros m Hm; [done|]. cbn [fold_left].
  by apply IH, md_line_own.
Qed.

(** ** Blocks and the document *)

Lemma own_pair a b rest :
  own_markup (a ++ b) = true → own_markup rest = true → own_markup (a ++ b ++ rest) = true.
Proof. intros. rewrite app_assoc. by apply own_markup_app. Qed.

Lemma own_map {A} (f : A → str) l :
  (∀ x, own_markup (f x) = true) → own_markup (concat (f <$> l)) = true.
Proof. intros Hf. apply own_markup_concat, Forall_fmap, Forall_forall. intros x _. apply Hf. Qed.

Ltac own :=
  repeat first [reflexivity | apply escape_html_own | apply md_to_html_own
               | apply own_pair; [reflexivity|] | apply own_markup_app
               | apply own_map; intros ? ].

Lemma td_own s : own_markup (td s) = true.
Proof. unfold td. own. Qed.
Lemma dashboard_own title tiles : own_markup (dashboard_table title tiles) = true.
Proof.
  unfold dashboard_table. cbv zeta. set (b := existsb _ tiles).
  do 2 (apply own_pair; [reflexivity|]). apply own_markup_app; [reflexivity|].
  apply own_markup_app; [destruct (is_empty title); own|].
  apply own_markup_app; [by destruct b|]. apply own_markup_app; [|reflexivity].
  apply own_map. intros t. apply own_markup_app; [reflexivity|].
  apply own_markup_app; [apply td_own|]. apply own_markup_app; [apply td_own|].
  apply own_markup_app; [destruct b; [apply td_own|reflexivity]|reflexivity].
Qed.
Lemma action_link_own b : own_markup (action_link b) = true.
Proof.
  unfold action_link. apply anchor_own; [apply escape_attr_unquoted|apply escape_attr_plain|done|].
  own.
Qed.

Definition block_own (b : Block) : Prop := own_markup b.1 = true.

Lemma flush_own pending : Forall block_own (flush pending).
Proof.
  unfold flush. destruct (is_empty pending); repeat constructor. unfold block_own. cbn [fst].
  apply own_pair; [reflexivity|]. apply own_markup_app; [reflexivity|].
  apply own_markup_app; [|reflexivity]. apply own_map. apply action_link_own.
Qed.

Section BlockFacts.
Context `{UrlParse}.
Variable cell : HttpHosts.

Lemma component_block_own c bs : component_block cell c = Some bs → Forall block_own bs.
Proof.
  unfold component_block. destruct (is_conversation c).
  { destruct (degrade cell c); [|done]. intros [= <-]. repeat constructor. unfold block_own. own. }
  destruct c; try done; intros Hb; apply (inj Some) in Hb as <-; try (repeat constructor; unfold block_own; cbn [fst]; unfold ul, li; own; fail).
  - repeat constructor. apply dashboard_own.
  - destruct (is_empty items); repeat constructor. unfold block_own. cbn [fst]. unfold ul, li.
    apply own_markup_app; [reflexivity|]. apply own_markup_app; [reflexivity|].
    apply own_markup_app; [|reflexivity]. apply own_map. intros i.
    apply own_markup_app; [reflexivity|]. apply own_markup_app; [|reflexivity].
    apply anchor_own; [apply escape_attr_unquoted|apply escape_attr_plain|done|]. own.
Qed.

Lemma blocks_own pending cs : Forall block_own (blocks_of cell pending cs).
Proof.
  revert pending. induction cs as [|c cs IH]; intros pending; [apply flush_own|].
  cbn [blocks_of].
  assert (Forall block_own match component_block cell c with
                           | Some bs => flush pending ++ bs ++ blocks_of cell [] cs
                           | None => blocks_of cell pending cs end) as Hgen.
  { destruct (component_block cell c) eqn:E; [|apply IH].
    rewrite !Forall_app. split_and!; [apply flush_own|by eapply component_block_own|apply IH]. }
  destruct c; try exact Hgen. destruct action; [exact Hgen|apply IH].
Qed.
End BlockFacts.

Lemma wrap_document_own subject bs truncated :
  Forall (λ s, own_markup s = true) bs → own_markup (wrap_document subject bs truncated) = true.
Proof.
  intros Hb. unfold wrap_document. cbv zeta. do 2 (apply own_markup_app; [reflexivity|]).
  do 2 (apply own_pair; [reflexivity|]). do 2 (apply own_markup_app; [reflexivity|]).
  apply own_markup_app; [reflexivity|]. apply own_markup_app; [apply escape_html_own|].
  apply own_pair; [reflexivity|]. do 2 (apply own_markup_app; [reflexivity|]).
  apply own_markup_app; [|reflexivity]. apply own_markup_app; [by apply own_markup_join|].
  by destruct truncated.
Qed.

(** ** The subject is one line *)

Definition one_line_text (s : str) : Prop := ("010"%char ∉ s).

Lemma trim_elem s x : x ∈ trim s → x ∈ s.
Proof. destruct (trim_infix s) as (p & q & E). intros Hx. rewrite E. set_solver. Qed.
Lemma trim_with_elem f k s x : x ∈ trim_with f k s → x ∈ s.
Proof. destruct (trim_with_suffix f k s) as [p E]. intros Hx. rewrite E. set_solver. Qed.
Lemma trim_end_elem s x : x ∈ trim_end s → x ∈ s.
Proof.
  unfold trim_end. intros Hx. apply list_elem_of_In, in_rev, list_elem_of_In, trim_with_elem in Hx.
  by apply list_elem_of_In, in_rev, list_elem_of_In.
Qed.
Lemma take_chars_elem n s x : x ∈ take_chars n s → x ∈ s.
Proof.
  revert n. induction s as [|a s IH]; intros n; [done|]. cbn [take_chars].
  destruct (is_continuation a); [intros [->|Hx]%elem_of_cons; set_solver|].
  destruct n; [by intros ?%not_elem_of_nil|]. intros [->|Hx]%elem_of_cons; set_solver.
Qed.
Lemma drop_ws_elem n s x : x ∈ drop_ws n s → x ∈ s.
Proof.
  revert s. induction n as [|n IH]; intros s; [done|]. cbn [drop_ws]. case_match; [done|].
  intros Hx%IH. rewrite <- (take_drop (ws_len s) s). set_solver.
Qed.
Lemma HEADER_elem s r x : HEADER s = Some r → x ∈ r → x ∈ s.
Proof.
  unfold HEADER. cbv zeta. set (k := length _). case_match; [|done]. intros [= <-] Hx.
  apply trim_with_elem in Hx. apply (drop_ws_elem 3).
  rewrite <- (take_drop k (drop_ws 3 s)). set_solver.
Qed.
Lemma strip_markdown_elem s x : x ∈ strip_markdown s → x ∈ s.
Proof.
  unfold strip_markdown. intros Hx.
  assert (x ∈ default s (HEADER s)) as Hd; [|destruct (HEADER s) eqn:E; [by eapply HEADER_elem|done]].
  revert Hx. generalize (default s (HEADER s)) as t. clear s. intros t. unfold rewrite_all.
  generalize (length t) as fuel. intros fuel. revert t.
  induction fuel as [|fuel IH]; intros t; [done|]. destruct t as [|a t]; [done|]. cbn [replace_matches].
  destruct (BOLD (a :: t)) as [[inner rest]|] eqn:E.
  - assert (∃ c k, a :: t = replicate k c ++ inner ++ replicate k c ++ rest) as (c & k & ->).
    { unfold BOLD in E. destruct (BOLD_STAR (a :: t)) as [[? ?]|] eqn:E'.
      - injection E as <- <-. eexists _, _. by apply fenced_spec.
      - eexists _, _. by apply fenced_spec. }
    intros [Hx|Hx%IH]%elem_of_app; set_solver.
  - intros [->|Hx%IH]%elem_of_cons; set_solver.
Qed.

Lemma split_on_elem c s l : l ∈ split_on c s → c ∉ l.
Proof.
  revert l. induction s as [|a s IH]; intros l; cbn [split_on].
  - intros ->%list_elem_of_singleton. by apply not_elem_of_nil.
  - case_decide as Ea.
    + intros [->|Hl]%elem_of_cons; [by apply not_elem_of_nil|by apply IH].
    + destruct (split_on c s) as [|h t] eqn:Es.
      * intros ->%list_elem_of_singleton. set_solver.
      * intros [->|Hl]%elem_of_cons; [|apply IH; set_solver].
        assert (c ∉ h) by (apply IH; set_solver). set_solver.
Qed.
Lemma strip_cr_elem l x : x ∈ strip_cr l → x ∈ l.
Proof.
  unfold strip_cr, strip_suffix. destruct (strip_prefix (rev ["013"%char]) (rev l)) as [r|] eqn:E; [|done].
  apply strip_prefix_Some in E. cbn [fmap option_fmap option_map default from_option].
  intros Hx. apply list_elem_of_In, in_rev in Hx. apply list_elem_of_In, in_rev. rewrite E.
  apply in_or_app. by right.
Qed.
Lemma lines_one s l : l ∈ lines s → one_line_text l.
Proof.
  unfold lines, one_line_text. assert (∀ l, l ∈ split_on "010" s → "010"%char ∉ l) as Hs
    by apply split_on_elem.
  revert Hs. generalize (split_on "010" s) as ps. induction ps as [|p ps IH]; intros Hs; [by intros ?%not_elem_of_nil|].
  cbn [lines_of]. destruct ps as [|p' ps].
  - destruct (is_empty p); [by intros ?%not_elem_of_nil|]. intros ->%list_elem_of_singleton. set_solver.
  - intros [->|Hl]%elem_of_cons; [|apply IH; set_solver].
    intros Hx%strip_cr_elem. apply (Hs p); set_solver.
Qed.

Lemma subject_one_line s : one_line_text (derive_subject s).
Proof.
  unfold derive_subject. destruct (head (omap lead_line (components s))) as [line|] eqn:E;
    [|by apply (bool_decide_unpack (_ ∉ _))].
  cbv zeta. destruct (is_empty (trim (strip_markdown line))); [by apply (bool_decide_unpack (_ ∉ _))|].
  assert (one_line_text line) as Hl.
  { apply head_Some_elem_of, list_elem_of_omap in E as (c & _ & Hc). destruct c; try done.
    cbn [lead_line] in Hc. apply head_Some_elem_of, list_elem_of_filter in Hc as [_ Hc].
    apply list_elem_of_fmap in Hc as (l & -> & Hl). apply lines_one in Hl. intros Hx%trim_elem. by apply Hl. }
  unfold truncate_to_char_boundary, one_line_text. case_match; intros Hx.
  - by apply trim_elem, strip_markdown_elem in Hx.
  - apply elem_of_app in Hx as [Hx|Hx]; [|revert Hx; by apply (bool_decide_unpack (_ ∉ _))].
    by apply trim_end_elem, take_chars_elem, trim_elem, strip_markdown_elem in Hx.
Qed.

(** ** Size *)

Lemma truncate_str_fits s max : (len s ≤ max)%Z → truncate_str_to_boundary s max = s.
Proof. intros. unfold truncate_str_to_boundary. by rewrite (proj2 (Z.leb_le _ _)). Qed.

(** The first block fits: what is kept is whole. *)
Lemma truncate_blocks_own bs :
  Forall block_own bs → (∀ b, head bs = Some b → (len b.1 ≤ budget)%Z) →
  Forall (λ s, own_markup s = true) (fst <$> (truncate_blocks bs).1).
Proof.
  intros Hb Hfit. unfold truncate_blocks. cbv zeta. case_match; cbn [fst]; [by apply Forall_fmap|].
  assert (Forall block_own (take (Nat.max (kept_blocks budget 0 bs) 1) bs)) as Hk
    by by apply Forall_take.
  destruct (take _ bs) as [|b [|b' l]] eqn:E; [constructor| |by apply Forall_fmap].
  apply Forall_fmap. constructor; [|constructor]. unfold compose. cbn [fst].
  rewrite truncate_str_fits; [by inversion Hk|]. apply Hfit.
  destruct bs as [|b0 bs]; [by rewrite take_nil in E|].
  destruct (Nat.max _ 1) as [|n] eqn:En; [lia|]. cbn [take] in E. by injection E as -> _.
Qed.

Lemma kept_total b0 run bs :
  (0 ≤ run ≤ b0)%Z →
  (run + foldr (λ b n, len b.1 + n)%Z 0%Z (take (kept_blocks b0 run bs) bs) ≤ b0)%Z.
Proof.
  revert run. induction bs as [|b bs IH]; intros run Hrun; [cbn; lia|]. cbn [kept_blocks].
  destruct (b0 <? run + len b.1)%Z eqn:E; [cbn; lia|]. cbn [take foldr].
  apply Z.ltb_ge in E. pose proof (IH (run + len b.1)%Z). unfold len in *. lia.
Qed.

Lemma truncate_str_len s max : (0 ≤ max)%Z → (len (truncate_str_to_boundary s max) ≤ max)%Z.
Proof.
  intros. unfold truncate_str_to_boundary. destruct (len s <=? max)%Z eqn:E; [by apply Z.leb_le|].
  unfold len. rewrite length_take. pose proof (floor_char_boundary_le s (Z.to_nat max)). lia.
Qed.

Lemma truncate_blocks_total bs :
  (foldr (λ b n, len b.1 + n)%Z 0%Z (truncate_blocks bs).1 ≤ EMAIL_HTML_MAX_BYTES)%Z
  ∧ ((truncate_blocks bs).2 = true →
     foldr (λ b n, len b.1 + n)%Z 0%Z (truncate_blocks bs).1 ≤ budget)%Z.
Proof.
  assert (0 ≤ budget ≤ EMAIL_HTML_MAX_BYTES)%Z as Hbud by (by apply (bool_decide_unpack _)).
  unfold truncate_blocks. cbv zeta. case_match eqn:Et; cbn [fst snd]; [by apply Z.leb_le in Et|].
  match goal with |- (?x ≤ _)%Z ∧ _ => assert (x ≤ budget)%Z as Hl; [|split; intros; lia] end.
  destruct (take _ bs) as [|b [|b' l]] eqn:E; [cbn; lia| |].
  - cbn [foldr fst]. pose proof (truncate_str_len b.1 budget). lia.
  - pose proof (kept_total budget 0 bs) as Hk.
    destruct (kept_blocks budget 0 bs) as [|n] eqn:En.
    + destruct bs; discriminate.
    + rewrite Nat.max_l in E by lia. rewrite E in Hk. lia.
Qed.

(** Emphasis in an address: the passes after the one of the links see the
    anchors it wrote. *)
Lemma inline_href_broken :
  inline_md §"[x](http://a/__b__)"
  = §"<a " ++ attr §"href" §"http://a/<strong>b</strong>" ++ §">x</a>".
Proof. by vm_compute. Qed.
(** The two characters of the five that stay as they are. *)
Lemma escape_html_three : escape_html [QUOTE; "'"%char] = [QUOTE; "'"%char].
Proof. by vm_compute. Qed.

(** A button without a resource goes out as a link to nowhere. *)
Lemma tool_button_link_dead `{UrlParse} cell label tool args primary :
  blocks_of cell [] [Component.Button label tool args None None primary] = flush [(label, §"#")].
Proof. reflexivity. Qed.

(** C20: an email carries no markup but the mapper's.  In the document of every
    surface that renders, each [<] begins one of the tags the mapper writes, and
    the address of an anchor, whatever the surface put there, ends at the first
    quote, where the mapper ends the tag or adds its style; the subject has no
    line break; and the blocks kept are under the size limit of an email,
    together with the note when some were cut.  (A first block that alone is over
    the limit is cut where it is full, maybe inside a tag.) *)
Theorem email_markup_own `{UrlParse} cell s r :
  render cell s = Some r →
  (∀ b, head (blocks_of cell [] (components s)) = Some b → (len b.1 ≤ budget)%Z) →
  own_markup (em_html r) = true ∧ one_line_text (em_subject r)
  ∧ ∃ kept : list Block, em_html r = wrap_document (em_subject r) (fst <$> kept) (em_truncated r)
    ∧ (foldr (λ b n, len b.1 + n) 0 kept ≤ EMAIL_HTML_MAX_BYTES)%Z
    ∧ (em_truncated r = true →
       foldr (λ b n, len b.1 + n) 0 kept + len TRUNCATION_SENTINEL_HTML ≤ EMAIL_HTML_MAX_BYTES)%Z.
Proof.
  unfold render. cbv zeta. destruct (is_empty _); [done|].
  destruct (truncate_blocks _) as [kept truncated] eqn:E. intros [= <-] Hfit.
  cbn [em_html em_subject em_truncated]. pose proof (truncate_blocks_own _ (blocks_own cell [] _) Hfit) as Ho.
  pose proof (truncate_blocks_total (blocks_of cell [] (components s))) as [Ht1 Ht2].
  rewrite E in Ho, Ht1, Ht2. cbn [fst snd] in *.
  split_and!; [by apply wrap_document_own|apply subject_one_line|].
  exists kept. split_and!; [done|done|]. intros Ht%Ht2. revert Ht. change budget with 511912%Z.
  change (len TRUNCATION_SENTINEL_HTML) with 88%Z. unfold EMAIL_HTML_MAX_BYTES. lia.
Qed.

Definition sample_surface : Surface :=
  {| components := [Component.Text §"[a <b>](http://x)" []] |}.
Lemma email_markup_own_witness :
  ∃ r, render (H := sample_url) None sample_surface = Some r ∧ own_markup (em_html r) = true.
Proof.
  eexists. split; [vm_compute; reflexivity|].
  eapply (email_markup_own (H := sample_url) None sample_surface).
  - vm_compute. reflexivity.
  - intros b Hb. vm_compute in Hb. injection Hb as <-. by apply (bool_decide_unpack _).
Defined.
