(* ===== verification/Telegram.v ===== *)
(** * Telegram: the adapter's inbound pipeline and its courier
    (crates/triton-chat-telegram/src/lib.rs)

    A webhook call or a polled update is authenticated, rate limited, resolved
    to a principal, fed to the sender's form or dispatched, and answered through
    the courier.  The handlers run in a state monad over [TState]: the
    dispatcher's world, the two rate limiters, the form store and the list of
    calls made to the platform.  What the adapter reads from outside while it
    handles one update (clocks, fresh identifiers, the platform's answers) is
    an [Env]. *)

From Stdlib Require Import SpecFloat.
From S2P Require Import Prelude Json Errors Principal RateLimit Context AuditLog Dispatcher.
From S2P Require Import Correlation A2ui A2uiText FormState ChatIdentity Chat TelegramMapper.

Definition PROTOCOL : str := §"messenger:telegram".
Definition PROTOCOL_RESOLVE : str := §"messenger:telegram:identity".
Definition MAX_SECRET_TOKEN : nat := 256.
Definition CALLBACK_TTL_SECS : Z := 300.
Definition CALLBACK_FUTURE_SKEW_SECS : Z := 60.

(** ** Updates *)

Record TelegramMessage := {
  m_from : Z;
  m_chat : Z;
  m_date : Z;
  m_text : option str;
}.

Record TelegramCallbackQuery := {
  cq_from : Z;
  cq_message : option TelegramMessage;
  cq_data : option str;
}.

Record TelegramUpdate := {
  update_id : Z;
  u_message : option TelegramMessage;
  u_callback_query : option TelegramCallbackQuery;
}.

(** [n as i64] for a [u64]. *)
Definition as_i64 (n : Z) : Z := if (n <=? i64_max)%Z then n else n - 2 ^ 64.

(** ** The secret *)

(** Both sides zero-padded to the scratch length. *)
Definition scratch (s : str) : str :=
  let n := Nat.min (length s) MAX_SECRET_TOKEN in
  take n s ++ replicate (MAX_SECRET_TOKEN - n) NUL.

Definition constant_time_eq (a b : str) : bool :=
  let content_eq := bool_decide (scratch a = scratch b) in
  let length_eq := (length a =? length b)%nat in
  content_eq && length_eq.

(** ** The courier *)

Inductive CourierError :=
  | Transport (m : str)
  | Decode (m : str)
  | Application (http_status : Z) (label : PostLabel) (error_code : Z).

Definition courier_label (e : CourierError) : PostLabel :=
  match e with Transport _ | Decode _ => LRetry | Application _ label _ => label end.
Definition courier_http_status (e : CourierError) : Z :=
  match e with Transport _ | Decode _ => 0 | Application s _ _ => s end.
Definition courier_message (e : CourierError) : str :=
  match e with
  | Transport m => §"telegram courier transport: " ++ m
  | Decode m => §"telegram courier decode: " ++ m
  | Application _ label code =>
      §"telegram courier application: error_code=" ++ dec code ++ §", label="
        ++ post_label_str label
  end.

(** What comes back from one call to the Bot API: no response, a body that is
    not the envelope, or the envelope. *)
Inductive BotReply :=
  | NoResponse (error : str)
  | BadBody (error : str)
  | Envelope (http_status : Z) (ok : bool) (error_code retry_after : option Z).

Definition redact_url (s bot_token : str) : str :=
  redact §"<redacted>" s bot_token.

(** The classification both courier calls share. *)
Definition classify_reply (bot_token : str) (r : BotReply) : result SendOutcome CourierError :=
  match r with
  | NoResponse e => Err (Transport (redact_url e bot_token))
  | BadBody e => Err (Decode (redact_url e bot_token))
  | Envelope http ok error_code retry_after =>
      if ok : bool then Ok {| so_http_status := http; so_label := LPosted |}
      else
        let code := default 0%Z error_code in
        let label := if (code =? 429)%Z || bool_decide (is_Some retry_after) || (500 <=? code)%Z
                     then LRetry else LDropped in
        Err (Application http label code)
  end.

(** ** State and readings *)

Inductive IdentityMode :=
  | ModeSenderTable (table : SenderTable)
  | ModeUpstream (up : UpstreamResolver).

Inductive Outbound :=
  | SendMessage (body : Value)
  | SendPhoto (fields : SendPhotoFields) (png : str).

Record TelegramAdapter (W : Type) := {
  ta_name : str;
  secret_token : str;
  bot_token : str;
  correlation_key : KeyRing;
  identity : IdentityMode;
  inbound_tool : str;
  dispatcher : Dispatcher W;
  (** the [DashboardRasterizer] trait object; the error is its text *)
  rasterizer : option (RasterDashboard → Principal → str → World W → result str str * World W);
}.
Arguments ta_name {W} _.
Arguments secret_token {W} _.
Arguments bot_token {W} _.
Arguments correlation_key {W} _.
Arguments identity {W} _.
Arguments inbound_tool {W} _.
Arguments dispatcher {W} _.
Arguments rasterizer {W} _.

Record TState (W : Type) := {
  world : World W;
  rate_limit : TokenBucket spec_float;
  per_tenant_limit : PerTenantBuckets spec_float;
  form_state : FormStateStore;
  outbox : list Outbound;
}.
Arguments world {W} _.
Arguments rate_limit {W} _.
Arguments per_tenant_limit {W} _.
Arguments form_state {W} _.
Arguments outbox {W} _.
Arguments Build_TState {W} _ _ _ _ _.

(** The places of one update at which a clock or an identifier is read; each is
    reached once at most. *)
Inductive Site := AtResolve | AtResolveAgain | AtDispatch | AtRaster | AtPost | AtReject.

Record Env := {
  adapter_now : Z;
  tenant_now : Readings;
  (** [SystemTime::now()] since the epoch, at the freshness check and when the
      token is decoded *)
  unix_now : option Z;
  unix_decode : option Z;
  reject_now : Z;
  clock : Site → Clock;
  uuid : Site → str;
  bot_reply : Outbound → BotReply;
}.

(** ** The monad *)

Definition M (W A : Type) : Type := ST (TState W) A.

Definition on_world {W A : Type} (f : World W → A * World W) : M W A :=
  λ s, let '(a, w) := f (world s) in
       (a, Build_TState w (rate_limit s) (per_tenant_limit s) (form_state s) (outbox s)).
Definition to_world {W : Type} (f : World W → World W) : M W unit := on_world (λ w, ((), f w)).
Definition on_forms {W A : Type} (f : FormStateStore → A * FormStateStore) : M W A :=
  λ s, let '(a, fs) := f (form_state s) in
       (a, Build_TState (world s) (rate_limit s) (per_tenant_limit s) fs (outbox s)).
Definition on_rate {W A : Type} (f : TokenBucket spec_float → A * TokenBucket spec_float) : M W A :=
  λ s, let '(a, b) := f (rate_limit s) in
       (a, Build_TState (world s) b (per_tenant_limit s) (form_state s) (outbox s)).
Definition on_tenants {W A : Type}
    (f : PerTenantBuckets spec_float → A * PerTenantBuckets spec_float) : M W A :=
  λ s, let '(a, b) := f (per_tenant_limit s) in
       (a, Build_TState (world s) (rate_limit s) b (form_state s) (outbox s)).
Definition send {W : Type} (o : Outbound) : M W unit :=
  λ s, ((), Build_TState (world s) (rate_limit s) (per_tenant_limit s) (form_state s)
              (outbox s ++ [o])).

(** Plain replies of the adapter itself. *)
Definition courier_reply (text : str) : RenderedMessage :=
  {| rm_text := text; rm_parse_mode := None; rm_reply_markup := None; rm_deferred_buttons := 0;
     rm_deferred_selections := 0; rm_deferred_dashboards := 0; rm_truncated := false;
     rm_dashboard := None |}.

Definition html_escape_caption (s : str) : str :=
  replace_char ">" §"&gt;" (replace_char "<" §"&lt;" (replace_char "&" §"&amp;" s)).

Definition telegram_status_for (e : TritonError) : Z :=
  if is_circuit_open e then 503
  else if is_tool_timeout e then 504
  else match e with
       | Provider _ => 502
       | RateLimited _ => 429
       | Validation _ | Auth _ | Forbidden _ | Tool _ => 200
       end.

(** [dev_token] is the cargo feature. *)
Definition route_command (dev_token : bool) (text default_tool : str) : str * Value :=
  let fallback := (default_tool, json_object [(§"message", Value.String text)]) in
  match strip_prefix §"/" text with
  | None => fallback
  | Some rest =>
      let '(tool, subject) := default (rest, []) (split_once " " rest) in
      if decide (tool = §"narrate")
      then (§"narrate", json_object [(§"subject", Value.String subject)])
      else if decide (tool = §"help") then (§"help", Value.Object [])
      else if decide (tool = §"feedback")
      then (§"feedback", json_object [(§"text", Value.String subject)])
      else if dev_token && bool_decide (tool = §"empty") then (§"empty_surface", Value.Object [])
      else if dev_token && bool_decide (tool = §"demo") then (§"demo_panel", Value.Object [])
      else if dev_token && bool_decide (tool = §"form_only_demo_multi")
      then (§"form_only_demo_multi", Value.Object [])
      else fallback
  end.

Definition decode_error_str (e : DecodeError) : str :=
  match e with
  | Malformed => §"malformed token"
  | BadSignature => §"HMAC signature mismatch"
  | Body m => §"body decode: " ++ m
  end.

Section Handlers.
Context {W : Type} `{SerdeJson, Crypto, UrlParse, SerdeA2ui}.
(** The process's list of [http] link hosts. *)
Variable cell : HttpHosts.
Variable dev_token : bool.
Variable debug_set : gset str → str.
Variable decode_reply : Value → result ResolverReply str.
(** [serde_json::from_slice] into an update, with its error's text. *)
Variable parse_update : str → result TelegramUpdate str.
(** The iteration order of the per-tenant map. *)
Variable iter : gmap str (Tracked spec_float) → list (str * Tracked spec_float).
(** [format!("{:.2}", secs)] *)
Variable two_decimals : RetryAfter spec_float → str.
Variable ad : TelegramAdapter W.
Variable env : Env.

Definition reject (sub tenant : str) (e : TritonError) : M W unit :=
  to_world (record_rejection (dispatcher ad) (c_when (clock env AtReject)) (reject_now env)
              (ta_name ad) PROTOCOL sub tenant (uuid env AtReject) e).

(** Reject and answer. *)
Definition refuse (sub tenant : str) (e : TritonError) (r : Response) : M W Response :=
  _ ←ₛ reject sub tenant e; ret r.

(** ** Posting *)

Definition record_post_outcome (tool_name : str) (p : Principal)
    (outcome : result SendOutcome CourierError) : M W unit :=
  to_world (record_post (dispatcher ad) (c_when (clock env AtPost)) tool_name PROTOCOL p
    (elapsed_ms (clock env AtPost))
    match outcome with
    | Ok s => Ok (so_http_status s, to_outcome (so_label s), None)
    | Err e => Err (Provider (courier_message e), courier_http_status e,
                    to_outcome (courier_label e), None)
    end).

(** One call to the platform and its audit line. *)
Definition post (tool_name : str) (p : Principal) (o : Outbound) : M W unit :=
  _ ←ₛ send o;
  record_post_outcome tool_name p (classify_reply (bot_token ad) (bot_reply env o)).

Definition rasterize_dashboard (tool_name : str) (p : Principal)
    (render : RasterDashboard → Principal → str → World W → result str str * World W)
    (dash : RasterDashboard) : M W (result str str) :=
  r ←ₛ on_world (render dash p PROTOCOL);
  _ ←ₛ to_world (record_post (dispatcher ad) (c_when (clock env AtRaster)) tool_name PROTOCOL p
         (elapsed_ms (clock env AtRaster))
         match r with
         | Ok _ => Ok (200%Z, Posted, Some §"rasterizer_call")
         | Err e => Err (Provider (§"rasterizer: " ++ e), 0%Z, Dropped, Some §"rasterizer_failed")
         end);
  ret r.

(** The message with a line in place of its dashboard. *)
Definition with_placeholder (placeholder : str) (msg : RenderedMessage) : RenderedMessage :=
  {| rm_text := if is_empty (rm_text msg) then placeholder
                else rm_text msg ++ nl ++ nl ++ placeholder;
     rm_parse_mode := match rm_parse_mode msg with None => Some §"HTML" | pm => pm end;
     rm_reply_markup := rm_reply_markup msg;
     rm_deferred_buttons := rm_deferred_buttons msg;
     rm_deferred_selections := rm_deferred_selections msg;
     rm_deferred_dashboards := rm_deferred_dashboards msg;
     rm_truncated := rm_truncated msg; rm_dashboard := None |}.

Definition post_back (p : Principal) (tool_name : str) (chat_id : Z) (msg : RenderedMessage)
    : M W unit :=
  let send_text msg := post tool_name p (SendMessage (build_send_message_body chat_id msg)) in
  match rm_dashboard msg with
  | None => send_text msg
  | Some dash =>
      match rasterizer ad with
      | None =>
          send_text (with_placeholder
            (§"<i>dashboard '" ++ html_escape_caption (rd_title dash)
               ++ §"' deferred — rasterizer not configured</i>") msg)
      | Some render =>
          r ←ₛ rasterize_dashboard tool_name p render dash;
          match r with
          | Ok png => post tool_name p (SendPhoto (build_send_photo_fields chat_id msg) png)
          | Err _ =>
              send_text (with_placeholder
                (§"<i>dashboard '" ++ html_escape_caption (rd_title dash)
                   ++ §"' unavailable (rasterizer failed)</i>") msg)
          end
      end
  end.

(** ** Rendering *)

Definition render_dispatch_result (res : Value) (key tenant sender : str)
    : result RenderedMessage RenderError :=
  match try_render_surface cell key tenant sender res with
  | Some r => r
  | None =>
      let text := bare_text res in
      if is_empty text then Err EmptyAfterRender else Ok (courier_reply text)
  end.

(** [adapter.correlation_key.signing()]: a ring has a key. *)
Definition signing_key : str := default [] (signing (correlation_key ad)).

(** Post what a dispatch returned, or audit that there is nothing to post. *)
Definition render_and_post (tool_name : str) (res : Value) (p : Principal) (sender : str)
    (chat_id : Z) : M W Response :=
  match render_dispatch_result res signing_key (tenant p) sender with
  | Ok msg => _ ←ₛ post_back p tool_name chat_id msg; ret ok_response
  | Err EmptyAfterRender =>
      _ ←ₛ to_world (record_post (dispatcher ad) (c_when (clock env AtPost)) tool_name PROTOCOL p 0
             (Err (Provider §"telegram surface mapper: empty surface", 0%Z, Dropped, None)));
      ret ok_response
  end.

(** ** Identity *)

Definition resolve_sender (site : Site) (sender_key : str)
    : M W (result (str * list str * str) TritonError) :=
  r ←ₛ match identity ad with
       | ModeSenderTable table =>
           ret (ok_or (SenderTable_resolve table sender_key)
                  (Auth (§"unknown sender " ++ sender_key)))
       | ModeUpstream up =>
           on_world (resolver_resolve debug_set decode_reply up (dispatcher ad) (clock env site)
                       (uuid env site) sender_key)
       end;
  ret (result_map (λ x, (r_sub x, r_scopes x, r_tenant x)) r).

Definition chat_principal (site : Site) (sender_key : str) (claims : str * list str * str)
    : Principal :=
  let '(sub, scopes, tenant) := claims in
  {| sub := sub; scopes := scopes; groups := []; tenant := tenant; raw_token := [];
     trace_id := uuid env site;
     sender_ref := match identity ad with ModeUpstream _ => Some sender_key | _ => None end;
     conversation_ref := None; idp := None |}.

(** ** Forms *)

Definition install_form_and_prompt (p : Principal) (dispatching_tool : str) (chat_id user_id : Z)
    (form : FormOnly) : M W Response :=
  let key := {| chat_id := chat_id; telegram_user_id := user_id |} in
  outcome ←ₛ on_forms (install key (fo_submit_tool form) (fo_fields form) (sub p) (tenant p));
  match outcome with
  | Err _ =>
      _ ←ₛ post_back p dispatching_tool chat_id (courier_reply
             (§"Sorry — the form returned by `" ++ dispatching_tool
                ++ §"` is malformed and can't be rendered."));
      ret ok_response
  | Ok o =>
      _ ←ₛ match o with
           | InstalledEvicted evicted esub etenant =>
               reject esub etenant (Validation
                 (§"form state per-tenant cap reached for tenant `" ++ etenant
                    ++ §"`; evicted oldest form for (chat_id=" ++ dec (FormState.chat_id evicted)
                    ++ §", telegram_user_id=" ++ dec (telegram_user_id evicted)
                    ++ §") on adapter `" ++ ta_name ad ++ §"`"))
           | Installed => ret ()
           end;
      prompt ←ₛ on_forms (λ fs, (default §"(form ready)" (peek_prompt key fs), fs));
      _ ←ₛ post_back p dispatching_tool chat_id
             (courier_reply (fo_title form ++ nl ++ nl ++ prompt));
      ret ok_response
  end.

Definition dispatch_and_render (p : Principal) (tool_name : str) (args : Value)
    (chat_id user_id : Z) : M W Response :=
  r ←ₛ on_world (invoke debug_set (dispatcher ad) (clock env AtDispatch) tool_name args p PROTOCOL);
  match r with
  | Ok dispatch =>
      match try_extract_form_only cell (dr_result dispatch) with
      | Some form => install_form_and_prompt p tool_name chat_id user_id form
      | None => render_and_post tool_name (dr_result dispatch) p (dec user_id) chat_id
      end
  | Err e => ret (respond (telegram_status_for e) [])
  end.

Definition handle_form_outcome (p : Principal) (key : FormKey) (chat_id : Z)
    (outcome : AdvanceOutcome) : M W Response :=
  let next_prompt := on_forms (λ fs, (default §"(form continues)" (peek_prompt key fs), fs)) in
  match outcome with
  | NeedMore =>
      prompt ←ₛ next_prompt;
      _ ←ₛ post_back p §"form_prompt" chat_id (courier_reply prompt);
      ret ok_response
  | Reprompt reason =>
      prompt ←ₛ next_prompt;
      _ ←ₛ post_back p §"form_reprompt" chat_id (courier_reply (reason ++ nl ++ nl ++ prompt));
      ret ok_response
  | Complete submit_tool args =>
      let sender_key := dec (telegram_user_id key) in
      claims ←ₛ resolve_sender AtResolveAgain sender_key;
      match claims with
      | Err _ =>
          _ ←ₛ reject (sub p) (tenant p)
                 (Auth (§"telegram user id `" ++ sender_key
                          ++ §"` no longer resolvable; form submission dropped"));
          _ ←ₛ post_back p §"form_dropped" chat_id
                 (courier_reply §"Your session is no longer authorised; form submission dropped.");
          ret ok_response
      | Ok claims =>
          let p := chat_principal AtResolveAgain sender_key claims in
          dispatch_and_render p submit_tool args chat_id (telegram_user_id key)
      end
  end.

(** ** Clicks *)

Definition tenant_limited (tenant : str) (r : RetryAfter spec_float) : TritonError :=
  RateLimited (§"tenant `" ++ tenant ++ §"` rate limit hit on adapter `" ++ ta_name ad
                 ++ §"`; retry in " ++ two_decimals r ++ §"s").

(** The tests on the age of the message that carries the button, in order. *)
Definition freshness (message_date : Z) : option (TritonError * str) :=
  let now := default 0%Z (unix_now env) in
  if (message_date =? 0)%Z
  then Some (Auth §"callback_query missing message.date (freshness anchor)", §"missing message.date")
  else if (message_date <? Z.max 0 (now - CALLBACK_TTL_SECS))%Z
  then Some (Auth (§"stale callback: message age " ++ dec (Z.max 0 (now - message_date))
                     ++ §"s exceeds TTL " ++ dec CALLBACK_TTL_SECS ++ §"s"), §"stale callback")
  else if (u64_saturating_add now CALLBACK_FUTURE_SKEW_SECS <? message_date)%Z
  then Some (Auth (§"future-dated callback: message " ++ dec (Z.max 0 (message_date - now))
                     ++ §"s ahead of now"), §"future-dated callback")
  else None.

Definition handle_callback_query (cq : TelegramCallbackQuery) : M W Response :=
  let sender_key := dec (cq_from cq) in
  claims ←ₛ resolve_sender AtResolve sender_key;
  match claims with
  | Err e => refuse §"-" §"-" e (respond 401 §"unknown sender")
  | Ok (sub, scopes, tenant) =>
      taken ←ₛ on_tenants (tenant_try_take iter (tenant_now env) tenant);
      match taken with
      | Err r => refuse sub tenant (tenant_limited tenant r) (too_many r §"tenant rate limited")
      | Ok _ =>
          match cq_data cq with
          | None | Some [] =>
              refuse sub tenant (Validation §"callback_query without data")
                (respond 400 §"callback_query missing data")
          | Some token =>
              match freshness (default 0%Z (m_date <$> cq_message cq)) with
              | Some (e, body) => refuse sub tenant e (respond 401 body)
              | None =>
                  match decode_bound_any (unix_decode env) token (correlation_key ad)
                          PLATFORM_MAX_CALLBACK_DATA (telegram_binding tenant sender_key) with
                  | Err e =>
                      refuse sub tenant (Auth (§"callback token: " ++ decode_error_str e))
                        (respond 401 §"callback token rejected")
                  | Ok (tool_name, args) =>
                      let p := chat_principal AtResolve sender_key (sub, scopes, tenant) in
                      let chat_id := default (as_i64 (cq_from cq)) (m_chat <$> cq_message cq) in
                      r ←ₛ on_world (invoke debug_set (dispatcher ad) (clock env AtDispatch)
                                       tool_name args p PROTOCOL);
                      match r with
                      | Ok dispatch => render_and_post tool_name (dr_result dispatch) p sender_key
                                         chat_id
                      | Err e => ret (respond (telegram_status_for e) [])
                      end
                  end
              end
          end
      end
  end.

(** ** Messages *)

Definition process_message (m : TelegramMessage) (text : str) : M W Response :=
  let sender_key := dec (m_from m) in
  claims ←ₛ resolve_sender AtResolve sender_key;
  match claims with
  | Err e => refuse §"-" §"-" e (respond 401 §"unknown sender")
  | Ok (sub, scopes, tenant) =>
      taken ←ₛ on_tenants (tenant_try_take iter (tenant_now env) tenant);
      match taken with
      | Err r => refuse sub tenant (tenant_limited tenant r) (too_many r §"tenant rate limited")
      | Ok _ =>
          let p := chat_principal AtResolve sender_key (sub, scopes, tenant) in
          let key := {| chat_id := m_chat m; telegram_user_id := as_i64 (m_from m) |} in
          active ←ₛ on_forms (λ fs, (has_active key fs, fs));
          if bool_decide (trim text = §"/cancel") && active then
            _ ←ₛ on_forms (cancel key);
            _ ←ₛ post_back p §"form_cancel" (m_chat m) (courier_reply §"Form cancelled.");
            ret ok_response
          else
            outcome ←ₛ on_forms (advance key text);
            match outcome with
            | Some o => handle_form_outcome p key (m_chat m) o
            | None =>
                let '(tool_name, args) := route_command dev_token text (inbound_tool ad) in
                dispatch_and_render p tool_name args (m_chat m) (telegram_user_id key)
            end
      end
  end.

Definition process_update (u : TelegramUpdate) : M W Response :=
  match u_callback_query u with
  | Some cq => handle_callback_query cq
  | None =>
      match u_message u with
      | None => ret ok_response
      | Some m =>
          match m_text m with
          | None | Some [] => ret ok_response
          | Some text => process_message m text
          end
      end
  end.

(** [header] is the value of the secret header, if there is one and it is
    text. *)
Definition handle_webhook (header : option str) (body : str) : M W Response :=
  if negb (constant_time_eq (default [] header) (secret_token ad)) then
    refuse §"-" §"-" (Auth §"bad secret token") (respond 401 §"unauthorized")
  else
    taken ←ₛ on_rate (try_take (adapter_now env));
    match taken with
    | Err r =>
        refuse §"-" §"-"
          (RateLimited (§"telegram adapter `" ++ ta_name ad ++ §"` rate limit hit; retry in "
                          ++ two_decimals r ++ §"s"))
          (too_many r §"rate limited")
    | Ok _ =>
        match parse_update body with
        | Err e =>
            refuse §"-" §"-" (Validation (§"malformed update body: " ++ e))
              (respond 400 §"malformed update")
        | Ok update => process_update update
        end
    end.
End Handlers.

(** ** Long polling *)

(** [update_id + 1] on an [i64]. *)
Definition i64_succ (n : Z) : Z := if (n =? i64_max)%Z then i64_min else (n + 1)%Z.

Section LongPoll.
Context {W : Type} `{SerdeJson, Crypto, UrlParse, SerdeA2ui}.
Variables (cell : HttpHosts) (dev_token : bool) (debug_set : gset str → str).
Variable decode_reply : Value → result ResolverReply str.
Variable iter : gmap str (Tracked spec_float) → list (str * Tracked spec_float).
Variable two_decimals : RetryAfter spec_float → str.
Variable ad : TelegramAdapter W.

(** One fetched update, with what is read while it is processed.  A panic in
    the processing of an update ends its task only; the answer is discarded. *)
Definition poll_one (x : Env * TelegramUpdate) : M W unit :=
  let '(env, u) := x in
  taken ←ₛ on_rate (try_take (adapter_now env));
  match taken with
  | Err _ =>
      reject ad env §"-" §"-"
        (RateLimited (§"telegram adapter `" ++ ta_name ad ++ §"` rate limit hit (long-poll)"))
  | Ok _ =>
      _ ←ₛ process_update cell dev_token debug_set decode_reply iter two_decimals ad env u; ret ()
  end.

Fixpoint poll_batch (us : list (Env * TelegramUpdate)) (offset : Z) : M W Z :=
  match us with
  | [] => ret offset
  | x :: us' =>
      let offset := Z.max offset (i64_succ (update_id x.2)) in
      _ ←ₛ poll_one x; poll_batch us' offset
  end.

(** The worker until it is stopped: one answer of [getUpdates] per round, which
    is told the offset ([Err]: the poll failed and is repeated after a pause).
    The result lists the ids of the updates it took, in order. *)
Fixpoint long_poll_loop (rounds : list (Z → result (list (Env * TelegramUpdate)) str))
    (offset : Z) : M W (list Z * Z) :=
  match rounds with
  | [] => ret ([], offset)
  | answer :: rounds' =>
      match answer offset with
      | Err _ => long_poll_loop rounds' offset
      | Ok us =>
          offset' ←ₛ poll_batch us offset;
          rest ←ₛ long_poll_loop rounds' offset';
          ret (((λ x, update_id x.2) <$> us) ++ rest.1, rest.2)
      end
  end.
End LongPoll.

(** ** The secret *)

Lemma constant_time_eq_spec a b :
  length b ≤ MAX_SECRET_TOKEN → constant_time_eq a b = bool_decide (a = b).
Proof.
  intros Hb. unfold constant_time_eq. destruct (length a =? length b)%nat eqn:El; bool_facts.
  - rewrite andb_true_r. apply bool_decide_ext. split; [|by intros ->]. unfold scratch.
    rewrite El, Nat.min_l by done. rewrite <-El, take_ge, El, take_ge by lia. apply app_inv_tail.
  - rewrite andb_false_r. symmetry. apply bool_decide_eq_false. by intros ->.
Qed.

(** ** One click, one message *)

Section Facts.
Context {W : Type} `{SerdeJson, Crypto, UrlParse, SerdeA2ui}.
Variables (cell : HttpHosts) (dev_token : bool) (debug_set : gset str → str).
Variable decode_reply : Value → result ResolverReply str.
Variable parse_update : str → result TelegramUpdate str.
Variable iter : gmap str (Tracked spec_float) → list (str * Tracked spec_float).
Variable two_decimals : RetryAfter spec_float → str.
Variable ad : TelegramAdapter W.
Variable env : Env.
Implicit Types (s : TState W) (p : Principal).

(** [s'] is [s] after one rejection, and nothing else. *)
Definition rejected_as (sb tn : str) (e : TritonError) s s' : Prop :=
  s' = Build_TState
         (record_rejection (dispatcher ad) (c_when (clock env AtReject)) (reject_now env)
            (ta_name ad) PROTOCOL sb tn (uuid env AtReject) e (world s))
         (rate_limit s) (per_tenant_limit s) (form_state s) (outbox s).

Lemma refuse_spec sb tn e r s :
  ∃ s', refuse ad env sb tn e r s = (r, s') ∧ rejected_as sb tn e s s'.
Proof. eexists. split; reflexivity. Qed.

(** A webhook call without the configured secret reaches nothing.  It is
    answered 401, one rejection is recorded, and the platform, the form store,
    both rate limiters, the tools and the upstream are untouched; the
    comparison, which runs over zero-padded buffers, accepts exactly the
    secret, whatever the presented header and however long. *)
Theorem wrong_secret_reaches_nothing header body s :
  length (secret_token ad) ≤ MAX_SECRET_TOKEN → default [] header ≠ secret_token ad →
  ∃ s', handle_webhook cell dev_token debug_set decode_reply parse_update iter two_decimals ad env
          header body s = (respond 401 §"unauthorized", s')
    ∧ rejected_as §"-" §"-" (Auth §"bad secret token") s s'
    ∧ outbox s' = outbox s ∧ form_state s' = form_state s ∧ rate_limit s' = rate_limit s
    ∧ per_tenant_limit s' = per_tenant_limit s ∧ outside (world s') = outside (world s).
Proof.
  intros Hl Hne. unfold handle_webhook. rewrite constant_time_eq_spec by done.
  rewrite bool_decide_eq_false_2 by done. cbn [negb].
  destruct (refuse_spec §"-" §"-" (Auth §"bad secret token") (respond 401 §"unauthorized") s)
    as (s' & -> & Hr).
  exists s'. split; [done|]. split; [done|]. rewrite Hr. repeat split.
  cbn. unfold record_rejection. by repeat case_match.
Qed.

(** The window in which a click counts. *)
Definition fresh (date : Z) : Prop :=
  let now := default 0%Z (unix_now env) in
  date ≠ 0%Z ∧ (now - 300 ≤ date)%Z ∧ (date ≤ now + 60)%Z.

Lemma freshness_None date :
  (0 ≤ date ≤ u64_max)%Z → (0 ≤ default 0 (unix_now env) ≤ u64_max)%Z →
  freshness env date = None ↔
  date ≠ 0%Z ∧ (default 0 (unix_now env) - 300 ≤ date)%Z
  ∧ (date ≤ u64_saturating_add (default 0 (unix_now env)) 60)%Z.
Proof.
  intros Hd Hn. unfold freshness, CALLBACK_TTL_SECS, CALLBACK_FUTURE_SKEW_SECS.
  repeat case_if; bool_facts; split; try done; lia.
Qed.

(** What follows the dispatch of a click. *)
Definition answer_click (tool_name : str) p (sender : str) (chat : Z)
    (r : result DispatchResult TritonError) : M W Response :=
  match r with
  | Ok dispatch => render_and_post cell ad env tool_name (dr_result dispatch) p sender chat
  | Err e => ret (respond (telegram_status_for e) [])
  end.

(** Same world, forms and outbox; the tenant's bucket may have changed. *)
Definition same_but_buckets s s' : Prop :=
  world s' = world s ∧ form_state s' = form_state s ∧ outbox s' = outbox s.

(** The update was refused: an error status, one rejection line on top of [s],
    nothing else. *)
Definition refused s (x : Response * TState W) : Prop :=
  ∃ sb tn e s', (resp_status x.1 = 400 ∨ resp_status x.1 = 401 ∨ resp_status x.1 = 429)%Z
    ∧ same_but_buckets s s' ∧ rejected_as sb tn e s' x.2.

Lemma refuse_refused sb tn e r s s' :
  same_but_buckets s s' →
  (resp_status r = 400 ∨ resp_status r = 401 ∨ resp_status r = 429)%Z →
  refused s (refuse ad env sb tn e r s').
Proof. intros Hs Hr. exists sb, tn, e, s'. done. Qed.

Lemma same_but_buckets_refl s : same_but_buckets s s.
Proof. done. Qed.

Lemma on_tenants_same {A} f s a s' :
  on_tenants (A := A) f s = (a, s') → same_but_buckets s s'.
Proof. unfold on_tenants. destruct (f _) as [a' b]. by intros [= <- <-]. Qed.

Lemma freshness_fresh date :
  (0 ≤ date)%Z → (0 ≤ default 0 (unix_now env))%Z → freshness env date = None → fresh date.
Proof.
  intros Hd Hn. unfold freshness, fresh, CALLBACK_TTL_SECS, CALLBACK_FUTURE_SKEW_SECS, u64_saturating_add.
  repeat case_if; try done; bool_facts. lia.
Qed.

Lemma freshness_401 date e body : freshness env date = Some (e, body) → class e = §"auth".
Proof. unfold freshness. repeat case_if; naive_solver. Qed.

(** C13: what a click can do.  Looking the clicker up comes first, which is
    a dispatch of its own where senders are resolved upstream.  Then it is
    refused with 400, 401 or 429 and one rejection line, with no tool invoked
    and nothing posted; or the clicker
    resolved to a principal, the button's message was sent at most 300 seconds
    ago and is not dated more than 60 seconds ahead, and the callback data is a
    token that verifies under a key of the ring for this platform, the
    clicker's own tenant and the clicker: then exactly the tool and arguments
    signed in it are invoked, as the clicker, and only their result is
    posted. *)
Theorem click_refused_or_signed cq s claims s1 :
  (0 ≤ default 0 (m_date <$> cq_message cq))%Z → (0 ≤ default 0 (unix_now env))%Z →
  resolve_sender debug_set decode_reply ad env AtResolve (dec (cq_from cq)) s = (claims, s1) →
  let x := handle_callback_query cell debug_set decode_reply iter two_decimals ad env cq s in
  refused s1 x
  ∨ ∃ sb sc tn token tool args key s2,
       claims = Ok (sb, sc, tn) ∧ cq_data cq = Some token ∧ key ∈ keys (correlation_key ad)
       ∧ fresh (default 0 (m_date <$> cq_message cq))%Z
       ∧ decode_bound (unix_decode env) token key 64 (telegram_binding tn (dec (cq_from cq)))
         = Ok (tool, args)
       ∧ same_but_buckets s1 s2
       ∧ let p := chat_principal ad env AtResolve (dec (cq_from cq)) (sb, sc, tn) in
         x = bind (on_world (invoke debug_set (dispatcher ad) (clock env AtDispatch) tool args p
                               PROTOCOL))
               (answer_click tool p (dec (cq_from cq))
                  (default (as_i64 (cq_from cq)) (m_chat <$> cq_message cq))) s2.
Proof.
  intros Hdate Hnow Hres x. assert (x = handle_callback_query cell debug_set decode_reply iter
    two_decimals ad env cq s) as Hx by reflexivity. clearbody x.
  unfold handle_callback_query, bind at 1 in Hx. rewrite Hres in Hx.
  destruct claims as [[[sb sc] tn]|e].
  2: { left. rewrite Hx. apply refuse_refused; [done|]. cbn. auto. }
  unfold bind at 1 in Hx. destruct (on_tenants _ s1) as [taken s2] eqn:Et.
  pose proof (on_tenants_same _ _ _ _ Et) as Hsame.
  destruct taken as [[]|r]; [|left; rewrite Hx; apply refuse_refused; [done|cbn; auto]].
  destruct (cq_data cq) as [[|t0 token]|];
    [left; rewrite Hx; apply refuse_refused; [done|cbn; auto]|
    |left; rewrite Hx; apply refuse_refused; [done|cbn; auto]].
  destruct (freshness env _) as [[e body]|] eqn:Ef;
    [left; rewrite Hx; apply refuse_refused; [done|cbn; auto]|].
  destruct (decode_bound_any _ _ _ _ _) as [[tool args]|e] eqn:Ed;
    [|left; rewrite Hx; apply refuse_refused; [done|cbn; auto]].
  right. apply try_keys_sound in Ed as (key & Hk & Hd).
  exists sb, sc, tn, (t0 :: token), tool, args, key, s2.
  split; [done|]. split; [done|]. split; [done|]. split; [by apply freshness_fresh|].
  split; [exact Hd|]. split; [done|]. exact Hx.
Qed.

(** *** Every handler settles: an answer, at most one post, the post audited *)

(** An action that calls the platform for nothing. *)
Definition quiet {A} (m : M W A) : Prop := ∀ s, outbox (m s).2 = outbox s.

(** The audit line of one call to the platform. *)
Definition post_line (o : Outbound) (l : AuditRecord) : Prop :=
  phase l = Post ∧ protocol l = PROTOCOL
  ∧ match classify_reply (bot_token ad) (bot_reply env o) with
    | Ok so => au_result l = §"ok" ∧ status l = so_http_status so
               ∧ status_label l = Some (post_label_str (so_label so))
    | Err e => au_result l = §"error:provider" ∧ status l = courier_http_status e
               ∧ status_label l = Some (post_label_str (courier_label e))
    end.

(** One more call, and its line is the last that was written. *)
Definition posted_once s s' : Prop :=
  ∃ o l lines, outbox s' = outbox s ++ [o] ∧ sinks (world s') = emit l lines ∧ post_line o l.

(** The dispatch a click on [cq] asks for in [s]: the call its token signs, as the
    clicker, in the world that looking the clicker up leaves. *)
Definition click_asks (cq : TelegramCallbackQuery) s (tl : str) (args : Value) p (w : World W) : Prop :=
  ∃ sb sc tn token s1,
    resolve_sender debug_set decode_reply ad env AtResolve (dec (cq_from cq)) s = (Ok (sb, sc, tn), s1)
    ∧ cq_data cq = Some token
    ∧ decode_bound_any (unix_decode env) token (correlation_key ad) PLATFORM_MAX_CALLBACK_DATA
        (telegram_binding tn (dec (cq_from cq))) = Ok (tl, args)
    ∧ p = chat_principal ad env AtResolve (dec (cq_from cq)) (sb, sc, tn) ∧ w = world s1.

(** The dispatch a message asks for: its command as the sender or, when it
    completes a form, what the form submits, as the sender looked up again. *)
Definition message_asks (m : TelegramMessage) (text : str) s (tl : str) (args : Value) p (w : World W)
    : Prop :=
  ∃ claims s1,
    resolve_sender debug_set decode_reply ad env AtResolve (dec (m_from m)) s = (Ok claims, s1)
    ∧ let user := as_i64 (m_from m) in
      match (advance {| chat_id := m_chat m; telegram_user_id := user |} text (form_state s1)).1 with
      | None =>
          route_command dev_token text (inbound_tool ad) = (tl, args)
          ∧ p = chat_principal ad env AtResolve (dec (m_from m)) claims ∧ w = world s1
      | Some (Complete tl' args') =>
          tl = tl' ∧ args = args'
          ∧ ∃ again s2 s3, world s2 = world s1
              ∧ resolve_sender debug_set decode_reply ad env AtResolveAgain (dec user) s2 = (Ok again, s3)
              ∧ p = chat_principal ad env AtResolveAgain (dec user) again ∧ w = world s3
      | _ => False
      end.

Definition update_asks (u : TelegramUpdate) s : str → Value → Principal → World W → Prop :=
  match u_callback_query u with
  | Some cq => click_asks cq s
  | None =>
      match u_message u with
      | Some m =>
          match m_text m with Some text => message_asks m text s | None => λ _ _ _ _, False end
      | None => λ _ _ _ _, False
      end
  end.

Section Settling.
(** The dispatch that is asked for. *)
Variable asked : str → Value → Principal → World W → Prop.

(** It failed in a way a retry may cure, and was the last thing that happened. *)
Definition transient_failure (st : Z) (w' : World W) : Prop :=
  ∃ tl args p w e, asked tl args p w
    ∧ invoke debug_set (dispatcher ad) (clock env AtDispatch) tl args p PROTOCOL w = (Err e, w')
    ∧ (is_circuit_open e = true ∨ is_tool_timeout e = true ∨ ∃ m, e = Provider m)
    ∧ st = telegram_status_for e.

Definition outcome_ok s (x : Response * TState W) : Prop :=
  (outbox x.2 = outbox s
   ∧ (resp_status x.1 ∈ [200; 400; 401; 429]%Z ∨ transient_failure (resp_status x.1) (world x.2)))
  ∨ (resp_status x.1 = 200%Z ∧ posted_once s x.2).

Definition settles_at s (m : M W Response) : Prop := outcome_ok s (m s).
Definition settles (m : M W Response) : Prop := ∀ s, settles_at s m.

Lemma quiet_on_world {A} f : quiet (on_world (A := A) f).
Proof. intros s. unfold on_world. by destruct (f _). Qed.
Lemma quiet_to_world f : quiet (to_world f).
Proof. done. Qed.
Lemma quiet_on_forms {A} f : quiet (on_forms (A := A) f).
Proof. intros s. unfold on_forms. by destruct (f _). Qed.
Lemma quiet_on_rate {A} f : quiet (on_rate (A := A) f).
Proof. intros s. unfold on_rate. by destruct (f _). Qed.
Lemma quiet_on_tenants {A} f : quiet (on_tenants (A := A) f).
Proof. intros s. unfold on_tenants. by destruct (f _). Qed.
Lemma quiet_ret {A} (a : A) : quiet (ret a).
Proof. done. Qed.
Lemma quiet_bind {A B} (m : M W A) (k : A → M W B) :
  quiet m → (∀ a, quiet (k a)) → quiet (bind m k).
Proof.
  intros Hm Hk s. unfold bind. specialize (Hm s). destruct (m s) as [a s1]. cbn in Hm.
  rewrite <-Hm. apply Hk.
Qed.
Lemma quiet_reject sb tn e : quiet (reject ad env sb tn e).
Proof. done. Qed.
Lemma quiet_resolve site k : quiet (resolve_sender debug_set decode_reply ad env site k).
Proof.
  apply quiet_bind; [|intros; apply quiet_ret].
  destruct (identity ad); [apply quiet_ret|apply quiet_on_world].
Qed.

Lemma settles_bind_at {A} (m : M W A) k s :
  quiet m → (∀ a s1, m s = (a, s1) → settles_at s1 (k a)) → settles_at s (bind m k).
Proof.
  intros Hm Hk. unfold settles_at, bind. pose proof (Hm s) as Ho. destruct (m s) as [a s1] eqn:E.
  specialize (Hk a s1 eq_refl). unfold settles_at, outcome_ok, posted_once in *. cbn in Ho. by rewrite Ho in Hk.
Qed.
Lemma settles_bind {A} (m : M W A) k : quiet m → (∀ a, settles (k a)) → settles (bind m k).
Proof. intros Hm Hk s. apply settles_bind_at; [done|]. intros a s1 _. apply Hk. Qed.
Lemma settles_ret r : resp_status r ∈ [200; 400; 401; 429]%Z → settles (ret r).
Proof. intros Hr s. left. auto. Qed.
Lemma settles_ok : settles (ret ok_response).
Proof. apply settles_ret. apply list_elem_of_here. Qed.

Lemma post_posted tl p o s : posted_once s (post ad env tl p o s).2.
Proof.
  unfold post, bind, send, record_post_outcome, to_world, on_world, record_post, record_post_to.
  cbn [outbox world snd]. unfold posted_once, post_line.
  destruct (classify_reply (bot_token ad) (bot_reply env o)) as [so|e] eqn:E;
    cbn [snd outbox world]; eexists o, _, _; (split; [done|]); (split; [reflexivity|]);
    rewrite E; cbn; by rewrite outcome_str.
Qed.

(** Posting and then acknowledging. *)
Lemma settles_post {A} (m : M W A) :
  (∀ s, posted_once s (m s).2) → settles (bind m (λ _, ret ok_response)).
Proof.
  intros Hm s. right. unfold bind. specialize (Hm s). destruct (m s) as [a s1]. done.
Qed.

Lemma posted_after_quiet {A B} (m : M W A) (k : A → M W B) s :
  quiet m → (∀ a s, posted_once s (k a s).2) → posted_once s (bind m k s).2.
Proof.
  intros Hm Hk. unfold bind. pose proof (Hm s) as Ho. destruct (m s) as [a s1].
  specialize (Hk a s1). unfold posted_once in *. cbn in Ho. by rewrite Ho in Hk.
Qed.

Lemma quiet_rasterize tl p draw dash : quiet (rasterize_dashboard ad env tl p draw dash).
Proof using Type.
  unfold rasterize_dashboard. apply quiet_bind; [apply quiet_on_world|].
  intros r. apply quiet_bind; [apply quiet_to_world|]. intros; apply quiet_ret.
Qed.

Lemma post_back_posted p tl chat msg s : posted_once s (post_back ad env p tl chat msg s).2.
Proof.
  unfold post_back. destruct (rm_dashboard msg) as [dash|]; [|apply post_posted].
  destruct (rasterizer ad) as [render|]; [|apply post_posted].
  apply posted_after_quiet; [apply quiet_rasterize|intros [png|e] s'; apply post_posted].
Qed.

Lemma settles_post_back p tl chat msg :
  settles (bind (post_back ad env p tl chat msg) (λ _, ret ok_response)).
Proof. apply settles_post, post_back_posted. Qed.

Lemma settles_refuse sb tn e r :
  resp_status r ∈ [200; 400; 401; 429]%Z → settles (refuse ad env sb tn e r).
Proof.
  intros Hr. apply settles_bind; [apply quiet_reject|]. intros. by apply settles_ret.
Qed.

Lemma settles_render_and_post tl res p sender chat :
  settles (render_and_post cell ad env tl res p sender chat).
Proof.
  unfold render_and_post. destruct (render_dispatch_result _ _ _ _ _) as [msg|[]].
  - apply settles_post_back.
  - apply settles_bind; [apply quiet_to_world|]. intros. apply settles_ok.
Qed.

Lemma settles_dispatch_error tl args p w e s :
  asked tl args p w →
  invoke debug_set (dispatcher ad) (clock env AtDispatch) tl args p PROTOCOL w = (Err e, world s) →
  settles_at s (ret (respond (telegram_status_for e) [])).
Proof.
  intros Ha Hi. left. split; [done|]. cbn [fst snd ret respond resp_status].
  assert (telegram_status_for e ∈ [200; 400; 401; 429]%Z
    ∨ (is_circuit_open e = true ∨ is_tool_timeout e = true ∨ ∃ m, e = Provider m)) as [?|?].
  { unfold telegram_status_for. destruct (is_circuit_open e); [auto|].
    destruct (is_tool_timeout e); [auto|]. destruct e; eauto; left; set_solver. }
  - by left.
  - right. by exists tl, args, p, w, e.
Qed.

(** Bind on the dispatch that is asked for. *)
Lemma settles_invoke tl args p (k : result DispatchResult TritonError → M W Response) s :
  asked tl args p (world s) →
  (∀ d, settles (k (Ok d))) →
  (∀ e, k (Err e) = ret (respond (telegram_status_for e) [])) →
  settles_at s (bind (on_world (invoke debug_set (dispatcher ad) (clock env AtDispatch) tl args p
                                  PROTOCOL)) k).
Proof.
  intros Ha Hok Herr. apply settles_bind_at; [apply quiet_on_world|]. intros [d|e] s1 E; [apply Hok|].
  rewrite Herr. unfold on_world in E. destruct (invoke _ _ _ _ _ _ _ _) as [r w'] eqn:Ei.
  simplify_eq. by eapply settles_dispatch_error.
Qed.

Lemma settles_install p tl chat user form :
  settles (install_form_and_prompt ad env p tl chat user form).
Proof.
  apply settles_bind; [apply quiet_on_forms|]. intros [o|e]; [|apply settles_post_back].
  apply settles_bind; [destruct o; [apply quiet_ret|apply quiet_reject]|]. intros [].
  apply settles_bind; [apply quiet_on_forms|]. intros prompt. apply settles_post_back.
Qed.

Lemma settles_dispatch p tl args chat user s :
  asked tl args p (world s) →
  settles_at s (dispatch_and_render cell debug_set ad env p tl args chat user).
Proof.
  intros Ha. apply settles_invoke; [done| |done]. intros d. destruct (try_extract_form_only _ _).
  - apply settles_install.
  - apply settles_render_and_post.
Qed.

Lemma settles_form_outcome p key chat o s :
  match o with
  | Complete tl args => ∀ again s3,
      resolve_sender debug_set decode_reply ad env AtResolveAgain (dec (telegram_user_id key)) s
        = (Ok again, s3) →
      asked tl args (chat_principal ad env AtResolveAgain (dec (telegram_user_id key)) again) (world s3)
  | _ => True
  end → settles_at s (handle_form_outcome cell debug_set decode_reply ad env p key chat o).
Proof.
  intros Ha. destruct o as [|tl args|reason]; cbn [handle_form_outcome].
  - apply settles_bind; [apply quiet_on_forms|]. intros. apply settles_post_back.
  - apply settles_bind_at; [apply quiet_resolve|].
    intros [claims|e] s3 E; [by apply settles_dispatch, Ha|].
    apply settles_bind; [apply quiet_reject|]. intros. apply settles_post_back.
  - apply settles_bind; [apply quiet_on_forms|]. intros. apply settles_post_back.
Qed.
End Settling.

Lemma elem_200 : 200%Z ∈ [200; 400; 401; 429]%Z. Proof. set_solver. Qed.
Lemma elem_400 : 400%Z ∈ [200; 400; 401; 429]%Z. Proof. set_solver. Qed.
Lemma elem_401 : 401%Z ∈ [200; 400; 401; 429]%Z. Proof. set_solver. Qed.
Lemma elem_429 : 429%Z ∈ [200; 400; 401; 429]%Z. Proof. set_solver. Qed.
Hint Resolve elem_200 elem_400 elem_401 elem_429 : rust.

Lemma on_tenants_world {A} f s (a : A) s' :
  on_tenants f s = (a, s') → world s' = world s ∧ form_state s' = form_state s.
Proof. intros Ht. by destruct (on_tenants_same _ _ _ _ Ht) as (? & ? & _). Qed.
Lemma on_forms_world {A} f s (a : A) s' :
  on_forms f s = (a, s') → world s' = world s ∧ f (form_state s) = (a, form_state s').
Proof. unfold on_forms. destruct (f _) as [a' fs]. by intros [= <- <-]. Qed.

Lemma settles_message m text s :
  settles_at (message_asks m text s) s
    (process_message cell dev_token debug_set decode_reply iter two_decimals ad env m text).
Proof.
  set (asked := message_asks m text s) in *. apply settles_bind_at; [apply quiet_resolve|].
  intros [[[sb sc] tn]|e] s1 Er; [|apply settles_refuse; auto with rust].
  apply settles_bind_at; [apply quiet_on_tenants|].
  intros [[]|r] s2 Et; [|apply settles_refuse; auto with rust].
  apply on_tenants_world in Et as [Hw2 Hf2].
  apply settles_bind_at; [apply quiet_on_forms|]. intros active s3 Ea.
  apply on_forms_world in Ea as [Hw3 Hf3]. cbv beta in Hf3. injection Hf3 as _ Hf3. case_if.
  - apply settles_bind; [apply quiet_on_forms|]. intros. apply settles_post_back.
  - apply settles_bind_at; [apply quiet_on_forms|]. intros o s4 Eo.
    apply on_forms_world in Eo as [Hw4 Hf4]. rewrite <-Hf3, Hf2 in Hf4.
    destruct o as [o|].
    + apply settles_form_outcome. destruct o as [|tl args|]; [done| |done]. intros again s5 E5.
      subst asked. exists (sb, sc, tn), s1. split; [done|]. cbv zeta. rewrite Hf4. cbn [fst].
      split; [done|]. split; [done|]. exists again, s4, s5. split; [congruence|]. done.
    + destruct (route_command dev_token text (inbound_tool ad)) as [tl args] eqn:Ec. apply settles_dispatch.
      subst asked. exists (sb, sc, tn), s1. split; [done|]. cbv zeta. rewrite Hf4. cbn [fst].
      split; [done|]. split; [done|]. congruence.
Qed.

Lemma settles_click cq s :
  settles_at (click_asks cq s) s
    (handle_callback_query cell debug_set decode_reply iter two_decimals ad env cq).
Proof.
  set (asked := click_asks cq s) in *. apply settles_bind_at; [apply quiet_resolve|].
  intros [[[sb sc] tn]|e] s1 Er; [|apply settles_refuse; auto with rust].
  apply settles_bind_at; [apply quiet_on_tenants|].
  intros [[]|r] s2 Et; [|apply settles_refuse; auto with rust].
  apply on_tenants_world in Et as [Hw2 _].
  destruct (cq_data cq) as [[|t0 token]|] eqn:Eq; try (apply settles_refuse; by auto with rust).
  destruct (freshness _ _) as [[e body]|]; [apply settles_refuse; auto with rust|].
  destruct (decode_bound_any _ _ _ _ _) as [[tl args]|e] eqn:Ed; [|apply settles_refuse; auto with rust].
  apply settles_invoke; [|intros d; apply settles_render_and_post|done].
  subst asked. by exists sb, sc, tn, (t0 :: token), s1.
Qed.

Lemma settles_update u s :
  settles_at (update_asks u s) s
    (process_update cell dev_token debug_set decode_reply iter two_decimals ad env u).
Proof.
  unfold process_update, update_asks. destruct (u_callback_query u); [apply settles_click|].
  destruct (u_message u) as [m|]; [|apply settles_ok].
  destruct (m_text m) as [[|c text]|]; try apply settles_ok. apply settles_message.
Qed.

(** *** What is posted for a surface *)

(** The notes that stand in for the image of a dashboard. *)
Definition dashboard_notes (title : str) : list str :=
  [§"<i>dashboard '" ++ html_escape title ++ §"' deferred — rasterizer not configured</i>";
   §"<i>dashboard '" ++ html_escape title ++ §"' unavailable (rasterizer failed)</i>"].

(** What a call to the platform says, for a message rendered with [text]. *)
Definition surface_text (text : str) (dashboard : option RasterDashboard) (o : Outbound) : Prop :=
  match o, dashboard with
  | SendPhoto f _, Some _ =>
      sp_caption f = (if is_empty text then None else Some text) ∧ length text ≤ 1024
  | SendMessage body, None => get_str §"text" body = Some text ∧ length text ≤ 4096
  | SendMessage body, Some dash =>
      ∃ note, note ∈ dashboard_notes (rd_title dash) ∧ markup note ∧ length text ≤ 1024
        ∧ get_str §"text" body = Some (if is_empty text then note else text ++ nl ++ nl ++ note)
        ∧ get_str §"parse_mode" body ≠ None
  | SendPhoto _ _, None => False
  end.

Lemma post_outbox tl p o s : outbox (post ad env tl p o s).2 = outbox s ++ [o].
Proof using Type. done. Qed.

Lemma message_body_text chat msg :
  get_str §"text" (build_send_message_body chat msg) = Some (rm_text msg).
Proof using Type.
  unfold build_send_message_body. destruct (rm_parse_mode msg), (rm_reply_markup msg); reflexivity.
Qed.

Lemma dashboard_note_markup title note : note ∈ dashboard_notes title → markup note.
Proof using Type.
  assert (∀ a b, plain a = true → plain b = true →
    markup (§"<i>" ++ (a ++ html_escape title ++ b) ++ §"</i>")) as Hm.
  { intros a b Ha Hb. apply (markup_tag §"i"); [apply list_elem_of_here|].
    apply inline_app; [by apply plain_inline|]. apply inline_app; [apply inline_escape|by apply plain_inline]. }
  intros Hn. apply elem_of_cons in Hn as [->|Hn]; [|apply list_elem_of_singleton in Hn as ->].
  - pose proof (Hm §"dashboard '" §"' deferred — rasterizer not configured" eq_refl eq_refl) as Hm'.
    by rewrite <-!app_assoc in Hm'.
  - pose proof (Hm §"dashboard '" §"' unavailable (rasterizer failed)" eq_refl eq_refl) as Hm'.
    by rewrite <-!app_assoc in Hm'.
Qed.

(** The body that stands in for the image. *)
Lemma placeholder_text chat msg dash note :
  rm_dashboard msg = Some dash → note ∈ dashboard_notes (rd_title dash) → length (rm_text msg) ≤ 1024 →
  surface_text (rm_text msg) (rm_dashboard msg)
    (SendMessage (build_send_message_body chat (with_placeholder note msg))).
Proof using Type.
  intros -> Hn Hl. exists note. split; [done|]. split; [by eapply dashboard_note_markup|]. split; [done|].
  rewrite message_body_text. split; [done|]. unfold build_send_message_body, with_placeholder. cbn.
  by destruct (rm_parse_mode msg), (rm_reply_markup msg).
Qed.

(** C25: what Telegram is sent for a rendered surface.  Whatever the components,
    exactly one call is made, and its text is the rendered one: escaped text,
    the three entities and complete [i], [b] and [pre] elements, also where it
    was cut, so that nothing in the surface can open an element of its own; it
    is at most 4,096 bytes, or 1,024 where the surface has a dashboard, beside
    whose image it is then the caption.  Without an image (no rasterizer, or it
    failed) the text is followed by one more well-formed line in its place, with
    the dashboard's escaped title, which is not cut; only that line can carry
    the text past the limit.  (A surface that is only a form is not rendered but
    asked for field by field, in plain text.) *)
Theorem surface_text_posted key tenant sender sf msg tl p chat s :
  render cell key tenant sender sf = Ok msg →
  markup (rm_text msg)
  ∧ ∃ o, outbox (post_back ad env p tl chat msg s).2 = outbox s ++ [o]
      ∧ surface_text (rm_text msg) (rm_dashboard msg) o.
Proof using Type.
  intros Hr. apply rendered_text_ok in Hr as [Hl Hm]. split; [done|]. unfold post_back.
  destruct (rm_dashboard msg) as [dash|] eqn:Ed.
  2: { eexists. rewrite post_outbox. split; [done|]. split; [apply message_body_text|done]. }
  destruct (rasterizer ad) as [draw|].
  - rewrite bind_snd. pose proof (quiet_rasterize tl p draw dash s) as Hq.
    destruct (rasterize_dashboard _ _ _ _ _ _ s) as [[png|e] s1]; cbn [fst snd] in *; rewrite <-Hq.
    + eexists. split; [apply post_outbox|]. by split.
    + eexists. split; [apply post_outbox|]. rewrite <-Ed. eapply placeholder_text; [done| |done]. apply list_elem_of_further, list_elem_of_here.
  - eexists. split; [apply post_outbox|]. rewrite <-Ed. eapply placeholder_text; [done| |done]. apply list_elem_of_here.
Qed.

(** C24: how a webhook call ends, on every path.  Either nothing is sent to the
    platform, and the answer is 200, 400, 401 or 429, or a 5xx that asks for a
    retry only because the dispatch this update asked for (the call its token
    signs, its command, or the form it completes, as its resolved sender) failed
    last thing, for a reason that may pass (an open circuit, a timeout, the
    provider), never for a permanent refusal; or the answer is 200 and exactly
    one call was made to the platform, whose audit line is the last one written
    and says how the platform's answer was classified (posted, retry or
    dropped). *)
Theorem webhook_outcome header body s :
  let x := handle_webhook cell dev_token debug_set decode_reply parse_update iter two_decimals ad
             env header body s in
  (outbox x.2 = outbox s
   ∧ (resp_status x.1 ∈ [200; 400; 401; 429]%Z
      ∨ ∃ u s1, parse_update body = Ok u ∧ on_rate (try_take (adapter_now env)) s = (Ok (), s1)
          ∧ transient_failure (update_asks u s1) (resp_status x.1) (world x.2)))
  ∨ (resp_status x.1 = 200%Z ∧ posted_once s x.2).
Proof.
  set (asked := λ tl args p w, ∃ u s1, parse_update body = Ok u
    ∧ on_rate (try_take (adapter_now env)) s = (Ok (), s1) ∧ update_asks u s1 tl args p w).
  assert (settles_at asked s (handle_webhook cell dev_token debug_set decode_reply parse_update iter
    two_decimals ad env header body)) as Hs.
  2: { destruct Hs as [[Ho [Hs|Hs]]|Hs]; [by left; auto| |by right]. left. split; [done|]. right.
       destruct Hs as (tl & args & p & w & e & (u & s1 & Hp & Hr & Ha) & Hi).
       exists u, s1. split; [done|]. split; [done|]. by exists tl, args, p, w, e. }
  unfold handle_webhook. case_if; [apply settles_refuse; auto with rust|].
  apply settles_bind_at; [apply quiet_on_rate|].
  intros [[]|r] s1 Er; [|apply settles_refuse; auto with rust].
  destruct (parse_update body) as [u|] eqn:Eu; [|apply settles_refuse; auto with rust].
  destruct (settles_update u s1) as [[Ho [Hs|Hs]]|Hs]; [by left; auto| |by right]. left. split; [done|].
  right. destruct Hs as (tl & args & p & w & e & Ha & Hi). exists tl, args, p, w, e. split; [|done].
  by exists u, s1.
Qed.
End Facts.

(** ** From the rendered button to the dispatch *)

Lemma keyboard_button_inj l t l' t' :
  keyboard_button l t = keyboard_button l' t' → l = l' ∧ t = t'.
Proof. by intros [= -> ->]. Qed.

Lemma mint_not_empty `{Crypto} key tn sender tool args : mint key tn sender tool args ≠ Ok [].
Proof.
  unfold mint, encode_bound. case_if; [done|]. cbn [bound_expiry result_bind].
  intros (json & _ & _ & E)%finish_Ok. by destruct (b64url_encode json).
Qed.

(** C36: a button works for the reader it was made for.  When a surface was
    rendered under the ring's signing key for a tenant and a sender, and that
    sender, still of that tenant and within their rate, clicks one of its
    buttons while it is fresh, then the tool and arguments of the very control
    the button shows are invoked as that sender. *)
Theorem own_button_dispatches {W : Type} `{SerdeJson} `{CryptoLaws} `{UrlParse, SerdeA2ui} cell
    debug_set decode_reply iter two_decimals (ad : TelegramAdapter W) env key rest surf msg row
    label tok cq sb sc tn (s s1 s2 : TState W) :
  keys (correlation_key ad) = key :: rest →
  render cell key tn (dec (cq_from cq)) surf = Ok msg →
  row ∈ keyboard msg → keyboard_button label tok ∈ row →
  (∀ c tool args, c ∈ components surf → offers c label tool args →
     body_roundtrips {| cb_t := tool; cb_a := args; cb_x := None |}) →
  cq_data cq = Some tok →
  resolve_sender debug_set decode_reply ad env AtResolve (dec (cq_from cq)) s
    = (Ok (sb, sc, tn), s1) →
  on_tenants (tenant_try_take iter (tenant_now env) tn) s1 = (Ok (), s2) →
  freshness env (default 0%Z (m_date <$> cq_message cq)) = None →
  ∃ c tool args, c ∈ components surf ∧ offers c label tool args
    ∧ let p := chat_principal ad env AtResolve (dec (cq_from cq)) (sb, sc, tn) in
      handle_callback_query cell debug_set decode_reply iter two_decimals ad env cq s
      = bind (on_world (invoke debug_set (dispatcher ad) (clock env AtDispatch) tool args p
                          PROTOCOL))
          (answer_click cell ad env tool p (dec (cq_from cq))
             (default (as_i64 (cq_from cq)) (m_chat <$> cq_message cq))) s2.
Proof.
  intros Hk Hr Hrow Hb Hrt Hdata Hres Htake Hfresh.
  destruct (keyboard_signed _ _ _ _ _ _ _ _ Hr Hrow Hb)
    as [_ (c & l' & tool & args & t' & Hc & Ho & Hm & [<- <-]%keyboard_button_inj)].
  exists c, tool, args. split; [done|]. split; [done|]. intros p.
  unfold handle_callback_query, bind at 1. rewrite Hres.
  unfold bind at 1. rewrite Htake, Hdata.
  destruct tok as [|t0 tok]; [by apply mint_not_empty in Hm|].
  rewrite Hfresh. unfold decode_bound_any, try_ring, verifying. rewrite Hk. cbn [try_keys].
  destruct (mint_decodes _ _ _ _ _ _ (unix_decode env) Hm) as [_ Hd].
  change 64 with PLATFORM_MAX_CALLBACK_DATA in Hd. rewrite Hd by eauto. reflexivity.
Qed.

(** ** Long polling takes each update once *)

Section LongPollFacts.
Context {W : Type} `{SerdeJson, Crypto, UrlParse, SerdeA2ui}.
Variables (cell : HttpHosts) (dev_token : bool) (debug_set : gset str → str).
Variable decode_reply : Value → result ResolverReply str.
Variable iter : gmap str (Tracked spec_float) → list (str * Tracked spec_float).
Variable two_decimals : RetryAfter spec_float → str.
Variable ad : TelegramAdapter W.

(** [getUpdates(offset)], as the Bot API documents it: updates whose ids are
    not below the offset, each once. *)
Definition serves_from (answer : Z → result (list (Env * TelegramUpdate)) str) : Prop :=
  ∀ offset us, answer offset = Ok us →
    NoDup ((λ x, update_id x.2) <$> us)
    ∧ ∀ i, i ∈ ((λ x, update_id x.2) <$> us) → (offset ≤ i < i64_max)%Z.

Lemma poll_batch_offset us offset s :
  let x := poll_batch cell dev_token debug_set decode_reply iter two_decimals ad us offset s in
  (offset ≤ x.1)%Z
  ∧ ∀ i, i ∈ ((λ y, update_id y.2) <$> us) → (i < i64_max)%Z → (i < x.1)%Z.
Proof.
  revert offset s. induction us as [|u us IH]; intros offset s; cbn [poll_batch].
  { cbn. split; [lia|]. by intros i ?%elem_of_nil. }
  unfold bind. destruct (poll_one _ _ _ _ _ _ _ u s) as [[] s1].
  destruct (IH (Z.max offset (i64_succ (update_id u.2))) s1) as [Hle Hall].
  split; [lia|]. intros i. cbn [fmap list_fmap]. intros [->|Hi]%elem_of_cons Hlt; [|auto].
  eapply Z.lt_le_trans; [|exact Hle]. unfold i64_succ.
  rewrite (proj2 (Z.eqb_neq _ _)) by lia. lia.
Qed.

(** Long polling takes every update once.  Over any run of the worker,
    failed polls included, the offset it asks for never goes back, and no update
    is taken twice: what a batch delivered lies below the offset of every later
    poll, so it is acknowledged even when the rate limit dropped it. *)
Theorem long_poll_at_most_once rounds offset s :
  Forall serves_from rounds →
  let x := long_poll_loop cell dev_token debug_set decode_reply iter two_decimals ad rounds offset s in
  NoDup x.1.1 ∧ (offset ≤ x.1.2)%Z ∧ ∀ i, i ∈ x.1.1 → (offset ≤ i < x.1.2)%Z.
Proof.
  intros Hr. revert offset s.
  induction Hr as [|answer rounds Ha _ IH]; intros offset s; cbn [long_poll_loop].
  { cbn. split; [constructor|]. split; [lia|]. by intros i ?%elem_of_nil. }
  destruct (answer offset) as [us|e] eqn:Ea; [|apply IH].
  destruct (Ha _ _ Ea) as [Hnd Hge]. unfold bind.
  pose proof (poll_batch_offset us offset s) as [Hle Hlt].
  destruct (poll_batch _ _ _ _ _ _ _ us offset s) as [offset' s1]. cbn [fst] in Hle, Hlt.
  pose proof (IH offset' s1) as (Hnd2 & Hle2 & Hin2).
  destruct (long_poll_loop _ _ _ _ _ _ _ rounds offset' s1) as [[ids off2] s2]. cbn [fst snd ret] in *.
  split; [|split; [lia|]].
  - apply NoDup_app. split; [done|]. split; [|done]. intros i Hi Hi2.
    specialize (Hin2 i Hi2). specialize (Hlt i Hi). specialize (Hge i Hi). lia.
  - intros i [Hi|Hi]%elem_of_app.
    + specialize (Hge i Hi). specialize (Hlt i Hi). lia.
    + specialize (Hin2 i Hi). lia.
Qed.
End LongPollFacts.

(** ** Witnesses: one sender, one tool, a quiet platform *)

#[local] Existing Instance demo_crypto.
#[local] Existing Instance demo_laws.
#[local] Existing Instance sample_url.
#[local] Existing Instance sample_json.
#[local] Existing Instance sample_serde.

Definition demo_adapter : TelegramAdapter nat :=
  {| ta_name := §"tg"; secret_token := §"s3cret"; bot_token := §"1:abc";
     correlation_key := {| keys := [§"key"] |}; identity := ModeSenderTable demo_table;
     inbound_tool := §"echo"; dispatcher := demo_dispatcher None unenforced; rasterizer := None |}.

Definition demo_env : Env :=
  {| adapter_now := 0; tenant_now := {| at_entry := 0; at_scan _ := 0%Z; at_create := 0; at_take := 0 |};
     unix_now := Some 1000%Z; unix_decode := Some 1000%Z; reject_now := 0; clock _ := tick;
     uuid _ := §"id"; bot_reply _ := Envelope 200 true None None |}.

Definition demo_state : TState nat :=
  {| world := World_new unenforced 0; rate_limit := TokenBucket_new 1 1 0;
     per_tenant_limit := PerTenantBuckets_new 1 1; form_state := FormStateStore_new; outbox := [] |}.

Definition no_reply (_ : Value) : result ResolverReply str := Err [].
Definition no_update (_ : str) : result TelegramUpdate str := Err [].
Definition no_format (_ : RetryAfter spec_float) : str := [].

(** A surface with a dashboard, and no rasterizer. *)
Definition demo_dashboard : Surface :=
  {| components := [Component.Text §"a < b" []; Component.Dashboard §"R&D" []] |}.
Lemma surface_text_posted_witness :
  ∃ msg o note,
    render None §"key" §"acme" §"42" demo_dashboard = Ok msg
    ∧ outbox (post_back demo_adapter demo_env (alice []) §"echo" 42 msg demo_state).2 = [o]
    ∧ note ∈ dashboard_notes §"R&D" ∧ markup (rm_text msg) ∧ rm_text msg = §"a &lt; b".
Proof.
  destruct (render None §"key" §"acme" §"42" demo_dashboard) as [msg|] eqn:E; [|by vm_compute in E].
  destruct (surface_text_posted None demo_adapter demo_env §"key" §"acme" §"42" demo_dashboard msg §"echo"
    (alice []) 42 demo_state E) as (Hm & o & Ho & Ht).
  vm_compute in E. injection E as <-. destruct o as [body|f png]; [|by vm_compute in Ho].
  destruct Ht as (note & Hn & _). by eexists _, _, note.
Defined.

Lemma wrong_secret_reaches_nothing_witness :
  ∃ s', handle_webhook None false no_debug no_reply no_update map_to_list no_format demo_adapter
          demo_env (Some §"guess") §"{}" demo_state = (respond 401 §"unauthorized", s')
    ∧ outbox s' = [].
Proof.
  destruct (wrong_secret_reaches_nothing None false no_debug no_reply no_update map_to_list
    no_format demo_adapter demo_env (Some §"guess") §"{}" demo_state) as (s' & E & _ & Ho & _).
  - apply Nat.leb_le. reflexivity.
  - discriminate.
  - exists s'. split; [exact E|exact Ho].
Defined.

(** A click by sender 42 on the button that [demo_controls] renders to. *)
Definition demo_click : TelegramCallbackQuery := Eval vm_compute in
  {| cq_from := 42; cq_message := Some {| m_from := 7; m_chat := 42; m_date := 900; m_text := None |};
     cq_data := Some (token_or_nil (mint §"key" §"acme" §"42" §"echo" Value.Null)) |}.
Definition demo_served : TState nat := Eval vm_compute in
  (on_tenants (tenant_try_take map_to_list (tenant_now demo_env) §"acme") demo_state).2.

Lemma click_refused_or_signed_witness :
  outside (world (handle_callback_query None no_debug no_reply map_to_list no_format demo_adapter
    demo_env demo_click demo_state).2) = 1
  ∧ (refused demo_adapter demo_env demo_state
       (handle_callback_query None no_debug no_reply map_to_list no_format demo_adapter
          demo_env demo_click demo_state)
     ∨ ∃ (sb : str) (sc : list str) (tn token tool : str) args key,
         cq_data demo_click = Some token ∧ key ∈ [§"key"]
         ∧ decode_bound (Some 1000%Z) token key 64 (telegram_binding tn §"42") = Ok (tool, args)).
Proof.
  split; [vm_compute; reflexivity|].
  destruct (click_refused_or_signed None no_debug no_reply map_to_list no_format demo_adapter
    demo_env demo_click demo_state (Ok (§"alice", [], §"acme")) demo_state)
    as [Hr|(sb & sc & tn & token & tool & args & key & s2 & _ & Hd & Hk & _ & Hdec & _)].
  - apply Z.leb_le. reflexivity.
  - apply Z.leb_le. reflexivity.
  - vm_compute. reflexivity.
  - left. exact Hr.
  - right. exists sb, sc, tn, token, tool, args, key. split; [exact Hd|]. split; [exact Hk|].
    exact Hdec.
Defined.

Lemma own_button_dispatches_witness :
  ∃ c tool args, c ∈ components demo_controls ∧ offers c §"Go" tool args
    ∧ handle_callback_query None no_debug no_reply map_to_list no_format demo_adapter demo_env
        demo_click demo_state
      = bind (on_world (invoke no_debug (dispatcher demo_adapter) tick tool args
                          (chat_principal demo_adapter demo_env AtResolve §"42"
                             (§"alice", [], §"acme")) PROTOCOL))
          (answer_click None demo_adapter demo_env tool
             (chat_principal demo_adapter demo_env AtResolve §"42" (§"alice", [], §"acme"))
             §"42" 42) demo_served.
Proof.
  assert (render None §"key" §"acme" §"42" demo_controls = Ok demo_message) as Er
    by (vm_compute; reflexivity).
  apply (own_button_dispatches None no_debug no_reply map_to_list no_format demo_adapter demo_env
    §"key" [] demo_controls demo_message [demo_key] §"Go"
    (token_or_nil (mint §"key" §"acme" §"42" §"echo" Value.Null)) demo_click §"alice" [] §"acme"
    demo_state demo_state demo_served).
  - reflexivity.
  - exact Er.
  - left.
  - left.
  - intros c tool args Hc Ho. inversion Ho; subst; clear Ho.
    + apply elem_of_cons in Hc as [?|Hc]; [done|]. apply elem_of_cons in Hc as [?|Hc]; [done|].
      apply elem_of_cons in Hc as [E|Hc]; [|by apply elem_of_nil in Hc].
      injection E as -> -> -> ->. exists §"necho". split; vm_compute; reflexivity.
    + apply elem_of_cons in Hc as [?|Hc]; [done|]. apply elem_of_cons in Hc as [?|Hc]; [done|].
      apply elem_of_cons in Hc as [?|Hc]; [done|]. by apply elem_of_nil in Hc.
  - vm_compute. reflexivity.
  - vm_compute. reflexivity.
  - vm_compute. reflexivity.
  - vm_compute. reflexivity.
Defined.

(** A platform that holds one update, 7, and repeats it until it is
    acknowledged. *)
Definition demo_answer (offset : Z) : result (list (Env * TelegramUpdate)) str :=
  if (offset <=? 7)%Z
  then Ok [(demo_env, {| update_id := 7; u_message := None; u_callback_query := None |})]
  else Ok [].

Lemma long_poll_at_most_once_witness :
  let x := long_poll_loop None false no_debug no_reply map_to_list no_format demo_adapter
             [demo_answer; demo_answer] 0 demo_state in
  x.1 = ([7%Z], 8%Z) ∧ NoDup x.1.1.
Proof.
  split; [vm_compute; reflexivity|].
  apply (long_poll_at_most_once None false no_debug no_reply map_to_list no_format demo_adapter
    [demo_answer; demo_answer] 0 demo_state).
  assert (serves_from demo_answer) as Hs.
  { intros offset us. unfold demo_answer. destruct (offset <=? 7)%Z eqn:E; intros [= <-].
    - split; [apply NoDup_singleton|]. apply Z.leb_le in E.
      intros i ->%list_elem_of_singleton. cbn. unfold i64_max. lia.
    - split; [constructor|]. by intros i ?%elem_of_nil. }
  constructor; [exact Hs|]. constructor; [exact Hs|constructor].
Defined.
