(* ===== verification/TelegramBoot.v ===== *)
(** * TelegramBoot: building the Telegram adapter from its manifest entry
    (crates/triton-chat-telegram/src/lib.rs, [TelegramAdapter::from_manifest])

    The entry's credentials are resolved, each is checked, and the adapter and
    its empty state come out, or the first error, which is fatal at boot. *)

From Stdlib Require Import SpecFloat.
From S2P Require Import Prelude Json Errors Principal RateLimit Context AuditLog Dispatcher.
From S2P Require Import Correlation FormState ChatIdentity Manifest TelegramMapper Telegram.

Inductive BuildError :=
  | BadCorrelationKey (e : KeyRingError)
  | WrongKind
  | Unsupported (m : str)
  | MissingCredential (field : str)
  | Resolve (field : str) (e : ResolveError)
  | BadIdentity (e : IdentityError).

Definition ADAPTER_HEADROOM : Z := 10.

Section Boot.
Context {W : Type}.
(** The secret resolver, the JSON decoder of the sender table, and whether the
    HTTP client could be built. *)
Variable resolve : SecretField → result str ResolveError.
Variable decode_table : str → result SenderTable str.
Variable http_client : result unit str.
(** [TRITON_TELEGRAM_FORM_CAP_PER_TENANT] *)
Variable form_cap_var : option str.
(** [Instant::now()] when the bucket is created. *)
Variable now : Z.

(** A credential that must be declared and must resolve. *)
Definition credential (field name : str) (m : Credentials) : result str BuildError :=
  f ←? ok_or (cred name m) (MissingCredential field);
  result_map_err (Resolve field) (resolve f).

Definition build_identity (a : Adapter) (d : Dispatcher W) : result IdentityMode BuildError :=
  match id_kind (a_identity a) with
  | KUpstream =>
      tool ←? credential §"identity.resolver_tool" §"resolver_tool" (id_credentials (a_identity a));
      result_map ModeUpstream
        (result_map_err BadIdentity (UpstreamResolver_new tool §"telegram" PROTOCOL_RESOLVE d))
  | _ =>
      (* the other kinds were refused above *)
      json ←? credential §"identity.table" §"table" (id_credentials (a_identity a));
      result_map ModeSenderTable (result_map_err BadIdentity (SenderTable_parse decode_table json))
  end.

Definition form_cap : nat :=
  default DEFAULT_PER_TENANT_CAP (Z.to_nat <$> (form_cap_var ≫= parse_uint u64_max)).

(** The state the adapter starts with, around the dispatcher's world. *)
Definition initial_state (a : Adapter) (w : World W) : TState W :=
  let r := a_rate_limit a in
  {| world := w;
     rate_limit := TokenBucket_new (u32_saturating_mul (rl_messages_per_sec r) ADAPTER_HEADROOM)
                     (u32_saturating_mul (rl_burst r) ADAPTER_HEADROOM) now;
     per_tenant_limit := PerTenantBuckets_new (rl_messages_per_sec r) (rl_burst r);
     form_state := with_cap form_cap;
     outbox := [] |}.

Definition from_manifest (name : str) (a : Adapter) (d : Dispatcher W) rasterizer
    : result (TelegramAdapter W) BuildError :=
  if bool_decide (a_kind a ≠ AKTelegram) then Err WrongKind
  else if bool_decide (in_signature (a_inbound a) ≠ SecretToken) then
    Err (Unsupported (§"PR 13 only handles `signature: secret_token`; got "
                        ++ scheme_debug (in_signature (a_inbound a))))
  else
    _ ←? result_map_err BadIdentity
           (require_supported_kind §"telegram" (id_kind (a_identity a)) [KSenderTable; KUpstream]);
    secret ←? credential §"inbound.secret" §"secret" (in_credentials (a_inbound a));
    if is_empty secret || (MAX_SECRET_TOKEN <? length secret)%nat then
      Err (Unsupported (§"inbound.secret length must be 1..=" ++ dec (Z.of_nat MAX_SECRET_TOKEN)
                          ++ §" bytes, got " ++ dec (Z.of_nat (length secret))))
    else
      identity ←? build_identity a d;
      token ←? credential §"outbound.token" §"token" (out_credentials (a_outbound a));
      key ←? result_map_err (Resolve §"correlation_key") (resolve (a_correlation_key a));
      ring ←? result_map_err BadCorrelationKey (KeyRing_parse key);
      _ ←? result_map_err (λ e, Unsupported (§"courier http client: " ++ e)) http_client;
      Ok {| ta_name := name; secret_token := secret; bot_token := token; correlation_key := ring;
            identity := identity; inbound_tool := a_tool a; dispatcher := d;
            rasterizer := rasterizer |}.

Lemma credential_Ok field name m s :
  credential field name m = Ok s → ∃ f, cred name m = Some f ∧ resolve f = Ok s.
Proof.
  unfold credential. destruct (cred name m) as [f|]; cbn [ok_or result_bind]; [|done].
  intros Hr%result_map_err_Ok. eauto.
Qed.

(** What is known of an identity strategy that was accepted at boot. *)
Definition identity_sound (d : Dispatcher W) (i : IdentityMode) : Prop :=
  match i with
  | ModeSenderTable t =>
      ∃ json raw, decode_table json = Ok raw ∧ SenderTable_parse decode_table json = Ok t
  | ModeUpstream up => registry d !! ur_tool up = None ∧ trim (ur_tool up) ≠ []
                       ∧ ur_protocol up = PROTOCOL_RESOLVE
  end.

Lemma build_identity_sound a d i : build_identity a d = Ok i → identity_sound d i.
Proof.
  assert (∀ r : result IdentityMode BuildError,
    r = (json ←? credential §"identity.table" §"table" (id_credentials (a_identity a));
         result_map ModeSenderTable
           (result_map_err BadIdentity (SenderTable_parse decode_table json))) →
    r = Ok i → identity_sound d i) as Htable.
  { intros r -> (json & _ & Ht)%result_bind_Ok.
    apply result_map_Ok in Ht as (t & Ht%result_map_err_Ok & ->). exists json.
    pose proof Ht as Hp. unfold SenderTable_parse in Hp.
    apply result_bind_Ok in Hp as (raw & Hraw%result_map_err_Ok & _). by exists raw. }
  unfold build_identity. destruct (id_kind (a_identity a)); try (by apply Htable).
  intros (tool & _ & Hu)%result_bind_Ok.
  apply result_map_Ok in Hu as (up & Hu%result_map_err_Ok & ->).
  unfold UpstreamResolver_new in Hu. destruct (is_empty (trim tool)) eqn:Et; [done|].
  case_bool_decide as Hn; [done|]. injection Hu as <-. cbn [identity_sound ur_tool ur_protocol].
  split; [|split; [|done]].
  - by apply eq_None_not_Some.
  - by destruct (trim tool).
Qed.

(** C40: the adapter fails closed at boot.  An adapter comes out of a manifest
    entry only if the entry is a Telegram one with the secret-token scheme, its
    secret resolved to between 1 and 256 bytes (what the constant-time
    comparison needs), its identity strategy was accepted (a table that parsed
    and validated, whatever it was read from, or a resolver tool no in-process tool shadows), and its key
    ring has a signing key and no key under 16 bytes. *)
Theorem boot_fails_closed name a d r ad :
  from_manifest name a d r = Ok ad →
  a_kind a = AKTelegram ∧ in_signature (a_inbound a) = SecretToken
  ∧ (1 ≤ length (secret_token ad) ≤ MAX_SECRET_TOKEN)
  ∧ (∃ f, cred §"secret" (in_credentials (a_inbound a)) = Some f
          ∧ resolve f = Ok (secret_token ad))
  ∧ identity_sound (dispatcher ad) (identity ad)
  ∧ (∃ k, signing (correlation_key ad) = Some k)
  ∧ Forall (λ k, 16 ≤ length k) (keys (correlation_key ad))
  ∧ http_client = Ok ().
Proof.
  unfold from_manifest. case_bool_decide as Hk; [done|]. case_bool_decide as Hs; [done|].
  intros (? & _ & (secret & Hsec & Hb)%result_bind_Ok)%result_bind_Ok.
  destruct (_ || _) eqn:El; [done|]. apply orb_false_iff in El as [El1 El2]. bool_facts.
  apply result_bind_Ok in Hb as (i & Hi & Hb). apply result_bind_Ok in Hb as (tok & _ & Hb).
  apply result_bind_Ok in Hb as (key & _ & Hb).
  apply result_bind_Ok in Hb as (ring & Hring%result_map_err_Ok & Hb).
  apply result_bind_Ok in Hb as ([] & Hh%result_map_err_Ok & [= <-]).
  apply build_identity_sound in Hi. apply key_ring_sound in Hring as [Hsig Hlen].
  apply credential_Ok in Hsec. cbn [secret_token dispatcher identity correlation_key].
  repeat split; try done. destruct secret; [done|]. cbn. lia.
Qed.
End Boot.

(** *** Witness *)

Definition demo_entry : Adapter :=
  {| a_kind := AKTelegram; a_tool := §"echo";
     a_inbound := {| in_kind := IWebhook; in_signature := SecretToken;
                     in_credentials := [(§"secret", EnvRef §"SECRET")] |};
     a_outbound := {| out_kind := ORestApi; out_credentials := [(§"token", EnvRef §"TOKEN")] |};
     a_identity := {| id_kind := KSenderTable; id_pairing_tool := None;
                      id_credentials := [(§"table", EnvRef §"TABLE")] |};
     a_degrade := []; a_rate_limit := {| rl_messages_per_sec := 1; rl_burst := 1 |};
     a_correlation_key := EnvRef §"0123456789abcdef"; a_templates := [];
     a_surface_guidance := None |}.
Definition demo_resolver_of (f : SecretField) : result str ResolveError :=
  LiteralResolver_resolve (λ v, Some v) f.
Definition booted : result (TelegramAdapter nat) BuildError :=
  from_manifest demo_resolver_of demo_decode (Ok ()) §"tg" demo_entry
    (demo_dispatcher None unenforced) None.

Lemma boot_fails_closed_witness :
  match booted with
  | Ok ad => 1 ≤ length (secret_token ad) ≤ MAX_SECRET_TOKEN
  | Err _ => False
  end.
Proof.
  destruct booted as [ad|e] eqn:E.
  - apply (boot_fails_closed demo_resolver_of demo_decode (Ok ()) §"tg" demo_entry
      (demo_dispatcher None unenforced) None ad E).
  - vm_compute in E. discriminate E.
Defined.
