(* ===== verification/Oidc.v ===== *)
(** * Oidc: verification of inbound bearer tokens
    (crates/triton-identity/src/lib.rs, [OidcVerifier])

    [jsonwebtoken], [base64] and [serde_json] are the operations of the classes
    [Jwt] and [SerdeJson]; what is relied on of them is [JwtLaws].  A verifier's
    state is its key cache, the refresh attempts and, in [gets], the documents
    it has requested.  [lookup_key] is the sequential reading of the key lookup;
    the section [Concurrent] has its steps under the refresh lock. *)

From S2P Require Import Prelude Json Errors Principal.

(** ** Configuration *)

(** [jsonwebtoken::Algorithm] *)
Inductive Algorithm :=
  | HS256 | HS384 | HS512 | ES256 | ES384 | RS256 | RS384 | RS512
  | PS256 | PS384 | PS512 | EdDSA.
#[export] Instance Algorithm_eq_dec : EqDecision Algorithm.
Proof. solve_decision. Defined.

(** [{:?}] of an algorithm. *)
Definition algorithm_debug (a : Algorithm) : str :=
  match a with
  | HS256 => §"HS256" | HS384 => §"HS384" | HS512 => §"HS512" | ES256 => §"ES256"
  | ES384 => §"ES384" | RS256 => §"RS256" | RS384 => §"RS384" | RS512 => §"RS512"
  | PS256 => §"PS256" | PS384 => §"PS384" | PS512 => §"PS512" | EdDSA => §"EdDSA"
  end.

Definition ALLOWED_ALGS : list Algorithm := [RS256; RS384; RS512; ES256; ES384; EdDSA].

Definition ENTRA_MULTI_TENANT_ISSUER : str := §"https://login.microsoftonline.com/{tenantid}/v2.0".
Definition ENTRA_COMMON_JWKS_URL : str :=
  §"https://login.microsoftonline.com/organizations/discovery/v2.0/keys".
Definition ENTRA_AUTHORITY : str := §"https://login.microsoftonline.com".

Record EntraMultiTenant := {
  tenant_map : gmap str str;
  authority : str;
  required_scopes : list str;
}.

Record OidcConfig := {
  issuer : str;
  audience : str;
  jwks_url : option str;
  refresh_interval : Z;
  multi_tenant_entra : option EntraMultiTenant;
  idp_name : option str;
}.

Definition OidcConfig_new (iss aud : str) : OidcConfig :=
  {| issuer := iss; audience := aud; jwks_url := None; refresh_interval := secs 30;
     multi_tenant_entra := None; idp_name := None |}.

Definition with_idp_name (n : str) (c : OidcConfig) : OidcConfig :=
  {| issuer := issuer c; audience := audience c; jwks_url := jwks_url c;
     refresh_interval := refresh_interval c; multi_tenant_entra := multi_tenant_entra c;
     idp_name := Some n |}.

Definition with_jwks_url (u : str) (c : OidcConfig) : OidcConfig :=
  {| issuer := issuer c; audience := audience c; jwks_url := Some u;
     refresh_interval := refresh_interval c; multi_tenant_entra := multi_tenant_entra c;
     idp_name := idp_name c |}.

(** The map is given by the pairs of the one it is built from, in the order
    they are visited. *)
Definition entra_multi_tenant_at (aud : str) (map : list (str * str)) (auth jwks : str)
    : OidcConfig :=
  let auth := trim_end_char "/" auth in
  {| issuer := auth ++ §"/{tenantid}/v2.0"; audience := aud; jwks_url := Some jwks;
     refresh_interval := secs 30;
     multi_tenant_entra := Some {|
       tenant_map := fold_left (λ m '(k, v), <[to_ascii_lowercase k := v]> m) map ∅;
       authority := auth; required_scopes := [] |};
     idp_name := Some §"entra" |}.

Definition entra_multi_tenant (aud : str) (map : list (str * str)) : OidcConfig :=
  entra_multi_tenant_at aud map ENTRA_AUTHORITY ENTRA_COMMON_JWKS_URL.

Definition with_required_scopes (ss : list str) (c : OidcConfig) : OidcConfig :=
  {| issuer := issuer c; audience := audience c; jwks_url := jwks_url c;
     refresh_interval := refresh_interval c;
     multi_tenant_entra :=
       (λ mt, {| tenant_map := tenant_map mt; authority := authority mt;
                 required_scopes := ss |}) <$> multi_tenant_entra c;
     idp_name := idp_name c |}.

(** ** Issuers *)

Definition is_entra_guid (s : str) : bool :=
  let groups := [8; 4; 4; 4; 12]%nat in
  let parts := split_on "-" s in
  (length parts =? length groups)%nat
  && forallb (λ '(p, n), (length p =? n)%nat && forallb is_ascii_hexdigit p) (zip parts groups).

Definition entra_tid_under (authority iss : str) : option str :=
  mid ← strip_prefix (trim_end_char "/" authority) iss;
  mid ← strip_prefix §"/" mid;
  mid ← strip_suffix §"/v2.0" mid;
  if is_entra_guid mid then Some (to_ascii_lowercase mid) else None.

Definition entra_tid_from_issuer (iss : str) : option str := entra_tid_under ENTRA_AUTHORITY iss.

Definition issuer_matches (configured from_token : str) : bool :=
  if decide (configured = ENTRA_MULTI_TENANT_ISSUER)
  then bool_decide (is_Some (entra_tid_from_issuer (trim_end_char "/" from_token)))
  else bool_decide (trim_end_char "/" configured = trim_end_char "/" from_token).

Definition accepts_issuer (c : OidcConfig) (iss : str) : bool :=
  match multi_tenant_entra c with
  | Some mt => bool_decide (is_Some (entra_tid_under (authority mt) (trim_end_char "/" iss)))
  | None => issuer_matches (issuer c) iss
  end.

Definition idp_name_of (c : OidcConfig) : str :=
  match idp_name c with
  | Some n => n
  | None =>
      let iss := trim_end_char "/" (issuer c) in
      if starts_with ENTRA_AUTHORITY iss || starts_with §"https://sts.windows.net" iss
      then §"entra"
      else if bool_decide (iss = §"https://accounts.google.com")
              || bool_decide (iss = §"accounts.google.com")
      then §"google" else §"oidc"
  end.

(** ** Claims *)

Record TokenClaims := {
  c_sub : str;
  c_tenant : option str;
  c_tid : option str;
  c_email : option str;
  c_upn : option str;
  c_preferred_username : option str;
  c_hd : option str;
  c_scope : option str;
  c_scp : option (list str);
  c_roles : option (list str);
  c_groups : option (list str);
}.

Definition claim_scopes (c : TokenClaims) : list str :=
  match c_scp c with
  | Some s => s
  | None => match c_scope c with Some s => split_whitespace s | None => [] end
  end.

Definition claim_groups (c : TokenClaims) : list str :=
  match c_roles c with
  | Some g => g
  | None => match c_groups c with Some g => g | None => [] end
  end.

(** The derived [Deserialize] of [TokenClaims] on a JSON value: a missing or
    null optional claim is absent, a claim of another type is an error
    ([None]). *)
Definition opt_claim {A} (read : Value → option A) (k : str) (v : Value) : option (option A) :=
  match value_get k v with
  | None | Some Value.Null => Some None
  | Some x => Some <$> read x
  end.

Definition read_strings (v : Value) : option (list str) :=
  match v with Value.Array l => mapM as_str l | _ => None end.

Definition de_string_or_seq (v : Value) : option (list str) :=
  match v with
  | Value.String s => Some (split_whitespace s)
  | _ => read_strings v
  end.

Definition claims_of_value (v : Value) : option TokenClaims :=
  sub ← get_str §"sub" v;
  tenant ← opt_claim as_str §"tenant" v;
  tid ← opt_claim as_str §"tid" v;
  email ← opt_claim as_str §"email" v;
  upn ← opt_claim as_str §"upn" v;
  preferred ← opt_claim as_str §"preferred_username" v;
  hd ← opt_claim as_str §"hd" v;
  scope ← opt_claim as_str §"scope" v;
  scp ← opt_claim de_string_or_seq §"scp" v;
  roles ← opt_claim read_strings §"roles" v;
  groups ← opt_claim read_strings §"groups" v;
  Some {| c_sub := sub; c_tenant := tenant; c_tid := tid; c_email := email; c_upn := upn;
          c_preferred_username := preferred; c_hd := hd; c_scope := scope; c_scp := scp;
          c_roles := roles; c_groups := groups |}.

(** ** The token library *)

Record JwtHeader := { h_alg : Algorithm; h_kid : option str }.

Record JwtValidation := {
  v_alg : Algorithm;
  v_issuer : list str;
  v_audience : list str;
  v_required : list str;
}.

Class Jwt := {
  DecodingKey : Type;
  Jwk : Type;
  jwk_key_id : Jwk → option str;
  (** [DecodingKey::from_jwk] *)
  key_from_jwk : Jwk → option DecodingKey;
  (** [decode_header], with the text of its error *)
  decode_header : str → result JwtHeader str;
  (** [decode], at a unix second *)
  decode : Z → str → DecodingKey → JwtValidation → result TokenClaims str;
  (** [URL_SAFE_NO_PAD.decode] *)
  b64url : str → option str;
}.

Section Unverified.
Context `{SerdeJson, Jwt}.

(** The JSON of a token's middle segment. *)
Definition payload (token : str) : option Value :=
  seg ← split_on "." token !! 1%nat; bytes ← b64url seg; json_from_str bytes.

Definition unverified_issuer (token : str) : option str :=
  v ← payload token; get_str §"iss" v.
End Unverified.

(** ** The key cache *)

Record DiscoveryDoc := { d_issuer : str; d_jwks_uri : str }.

(** What a GET for a JSON document comes to: a failure to get it, a body that
    does not decode, or the document. *)
Inductive Fetch (A : Type) :=
  | Unreachable (error : str)
  | Undecodable (error : str)
  | Fetched (a : A).
Arguments Unreachable {A} _.
Arguments Undecodable {A} _.
Arguments Fetched {A} _.

Section Verifier.
Context `{SerdeJson, Jwt}.

Record OidcVerifier := {
  config : OidcConfig;
  keys : gmap str DecodingKey;
  last_refresh_per_kid : gmap str Z;
  (** the URLs requested so far *)
  gets : list str;
}.

Definition OidcVerifier_new (c : OidcConfig) : OidcVerifier :=
  {| config := c; keys := ∅; last_refresh_per_kid := ∅; gets := [] |}.

(** The documents the network serves during one call. *)
Record Net := {
  get_discovery : str → Fetch DiscoveryDoc;
  get_jwks : str → Fetch (list Jwk);
}.

Definition log_get (url : str) (v : OidcVerifier) : OidcVerifier :=
  {| config := config v; keys := keys v; last_refresh_per_kid := last_refresh_per_kid v;
     gets := gets v ++ [url] |}.

Definition installed (jwks : list Jwk) : gmap str DecodingKey :=
  fold_left (λ next jwk,
    match jwk_key_id jwk, key_from_jwk jwk with
    | Some kid, Some key => <[kid := key]> next
    | _, _ => next
    end) jwks ∅.

Definition install_keys (jwks : list Jwk) (v : OidcVerifier) : OidcVerifier :=
  {| config := config v; keys := installed jwks;
     last_refresh_per_kid := last_refresh_per_kid v; gets := gets v |}.

Definition fetch_jwks (net : Net) (url : str) (v : OidcVerifier)
    : result (list Jwk) TritonError * OidcVerifier :=
  (match get_jwks net url with
   | Unreachable e => Err (Provider (§"JWKS fetch " ++ url ++ §": " ++ e))
   | Undecodable e => Err (Provider (§"JWKS decode: " ++ e))
   | Fetched jwks => Ok jwks
   end, log_get url v).

Definition fetch_and_install (net : Net) (url : str) (v : OidcVerifier)
    : result unit TritonError * OidcVerifier :=
  let '(r, v) := fetch_jwks net url v in
  match r with
  | Err e => (Err e, v)
  | Ok jwks => (Ok (), install_keys jwks v)
  end.

Definition discovery_url (c : OidcConfig) : str :=
  trim_end_char "/" (issuer c) ++ §"/.well-known/openid-configuration".

Definition refresh_jwks (net : Net) (v : OidcVerifier) : result unit TritonError * OidcVerifier :=
  let c := config v in
  match jwks_url c with
  | Some url => fetch_and_install net url v
  | None =>
      let url := discovery_url c in
      let v := log_get url v in
      match get_discovery net url with
      | Unreachable e => (Err (Provider (§"OIDC discovery " ++ url ++ §": " ++ e)), v)
      | Undecodable e => (Err (Provider (§"OIDC discovery decode: " ++ e)), v)
      | Fetched doc =>
          let doc_iss := trim_end_char "/" (d_issuer doc) in
          let cfg_iss := trim_end_char "/" (issuer c) in
          if decide (doc_iss = cfg_iss) then fetch_and_install net (d_jwks_uri doc) v
          else (Err (Provider (§"OIDC discovery issuer " ++ doc_iss ++ §" != configured "
                                 ++ cfg_iss)), v)
      end
  end.

Definition unknown_key : TritonError := Auth §"unknown signing key".

(** The cache and rate-limit checks, made once before the lock is taken and
    once under it; [None] goes on. *)
Definition check_cache (kid : str) (now : Z) (v : OidcVerifier)
    : option (result DecodingKey TritonError) :=
  match keys v !! kid with
  | Some k => Some (Ok k)
  | None =>
      match last_refresh_per_kid v !! kid with
      | Some last =>
          if (Z.max 0 (now - last) <? refresh_interval (config v))%Z
          then Some (Err unknown_key) else None
      | None => None
      end
  end.

Definition begin_refresh (kid : str) (now : Z) (v : OidcVerifier) : OidcVerifier :=
  {| config := config v; keys := keys v;
     last_refresh_per_kid := <[kid := now]> (last_refresh_per_kid v); gets := gets v |}.

(** The rest of the lookup, with the lock held. *)
Definition finish_refresh (net : Net) (kid : str) (v : OidcVerifier)
    : result DecodingKey TritonError * OidcVerifier :=
  let '(r, v) := refresh_jwks net v in
  match r with
  | Err e => (Err e, v)
  | Ok _ => (ok_or (keys v !! kid) unknown_key, v)
  end.

(** The instants a lookup reads: at the check before the lock, at the check
    under it, and when the attempt is recorded. *)
Record LookupEnv := {
  t_fast : Z;
  t_locked : Z;
  t_start : Z;
  net : Net;
}.

Definition lookup_key (e : LookupEnv) (kid : str) (v : OidcVerifier)
    : result DecodingKey TritonError * OidcVerifier :=
  match check_cache kid (t_fast e) v with
  | Some r => (r, v)
  | None =>
      match check_cache kid (t_locked e) v with
      | Some r => (r, v)
      | None => finish_refresh (net e) kid (begin_refresh kid (t_start e) v)
      end
  end.

(** ** Verification *)

(** The issuer, tid and data tenant of a multi-tenant token; nothing of it is
    verified yet. *)
Definition entra_context (mt : EntraMultiTenant) (raw_token : str)
    : result (str * str * str) TritonError :=
  iss ←? ok_or (unverified_issuer raw_token) (Auth §"token has no readable iss");
  tid ←? ok_or (entra_tid_under (authority mt) iss)
           (Auth (§"issuer " ++ iss ++ §" is not a tenant-scoped Entra v2 issuer"));
  tenant ←? ok_or (tenant_map mt !! tid) (Auth (§"tid " ++ tid ++ §" is not allow-listed"));
  Ok (iss, tid, tenant).

Definition mt_context (c : OidcConfig) (raw_token : str)
    : result (option (str * str * str)) TritonError :=
  match multi_tenant_entra c with
  | Some mt => result_map Some (entra_context mt raw_token)
  | None => Ok None
  end.

Definition validation (c : OidcConfig) (alg : Algorithm) (mt_ctx : option (str * str * str))
    : JwtValidation :=
  {| v_alg := alg;
     v_issuer := [match mt_ctx with Some (iss, _, _) => iss | None => issuer c end];
     v_audience := [audience c];
     v_required := [§"exp"; §"iss"; §"aud"] |}.

Definition claim_tenant (mt_ctx : option (str * str * str)) (claims : TokenClaims)
    : result str TritonError :=
  match mt_ctx with
  | Some (_, tid, tenant) =>
      if decide (c_tid claims = Some tid) then Ok tenant
      else Err (Auth §"tid claim does not match the token issuer's tenant")
  | None => Ok (default §"-" (c_tenant claims))
  end.

Definition check_scopes (c : OidcConfig) (scopes : list str) : result unit TritonError :=
  match multi_tenant_entra c with
  | Some mt =>
      if negb (is_empty (required_scopes mt))
         && negb (existsb (λ s, bool_decide (s ∈ required_scopes mt)) scopes)
      then Err (Forbidden (§"insufficient_scope: the token carries none of the delegated scopes "
                             ++ join §" " (required_scopes mt)))
      else Ok ()
  | None => Ok ()
  end.

(** The provider facts of the resolved principal. *)
Definition token_idp (c : OidcConfig) (mt_ctx : option (str * str * str)) (claims : TokenClaims)
    : IdpIdentity :=
  let name := idp_name_of c in
  let tenant :=
    match mt_ctx with
    | Some (_, tid, _) => Some tid
    | None => if decide (name = §"entra") then c_tid claims
              else if decide (name = §"google") then c_hd claims else None
    end in
  let email :=
    if decide (name = §"entra") then
      match c_email claims with
      | Some e => Some e
      | None => match c_upn claims with Some u => Some u | None => c_preferred_username claims end
      end
    else c_email claims in
  let verified_issuer :=
    match mt_ctx with
    | Some (iss, _, _) => iss
    | None => trim_end_char "/" (issuer c)
    end in
  IdpIdentity_issuer (IdpIdentity_email (IdpIdentity_tenant (IdpIdentity_new name) tenant) email)
    verified_issuer.

(** What a call reads: the lookup's instants and documents, the unix second of
    the signature check, the trace id. *)
Record VerifyEnv := {
  at_lookup : LookupEnv;
  unix : Z;
  trace : str;
}.

(** The claims of a token whose key was found, as a principal. *)
Definition build_principal (e : VerifyEnv) (c : OidcConfig) (mt_ctx : option (str * str * str))
    (raw_token : str) (claims : TokenClaims) : result Principal TritonError :=
  tenant ←? claim_tenant mt_ctx claims;
  _ ←? check_scopes c (claim_scopes claims);
  Ok {| sub := c_sub claims; scopes := claim_scopes claims; groups := claim_groups claims;
        tenant := tenant; raw_token := raw_token; trace_id := trace e; sender_ref := None;
        conversation_ref := None; idp := Some (token_idp c mt_ctx claims) |}.

Definition verify (e : VerifyEnv) (raw_token : str) (v : OidcVerifier)
    : result Principal TritonError * OidcVerifier :=
  match decode_header raw_token with
  | Err m => (Err (Auth (§"invalid JWT header: " ++ m)), v)
  | Ok header =>
      if negb (bool_decide (h_alg header ∈ ALLOWED_ALGS)) then
        (Err (Auth (§"alg " ++ algorithm_debug (h_alg header)
                      ++ §" is not in the FR-I-3 allowlist")), v)
      else
        match mt_context (config v) raw_token with
        | Err err => (Err err, v)
        | Ok mt_ctx =>
            match h_kid header with
            | None => (Err (Auth §"JWT header missing kid"), v)
            | Some kid =>
                let '(r, v1) := lookup_key (at_lookup e) kid v in
                (key ←? r;
                 claims ←? result_map_err (λ m, Auth (§"JWT verification failed: " ++ m))
                   (decode (unix e) raw_token key (validation (config v) (h_alg header) mt_ctx));
                 build_principal e (config v) mt_ctx raw_token claims, v1)
            end
        end
  end.
End Verifier.

(** ** What is relied on of the token library *)

(** The claim is one of the listed values, or an array that holds one. *)
Definition claim_in (k : str) (l : list str) (v : Value) : Prop :=
  match value_get k v with
  | Some (Value.String s) => s ∈ l
  | Some (Value.Array xs) => ∃ s, Value.String s ∈ xs ∧ s ∈ l
  | _ => False
  end.

Class JwtLaws `{SerdeJson, Jwt} := {
  (** the signature of a token verifies under a key and an algorithm *)
  signed : DecodingKey → Algorithm → str → Prop;
  (** the expiry claim, in unix seconds *)
  exp_of : Value → option Z;
  (** [decode] checks the signature, the required issuer and audience, and the
      expiry with its default leeway of a minute, and decodes the payload *)
  decode_sound now token key va claims :
    decode now token key va = Ok claims →
    signed key (v_alg va) token
    ∧ ∃ body, payload token = Some body ∧ claims_of_value body = Some claims
        ∧ claim_in §"iss" (v_issuer va) body ∧ claim_in §"aud" (v_audience va) body
        ∧ ∃ t, exp_of body = Some t ∧ (now - 60 ≤ t)%Z;
}.

Section VerifierFacts.
Context `{SerdeJson, Jwt}.

Lemma check_cache_Ok kid now v k : check_cache kid now v = Some (Ok k) → keys v !! kid = Some k.
Proof.
  unfold check_cache. destruct (keys v !! kid), (last_refresh_per_kid v !! kid);
    try case_if; congruence.
Qed.

Lemma fetch_and_install_cases net url v :
  let '(r, v') := fetch_and_install net url v in
  config v' = config v ∧ last_refresh_per_kid v' = last_refresh_per_kid v
  ∧ gets v' = gets v ++ [url]
  ∧ match r with
    | Ok _ => ∃ jwks, get_jwks net url = Fetched jwks ∧ keys v' = installed jwks
    | Err _ => keys v' = keys v
    end.
Proof.
  unfold fetch_and_install, fetch_jwks. destruct (get_jwks net url); cbn; naive_solver.
Qed.

(** The JWKS location a refresh may use: the pinned one, or the one named by a
    discovery document of the configured issuer. *)
Definition trusted_location (net : Net) (c : OidcConfig) (url : str) : Prop :=
  match jwks_url c with
  | Some u => url = u
  | None => ∃ doc, get_discovery net (discovery_url c) = Fetched doc
      ∧ trim_end_char "/" (d_issuer doc) = trim_end_char "/" (issuer c) ∧ url = d_jwks_uri doc
  end.

Lemma refresh_jwks_cases net v :
  let '(r, v') := refresh_jwks net v in
  config v' = config v ∧ last_refresh_per_kid v' = last_refresh_per_kid v
  ∧ match r with
    | Ok _ => ∃ url jwks, trusted_location net (config v) url
        ∧ get_jwks net url = Fetched jwks ∧ keys v' = installed jwks
    | Err _ => keys v' = keys v
    end.
Proof.
  unfold refresh_jwks, trusted_location.
  destruct (jwks_url (config v)) as [url|].
  - pose proof (fetch_and_install_cases net url v) as Hf.
    destruct (fetch_and_install net url v) as [[?|?] v']; naive_solver.
  - destruct (get_discovery net (discovery_url (config v))) as [| |doc] eqn:Hd; [naive_solver..|].
    case_decide as E; [|naive_solver].
    pose proof (fetch_and_install_cases net (d_jwks_uri doc) (log_get (discovery_url (config v)) v))
      as Hf.
    destruct (fetch_and_install _ _ _) as [[?|?] v']; cbn in Hf; naive_solver.
Qed.

Lemma lookup_key_Ok e kid v k v' :
  lookup_key e kid v = (Ok k, v') → keys v' !! kid = Some k ∧ config v' = config v.
Proof.
  unfold lookup_key, finish_refresh. intros Hl.
  destruct (check_cache kid (t_fast e) v) as [r|] eqn:H1; simplify_eq.
  { split; [by eapply check_cache_Ok|done]. }
  destruct (check_cache kid (t_locked e) v) as [r|] eqn:H2; simplify_eq.
  { split; [by eapply check_cache_Ok|done]. }
  pose proof (refresh_jwks_cases (net e) (begin_refresh kid (t_start e) v)) as Hr.
  destruct (refresh_jwks _ _) as [[?|?] v1]; simplify_eq.
  destruct Hr as (? & ? & _). destruct (keys v' !! kid) eqn:Hk; cbn in *; naive_solver.
Qed.

(** How a successful verification went. *)
Lemma verify_Ok e tok v p v' :
  verify e tok v = (Ok p, v') →
  ∃ h kid key claims mt_ctx,
    decode_header tok = Ok h ∧ h_alg h ∈ ALLOWED_ALGS ∧ h_kid h = Some kid
    ∧ mt_context (config v) tok = Ok mt_ctx
    ∧ keys v' !! kid = Some key
    ∧ decode (unix e) tok key (validation (config v) (h_alg h) mt_ctx) = Ok claims
    ∧ build_principal e (config v) mt_ctx tok claims = Ok p.
Proof.
  unfold verify. intros Hv.
  destruct (decode_header tok) as [h|] eqn:Hh; [|done].
  destruct (bool_decide (h_alg h ∈ ALLOWED_ALGS)) eqn:Ha; [|done]. cbn in Hv. bool_facts.
  destruct (mt_context (config v) tok) as [ctx|] eqn:Hm; [|done].
  destruct (h_kid h) as [kid|] eqn:Hk; [|done].
  destruct (lookup_key (at_lookup e) kid v) as [[key|] v1] eqn:Hl; [|done]. cbn in Hv.
  apply lookup_key_Ok in Hl as [? _].
  destruct (decode _ tok key _) as [claims|] eqn:Hd; [|done]. cbn in Hv.
  injection Hv as Hb <-. by exists h, kid, key, claims, ctx.
Qed.

Lemma build_principal_Ok e c ctx tok claims p :
  build_principal e c ctx tok claims = Ok p →
  claim_tenant ctx claims = Ok (tenant p) ∧ check_scopes c (scopes p) = Ok ()
  ∧ sub p = c_sub claims ∧ scopes p = claim_scopes claims ∧ groups p = claim_groups claims
  ∧ raw_token p = tok ∧ idp p = Some (token_idp c ctx claims).
Proof.
  unfold build_principal. destruct (claim_tenant ctx claims) as [t|]; [|done]. cbn.
  destruct (check_scopes c _) as [[]|] eqn:Hs; [|done]. cbn. intros [= <-]. by cbn.
Qed.

Lemma entra_context_Ok mt tok iss tid t :
  entra_context mt tok = Ok (iss, tid, t) ↔
  unverified_issuer tok = Some iss ∧ entra_tid_under (authority mt) iss = Some tid
  ∧ tenant_map mt !! tid = Some t.
Proof.
  unfold entra_context. destruct (unverified_issuer tok) as [i|]; [|naive_solver]. cbn.
  destruct (entra_tid_under (authority mt) i) as [d|] eqn:Hd; [|naive_solver]. cbn.
  destruct (tenant_map mt !! d) eqn:Hm; cbn; naive_solver.
Qed.

Lemma check_scopes_Ok c ss mt :
  multi_tenant_entra c = Some mt → check_scopes c ss = Ok () →
  required_scopes mt = [] ∨ ∃ s, s ∈ ss ∧ s ∈ required_scopes mt.
Proof.
  intros Hc. unfold check_scopes. rewrite Hc.
  destruct (is_empty (required_scopes mt)) eqn:He; cbn.
  { intros _. left. by destruct (required_scopes mt). }
  destruct (existsb _ ss) eqn:Hs; [|done]. intros _. right.
  apply existsb_exists in Hs as (s & Hin%list_elem_of_In & ?). bool_facts. eauto.
Qed.

(** The tenant a verified token stands for. *)
Definition tenant_of_token (c : OidcConfig) (body : Value) (claims : TokenClaims) (t : str)
    : Prop :=
  match multi_tenant_entra c with
  | None => claim_in §"iss" [issuer c] body ∧ t = default §"-" (c_tenant claims)
  | Some mt => ∃ iss tid,
      get_str §"iss" body = Some iss ∧ entra_tid_under (authority mt) iss = Some tid
      ∧ tenant_map mt !! tid = Some t ∧ c_tid claims = Some tid
      ∧ (required_scopes mt = [] ∨ ∃ s, s ∈ claim_scopes claims ∧ s ∈ required_scopes mt)
  end.
End VerifierFacts.

(** C5: a principal comes out of a bearer token only if the token is genuine and
    meant for this gateway.  Its algorithm is on the allow-list, its signature
    verifies under the key the cache holds for its key id, its audience is the
    configured one, it has not expired (up to the leeway of a minute), and the
    principal's fields are its claims.  An ordinary verifier has pinned the
    issuer, and the tenant is the token's; a multi-tenant Entra verifier has
    found the token's own issuer to be a tenant of its authority that is
    allow-listed, the [tid] claim to be that tenant, one of the delegated scopes
    where some are required, and the tenant is the one the list maps it to. *)
Theorem verified_token_sound `{JwtLaws} e tok v p v' :
  verify e tok v = (Ok p, v') →
  ∃ h kid key body claims,
    decode_header tok = Ok h ∧ h_alg h ∈ ALLOWED_ALGS ∧ h_kid h = Some kid
    ∧ keys v' !! kid = Some key ∧ signed key (h_alg h) tok
    ∧ payload tok = Some body ∧ claims_of_value body = Some claims
    ∧ claim_in §"aud" [audience (config v)] body
    ∧ (∃ t, exp_of body = Some t ∧ unix e - 60 ≤ t)%Z
    ∧ tenant_of_token (config v) body claims (tenant p)
    ∧ sub p = c_sub claims ∧ scopes p = claim_scopes claims ∧ groups p = claim_groups claims
    ∧ raw_token p = tok.
Proof.
  intros (h & kid & key & claims & ctx & Hh & Ha & Hk & Hm & Hkey & Hd & Hb)%verify_Ok.
  apply decode_sound in Hd as (Hs & body & Hp & Hc & Hiss & Haud & Hexp).
  apply build_principal_Ok in Hb as (Ht & Hsc & ? & Hps & ? & ? & _).
  exists h, kid, key, body, claims. repeat split_and!; try done.
  unfold tenant_of_token. unfold mt_context in Hm.
  destruct (multi_tenant_entra (config v)) as [mt|] eqn:Hmt.
  - destruct (entra_context mt tok) as [[[iss tid] t]|] eqn:Hctx; [|done]. simplify_eq/=.
    apply entra_context_Ok in Hctx as (Hu & Htid & Hmap).
    unfold unverified_issuer in Hu. rewrite Hp in Hu. cbn in Hu.
    case_decide; simplify_eq. exists iss, tid. repeat split_and!; try done.
    rewrite <- Hps. by eapply check_scopes_Ok.
  - by simplify_eq/=.
Qed.

(** A token of a customer that is not allow-listed is refused before
    anything is done on its behalf.  In multi-tenant mode, when the token has no
    readable issuer, an issuer that is not a tenant of the authority, or a
    tenant that is not on the list, verification fails as an authentication
    error and leaves the verifier as it was: no document is requested and no
    refresh attempt is recorded. *)
Theorem unlisted_tenant_costs_nothing `{SerdeJson, Jwt} e tok v mt :
  multi_tenant_entra (config v) = Some mt →
  (∀ iss tid, unverified_issuer tok = Some iss → entra_tid_under (authority mt) iss = Some tid →
     tenant_map mt !! tid = None) →
  ∃ m, verify e tok v = (Err (Auth m), v).
Proof.
  intros Hmt Hno. unfold verify, mt_context. rewrite Hmt.
  destruct (decode_header tok) as [h|]; [|eauto].
  destruct (negb _); [eauto|].
  assert (∃ m, entra_context mt tok = Err (Auth m)) as [m ->]; [|eauto].
  unfold entra_context. destruct (unverified_issuer tok) as [iss|]; cbn; [|eauto].
  destruct (entra_tid_under (authority mt) iss) as [tid|] eqn:Ht; cbn; [|eauto].
  rewrite (Hno iss tid) by done. cbn. eauto.
Qed.

(** ** Concurrent lookups

    [lookup_key] runs on many tasks at once.  Between the first check and the
    lock others may refresh; under the lock only the holder writes.  [starts]
    records the refreshes that were begun. *)

Section Concurrent.
Context `{SerdeJson, Jwt}.

Inductive Phase :=
  | Entering (kid : str)
  | Queued (kid : str)
  | Fetching (kid : str)
  | Finished (r : result DecodingKey TritonError).

Record Pool := {
  now : Z;
  verifier : OidcVerifier;
  threads : gmap nat Phase;
  starts : list (str * Z);
}.

Definition pool_new (c : OidcConfig) (t : Z) : Pool :=
  {| now := t; verifier := OidcVerifier_new c; threads := ∅; starts := [] |}.

Definition lock_free (p : Pool) : Prop := ∀ i kid, threads p !! i ≠ Some (Fetching kid).

Definition set_thread (i : nat) (ph : Phase) (p : Pool) : Pool :=
  {| now := now p; verifier := verifier p; threads := <[i := ph]> (threads p);
     starts := starts p |}.

Definition at_time (t : Z) (p : Pool) : Pool :=
  {| now := t; verifier := verifier p; threads := threads p; starts := starts p |}.

Inductive step : Pool → Pool → Prop :=
  | step_time p t : (now p ≤ t)%Z → step p (at_time t p)
  | step_arrive p i kid : threads p !! i = None → step p (set_thread i (Entering kid) p)
  | step_enter p i kid :
      threads p !! i = Some (Entering kid) →
      step p (set_thread i match check_cache kid (now p) (verifier p) with
                           | Some r => Finished r
                           | None => Queued kid
                           end p)
  | step_locked p i kid r :
      threads p !! i = Some (Queued kid) → lock_free p →
      check_cache kid (now p) (verifier p) = Some r →
      step p (set_thread i (Finished r) p)
  | step_begin p i kid t :
      threads p !! i = Some (Queued kid) → lock_free p →
      check_cache kid (now p) (verifier p) = None → (now p ≤ t)%Z →
      step p {| now := t; verifier := begin_refresh kid t (verifier p);
                threads := <[i := Fetching kid]> (threads p); starts := starts p ++ [(kid, t)] |}
  | step_fetched p i kid net :
      threads p !! i = Some (Fetching kid) →
      step p {| now := now p; verifier := (finish_refresh net kid (verifier p)).2;
                threads := <[i := Finished (finish_refresh net kid (verifier p)).1]> (threads p);
                starts := starts p |}.

Definition fetching (p : Pool) (i : nat) : Prop := ∃ kid, threads p !! i = Some (Fetching kid).

(** Two refreshes for one key id are an interval apart. *)
Definition spaced (interval : Z) (l : list (str * Z)) : Prop :=
  ∀ a b kid ta tb, (a < b)%nat → l !! a = Some (kid, ta) → l !! b = Some (kid, tb) →
    (interval ≤ tb - ta)%Z.

Record pool_ok (c : OidcConfig) (p : Pool) : Prop := {
  ok_config : config (verifier p) = c;
  ok_single i j : fetching p i → fetching p j → i = j;
  ok_last kid t : last_refresh_per_kid (verifier p) !! kid = Some t → (t ≤ now p)%Z;
  ok_starts kid t : (kid, t) ∈ starts p →
    ∃ l, last_refresh_per_kid (verifier p) !! kid = Some l ∧ (t ≤ l)%Z;
  ok_spaced : spaced (refresh_interval c) (starts p);
  ok_gets : (length (gets (verifier p)) ≤ 2 * length (starts p))%nat;
  ok_gets_open i : fetching p i → (length (gets (verifier p)) + 2 ≤ 2 * length (starts p))%nat;
}.

Lemma finish_refresh_cases net kid v :
  let v' := (finish_refresh net kid v).2 in
  config v' = config v ∧ last_refresh_per_kid v' = last_refresh_per_kid v
  ∧ (length (gets v') ≤ length (gets v) + 2)%nat.
Proof.
  unfold finish_refresh. pose proof (refresh_jwks_cases net v) as Hr.
  assert (length (gets (refresh_jwks net v).2) ≤ length (gets v) + 2)%nat as Hg.
  { unfold refresh_jwks, fetch_and_install, fetch_jwks.
    repeat case_match; cbn; simplify_eq/=; rewrite ?length_app; cbn; lia. }
  destruct (refresh_jwks net v) as [[?|?] v']; naive_solver.
Qed.

Lemma spaced_snoc n l kid t :
  spaced n l → (∀ t', (kid, t') ∈ l → (n ≤ t - t')%Z) → spaced n (l ++ [(kid, t)]).
Proof.
  intros Hl Hn a b k ta tb Hab Ha Hb.
  assert (b < length (l ++ [(kid, t)]))%nat as Hlt by by eapply lookup_lt_Some.
  rewrite length_app in Hlt. cbn in Hlt.
  rewrite lookup_app_l in Ha by lia.
  destruct (decide (b < length l)%nat).
  - rewrite lookup_app_l in Hb by lia. by eapply (Hl a b).
  - replace b with (length l + 0)%nat in Hb by lia.
    rewrite lookup_app_r, Nat.add_comm, Nat.add_sub in Hb by lia. simplify_eq/=.
    apply Hn. by eapply list_elem_of_lookup_2.
Qed.

(** Changing the phase of a task to one that does not fetch. *)
Lemma fetching_insert p i ph j :
  (∀ kid, ph ≠ Fetching kid) → fetching (set_thread i ph p) j → fetching p j.
Proof.
  intros Hph [kid Hj]. cbn in Hj. exists kid.
  destruct (decide (i = j)) as [->|]; [rewrite lookup_insert_eq in Hj; naive_solver|].
  by rewrite lookup_insert_ne in Hj.
Qed.

Lemma set_thread_ok c p i ph :
  (∀ kid, ph ≠ Fetching kid) → pool_ok c p → pool_ok c (set_thread i ph p).
Proof. intros Hph []. constructor; cbn; eauto using fetching_insert. Qed.

Lemma begin_ok c p i kid t :
  lock_free p → check_cache kid (now p) (verifier p) = None → (now p ≤ t)%Z → pool_ok c p →
  pool_ok c {| now := t; verifier := begin_refresh kid t (verifier p);
               threads := <[i := Fetching kid]> (threads p); starts := starts p ++ [(kid, t)] |}.
Proof.
  intros Hfree Hcheck Ht [Hc _ Hlast Hstarts Hsp Hg _].
  assert (∀ j k, <[i := Fetching kid]> (threads p) !! j = Some (Fetching k) → j = i) as Hi.
  { intros j k Hj. destruct (decide (i = j)) as [|E]; [done|].
    rewrite lookup_insert_ne in Hj by done. by destruct (Hfree j k). }
  constructor; cbn; rewrite ?length_app; cbn.
  - done.
  - intros a b [? Ha%Hi] [? Hb%Hi]. congruence.
  - intros k t'. destruct (decide (k = kid)) as [->|].
    + rewrite lookup_insert_eq. intros [= <-]. lia.
    + rewrite lookup_insert_ne by done. intros Hl%Hlast. lia.
  - intros k t' [Hin|Hin%list_elem_of_singleton]%elem_of_app.
    + apply Hstarts in Hin as (l & Hl & ?). destruct (decide (k = kid)) as [->|].
      * apply Hlast in Hl. exists t. rewrite lookup_insert_eq. split; [done|lia].
      * exists l. by rewrite lookup_insert_ne.
    + simplify_eq. exists t. rewrite lookup_insert_eq. split; [done|lia].
  - apply spaced_snoc; [done|]. intros t' Hin.
    apply Hstarts in Hin as (l & Hl & ?). pose proof (Hlast _ _ Hl).
    unfold check_cache in Hcheck. destruct (keys (verifier p) !! kid); [done|].
    rewrite Hl in Hcheck. case_if; [done|]. bool_facts. rewrite Hc in *. lia.
  - lia.
  - intros _ _. lia.
Qed.

Lemma fetched_ok c p i kid net :
  threads p !! i = Some (Fetching kid) → pool_ok c p →
  pool_ok c {| now := now p; verifier := (finish_refresh net kid (verifier p)).2;
               threads := <[i := Finished (finish_refresh net kid (verifier p)).1]> (threads p);
               starts := starts p |}.
Proof.
  intros Hi [Hc Hsingle Hlast Hstarts Hsp Hg Hopen].
  pose proof (finish_refresh_cases net kid (verifier p)) as (Hc' & Hl' & Hg').
  assert (fetching p i) as Hfi by by exists kid.
  assert (∀ j, fetching (set_thread i (Finished (finish_refresh net kid (verifier p)).1) p) j →
            False) as Hnone.
  { intros j Hj. assert (fetching p j) as Hfj by (by eapply fetching_insert; [|exact Hj]).
    pose proof (Hsingle i j Hfi Hfj) as <-. destruct Hj as [k Hk]. cbn in Hk. by rewrite lookup_insert_eq in Hk. }
  constructor; cbn; rewrite ?Hc', ?Hl'; try done.
  - intros a b Ha _. by destruct (Hnone a).
  - specialize (Hopen i Hfi). lia.
  - intros j Hj. by destruct (Hnone j).
Qed.

Lemma step_ok c p p' : step p p' → pool_ok c p → pool_ok c p'.
Proof.
  intros Hs Hp. destruct Hs as [p t Ht|p i kid Hi|p i kid Hi|p i kid r Hi Hf Hr
    |p i kid t Hi Hf Hr Ht|p i kid net Hi].
  - destruct Hp. constructor; cbn; try done. intros k t' Hl%ok_last0. lia.
  - by apply set_thread_ok.
  - apply set_thread_ok; [|done]. by case_match.
  - by apply set_thread_ok.
  - by apply begin_ok.
  - by apply fetched_ok.
Qed.

Lemma reachable_ok c t p : rtc step (pool_new c t) p → pool_ok c p.
Proof.
  assert (pool_ok c (pool_new c t)) as Hinit.
  { constructor; cbn; [done|by intros ? ? [? ?]|done|intros ? ? []%not_elem_of_nil|done|lia|].
    by intros ? [? ?]. }
  intros Hr. induction Hr as [|x y z Hs _ IH]; [done|]. by apply IH, (step_ok _ x).
Qed.

(** The sequential reading of a lookup is one of its schedules. *)
Lemma lookup_key_is_a_run e kid i p :
  threads p !! i = Some (Entering kid) → lock_free p →
  (now p ≤ t_fast e ≤ t_locked e)%Z → (t_locked e ≤ t_start e)%Z →
  ∃ p', rtc step p p'
    ∧ threads p' !! i = Some (Finished (lookup_key e kid (verifier p)).1)
    ∧ verifier p' = (lookup_key e kid (verifier p)).2.
Proof.
  intros Hi Hf [H1 H2] H3. unfold lookup_key.
  destruct (check_cache kid (t_fast e) (verifier p)) as [r|] eqn:Hc1.
  { exists (set_thread i (Finished r) (at_time (t_fast e) p)). split.
    - eapply rtc_l; [by apply (step_time p (t_fast e))|]. apply rtc_once.
      pose proof (step_enter (at_time (t_fast e) p) i kid Hi) as Hs. cbn in Hs.
      by rewrite Hc1 in Hs.
    - cbn. by rewrite lookup_insert_eq. }
  set (p1 := at_time (t_locked e) (set_thread i (Queued kid) (at_time (t_fast e) p))).
  assert (rtc step p p1) as Hp1.
  { eapply rtc_l; [by apply (step_time p (t_fast e))|].
    eapply rtc_l; [|apply rtc_once; by apply step_time].
    pose proof (step_enter (at_time (t_fast e) p) i kid Hi) as Hs. cbn in Hs.
    by rewrite Hc1 in Hs. }
  assert (lock_free p1) as Hf1.
  { intros j k. unfold p1. cbn. destruct (decide (i = j)) as [->|]; [by rewrite lookup_insert_eq|].
    rewrite lookup_insert_ne by done. apply Hf. }
  assert (threads p1 !! i = Some (Queued kid)) as Hi1 by (cbn; apply lookup_insert_eq).
  destruct (check_cache kid (t_locked e) (verifier p)) as [r|] eqn:Hc2.
  { exists (set_thread i (Finished r) p1). split.
    - eapply rtc_r; [exact Hp1|]. by eapply step_locked.
    - cbn. by rewrite lookup_insert_eq. }
  eexists. split.
  - eapply rtc_r; [eapply rtc_r; [exact Hp1|by apply (step_begin p1 i kid (t_start e))]|].
    apply (step_fetched _ i kid (net e)). cbn. apply lookup_insert_eq.
  - cbn. by rewrite lookup_insert_eq.
Qed.
End Concurrent.

(** C26: key refreshes are single-flight and rate-limited, however many lookups
    run at once and however they interleave.  At any moment at most one task is
    fetching keys; two refreshes begun for the same key id are at least the
    refresh interval apart; and the documents requested are at most two for
    each refresh begun. *)
Theorem refreshes_single_flight_and_spaced `{SerdeJson, Jwt} c t p :
  rtc step (pool_new c t) p →
  (∀ i j, fetching p i → fetching p j → i = j)
  ∧ spaced (refresh_interval c) (starts p)
  ∧ (length (gets (verifier p)) ≤ 2 * length (starts p))%nat.
Proof. intros [? ? ? ? ? ? ?]%reachable_ok. done. Qed.

(** ** Where the verifier differs from what it says *)

(** A configured issuer with a trailing slash is offered the tokens of the
    issuer without it ([accepts_issuer]), and refuses each of them: the pinned
    issuer is compared as written. *)
Theorem slashed_issuer_refuses_what_it_accepts `{JwtLaws} e tok v iss body :
  multi_tenant_entra (config v) = None → issuer (config v) = iss ++ §"/" →
  issuer (config v) ≠ ENTRA_MULTI_TENANT_ISSUER →
  payload tok = Some body → get_str §"iss" body = Some iss →
  accepts_issuer (config v) iss = true ∧ ∀ p v', verify e tok v ≠ (Ok p, v').
Proof.
  intros Hmt Hiss Hne Hp Hb. split.
  - unfold accepts_issuer, issuer_matches. rewrite Hmt, decide_False by done.
    apply bool_decide_eq_true. rewrite Hiss. unfold trim_end_char.
    rewrite rev_app_distr. cbn. by rewrite decide_True.
  - intros p v' (h & kid & key & claims & ctx & _ & _ & _ & Hm & _ & Hd & _)%verify_Ok.
    apply decode_sound in Hd as (_ & body' & Hp' & _ & Hin & _).
    unfold mt_context in Hm. rewrite Hmt in Hm. injection Hm as <-.
    rewrite Hp in Hp'. injection Hp' as <-.
    change (claim_in §"iss" [issuer (config v)] body) in Hin. unfold claim_in, get_str in *.
    destruct (value_get §"iss" body) as [[]|]; try done. cbn in Hb. injection Hb as ->.
    apply list_elem_of_singleton in Hin. rewrite Hiss in Hin.
    apply (f_equal length) in Hin. rewrite length_app in Hin. cbn in Hin. lia.
Qed.

(** A task that asks for a key while another is fetching it is refused: the
    attempt is recorded before the document arrives. *)
Theorem lookup_during_refresh_refused `{SerdeJson, Jwt} p i j kid :
  pool_ok (config (verifier p)) p → (0 < refresh_interval (config (verifier p)))%Z →
  threads p !! i = Some (Queued kid) → lock_free p →
  check_cache kid (now p) (verifier p) = None → threads p !! j = Some (Entering kid) →
  ∃ p', rtc step p p' ∧ threads p' !! i = Some (Fetching kid)
    ∧ threads p' !! j = Some (Finished (Err unknown_key)).
Proof.
  intros _ Hpos Hi Hf Hc Hj. assert (i ≠ j) as Hij by congruence.
  eexists. split; [|split].
  - eapply rtc_l; [by apply (step_begin p i kid (now p))|]. apply rtc_once.
    apply (step_enter _ j kid). cbn. by rewrite lookup_insert_ne.
  - cbn. by rewrite lookup_insert_ne, lookup_insert_eq.
  - cbn. rewrite lookup_insert_eq. do 2 f_equal. unfold check_cache in *. cbn in *.
    destruct (keys (verifier p) !! kid); [done|]. rewrite lookup_insert_eq, Z.sub_diag, Z.max_id.
    apply Z.ltb_lt in Hpos. by rewrite Hpos.
Qed.

(** The refresh attempts are never forgotten: each unknown key id an
    unauthenticated caller puts in a token header adds an entry. *)
Theorem unknown_kids_accumulate `{SerdeJson, Jwt} e kid v :
  keys v !! kid = None → last_refresh_per_kid v !! kid = None →
  size (last_refresh_per_kid (lookup_key e kid v).2) = S (size (last_refresh_per_kid v)).
Proof.
  intros Hk Hl. unfold lookup_key, check_cache. rewrite Hk, Hl.
  pose proof (finish_refresh_cases (net e) kid (begin_refresh kid (t_start e) v)) as (_ & -> & _).
  cbn. by rewrite map_size_insert_None.
Qed.

(** ** Instances *)

(** A library that knows one token, signed under the key 7. *)
Definition demo_token : str := §"header.body.signature".
Definition demo_tid : str := §"0a1b2c3d-0000-1111-2222-0123456789ab".
Definition demo_iss : str := ENTRA_AUTHORITY ++ §"/" ++ demo_tid ++ §"/v2.0".
Definition demo_body : Value :=
  json_object [(§"iss", Value.String demo_iss); (§"aud", Value.String §"gateway");
               (§"sub", Value.String §"alice"); (§"tid", Value.String demo_tid);
               (§"scp", Value.String §"access_as_user outbound:send");
               (§"exp", Value.Number (Value.Int 2000))].
Definition demo_claims : option TokenClaims := Eval vm_compute in claims_of_value demo_body.

Definition demo_json : SerdeJson := {|
  json_to_string _ := §"body";
  json_from_str s := if decide (s = §"body") then Some demo_body else None;
|}.

Definition demo_jwt : Jwt := {|
  DecodingKey := nat;
  Jwk := str * nat;
  jwk_key_id j := Some j.1;
  key_from_jwk j := Some j.2;
  decode_header t := if decide (t = demo_token) then Ok {| h_alg := RS256; h_kid := Some §"k1" |}
                     else Err §"no header";
  decode now t key va :=
    match demo_claims with
    | Some claims =>
        if bool_decide (t = demo_token) && (key =? 7)%nat && bool_decide (v_alg va = RS256)
           && bool_decide (demo_iss ∈ v_issuer va) && bool_decide (§"gateway" ∈ v_audience va)
           && (now - 60 <=? 2000)%Z
        then Ok claims else Err §"refused"
    | None => Err §"refused"
    end;
  b64url s := Some s;
|}.

#[local] Existing Instance demo_json.
#[local] Existing Instance demo_jwt.

Definition demo_laws : JwtLaws (H := demo_json) (H0 := demo_jwt).
Proof.
  refine {| signed key a t := key = (7%nat : @DecodingKey demo_jwt) ∧ a = RS256 ∧ t = demo_token;
            exp_of v := match value_get §"exp" v with
                        | Some (Value.Number (Value.Int z)) => Some z | _ => None end |}.
  intros now token key va claims Hd. cbn in Hd. unfold demo_claims in Hd. case_if; [|done].
  bool_facts. simplify_eq/=. split; [done|].
  exists demo_body. split; [by vm_compute|]. split; [by vm_compute|].
  split; [done|]. split; [done|]. exists 2000%Z. by split.
Defined.

Definition demo_verifier : OidcVerifier :=
  OidcVerifier_new (with_required_scopes [§"access_as_user"]
    (entra_multi_tenant §"gateway" [(demo_tid, §"acme")])).
Definition demo_net : Net :=
  {| get_discovery _ := Unreachable §"unused"; get_jwks _ := Fetched [(§"k1", 7%nat)] |}.
Definition demo_env : VerifyEnv :=
  {| at_lookup := {| t_fast := 1; t_locked := 2; t_start := 3; net := demo_net |};
     unix := 1990; trace := §"t" |}.
Definition demo_verified : result Principal TritonError * OidcVerifier :=
  Eval vm_compute in verify demo_env demo_token demo_verifier.

Lemma verified_token_sound_witness :
  ∃ p v', verify demo_env demo_token demo_verifier = (Ok p, v') ∧ tenant p = §"acme"
    ∧ ∃ key, keys v' !! §"k1" = Some key.
Proof.
  destruct demo_verified as [[p|err] v'] eqn:E; [|discriminate E].
  assert (verify demo_env demo_token demo_verifier = (Ok p, v')) as Hv.
  { etransitivity; [|exact E]. vm_compute. reflexivity. }
  exists p, v'. split; [exact Hv|]. split; [injection E as <- <-; reflexivity|].
  destruct (@verified_token_sound _ _ demo_laws demo_env demo_token demo_verifier p v' Hv)
    as (h & kid & key & body & claims & Hh & _ & Hk & Hkey & _).
  exists key. revert Hkey. injection Hh as <-. injection Hk as <-. intros Hkey. exact Hkey.
Defined.

Definition bare_verifier : OidcVerifier := OidcVerifier_new (entra_multi_tenant §"gateway" []).

Lemma unlisted_tenant_costs_nothing_witness :
  ∃ m, verify demo_env demo_token bare_verifier = (Err (Auth m), bare_verifier).
Proof.
  apply (unlisted_tenant_costs_nothing demo_env demo_token bare_verifier
           {| tenant_map := ∅; authority := ENTRA_AUTHORITY; required_scopes := [] |}).
  - vm_compute. reflexivity.
  - intros iss tid _ _. vm_compute. reflexivity.
Defined.

Lemma refreshes_single_flight_and_spaced_witness :
  ∃ p, rtc step (pool_new (config demo_verifier) 0) p ∧ fetching p 0
    ∧ spaced (refresh_interval (config demo_verifier)) (starts p).
Proof.
  destruct (lookup_during_refresh_refused
    {| now := 0; verifier := demo_verifier;
       threads := <[0%nat := Queued §"k1"]> (<[1%nat := Entering §"k1"]> ∅); starts := [] |}
    0 1 §"k1") as (p & Hp & H0 & _).
  - apply (reachable_ok _ 0). eapply rtc_l; [apply (step_arrive _ 0 §"k1"); reflexivity|].
    eapply rtc_l; [apply (step_enter _ 0 §"k1"); reflexivity|].
    eapply rtc_l; [apply (step_arrive _ 1 §"k1"); reflexivity|].
    apply eq_subrelation; [apply _|]. reflexivity.
  - vm_compute. reflexivity.
  - reflexivity.
  - intros [|[|i]] kid; cbn [threads]; [discriminate..|].
    rewrite !lookup_insert_ne by lia. rewrite lookup_empty. discriminate.
  - reflexivity.
  - reflexivity.
  - assert (rtc step (pool_new (config demo_verifier) 0) p) as Hr.
    { eapply rtc_l; [apply (step_arrive _ 0 §"k1"); reflexivity|].
      eapply rtc_l; [apply (step_enter _ 0 §"k1"); reflexivity|].
      eapply rtc_l; [apply (step_arrive _ 1 §"k1"); reflexivity|]. exact Hp. }
    exists p. split; [exact Hr|]. split; [by exists §"k1"|].
    apply (refreshes_single_flight_and_spaced (config demo_verifier) 0 p Hr).
Defined.
