(* ===== verification/GoogleToken.v ===== *)
(** * GoogleToken: introspection of opaque Google access tokens
    (crates/triton-identity/src/lib.rs, [GoogleAccessTokenVerifier])

    The two HTTP answers are inputs of a call, with the instants and the unix
    second it reads; SHA-256 is a parameter.  [requests] lists the questions a
    verifier has asked.  Calls are taken one after another. *)

From Stdlib Require Import SpecFloat.
From S2P Require Import Prelude F64 Json Errors Principal.

Definition GOOGLE_TOKENINFO_URL : str := §"https://oauth2.googleapis.com/tokeninfo".
Definition GOOGLE_USERINFO_URL : str := §"https://openidconnect.googleapis.com/v1/userinfo".
Definition GOOGLE_HD_CACHE_CAP : nat := 1024.

Record GoogleTokenInfo := {
  ti_aud : option str;
  ti_email : option str;
  ti_email_verified : option Value;
  ti_exp : option Value;
  ti_scope : option str;
  ti_hd : option str;
  ti_sub : option str;
}.

Record GoogleUserInfo := { ui_sub : option str; ui_email : option str; ui_hd : option str }.

Inductive UserInfoHd := Domain (d : str) | NoDomain.

(** [h.map(str::trim).filter(|h| !h.is_empty())] *)
Definition trimmed_hd (hd : option str) : option str :=
  h ← hd; if is_empty (trim h) then None else Some (trim h).

Definition check_google_userinfo (info : GoogleTokenInfo) (ui : GoogleUserInfo)
    : result UserInfoHd TritonError :=
  let same_email :=
    match ti_email info, ui_email ui with
    | Some a, Some b => negb (is_empty a) && eq_ignore_ascii_case a b
    | _, _ => false
    end in
  let sub_conflict :=
    match ti_sub info, ui_sub ui with
    | Some a, Some b => negb (bool_decide (a = b))
    | _, _ => false
    end in
  if negb same_email || sub_conflict
  then Err (Auth §"google access token identity mismatch")
  else Ok match trimmed_hd (ui_hd ui) with
          | Some h => Domain (to_ascii_lowercase h)
          | None => NoDomain
          end.

(** ** The hosted-domain cache *)

Record HdCacheEntry := { e_hd : UserInfoHd; e_expires : Z; e_last_used : Z }.
Record HdCache := { entries : gmap str HdCacheEntry; tick : Z }.

Definition HdCache_default : HdCache := {| entries := ∅; tick := 0 |}.

Definition hd_get (now : Z) (key : str) (c : HdCache) : option UserInfoHd * HdCache :=
  let tick := u64_wrap (tick c + 1) in
  match entries c !! key with
  | Some e =>
      if (now <? e_expires e)%Z then
        (Some (e_hd e),
         {| entries := <[key := {| e_hd := e_hd e; e_expires := e_expires e;
                                   e_last_used := tick |}]> (entries c); tick := tick |})
      else (None, {| entries := delete key (entries c); tick := tick |})
  | None => (None, {| entries := entries c; tick := tick |})
  end.

(** [min_by_key]: the first of the least elements. *)
Fixpoint min_by_key {A} (f : A → Z) (l : list A) : option A :=
  match l with
  | [] => None
  | x :: l' =>
      match min_by_key f l' with
      | Some y => if (f y <? f x)%Z then Some y else Some x
      | None => Some x
      end
  end.

Definition live_entries {E} (expires : E → Z) (now : Z) (m : gmap str E) : gmap str E :=
  filter (λ ke, (now < expires ke.2)%Z) m.

Section HdPut.
(** The order in which the [HashMap] is iterated. *)
Variable iter : gmap str HdCacheEntry → list (str * HdCacheEntry).

Definition hd_make_room (now : Z) (key : str) (m : gmap str HdCacheEntry)
    : gmap str HdCacheEntry :=
  if (GOOGLE_HD_CACHE_CAP <=? size m)%nat && bool_decide (m !! key = None) then
    let m := live_entries e_expires now m in
    if (GOOGLE_HD_CACHE_CAP <=? size m)%nat then
      match min_by_key (λ ke, e_last_used ke.2) (iter m) with
      | Some (oldest, _) => delete oldest m
      | None => m
      end
    else m
  else m.

(** [ttl] in nanoseconds. *)
Definition hd_put (now : Z) (key : str) (hd : UserInfoHd) (ttl : Z) (c : HdCache) : HdCache :=
  if (ttl =? 0)%Z then c
  else
    let tick := u64_wrap (tick c + 1) in
    {| entries := <[key := {| e_hd := hd; e_expires := (now + ttl)%Z; e_last_used := tick |}]>
                    (hd_make_room now key (entries c));
       tick := tick |}.
End HdPut.

(** ** Validation of a tokeninfo answer *)

Definition json_is_true (v : option Value) : bool :=
  match v with
  | Some (Value.Bool b) => b
  | Some (Value.String s) =>
      let t := trim s in eq_ignore_ascii_case t §"true" || bool_decide (t = §"1")
  | Some (Value.Number (Value.Int z)) => (z =? 1)%Z
  | _ => false
  end.

Definition json_as_i64 (v : option Value) : option Z :=
  match v with
  | Some (Value.Number (Value.Int z)) =>
      Some (if (z <=? i64_max)%Z then z else f64_as_i64 (binary_normalize 53 1024 z 0 false))
  | Some (Value.Number (Value.Float bits)) => Some (f64_as_i64 (f64_decode bits))
  | Some (Value.String s) =>
      let t := trim s in
      match parse_i64 t with
      | Some n => Some n
      | None => f64_as_i64 <$> parse_f64 t
      end
  | _ => None
  end.

Record GoogleIdentity := {
  id_sub : str;
  id_scopes : list str;
  id_exp : Z;
  id_domain : option str;
  id_tenant : option str;
}.

Definition non_empty_email (info : GoogleTokenInfo) : option str :=
  e ← ti_email info; if is_empty e then None else Some e.

(** The domain a token is judged by. *)
Definition judged_domain (info : GoogleTokenInfo) (email : str) : option str :=
  match trimmed_hd (ti_hd info) with
  | Some h => Some (to_ascii_lowercase h)
  | None => to_ascii_lowercase <$> last (split_on "@" email)
  end.

Definition mapped_tenant (allowed : option (gmap str (option str))) (domain : option str)
    : result (option str) TritonError :=
  match allowed with
  | None => Ok None
  | Some m =>
      ok_or (domain ≫= λ d, m !! d) (Auth §"google access token is outside the allowed domain")
  end.

Definition validate_google_tokeninfo_with (info : GoogleTokenInfo) (audiences : list str)
    (allowed : option (gmap str (option str))) (require_hd : bool) (now_unix : Z)
    : result GoogleIdentity TritonError :=
  if negb (match ti_aud info with Some a => bool_decide (a ∈ audiences) | None => false end)
  then Err (Auth §"google access token audience mismatch")
  else
    email ←? ok_or (non_empty_email info) (Auth §"google access token has no email");
    if negb (json_is_true (ti_email_verified info))
    then Err (Auth §"google access token email is not verified")
    else
      let domain := judged_domain info email in
      if require_hd && bool_decide (trimmed_hd (ti_hd info) = None)
      then Err (Auth §"google access token has no hosted domain (hd); only Workspace accounts are admitted")
      else
        tenant ←? mapped_tenant allowed domain;
        exp ←? ok_or (json_as_i64 (ti_exp info)) (Auth §"google access token has no exp");
        if (exp <=? now_unix)%Z then Err (Auth §"google access token is expired")
        else Ok {| id_sub := email; id_scopes := split_whitespace (default [] (ti_scope info));
                   id_exp := exp;
                   id_domain := to_ascii_lowercase <$> trimmed_hd (ti_hd info);
                   id_tenant := tenant |}.

(** ** The verifier *)

Record GoogleCacheEntry := { g_id : GoogleIdentity; g_expires : Z }.

Inductive Question := AskTokeninfo (token : str) | AskUserinfo (token : str).

Record GoogleAccessTokenVerifier := {
  audiences : list str;
  allowed : option (gmap str (option str));
  require_hd : bool;
  tokeninfo_url : str;
  userinfo_url : str;
  cache : gmap str GoogleCacheEntry;
  hd_cache : HdCache;
  requests : list Question;
}.

Definition set_cache (m : gmap str GoogleCacheEntry) (v : GoogleAccessTokenVerifier) :=
  {| audiences := audiences v; allowed := allowed v; require_hd := require_hd v;
     tokeninfo_url := tokeninfo_url v; userinfo_url := userinfo_url v; cache := m;
     hd_cache := hd_cache v; requests := requests v |}.
Definition set_hd_cache (c : HdCache) (v : GoogleAccessTokenVerifier) :=
  {| audiences := audiences v; allowed := allowed v; require_hd := require_hd v;
     tokeninfo_url := tokeninfo_url v; userinfo_url := userinfo_url v; cache := cache v;
     hd_cache := c; requests := requests v |}.
Definition ask (q : Question) (v : GoogleAccessTokenVerifier) :=
  {| audiences := audiences v; allowed := allowed v; require_hd := require_hd v;
     tokeninfo_url := tokeninfo_url v; userinfo_url := userinfo_url v; cache := cache v;
     hd_cache := hd_cache v; requests := requests v ++ [q] |}.

(** The domain map is given by its pairs, in the order they are visited. *)
Definition with_policy (auds : list str) (doms : option (list (str * option str)))
    : GoogleAccessTokenVerifier :=
  {| audiences := filter (λ a, a ≠ []) (trim <$> auds);
     allowed := (λ l, fold_left (λ m '(d, t), <[to_ascii_lowercase (trim d) := t]> m) l ∅) <$> doms;
     require_hd := true;
     tokeninfo_url := GOOGLE_TOKENINFO_URL; userinfo_url := GOOGLE_USERINFO_URL;
     cache := ∅; hd_cache := HdCache_default; requests := [] |}.

Definition GoogleAccessTokenVerifier_new (aud : str) (allowed_hd : option str)
    : GoogleAccessTokenVerifier :=
  let doms := d ← allowed_hd;
              let d := to_ascii_lowercase (trim d) in
              if is_empty d then None else Some [(d, None)] in
  let v := with_policy [aud] doms in
  {| audiences := audiences v; allowed := allowed v; require_hd := false;
     tokeninfo_url := tokeninfo_url v; userinfo_url := userinfo_url v; cache := cache v;
     hd_cache := hd_cache v; requests := requests v |}.

(** What a request to Google comes to. *)
Inductive Answer (A : Type) :=
  | RequestFailed
  | Refused
  | Undecodable
  | Answered (a : A).
Arguments RequestFailed {A}.
Arguments Refused {A}.
Arguments Undecodable {A}.
Arguments Answered {A} _.

(** What one call reads, in the order it reads it. *)
Record GoogleEnv := {
  t_get : Z;
  tokeninfo : Answer GoogleTokenInfo;
  now_unix : Z;
  t_hd_get : Z;
  userinfo : Answer GoogleUserInfo;
  t_hd_put : Z;
  t_put : Z;
  g_trace : str;
}.

Definition cache_get (now : Z) (token : str) (m : gmap str GoogleCacheEntry)
    : option GoogleIdentity :=
  e ← m !! token; if (now <? g_expires e)%Z then Some (g_id e) else None.

Definition cache_put (now : Z) (token : str) (id : GoogleIdentity) (ttl : Z)
    (m : gmap str GoogleCacheEntry) : gmap str GoogleCacheEntry :=
  if (ttl =? 0)%Z then m
  else
    let m := live_entries g_expires now m in
    if (1024 <=? size m)%nat then m
    else <[token := {| g_id := id; g_expires := (now + ttl)%Z |}]> m.

Definition google_principal (id : GoogleIdentity) (raw_token trace : str) : Principal :=
  {| sub := id_sub id; scopes := id_scopes id; groups := [];
     tenant := default §"-" (id_tenant id); raw_token := raw_token; trace_id := trace;
     sender_ref := None; conversation_ref := None;
     idp := Some (IdpIdentity_issuer
       (IdpIdentity_email (IdpIdentity_tenant (IdpIdentity_new §"google") (id_domain id))
          (Some (id_sub id)))
       §"https://accounts.google.com") |}.

Definition set_hd (hd : str) (i : GoogleTokenInfo) : GoogleTokenInfo :=
  {| ti_aud := ti_aud i; ti_email := ti_email i; ti_email_verified := ti_email_verified i;
     ti_exp := ti_exp i; ti_scope := ti_scope i; ti_hd := Some hd; ti_sub := ti_sub i |}.

Section Verify.
Variable iter : gmap str HdCacheEntry → list (str * HdCacheEntry).
(** [token_hash]: SHA-256 *)
Variable token_hash : str → str.

Definition neutral : TritonError := Auth §"google access token could not be verified".

Definition userinfo_hd (e : GoogleEnv) (raw_token : str) (info : GoogleTokenInfo) (exp : Z)
    (v : GoogleAccessTokenVerifier) : result UserInfoHd TritonError * GoogleAccessTokenVerifier :=
  let key := token_hash raw_token in
  let '(hit, c) := hd_get (t_hd_get e) key (hd_cache v) in
  let v := set_hd_cache c v in
  match hit with
  | Some hd => (Ok hd, v)
  | None =>
      let v := ask (AskUserinfo raw_token) v in
      match userinfo e with
      | RequestFailed | Refused | Undecodable => (Err neutral, v)
      | Answered ui =>
          match check_google_userinfo info ui with
          | Err err => (Err err, v)
          | Ok hd =>
              let ttl := Z.max 0 (exp - now_unix e) in
              (Ok hd, set_hd_cache (hd_put iter (t_hd_put e) key hd (secs ttl) (hd_cache v)) v)
          end
      end
  end.

(** The answer with the hosted domain filled in, where the policy wants one and
    tokeninfo named none. *)
Definition with_hosted_domain (e : GoogleEnv) (raw_token : str) (info : GoogleTokenInfo)
    (v : GoogleAccessTokenVerifier)
    : result GoogleTokenInfo TritonError * GoogleAccessTokenVerifier :=
  if require_hd v && bool_decide (trimmed_hd (ti_hd info) = None) then
    match validate_google_tokeninfo_with info (audiences v) None false (now_unix e) with
    | Err err => (Err err, v)
    | Ok base =>
        let '(r, v) := userinfo_hd e raw_token info (id_exp base) v in
        (result_map (λ hd, match hd with Domain d => set_hd d info | NoDomain => info end) r, v)
    end
  else (Ok info, v).

(** The token is not cached: ask Google. *)
Definition introspect (e : GoogleEnv) (raw_token : str) (v : GoogleAccessTokenVerifier)
    : result Principal TritonError * GoogleAccessTokenVerifier :=
  let v := ask (AskTokeninfo raw_token) v in
  match tokeninfo e with
  | RequestFailed => (Err (Auth §"google tokeninfo request failed"), v)
  | Refused => (Err (Auth §"google access token rejected by tokeninfo"), v)
  | Undecodable => (Err (Auth §"google tokeninfo decode failed"), v)
  | Answered info =>
      let '(r, v) := with_hosted_domain e raw_token info v in
      match r with
      | Err err => (Err err, v)
      | Ok info =>
          match validate_google_tokeninfo_with info (audiences v) (allowed v) (require_hd v)
                  (now_unix e) with
          | Err err => (Err err, v)
          | Ok id =>
              let ttl := Z.max 0 (Z.min 300 (id_exp id - now_unix e)) in
              (Ok (google_principal id raw_token (g_trace e)),
               set_cache (cache_put (t_put e) raw_token id (secs ttl) (cache v)) v)
          end
      end
  end.

Definition google_verify (e : GoogleEnv) (raw_token : str) (v : GoogleAccessTokenVerifier)
    : result Principal TritonError * GoogleAccessTokenVerifier :=
  match cache_get (t_get e) raw_token (cache v) with
  | Some id => (Ok (google_principal id raw_token (g_trace e)), v)
  | None => introspect e raw_token v
  end.
End Verify.

(** ** The caches stay bounded *)

Lemma live_entries_lookup {E} (f : E → Z) now m k (e : E) :
  live_entries f now m !! k = Some e ↔ m !! k = Some e ∧ (now < f e)%Z.
Proof. unfold live_entries. by rewrite map_lookup_filter_Some. Qed.

Lemma live_entries_size {E} (f : E → Z) (now : Z) (m : gmap str E) : size (live_entries f now m) ≤ size m.
Proof. apply map_size_filter. Qed.

Lemma min_by_key_elem {A} (f : A → Z) l x : min_by_key f l = Some x → x ∈ l.
Proof.
  revert x. induction l as [|y l IH]; cbn; [done|]. intros x.
  destruct (min_by_key f l) as [z|]; [case_if|]; intros [= <-]; [|constructor..].
  apply elem_of_cons. eauto.
Qed.

Lemma min_by_key_None {A} (f : A → Z) l : min_by_key f l = None → l = [].
Proof.
  destruct l as [|x l]; [done|]. cbn. destruct (min_by_key f l); [case_if|]; done.
Qed.

Section HdBound.
Variable iter : gmap str HdCacheEntry → list (str * HdCacheEntry).
Hypothesis iter_perm : ∀ m, iter m ≡ₚ map_to_list m.

Lemma hd_make_room_size now key m :
  size m ≤ GOOGLE_HD_CACHE_CAP → m !! key = None →
  size (hd_make_room iter now key m) < GOOGLE_HD_CACHE_CAP.
Proof using iter_perm.
  intros Hm Hk. unfold hd_make_room. rewrite bool_decide_true by done. rewrite andb_true_r.
  case_if; bool_facts; [|done]. set (l := live_entries e_expires now m).
  assert (size l ≤ size m) by apply live_entries_size.
  case_if; bool_facts; [|done].
  destruct (min_by_key _ (iter l)) as [[oldest x]|] eqn:Hmin.
  - apply min_by_key_elem in Hmin. rewrite iter_perm in Hmin.
    apply elem_of_map_to_list in Hmin. rewrite (map_size_delete_Some oldest l) by eauto.
    assert (0 < GOOGLE_HD_CACHE_CAP) by (unfold GOOGLE_HD_CACHE_CAP; lia). lia.
  - apply min_by_key_None in Hmin. pose proof (iter_perm l) as Hp. rewrite Hmin in Hp.
    apply Permutation_length in Hp. rewrite length_map_to_list in Hp. cbn in Hp.
    assert (0 < GOOGLE_HD_CACHE_CAP) by (unfold GOOGLE_HD_CACHE_CAP; lia). lia.
Qed.

Lemma hd_make_room_incl now key m k e :
  hd_make_room iter now key m !! k = Some e → m !! k = Some e.
Proof using Type.
  unfold hd_make_room. case_if; [|done]. case_if.
  - destruct (min_by_key _ _) as [[oldest x]|].
    + intros [_ H]%lookup_delete_Some. by apply live_entries_lookup in H as [? _].
    + intros H. by apply live_entries_lookup in H as [? _].
  - intros H. by apply live_entries_lookup in H as [? _].
Qed.

Lemma hd_put_size now key hd ttl c :
  size (entries c) ≤ GOOGLE_HD_CACHE_CAP →
  size (entries (hd_put iter now key hd ttl c)) ≤ GOOGLE_HD_CACHE_CAP.
Proof using iter_perm.
  intros Hc. unfold hd_put. case_if; [done|]. cbn.
  destruct (entries c !! key) as [e|] eqn:Hk.
  - assert (hd_make_room iter now key (entries c) = entries c) as ->.
    { unfold hd_make_room. rewrite bool_decide_false by congruence. by rewrite andb_false_r. }
    rewrite map_size_insert, Hk. cbn. lia.
  - pose proof (hd_make_room_size now key (entries c) Hc Hk).
    rewrite map_size_insert. case_match; cbn; lia.
Qed.

Lemma hd_get_size now key c : size (entries (hd_get now key c).2) ≤ size (entries c).
Proof using Type.
  unfold hd_get. destruct (entries c !! key) as [e|] eqn:Hk; [|done]. case_if; cbn.
  - rewrite map_size_insert, Hk. cbn. lia.
  - rewrite map_size_delete, Hk. cbn. lia.
Qed.
End HdBound.

Lemma cache_put_size now tok id ttl m :
  size m ≤ 1024 → size (cache_put now tok id ttl m) ≤ 1024.
Proof.
  intros Hm. unfold cache_put. case_if; [done|].
  pose proof (live_entries_size g_expires now m). case_if; [lia|]. bool_facts.
  rewrite map_size_insert. case_match; cbn; lia.
Qed.

(** ** Histories of calls *)

Lemma validate_Ok info auds allow req n id :
  validate_google_tokeninfo_with info auds allow req n = Ok id →
  (∃ a, ti_aud info = Some a ∧ a ∈ auds)
  ∧ ti_email info = Some (id_sub id) ∧ id_sub id ≠ []
  ∧ json_is_true (ti_email_verified info) = true
  ∧ json_as_i64 (ti_exp info) = Some (id_exp id) ∧ (n < id_exp id)%Z
  ∧ id_domain id = to_ascii_lowercase <$> trimmed_hd (ti_hd info)
  ∧ (req = true → is_Some (id_domain id))
  ∧ mapped_tenant allow (judged_domain info (id_sub id)) = Ok (id_tenant id).
Proof.
  unfold validate_google_tokeninfo_with. intros Hv.
  destruct (ti_aud info) as [a|] eqn:Ha; [|done]. case_if; [done|]. bool_facts.
  unfold non_empty_email in Hv. destruct (ti_email info) as [em|] eqn:He; [|done]. cbn in Hv.
  destruct (is_empty em) eqn:Hem; [done|]. cbn in Hv.
  destruct (json_is_true (ti_email_verified info)) eqn:Hver; [|done]. cbn in Hv.
  destruct (req && bool_decide (trimmed_hd (ti_hd info) = None)) eqn:Hreq; [done|].
  destruct (mapped_tenant allow (judged_domain info em)) as [t|] eqn:Ht; [|done]. cbn in Hv.
  destruct (json_as_i64 (ti_exp info)) as [x|] eqn:Hx; [|done]. cbn in Hv.
  case_if; [done|]. bool_facts. injection Hv as <-. cbn. repeat split_and!; try done; eauto.
  - by destruct em.
  - intros ->. cbn in Hreq. bool_facts. destruct (trimmed_hd (ti_hd info)); [eauto|done].
Qed.

Section Histories.
Variable iter : gmap str HdCacheEntry → list (str * HdCacheEntry).
Variable token_hash : str → str.

Definition Call : Type := GoogleEnv * str.

(** The calls a verifier has served since it was [v0]. *)
Inductive history (v0 : GoogleAccessTokenVerifier) :
    list Call → GoogleAccessTokenVerifier → Prop :=
  | history_nil : history v0 [] v0
  | history_snoc h v e tok :
      history v0 h v → history v0 (h ++ [(e, tok)]) (google_verify iter token_hash e tok v).2.

(** A userinfo answer, to a call for a token with this hash, named the domain. *)
Definition userinfo_names (h : list Call) (tok d : str) : Prop :=
  ∃ e tok' info ui, (e, tok') ∈ h ∧ token_hash tok' = token_hash tok
    ∧ tokeninfo e = Answered info ∧ userinfo e = Answered ui
    ∧ check_google_userinfo info ui = Ok (Domain d).

(** What vouches for an identity: the tokeninfo answer, the policy, and for the
    hosted domain tokeninfo or userinfo. *)
Record vouched (h : list Call) (v : GoogleAccessTokenVerifier) (tok : str)
    (info : GoogleTokenInfo) (n : Z) (id : GoogleIdentity) : Prop := {
  v_audience : ∃ a, ti_aud info = Some a ∧ a ∈ audiences v;
  v_email : ti_email info = Some (id_sub id) ∧ id_sub id ≠ [];
  v_verified : json_is_true (ti_email_verified info) = true;
  v_exp : json_as_i64 (ti_exp info) = Some (id_exp id) ∧ (n < id_exp id)%Z;
  v_hd : require_hd v = true → is_Some (id_domain id);
  v_domain d : id_domain id = Some d →
    to_ascii_lowercase <$> trimmed_hd (ti_hd info) = Some d
    ∨ ∃ d', userinfo_names h tok d' ∧ d = to_ascii_lowercase (trim d');
  v_tenant : match allowed v with
             | None => id_tenant id = None
             | Some m => ∃ d, m !! d = Some (id_tenant id)
                 ∧ (id_domain id = Some d
                    ∨ id_domain id = None ∧ to_ascii_lowercase <$> last (split_on "@" (id_sub id)) = Some d)
             end;
}.

Definition same_policy (v v' : GoogleAccessTokenVerifier) : Prop :=
  audiences v' = audiences v ∧ allowed v' = allowed v ∧ require_hd v' = require_hd v.

Lemma same_policy_sym v v' : same_policy v v' → same_policy v' v.
Proof using Type. intros (? & ? & ?). by split_and!. Qed.

Lemma same_policy_trans v1 v2 v3 : same_policy v1 v2 → same_policy v2 v3 → same_policy v1 v3.
Proof using Type. intros (? & ? & ?) (? & ? & ?). split_and!; congruence. Qed.

Lemma userinfo_names_mono h h' tok d :
  userinfo_names h tok d → userinfo_names (h ++ h') tok d.
Proof using Type. intros (e & t & i & u & ? & ?). exists e, t, i, u. set_solver. Qed.

Lemma vouched_mono h h' v v' tok info n id :
  same_policy v v' → vouched h v tok info n id → vouched (h ++ h') v' tok info n id.
Proof using Type.
  intros (Ha & Hw & Hr) []. constructor; rewrite ?Ha, ?Hw, ?Hr; try done.
  intros d [Hd|(d' & Hd & ?)]%v_domain0; [by left|]. right. eauto using userinfo_names_mono.
Qed.

(** An identity validated with a hosted domain that is vouched for. *)
Lemma validated_vouched h v tok info info' n id :
  info' = info ∨ (∃ d, info' = set_hd d info ∧ userinfo_names h tok d) →
  validate_google_tokeninfo_with info' (audiences v) (allowed v) (require_hd v) n = Ok id →
  vouched h v tok info n id.
Proof using Type.
  intros Hi (Haud & Hem & Hne & Hver & Hexp & Hn & Hdom & Hreq & Hten)%validate_Ok.
  assert (ti_aud info' = ti_aud info ∧ ti_email info' = ti_email info
          ∧ ti_email_verified info' = ti_email_verified info ∧ ti_exp info' = ti_exp info)
    as (E1 & E2 & E3 & E4) by (destruct Hi as [->|(d & -> & _)]; done).
  rewrite E1, E2, E3, E4 in *. constructor; try done.
  - intros d Hd. rewrite Hdom in Hd. destruct Hi as [->|(d' & -> & Hnames)]; [by left|].
    right. exists d'. split; [done|]. unfold trimmed_hd in Hd. cbn in Hd.
    destruct (is_empty (trim d')); cbn in Hd; congruence.
  - unfold mapped_tenant, judged_domain in Hten.
    destruct (allowed v) as [m|]; [|congruence].
    rewrite Hdom. destruct (trimmed_hd (ti_hd info')) as [h'|]; cbn in Hten |- *.
    + destruct (m !! to_ascii_lowercase h') as [t|] eqn:Hm; cbn in Hten; [|done].
      injection Hten as <-. eauto.
    + destruct (last (split_on "@" (id_sub id))) as [x|] eqn:Hl; cbn in Hten; [|done].
      destruct (m !! to_ascii_lowercase x) as [t|] eqn:Hm; cbn in Hten; [|done].
      injection Hten as <-. eauto.
Qed.

(** What the caches hold is vouched for by the history. *)
Record caches_ok (h : list Call) (v : GoogleAccessTokenVerifier) : Prop := {
  cache_ok tok ge : cache v !! tok = Some ge →
    ∃ e info, (e, tok) ∈ h ∧ tokeninfo e = Answered info
      ∧ vouched h v tok info (now_unix e) (g_id ge)
      ∧ g_expires ge = (t_put e + secs (Z.min 300 (id_exp (g_id ge) - now_unix e)))%Z;
  hd_ok tok he d : entries (hd_cache v) !! token_hash tok = Some he → e_hd he = Domain d →
    userinfo_names h tok d;
}.

(** A change of the hosted-domain cache only. *)
Lemma caches_ok_hd h v v' :
  same_policy v v' → cache v' = cache v → caches_ok h v →
  (∀ tok he d, entries (hd_cache v') !! token_hash tok = Some he → e_hd he = Domain d →
     userinfo_names h tok d) →
  caches_ok h v'.
Proof using Type.
  intros Hp Hc [Hok _] Hhd. constructor; [|done]. rewrite Hc.
  intros tok ge (e & info & ? & ? & Hv & ?)%Hok. exists e, info. repeat split_and!; try done.
  rewrite <- (app_nil_r h). by eapply vouched_mono.
Qed.

Lemma caches_ok_mono h h' v : caches_ok h v → caches_ok (h ++ h') v.
Proof using Type.
  intros [Hc Hh]. constructor.
  - intros tok ge (e & info & ? & ? & Hv & ?)%Hc. exists e, info.
    split; [set_solver|]. repeat split_and!; try done. by eapply vouched_mono.
  - intros tok he d H1 H2. eauto using userinfo_names_mono.
Qed.

Lemma hd_get_cases now key c :
  (∀ k he, entries (hd_get now key c).2 !! k = Some he →
     ∃ he', entries c !! k = Some he' ∧ e_hd he = e_hd he')
  ∧ (∀ hd, (hd_get now key c).1 = Some hd → ∃ he, entries c !! key = Some he ∧ e_hd he = hd).
Proof using Type.
  unfold hd_get. destruct (entries c !! key) as [e|] eqn:Hk; [case_if|]; cbn; split; try done; eauto.
  - intros k he [[<- <-]|[_ ?]]%lookup_insert_Some; eauto.
  - intros hd [= <-]. eauto.
  - intros k he [_ ?]%lookup_delete_Some. eauto.
Qed.

Lemma hd_put_incl now key hd ttl c k he :
  entries (hd_put iter now key hd ttl c) !! k = Some he →
  (k = key ∧ e_hd he = hd) ∨ entries c !! k = Some he.
Proof using Type.
  unfold hd_put. case_if; [by right|]. cbn.
  intros [[<- <-]|[_ Hin]]%lookup_insert_Some; [by left|]. right. by eapply hd_make_room_incl.
Qed.

(** One round of the hosted-domain lookup, within call [(e, tok)]. *)
Lemma with_hosted_domain_ok e tok info h v :
  tokeninfo e = Answered info → (e, tok) ∈ h → caches_ok h v →
  let '(r, v') := with_hosted_domain iter token_hash e tok info v in
  same_policy v v' ∧ cache v' = cache v ∧ caches_ok h v'
  ∧ ∀ info', r = Ok info' →
      info' = info ∨ ∃ d, info' = set_hd d info ∧ userinfo_names h tok d.
Proof using Type.
  intros Hti Hin Hok. unfold with_hosted_domain. case_if; [|split_and!; [done..|intros ? [= <-]; by left]].
  destruct (validate_google_tokeninfo_with info _ None false _) as [base|];
    [|split_and!; done].
  unfold userinfo_hd. pose proof (hd_get_cases (t_hd_get e) (token_hash tok) (hd_cache v)) as [Hg1 Hg2].
  destruct (hd_get (t_hd_get e) (token_hash tok) (hd_cache v)) as [hit c]. cbn in Hg1, Hg2.
  pose proof (hd_ok _ _ Hok) as Hh.
  assert (∀ tok' he d, entries c !! token_hash tok' = Some he → e_hd he = Domain d →
            userinfo_names h tok' d) as Hh'.
  { intros tok' he d (he' & H1 & H2)%Hg1 H3. rewrite H2 in H3. eauto. }
  destruct hit as [hd|].
  { split_and!; [done..|by apply (caches_ok_hd h v)|].
    destruct (Hg2 hd eq_refl) as (he & Hhe & <-). intros info' [= <-].
    destruct (e_hd he) as [d|] eqn:E; [right|by left]. eauto. }
  destruct (userinfo e) as [| | |ui] eqn:Hui;
    try (split_and!; [done..|by apply (caches_ok_hd h v)|done]).
  destruct (check_google_userinfo info ui) as [hd|] eqn:Hck;
    [|split_and!; [done..|by apply (caches_ok_hd h v)|done]].
  split_and!; [done..| |].
  - apply (caches_ok_hd h v); [done..|]. cbn. intros tok' he d Hput Hd.
    apply hd_put_incl in Hput as [[Hk Hhd]|Hput]; [|eauto].
    exists e, tok, info, ui. repeat split_and!; try done. congruence.
  - cbn. intros info' [= <-]. destruct hd as [d|]; [right|by left].
    exists d. split; [done|]. exists e, tok, info, ui. done.
Qed.

Lemma cache_put_ok e tok info id h v :
  caches_ok h v → (e, tok) ∈ h → tokeninfo e = Answered info →
  vouched h v tok info (now_unix e) id →
  caches_ok h (set_cache (cache_put (t_put e) tok id
    (secs (Z.max 0 (Z.min 300 (id_exp id - now_unix e)))) (cache v)) v).
Proof using Type.
  intros Hok Hin Hti Hv. constructor; cbn; [|apply (hd_ok _ _ Hok)].
  assert (∀ m tok' ge, cache v !! tok' = Some ge → ∃ e0 info0, (e0, tok') ∈ h
    ∧ tokeninfo e0 = Answered info0 ∧ vouched h (set_cache m v) tok' info0 (now_unix e0) (g_id ge)
    ∧ g_expires ge = (t_put e0 + secs (Z.min 300 (id_exp (g_id ge) - now_unix e0)))%Z) as Hold.
  { intros m tok' ge (e0 & info0 & ? & ? & Hv0 & ?)%(cache_ok _ _ Hok). exists e0, info0.
    repeat split_and!; try done. rewrite <- (app_nil_r h). by apply (vouched_mono _ _ v). }
  unfold cache_put. case_if; [apply Hold|]. case_if.
  { intros tok' ge [Hge _]%live_entries_lookup. by apply Hold. }
  intros tok' ge [[<- <-]|[_ [Hge _]%live_entries_lookup]]%lookup_insert_Some; [|by apply Hold].
  exists e, info. repeat split_and!; try done.
  - rewrite <- (app_nil_r h). by apply (vouched_mono _ _ v).
  - cbn. destruct (v_exp _ _ _ _ _ _ Hv). unfold secs. lia.
Qed.

(** The result of a call is vouched for, and so are the caches after it. *)
Lemma introspect_ok e tok h v :
  (e, tok) ∈ h → caches_ok h v →
  let '(r, v') := introspect iter token_hash e tok v in
  same_policy v v' ∧ caches_ok h v'
  ∧ ∀ p, r = Ok p → ∃ info id, tokeninfo e = Answered info
      ∧ vouched h v tok info (now_unix e) id ∧ p = google_principal id tok (g_trace e).
Proof using Type.
  intros Hin Hok. unfold introspect.
  assert (caches_ok h (ask (AskTokeninfo tok) v)) as Hok' by
    (apply (caches_ok_hd h v); [done..|exact (hd_ok _ _ Hok)]).
  destruct (tokeninfo e) as [| | |info] eqn:Hti; [by split_and!..|].
  pose proof (with_hosted_domain_ok e tok info h _ Hti Hin Hok') as Hw.
  destruct (with_hosted_domain _ _ e tok info _) as [[info'|] v1];
    destruct Hw as ((Ha & Hw & Hr) & _ & Hok1 & Hinfo); [|by split_and!].
  destruct (validate_google_tokeninfo_with info' _ _ _ _) as [id|] eqn:Hv; [|by split_and!].
  apply (validated_vouched h v1 tok info) in Hv; [|by apply Hinfo].
  split_and!; [done|by apply (cache_put_ok e tok info)|]. intros p [= <-]. exists info, id.
  split_and!; [done| |done]. rewrite <- (app_nil_r h). by apply (vouched_mono _ _ v1).
Qed.

Lemma history_ok v0 h v :
  cache v0 = ∅ → entries (hd_cache v0) = ∅ → history v0 h v →
  same_policy v0 v ∧ caches_ok h v.
Proof using Type.
  intros H1 H2. induction 1 as [|h v e tok Hh [Hp IH]].
  { split; [done|]. constructor; [rewrite H1|rewrite H2]; by intros * ?%lookup_empty_Some. }
  unfold google_verify. destruct (cache_get _ _ _); [by split; [|apply caches_ok_mono]|].
  pose proof (introspect_ok e tok (h ++ [(e, tok)]) v ltac:(set_solver)
    (caches_ok_mono _ _ _ IH)) as Hv.
  destruct (introspect _ _ e tok v) as [r v']. destruct Hv as (Hp' & ? & _). split; [|done].
  by eapply same_policy_trans.
Qed.

Lemma history_bounded v0 h v :
  (∀ m, iter m ≡ₚ map_to_list m) → cache v0 = ∅ → entries (hd_cache v0) = ∅ → history v0 h v →
  size (cache v) ≤ 1024 ∧ size (entries (hd_cache v)) ≤ GOOGLE_HD_CACHE_CAP.
Proof using Type.
  intros Hperm H1 H2. induction 1 as [|h v e tok Hh [IH1 IH2]].
  { rewrite H1, H2, !map_size_empty. lia. }
  unfold google_verify. destruct (cache_get _ _ _); [done|]. unfold introspect.
  destruct (tokeninfo e) as [| | |info]; [done..|].
  assert (∀ x, x = with_hosted_domain iter token_hash e tok info (ask (AskTokeninfo tok) v) →
    cache x.2 = cache v ∧ size (entries (hd_cache x.2)) ≤ GOOGLE_HD_CACHE_CAP) as Hx.
  { intros x ->. unfold with_hosted_domain. case_if; [|done].
    destruct (validate_google_tokeninfo_with _ _ _ _ _); [|done]. unfold userinfo_hd. cbn.
    pose proof (hd_get_size (t_hd_get e) (token_hash tok) (hd_cache v)) as Hg.
    destruct (hd_get _ _ _) as [[hd|] c]; cbn in Hg |- *; [split; [done|lia]|].
    destruct (userinfo e) as [| | |ui]; cbn; [split; [done|lia]..|].
    destruct (check_google_userinfo info ui); cbn; [|split; [done|lia]].
    split; [done|]. apply hd_put_size; [done|lia]. }
  specialize (Hx _ eq_refl). destruct (with_hosted_domain _ _ _ _ _ _) as [[i|] v1];
    destruct Hx as [Hc ?]; cbn in *; [|by rewrite Hc].
  destruct (validate_google_tokeninfo_with _ _ _ _ _); cbn.
  - split; [|done]. apply cache_put_size. by rewrite Hc.
  - by rewrite Hc.
Qed.
End Histories.

(** Who an opaque Google token admits.  Whatever calls a verifier has
    served, a principal it hands out rests on an answer of Google's tokeninfo
    for that very token, in this call or in one whose cached result is at most
    five minutes old and did not outlive the token: the audience is one of the
    configured ones, the email is present and verified and is the subject, the
    token had not expired.  The tenant is the one the policy maps the domain
    to; where the policy wants a hosted domain there is one, and it was named by
    that answer or by a userinfo answer for the same user. *)
Theorem google_admission_sound iter token_hash v0 h v e tok p v' :
  cache v0 = ∅ → entries (hd_cache v0) = ∅ → history iter token_hash v0 h v →
  google_verify iter token_hash e tok v = (Ok p, v') →
  ∃ e0 info id,
    (e0, tok) ∈ h ++ [(e, tok)] ∧ tokeninfo e0 = Answered info
    ∧ vouched token_hash (h ++ [(e, tok)]) v0 tok info (now_unix e0) id
    ∧ p = google_principal id tok (g_trace e)
    ∧ (e0 = e ∨ t_get e < t_put e0 + secs (Z.min 300 (id_exp id - now_unix e0)))%Z.
Proof.
  intros H1 H2 Hh Hv. destruct (history_ok iter token_hash v0 h v H1 H2 Hh) as [Hp Hok].
  apply same_policy_sym in Hp.
  unfold google_verify, cache_get in Hv.
  destruct (cache v !! tok) as [ge|] eqn:Hge; cbn in Hv; [destruct (_ <? _)%Z eqn:Ht|].
  { injection Hv as <- <-. bool_facts.
    destruct (cache_ok _ _ _ Hok _ _ Hge) as (e0 & info & ? & ? & ? & Hx). rewrite Hx in Ht.
    exists e0, info, (g_id ge). split_and!; [set_solver|done|by eapply vouched_mono|done|by right]. }
  all: pose proof (introspect_ok iter token_hash e tok (h ++ [(e, tok)]) v ltac:(set_solver)
    (caches_ok_mono _ _ _ _ Hok)) as Hi; rewrite Hv in Hi; destruct Hi as (_ & _ & Hi).
  all: destruct (Hi p eq_refl) as (info & id & ? & ? & ?); exists e, info, id;
    split_and!; [set_solver|done| |done|by left];
    rewrite <- (app_nil_r (h ++ _)); by eapply vouched_mono.
Qed.

(** The verifier's memory is bounded.  Whatever tokens it is shown, and
    whatever the order its tables are visited in, it never holds more than 1024
    admitted tokens nor more than 1024 hosted domains. *)
Theorem google_caches_bounded iter token_hash v0 h v :
  (∀ m, iter m ≡ₚ map_to_list m) → cache v0 = ∅ → entries (hd_cache v0) = ∅ →
  history iter token_hash v0 h v →
  size (cache v) ≤ 1024 ∧ size (entries (hd_cache v)) ≤ GOOGLE_HD_CACHE_CAP.
Proof. apply history_bounded. Qed.

(** ** Instances *)

Definition demo_policy : GoogleAccessTokenVerifier :=
  with_policy [§"client-1"] (Some [(§"Acme.example", Some §"acme")]).
Definition demo_info : GoogleTokenInfo :=
  {| ti_aud := Some §"client-1"; ti_email := Some §"alice@acme.example";
     ti_email_verified := Some (Value.String §"true"); ti_exp := Some (Value.String §"2000");
     ti_scope := Some §"openid email"; ti_hd := None; ti_sub := Some §"1" |}.
Definition demo_call : GoogleEnv :=
  {| t_get := 10; tokeninfo := Answered demo_info; now_unix := 1000; t_hd_get := 20;
     userinfo := Answered {| ui_sub := Some §"1"; ui_email := Some §"Alice@acme.example";
                             ui_hd := Some §"acme.example" |};
     t_hd_put := 30; t_put := 40; g_trace := §"t" |}.
Definition demo_hash (_ : str) : str := §"h".

(** The second call is answered from the cache: its own answers are refusals. *)
Definition demo_again : GoogleEnv :=
  {| t_get := secs 299; tokeninfo := Refused; now_unix := 1299; t_hd_get := 0;
     userinfo := Refused; t_hd_put := 0; t_put := 0; g_trace := §"t" |}.
Definition demo_later : GoogleAccessTokenVerifier :=
  (google_verify map_to_list demo_hash demo_call §"ya29" demo_policy).2.

Definition demo_principal : Principal :=
  google_principal {| id_sub := §"alice@acme.example"; id_scopes := [§"openid"; §"email"];
                      id_exp := 2000; id_domain := Some §"acme.example";
                      id_tenant := Some §"acme" |} §"ya29" §"t".

Lemma demo_cached :
  google_verify map_to_list demo_hash demo_again §"ya29" demo_later
  = (Ok demo_principal, demo_later).
Proof. vm_compute. reflexivity. Qed.

Lemma google_admission_sound_witness :
  tenant demo_principal = §"acme"
  ∧ ∃ e0 info, (e0, §"ya29") ∈ [(demo_call, §"ya29"); (demo_again, §"ya29")]
      ∧ tokeninfo e0 = Answered info.
Proof.
  split; [reflexivity|].
  destruct (google_admission_sound map_to_list demo_hash demo_policy
    ([] ++ [(demo_call, §"ya29")]) demo_later demo_again §"ya29" demo_principal demo_later)
    as (e0 & info & id & Hin & Hti & _).
  - reflexivity.
  - reflexivity.
  - apply history_snoc. apply history_nil.
  - apply demo_cached.
  - exists e0, info. split; [exact Hin|exact Hti].
Defined.

Lemma google_caches_bounded_witness :
  size (cache demo_later) = 1 ∧ size (cache demo_later) ≤ 1024.
Proof.
  split; [vm_compute; reflexivity|].
  destruct (google_caches_bounded map_to_list demo_hash demo_policy
    ([] ++ [(demo_call, §"ya29")]) demo_later) as [H _].
  - reflexivity.
  - reflexivity.
  - reflexivity.
  - apply history_snoc. apply history_nil.
  - exact H.
Defined.
