(* ===== verification/HttpIdentity.v ===== *)
(** * HttpIdentity: the identity boundary of the HTTP faces
    (crates/triton-adapters-http/src/identity.rs, mcp_tenants.rs and cors.rs)

    Which of the configured ways admits a request: the token verifiers of
    [Oidc] and [GoogleToken], the forwarded email of a sidecar, the development
    token.  [McpRoute] binds an endpoint to one customer's directory.  A header
    is the bytes of its value. *)

From S2P Require Import Prelude Json Errors Principal Oidc GoogleToken.

(** ** Headers *)

(** [HeaderValue::to_str] and [from_str]: visible ASCII and tabs. *)
Definition visible_ascii (c : ascii) : bool := in_range 32 126 (byte c) || (byte c =? 9)%N.
Definition header_to_str (v : str) : option str :=
  if forallb visible_ascii v then Some v else None.
Definition header_from_str (v : str) : result str str :=
  if forallb visible_ascii v then Ok v else Err §"failed to parse header value".

(** The headers the boundary reads. *)
Record Parts := {
  authorization : option str;
  forwarded : option str;
  accept : list str;
  protocol_version : option str;
  mcp_method : option str;
  mcp_session_id : option str;
}.

Definition no_headers : Parts :=
  {| authorization := None; forwarded := None; accept := []; protocol_version := None;
     mcp_method := None; mcp_session_id := None |}.

Definition bearer_from (parts : Parts) : result str TritonError :=
  header ←? ok_or (authorization parts) (Auth §"missing Authorization header");
  header ←? ok_or (header_to_str header) (Auth §"non-ASCII Authorization header");
  result_map trim (ok_or (strip_prefix §"Bearer " header) (Auth §"expected `Bearer <token>`")).

Definition forwarded_email (parts : Parts) : result (option str) TritonError :=
  match forwarded parts with
  | Some v =>
      s ←? ok_or (header_to_str v) (Auth §"non-ASCII X-Forwarded-Email header");
      Ok (if is_empty (trim s) then None else Some (trim s))
  | None => Ok None
  end.

Definition forwarded_email_principal (email uuid : str) : Principal :=
  {| sub := email; scopes := [§"sso-ops"]; groups := []; tenant := §"ops"; raw_token := [];
     trace_id := uuid; sender_ref := None; conversation_ref := None; idp := None |}.

(** ** The development token *)

Definition DEFAULT_DEV_TOKEN : str := §"dev-token".
Definition AUDIT_READ_ALL_SCOPE : str := §"audit:read-all".

(** [vec![0; n]] with the bytes of [s] copied to its front. *)
Definition padded (n : nat) (s : str) : str := s ++ replicate (n - length s) "000"%char.

Definition ct_eq_str (a b : str) : bool :=
  let n := Nat.max (length a) (length b) in
  bool_decide (padded n a = padded n b) && (length a =? length b)%nat.

(** [dev_token] is the cargo feature. *)
Definition verify_dev_or_reject (dev_token : bool) (token expected uuid : str)
    : result Principal TritonError :=
  if dev_token then
    if is_empty expected || negb (ct_eq_str token expected) then Err (Auth §"unknown token")
    else Ok {| sub := §"dev-user"; scopes := [§"dev"; AUDIT_READ_ALL_SCOPE]; groups := [];
               tenant := §"dev"; raw_token := token; trace_id := uuid; sender_ref := None;
               conversation_ref := None; idp := None |}
  else Err (Auth §"no OIDC verifier configured and dev-token disabled at build time (ADR-10)").

(** ** Scope tokens *)

Definition is_scope_token (s : str) : bool :=
  negb (is_empty s)
  && forallb (λ c, (byte c =? 0x21)%N || in_range 0x23 0x5b (byte c) || in_range 0x5d 0x7e (byte c)) s.

(** ** [IdentityProvider] *)

Section Provider.
Context `{SerdeJson, Jwt}.
Variable iter : gmap str HdCacheEntry → list (str * HdCacheEntry).
Variable token_hash : str → str.
Variable dev_feature : bool.

Record IdentityProvider := {
  oidc : list OidcVerifier;
  trust_forwarded_auth : bool;
  dev_token : str;
  google_access : option GoogleAccessTokenVerifier;
  scope_challenge : option str;
}.

Definition with_verifiers (vs : list OidcVerifier) (trust : bool) : IdentityProvider :=
  {| oidc := vs; trust_forwarded_auth := trust; dev_token := DEFAULT_DEV_TOKEN;
     google_access := None; scope_challenge := None |}.

Definition IdentityProvider_new (v : option OidcVerifier) : IdentityProvider :=
  with_verifiers (option_list v) false.

Definition with_forwarded_auth (v : option OidcVerifier) (trust : bool) : IdentityProvider :=
  with_verifiers (option_list v) trust.

Definition with_dev_token (t : str) (p : IdentityProvider) : IdentityProvider :=
  {| oidc := oidc p; trust_forwarded_auth := trust_forwarded_auth p; dev_token := t;
     google_access := google_access p; scope_challenge := scope_challenge p |}.

Definition with_google_access (g : GoogleAccessTokenVerifier) (p : IdentityProvider)
    : IdentityProvider :=
  {| oidc := oidc p; trust_forwarded_auth := trust_forwarded_auth p; dev_token := dev_token p;
     google_access := Some g; scope_challenge := scope_challenge p |}.

Definition quoted (s : str) : str := ascii_of_N 34 :: s ++ [ascii_of_N 34].

Definition with_scope_challenge (scopes : list str) (p : IdentityProvider)
    : result IdentityProvider str :=
  match list_find (λ s, is_scope_token s = false) scopes with
  | Some (_, bad) => Err (§"`" ++ bad ++ §"` is not an RFC 6749 scope token")
  | None =>
      let value := §"Bearer realm=" ++ quoted §"triton" ++ §", error="
                     ++ quoted §"insufficient_scope" ++ §", scope=" ++ quoted (join §" " scopes) in
      v ←? result_map_err (λ e, §"challenge `" ++ value ++ §"` is not a header: " ++ e)
             (header_from_str value);
      Ok {| oidc := oidc p; trust_forwarded_auth := trust_forwarded_auth p;
            dev_token := dev_token p; google_access := google_access p;
            scope_challenge := Some v |}
  end.

Definition set_oidc (vs : list OidcVerifier) (p : IdentityProvider) : IdentityProvider :=
  {| oidc := vs; trust_forwarded_auth := trust_forwarded_auth p; dev_token := dev_token p;
     google_access := google_access p; scope_challenge := scope_challenge p |}.
Definition set_google (g : GoogleAccessTokenVerifier) (p : IdentityProvider) : IdentityProvider :=
  with_google_access g p.

(** What a verification reads; only one of the verifiers is consulted. *)
Record IdentityEnv := {
  oidc_env : VerifyEnv;
  google_env : GoogleEnv;
  fresh_uuid : str;
}.

(** The verifier a token is given to. *)
Definition select_verifier (vs : list OidcVerifier) (token : str)
    : result (nat * OidcVerifier) TritonError :=
  match vs with
  | [only] => Ok (0, only)
  | _ =>
      claimed ←? ok_or (unverified_issuer token)
                   (Auth §"bearer is not a JWT with a readable `iss` claim");
      ok_or (list_find (λ v, accepts_issuer (config v) claimed = true) vs)
        (Auth (§"no configured issuer accepts tokens from " ++ claimed))
  end.

Definition verify_bearer_via_oidc (e : IdentityEnv) (parts : Parts) (p : IdentityProvider)
    : result Principal TritonError * IdentityProvider :=
  match bearer_from parts with
  | Err err => (Err err, p)
  | Ok token =>
      let via_oidc :=
        match select_verifier (oidc p) token with
        | Err err => (Err err, p)
        | Ok (i, v) =>
            let '(r, v') := Oidc.verify (oidc_env e) token v in
            (r, set_oidc (<[i := v']> (oidc p)) p)
        end in
      match unverified_issuer token, google_access p with
      | None, Some g =>
          let '(r, g') := google_verify iter token_hash (google_env e) token g in
          (r, set_google g' p)
      | _, _ => via_oidc
      end
  end.

Definition identity_verify (e : IdentityEnv) (parts : Parts) (p : IdentityProvider)
    : result Principal TritonError * IdentityProvider :=
  if negb (is_empty (oidc p)) || bool_decide (is_Some (google_access p))
  then verify_bearer_via_oidc e parts p
  else
    let by_bearer :=
      token ←? bearer_from parts;
      verify_dev_or_reject dev_feature token (dev_token p) (fresh_uuid e) in
    (if trust_forwarded_auth p then
       email ←? forwarded_email parts;
       match email with
       | Some email => Ok (forwarded_email_principal email (fresh_uuid e))
       | None => by_bearer
       end
     else by_bearer, p).
End Provider.

(** ** Challenges *)

(** A response, as far as the challenge layers see it. *)
Record Reply := {
  status : Z;
  www_authenticate : option str;
  (** the [InsufficientScope] marker *)
  insufficient_scope : option str;
  session_id : option str;
  body : option Value;
}.

Definition set_challenge (v : str) (r : Reply) : Reply :=
  {| status := status r; www_authenticate := Some v; insufficient_scope := insufficient_scope r;
     session_id := session_id r; body := body r |}.

Definition tag_rejection (challenge : option str) (e : TritonError) (r : Reply) : Reply :=
  match e, challenge with
  | Forbidden _, Some v =>
      {| status := status r; www_authenticate := www_authenticate r; insufficient_scope := Some v;
         session_id := session_id r; body := body r |}
  | _, _ => r
  end.

Definition default_challenge (had_credentials : bool) (r : Reply) : Reply :=
  if (status r =? 401)%Z && bool_decide (www_authenticate r = None)
  then set_challenge (if had_credentials
         then §"Bearer realm=" ++ quoted §"triton" ++ §", error=" ++ quoted §"invalid_token"
         else §"Bearer realm=" ++ quoted §"triton") r
  else r.

(** The layer around a router; [r] is the inner answer. *)
Definition bearer_challenge (had_credentials : bool) (r : Reply) : Reply :=
  match insufficient_scope r with
  | Some v => if (status r =? 403)%Z then set_challenge v r else default_challenge had_credentials r
  | None => default_challenge had_credentials r
  end.

(** ** One endpoint per customer *)

Definition WELL_KNOWN : str := §"/.well-known/oauth-protected-resource".

Record McpRoute := {
  slug : str;
  data_tenant : str;
  tid : str;
  authorization_server : str;
  resource : str;
  route_scopes : list str;
  route_required : list str;
  challenge_bare : str;
  challenge_invalid : str;
  challenge_scope : str;
}.

Definition McpRoute_new (slug data_tenant tid authority origin : str) (scopes : list str)
    : result McpRoute str :=
  if is_empty scopes then Err §"no scope to advertise and require"
  else match list_find (λ s, is_scope_token s = false) scopes with
  | Some (_, bad) => Err (§"`" ++ bad ++ §"` is not an RFC 6749 scope token")
  | None =>
      let tid := to_ascii_lowercase tid in
      let required := (λ s, default s (last (split_on "/" s))) <$> scopes in
      let origin := trim_end_char "/" origin in
      let resource := origin ++ §"/mcp/" ++ slug in
      let metadata_url := origin ++ WELL_KNOWN ++ §"/mcp/" ++ slug in
      let base := §"Bearer realm=" ++ quoted §"triton" ++ §", resource_metadata="
                    ++ quoted metadata_url ++ §", scope=" ++ quoted (join §" " scopes) in
      let header v := result_map_err (λ e, §"challenge `" ++ v ++ §"` is not a header: " ++ e)
                        (header_from_str v) in
      invalid ←? header (base ++ §", error=" ++ quoted §"invalid_token");
      scope ←? header (base ++ §", error=" ++ quoted §"insufficient_scope");
      bare ←? header base;
      Ok {| slug := slug; data_tenant := data_tenant; tid := tid;
            authorization_server := trim_end_char "/" authority ++ §"/" ++ tid ++ §"/v2.0";
            resource := resource; route_scopes := scopes; route_required := required;
            challenge_bare := bare; challenge_invalid := invalid; challenge_scope := scope |}
  end.

Definition route_path (r : McpRoute) : str := §"/mcp/" ++ slug r.

Definition metadata_url (r : McpRoute) : str :=
  let path := route_path r in
  default (resource r) (strip_suffix path (resource r)) ++ WELL_KNOWN ++ path.

Definition metadata (r : McpRoute) : Value :=
  json_object [(§"resource", Value.String (resource r));
               (§"authorization_servers", Value.Array [Value.String (authorization_server r)]);
               (§"scopes_supported", Value.Array (Value.String <$> route_scopes r));
               (§"bearer_methods_supported", Value.Array [Value.String §"header"])].

Definition route_admit (r : McpRoute) (p : Principal) : result unit TritonError :=
  let from_here :=
    match idp p with
    | Some i => bool_decide (name i = §"entra") && bool_decide (idp_tenant i = Some (tid r))
                && bool_decide (Principal.issuer i = Some (authorization_server r))
    | None => false
    end in
  if negb from_here || negb (bool_decide (tenant p = data_tenant r))
  then Err (Auth §"the token is not from this endpoint's Entra directory")
  else if negb (existsb (λ s, bool_decide (s ∈ route_required r)) (scopes p))
  then Err (Forbidden (§"insufficient_scope: the token carries none of " ++ join §" " (route_scopes r)))
  else Ok ().

(** The layer of a customer path. *)
Definition route_challenge (r : McpRoute) (had_credentials : bool) (reply : Reply) : Reply :=
  if (status reply =? 401)%Z
  then set_challenge (if had_credentials then challenge_invalid r else challenge_bare r) reply
  else if (status reply =? 403)%Z then set_challenge (challenge_scope r) reply
  else reply.

(** ** Cross-origin callers *)

Definition is_valid_origin (o : str) : bool :=
  if decide (o = §"*") then false else starts_with §"http://" o || starts_with §"https://" o.

Definition parse_origins (raw : str) : list str := filter (λ s, s ≠ []) (trim <$> split_on "," raw).

(** The origins the layer allows, with credentials; [None]: no layer. *)
Definition cors_origins (origins : list str) : option (list str) :=
  match filter (λ o, is_Some (header_to_str o)) (filter (λ o, is_valid_origin o = true) origins) with
  | [] => None
  | parsed => Some parsed
  end.

(** ** Proofs *)

Lemma ct_eq_str_spec a b : ct_eq_str a b = true ↔ a = b.
Proof.
  unfold ct_eq_str. split.
  - intros [Hp Hl]%andb_prop. bool_facts. unfold padded in Hp. rewrite Hl in Hp.
    by apply app_inv_tail in Hp.
  - intros ->. by rewrite bool_decide_true, Nat.eqb_refl.
Qed.

Section ProviderFacts.
Context `{SerdeJson, Jwt}.
Variable iter : gmap str HdCacheEntry → list (str * HdCacheEntry).
Variable token_hash : str → str.

Lemma select_verifier_Ok vs tok i v :
  select_verifier vs tok = Ok (i, v) →
  vs !! i = Some v
  ∧ (vs = [v] ∨ ∃ iss, unverified_issuer tok = Some iss ∧ accepts_issuer (config v) iss = true).
Proof using Type.
  assert (∀ l (err : TritonError) (err' : str → TritonError), (claimed ←? ok_or (unverified_issuer tok) err;
      ok_or (list_find (λ v, accepts_issuer (config v) claimed = true) l) (err' claimed))
      = Ok (i, v) → l !! i = Some v
      ∧ ∃ iss, unverified_issuer tok = Some iss ∧ accepts_issuer (config v) iss = true) as Hl.
  { intros l err err'. destruct (unverified_issuer tok) as [iss|]; [|done].
    cbn [ok_or result_bind]. destruct (list_find _ l) as [[j v']|] eqn:Hf; [|done].
    intros [= -> ->]. apply list_find_Some in Hf as (Hv & Ha & _). eauto. }
  unfold select_verifier. destruct vs as [|v1 [|v2 vs]].
  - intros Hs. apply (Hl [] _ (λ c, Auth (§"no configured issuer accepts tokens from " ++ c)))
      in Hs as [? ?]. eauto.
  - intros [= <- <-]. eauto.
  - intros Hs. apply (Hl (v1 :: v2 :: vs) _
      (λ c, Auth (§"no configured issuer accepts tokens from " ++ c))) in Hs as [? ?]. eauto.
Qed.

(** Who may pass when a token verifier is configured. *)
Definition by_token (e : IdentityEnv) (s : IdentityProvider) (tok : str) (p : Principal) : Prop :=
  (∃ i v v', oidc s !! i = Some v ∧ Oidc.verify (oidc_env e) tok v = (Ok p, v')
     ∧ (oidc s = [v]
        ∨ ∃ iss, unverified_issuer tok = Some iss ∧ accepts_issuer (config v) iss = true))
  ∨ (∃ g g', google_access s = Some g ∧ unverified_issuer tok = None
       ∧ google_verify iter token_hash (google_env e) tok g = (Ok p, g')).

Lemma verify_bearer_Ok e parts s p s' :
  verify_bearer_via_oidc iter token_hash e parts s = (Ok p, s') →
  ∃ tok, bearer_from parts = Ok tok ∧ by_token e s tok p.
Proof using Type.
  unfold verify_bearer_via_oidc. intros Hv.
  destruct (bearer_from parts) as [tok|]; [|done]. exists tok. split; [done|].
  assert (∀ r, match select_verifier (oidc s) tok with
               | Ok (i, v) => let '(r, v') := Oidc.verify (oidc_env e) tok v in
                              (r, set_oidc (<[i := v']> (oidc s)) s)
               | Err err => (Err err, s)
               end = r → r.1 = Ok p → by_token e s tok p) as Hoidc.
  { intros r <- Hr. left. destruct (select_verifier (oidc s) tok) as [[i v]|] eqn:Hs; [|done].
    apply select_verifier_Ok in Hs as [? ?].
    destruct (Oidc.verify (oidc_env e) tok v) as [r v'] eqn:Ho. cbn in Hr. subst r.
    by exists i, v, v'. }
  destruct (unverified_issuer tok) as [iss|] eqn:Hu; [by eapply Hoidc; [exact Hv|]|].
  destruct (google_access s) as [g|] eqn:Hg; [|by eapply Hoidc; [exact Hv|]].
  destruct (google_verify _ _ _ tok g) as [r g'] eqn:Hgv. cbn in Hv. simplify_eq. right. eauto 10.
Qed.
End ProviderFacts.

(** C10: one way in at a time.  With a token verifier configured, a principal
    comes only out of a bearer token that one of the configured verifiers
    accepted: the one verifier there is, or the one that accepts the issuer the
    token names, or the Google verifier for a token that names none; neither the
    forwarded email nor the development token admits anyone.  Without one, the
    forwarded email is believed only where the operator said so, and the
    development token only where it was compiled in, is not empty, and is the
    bearer presented. *)
Theorem identity_single_path `{SerdeJson, Jwt} iter token_hash dev e parts s p s' :
  identity_verify iter token_hash dev e parts s = (Ok p, s') →
  (if decide (oidc s = [] ∧ google_access s = None) then
     (trust_forwarded_auth s = true ∧ ∃ email, forwarded_email parts = Ok (Some email)
        ∧ p = forwarded_email_principal email (fresh_uuid e))
     ∨ (dev = true ∧ dev_token s ≠ [] ∧ bearer_from parts = Ok (dev_token s)
        ∧ sub p = §"dev-user" ∧ tenant p = §"dev")
   else ∃ tok, bearer_from parts = Ok tok ∧ by_token iter token_hash e s tok p).
Proof.
  unfold identity_verify. intros Hv. case_decide as Hd.
  - destruct Hd as [Ho Hg]. rewrite Ho, Hg in Hv. cbn in Hv. injection Hv as Hv <-.
    assert (∀ r, (tok ←? bearer_from parts; verify_dev_or_reject dev tok (dev_token s) (fresh_uuid e))
              = r → r = Ok p →
            dev = true ∧ dev_token s ≠ [] ∧ bearer_from parts = Ok (dev_token s)
            ∧ sub p = §"dev-user" ∧ tenant p = §"dev") as Hdev.
    { intros r <-. destruct (bearer_from parts) as [tok|]; [|done]. cbn.
      unfold verify_dev_or_reject. destruct dev; [|done]. case_if; [done|]. bool_facts.
      intros [= <-]. cbn. split_and!; [done| |by f_equal; apply ct_eq_str_spec|done..].
      intros E. by rewrite E in *. }
    destruct (trust_forwarded_auth s); [|right; by eapply Hdev].
    destruct (forwarded_email parts) as [[email|]|]; cbn in Hv; [|right; by eapply Hdev|done].
    left. split; [done|]. exists email. by simplify_eq.
  - assert (negb (is_empty (oidc s)) || bool_decide (is_Some (google_access s)) = true) as Hb.
    { destruct (oidc s) eqn:E1; [|done]. destruct (google_access s) eqn:E2; [done|]. by destruct Hd. }
    rewrite Hb in Hv. by apply verify_bearer_Ok in Hv.
Qed.

Lemma admit_Ok r p :
  route_admit r p = Ok () →
  (∃ i, idp p = Some i ∧ name i = §"entra" ∧ idp_tenant i = Some (tid r)
     ∧ Principal.issuer i = Some (authorization_server r))
  ∧ tenant p = data_tenant r ∧ ∃ s, s ∈ scopes p ∧ s ∈ route_required r.
Proof.
  unfold route_admit. intros Ha. destruct (idp p) as [i|] eqn:Hi; [|done].
  destruct (bool_decide (name i = §"entra") && _ && _) eqn:Hf; [|done].
  destruct (bool_decide (tenant p = data_tenant r)) eqn:Ht; [|done]. cbn in Ha.
  destruct (existsb _ (scopes p)) eqn:Hs; [|done].
  apply existsb_exists in Hs as (s & Hin%list_elem_of_In & ?). bool_facts. eauto 10.
Qed.

(** A customer's endpoint answers that customer's directory only.  A token
    that a verifier accepts and the endpoint then admits is signed by a key the
    verifier holds, comes from exactly the directory the endpoint's metadata
    names (its issuer, and its tenant in the [tid] claim), maps to the
    endpoint's data tenant, and carries one of the delegated scopes. *)
Theorem mcp_route_binds_directory `{JwtLaws} e tok v p v' r :
  Oidc.verify e tok v = (Ok p, v') → route_admit r p = Ok () →
  ∃ alg kid key jwt claims,
    keys v' !! kid = Some key ∧ signed key alg tok
    ∧ payload tok = Some jwt ∧ claims_of_value jwt = Some claims
    ∧ match multi_tenant_entra (config v) with
      | Some _ => get_str §"iss" jwt = Some (authorization_server r)
      | None => claim_in §"iss" [Oidc.issuer (config v)] jwt
          ∧ trim_end_char "/" (Oidc.issuer (config v)) = authorization_server r
      end
    ∧ c_tid claims = Some (tid r) ∧ tenant p = data_tenant r
    ∧ ∃ s, s ∈ claim_scopes claims ∧ s ∈ route_required r.
Proof.
  intros (h & kid & key & claims & ctx & _ & _ & _ & Hm & Hkey & Hd & Hb)%verify_Ok.
  apply decode_sound in Hd as (Hs & jwt & Hp & Hc & Hiss & _ & _).
  apply build_principal_Ok in Hb as (Ht & _ & _ & Hsc & _ & _ & Hidp).
  intros ((i & Hi & Hn & Htid & His) & Hten & Hscope)%admit_Ok.
  rewrite Hidp in Hi. injection Hi as <-. rewrite Hsc in Hscope.
  exists (h_alg h), kid, key, jwt, claims. repeat split_and!; try done.
  - unfold mt_context in Hm. destruct (multi_tenant_entra (config v)) as [mt|].
    + destruct (entra_context mt tok) as [[[iss td] tn]|] eqn:Hctx; [|done]. injection Hm as <-.
      apply entra_context_Ok in Hctx as (Hu & _). injection His as ->.
      unfold unverified_issuer in Hu. by rewrite Hp in Hu.
    + injection Hm as <-. split; [done|]. by injection His.
  - destruct ctx as [[[iss td] tn]|]; cbn in Ht.
    + case_decide; [|done]. cbn in Htid. case_if; [done|]. congruence.
    + cbn [name token_idp IdpIdentity_issuer IdpIdentity_email IdpIdentity_tenant IdpIdentity_new]
        in Hn. unfold token_idp in Htid. rewrite Hn in Htid.
      rewrite decide_True in Htid by done. cbn in Htid.
      destruct (c_tid claims) as [t|]; cbn in Htid; [|done]. case_if; congruence.
Qed.

(** Every 401 leaves the layer with a challenge, a 403 of the scope check with
    its own; anything else passes unchanged. *)
Lemma bearer_challenge_spec had r :
  status (bearer_challenge had r) = status r ∧ body (bearer_challenge had r) = body r
  ∧ (status r = 401%Z → is_Some (www_authenticate (bearer_challenge had r)))
  ∧ (∀ v, status r = 403%Z → insufficient_scope r = Some v →
       www_authenticate (bearer_challenge had r) = Some v)
  ∧ (status r ≠ 401%Z → status r ≠ 403%Z → bearer_challenge had r = r).
Proof.
  unfold bearer_challenge, default_challenge.
  destruct (insufficient_scope r) as [v|], (www_authenticate r) as [w|] eqn:Hw;
    destruct (Z.eqb_spec (status r) 401), (Z.eqb_spec (status r) 403); cbn;
    rewrite ?Hw; split_and!; intros; simplify_eq; eauto; lia.
Qed.

Lemma header_from_str_Ok v w : header_from_str v = Ok w → w = v.
Proof. unfold header_from_str. case_if; congruence. Qed.

(** The challenge of a customer path points at the document served for it. *)
Lemma challenge_names_metadata sl dt t auth origin ss r :
  McpRoute_new sl dt t auth origin ss = Ok r →
  ∃ a b, challenge_bare r = a ++ quoted (metadata_url r) ++ b.
Proof.
  unfold McpRoute_new. destruct (is_empty ss); [done|].
  destruct (list_find _ ss) as [[? ?]|]; [done|]. intros Hr.
  do 3 match type of Hr with
    context [header_from_str ?x] => destruct (header_from_str x) eqn:?;
      cbn [result_map_err result_bind] in Hr; [|done]
  end.
  injection Hr as <-. unfold metadata_url, route_path. cbn [resource slug challenge_bare].
  rewrite strip_suffix_app.
  cbn [default from_option id].
  exists (§"Bearer realm=" ++ quoted §"triton" ++ §", resource_metadata="),
    (§", scope=" ++ quoted (join §" " ss)).
  repeat match goal with E : header_from_str _ = Ok _ |- _ => apply header_from_str_Ok in E end.
  subst. by rewrite <- !app_assoc.
Qed.

(** A wildcard is never among the origins that may send credentials. *)
Lemma cors_no_wildcard os l o :
  cors_origins os = Some l → o ∈ l →
  o ∈ os ∧ o ≠ §"*" ∧ (starts_with §"http://" o = true ∨ starts_with §"https://" o = true).
Proof.
  unfold cors_origins. intros Hl Ho.
  assert (o ∈ filter (λ o, is_Some (header_to_str o))
            (filter (λ o, is_valid_origin o = true) os)) as Hin.
  { destruct (filter (λ o, is_Some (header_to_str o)) _); congruence. }
  apply list_elem_of_filter in Hin as [_ [Hv Hin]%list_elem_of_filter].
  unfold is_valid_origin in Hv. case_decide; [done|]. split; [done|]. split; [done|].
  by apply orb_prop in Hv.
Qed.

(** ** Instances *)

#[local] Existing Instance demo_json.
#[local] Existing Instance demo_jwt.

Definition demo_parts : Parts :=
  {| authorization := Some (§"Bearer " ++ demo_token); forwarded := Some §"root@ops";
     accept := []; protocol_version := None; mcp_method := None; mcp_session_id := None |}.
Definition demo_provider : IdentityProvider := with_verifiers [demo_verifier] true.
Definition demo_identity_env : IdentityEnv :=
  {| oidc_env := Oidc.demo_env; google_env := demo_call; fresh_uuid := §"u" |}.
Definition demo_alice : Principal := Eval vm_compute in
  match (identity_verify map_to_list demo_hash true demo_identity_env demo_parts demo_provider).1
  with Ok p => p | Err _ => demo_principal end.
Definition demo_after : IdentityProvider :=
  (identity_verify map_to_list demo_hash true demo_identity_env demo_parts demo_provider).2.

Lemma demo_identified :
  identity_verify map_to_list demo_hash true demo_identity_env demo_parts demo_provider
  = (Ok demo_alice, demo_after).
Proof. vm_compute. reflexivity. Qed.

Lemma identity_single_path_witness :
  sub demo_alice = §"alice"
  ∧ ∃ tok, by_token map_to_list demo_hash demo_identity_env demo_provider tok demo_alice.
Proof.
  split; [reflexivity|].
  pose proof (identity_single_path map_to_list demo_hash true demo_identity_env demo_parts
    demo_provider demo_alice demo_after demo_identified) as Hp.
  destruct (decide (oidc demo_provider = [] ∧ google_access demo_provider = None)) as [[Hd _]|_].
  - discriminate Hd.
  - destruct Hp as (tok & _ & Hp). exists tok. exact Hp.
Defined.

Definition demo_route : result McpRoute str :=
  McpRoute_new §"acme" §"acme" demo_tid ENTRA_AUTHORITY §"https://gw.example"
    [§"api://gateway/access_as_user"].

Lemma mcp_route_binds_directory_witness :
  ∃ r claims, demo_route = Ok r ∧ route_admit r demo_alice = Ok () ∧ c_tid claims = Some (tid r).
Proof.
  destruct demo_route as [r|] eqn:Hr; [|discriminate Hr].
  assert (route_admit r demo_alice = Ok ()) as Ha.
  { apply (f_equal (λ x, match x with Ok r => route_admit r demo_alice | Err _ => Ok () end)) in Hr.
    etransitivity; [symmetry; exact Hr|]. vm_compute. reflexivity. }
  destruct (@mcp_route_binds_directory _ _ demo_laws Oidc.demo_env demo_token demo_verifier
    demo_alice (Oidc.verify Oidc.demo_env demo_token demo_verifier).2 r)
    as (alg & kid & key & jwt & claims & _ & _ & _ & _ & _ & Ht & _).
  - vm_compute. reflexivity.
  - exact Ha.
  - exists r, claims. split; [reflexivity|]. split; [exact Ha|exact Ht].
Defined.
