(* ===== verification/Rest.v ===== *)
(** * Rest: the REST face (crates/triton-adapters-http/src/rest.rs)

    Handlers over the state the HTTP faces share: the dispatcher's [World] and
    the identity provider.  A handler that answers JSON built from a typed value
    returns the value ([Ok], sent with 200) or the error reply.  The preview
    endpoint ([surface_render]) and the static discovery documents are left
    out. *)

From S2P Require Import Prelude Json Errors Principal RateLimit Stream Context AuditLog.
From S2P Require Import Dispatcher Oidc GoogleToken A2ui HttpIdentity Manifest.

(** ** Shared shapes *)

Definition plain_reply (st : Z) (b : Value) : Reply :=
  {| HttpIdentity.status := st; www_authenticate := None; insufficient_scope := None;
     session_id := None; HttpIdentity.body := Some b |}.

Definition error_response (e : TritonError) (trace : option str) : Reply :=
  plain_reply (http_status e)
    (json_object ([(§"error", Value.String (class e)); (§"message", Value.String (to_string e))]
       ++ match trace with Some t => [(§"trace_id", Value.String t)] | None => [] end)).

Definition envelope (d : DispatchResult) : Value :=
  json_object [(§"result", dr_result d); (§"trace_id", Value.String (dr_trace_id d));
               (§"latency_ms", Value.Number (Value.Int (dr_latency_ms d)))].

Definition builder_version (v : A2uiVersion) : BuilderVersion :=
  match v with V08 => BV08 | V09 => BV09 end.

(** ** Content negotiation *)

Fixpoint trim_quotes (s : str) : str :=
  match s with
  | c :: r => if (byte c =? 34)%N then trim_quotes r else s
  | [] => []
  end.
(** [trim_matches] of the double quote. *)
Definition unquote (s : str) : str := rev (trim_quotes (rev (trim_quotes s))).

(** The version parameter of one media range: the first there is. *)
Fixpoint range_version (params : list str) : option (result A2uiVersion TritonError) :=
  match params with
  | [] => None
  | p :: ps =>
      match strip_prefix §"version=" p with
      | Some v =>
          let v := unquote v in
          Some (if decide (v = §"0.8") then Ok V08
                else if decide (v = §"0.9") then Ok V09
                else Err (Validation (§"unknown A2UI version: " ++ v)))
      | None => range_version ps
      end
  end.

Fixpoint accept_ranges (entries : list str) (found : option A2uiVersion)
    : result (option A2uiVersion) TritonError :=
  match entries with
  | [] => Ok found
  | e :: es =>
      match trim <$> split_on ";" e with
      | media :: params =>
          if decide (media = §"application/json+a2ui") then
            match range_version params with
            | Some r => result_map Some r
            | None => accept_ranges es (Some V08)
            end
          else accept_ranges es found
      | [] => accept_ranges es found
      end
  end.

Definition parse_a2ui_accept (parts : Parts) : result (option A2uiVersion) TritonError :=
  match accept parts with
  | [] => Ok None
  | raw :: _ =>
      s ←? ok_or (header_to_str raw) (Validation §"non-ASCII Accept header");
      accept_ranges (split_on "," s) None
  end.

Definition wants_sse (parts : Parts) : bool :=
  existsb (λ v,
    match header_to_str v with
    | Some s => existsb (λ range,
        bool_decide (trim <$> head (split_on ";" range) = Some §"text/event-stream"))
        (split_on "," s)
    | None => false
    end) (accept parts).

(** ** Who may read the audit trail *)

Definition is_named_operator (p : Principal) (operators : gset (str * str)) (env : str) : bool :=
  let claims_scope := bool_decide (AUDIT_READ_ALL_SCOPE ∈ scopes p) in
  let named := bool_decide (env = §"local") || bool_decide ((tenant p, sub p) ∈ operators) in
  claims_scope && named.

Definition audit_visibility_in (p : Principal) (operators : gset (str * str)) (env : str)
    (e : AuditEntry) : bool :=
  let operator := is_named_operator p operators env in
  let scopable := negb (is_reserved_tenant (tenant p)) in
  operator || (scopable && bool_decide (au_tenant e = tenant p)).

Definition AUDIT_LIMIT_DEFAULT : nat := 50.
Definition AUDIT_LIMIT_MAX : nat := 500.

Definition bodies_visible (entries : list AuditEntry) : bool := negb (is_empty entries).

Definition may_read_trace (p : Principal) (operators : gset (str * str)) (env trace : str)
    (q : list AuditEntry) : bool :=
  let scopable := negb (is_reserved_tenant (tenant p)) in
  let operator := is_named_operator p operators env in
  bodies_visible (recent_where AUDIT_LIMIT_MAX (Some trace)
    (λ e, operator
          || (bool_decide (subject e = sub p) && bool_decide (au_tenant e = tenant p))
          || (scopable && bool_decide (au_tenant e = tenant p))) q).

(** ** Handlers *)

Record HttpState (W : Type) `{Jwt} := {
  hs_world : World W;
  hs_identity : IdentityProvider;
}.
Arguments hs_world {W _} _.
Arguments hs_identity {W _} _.
Arguments Build_HttpState {W _} _ _.

(** What a request reads: for its identity, the clock of a dispatch, and the
    timestamp, instant and identifier of a rejection. *)
Record HttpEnv `{Jwt} := {
  he_identity : IdentityEnv;
  he_clock : Clock;
  he_when : str;
  he_now : Z;
  he_uuid : str;
}.

Section Handlers.
Context {W : Type} `{SerdeJson, Jwt, UrlParse, SerdeA2ui}.
Variable iter : gmap str HdCacheEntry → list (str * HdCacheEntry).
Variable token_hash : str → str.
Variable dev_feature : bool.
Variable debug_set : gset str → str.
Variable json_error : str → str.
(** The hosts [http://] links may name. *)
Variable cell : HttpHosts.
Variable d : Dispatcher W.
Variable operators : gset (str * str).

Definition wrap_a2ui (v : A2uiVersion) (res : Value) : result Value str :=
  result_map (λ s, build_envelope s (builder_version v)) (extract_surface cell res).

Definition wrap_a2ui_if_requested (requested : option A2uiVersion) (x : DispatchResult)
    : result DispatchResult TritonError :=
  match requested with
  | None => Ok x
  | Some v =>
      if negb (dr_returns_a2ui x) then Ok x
      else
        r ←? result_map_err (λ e, Tool (§"tool advertised A2UI but " ++ e))
               (wrap_a2ui v (dr_result x));
        Ok {| dr_result := r; dr_trace_id := dr_trace_id x; dr_latency_ms := dr_latency_ms x;
              dr_returns_a2ui := dr_returns_a2ui x |}
  end.

(** A refusal at the boundary, before there is a principal. *)
Definition reject_anonymous (env : HttpEnv) (surface protocol : str) (e : TritonError)
    (s : HttpState W) : HttpState W :=
  Build_HttpState (record_rejection d (he_when env) (he_now env) surface protocol §"-" §"-"
                     (he_uuid env) e (hs_world s)) (hs_identity s).

(** The opening of every authenticated handler. *)
Definition authenticate (env : HttpEnv) (surface : str) (parts : Parts) (s : HttpState W)
    : result Principal Reply * HttpState W :=
  let '(r, prov) := identity_verify iter token_hash dev_feature (he_identity env) parts
                      (hs_identity s) in
  let s := Build_HttpState (hs_world s) prov in
  match r with
  | Ok p => (Ok p, s)
  | Err e => (Err (tag_rejection (scope_challenge prov) e (error_response e None)),
              reject_anonymous env surface §"rest" e s)
  end.

(** The revocation check of the surfaces that do not dispatch. *)
Definition not_revoked (env : HttpEnv) (surface : str) (p : Principal) (s : HttpState W)
    : result unit Reply * HttpState W :=
  let '(r, w) := deny_if_revoked d (he_clock env) p surface §"rest" (hs_world s) in
  (result_map_err (λ e, error_response e (Some (trace_id p))) r, Build_HttpState w (hs_identity s)).

Record AuditTail := {
  tail_entries : list AuditEntry;
  tail_limit : nat;
  tail_trace_id : option str;
}.

Definition audit_tail (env : HttpEnv) (limit : nat) (trace : option str) (parts : Parts)
    (s : HttpState W) : result AuditTail Reply * HttpState W :=
  let '(r, s) := authenticate env §"v1/audit" parts s in
  match r with
  | Err reply => (Err reply, s)
  | Ok p =>
      let '(r, s) := not_revoked env §"v1/audit" p s in
      match r with
      | Err reply => (Err reply, s)
      | Ok _ =>
          let limit := Nat.min (Nat.max limit 1) AUDIT_LIMIT_MAX in
          let trace := trace ≫= λ t, if is_empty t then None else Some t in
          (Ok {| tail_entries := recent_where limit trace
                   (audit_visibility_in p operators (d_env d)) (buffer (sinks (hs_world s)));
                 tail_limit := limit; tail_trace_id := trace |}, s)
      end
  end.

Record TraceView := {
  view_trace_id : str;
  view_entries : list AuditEntry;
  view_bodies : list Value;
}.

(** [captured] is the capture store, empty unless it is compiled in. *)
Definition trace_view (captured : str → list Value) (env : HttpEnv) (trace : str) (parts : Parts)
    (s : HttpState W) : result TraceView Reply * HttpState W :=
  let '(r, s) := authenticate env §"v1/trace" parts s in
  match r with
  | Err reply => (Err reply, s)
  | Ok p =>
      let '(r, s) := not_revoked env §"v1/trace" p s in
      match r with
      | Err reply => (Err reply, s)
      | Ok _ =>
          let q := buffer (sinks (hs_world s)) in
          (Ok {| view_trace_id := trace;
                 view_entries := rev (recent_where AUDIT_LIMIT_MAX (Some trace)
                   (audit_visibility_in p operators (d_env d)) q);
                 view_bodies := if may_read_trace p operators (d_env d) trace q
                                then captured trace else [] |}, s)
      end
  end.

Record ManifestView := {
  mv_manifest : option Manifest;
  mv_surfaces : gmap str Value;
}.

Definition manifest_view (manifest : option Manifest) (env : HttpEnv) (parts : Parts)
    (s : HttpState W) : result ManifestView Reply * HttpState W :=
  let '(r, s) := authenticate env §"v1/manifest" parts s in
  (result_map (λ _, {| mv_manifest := manifest; mv_surfaces := surfaces d |}) r, s).

(** The registry listing; [descriptors] is what the dispatcher describes. *)
Definition list_tools (descriptors : Value) (env : HttpEnv) (parts : Parts) (s : HttpState W)
    : result Value Reply * HttpState W :=
  let '(r, s) := authenticate env §"v1/tools" parts s in
  (result_map (λ _, json_object [(§"tools", descriptors)]) r, s).

Inductive ToolReply :=
  | JsonReply (r : Reply)
  (** an open event stream *)
  | SseReply (p : Principal) (events : Streamed (W := W)).

Definition array_under_meta (k : str) (v : Value) : option Value :=
  match value_get §"_meta" v ≫= value_get k with
  | Some (Value.Array l) => Some (Value.Array l)
  | _ => None
  end.

Definition invoke_tool (env : HttpEnv) (tool_name : str) (parts : Parts) (body : str)
    (s : HttpState W) : ToolReply * HttpState W :=
  match parse_a2ui_accept parts with
  | Err e => (JsonReply (error_response e None), reject_anonymous env tool_name §"rest" e s)
  | Ok requested =>
      let '(r, s) := authenticate env tool_name parts s in
      match r with
      | Err reply => (JsonReply reply, s)
      | Ok p =>
          if wants_sse parts then
            let '(r, w) := invoke_streaming_with_bytes debug_set json_error wrap_a2ui d (he_clock env)
                             tool_name body p §"rest" requested (hs_world s) in
            (match r with
             | Ok events => SseReply p events
             | Err e => JsonReply (error_response e (Some (trace_id p)))
             end, Build_HttpState w (hs_identity s))
          else
            let '(r, w) := invoke_with_bytes debug_set json_error d (he_clock env) tool_name body p
                             §"rest" (hs_world s) in
            (JsonReply
               match r with
               | Ok x =>
                   let tool_trace := array_under_meta §"tool_trace" (dr_result x) in
                   match wrap_a2ui_if_requested requested x with
                   | Ok x =>
                       plain_reply 200
                         match tool_trace with
                         | Some t => object_insert §"tool_trace" t (envelope x)
                         | None => envelope x
                         end
                   | Err e => error_response e (Some (trace_id p))
                   end
               | Err e => error_response e (Some (trace_id p))
               end, Build_HttpState w (hs_identity s))
      end
  end.
End Handlers.

(** ** Reading the audit trail *)

Lemma recent_where_elem limit trace vis q e :
  e ∈ recent_where limit trace vis q →
  e ∈ q ∧ vis e = true ∧ (∀ t, trace = Some t → au_trace_id e = t).
Proof.
  unfold recent_where. intros He.
  assert (e ∈ filter (λ e, vis e = true)
    match trace with Some t => filter (λ e, au_trace_id e = t) (rev q) | None => rev q end) as Hf.
  { destruct (list_elem_of_lookup_1 _ _ He) as [i Hi].
    apply lookup_take_Some in Hi as [Hi _]. by eapply list_elem_of_lookup_2. }
  apply list_elem_of_filter in Hf as [Hv Hin].
  assert (∀ x, x ∈ rev q → x ∈ q) as Hrev.
  { intros x Hx. apply list_elem_of_In. rewrite list_elem_of_In in Hx. by apply in_rev. }
  destruct trace as [t|].
  - apply list_elem_of_filter in Hin as [Ht Hin]. split_and!; [by apply Hrev|done|].
    by intros ? [= <-].
  - split_and!; [by apply Hrev|done|done].
Qed.

Lemma recent_where_length limit trace vis q : length (recent_where limit trace vis q) ≤ limit.
Proof. unfold recent_where. rewrite length_take. lia. Qed.

(** The rows a caller is entitled to. *)
Definition entitled (operators : gset (str * str)) (env : str) (p : Principal) (e : AuditEntry)
    : Prop :=
  (AUDIT_READ_ALL_SCOPE ∈ scopes p ∧ (env = §"local" ∨ (tenant p, sub p) ∈ operators))
  ∨ (is_reserved_tenant (tenant p) = false ∧ au_tenant e = tenant p).

Lemma is_named_operator_spec p ops env :
  is_named_operator p ops env = true →
  AUDIT_READ_ALL_SCOPE ∈ scopes p ∧ (env = §"local" ∨ (tenant p, sub p) ∈ ops).
Proof.
  unfold is_named_operator. intros [Hs Hn]%andb_prop. bool_facts. split; [done|].
  apply orb_prop in Hn as [Hn|Hn]; bool_facts; auto.
Qed.

Lemma visible_entitled p ops env e :
  audit_visibility_in p ops env e = true → entitled ops env p e.
Proof.
  unfold audit_visibility_in. intros [Ho|Hs]%orb_prop.
  - left. by apply is_named_operator_spec.
  - right. by bool_facts.
Qed.

Section HandlerFacts.
Context {W : Type} `{SerdeJson, Jwt, UrlParse, SerdeA2ui}.
Variable iter : gmap str HdCacheEntry → list (str * HdCacheEntry).
Variable token_hash : str → str.
Variable dev : bool.
Variable debug_set : gset str → str.
Variable json_error : str → str.
Variable cell : HttpHosts.
Variable d : Dispatcher W.
Variable operators : gset (str * str).
Implicit Types (s : HttpState W) (env : HttpEnv).

(** The identity the request was verified as. *)
Definition verified env parts s (p : Principal) : Prop :=
  (identity_verify iter token_hash dev (he_identity env) parts (hs_identity s)).1 = Ok p.

Lemma authenticate_cases env surf parts s :
  let '(r, s') := authenticate iter token_hash dev d env surf parts s in
  match r with
  | Ok p => verified env parts s p ∧ hs_world s' = hs_world s
  | Err reply => ∃ e,
      (identity_verify iter token_hash dev (he_identity env) parts (hs_identity s)).1 = Err e
      ∧ HttpIdentity.status reply = http_status e
      ∧ outside (hs_world s') = outside (hs_world s)
      ∧ hs_world s' = record_rejection d (he_when env) (he_now env) surf §"rest" §"-" §"-"
                        (he_uuid env) e (hs_world s)
  end.
Proof using Type.
  unfold authenticate, verified.
  destruct (identity_verify _ _ _ _ _ _) as [[p|e] prov] eqn:Hv; cbn; [done|].
  exists e. split_and!; [done| | |done].
  - unfold tag_rejection. destruct e, (scope_challenge prov); done.
  - unfold record_rejection. repeat case_match; done.
Qed.

Lemma not_revoked_Ok env surf p s u s' :
  not_revoked d env surf p s = (Ok u, s') →
  is_denied d p = false ∧ hs_world s' = hs_world s.
Proof using Type.
  unfold not_revoked, deny_if_revoked. destruct (is_denied d p) eqn:Hd; cbn.
  - done.
  - by intros [= _ <-].
Qed.

Lemma audit_tail_Ok env limit trace parts s r s' :
  audit_tail iter token_hash dev d operators env limit trace parts s = (Ok r, s') →
  ∃ p, verified env parts s p ∧ is_denied d p = false ∧ hs_world s' = hs_world s
    ∧ length (tail_entries r) ≤ 500
    ∧ ∀ e, e ∈ tail_entries r → e ∈ buffer (sinks (hs_world s)) ∧ entitled operators (d_env d) p e.
Proof using Type.
  unfold audit_tail. intros Ha.
  pose proof (authenticate_cases env §"v1/audit" parts s) as Hc.
  destruct (authenticate _ _ _ _ _ _ _ _) as [[p|reply] s1]; [|done]. destruct Hc as [Hv Hw].
  destruct (not_revoked d env §"v1/audit" p s1) as [[u|reply] s2] eqn:Hn; [|done].
  apply not_revoked_Ok in Hn as [Hd Hw2]. injection Ha as <- <-. rewrite Hw2, Hw.
  exists p. split_and!; [done..| |].
  - cbn [tail_entries]. etransitivity; [apply recent_where_length|]. unfold AUDIT_LIMIT_MAX. lia.
  - cbn [tail_entries]. intros e (Hin & Hvis & _)%recent_where_elem. split; [done|].
    by apply visible_entitled.
Qed.

Lemma trace_view_Ok captured env trace parts s r s' :
  trace_view iter token_hash dev d operators captured env trace parts s = (Ok r, s') →
  ∃ p, verified env parts s p ∧ is_denied d p = false ∧ hs_world s' = hs_world s
    ∧ length (view_entries r) ≤ 500
    ∧ (∀ e, e ∈ view_entries r → e ∈ buffer (sinks (hs_world s)) ∧ au_trace_id e = trace
         ∧ entitled operators (d_env d) p e)
    ∧ (view_bodies r ≠ [] → ∃ e, e ∈ buffer (sinks (hs_world s)) ∧ au_trace_id e = trace
         ∧ (entitled operators (d_env d) p e
            ∨ subject e = sub p ∧ au_tenant e = tenant p)).
Proof using Type.
  unfold trace_view. intros Ha.
  pose proof (authenticate_cases env §"v1/trace" parts s) as Hc.
  destruct (authenticate _ _ _ _ _ _ _ _) as [[p|reply] s1]; [|done]. destruct Hc as [Hv Hw].
  destruct (not_revoked d env §"v1/trace" p s1) as [[u|reply] s2] eqn:Hn; [|done].
  apply not_revoked_Ok in Hn as [Hd Hw2]. injection Ha as <- <-. rewrite Hw2, Hw.
  exists p. split_and!; [done..| | |].
  - cbn [view_entries]. rewrite length_rev. apply recent_where_length.
  - cbn [view_entries]. intros e He. apply list_elem_of_In, in_rev, list_elem_of_In in He.
    apply recent_where_elem in He as (Hin & Hvis & Ht). split_and!; [done|by apply Ht|].
    by apply visible_entitled.
  - cbn [view_bodies]. unfold may_read_trace, bodies_visible.
    destruct (recent_where AUDIT_LIMIT_MAX _ _ _) as [|e l] eqn:Hr; [done|]. intros _.
    assert (e ∈ e :: l) as He by constructor. rewrite <- Hr in He.
    apply recent_where_elem in He as (Hin & Hvis & Ht). exists e. split_and!; [done|by apply Ht|].
    apply orb_prop in Hvis as [[Ho|Hown]%orb_prop|Hs]; bool_facts.
    + left. left. by apply is_named_operator_spec.
    + by right.
    + left. by right.
Qed.
End HandlerFacts.

(** C15: the audit trail is read per tenant.  Both endpoints answer only a
    verified caller who has not been revoked, change nothing, and show only
    rows the caller is entitled to: all of them to a caller with the operator
    scope whom the deployment named (or in the local environment), and
    otherwise those of the caller's own tenant, never those of a reserved
    tenant that unidentified callers share.  Either returns at most 500 rows; the
    bodies of a trace are returned only if one of its rows is one the caller is
    entitled to, or was written for the caller itself. *)
Theorem audit_reads_tenant_scoped {W} `{SerdeJson, Jwt} iter token_hash dev (d : Dispatcher W)
    operators captured env limit trace parts s :
  (∀ r s', audit_tail iter token_hash dev d operators env limit trace parts s = (Ok r, s') →
   ∃ p, verified iter token_hash dev env parts s p ∧ is_denied d p = false
     ∧ hs_world s' = hs_world s ∧ length (tail_entries r) ≤ 500
     ∧ ∀ e, e ∈ tail_entries r →
         e ∈ buffer (sinks (hs_world s)) ∧ entitled operators (d_env d) p e)
  ∧ (∀ t r s', trace_view iter token_hash dev d operators captured env t parts s = (Ok r, s') →
     ∃ p, verified iter token_hash dev env parts s p ∧ is_denied d p = false
       ∧ hs_world s' = hs_world s ∧ length (view_entries r) ≤ 500
       ∧ (∀ e, e ∈ view_entries r → e ∈ buffer (sinks (hs_world s)) ∧ au_trace_id e = t
            ∧ entitled operators (d_env d) p e)
       ∧ (view_bodies r ≠ [] → ∃ e, e ∈ buffer (sinks (hs_world s)) ∧ au_trace_id e = t
            ∧ (entitled operators (d_env d) p e ∨ subject e = sub p ∧ au_tenant e = tenant p))).
Proof.
  split; intros.
  - by eapply audit_tail_Ok.
  - by eapply trace_view_Ok.
Qed.

(** ** One line per tool call *)

Section ToolCalls.
Context {W : Type} `{SerdeJson, Jwt, UrlParse, SerdeA2ui}.
Variable iter : gmap str HdCacheEntry → list (str * HdCacheEntry).
Variable token_hash : str → str.
Variable dev : bool.
Variable debug_set : gset str → str.
Variable json_error : str → str.
Variable cell : HttpHosts.
Variable d : Dispatcher W.
Implicit Types (s : HttpState W) (env : HttpEnv).

Lemma invoke_with_bytes_line c tl body p pr w :
  one_line w (invoke_with_bytes debug_set json_error d c tl body p pr w).2
    (λ l, line_for tl pr p l
          ∧ line_outcome (invoke_with_bytes debug_set json_error d c tl body p pr w).1 l).
Proof using Type.
  unfold invoke_with_bytes. destruct (parse_body json_error body) as [a|e].
  - apply invoke_with_line.
  - apply (fail_line d (c_when c) tl pr p e).
Qed.

Lemma invoke_streaming_with_bytes_line c tl body p pr a2ui w when opened at_drop :
  let x := invoke_streaming_with_bytes debug_set json_error (wrap_a2ui cell) d c tl body p pr a2ui w in
  one_line w (settled_world d when tl pr p opened at_drop x)
    (λ l, line_for tl pr p l ∧ streamed_outcome x.1 l).
Proof using Type.
  unfold invoke_streaming_with_bytes. destruct (parse_body json_error body) as [a|e].
  - apply invoke_streaming_line.
  - apply (fail_line d (c_when c) tl pr p e).
Qed.

(** The world once the client is done with the reply. *)
Definition after_reply when tl opened at_drop (x : ToolReply (W := W) * HttpState W) : World W :=
  match x.1 with
  | JsonReply _ => hs_world x.2
  | SseReply p events => (consume d when tl §"rest" p opened at_drop events (hs_world x.2)).2
  end.

(** What the line says of the reply: its status, unless a buffered result was
    good and its envelope could not be built, which the dispatcher cannot see. *)
Definition reply_outcome (requested : option A2uiVersion) (x : ToolReply (W := W)) (l : AuditRecord) : Prop :=
  match x with
  | JsonReply r => HttpIdentity.status r = AuditLog.status l
      ∨ requested ≠ None ∧ AuditLog.status l = 200%Z
        ∧ (HttpIdentity.status r = 502%Z ∨ HttpIdentity.status r = 504%Z)
  | SseReply _ events => streamed_outcome (Ok events) l
  end.

Lemma wrap_a2ui_error requested x e :
  wrap_a2ui_if_requested cell requested x = Err e →
  requested ≠ None ∧ (http_status e = 502%Z ∨ http_status e = 504%Z).
Proof using Type.
  unfold wrap_a2ui_if_requested. destruct requested as [v|]; [|done].
  destruct (negb _); [done|]. destruct (wrap_a2ui cell v (dr_result x)) as [r|m]; [done|].
  intros [= <-]. split; [done|]. unfold http_status. cbn [is_circuit_open].
  destruct (is_tool_timeout _); auto.
Qed.

Lemma invoke_tool_line env tl parts body s p requested when opened at_drop :
  parse_a2ui_accept parts = Ok requested →
  verified iter token_hash dev env parts s p →
  let x := invoke_tool iter token_hash dev debug_set json_error cell d env tl parts body s in
  one_line (hs_world s) (after_reply when tl opened at_drop x)
    (λ l, line_for tl §"rest" p l ∧ reply_outcome requested x.1 l).
Proof using Type.
  intros Ha Hv x. subst x. unfold invoke_tool. rewrite Ha.
  pose proof (authenticate_cases iter token_hash dev d env tl parts s) as Hc.
  destruct (authenticate _ _ _ _ _ _ _ _) as [[p'|reply] s1].
  2: { destruct Hc as (e & He & _). unfold verified in Hv. congruence. }
  destruct Hc as [Hv' Hw]. unfold verified in Hv, Hv'. assert (p' = p) as -> by congruence.
  rewrite <- Hw. destruct (wants_sse parts).
  - pose proof (invoke_streaming_with_bytes_line (he_clock env) tl body p §"rest" requested
                  (hs_world s1) when opened at_drop) as Hl.
    destruct (invoke_streaming_with_bytes _ _ _ _ _ _ _ _ _ _ _) as [[ev|e] w]; [exact Hl|].
    eapply one_line_impl; [|exact Hl]. intros l [Hf [_ Hs]]. split; [done|]. by left.
  - pose proof (invoke_with_bytes_line (he_clock env) tl body p §"rest" (hs_world s1)) as Hl.
    destruct (invoke_with_bytes _ _ _ _ _ _ _ _ _) as [[r|e] w].
    2: { eapply one_line_impl; [|exact Hl]. intros l [Hf [_ Hs]]. split; [done|]. by left. }
    eapply one_line_impl; [|exact Hl]. intros l [Hf [_ Hs]]. split; [done|]. cbn.
    destruct (wrap_a2ui_if_requested cell requested r) as [r'|e] eqn:Hwrap.
    + by left.
    + right. by apply wrap_a2ui_error in Hwrap as [? ?].
Qed.
End ToolCalls.

(** A tool call of a verified caller over REST leaves exactly one dispatch
    line, in the name of that caller and with the trace id of the reply, once
    the client is done with the answer: at the end of the stream when it asked
    for events, immediately otherwise.  The line's status is the status of the
    reply, or the way the stream ended; the one case the two differ is a
    buffered success whose A2UI envelope cannot be built, audited as 200 and
    answered 502 or 504. *)
Theorem rest_call_audited_once {W} `{SerdeJson, Jwt, UrlParse, SerdeA2ui} iter token_hash dev dbg je
    cell (d : Dispatcher W) env tl parts body s p requested when opened at_drop :
  parse_a2ui_accept parts = Ok requested →
  verified iter token_hash dev env parts s p →
  let x := invoke_tool iter token_hash dev dbg je cell d env tl parts body s in
  one_line (hs_world s) (after_reply d when tl opened at_drop x)
    (λ l, line_for tl §"rest" p l ∧ reply_outcome requested x.1 l).
Proof. intros. by apply invoke_tool_line. Qed.

(** ** Instances *)

#[local] Existing Instance demo_json.
#[local] Existing Instance demo_jwt.
#[local] Existing Instance sample_url.
#[local] Existing Instance sample_serde.

Definition demo_call_parts : Parts :=
  {| authorization := authorization demo_parts; forwarded := None;
     accept := [§"application/json+a2ui; version=0.9"]; protocol_version := None;
     mcp_method := None; mcp_session_id := None |}.
Definition demo_http_env : HttpEnv :=
  {| he_identity := demo_identity_env; he_clock := Dispatcher.tick; he_when := §"now"; he_now := 0;
     he_uuid := §"u" |}.
Definition demo_http : HttpState nat := Build_HttpState (World_new unenforced 0) demo_provider.
Definition demo_echo : Dispatcher nat := demo_dispatcher None unenforced.
Definition demo_invoke (body : str) : ToolReply * HttpState nat :=
  invoke_tool map_to_list demo_hash true no_debug (λ _, []) None demo_echo demo_http_env §"echo"
    demo_call_parts body demo_http.

Lemma rest_call_audited_once_witness :
  one_line (hs_world demo_http) (after_reply demo_echo [] §"echo" 0 0 (demo_invoke []))
    (λ l, line_for §"echo" §"rest" demo_alice l
          ∧ reply_outcome (Some V09) (demo_invoke []).1 l).
Proof.
  apply (rest_call_audited_once map_to_list demo_hash true no_debug (λ _, []) None demo_echo
           demo_http_env §"echo" demo_call_parts [] demo_http demo_alice (Some V09) [] 0 0).
  - vm_compute. reflexivity.
  - vm_compute. reflexivity.
Defined.

(** The exception is real: the tool advertises A2UI and returns no surface; the
    caller gets a 502 and the line says 200. *)
Lemma rest_a2ui_failure_audited_ok :
  match (demo_invoke []).1 with
  | JsonReply r => HttpIdentity.status r = 502%Z
  | SseReply _ _ => False
  end
  ∧ (AuditLog.status <$> last (stdout (sinks (hs_world (demo_invoke []).2)))) = Some 200%Z.
Proof. split; vm_compute; reflexivity. Qed.
