(* ===== verification/ReplyText.v ===== *)
(** * ReplyText: a result as prose (the text functions of
    crates/triton-adapters-http/src/a2a_spec.rs)

    What a client without a renderer reads: the agent's text, its charts as
    Markdown images and its sources as links.  Shared by the MCP and the A2A
    faces. *)

From S2P Require Import Prelude Json A2ui.

Definition kind_is (k : str) (c : Value) : bool := bool_decide (get_str §"kind" c = Some k).

Definition surface_components (res : Value) : option (list Value) :=
  surface ← value_get §"surface" res;
  components ← value_get §"components" surface;
  as_array components.

Definition chart_images (components : list Value) : str :=
  join (nl ++ nl)
    ((λ u, §"![chart](" ++ u ++ §")")
       <$> omap (get_str §"image_url") (filter (λ c, kind_is §"report" c = true) components)).

Definition source_link (it : Value) : option str :=
  match get_str §"resource" it with
  | Some url =>
      if starts_with §"http" url
      then Some (§"[" ++ default §"source" (get_str §"label" it) ++ §"](" ++ url ++ §")")
      else None
  | None => None
  end.

Definition sources_markdown (res : Value) : option str :=
  components ← surface_components res;
  let items := concat (omap (λ c, value_get §"items" c ≫= as_array)
                         (filter (λ c, kind_is §"sources" c = true) components)) in
  let links := omap source_link items in
  if is_empty links then None else Some (§"Sources: " ++ join §" · " links).

Definition nonempty (l : list str) : list str := filter (λ s, is_empty s = false) l.

(** Beside a drawn card: what the card does not show. *)
Definition card_companions (res : Value) : option str :=
  components ← surface_components res;
  let narration := join nl (nonempty (trim <$> omap (get_str §"text")
                     (filter (λ c, kind_is §"narration" c = true) components))) in
  let parts := nonempty (omap id [Some narration; Some (chart_images components);
                                  sources_markdown res]) in
  if is_empty parts then None else Some (join (nl ++ nl) parts).

Definition component_prose (c : Value) : option str :=
  let kind := default [] (get_str §"kind" c) in
  if decide (kind = §"text") then get_str §"value" c
  else if decide (kind = §"narration") then get_str §"text" c
  else None.

(** [push_str] of a further paragraph. *)
Definition paragraph (text more : str) : str :=
  if is_empty text then more else text ++ nl ++ nl ++ more.

Definition components_text (res : Value) (components : list Value) : str :=
  let joined := join nl (omap component_prose components) in
  let images := chart_images components in
  let joined := if is_empty images then joined else paragraph joined images in
  match sources_markdown res with Some sources => paragraph joined sources | None => joined end.

Fixpoint first_some {A} (l : list (option A)) : option A :=
  match l with
  | [] => None
  | Some a :: _ => Some a
  | None :: l' => first_some l'
  end.

Section Reply.
Context `{SerdeJson}.

Definition surface_text (res surface : Value) : option str :=
  let prose :=
    match value_get §"components" surface ≫= as_array with
    | Some components =>
        let t := components_text res components in if is_empty t then None else Some t
    | None => None
    end in
  let items :=
    match value_get §"items" surface ≫= as_array with
    | Some items =>
        let t := join nl (omap (get_str §"text") items) in if is_empty t then None else Some t
    | None => None
    end in
  let built := match value_get §"a2ui" surface with Some _ => Some [] | None => None end in
  first_some [get_str §"text" surface; prose; items; built].

Definition reply_text (res : Value) : str :=
  default (json_to_string res)
    (first_some [get_str §"text" res; get_str §"message" res; get_str §"answer" res;
                 value_get §"surface" res ≫= surface_text res]).

Definition text_part (res : Value) (surface_shown : bool) : str :=
  match (if surface_shown then get_str §"summary" res else None) with
  | Some s => if is_empty (trim s) then reply_text res else trim s
  | None => reply_text res
  end.
End Reply.
