(* ===== verification/Mcp.v ===== *)
(** * Mcp: the MCP face (crates/triton-adapters-http/src/mcp.rs)

    JSON-RPC over the state the HTTP faces share ([Rest.HttpState]) and the
    task processes of [Tasks].  An upstream call that runs as a task is heard
    through its event channel: what the receiver gets, and when, is an argument
    ([TaskRun]), as is what the store holds if the channel closes first.  The
    task itself, and its audit line, are [Tasks] and [Dispatcher]. *)

From S2P Require Import Prelude Json Errors Principal RateLimit Stream Context AuditLog.
From S2P Require Import Dispatcher Tasks Oidc GoogleToken A2ui McpApp HttpIdentity Rest ReplyText.

Definition CODE_PARSE_ERROR : Z := -32700.
Definition CODE_INVALID_REQUEST : Z := -32600.
Definition CODE_METHOD_NOT_FOUND : Z := -32601.
Definition CODE_INVALID_PARAMS : Z := -32602.
Definition CODE_AUTH : Z := -32001.
Definition CODE_TOOL_PROVIDER : Z := -32000.
Definition CODE_RATE_LIMITED : Z := -32002.
Definition CODE_HEADER_MISMATCH : Z := -32020.
Definition CODE_UNSUPPORTED_PROTOCOL_VERSION : Z := -32022.

Definition SUPPORTED_MCP_VERSIONS : list str :=
  [§"2024-11-05"; §"2025-03-26"; §"2025-06-18"; §"2025-11-25"].
Definition MODERN_MCP_VERSIONS : list str := [§"2026-07-28"].
Definition META_PROTOCOL_VERSION : str := §"io.modelcontextprotocol/protocolVersion".
Definition META_CLIENT_CAPABILITIES : str := §"io.modelcontextprotocol/clientCapabilities".
Definition DISCOVER_TTL_MS : Z := 300000.
Definition UI_EXTENSION : str := §"io.modelcontextprotocol/ui".
Definition CARD_SESSION_PREFIX : str := §"triton-card-".
Definition RUNTIME_URI : str := §"ui://triton/runtime.html".
Definition WIDGET_DESCRIPTION : str :=
  §"Shows the answer as a card: a table, facts, a map or a form, with buttons that send a complete follow-up request or open a link.".

Definition num (z : Z) : Value := Value.Number (Value.Int z).

(** ** Replies *)

Definition rpc_ok (i res : Value) : Reply :=
  plain_reply 200 (json_object [(§"jsonrpc", js §"2.0"); (§"id", i); (§"result", res)]).

Definition rpc_error_with_data (i : Value) (code : Z) (message : str) (data : option Value) : Reply :=
  plain_reply 200 (json_object [(§"jsonrpc", js §"2.0"); (§"id", i);
    (§"error", json_object ([(§"code", num code); (§"message", js message)]
                 ++ match data with Some x => [(§"data", x)] | None => [] end))]).

Definition rpc_error (i : Value) (code : Z) (message : str) : Reply :=
  rpc_error_with_data i code message None.

Definition with_status (r : Reply) (st : Z) : Reply :=
  {| HttpIdentity.status := st; www_authenticate := www_authenticate r;
     insufficient_scope := insufficient_scope r; session_id := session_id r;
     HttpIdentity.body := HttpIdentity.body r |}.

Definition with_session (r : Reply) (sid : str) : Reply :=
  {| HttpIdentity.status := HttpIdentity.status r; www_authenticate := www_authenticate r;
     insufficient_scope := insufficient_scope r; session_id := Some sid;
     HttpIdentity.body := HttpIdentity.body r |}.

(** [202 Accepted] without a body. *)
Definition accepted : Reply :=
  {| HttpIdentity.status := 202; www_authenticate := None; insufficient_scope := None;
     session_id := None; HttpIdentity.body := None |}.

Definition maybe_respond (id_present : bool) (r : Reply) : Reply :=
  if id_present then r else accepted.

Definition code_for (e : TritonError) : Z :=
  match e with
  | Auth _ | Forbidden _ => CODE_AUTH
  | Validation _ => CODE_INVALID_PARAMS
  | Tool _ | Provider _ => CODE_TOOL_PROVIDER
  | RateLimited _ => CODE_RATE_LIMITED
  end.

(** ** Sessions and capabilities *)

Definition open_card_session (uuid : str) : str := CARD_SESSION_PREFIX ++ uuid.

Definition session_renders_card (i : str) : bool :=
  match strip_prefix CARD_SESSION_PREFIX i with
  | Some u => (length u =? 32)%nat && forallb is_ascii_hexdigit u
  | None => false
  end.

Definition renders_card (capabilities : Value) : bool :=
  match (e ← value_get §"extensions" capabilities; ui ← value_get UI_EXTENSION e;
         m ← value_get §"mimeTypes" ui; as_array m) with
  | Some m => existsb (λ t, bool_decide (as_str t = Some MIME_TYPE)) m
  | None => false
  end.

(** ** The protocol era *)

Definition header_text (v : option str) : option str := trim <$> (v ≫= header_to_str).

Definition supported_versions : list str := MODERN_MCP_VERSIONS ++ rev SUPPORTED_MCP_VERSIONS.

(** [' '] around a quoted word. *)
Definition quote1 (s : str) : str := §"'" ++ s ++ §"'".

Definition EraRejection : Type := Z * str * option Value.

Definition era (parts : Parts) (params : Value) (method : str) : result bool EraRejection :=
  let header_version := header_text (protocol_version parts) in
  let meta_version := value_get §"_meta" params ≫= get_str META_PROTOCOL_VERSION in
  let mismatch :=
    match header_version, meta_version with
    | Some h, Some m => if decide (h = m) then None else Some (h, m)
    | _, _ => None
    end in
  match mismatch with
  | Some (h, m) =>
      Err (CODE_HEADER_MISMATCH,
           §"Header mismatch: MCP-Protocol-Version header " ++ quote1 h
             ++ §" does not match body " ++ quote1 m, None)
  | None =>
      let requested :=
        match meta_version with
        | Some m => Some m
        | None => h ← header_version; if decide (h ∈ SUPPORTED_MCP_VERSIONS) then None else Some h
        end in
      match requested with
      | None => Ok false
      | Some v =>
          if negb (bool_decide (v ∈ MODERN_MCP_VERSIONS))
          then Err (CODE_UNSUPPORTED_PROTOCOL_VERSION, §"Unsupported protocol version",
                    Some (json_object [(§"supported", jss supported_versions); (§"requested", js v)]))
          else
            match header_text (mcp_method parts) with
            | Some h =>
                if decide (h = method) then Ok true
                else Err (CODE_HEADER_MISMATCH,
                          §"Header mismatch: Mcp-Method header " ++ quote1 h
                            ++ §" does not match body " ++ quote1 method, None)
            | None => Ok true
            end
      end
  end.

(** ** Static answers *)

Definition capabilities_value : Value :=
  json_object [(§"tools", Value.Object []); (§"resources", Value.Object [])].

(** Under [env!("CARGO_PKG_VERSION")]. *)
Definition server_info (pkg : str) : Value :=
  json_object [(§"name", js §"triton"); (§"version", js pkg)].

Definition discover_response (pkg : str) (i : Value) : Reply :=
  rpc_ok i (json_object
    [(§"resultType", js §"complete"); (§"supportedVersions", jss supported_versions);
     (§"capabilities", capabilities_value);
     (§"_meta", json_object [(§"io.modelcontextprotocol/serverInfo", server_info pkg)]);
     (§"ttlMs", num DISCOVER_TTL_MS); (§"cacheScope", js §"private")]).

Definition initialize_response (pkg uuid : str) (widget : bool) (i params : Value) : Reply :=
  let requested := as_str (index §"protocolVersion" params) in
  let version :=
    match requested with
    | Some v => if decide (v ∈ SUPPORTED_MCP_VERSIONS) then Ok v
                else Err (§"unsupported protocolVersion: " ++ v ++ §" (supported: "
                            ++ join §", " SUPPORTED_MCP_VERSIONS ++ §")")
    | None => Ok (default §"2025-06-18" (last SUPPORTED_MCP_VERSIONS))
    end in
  match version with
  | Err m => rpc_error i CODE_INVALID_PARAMS m
  | Ok v =>
      let card := widget && renders_card (index §"capabilities" params) in
      let response := rpc_ok i (json_object
        [(§"protocolVersion", js v); (§"capabilities", capabilities_value);
         (§"serverInfo", server_info pkg)]) in
      if card then with_session response (open_card_session uuid) else response
  end.

(** ** Lists *)

Record ToolDescriptor := {
  td_name : str;
  td_input_schema : Value;
  td_returns_a2ui : bool;
  td_upstream : bool;
  td_description : option str;
  td_annotations : option Value;
}.

(** [map.entry(k).or_insert(v)] *)
Definition or_insert (k : str) (v : Value) (m : JsonMap) : JsonMap := entry_or k v (λ x, x) m.

Definition object_schema (schema : Value) : Value :=
  match schema with
  | Value.Object m => Value.Object (or_insert §"type" (js §"object") m)
  | _ => json_object [(§"type", js §"object")]
  end.

Definition widget_tool_meta (uri : str) : Value :=
  json_object [(§"ui", json_object [(§"resourceUri", js uri)]); (§"openai/outputTemplate", js uri)].

Definition no_domains (connect resource : str) : Value :=
  json_object [(connect, Value.Array []); (resource, Value.Array [])].
Definition widget_resource_meta : Value :=
  json_object
    [(§"ui", json_object [(§"csp", no_domains §"connectDomains" §"resourceDomains");
                          (§"prefersBorder", Value.Bool false)]);
     (§"openai/widgetCSP", no_domains §"connect_domains" §"resource_domains");
     (§"openai/widgetDescription", js WIDGET_DESCRIPTION);
     (§"openai/widgetPrefersBorder", Value.Bool false)].

Definition tool_entry (widget : bool) (uri : str) (t : ToolDescriptor) : Value :=
  let v := json_object
    [(§"name", js (td_name t)); (§"inputSchema", object_schema (td_input_schema t));
     (§"x-triton", json_object [(§"returns_a2ui", Value.Bool (td_returns_a2ui t));
                                (§"upstream", Value.Bool (td_upstream t))])] in
  let v := put_some §"description" (js <$> td_description t) v in
  let v := put_some §"annotations" (td_annotations t) v in
  if widget && td_upstream t && td_returns_a2ui t
  then object_insert §"_meta" (widget_tool_meta uri) v else v.

Definition tools_list_response (widget : bool) (uri : str) (descriptors : list ToolDescriptor)
    (i : Value) : Reply :=
  rpc_ok i (json_object [(§"tools", Value.Array (tool_entry widget uri <$> descriptors))]).

Definition resources_list (widget : bool) (uri : str) (i : Value) : Reply :=
  let runtime := json_object [(§"uri", js RUNTIME_URI); (§"name", js §"triton-runtime");
                              (§"mimeType", js §"text/html")] in
  let card := json_object
    [(§"uri", js uri); (§"name", js §"answer-card"); (§"title", js §"Answer card");
     (§"description", js WIDGET_DESCRIPTION); (§"mimeType", js MIME_TYPE);
     (§"_meta", widget_resource_meta)] in
  rpc_ok i (json_object [(§"resources", Value.Array (if widget then [runtime; card] else [runtime]))]).

Definition parse_mcp_a2ui_version (params : Value) : result (option A2uiVersion) str :=
  match as_str (index §"a2ui_version" (index §"_meta" params)) with
  | None => Ok None
  | Some v =>
      if decide (v = §"v0.8") then Ok (Some V08)
      else if decide (v = §"v0.9") then Ok (Some V09)
      else Err (§"unknown A2UI version: " ++ v)
  end.

(** The fields a 2026-07-28 result carries. *)
Definition modern_result (method : str) (m : JsonMap) : JsonMap :=
  let m := or_insert §"resultType" (js §"complete") m in
  if decide (method ∈ [§"tools/list"; §"resources/list"; §"resources/read"])
  then or_insert §"cacheScope" (js §"private") (or_insert §"ttlMs" (num 0) m)
  else m.

Definition modern_doc (method : str) (doc : Value) : Value :=
  match value_get §"result" doc with
  | Some (Value.Object m) => object_insert §"result" (Value.Object (modern_result method m)) doc
  | _ => doc
  end.

Definition modernize `{SerdeJson} (r : Reply) (method : str) : Reply :=
  match HttpIdentity.body r with
  | Some doc =>
      match json_from_str (json_to_string doc) with
      | Some doc =>
          {| HttpIdentity.status := HttpIdentity.status r; www_authenticate := www_authenticate r;
             insufficient_scope := insufficient_scope r; session_id := session_id r;
             HttpIdentity.body := Some (modern_doc method doc) |}
      | None => r
      end
  | None => r
  end.

(** ** A call that runs as a task *)

Inductive McpOutcome :=
  | Done (x : DispatchResult)
  | Filed (v : Value)
  | AgentError (message : str).

Definition StartError_to_string (e : StartError) : str :=
  match e with
  | Running => §"the task is already running"
  | StoreFailed e => e
  end.

(** What the receiver of a task's channel gets, each item with the instant it
    arrives, and the instant the channel closes with the record stored then. *)
Record TaskRun := {
  tr_io : StoreIo;
  tr_now : Z;
  tr_started : Z;
  tr_rx : list (Z * Recv);
  tr_closes : Z;
  tr_closed : option TaskRecord;
}.

Section RunAsTask.
Context {S : Type} `{Backend S}.
Variable retention : Z.
Variable settings : TaskSettings.

(** What the loop carries. *)
Record Wait := {
  wt_deadline : option Z;
  wt_check_after : Z;
  wt_receipt : option str;
  wt_upstream : option str;
}.

Definition expired (w : Wait) (t : Z) : bool :=
  match wt_deadline w with Some x => (x <? t)%Z | None => false end.

Definition dispatch_result (trace : str) (started t : Z) (a2ui : bool) (v : Value) : DispatchResult :=
  {| dr_result := v; dr_trace_id := trace; dr_latency_ms := as_millis (t - started);
     dr_returns_a2ui := a2ui |}.

Definition filed (trace : str) (w : Wait) : Value :=
  let text := default (§"The request is filed and still running. Check again in about "
                         ++ dec (wt_check_after w) ++ §" seconds.") (wt_receipt w) in
  let structured := json_object
    [(§"status", js §"filed"); (§"task_id", js (default trace (wt_upstream w)));
     (§"check_after_seconds", num (wt_check_after w))] in
  let structured := put_some §"receipt" (js <$> wt_receipt w) structured in
  json_object
    [(§"content", Value.Array [json_object [(§"type", js §"text"); (§"text", js text)]]);
     (§"structuredContent", structured); (§"isError", Value.Bool false);
     (§"_meta", json_object [(§"trace_id", js trace)])].

Definition on_async (t : Z) (up : str) (check : option Z) (rc : option str) (w : Wait) : Wait :=
  {| wt_deadline := Some (default (t + secs (mcp_wait settings))%Z (wt_deadline w));
     wt_check_after := default (wt_check_after w) check;
     wt_receipt := match rc with Some r => Some r | None => wt_receipt w end;
     wt_upstream := Some up |}.

(** The runner ended without an outcome on the channel. *)
Definition from_store (trace : str) (started t : Z) (a2ui : bool) (r : option TaskRecord)
    : result McpOutcome TritonError :=
  match r with
  | Some r =>
      match t_state r with
      | TaskState.Completed =>
          Ok (Done (dispatch_result trace started t a2ui
            (default (json_object [(§"surface",
               json_object [(§"text", js (default [] (result_text r)))])]) (t_result r))))
      | _ => if decide (error_class r = Some CLASS_AGENT) then Ok (AgentError (default [] (error r)))
             else Err (stored_error r)
      end
  | None => Err (Tool §"the call failed")
  end.

(** The answer and the instant it is given. *)
Fixpoint await (trace : str) (started : Z) (a2ui : bool) (closes : Z) (closed : option TaskRecord)
    (rx : list (Z * Recv)) (w : Wait) : result McpOutcome TritonError * Z :=
  match rx with
  | [] =>
      if expired w closes then (Ok (Filed (filed trace w)), default closes (wt_deadline w))
      else (from_store trace started closes a2ui closed, closes)
  | (t, item) :: rx' =>
      if expired w t then (Ok (Filed (filed trace w)), default t (wt_deadline w))
      else match item with
           | Got (TaskEvent.Async up check rc _) =>
               await trace started a2ui closes closed rx' (on_async t up check rc w)
           | Got (TaskEvent.Done v) => (Ok (Done (dispatch_result trace started t a2ui v)), t)
           | Got (TaskEvent.Failed cls m) =>
               (if decide (cls = CLASS_AGENT) then Ok (AgentError m) else Err (error_of cls m), t)
           | Got _ | Lagged => await trace started a2ui closes closed rx' w
           end
  end.

Definition first_wait : Wait :=
  {| wt_deadline := None; wt_check_after := mcp_check_after_secs settings; wt_receipt := None;
     wt_upstream := None |}.

Definition run_as_task (run : TaskRun) (tool : str) (args : Value) (p : Principal) (a2ui : bool)
    (ps : Process S) : result McpOutcome TritonError * Process S :=
  let trace := trace_id p in
  let rec := TaskRecord_new (tr_now run) trace trace tool (Some (owner_key p)) in
  match start retention (tr_io run) rec (StartDispatch args) §"mcp" no_overrides OnAsync ps with
  | (Err e, ps) => (Err (Tool (StartError_to_string e)), ps)
  | (Ok _, ps) =>
      ((await trace (tr_started run) a2ui (tr_closes run) (tr_closed run) (tr_rx run) first_wait).1,
       ps)
  end.
End RunAsTask.

(** ** Handlers *)

Record McpConfig := {
  mc_tasks : option TaskSettings;
  mc_route : option McpRoute;
  mc_widget : bool;
  mc_card_note : str;
}.

Record McpState (W S : Type) `{Jwt} := {
  ms_http : HttpState W;
  ms_tasks : Process S;
}.
Arguments ms_http {W S _} _.
Arguments ms_tasks {W S _} _.
Arguments Build_McpState {W S _} _ _.

(** What a request reads: as any HTTP request, and for a task it starts; the
    listing of tools it may be answered with. *)
Record McpEnv `{Jwt} := {
  me_http : HttpEnv;
  me_run : TaskRun;
  me_descriptors : list ToolDescriptor;
  me_session_uuid : str;
}.

Section Handlers.
Context {W S : Type} `{Backend S} `{SerdeJson, Jwt, UrlParse, SerdeA2ui}.
Variable iter : gmap str HdCacheEntry → list (str * HdCacheEntry).
Variable token_hash : str → str.
Variable dev_feature : bool.
Variable debug_set : gset str → str.
Variable json_error : str → str.
Variable cell : HttpHosts.
Variable retention : Z.
(** The build's version, the card's page and its address. *)
Variable pkg : str.
Variable widget_html : str.
Variable resource_uri : str.
Variable d : Dispatcher W.
Variable cfg : McpConfig.

Abbreviation McpSt := (McpState W S).
Definition ms_world (s : McpSt) : World W := hs_world (ms_http s).
Definition set_world (w : World W) (s : McpSt) : McpSt :=
  Build_McpState (Build_HttpState w (hs_identity (ms_http s))) (ms_tasks s).

Definition mcp_rejection (env : McpEnv) (tool subject tenant trace : str) (e : TritonError)
    (s : McpSt) : McpSt :=
  set_world (record_rejection d (he_when (me_http env)) (he_now (me_http env)) tool §"mcp"
               subject tenant trace e (ms_world s)) s.

(** The free function [record_rejection]: the caller is not named. *)
Definition reject_unnamed (env : McpEnv) (tool : str) (e : TritonError) (s : McpSt) : McpSt :=
  mcp_rejection env tool §"-" §"-" (he_uuid (me_http env)) e s.

Definition reject_named (env : McpEnv) (tool : str) (p : Principal) (e : TritonError) (s : McpSt)
    : McpSt :=
  mcp_rejection env tool (sub p) (tenant p) (trace_id p) e s.

Definition object_under_meta (k : str) (v : Value) : option Value :=
  match value_get §"_meta" v ≫= value_get k with
  | Some (Value.Object m) => Some (Value.Object m)
  | _ => None
  end.

(** The result of a call that succeeded. *)
Definition call_result (card_host : bool) (requested : option A2uiVersion) (x : DispatchResult)
    : result Value TritonError :=
  let ui_meta := object_under_meta §"ui" (dr_result x) in
  let tool_trace := array_under_meta §"tool_trace" (dr_result x) in
  let text := reply_text (dr_result x) in
  let companions := card_companions (dr_result x) in
  let widget := if mc_widget cfg && bool_decide (ui_meta = None)
                then widget_data cell (dr_result x) else None in
  let text :=
    match (w ← (if card_host then widget else None); card_text w (mc_card_note cfg)) with
    | Some line => match companions with
                   | Some rest => line ++ nl ++ nl ++ rest
                   | None => line
                   end
    | None => text
    end in
  x' ←? wrap_a2ui_if_requested cell requested x;
  let meta := json_object [(§"trace_id", js (dr_trace_id x))] in
  let meta := put_some META_KEY widget meta in
  let meta := put_some §"ui" ui_meta meta in
  let meta := put_some §"tool_trace" tool_trace meta in
  Ok (json_object
    [(§"content", Value.Array [json_object [(§"type", js §"text"); (§"text", js text)]]);
     (§"structuredContent", envelope x'); (§"isError", Value.Bool false); (§"_meta", meta)]).

Definition call_reply (i : Value) (card_host : bool) (requested : option A2uiVersion)
    (r : result DispatchResult TritonError) : Reply :=
  match r with
  | Ok x =>
      match call_result card_host requested x with
      | Ok v => rpc_ok i v
      | Err e => rpc_error i (code_for e) (to_string e)
      end
  | Err e =>
      match e with
      | Tool _ | Provider _ => rpc_error i (code_for e) (user_notice e)
      | _ => rpc_error i (code_for e) (to_string e)
      end
  end.

(** A call of an upstream tool runs as a task when there is a runner. *)
Definition runs_as_task (tool : str) : option TaskSettings :=
  match mc_tasks cfg with
  | Some ts => if bool_decide (is_Some (upstream d)) && bool_decide (registry d !! tool = None)
               then Some ts else None
  | None => None
  end.

Definition tools_call (env : McpEnv) (i params : Value) (p : Principal) (card_host : bool)
    (s : McpSt) : Reply * McpSt :=
  match as_str (index §"name" params) with
  | None => (rpc_error i CODE_INVALID_PARAMS §"params.name MUST be a string", s)
  | Some tool_name =>
      let args := index §"arguments" params in
      match parse_mcp_a2ui_version params with
      | Err e => (rpc_error i CODE_INVALID_PARAMS e, s)
      | Ok requested =>
          match runs_as_task tool_name with
          | Some ts =>
              let '(r, ps) := run_as_task retention ts (me_run env) tool_name args p
                                (a2ui_of d tool_name) (ms_tasks s) in
              (match r with
               | Ok (Done x) => call_reply i card_host requested (Ok x)
               | Ok (Filed v) => rpc_ok i v
               | Ok (AgentError m) => rpc_error i CODE_TOOL_PROVIDER m
               | Err e => call_reply i card_host requested (Err e)
               end, Build_McpState (ms_http s) ps)
          | None =>
              let '(r, w) := invoke debug_set d (he_clock (me_http env)) tool_name args p §"mcp"
                               (ms_world s) in
              (call_reply i card_host requested r, set_world w s)
          end
      end
  end.

Definition contents (v : Value) : Value := json_object [(§"contents", Value.Array [v])].

Definition proxied (i : Value) (r : result DispatchResult TritonError) : Reply :=
  match r with
  | Ok x => rpc_ok i (dr_result x)
  | Err e => rpc_error i (code_for e) (to_string e)
  end.

Definition resources_read (env : McpEnv) (i params : Value) (p : Principal) (s : McpSt)
    : Reply * McpSt :=
  match as_str (index §"uri" params) with
  | None => (rpc_error i CODE_INVALID_PARAMS §"params.uri MUST be a string", s)
  | Some uri =>
      if decide (uri = RUNTIME_URI) then
        (rpc_ok i (contents (json_object [(§"uri", js uri); (§"mimeType", js §"text/html");
           (§"text", js §"<!-- triton runtime stub; see realizations.md §1 -->")])), s)
      else if mc_widget cfg && is_widget_uri uri then
        (rpc_ok i (contents (json_object [(§"uri", js uri); (§"mimeType", js MIME_TYPE);
           (§"text", js widget_html); (§"_meta", widget_resource_meta)])), s)
      else
        let '(r, w) := read_resource debug_set d (he_clock (me_http env)) uri p (ms_world s) in
        (proxied i r, set_world w s)
  end.

Definition mcp_update_model_context (env : McpEnv) (i params : Value) (p : Principal) (s : McpSt)
    : Reply * McpSt :=
  match as_str (index §"uri" params) with
  | None => (rpc_error i CODE_INVALID_PARAMS §"params.uri MUST be a string", s)
  | Some uri =>
      match value_get §"record" params with
      | None => (rpc_error i CODE_INVALID_PARAMS §"params.record MUST be present", s)
      | Some record =>
          let '(r, w) := update_model_context debug_set d (he_clock (me_http env)) uri record p
                           (ms_world s) in
          (proxied i r, set_world w s)
      end
  end.

Definition card_host (modern : bool) (parts : Parts) (params : Value) : bool :=
  mc_widget cfg &&
  if modern then
    match value_get §"_meta" params ≫= value_get META_CLIENT_CAPABILITIES with
    | Some caps => renders_card caps
    | None => false
    end
  else
    match mcp_session_id parts ≫= header_to_str with
    | Some i => session_renders_card (trim i)
    | None => false
    end.

(** The methods that are known. *)
Definition serve (env : McpEnv) (parts : Parts) (method : str) (modern : bool) (i params : Value)
    (p : Principal) (s : McpSt) : option (Reply * McpSt) :=
  if decide (method = §"server/discover") then Some (discover_response pkg i, s)
  else if decide (method = §"initialize") then
    Some (initialize_response pkg (me_session_uuid env) (mc_widget cfg) i params, s)
  else if decide (method = §"tools/list") then
    Some (tools_list_response (mc_widget cfg) resource_uri (me_descriptors env) i, s)
  else if decide (method = §"tools/call") then
    Some (tools_call env i params p (card_host modern parts params) s)
  else if decide (method = §"resources/list") then
    Some (resources_list (mc_widget cfg) resource_uri i, s)
  else if decide (method = §"resources/read") then Some (resources_read env i params p s)
  else if decide (method = §"updateModelContext") then
    Some (mcp_update_model_context env i params p s)
  else None.

(** A well-formed JSON-RPC message of a verified caller. *)
Definition rpc_message (env : McpEnv) (parts : Parts) (obj : Value) (method : str) (p : Principal)
    (s : McpSt) : Reply * McpSt :=
  let id_present := bool_decide (is_Some (value_get §"id" obj)) in
  let i := index §"id" obj in
  let params := index §"params" obj in
  match era parts params method with
  | Err (code, message, data) =>
      (with_status (rpc_error_with_data i code message data) 400,
       reject_named env method p (Validation message) s)
  | Ok modern =>
      if negb id_present && starts_with §"notifications/" method then (accepted, s)
      else match serve env parts method modern i params p s with
      | Some (r, s) =>
          let r := maybe_respond id_present r in
          (if modern then modernize r method else r, s)
      | None =>
          let e := Validation (§"unknown method: " ++ method) in
          (with_status (rpc_error i CODE_METHOD_NOT_FOUND (to_string e))
             (if negb id_present then 400 else if modern then 404 else 200)%Z,
           reject_named env method p e s)
      end
  end.

(** The request of a verified caller: what is wrong with its shape is a
    rejection in no one's name. *)
Definition rpc_verified (env : McpEnv) (parts : Parts) (body : str) (p : Principal) (s : McpSt)
    : Reply * McpSt :=
  let refuse i code e st := (with_status (rpc_error i code (to_string e)) st,
                             reject_unnamed env §"rpc" e s) in
  match json_from_str body with
  | None => refuse Value.Null CODE_PARSE_ERROR
              (Validation (§"invalid JSON: " ++ json_error body)) 400%Z
  | Some raw =>
      match raw with
      | Value.Object _ =>
          if negb (bool_decide (get_str §"jsonrpc" raw = Some §"2.0")) then
            refuse (index §"id" raw) CODE_INVALID_REQUEST
              (Validation (§"jsonrpc field MUST be " ++ quoted §"2.0")) 200%Z
          else match get_str §"method" raw with
          | None => refuse (index §"id" raw) CODE_INVALID_REQUEST
                      (Validation §"method field MUST be a string") 200%Z
          | Some method => rpc_message env parts raw method p s
          end
      | _ => refuse Value.Null CODE_INVALID_REQUEST
               (Validation §"JSON-RPC request MUST be an object (batch unsupported)") 200%Z
      end
  end.

Definition rpc_verify (env : McpEnv) (parts : Parts) (s : McpSt)
    : result Principal TritonError * McpSt :=
  let '(r, prov) := identity_verify iter token_hash dev_feature (he_identity (me_http env)) parts
                      (hs_identity (ms_http s)) in
  let s := Build_McpState (Build_HttpState (ms_world s) prov) (ms_tasks s) in
  (match r, mc_route cfg with
   | Ok p, Some route => result_map (λ _, p) (route_admit route p)
   | r, _ => r
   end, s).

Definition rpc (env : McpEnv) (parts : Parts) (body : str) (s : McpSt) : Reply * McpSt :=
  let parsed := json_from_str body in
  let '(r, s) := rpc_verify env parts s in
  match r with
  | Ok p => rpc_verified env parts body p s
  | Err e =>
      let method_hint := default §"rpc" (parsed ≫= get_str §"method") in
      let i := default Value.Null (parsed ≫= value_get §"id") in
      let st := match e with Forbidden _ => 403 | _ => 401 end%Z in
      (tag_rejection (scope_challenge (hs_identity (ms_http s))) e
         (with_status (rpc_error i CODE_AUTH (to_string e)) st),
       reject_unnamed env method_hint e s)
  end.
End Handlers.

(** ** What a reply looks like *)

(** A JSON-RPC response for the request id [i]: either a result or an error. *)
Definition rpc_body (i b : Value) : Prop :=
  get_str §"jsonrpc" b = Some §"2.0" ∧ value_get §"id" b = Some i
  ∧ ((is_Some (value_get §"result" b) ∧ value_get §"error" b = None)
     ∨ (is_Some (value_get §"error" b) ∧ value_get §"result" b = None)).

Definition answers (i : Value) (r : Reply) : Prop :=
  match HttpIdentity.body r with
  | Some b => rpc_body i b ∧ Map.ordered match b with Value.Object m => m | _ => [] end
  | None => False
  end.

Lemma rpc_ok_answers i v : answers i (rpc_ok i v).
Proof.
  split; [split_and!; [done..|left; split; [by eexists|done]]|]. by apply Map.insert_all_ordered.
Qed.
Lemma rpc_error_answers i c m x : answers i (rpc_error_with_data i c m x).
Proof.
  split; [split_and!; [done..|right; split; [by eexists|done]]|]. by apply Map.insert_all_ordered.
Qed.
Lemma with_status_answers i r st : answers i r → answers i (with_status r st).
Proof. done. Qed.
Lemma with_session_answers i r u : answers i r → answers i (with_session r u).
Proof. done. Qed.

Create HintDb mcp.
#[export] Hint Resolve rpc_ok_answers rpc_error_answers with_status_answers with_session_answers : mcp.

(** Numbers that survive printing and parsing. *)
Fixpoint exact (v : Value) : bool :=
  match v with
  | Value.Number (Value.Float _) => false
  | Value.Array l => forallb exact l
  | Value.Object m => forallb (λ e, exact e.2) m
  | _ => true
  end.

(** What parsing a printed object gives, if it is accepted: the members, the
    same ones where no double is involved. *)
Class JsonStable `{SerdeJson} := {
  object_stable m v :
    Map.ordered m → json_from_str (json_to_string (Value.Object m)) = Some v →
    ∃ m', v = Value.Object m' ∧ Map.ordered m' ∧
      ∀ k, match Map.get k m with
           | None => Map.get k m' = None
           | Some x => ∃ x', Map.get k m' = Some x' ∧ (exact x = true → x' = x)
           end;
}.

Section Answers.
Context {W S : Type} `{Backend S} `{JsonStable} `{Jwt, UrlParse, SerdeA2ui}.
Variable iter : gmap str HdCacheEntry → list (str * HdCacheEntry).
Variable token_hash : str → str.
Variable dev : bool.
Variable debug_set : gset str → str.
Variable json_error : str → str.
Variable cell : HttpHosts.
Variable retention : Z.
Variable pkg widget_html resource_uri : str.
Variable d : Dispatcher W.
Variable cfg : McpConfig.
Implicit Types (s : McpState W S) (env : McpEnv) (p : Principal).

Lemma modern_doc_body method i m :
  Map.ordered m → rpc_body i (Value.Object m) →
  rpc_body i (modern_doc method (Value.Object m)) ∧
  Map.ordered match modern_doc method (Value.Object m) with Value.Object m => m | _ => [] end.
Proof using Type.
  intros Ho Hb. unfold modern_doc. destruct (value_get §"result" (Value.Object m)) as [x|] eqn:Ex; [|done].
  destruct x; try done. cbn [object_insert].
  destruct Hb as (Hj & Hi & Hre). split; [|by apply Map.insert_ordered].
  unfold rpc_body, get_str in *. cbn [value_get] in *.
  rewrite Map.get_insert_eq, !Map.get_insert_ne by done. split_and!; [done..|].
  left. destruct Hre as [[_ He]|[_ He]]; [by split|congruence].
Qed.

Lemma modernize_answers method i r : exact i = true → answers i r → answers i (modernize r method).
Proof using All.
  intros Hi Ha. unfold modernize. destruct (HttpIdentity.body r) as [doc|] eqn:Er; [|done].
  destruct (json_from_str _) as [doc'|] eqn:Ep; [|done].
  unfold answers in *. rewrite Er in Ha. cbn [HttpIdentity.body]. destruct Ha as [Hb Ho].
  destruct doc as [| | | | |m]; try by destruct Hb.
  destruct (object_stable m doc' Ho Ep) as (m' & -> & Ho' & Hm).
  apply modern_doc_body; [done|]. destruct Hb as (Hj & Hid & Hre).
  unfold rpc_body, get_str in *. cbn [value_get] in *. split_and!.
  - pose proof (Hm §"jsonrpc") as Hk. destruct (Map.get §"jsonrpc" m) as [x|]; [|done].
    destruct Hk as (x' & -> & Hx). destruct x; try done. by rewrite Hx.
  - pose proof (Hm §"id") as Hk. rewrite Hid in Hk. destruct Hk as (x' & -> & Hx). by rewrite Hx.
  - pose proof (Hm §"result") as Hr. pose proof (Hm §"error") as He.
    destruct Hre as [[[x Hx] Hn]|[[x Hx] Hn]]; rewrite Hx, Hn in *; [left|right];
      [destruct Hr as (x' & -> & _)|destruct He as (x' & -> & _)]; done.
Qed.

Lemma call_reply_answers i ch req r : answers i (call_reply cell cfg i ch req r).
Proof using Type. destruct r as [x|e]; cbn; [case_match|destruct e]; unfold rpc_error; auto with mcp. Qed.

Lemma serve_answers env parts method modern i params p s r s' :
  serve debug_set cell retention pkg widget_html resource_uri d cfg env parts method modern i params p s
  = Some (r, s') → answers i r.
Proof using Type.
  unfold serve. repeat case_decide; try done; intros Hs;
    apply (inj Some), (f_equal fst) in Hs; cbn [fst] in Hs; rewrite <- Hs;
    unfold discover_response, tools_list_response, resources_list, initialize_response, tools_call, resources_read, mcp_update_model_context, proxied,
      rpc_error; repeat case_match; unfold rpc_error; cbn [fst];
    auto using call_reply_answers with mcp.
Qed.

(** The id a response to this body carries. *)
Definition request_id (body : str) : Value :=
  default Value.Null (json_from_str body ≫= value_get §"id").

(** What a request gets: a response for its id, or, if it has none, possibly
    [202 Accepted] and nothing else. *)
Definition replies (obj : Value) (r : Reply) : Prop :=
  answers (index §"id" obj) r
  ∨ (value_get §"id" obj = None ∧ HttpIdentity.status r = 202%Z ∧ HttpIdentity.body r = None).

Lemma modernize_replies method obj r :
  exact (index §"id" obj) = true → replies obj r → replies obj (modernize r method).
Proof using All.
  intros Hx [Ha|(Hi & Hs & Hb)]; [left; by apply modernize_answers|].
  right. unfold modernize. by rewrite Hb.
Qed.

Lemma rpc_message_replies env parts obj method p s :
  exact (index §"id" obj) = true →
  replies obj (rpc_message debug_set cell retention pkg widget_html resource_uri d cfg env parts obj
                 method p s).1.
Proof using All.
  intros Hx. unfold rpc_message. set (i := index §"id" obj) in *.
  destruct (era _ _ _) as [modern|[[code m] data]]; [|left; cbn [fst]; auto with mcp].
  destruct (negb _ && _) eqn:En.
  { right. apply andb_prop in En as [En _]. split; [|done]. apply eq_None_not_Some.
    by apply negb_true_iff, bool_decide_eq_false in En. }
  destruct (serve _ _ _ _ _ _ _ _ _ _ _ _ _ _ _ _) as [[r s']|] eqn:Es.
  2: { left. cbn [fst]. unfold rpc_error. auto with mcp. }
  apply serve_answers in Es. cbn [fst].
  assert (replies obj (maybe_respond (bool_decide (is_Some (value_get §"id" obj))) r)) as Hr.
  { unfold maybe_respond. case_bool_decide as Hid; [by left|].
    right. split; [|done]. by apply eq_None_not_Some. }
  destruct modern; [by apply modernize_replies|done].
Qed.

Lemma tag_rejection_answers i c e r : answers i r → answers i (tag_rejection c e r).
Proof using Type. intros Hr. unfold tag_rejection. by repeat case_match. Qed.

Lemma rpc_replies env parts body s :
  exact (request_id body) = true →
  let r := (rpc iter token_hash dev debug_set json_error cell retention pkg widget_html resource_uri
              d cfg env parts body s).1 in
  answers (request_id body) r
  ∨ ((json_from_str body ≫= value_get §"id") = None
     ∧ HttpIdentity.status r = 202%Z ∧ HttpIdentity.body r = None).
Proof using All.
  intros Hx. unfold rpc. destruct (rpc_verify _ _ _ _ _ _ _) as [[p|e] s1].
  2: { left. cbn [fst]. apply tag_rejection_answers. unfold rpc_error. apply with_status_answers.
       apply rpc_error_answers. }
  unfold rpc_verified, request_id in *.
  destruct (json_from_str body) as [raw|]; [|left; unfold rpc_error; cbn [fst]; auto with mcp].
  destruct raw as [| | | | |m]; try (left; unfold rpc_error; cbn [fst]; auto with mcp; fail).
  cbn [mbind option_bind] in *. fold (index §"id" (Value.Object m)) in *.
  repeat case_match; try (left; unfold rpc_error; cbn [fst]; auto with mcp; fail).
  by apply rpc_message_replies.
Qed.
End Answers.

(** Every POST to the MCP endpoint is answered as JSON-RPC asks: the reply
    is a response with exactly one of a result and an error, for the id of the
    request (null if it has none or is not JSON), or, only where the request
    has no id, [202 Accepted] without a body.  This holds for every body and
    every caller; an id is echoed exactly unless it contains a double. *)
Theorem mcp_reply_wellformed {W S : Type} `{Backend S} `{JsonStable} `{Jwt, UrlParse, SerdeA2ui}
    iter token_hash dev dbg je cell retention pkg html uri (d : Dispatcher W) cfg env parts body
    (s : McpState W S) :
  exact (request_id body) = true →
  let r := (rpc iter token_hash dev dbg je cell retention pkg html uri d cfg env parts body s).1 in
  answers (request_id body) r
  ∨ ((json_from_str body ≫= value_get §"id") = None
     ∧ HttpIdentity.status r = 202%Z ∧ HttpIdentity.body r = None).
Proof. apply rpc_replies. Qed.

(** ** Refused callers *)

Lemma rpc_verify_same {W S : Type} `{SerdeJson, Jwt} iter token_hash dev cfg env parts
    (s : McpState W S) :
  ms_world (rpc_verify iter token_hash dev cfg env parts s).2 = ms_world s
  ∧ ms_tasks (rpc_verify iter token_hash dev cfg env parts s).2 = ms_tasks s.
Proof. unfold rpc_verify. by destruct (identity_verify _ _ _ _ _ _). Qed.

(** A caller who is not verified, or whose token does not belong to the
    customer of the path, is refused before its message is looked at: whatever
    the body, the answer is 401 (403 for a missing scope) with the JSON-RPC
    authentication error, one rejection is recorded, and neither a tool, an
    upstream nor a task is reached.  A 401 always carries a challenge once it
    has passed the router's layer. *)
Theorem mcp_unverified_refused {W S : Type} `{Backend S} `{SerdeJson, Jwt, UrlParse, SerdeA2ui}
    iter token_hash dev dbg je cell retention pkg html uri (d : Dispatcher W) cfg env parts body
    (s : McpState W S) e had :
  (rpc_verify iter token_hash dev cfg env parts s).1 = Err e →
  let '(r, s') := rpc iter token_hash dev dbg je cell retention pkg html uri d cfg env parts body s in
  HttpIdentity.status r = match e with Forbidden _ => 403 | _ => 401 end%Z
  ∧ HttpIdentity.body r = HttpIdentity.body
      (rpc_error (default Value.Null (json_from_str body ≫= value_get §"id")) CODE_AUTH (to_string e))
  ∧ (HttpIdentity.status r = 401%Z → is_Some (www_authenticate (bearer_challenge had r)))
  ∧ ms_world s' = record_rejection d (he_when (me_http env)) (he_now (me_http env))
                    (default §"rpc" (json_from_str body ≫= get_str §"method")) §"mcp" §"-" §"-"
                    (he_uuid (me_http env)) e (ms_world s)
  ∧ outside (ms_world s') = outside (ms_world s) ∧ ms_tasks s' = ms_tasks s.
Proof.
  intros He. unfold rpc. pose proof (rpc_verify_same iter token_hash dev cfg env parts s) as [Hw Ht].
  destruct (rpc_verify _ _ _ _ _ _ _) as [r s1]. cbn [fst snd] in *. subst r.
  split_and!.
  - unfold tag_rejection. by repeat case_match.
  - unfold tag_rejection. by repeat case_match.
  - intros Hs. destruct e; try (by eexists).
    unfold tag_rejection in Hs. by destruct (scope_challenge _).
  - unfold reject_unnamed, mcp_rejection. cbn. by rewrite Hw.
  - unfold reject_unnamed, mcp_rejection. cbn. rewrite Hw. unfold record_rejection.
    by repeat case_match.
  - done.
Qed.

(** ** Calls of verified callers *)


Section Calls.
Context {W S : Type} `{Backend S} `{SerdeJson, Jwt, UrlParse, SerdeA2ui}.
Variable iter : gmap str HdCacheEntry → list (str * HdCacheEntry).
Variable token_hash : str → str.
Variable dev : bool.
Variable dbg : gset str → str.
Variable je : str → str.
Variable cell : HttpHosts.
Variable retention : Z.
Variable pkg html uri : str.
Variable d : Dispatcher W.
Variable cfg : McpConfig.
Implicit Types (s : McpState W S) (env : McpEnv) (p : Principal).

(** What the line of a call says, against the reply: a result stands for an
    audited success, an error for its class's code, and a success whose
    envelope could not be built for the code of a tool fault. *)
Definition code_matches (i : Value) (req : option A2uiVersion) (r : Reply) (l : AuditRecord) : Prop :=
  (∃ v, r = rpc_ok i v ∧ au_result l = §"ok")
  ∨ (∃ e m, r = rpc_error i (code_for e) m ∧ au_result l = error_result e)
  ∨ (∃ m, r = rpc_error i CODE_TOOL_PROVIDER m ∧ au_result l = §"ok" ∧ req ≠ None).

Lemma wrap_tool_error req x e : wrap_a2ui_if_requested cell req x = Err e → req ≠ None ∧ ∃ m, e = Tool m.
Proof using Type.
  unfold wrap_a2ui_if_requested. destruct req as [v|]; [|done]. destruct (negb _); [done|].
  destruct (wrap_a2ui cell v (dr_result x)); [done|]. intros [= <-]. split; [done|]. by eexists.
Qed.

Lemma call_reply_matches i ch req r l :
  line_outcome r l → code_matches i req (call_reply cell cfg i ch req r) l.
Proof using Type.
  destruct r as [x|e]; cbn [line_outcome call_reply]; intros [Hl _].
  - unfold call_result. destruct (wrap_a2ui_if_requested cell req x) as [x'|e] eqn:Ew; cbn [result_bind].
    + left. by eexists.
    + apply wrap_tool_error in Ew as [Hr [m ->]]. right. right. by eexists.
  - right. left. exists e. destruct e; by eexists.
Qed.

Lemma proxied_matches i req r l : line_outcome r l → code_matches i req (proxied i r) l.
Proof using Type.
  destruct r as [x|e]; cbn [line_outcome proxied]; intros [Hl _]; [left; by eexists|].
  right. left. exists e. by eexists.
Qed.

Lemma tools_call_line env i params p ch s tool req :
  get_str §"name" params = Some tool → parse_mcp_a2ui_version params = Ok req →
  runs_as_task d cfg tool = None →
  let '(r, s') := tools_call dbg cell retention d cfg env i params p ch s in
  one_line (ms_world s) (ms_world s') (λ l, line_for tool §"mcp" p l ∧ code_matches i req r l)
  ∧ ms_tasks s' = ms_tasks s.
Proof using Type.
  intros Hn Hv Ht. unfold tools_call.
  assert (as_str (index §"name" params) = Some tool) as ->.
  { unfold get_str, index in *. by destruct (value_get §"name" params). }
  rewrite Hv, Ht.
  pose proof (invoke_with_line dbg d (he_clock (me_http env)) tool (index §"arguments" params) p
                §"mcp" no_overrides (ms_world s)) as Hl.
  unfold invoke. destruct (invoke_with _ _ _ _ _ _ _ _ _) as [r w]. cbn [fst snd] in Hl.
  split; [|done]. eapply one_line_impl; [|exact Hl].
  intros l [Hf Ho]. split; [done|]. by apply call_reply_matches.
Qed.

(** The tool or resource a known method dispatches, if it does. *)
Definition dispatched (method : str) (params : Value) : option str :=
  if decide (method = §"tools/call") then
    t ← as_str (index §"name" params);
    match parse_mcp_a2ui_version params, runs_as_task d cfg t with
    | Ok _, None => Some t
    | _, _ => None
    end
  else if decide (method = §"resources/read") then
    u ← as_str (index §"uri" params);
    if decide (u = RUNTIME_URI) then None
    else if mc_widget cfg && is_widget_uri u then None else Some u
  else if decide (method = §"updateModelContext") then
    u ← as_str (index §"uri" params); _ ← value_get §"record" params; Some u
  else None.

(** The arguments of a call that runs as a task. *)
Definition tasked (method : str) (params : Value) : option Value :=
  if decide (method = §"tools/call") then
    t ← as_str (index §"name" params);
    match parse_mcp_a2ui_version params, runs_as_task d cfg t with
    | Ok _, Some _ => Some (index §"arguments" params)
    | _, _ => None
    end
  else None.

(** The call is handed to the process as one runner under its trace id, or
    refused because one is alive there. *)
Definition handed_over (trace : str) (args : Value) (ps ps' : Process S) : Prop :=
  if decide (trace ∈ hub ps) then ps' = ps
  else hub ps' = {[trace]} ∪ hub ps ∧ store ps' = store ps
       ∧ runners ps' = (trace, StartDispatch args) :: runners ps.

Lemma run_as_task_hands_over ts run tool args p a2ui ps :
  handed_over (trace_id p) args ps (run_as_task retention ts run tool args p a2ui ps).2.
Proof using Type.
  unfold handed_over, run_as_task, start, hub_open. cbn [id TaskRecord_new].
  case_decide; [done|]. by split_and!.
Qed.

(** The message of a body, if it is one that is served: its object, method
    and era. *)
Definition served (parts : Parts) (body : str) : option (Value * str * bool) :=
  match json_from_str body with
  | Some (Value.Object m) =>
      let obj := Value.Object m in
      if bool_decide (get_str §"jsonrpc" obj = Some §"2.0") then
        method ← get_str §"method" obj;
        match era parts (index §"params" obj) method with
        | Ok modern =>
            if bool_decide (value_get §"id" obj = None) && starts_with §"notifications/" method
            then None else Some (obj, method, modern)
        | Err _ => None
        end
      else None
  | _ => None
  end.

Definition requested_version (params : Value) : option A2uiVersion :=
  match parse_mcp_a2ui_version params with Ok v => v | Err _ => None end.

(** One dispatch line, and what it says of the reply. *)
Definition dispatch_accounted i params p (t : str) s (x : Reply * McpState W S) : Prop :=
  one_line (ms_world s) (ms_world x.2)
    (λ l, line_for t §"mcp" p l ∧ code_matches i (requested_version params) x.1 l).

Lemma serve_accounted env parts method modern i params p s x :
  serve dbg cell retention pkg html uri d cfg env parts method modern i params p s = Some x →
  match dispatched method params with
  | Some t => dispatch_accounted i params p t s x ∧ ms_tasks x.2 = ms_tasks s
  | None =>
      ms_world x.2 = ms_world s
      ∧ match tasked method params with
        | Some args => handed_over (trace_id p) args (ms_tasks s) (ms_tasks x.2)
        | None => ms_tasks x.2 = ms_tasks s
        end
  end.
Proof using Type.
  unfold serve, dispatched, tasked. intros Hs.
  repeat (case_decide; [subst; try (apply (inj Some) in Hs as <-; done)|]); try done;
    apply (inj Some) in Hs as <-.
  - unfold tools_call. destruct (as_str (index §"name" params)) as [t|] eqn:En; [|done].
    cbn [mbind option_bind]. destruct (parse_mcp_a2ui_version params) as [req|m] eqn:Ev; [|done].
    destruct (runs_as_task d cfg t) as [ts|] eqn:Et.
    { pose proof (run_as_task_hands_over ts (me_run env) t (index §"arguments" params) p (a2ui_of d t)
        (ms_tasks s)) as Hh. by destruct (run_as_task _ _ _ _ _ _ _ _). }
    assert (get_str §"name" params = Some t) as Hn.
    { unfold get_str, index in *. by destruct (value_get §"name" params). }
    pose proof (tools_call_line env i params p (card_host cfg modern parts params) s t req Hn Ev Et) as Hl.
    unfold tools_call in Hl. rewrite En, Ev, Et in Hl. unfold dispatch_accounted, requested_version.
    rewrite Ev. by destruct (invoke _ _ _ _ _ _ _ _).
  - unfold resources_read. destruct (as_str (index §"uri" params)) as [u|]; [|done].
    cbn [mbind option_bind]. case_decide; [done|]. destruct (_ && _); [done|].
    unfold read_resource, dispatch_accounted. pose proof (mcp_dispatch_line dbg d (he_clock (me_http env)) u p
      (λ up ctx o, up_read_resource up u p ctx o) (ms_world s)) as Hl.
    destruct (mcp_dispatch _ _ _ _ _ _ _) as [r w]. split; [|done].
    eapply one_line_impl; [|exact Hl]. intros l [Hf Ho]. split; [done|]. by apply proxied_matches.
  - unfold mcp_update_model_context. destruct (as_str (index §"uri" params)) as [u|]; [|done].
    cbn [mbind option_bind]. destruct (value_get §"record" params) as [rec|]; [|done].
    unfold update_model_context, dispatch_accounted. pose proof (mcp_dispatch_line dbg d (he_clock (me_http env)) u p
      (λ up ctx o, up_update_model_context up u rec p ctx o) (ms_world s)) as Hl.
    destruct (mcp_dispatch _ _ _ _ _ _ _) as [r w]. split; [|done].
    eapply one_line_impl; [|exact Hl]. intros l [Hf Ho]. split; [done|]. by apply proxied_matches.
Qed.

(** Nothing behind the dispatcher is reached: the audit trail is as it was, or
    has one more rejection. *)
Definition only_rejected env s s' : Prop :=
  ms_world s' = ms_world s
  ∨ ∃ tool sb tn tr e,
      ms_world s' = record_rejection d (he_when (me_http env)) (he_now (me_http env)) tool §"mcp"
                      sb tn tr e (ms_world s).

(** What a message comes to. *)
Definition message_accounted env parts body p s (x : Reply * McpState W S) : Prop :=
  match served parts body with
  | Some (obj, method, modern) =>
      let params := index §"params" obj in
      match dispatched method params, tasked method params with
      | Some t, _ =>
          (∃ r0, one_line (ms_world s) (ms_world x.2)
            (λ l, line_for t §"mcp" p l
                  ∧ code_matches (index §"id" obj) (requested_version params) r0 l)
          ∧ x.1 = (let r := maybe_respond (bool_decide (is_Some (value_get §"id" obj))) r0 in
                   if modern then modernize r method else r))
          ∧ ms_tasks x.2 = ms_tasks s
      | None, Some args =>
          ms_world x.2 = ms_world s ∧ handed_over (trace_id p) args (ms_tasks s) (ms_tasks x.2)
      | None, None => only_rejected env s x.2 ∧ ms_tasks x.2 = ms_tasks s
      end
  | None => only_rejected env s x.2 ∧ ms_tasks x.2 = ms_tasks s
  end.

Lemma rpc_verified_accounted env parts body p s :
  message_accounted env parts body p s
    (rpc_verified dbg je cell retention pkg html uri d cfg env parts body p s).
Proof using Type.
  unfold message_accounted, served, rpc_verified.
  assert (∀ t sb tn tr e s0, only_rejected env s0 (mcp_rejection d env t sb tn tr e s0)
    ∧ ms_tasks (mcp_rejection d env t sb tn tr e s0) = ms_tasks s0) as Hrej.
  { intros. split; [|done]. right. by exists t, sb, tn, tr, e. }
  destruct (json_from_str body) as [raw|]; [|apply Hrej].
  destruct raw as [| | | | |m]; try apply Hrej. set (obj := Value.Object m).
  destruct (bool_decide (get_str §"jsonrpc" obj = Some §"2.0")); [|apply Hrej]. cbn [negb].
  destruct (get_str §"method" obj) as [method|]; [|apply Hrej]. cbn [mbind option_bind].
  unfold rpc_message. destruct (era parts _ method) as [modern|[[c msg] data]]; [|apply Hrej].
  assert (bool_decide (value_get §"id" obj = None) =
    negb (bool_decide (is_Some (value_get §"id" obj)))) as ->.
  { destruct (value_get §"id" obj) as [x|]; [|done].
    by rewrite bool_decide_eq_false_2, bool_decide_eq_true_2 by eauto. }
  destruct (negb _ && _); [by split; [left|]|].
  destruct (serve _ _ _ _ _ _ _ _ _ _ _ _ _ _ _ _) as [[r s']|] eqn:Es.
  - apply serve_accounted in Es. cbv zeta. destruct (dispatched _ _) as [t|].
    + destruct Es as [Es Ht]. split; [|exact Ht]. by exists r.
    + destruct Es as [Ew Es]. destruct (tasked _ _); [by split|]. split; [by left|done].
  - assert (dispatched method (index §"params" obj) = None ∧ tasked method (index §"params" obj) = None)
      as [-> ->]; [|apply Hrej].
    revert Es. unfold serve, dispatched, tasked. by repeat case_decide.
Qed.
End Calls.


(** ** A call that goes asynchronous is answered in time *)

(** When the upstream says the call goes on without the caller, if it does so
    before it ends. *)
Fixpoint first_async (rx : list (Z * Recv)) : option Z :=
  match rx with
  | [] => None
  | (t, Got (TaskEvent.Async _ _ _ _)) :: _ => Some t
  | (_, Got e) :: rx' => if event_is_terminal e then None else first_async rx'
  | (_, Lagged) :: rx' => first_async rx'
  end.

Definition announced (up : str) (rx : list (Z * Recv)) : Prop :=
  ∃ t check rc nt, (t, Got (TaskEvent.Async up check rc nt)) ∈ rx.

Section Await.
Variable settings : TaskSettings.
Variable trace : str.
Variable started : Z.
Variable a2ui : bool.
Variable closes : Z.
Variable closed : option TaskRecord.

Abbreviation awaited := (await settings trace started a2ui closes closed).

Lemma from_store_not_filed t v : from_store trace started t a2ui closed ≠ Ok (Filed v).
Proof using Type. unfold from_store. by repeat case_match. Qed.

Lemma await_deadline rx w x :
  wt_deadline w = Some x →
  ((awaited rx w).2 ≤ x)%Z ∧ ∀ v, (awaited rx w).1 = Ok (Filed v) → (awaited rx w).2 = x.
Proof using Type.
  revert w. induction rx as [|[t item] rx IH]; intros w Hx; cbn [await].
  - unfold expired. rewrite Hx. destruct (x <? closes)%Z eqn:E; cbn; bool_facts; [split; [lia|done]|].
    split; [lia|]. intros v Hv. by apply from_store_not_filed in Hv.
  - unfold expired. rewrite !Hx. destruct (x <? t)%Z eqn:E; bool_facts; [cbn; split; [lia|done]|].
    destruct item as [[]|]; try (apply IH; done); try (cbn; split; [lia|]; by repeat case_match).
    apply IH. unfold on_async. cbn. by rewrite Hx.
Qed.

Lemma await_spec rx w :
  wt_deadline w = None →
  match first_async rx with
  | None => ∀ v, (awaited rx w).1 ≠ Ok (Filed v)
  | Some t0 =>
      ((awaited rx w).2 ≤ t0 + secs (mcp_wait settings))%Z
      ∧ ∀ v, (awaited rx w).1 = Ok (Filed v) → (awaited rx w).2 = (t0 + secs (mcp_wait settings))%Z
  end.
Proof using Type.
  revert w. induction rx as [|[t item] rx IH]; intros w Hw; cbn [await first_async];
    unfold expired; rewrite Hw.
  - intros v. apply from_store_not_filed.
  - destruct item as [[]|]; cbn [event_is_terminal]; try (apply IH; done).
    + apply await_deadline. unfold on_async. cbn. by rewrite Hw.
    + done.
    + by case_decide.
Qed.

(** A filed answer names what the upstream announced. *)
Lemma await_filed rx w v :
  (wt_deadline w ≠ None → ∃ up, wt_upstream w = Some up) →
  (awaited rx w).1 = Ok (Filed v) →
  ∃ w' up, v = filed trace w' ∧ wt_upstream w' = Some up
    ∧ (wt_upstream w = Some up ∨ announced up rx).
Proof using Type.
  assert (∀ w t, expired w t = true → wt_deadline w ≠ None) as Hexp.
  { intros w0 t. unfold expired. by destruct (wt_deadline w0). }
  revert w. induction rx as [|[t item] rx IH]; intros w Hw; cbn [await].
  - destruct (expired w closes) eqn:E; cbn [fst]; [|intros Hv; by apply from_store_not_filed in Hv].
    intros Hv. assert (v = filed trace w) as -> by congruence.
    destruct (Hw (Hexp _ _ E)) as [up Hup]. exists w, up. auto.
  - destruct (expired w t) eqn:E; cbn [fst].
    { intros Hv. assert (v = filed trace w) as -> by congruence.
      destruct (Hw (Hexp _ _ E)) as [up Hup]. exists w, up. auto. }
    assert (∀ w0, (∃ w' up, v = filed trace w' ∧ wt_upstream w' = Some up
        ∧ (wt_upstream w0 = Some up ∨ announced up rx)) →
      (∀ up, wt_upstream w0 = Some up → wt_upstream w = Some up ∨ announced up ((t, item) :: rx)) →
      ∃ w' up, v = filed trace w' ∧ wt_upstream w' = Some up
        ∧ (wt_upstream w = Some up ∨ announced up ((t, item) :: rx))) as Hstep.
    { intros w0 (w' & up & Hv & Hup & Hor) Hw0. exists w', up. split_and!; [done|done|].
      destruct Hor as [Hor|(t' & c & rc & nt & Hin)]; [auto|]. right. exists t', c, rc, nt.
      by right. }
    destruct item as [[]|]; try (intros Hv; apply (Hstep w); [by apply IH|auto]; fail); try done.
    + intros Hv. eapply Hstep; [apply IH, Hv; by eexists|]. intros up' [= <-]. right.
      do 4 eexists. left.
    + cbn. by case_decide.
Qed.
End Await.

(** A tool call that runs as a task is answered filed only if the upstream
    said that it goes on asynchronously, and then with the id it announced;
    from that moment the client waits at most the configured time, and a filed
    answer comes exactly when it is over.  A call the upstream answers itself
    is never filed. *)
Theorem mcp_filed_in_time settings trace started a2ui closes closed rx :
  let '(r, t) := await settings trace started a2ui closes closed rx (first_wait settings) in
  match first_async rx with
  | None => ∀ v, r ≠ Ok (Filed v)
  | Some t0 =>
      (t ≤ t0 + secs (mcp_wait settings))%Z
      ∧ ∀ v, r = Ok (Filed v) →
          t = (t0 + secs (mcp_wait settings))%Z
          ∧ ∃ w up, v = filed trace w ∧ wt_upstream w = Some up ∧ announced up rx
  end.
Proof.
  pose proof (await_spec settings trace started a2ui closes closed rx (first_wait settings) eq_refl) as Hs.
  pose proof (await_filed settings trace started a2ui closes closed rx (first_wait settings)) as Hf.
  destruct (await _ _ _ _ _ _ _ _) as [r t]. cbn [fst snd] in *.
  destruct (first_async rx) as [t0|]; [|done]. destruct Hs as [Ht Hs]. split; [done|].
  intros v Hv. split; [by eapply Hs|]. destruct (Hf v) as (w & up & ? & ? & [?|?]); [done|done|done|].
  by exists w, up.
Qed.

(** ** Behaviour at the edges *)

(** A tool call without a name, with an unknown A2UI version, or a handshake
    with an unknown version, is refused without any line. *)
Theorem mcp_bad_params_unaudited {W S : Type} `{Backend S} `{SerdeJson, Jwt, UrlParse, SerdeA2ui}
    dbg cell retention pkg uuid (d : Dispatcher W) cfg env i params p ch (s : McpState W S) :
  (as_str (index §"name" params) = None →
   (tools_call dbg cell retention d cfg env i params p ch s).2 = s)
  ∧ (∀ e, parse_mcp_a2ui_version params = Err e →
     (tools_call dbg cell retention d cfg env i params p ch s).2 = s)
  ∧ initialize_response pkg uuid true i (json_object [(§"protocolVersion", js §"1999-01-01")])
    = rpc_error i CODE_INVALID_PARAMS
        §"unsupported protocolVersion: 1999-01-01 (supported: 2024-11-05, 2025-03-26, 2025-06-18, 2025-11-25)".
Proof.
  split_and!.
  - intros Hn. unfold tools_call. by rewrite Hn.
  - intros e He. unfold tools_call. rewrite He. by destruct (as_str _).
  - reflexivity.
Qed.

(** ** Instances *)

#[local] Existing Instance demo_jwt.
#[local] Existing Instance sample_url.
#[local] Existing Instance sample_serde.

(** A codec that knows two bodies besides the token's. *)
Definition demo_call : Value :=
  json_object [(§"jsonrpc", js §"2.0"); (§"id", num 7); (§"method", js §"tools/call");
    (§"params", json_object [(§"name", js §"echo"); (§"arguments", Value.Null)])].
Definition mcp_json : SerdeJson := {|
  json_to_string _ := §"?";
  json_from_str s := if decide (s = §"body") then Some demo_body
                     else if decide (s = §"call") then Some demo_call else None;
|}.
#[local] Existing Instance mcp_json.

Lemma mcp_json_stable : JsonStable.
Proof. by constructor. Qed.

Definition demo_task_run : TaskRun :=
  {| tr_io := plain_io 0; tr_now := 0; tr_started := 0; tr_rx := []; tr_closes := 0;
     tr_closed := None |}.
Definition demo_mcp_env : McpEnv :=
  {| me_http := {| he_identity := demo_identity_env; he_clock := Dispatcher.tick; he_when := §"now";
                   he_now := 0; he_uuid := §"u" |};
     me_run := demo_task_run; me_descriptors := []; me_session_uuid := §"s" |}.
Definition demo_mcp_cfg : McpConfig :=
  {| mc_tasks := Some TaskSettings_default; mc_route := None; mc_widget := true;
     mc_card_note := CARD_NOTE |}.
Definition demo_mcp : McpState nat Memory :=
  Build_McpState (Build_HttpState (World_new unenforced 0) demo_provider)
    (Build_Process ∅ Memory_default []).

Lemma mcp_reply_wellformed_witness :
  let r := (rpc map_to_list demo_hash true no_debug (λ _, []) None 1000 §"1" [] [] demo_echo
              demo_mcp_cfg demo_mcp_env demo_parts §"call" demo_mcp).1 in
  answers (num 7) r
  ∨ ((json_from_str §"call" ≫= value_get §"id") = None
     ∧ HttpIdentity.status r = 202%Z ∧ HttpIdentity.body r = None).
Proof.
  exact (mcp_reply_wellformed (H1 := mcp_json_stable) map_to_list demo_hash true no_debug (λ _, []) None
           1000 §"1" [] [] demo_echo demo_mcp_cfg demo_mcp_env demo_parts §"call" demo_mcp eq_refl).
Defined.

Lemma mcp_unverified_refused_witness :
  let '(r, s') := rpc map_to_list demo_hash true no_debug (λ _, []) None 1000 §"1" [] [] demo_echo
                    demo_mcp_cfg demo_mcp_env no_headers §"call" demo_mcp in
  HttpIdentity.status r = 401%Z ∧ ms_tasks s' = ms_tasks demo_mcp.
Proof.
  pose proof (mcp_unverified_refused map_to_list demo_hash true no_debug (λ _, []) None 1000 §"1" [] []
    demo_echo demo_mcp_cfg demo_mcp_env no_headers §"call" demo_mcp
    (Auth §"missing Authorization header") false eq_refl) as Hr.
  destruct (rpc _ _ _ _ _ _ _ _ _ _ _ _ _ _ _ _) as [r s'].
  destruct Hr as (Hs & _ & _ & _ & _ & Ht). split; [exact Hs|exact Ht].
Defined.

(** Every tool is the upstream's. *)
Definition demo_proxy : Dispatcher nat :=
  {| registry := ∅; d_env := §"test"; upstream := Some echo_upstream; denied := ∅;
     scope_restrictions := ∅; surfaces := ∅ |}.

Lemma demo_mcp_verified :
  (rpc_verify map_to_list demo_hash true demo_mcp_cfg demo_mcp_env demo_parts demo_mcp).1
  = Ok demo_alice.
Proof. vm_compute. reflexivity. Qed.


(** A receipt after a second; nothing more within the waiting time. *)
Lemma mcp_filed_in_time_witness :
  let rx := [(secs 1, Got (TaskEvent.Async §"up-1" None (Some §"filed as 7") None));
             (secs 2, Lagged); (secs 90, Got (TaskEvent.Done Value.Null))] in
  match await TaskSettings_default §"tr" 0 true (secs 100) None rx (first_wait TaskSettings_default) with
  | (Ok (Filed v), t) => t = secs 21 ∧ ∃ w up, v = filed §"tr" w ∧ wt_upstream w = Some up ∧ announced up rx
  | _ => False
  end.
Proof.
  intros rx.
  pose proof (mcp_filed_in_time TaskSettings_default §"tr" 0 true (secs 100) None rx) as Hf.
  destruct (await TaskSettings_default §"tr" 0 true (secs 100) None rx _) as [r t] eqn:E.
  vm_compute in E. destruct r as [[x|v|m]|e]; try discriminate E.
  destruct Hf as [_ Hf]. exact (Hf v eq_refl).
Defined.
