(* ===== verification/A2aTime.v ===== *)
(** * A2aTime: the timestamps of the A2A face (the two RFC 3339 functions of
    crates/triton-adapters-http/src/a2a_v1.rs)

    Both are the civil-calendar algorithms of the code on [Z].  Where the
    64-bit sum of the parser can overflow it wraps, as in a release build; the
    year [-2^63], which alone would wrap before the division by 400, is read
    as itself. *)

From S2P Require Import Prelude Sse.

Definition i64_wrap (n : Z) : Z := ((n + 2 ^ 63) mod 2 ^ 64 - 2 ^ 63)%Z.

(** ** Formatting *)

(** [{n:0w}] of a number that is not negative. *)
Definition pad (w : nat) (n : Z) : str :=
  let s := dec (Z.abs n) in
  let sign := if (n <? 0)%Z then §"-" else [] in
  sign ++ replicate (w - length sign - length s) "0"%char ++ s.

(** Days since the epoch to year, month and day. *)
Definition civil_of_days (days : Z) : Z * Z * Z :=
  let z := (days + 719468)%Z in
  let era := (z / 146097)%Z in
  let doe := (z - era * 146097)%Z in
  let yoe := ((doe - doe / 1460 + doe / 36524 - doe / 146096) / 365)%Z in
  let y := (yoe + era * 400)%Z in
  let doy := (doe - (365 * yoe + yoe / 4 - yoe / 100))%Z in
  let mp := ((5 * doy + 2) / 153)%Z in
  let d := (doy - (153 * mp + 2) / 5 + 1)%Z in
  let m := if (mp <? 10)%Z then (mp + 3)%Z else (mp - 9)%Z in
  ((if (m <=? 2)%Z then y + 1 else y)%Z, m, d).

Definition rfc3339 (ms : Z) : str :=
  let secs := (ms / 1000)%Z in
  let millis := (ms mod 1000)%Z in
  let days := (secs / 86400)%Z in
  let sod := (secs mod 86400)%Z in
  let '(y, m, d) := civil_of_days days in
  pad 4 y ++ §"-" ++ pad 2 m ++ §"-" ++ pad 2 d ++ §"T"
    ++ pad 2 (sod / 3600)%Z ++ §":" ++ pad 2 (sod mod 3600 / 60)%Z ++ §":" ++ pad 2 (sod mod 60)%Z
    ++ §"." ++ pad 3 millis ++ §"Z".

(** ** Parsing *)

(** [split_once] at either of two characters. *)
Fixpoint split_once_either (a b : ascii) (s : str) : option (str * str) :=
  match s with
  | [] => None
  | c :: r =>
      if decide (c = a ∨ c = b) then Some ([], r)
      else (λ '(x, y), (c :: x, y)) <$> split_once_either a b r
  end.

(** [rfind] of either, then [split_at] and the sign byte dropped: what stands
    before, the sign, what follows. *)
Definition rsplit_sign (s : str) : option (str * ascii * str) :=
  '(y, x) ← split_once_either "+" "-" (rev s);
  c ← rev s !! length y;
  Some (rev x, c, rev y).

Definition three (l : list str) : option (Z * Z * Z) :=
  match l with
  | [a; b; c] => x ← parse_i64 a; y ← parse_i64 b; z ← parse_i64 c; Some (x, y, z)
  | _ => None
  end.

Definition days_of_civil (y m day : Z) : Z :=
  let '(yy, mm2) := (if (m <=? 2)%Z then (y - 1, m + 9) else (y, m - 3))%Z in
  let era := (yy / 400)%Z in
  let yoe := (yy - era * 400)%Z in
  let doy := ((153 * mm2 + 2) / 5 + day - 1)%Z in
  let doe := (yoe * 365 + yoe / 4 - yoe / 100 + doy)%Z in
  (era * 146097 + doe - 719468)%Z.

Definition in_date (m day : Z) : bool :=
  ((1 <=? m) && (m <=? 12) && (1 <=? day) && (day <=? 31))%Z.

(** [strip_suffix] of either letter. *)
Definition first_suffix (s : str) : option str :=
  match strip_suffix §"Z" s with Some t => Some t | None => strip_suffix §"z" s end.

(** The time of day and the offset in milliseconds. *)
Definition split_offset (rest : str) : option (str * Z) :=
  match first_suffix rest with
  | Some t => Some (t, 0%Z)
  | None =>
      '(t, sign, off) ← rsplit_sign rest;
      '(oh, om) ← split_once ":" off;
      oh ← parse_i64 oh;
      om ← parse_i64 om;
      if ((23 <? oh) || (59 <? om))%Z then None
      else Some (t, (if decide (sign = "-"%char) then -1 else 1) * (oh * 3600 + om * 60) * 1000)%Z
  end.

Definition fraction_millis (frac : str) : option Z :=
  parse_i64 (take 3 (frac ++ replicate (3 - length frac) "0"%char)).

Definition parse_rfc3339 (raw : str) : option Z :=
  '(date, rest) ← split_once_either "T" "t" (trim raw);
  '(y, m, day) ← three (split_on "-" date);
  if negb (in_date m day) then None
  else
    '(time, offset_ms) ← split_offset rest;
    let '(hms, frac) := match split_once "." time with Some x => x | None => (time, []) end in
    '(hh, mm, ss) ← three (split_on ":" hms);
    if ((23 <? hh) || (59 <? mm) || (60 <? ss))%Z then None
    else if negb (forallb is_ascii_digit frac) then None
    else
      millis ← fraction_millis frac;
      Some (i64_wrap ((days_of_civil y m day * 86400 + hh * 3600 + mm * 60 + ss) * 1000
                        + millis - offset_ms)).

(** ** The calendar *)

(** A predicate on a range, decided by running through it. *)
Fixpoint all_from (P : Z → bool) (n : nat) (z : Z) : bool :=
  match n with
  | 0 => true
  | S k => P z && all_from P k (z + 1)
  end.
Lemma all_from_spec P n z x : all_from P n z = true → (z ≤ x < z + Z.of_nat n)%Z → P x = true.
Proof.
  revert z. induction n as [|n IH]; intros z; cbn [all_from]; [lia|].
  intros [Hz Hn]%andb_prop Hx. destruct (decide (x = z)) as [->|]; [done|]. eapply IH; [done|lia].
Qed.

Lemma all_from_intro (P : Z → bool) n x :
  all_from P (Z.to_nat n) 0 = true → (0 ≤ x < n)%Z → P x = true.
Proof. intros Ha Hx. eapply all_from_spec; [exact Ha|lia]. Qed.

Definition leap (y : Z) : bool :=
  ((y mod 4 =? 0) && (negb (y mod 100 =? 0) || (y mod 400 =? 0)))%Z.
Definition leap_day (y : Z) : Z := if leap y then 1%Z else 0%Z.

(** An era has 400 years from March to February; the first day of year [yoe]
    and that of the next. *)
Definition yoe_of (doe : Z) : Z := ((doe - doe / 1460 + doe / 36524 - doe / 146096) / 365)%Z.
Definition year_start (yoe : Z) : Z := (365 * yoe + yoe / 4 - yoe / 100)%Z.
Definition year_end (yoe : Z) : Z := (year_start yoe + 365 + leap_day (yoe + 1))%Z.

Definition year_ok (yoe : Z) : bool :=
  ((yoe_of (year_start yoe) =? yoe) && (yoe_of (year_end yoe - 1) =? yoe)
   && (year_end yoe =? (if yoe <? 399 then year_start (yoe + 1) else 146097)))%Z.
Lemma years_ok : all_from year_ok (Z.to_nat 400) 0 = true.
Proof. vm_compute. reflexivity. Qed.

Lemma yoe_of_mono x y : (x ≤ y → yoe_of x ≤ yoe_of y)%Z.
Proof. unfold yoe_of. intros. apply Z.div_le_mono; [lia|]. Z.to_euclidean_division_equations. lia. Qed.

Lemma yoe_of_year yoe doe :
  (0 ≤ yoe < 400 → year_start yoe ≤ doe < year_end yoe → yoe_of doe = yoe)%Z.
Proof.
  intros Hy Hd. pose proof (all_from_intro _ _ _ years_ok Hy) as Hok.
  unfold year_ok in Hok. apply andb_prop in Hok as [Hok _]. apply andb_prop in Hok as [H1 H2].
  apply Z.eqb_eq in H1, H2.
  pose proof (yoe_of_mono (year_start yoe) doe ltac:(lia)).
  pose proof (yoe_of_mono doe (year_end yoe - 1) ltac:(lia)). lia.
Qed.

Lemma year_of_day doe :
  (0 ≤ doe < 146097)%Z → ∃ yoe, (0 ≤ yoe < 400)%Z ∧ (year_start yoe ≤ doe < year_end yoe)%Z.
Proof.
  intros Hd.
  assert (∀ n, (0 ≤ Z.of_nat n < 400 → doe < year_end (Z.of_nat n))%Z →
    (0 ≤ Z.of_nat n < 400)%Z →
    ∃ yoe, (0 ≤ yoe < 400)%Z ∧ (year_start yoe ≤ doe < year_end yoe)%Z) as Hn.
  { induction n as [|n IH]; intros Hlt Hr.
    - exists 0%Z. split; [lia|]. specialize (Hlt Hr). split; [|done].
      change (year_start (Z.of_nat 0)) with 0%Z in *. change (year_start 0) with 0%Z. lia.
    - destruct (decide (year_start (Z.of_nat (S n)) ≤ doe)%Z) as [Hs|Hs].
      + exists (Z.of_nat (S n)). split; [lia|]. split; [done|auto].
      + apply IH; [|lia]. intros Hr'. pose proof (all_from_intro _ _ _ years_ok Hr') as Hok.
        unfold year_ok in Hok. apply andb_prop in Hok as [_ Hok]. apply Z.eqb_eq in Hok.
        rewrite (proj2 (Z.ltb_lt _ _)) in Hok by lia. rewrite Hok.
        replace (Z.of_nat n + 1)%Z with (Z.of_nat (S n)) by lia. lia. }
  apply (Hn 399%nat); [|lia]. intros _. change (year_end (Z.of_nat 399)) with 146097%Z. lia.
Qed.

(** *** Within a year *)

(** The year that starts in March: [mp] counts the months from then. *)
Definition month_of (mp : Z) : Z := (if (mp <? 10) then mp + 3 else mp - 9)%Z.
(** Day [doy] of the year: whether it lies in the next calendar year, month and
    day of the month. *)
Definition mp_of (doy : Z) : Z := ((5 * doy + 2) / 153)%Z.
Definition place (doy : Z) : Z * Z * Z :=
  let m := month_of (mp_of doy) in
  ((if m <=? 2 then 1 else 0)%Z, m, (doy - (153 * mp_of doy + 2) / 5 + 1)%Z).

Definition month_days (l : Z) (m : Z) : Z :=
  (if m =? 2 then 28 + l else if (m =? 4) || (m =? 6) || (m =? 9) || (m =? 11) then 30 else 31)%Z.
(** The day after, in the Gregorian calendar. *)
Definition next_day (c : Z * Z * Z) : Z * Z * Z :=
  let '(y, m, d) := c in
  if (d <? month_days (leap_day y) m)%Z then (y, m, d + 1)%Z
  else if (m <? 12)%Z then (y, m + 1, 1)%Z else (y + 1, 1, 1)%Z.

Definition same_day (a b : Z * Z * Z) : bool :=
  ((a.1.1 =? b.1.1) && (a.1.2 =? b.1.2) && (a.2 =? b.2))%Z.
Definition next_with (l : Z) (c : Z * Z * Z) : Z * Z * Z :=
  let '(y, m, d) := c in
  if (d <? month_days l m)%Z then (y, m, d + 1)%Z
  else if (m <? 12)%Z then (y, m + 1, 1)%Z else (y + 1, 1, 1)%Z.
Definition place_ok (l doy : Z) : bool :=
  let '(y, m, d) := place doy in
  ((0 <=? mp_of doy) && (mp_of doy <? 12) && (1 <=? m) && (m <=? 12) && (1 <=? d) && (d <=? 31)
   && (negb (m =? 2) || (y =? 1)) && (0 <=? y) && (y <=? 1))%Z
  && same_day (next_with l (y, m, d))
       (if (doy + 1 <? 365 + l)%Z then place (doy + 1) else (1, 3, 1)%Z).
Lemma places_ok l : (l = 0 ∨ l = 1)%Z → all_from (place_ok l) (Z.to_nat (365 + l)) 0 = true.
Proof. intros [-> | ->]; vm_compute; reflexivity. Qed.

Lemma same_day_eq a b : same_day a b = true → a = b.
Proof. destruct a as [[]], b as [[]]. unfold same_day. cbn. intros Hs. bool_facts. congruence. Qed.

Lemma leap_day_cases y : (leap_day y = 0 ∨ leap_day y = 1)%Z.
Proof. unfold leap_day. destruct (leap y); auto. Qed.

(** ** Dates and days *)

Definition later (k : Z) (c : Z * Z * Z) : Z * Z * Z := let '(y, m, d) := c in (y + k, m, d)%Z.

(** A day as era, year of the era and day of the year. *)
Lemma day_split days : ∃ era yoe doy,
  (days = 146097 * era + year_start yoe + doy - 719468 ∧ 0 ≤ yoe < 400
   ∧ 0 ≤ doy < 365 + leap_day (yoe + 1))%Z.
Proof.
  set (z := (days + 719468)%Z). set (era := (z / 146097)%Z).
  assert (0 ≤ z - 146097 * era < 146097)%Z as Hdoe.
  { unfold era. pose proof (Z.mod_pos_bound z 146097 ltac:(lia)) as Hb. rewrite Z.mod_eq in Hb by lia. lia. }
  destruct (year_of_day _ Hdoe) as (yoe & Hy & Hd). unfold year_end in Hd.
  exists era, yoe, (z - 146097 * era - year_start yoe)%Z. lia.
Qed.

Lemma civil_place era yoe doy :
  (0 ≤ yoe < 400)%Z → (0 ≤ doy < 365 + leap_day (yoe + 1))%Z →
  civil_of_days (146097 * era + year_start yoe + doy - 719468)
  = later (yoe + 400 * era) (place doy).
Proof.
  intros Hy Hd. unfold civil_of_days. cbv zeta.
  replace (146097 * era + year_start yoe + doy - 719468 + 719468)%Z
    with (year_start yoe + doy + era * 146097)%Z by lia.
  assert (year_start yoe + doy < 146097 ∧ 0 ≤ year_start yoe)%Z as [Hlt H0].
  { pose proof (all_from_intro _ _ _ years_ok Hy) as Hok. unfold year_ok in Hok.
    apply andb_prop in Hok as [_ Hok]. apply Z.eqb_eq in Hok. unfold year_end in Hok.
    assert (year_start (yoe + 1) ≤ 146097)%Z by (unfold year_start; Z.to_euclidean_division_equations; lia).
    assert (0 ≤ year_start yoe)%Z by (unfold year_start; Z.to_euclidean_division_equations; lia).
    destruct (yoe <? 399)%Z; lia. }
  rewrite Z.div_add by lia. rewrite (Z.div_small (year_start yoe + doy)) by lia.
  replace (year_start yoe + doy + era * 146097 - (0 + era) * 146097)%Z with (year_start yoe + doy)%Z by lia.
  fold (yoe_of (year_start yoe + doy)). rewrite (yoe_of_year yoe) by (unfold year_end; lia).
  replace (year_start yoe + doy - (365 * yoe + yoe / 4 - yoe / 100))%Z with doy by (unfold year_start; lia).
  unfold place, later. fold (mp_of doy). fold (month_of (mp_of doy)).
  destruct (month_of (mp_of doy) <=? 2)%Z; f_equal; f_equal; lia.
Qed.

Lemma place_facts yoe doy :
  (0 ≤ doy < 365 + leap_day (yoe + 1))%Z →
  let '(y, m, d) := place doy in
  (0 ≤ mp_of doy < 12 ∧ 1 ≤ m ≤ 12 ∧ 1 ≤ d ≤ 31 ∧ (m = 2 → y = 1) ∧ 0 ≤ y ≤ 1)%Z
  ∧ next_with (leap_day (yoe + 1)) (y, m, d)
    = (if (doy + 1 <? 365 + leap_day (yoe + 1))%Z then place (doy + 1) else (1, 3, 1)%Z).
Proof.
  intros Hd. pose proof (all_from_intro _ _ _ (places_ok _ (leap_day_cases (yoe + 1))) Hd) as Hok.
  unfold place_ok in Hok. destruct (place doy) as [[y m] d]. apply andb_prop in Hok as [Hok Hs].
  split; [|by apply same_day_eq]. bool_facts. lia.
Qed.

Lemma leap_later y k : leap_day (y + 400 * k) = leap_day y.
Proof.
  unfold leap_day, leap.
  replace (y + 400 * k)%Z with (y + (100 * k) * 4)%Z at 1 by lia.
  replace (y + 400 * k)%Z with (y + (4 * k) * 100)%Z at 1 by lia.
  replace (y + 400 * k)%Z with (y + k * 400)%Z by lia.
  by rewrite !Z.mod_add by lia.
Qed.

(** The two calendar functions are inverse. *)
Lemma civil_days days :
  let '(y, m, d) := civil_of_days days in days_of_civil y m d = days ∧ in_date m d = true.
Proof.
  destruct (day_split days) as (era & yoe & doy & -> & Hy & Hd).
  rewrite civil_place by done. pose proof (place_facts yoe doy Hd) as Hp.
  destruct (place doy) as [[y m] d] eqn:E. destruct Hp as [(Hmp & Hm & Hday & _ & _) _]. cbn [later].
  split; [|unfold in_date; lia].
  unfold place in E. assert (m = month_of (mp_of doy)) as -> by congruence.
  assert (y = if (month_of (mp_of doy) <=? 2)%Z then 1 else 0)%Z as -> by congruence.
  assert (d = doy - (153 * mp_of doy + 2) / 5 + 1)%Z as -> by congruence. clear E.
  unfold days_of_civil, month_of in *.
  set (yy := (yoe + 400 * era)%Z).
  assert (yy / 400 = era)%Z as Hera.
  { unfold yy. rewrite Z.mul_comm, Z.div_add by lia. rewrite Z.div_small by lia. lia. }
  destruct (mp_of doy <? 10)%Z eqn:E; bool_facts.
  - rewrite (proj2 (Z.leb_gt _ _)) by lia. replace (0 + yy)%Z with yy by lia.
    rewrite Hera. replace (yy - era * 400)%Z with yoe by lia.
    replace (mp_of doy + 3 - 3)%Z with (mp_of doy) by lia. unfold year_start. lia.
  - rewrite (proj2 (Z.leb_le _ _)) by lia. replace (1 + yy - 1)%Z with yy by lia.
    rewrite Hera. replace (yy - era * 400)%Z with yoe by lia.
    replace (mp_of doy - 9 + 9)%Z with (mp_of doy) by lia. unfold year_start. lia.
Qed.

Lemma next_place yoe era doy :
  (0 ≤ doy < 365 + leap_day (yoe + 1))%Z →
  next_day (later (yoe + 400 * era) (place doy))
  = later (yoe + 400 * era)
      (if (doy + 1 <? 365 + leap_day (yoe + 1))%Z then place (doy + 1) else (1, 3, 1)%Z).
Proof.
  intros Hd. pose proof (place_facts yoe doy Hd) as Hp.
  destruct (place doy) as [[y m] d]. destruct Hp as [(_ & _ & _ & H2 & _) <-].
  unfold next_day, next_with, later.
  assert (month_days (leap_day (y + (yoe + 400 * era))) m = month_days (leap_day (yoe + 1)) m) as ->.
  { unfold month_days. destruct (m =? 2)%Z eqn:E; [|done]. bool_facts. rewrite H2 by done.
    replace (1 + (yoe + 400 * era))%Z with (yoe + 1 + 400 * era)%Z by lia. by rewrite leap_later. }
  destruct (d <? _)%Z; [done|]. destruct (m <? 12)%Z; [done|]. f_equal. f_equal. lia.
Qed.

(** ... and the dates follow each other as in the Gregorian calendar. *)
Lemma civil_next days : civil_of_days (days + 1) = next_day (civil_of_days days).
Proof.
  destruct (day_split days) as (era & yoe & doy & -> & Hy & Hd).
  rewrite civil_place, next_place by done.
  destruct (doy + 1 <? 365 + leap_day (yoe + 1))%Z eqn:E; bool_facts.
  - rewrite <- civil_place by lia. f_equal. lia.
  - pose proof (all_from_intro _ _ _ years_ok Hy) as Hok. unfold year_ok in Hok.
    apply andb_prop in Hok as [_ Hok]. apply Z.eqb_eq in Hok. unfold year_end in Hok.
    change (1, 3, 1)%Z with (later 1 (place 0)).
    destruct (yoe <? 399)%Z eqn:E9; bool_facts.
    + transitivity (later (yoe + 1 + 400 * era) (place 0)).
      2: { destruct (place 0) as [[y m] d]. cbn. f_equal. f_equal. lia. }
      rewrite <- civil_place; [f_equal; lia|lia|].
      destruct (leap_day_cases (yoe + 1 + 1)); lia.
    + transitivity (later (0 + 400 * (era + 1)) (place 0)).
      2: { destruct (place 0) as [[y m] d]. cbn. f_equal. f_equal. lia. }
      rewrite <- civil_place; [f_equal; change (year_start 0) with 0%Z; lia|lia|].
      change (leap_day (0 + 1)) with 0%Z. lia.
Qed.

Lemma civil_counts n : civil_of_days (Z.of_nat n) = Nat.iter n next_day (1970, 1, 1)%Z.
Proof.
  induction n as [|n IH]; [done|]. rewrite Nat2Z.inj_succ, <- Z.add_1_r, civil_next, IH. done.
Qed.

(** ** Printing and parsing numbers *)

Definition digits_only (s : str) : bool := forallb is_ascii_digit s.
Definition pads (w : nat) (n : Z) : bool :=
  digits_only (pad w n) && bool_decide (parse_i64 (pad w n) = Some n)
  && (length (pad w n) =? w)%nat.
Lemma pads2 : all_from (pads 2) (Z.to_nat 100) 0 = true.
Proof. vm_compute. reflexivity. Qed.
Lemma pads3 : all_from (pads 3) (Z.to_nat 1000) 0 = true.
Proof. vm_compute. reflexivity. Qed.
Lemma pads4 : all_from (pads 4) (Z.to_nat 10000) 0 = true.
Proof. vm_compute. reflexivity. Qed.

Lemma pad_facts w n :
  pads w n = true →
  digits_only (pad w n) = true ∧ parse_i64 (pad w n) = Some n ∧ length (pad w n) = w.
Proof. unfold pads. intros Hp. by bool_facts. Qed.

Definition plain (c : ascii) : bool := in_range 33 126 (byte c).
Lemma plain_byte a :
  plain a = true →
  ws1 a = false ∧ (byte a =? 0xC2)%N = false ∧ (byte a =? 0xE1)%N = false
  ∧ (byte a =? 0xE2)%N = false ∧ (byte a =? 0xE3)%N = false.
Proof. destruct a as [[] [] [] [] [] [] [] []]; vm_compute; intros [=]; repeat split. Qed.
Lemma plain_no_ws s : forallb plain s = true → has_whitespace s = false.
Proof.
  induction s as [|a s IH]; [done|]. cbn [forallb]. intros [Ha Hs]%andb_prop.
  cbn [has_whitespace]. rewrite IH by done.
  destruct (plain_byte a Ha) as (H1 & H2 & H3 & H4 & H5).
  unfold ws_len, ws2, ws3. cbv zeta. rewrite H1, H2, H3, H4, H5.
  by destruct s as [|b [|c s]].
Qed.
Lemma digits_plain s : digits_only s = true → forallb plain s = true.
Proof.
  intros Hs. apply forallb_forall. intros c Hc. apply (proj1 (forallb_forall _ _) Hs) in Hc.
  revert Hc. by destruct c as [[] [] [] [] [] [] [] []].
Qed.

Lemma split_once_either_app a b x y :
  a ∉ x → b ∉ x → split_once_either a b (x ++ [a] ++ y) = Some (x, y).
Proof.
  cbn [app]. induction x as [|c x IH]; intros Ha Hb; cbn [split_once_either app].
  - by rewrite decide_True by auto.
  - rewrite decide_False by set_solver. by rewrite (IH ltac:(set_solver) ltac:(set_solver)).
Qed.

Lemma three_parts c x y z a b d :
  c ∉ x → c ∉ y → c ∉ z →
  parse_i64 x = Some a → parse_i64 y = Some b → parse_i64 z = Some d →
  three (split_on c (x ++ [c] ++ y ++ [c] ++ z)) = Some (a, b, d).
Proof.
  intros Hx Hy Hz Ha Hb Hd. rewrite !split_on_app, split_on_nosep by done.
  cbn [three]. by rewrite Ha, Hb, Hd.
Qed.

(** The years that print with four digits. *)
Definition MIN_MS : Z := -62167219200000.
Definition MAX_MS : Z := 253402300799999.

Lemma year_bounds y m d :
  in_date m d = true → (-719528 ≤ days_of_civil y m d ≤ 2932896)%Z → (0 ≤ y < 10000)%Z.
Proof.
  unfold in_date, days_of_civil. intros Hd Hb. bool_facts.
  destruct (m <=? 2)%Z eqn:E; bool_facts; Z.to_euclidean_division_equations; lia.
Qed.

Definition printed (w : nat) (n : Z) (s : str) : Prop :=
  digits_only s = true ∧ parse_i64 s = Some n ∧ length s = w.
Lemma printed2 n : (0 ≤ n < 100)%Z → printed 2 n (pad 2 n).
Proof. intros Hn. by apply pad_facts, (all_from_intro _ 100 _ pads2). Qed.
Lemma printed3 n : (0 ≤ n < 1000)%Z → printed 3 n (pad 3 n).
Proof. intros Hn. by apply pad_facts, (all_from_intro _ 1000 _ pads3). Qed.
Lemma printed4 n : (0 ≤ n < 10000)%Z → printed 4 n (pad 4 n).
Proof. intros Hn. by apply pad_facts, (all_from_intro _ 10000 _ pads4). Qed.

(** Three numbers between two separators. *)
Lemma three_printed c wx wy wz a b d x y z :
  is_ascii_digit c = false → printed wx a x → printed wy b y → printed wz d z →
  three (split_on c (x ++ [c] ++ y ++ [c] ++ z)) = Some (a, b, d).
Proof.
  intros Hc (Hx & ? & _) (Hy & ? & _) (Hz & ? & _).
  by apply three_parts; try done; apply digits_notin.
Qed.

(** The text of a time whose fields have the width they are padded to. *)
Lemma stamp_parses y m d hh mm ss ms sy sm sd sh smi ss' sms :
  printed 4 y sy → printed 2 m sm → printed 2 d sd → printed 2 hh sh → printed 2 mm smi →
  printed 2 ss ss' → printed 3 ms sms → in_date m d = true →
  (hh ≤ 23)%Z → (mm ≤ 59)%Z → (ss ≤ 60)%Z →
  parse_rfc3339 ((sy ++ §"-" ++ sm ++ §"-" ++ sd) ++ §"T"
    ++ ((sh ++ §":" ++ smi ++ §":" ++ ss') ++ §"." ++ sms) ++ §"Z")
  = Some (i64_wrap ((days_of_civil y m d * 86400 + hh * 3600 + mm * 60 + ss) * 1000 + ms - 0)).
Proof.
  intros Py Pm Pd Ph Pmi Ps Pms Hd Hh Hmi Hs. unfold parse_rfc3339.
  pose proof Py as (Dy & _). pose proof Pm as (Dm & _). pose proof Pd as (Dd & _).
  pose proof Ph as (Dh & _). pose proof Pmi as (Dmi & _). pose proof Ps as (Ds & _).
  pose proof Pms as (Dms & Qms & Lms).
  rewrite trim_none.
  2: { apply plain_no_ws. rewrite !forallb_app, ?Bool.andb_true_iff.
       repeat split; try reflexivity; by apply digits_plain. }
  change (§"T") with ["T"%char]. rewrite split_once_either_app.
  2,3: rewrite !not_elem_of_app; repeat split; try (by apply digits_notin); try (by apply (bool_decide_unpack _)).
  cbn [mbind option_bind].
  change (§"-") with ["-"%char]. rewrite (three_printed "-" 4 2 2 y m d) by done. cbn [mbind option_bind].
  rewrite Hd. cbn [negb].
  unfold split_offset, first_suffix. rewrite strip_suffix_app. cbn [mbind option_bind].
  change (§".") with ["."%char]. cbn [app]. rewrite split_once_app.
  2: { rewrite !not_elem_of_app. repeat split; try (by apply digits_notin); by apply (bool_decide_unpack _). }
  change (§":") with [":"%char]. rewrite (three_printed ":" 2 2 2 hh mm ss) by done. cbn [mbind option_bind].
  rewrite !(proj2 (Z.ltb_ge _ _)) by lia. cbn [orb].
  unfold digits_only in Dms. rewrite Dms. cbn [negb].
  unfold fraction_millis. rewrite take_app_le by lia. rewrite take_ge by lia.
  rewrite Qms. done.
Qed.

Lemma rfc3339_parses ms : (MIN_MS ≤ ms ≤ MAX_MS)%Z → parse_rfc3339 (rfc3339 ms) = Some ms.
Proof.
  unfold MIN_MS, MAX_MS. intros Hms. unfold rfc3339.
  set (secs := (ms / 1000)%Z). set (millis := (ms mod 1000)%Z).
  set (days := (secs / 86400)%Z). set (sod := (secs mod 86400)%Z).
  pose proof (civil_days days) as Hc. destruct (civil_of_days days) as [[y m] d].
  destruct Hc as [Hdays Hdate].
  assert (0 ≤ sod < 86400 ∧ 0 ≤ millis < 1000)%Z as [Hsod Hmillis].
  { unfold sod, millis. split; apply Z.mod_pos_bound; lia. }
  assert (ms = (days * 86400 + sod) * 1000 + millis)%Z as Hsum.
  { unfold days, sod, millis, secs. Z.to_euclidean_division_equations. lia. }
  assert (0 ≤ y < 10000)%Z as Hy.
  { apply (year_bounds y m d Hdate). rewrite Hdays. lia. }
  assert (0 ≤ m < 100 ∧ 0 ≤ d < 100)%Z as [Hm Hd] by (unfold in_date in Hdate; bool_facts; lia).
  clearbody sod millis days. clear secs.
  set (hh := (sod / 3600)%Z). set (mm := (sod mod 3600 / 60)%Z). set (ss := (sod mod 60)%Z).
  assert (0 ≤ hh < 24 ∧ 0 ≤ mm < 60 ∧ 0 ≤ ss < 60 ∧ sod = hh * 3600 + mm * 60 + ss)%Z
    as (Hhh & Hmm & Hss & Hparts).
  { unfold hh, mm, ss. Z.to_euclidean_division_equations. lia. }
  pose proof (stamp_parses y m d hh mm ss millis _ _ _ _ _ _ _
    (printed4 y Hy) (printed2 m Hm) (printed2 d Hd) (printed2 hh ltac:(lia))
    (printed2 mm ltac:(lia)) (printed2 ss ltac:(lia)) (printed3 millis Hmillis) Hdate
    ltac:(lia) ltac:(lia) ltac:(lia)) as Hp.
  rewrite <- !app_assoc in Hp. rewrite Hp. f_equal. rewrite Hdays.
  unfold i64_wrap. rewrite Z.mod_small by lia. lia.
Qed.

(** The timestamps of the A2A face.  Day [n] prints as the date that [n]
    steps of the Gregorian calendar lead to from 1970-01-01, and every
    millisecond of the years 0 to 9999 parses back from its RFC 3339 text to
    itself. *)
Theorem rfc3339_roundtrip n ms :
  (MIN_MS ≤ ms ≤ MAX_MS)%Z →
  civil_of_days (Z.of_nat n) = Nat.iter n next_day (1970, 1, 1)%Z
  ∧ parse_rfc3339 (rfc3339 ms) = Some ms.
Proof. intros Hms. split; [apply civil_counts|by apply rfc3339_parses]. Qed.

Lemma rfc3339_roundtrip_witness :
  rfc3339 1785542400007 = §"2026-08-01T00:00:00.007Z"
  ∧ civil_of_days 59 = (1970, 3, 1)%Z
  ∧ parse_rfc3339 (rfc3339 1785542400007) = Some 1785542400007%Z.
Proof.
  split; [vm_compute; reflexivity|]. split; [reflexivity|].
  apply (rfc3339_roundtrip 0 1785542400007). unfold MIN_MS, MAX_MS. lia.
Defined.

(** The parser takes dates no calendar has, negative times of day, and a year
    whose milliseconds do not fit 64 bits. *)
Lemma rfc3339_accepts_no_date :
  parse_rfc3339 §"2026-02-31T00:00:00Z" = parse_rfc3339 §"2026-03-03T00:00:00Z"
  ∧ parse_rfc3339 §"2026-02-31T00:00:00Z" ≠ None
  ∧ parse_rfc3339 §"2026-03-03T-5:00:00Z" = parse_rfc3339 §"2026-03-02T19:00:00Z".
Proof. by vm_compute. Qed.
Lemma rfc3339_year_wraps :
  ∃ ms, parse_rfc3339 §"300000000-01-01T00:00:00Z" = Some ms ∧ (ms < 0)%Z.
Proof. eexists. split; [vm_compute; reflexivity|lia]. Qed.
