(* ===== verification/A2aInput.v ===== *)
(** * A2aInput: what a client sends beside its text
    (the intake half of crates/triton-adapters-http/src/a2a_spec.rs)

    One message's parts become the text to dispatch, the A2UI events and the
    attached files, under limits that hold whatever the parts are.  Standard
    base64 is third-party code: [b64_decode] gives the bytes, if any. *)

From S2P Require Import Prelude Json Context Correlation A2ui Ge.

Definition MAX_A2UI_EVENTS : nat := 8.
Definition MAX_A2UI_EVENT_OBJECT_BYTES : nat := 8 * 1024.
Definition MAX_A2UI_ACTION_NAME_CHARS : nat := 64.
Definition MAX_CLIENT_FILES : nat := 10.
Definition MAX_CLIENT_FILE_BYTES : Z := 10 * 1024 * 1024.
Definition MAX_CLIENT_FILES_TOTAL_BYTES : Z := 25 * 1024 * 1024.
Definition MAX_FILE_LABEL_CHARS : nat := 255.
Definition EMPTY_MESSAGE_REPLY : str := §"Ask a question to get started.".

(** ** Characters *)

(** [chars()], each as its bytes. *)
Fixpoint chars (s : str) : list str :=
  match s with
  | [] => []
  | c :: r =>
      match chars r with
      | (d :: x) :: l => if is_continuation d then (c :: d :: x) :: l else [c] :: (d :: x) :: l
      | l => [c] :: l
      end
  end.

(** U+00AD, U+200B to U+200F, U+202A to U+202E, U+2060 to U+2064, U+2066 to
    U+2069, U+FEFF. *)
Definition is_format_char (c : str) : bool :=
  match byte <$> c with
  | [0xC2; 0xAD]%N => true
  | [0xE2; 0x80; z]%N => in_range 0x8B 0x8F z || in_range 0xAA 0xAE z
  | [0xE2; 0x81; z]%N => in_range 0xA0 0xA4 z || in_range 0xA6 0xA9 z
  | [0xEF; 0xBB; 0xBF]%N => true
  | _ => false
  end.

(** [filter] on characters, then [take]. *)
Definition keep_chars (keep : str → bool) (k : nat) (s : str) : str :=
  concat (take k (filter (λ c, keep c = true) (chars s))).

(** ** Files *)

Definition label_of (v : option Value) : option str :=
  match v ≫= as_str with
  | Some s =>
      let s := keep_chars (λ c, negb (has_control c) && negb (is_format_char c))
                 MAX_FILE_LABEL_CHARS s in
      if is_empty (trim s) then None else Some s
  | None => None
  end.

Definition put_opt (k : str) (o : option str) (m : JsonMap) : JsonMap :=
  match o with Some s => Map.insert k (js s) m | None => m end.

Definition file_entry (source : str) (name media_type : option Value) : JsonMap :=
  put_opt §"media_type" (label_of media_type)
    (put_opt §"name" (label_of name) (Map.insert §"source" (js source) [])).

Record FileIntake := { files : list Value; total : Z; overflow : nat }.
Definition empty_intake : FileIntake := {| files := []; total := 0; overflow := 0 |}.

Definition jz (z : Z) : Value := Value.Number (Value.Int z).

(** [json!(null)] for an absent value *)
Definition or_null (v : option Value) : Value := default Value.Null v.

Section Intake.
Variable b64_decode : str → option str.

Definition decode (b64 : str) (x : FileIntake) : result (Z * str) str * FileIntake :=
  let b64 := trim b64 in
  let room := Z.min MAX_CLIENT_FILE_BYTES (MAX_CLIENT_FILES_TOTAL_BYTES - total x) in
  if (room + 3 <? Z.of_nat (length b64) / 4 * 3)%Z then (Err §"too_large", x)
  else match b64_decode b64 with
       | None => (Err §"invalid", x)
       | Some bytes =>
           let size := Z.of_nat (length bytes) in
           if (room <? size)%Z then (Err §"too_large", x)
           else (Ok (size, b64),
                 {| files := files x; total := total x + size; overflow := overflow x |})
       end.

Definition push_file (v : Value) (x : FileIntake) : FileIntake :=
  {| files := files x ++ [v]; total := total x; overflow := overflow x |}.

Definition intake (source : str) (name media_type : option Value) (payload : result str str)
    (x : FileIntake) : option nat * FileIntake :=
  if (MAX_CLIENT_FILES <=? length (files x))%nat
  then (None, {| files := files x; total := total x; overflow := S (overflow x) |})
  else
    let entry := file_entry source name media_type in
    let '(r, x) := match payload with
                   | Ok b64 => decode b64 x
                   | Err e => (Err e, x)
                   end in
    let entry := match r with
                 | Ok (size, b64) =>
                     Map.insert §"bytes" (js b64) (Map.insert §"size" (jz size) entry)
                 | Err error => Map.insert §"error" (js error) entry
                 end in
    let x := push_file (Value.Object entry) x in
    (Some (length (files x) - 1), x).

Definition finish (x : FileIntake) : list Value :=
  if (0 <? overflow x)%nat
  then files x ++ [json_object [(§"error", js §"too_many"); (§"count", jn (overflow x))]]
  else files x.

(** What a file part carries: the file, its content, its link, its type and
    its name. *)
Definition file_fields (p : Value)
    : option (option Value * option Value * option Value * option Value * option Value) :=
  if decide (get_str §"kind" p = Some §"file") then
    let f := value_get §"file" p in
    let field k := f ≫= value_get k in
    Some (f, field §"bytes", field §"uri", field §"mimeType", field §"name")
  else if decide (value_get §"kind" p = None ∧ (value_get §"raw" p ≠ None ∨ value_get §"url" p ≠ None))
  then Some (Some p, value_get §"raw" p, value_get §"url" p, value_get §"mediaType" p,
             value_get §"filename" p)
  else None.

Definition file_part (p : Value) (x : FileIntake) : FileIntake :=
  match file_fields p with
  | None => x
  | Some (file, bytes, link, media_type, name) =>
      let payload := match file, bytes ≫= as_str with
                     | Some _, Some b64 => Ok b64
                     | Some _, None => if decide (link = None) then Err §"invalid" else Err §"link"
                     | None, _ => Err §"invalid"
                     end in
      (intake §"part" name media_type payload x).2
  end.

(** [trim_end_matches] of a text: as often as it is the end. *)
Fixpoint strip_all (fuel : nat) (p s : str) : str :=
  match fuel with
  | 0 => s
  | S k => match strip_suffix p s with Some t => strip_all k p t | None => s end
  end.
Definition trim_end_matches (p s : str) : str := strip_all (length s) p s.

(** The type and the content of a data URI. *)
Definition data_uri (inline : Value) : Value * result str str :=
  match (uri ← as_str inline; rest ← strip_prefix §"data:" uri; split_once "," rest) with
  | Some (head, data) =>
      if ends_with §";base64" head then (js (trim_end_matches §";base64" head), Ok data)
      else (Value.Null, Err §"invalid")
  | None => (Value.Null, Err §"invalid")
  end.

(** One picked file: its data moves to the intake, its place to the file. *)
Definition take_upload (f : JsonMap) (x : FileIntake) : JsonMap * FileIntake :=
  match Map.get §"inlineData" f with
  | None => (f, x)
  | Some inline =>
      let f := Map.remove §"inlineData" f in
      let '(uri_type, payload) := data_uri inline in
      let meta := Map.get §"metadata" f in
      let media_type :=
        match meta ≫= value_get §"mimeType" with
        | Some (Value.String s) => if is_empty s then uri_type else Value.String s
        | _ => uri_type
        end in
      let '(index, x) := intake §"file_upload" (meta ≫= value_get §"fileName") (Some media_type)
                           payload x in
      (match index with Some i => Map.insert §"file" (jn i) f | None => f end, x)
  end.

Fixpoint take_picked (picked : list Value) (x : FileIntake) : list Value * FileIntake :=
  match picked with
  | [] => ([], x)
  | v :: picked' =>
      let '(v', x) := match v with
                      | Value.Object f => let '(f', x) := take_upload f x in (Value.Object f', x)
                      | _ => (v, x)
                      end in
      let '(vs, x) := take_picked picked' x in
      (v' :: vs, x)
  end.

Definition take_uploads (ctx : Value) (x : FileIntake) : Value * FileIntake :=
  match ctx with
  | Value.Object m =>
      match Map.get §"files" m with
      | Some (Value.Array picked) =>
          let '(vs, x) := take_picked picked x in
          (Value.Object (Map.insert §"files" (Value.Array vs) m), x)
      | _ => (ctx, x)
      end
  | _ => (ctx, x)
  end.

Definition upload_link (f : Value) : Value :=
  json_object [(§"fileId", js (take_chars MAX_FILE_LABEL_CHARS (default [] (get_str §"fileId" f))));
               (§"file", or_null (value_get §"file" f))].
Definition upload_links (ctx : Value) : option Value :=
  fs ← value_get §"files" ctx;
  fs ← as_array fs;
  Some (json_object [(§"files", Value.Array (upload_link <$> take (MAX_CLIENT_FILES + 1) fs))]).

Context `{SerdeJson}.

Definition within_budget (v : Value) : bool :=
  (length (json_to_string v) <=? MAX_A2UI_EVENT_OBJECT_BYTES)%nat.

Definition string_field (k : str) (from : JsonMap) (m : JsonMap) : JsonMap :=
  match Map.get k from with
  | Some (Value.String s) => Map.insert k (Value.String s) m
  | _ => m
  end.

Definition action_fields (action : JsonMap) : JsonMap :=
  foldl (λ m k, string_field k action m) []
    [§"name"; §"surfaceId"; §"sourceComponentId"; §"timestamp"].

Definition projected_context (action projected : JsonMap) (x : FileIntake) : JsonMap * FileIntake :=
  match Map.get §"context" action with
  | None => (projected, x)
  | Some ctx =>
      let '(ctx, x) := take_uploads ctx x in
      (if within_budget ctx then Map.insert §"context" ctx projected
       else match upload_links ctx with
            | Some links => Map.insert §"context" links projected
            | None => projected
            end, x)
  end.

Definition action_text (projected : JsonMap) : str :=
  §"A2UI action: "
  ++ keep_chars (λ c, negb (has_control c)) MAX_A2UI_ACTION_NAME_CHARS
       (default §"action" (Map.get §"name" projected ≫= as_str)).

(** [get_or_insert_with] *)
Definition first_set (o : option str) (s : str) : option str :=
  match o with Some _ => o | None => Some s end.

(** The action of a client message, into the event. *)
Definition project_action (m : Value) (event : JsonMap) (x : FileIntake) (fb : option str)
    : JsonMap * FileIntake * option str :=
  match value_get §"action" m with
  | Some (Value.Object action) =>
      let '(projected, x) := projected_context action (action_fields action) x in
      (Map.insert §"action" (Value.Object projected) event, x,
       first_set fb (action_text projected))
  | _ => (event, x, fb)
  end.

Definition project_event (m : Value) (x : FileIntake) (fallback : option str)
    : Value * FileIntake * option str :=
  let event := match value_get §"version" m with
               | Some (Value.String s) => Map.insert §"version" (Value.String s) []
               | _ => []
               end in
  let '(event, x, fallback) := project_action m event x fallback in
  match value_get §"error" m with
  | Some (Value.Object e) =>
      if within_budget (Value.Object e)
      then (Value.Object (Map.insert §"error" (Value.Object e) event), x,
            first_set fallback §"A2UI error")
      else (Value.Object event, x, fallback)
  | _ => (Value.Object event, x, fallback)
  end.

(** ** The parts of a message *)

Record ClientInput := {
  events : list Value;
  ci_files : list Value;
  fallback : option str;
}.

Definition typed (p : Value) : bool :=
  let mime := match value_get §"metadata" p ≫= value_get §"mimeType" with
              | Some v => Some v
              | None => value_get §"mediaType" p
              end in
  bool_decide (mime ≫= as_str = Some MIME).

Definition is_data (p : Value) : bool :=
  match get_str §"kind" p with
  | Some kind => bool_decide (kind = §"data")
  | None => bool_decide (value_get §"data" p ≠ None)
  end.

Definition has_object (k : str) (m : Value) : bool :=
  match value_get k m with Some (Value.Object _) => true | _ => false end.
Definition is_event (m : Value) : bool := has_object §"action" m || has_object §"error" m.

Definition data_messages (p : Value) : list Value :=
  match value_get §"data" p with
  | Some (Value.Array a) => a
  | Some other => [other]
  | None => []
  end.

(** The loop over one part's messages: it ends at the limit. *)
Fixpoint take_events (ms evs : list Value) (x : FileIntake) (fb : option str)
    : list Value * FileIntake * option str :=
  match ms with
  | [] => (evs, x, fb)
  | m :: ms' =>
      if (length evs =? MAX_A2UI_EVENTS)%nat then (evs, x, fb)
      else
        let '(event, x, fb) := project_event m x fb in
        take_events ms' (evs ++ [event]) x fb
  end.

Fixpoint take_parts (parts : list Value) (a2ui : bool) (evs : list Value) (x : FileIntake)
    (fb : option str) : list Value * FileIntake * option str :=
  match parts with
  | [] => (evs, x, fb)
  | p :: parts' =>
      if is_data p && (a2ui || typed p) then
        let '(evs, x, fb) :=
          take_events (filter (λ m, is_event m = true) (data_messages p)) evs x fb in
        take_parts parts' a2ui evs x fb
      else take_parts parts' a2ui evs (file_part p x) fb
  end.

Definition files_text (fs : list Value) : str :=
  let names := omap (get_str §"name") fs in
  match length fs, names with
  | 1, [name] => §"Attached file: " ++ name
  | 1, _ => §"Attached file"
  | _, [] => §"Attached files"
  | _, names => §"Attached files: " ++ join §", " names
  end.

Definition client_input (parts : list Value) (a2ui : bool) : ClientInput :=
  let '(evs, x, fb) := take_parts parts a2ui [] empty_intake None in
  let fs := finish x in
  {| events := evs; ci_files := fs;
     fallback := match fb with
                 | Some _ => fb
                 | None => if is_empty fs then None else Some (files_text fs)
                 end |}.
End Intake.

(** ** The text to dispatch *)

Definition text_kind (p : Value) : bool :=
  bool_decide (default §"text" (get_str §"kind" p) = §"text").

Definition has_text_part (parts : list Value) : bool :=
  existsb (λ p, bool_decide (get_str §"text" p ≠ None) && text_kind p) parts.

Definition message_parts (params : Value) : list Value :=
  default [] (value_get §"message" params ≫= λ m, value_get §"parts" m ≫= as_array).

Definition wants_immediate_task (params : Value) : bool :=
  match value_get §"configuration" params with
  | None => false
  | Some cfg =>
      bool_decide (value_get §"blocking" cfg ≫= as_bool = Some false)
      || bool_decide (value_get §"returnImmediately" cfg ≫= as_bool = Some true)
  end.

Record Inbound := {
  in_text : str;
  in_open_doc : option OpenDocRef;
  missing : option str;
}.
Definition plain_text (t : str) : Inbound :=
  {| in_text := t; in_open_doc := None; missing := None |}.
Definition answered (t : str) : Inbound :=
  {| in_text := []; in_open_doc := None; missing := Some t |}.

(** [action_for] is [Ge.action_for_with] with the clock and key of the process. *)
Section Actions.
Variable action_for : str → Value → option GeAction.

Definition message_action (m : Value) : option GeAction :=
  action ← value_get §"action" m;
  let context := or_null (value_get §"context" action) in
  match (cid ← get_str §"sourceComponentId" action; action_for cid context) with
  | Some a => Some a
  | None =>
      q ← get_str §"question" context;
      if is_empty (trim q) then None else Some (GeMessage (trim q))
  end.

Fixpoint first_action (ms : list Value) : option GeAction :=
  match ms with
  | [] => None
  | m :: ms' => match message_action m with Some a => Some a | None => first_action ms' end
  end.

Definition a2ui_action (parts : list Value) : option GeAction :=
  first_action (concat (data_messages <$> filter (λ p, is_data p = true) parts)).

Definition action_inbound (a : GeAction) : Inbound :=
  match a with
  | GeMessage text => plain_text text
  | GeIncomplete names => answered (§"Choose " ++ join §", " names ++ §" first.")
  | GeOpenDoc label skill i url =>
      {| in_text := label;
         in_open_doc := Some {| od_label := label; od_skill := skill; od_id := i; od_url := url |};
         missing := None |}
  end.

Definition joined_text (parts : list Value) : str :=
  join nl (omap (get_str §"text") (filter (λ p, text_kind p = true) parts)).

Definition text_from_params (params : Value) (client : ClientInput) : option Inbound :=
  m ← value_get §"message" params;
  ps ← value_get §"parts" m;
  parts ← as_array ps;
  match a2ui_action parts with
  | Some a => Some (action_inbound a)
  | None =>
      let trimmed := trim (joined_text parts) in
      if is_empty trimmed then
        match fallback client with
        | Some t => Some (plain_text t)
        | None => if has_text_part parts then Some (answered EMPTY_MESSAGE_REPLY) else None
        end
      else Some (plain_text trimmed)
  end.
End Actions.

(** ** The redacted log line *)

Definition redact_upload (v : Value) : Value :=
  match v with
  | Value.Object f =>
      match Map.get §"inlineData" f with
      | Some inline =>
          let k := match as_str inline with Some s => length s | None => 0 end in
          Value.Object (Map.insert §"inlineData"
            (js (§"<data uri " ++ dec (Z.of_nat k) ++ §" chars>")) f)
      | None => v
      end
  | _ => v
  end.
Definition redact_uploads (ctx : Value) : Value :=
  match ctx with
  | Value.Object m =>
      match Map.get §"files" m with
      | Some (Value.Array fs) => Value.Object (Map.insert §"files" (Value.Array (redact_upload <$> fs)) m)
      | _ => ctx
      end
  | _ => ctx
  end.

Definition redact_component_id (c : str) : str :=
  match split_once "-" c with
  | Some (head, tok) => head ++ §"-<token " ++ dec (Z.of_nat (length tok)) ++ §" chars>"
  | None => §"<" ++ dec (Z.of_nat (length c)) ++ §" chars>"
  end.

Definition object_keys (v : Value) : list str :=
  match v with Value.Object m => Map.keys m | _ => [] end.

Definition describe_action (a : Value) : Value :=
  json_object [(§"name", or_null (value_get §"name" a));
               (§"surfaceId", or_null (value_get §"surfaceId" a));
               (§"sourceComponentId",
                or_null (js <$> (redact_component_id <$> get_str §"sourceComponentId" a)));
               (§"keys", jss (object_keys a));
               (§"context", or_null (redact_uploads <$> value_get §"context" a))].

(** The data of a data part, for the log. *)
Definition logged_data (p : Value) : option Value :=
  match get_str §"kind" p with
  | Some kind => if decide (kind = §"data") then value_get §"data" p else None
  | None => value_get §"data" p
  end.

Definition describe_part (p : Value) : Value * list Value :=
  match logged_data p with
  | Some data =>
      let msgs := match data with Value.Array a => a | obj => [obj] end in
      (js §"data", describe_action <$> omap (value_get §"action") msgs)
  | None =>
      let kind := get_str §"kind" p in
      if decide (kind = Some §"file" ∨ value_get §"raw" p ≠ None ∨ value_get §"url" p ≠ None)
      then (js §"file", [])
      else
        let k := match get_str §"text" p with Some t => length t | None => 0 end in
        (js (default §"text" kind ++ §"(" ++ dec (Z.of_nat k) ++ §")"), [])
  end.

Definition describe_a2ui_actions (parts : list Value) : Value :=
  let ds := describe_part <$> parts in
  json_object [(§"parts", Value.Array ds.*1); (§"actions", Value.Array (concat ds.*2))].

Definition debug_a2ui_actions (env_var : str → option str) : bool :=
  match env_var §"TRITON_DEBUG_A2UI_ACTIONS" with
  | Some v => bool_decide (trim v ∈ [§"1"; §"true"; §"on"])
  | None => false
  end.

(** * The limits *)

Definition entry_size (v : Value) : Z :=
  match value_get §"size" v with Some (Value.Number (Value.Int z)) => z | _ => 0%Z end.
Definition sizes (fs : list Value) : Z := foldr (λ v t, entry_size v + t)%Z 0%Z fs.

Lemma sizes_app a b : sizes (a ++ b) = (sizes a + sizes b)%Z.
Proof. unfold sizes. induction a as [|v a IH]; [done|]. cbn [app foldr]. rewrite IH. lia. Qed.

Section Limits.
Variable b64_decode : str → option str.

(** A file entry: of bounded size, and the size of what its content decodes
    to. *)
Definition entry_ok (v : Value) : Prop :=
  (0 ≤ entry_size v ≤ MAX_CLIENT_FILE_BYTES)%Z
  ∧ ∀ b, get_str §"bytes" v = Some b →
      ∃ x, b64_decode b = Some x ∧ entry_size v = Z.of_nat (length x).

Definition intake_ok (x : FileIntake) : Prop :=
  length (files x) ≤ MAX_CLIENT_FILES
  ∧ total x = sizes (files x)
  ∧ (0 ≤ total x ≤ MAX_CLIENT_FILES_TOTAL_BYTES)%Z
  ∧ Forall entry_ok (files x)
  ∧ (0 < overflow x → length (files x) = MAX_CLIENT_FILES).

Lemma get_put_opt k k' o m : k ≠ k' → Map.get k' (put_opt k o m) = Map.get k' m.
Proof. intros Hk. unfold put_opt. destruct o; [|done]. by rewrite Map.get_insert_ne. Qed.

Lemma file_entry_get k source name media :
  k ∉ [§"source"; §"name"; §"media_type"] → Map.get k (file_entry source name media) = None.
Proof.
  intros Hk. unfold file_entry. rewrite !get_put_opt by set_solver.
  rewrite Map.get_insert_ne by set_solver. done.
Qed.

Lemma decode_ok b64 x r x' :
  intake_ok x → decode b64_decode b64 x = (r, x') →
  files x' = files x ∧ overflow x' = overflow x
  ∧ match r with
    | Ok (size, b) =>
        (∃ bytes, b64_decode b = Some bytes ∧ size = Z.of_nat (length bytes))
        ∧ (0 ≤ size ≤ MAX_CLIENT_FILE_BYTES)%Z ∧ total x' = (total x + size)%Z
        ∧ (total x' ≤ MAX_CLIENT_FILES_TOTAL_BYTES)%Z
    | Err _ => total x' = total x
    end.
Proof.
  intros (_ & _ & Ht & _). unfold decode. cbv zeta.
  case_match; [by intros [= <- <-]|].
  destruct (b64_decode (trim b64)) as [bytes|] eqn:Eb; [|by intros [= <- <-]].
  case_match; [by intros [= <- <-]|]. intros [= <- <-]. cbn [files overflow total]. bool_facts.
  repeat split; [eauto|lia..].
Qed.

(** One more entry. *)
Lemma push_ok v x t :
  intake_ok x → length (files x) < MAX_CLIENT_FILES → entry_ok v →
  t = (total x + entry_size v)%Z → (t ≤ MAX_CLIENT_FILES_TOTAL_BYTES)%Z →
  intake_ok {| files := files x ++ [v]; total := t; overflow := overflow x |}.
Proof.
  intros (Hl & Ht & Hb & Hf & Ho) Hlt Hv -> Hmax. unfold intake_ok. cbn [files total overflow].
  rewrite length_app, sizes_app, Forall_app. cbn [length]. unfold sizes at 2. cbn [foldr].
  pose proof (proj1 Hv). split; [lia|]. split; [lia|]. split; [lia|].
  split; [split; [done|by constructor]|]. intros Hov. specialize (Ho Hov). lia.
Qed.

Lemma intake_keeps source name media payload x :
  intake_ok x → intake_ok (intake b64_decode source name media payload x).2.
Proof.
  intros Hx. unfold intake. case_match eqn:El; bool_facts.
  { destruct Hx as (Hl & Ht & Hb & Hf & Ho). split; [done|]. split; [done|]. split; [done|].
    split; [done|]. cbn [snd files overflow]. intros _. lia. }
  set (entry := file_entry source name media).
  assert (∀ k, k ∉ [§"source"; §"name"; §"media_type"] → Map.get k entry = None) as Hget
    by (intros; by apply file_entry_get).
  assert (∀ e, entry_size (Value.Object (Map.insert §"error" (js e) entry)) = 0%Z
    ∧ entry_ok (Value.Object (Map.insert §"error" (js e) entry))) as Herr.
  { intros e. assert (entry_size (Value.Object (Map.insert §"error" (js e) entry)) = 0%Z) as Hs.
    { unfold entry_size. cbn [value_get]. rewrite Map.get_insert_ne by done.
      by rewrite Hget by (by apply (bool_decide_unpack _)). }
    split; [done|]. split; [rewrite Hs; unfold MAX_CLIENT_FILE_BYTES; lia|].
    intros b. unfold get_str. cbn [value_get]. rewrite Map.get_insert_ne by done.
    by rewrite Hget by (by apply (bool_decide_unpack _)). }
  destruct payload as [b64|e].
  - destruct (decode b64_decode b64 x) as [r x'] eqn:Ed.
    destruct (decode_ok _ _ _ _ Hx Ed) as (Hf & Ho & Hr).
    cbn [snd]. unfold push_file. rewrite Hf, Ho. destruct r as [[size b]|e].
    + destruct Hr as ((bytes & Hb & Hsz) & Hs & Ht & Hmax).
      assert (entry_size (Value.Object (Map.insert §"bytes" (js b) (Map.insert §"size" (jz size) entry)))
        = size) as Hes.
      { unfold entry_size. cbn [value_get]. rewrite Map.get_insert_ne by done.
        by rewrite Map.get_insert_eq. }
      apply push_ok; [done|lia| |by rewrite Hes|lia].
      split; [by rewrite Hes|]. intros b'. unfold get_str. cbn [value_get].
      rewrite Map.get_insert_eq. cbn [mbind option_bind as_str js]. intros E.
      apply (inj Some) in E as <-. rewrite Hes. eauto.
    + destruct (Herr e) as [Hs Hok]. rewrite Hr. apply push_ok; [done|lia|done|rewrite Hs; lia|].
      destruct Hx as (_ & _ & ? & _). lia.
  - cbn [snd]. unfold push_file. destruct (Herr e) as [Hs Hok].
    apply push_ok; [done|lia|done|rewrite Hs; lia|]. destruct Hx as (_ & _ & ? & _). lia.
Qed.

Lemma file_part_keeps p x : intake_ok x → intake_ok (file_part b64_decode p x).
Proof.
  intros Hx. unfold file_part. destruct (file_fields p) as [[[[[]]]]|]; [|done].
  cbv zeta. by apply intake_keeps.
Qed.

Lemma take_upload_keeps f x : intake_ok x → intake_ok (take_upload b64_decode f x).2.
Proof.
  intros Hx. unfold take_upload. destruct (Map.get §"inlineData" f) as [inline|]; [|done]. cbv zeta.
  destruct (data_uri inline) as [ty payload].
  match goal with |- context [intake b64_decode ?a ?b ?c ?d x] =>
    pose proof (intake_keeps a b c d x Hx) as Hi; destruct (intake b64_decode a b c d x) end.
  exact Hi.
Qed.

Lemma take_picked_keeps picked x : intake_ok x → intake_ok (take_picked b64_decode picked x).2.
Proof.
  revert x. induction picked as [|v picked IH]; intros x Hx; cbn [take_picked]; [done|].
  set (r := match v with Value.Object f => _ | _ => _ end).
  assert (intake_ok r.2) as Hr.
  { unfold r. destruct v as [| | | | |f]; try done. pose proof (take_upload_keeps f x Hx).
    by destruct (take_upload b64_decode f x). }
  destruct r as [v' x']. specialize (IH x' Hr). by destruct (take_picked b64_decode picked x').
Qed.

Lemma take_uploads_keeps ctx x : intake_ok x → intake_ok (take_uploads b64_decode ctx x).2.
Proof.
  intros Hx. unfold take_uploads. destruct ctx as [| | | | |m]; try done.
  destruct (Map.get §"files" m) as [[]|]; try done. pose proof (take_picked_keeps l x Hx).
  by destruct (take_picked b64_decode l x).
Qed.

Context `{SerdeJson}.

Lemma project_action_keeps m event x fb :
  intake_ok x → intake_ok (project_action b64_decode m event x fb).1.2.
Proof.
  intros Hx. unfold project_action. destruct (value_get §"action" m) as [[]|]; try done.
  unfold projected_context. destruct (Map.get §"context" _) as [ctx|]; [|done].
  pose proof (take_uploads_keeps ctx x Hx). by destruct (take_uploads b64_decode ctx x).
Qed.

Lemma project_event_keeps m x fb :
  intake_ok x → intake_ok (project_event b64_decode m x fb).1.2.
Proof.
  intros Hx. unfold project_event. cbv zeta.
  set (event := match value_get §"version" m with Some (Value.String _) => _ | _ => _ end).
  pose proof (project_action_keeps m event x fb Hx) as Hr.
  destruct (project_action b64_decode m event x fb) as [[event' x'] fb'].
  destruct (value_get §"error" m) as [[]|]; try done. by case_match.
Qed.

Lemma take_events_keeps ms evs x fb :
  intake_ok x → length evs ≤ MAX_A2UI_EVENTS →
  let r := take_events b64_decode ms evs x fb in
  intake_ok r.1.2 ∧ length r.1.1 ≤ MAX_A2UI_EVENTS.
Proof.
  revert evs x fb. induction ms as [|m ms IH]; intros evs x fb Hx He; [done|].
  cbn [take_events]. case_match eqn:El; [done|]. bool_facts.
  pose proof (project_event_keeps m x fb Hx) as Hp.
  destruct (project_event b64_decode m x fb) as [[event x'] fb']. apply IH; [done|].
  rewrite length_app. cbn [length]. lia.
Qed.

Lemma take_parts_keeps parts a2ui evs x fb :
  intake_ok x → length evs ≤ MAX_A2UI_EVENTS →
  let r := take_parts b64_decode parts a2ui evs x fb in
  intake_ok r.1.2 ∧ length r.1.1 ≤ MAX_A2UI_EVENTS.
Proof.
  revert evs x fb. induction parts as [|p parts IH]; intros evs x fb Hx He; [done|].
  cbn [take_parts]. case_match; [|apply IH; [by apply file_part_keeps|done]].
  pose proof (take_events_keeps (filter (λ m, is_event m = true) (data_messages p)) evs x fb Hx He)
    as [Hi Hl].
  destruct (take_events b64_decode _ evs x fb) as [[evs' x'] fb']. by apply IH.
Qed.
End Limits.

(** One message cannot make the gateway hold or forward more than its
    limits, whatever its parts are and however many.  At most eight events go
    on; at most ten file entries and one marker that counts the rest; every
    entry with content carries base64 that decodes to exactly the size it
    states, at most 10 MiB, and all together at most 25 MiB. *)
Theorem client_input_bounded `{SerdeJson} b64_decode parts a2ui :
  let client := client_input b64_decode parts a2ui in
  length (events client) ≤ MAX_A2UI_EVENTS
  ∧ (sizes (ci_files client) ≤ MAX_CLIENT_FILES_TOTAL_BYTES)%Z
  ∧ ∃ entries marker,
      ci_files client = entries ++ marker ∧ length entries ≤ MAX_CLIENT_FILES
      ∧ Forall (entry_ok b64_decode) entries
      ∧ (marker = [] ∨ length entries = MAX_CLIENT_FILES ∧ ∃ k, 0 < k
           ∧ marker = [json_object [(§"error", js §"too_many"); (§"count", jn k)]]).
Proof.
  cbv zeta. unfold client_input.
  assert (intake_ok b64_decode empty_intake) as H0.
  { split; [cbn; lia|]. split; [done|]. split; [done|]. split; [constructor|cbn; lia]. }
  destruct (take_parts_keeps b64_decode parts a2ui [] empty_intake None H0 ltac:(cbn; lia)) as [Hx He].
  destruct (take_parts b64_decode parts a2ui [] empty_intake None) as [[evs x] fb].
  cbn [fst snd] in Hx, He. cbn [events ci_files]. destruct Hx as (Hl & Ht & Hb & Hf & Ho).
  split; [done|]. unfold finish. destruct (0 <? overflow x)%nat eqn:E; bool_facts.
  - split.
    { rewrite sizes_app, <- Ht. change (sizes [_]) with 0%Z. lia. }
    eexists _, _. repeat split; [done|done|]. right. eauto.
  - split; [rewrite <- Ht; lia|]. exists (files x), []. rewrite app_nil_r. auto.
Qed.

(** The budget of an event does not bound what is forwarded: a context over it
    is replaced by its file links, and the link of a file that was not uploaded
    inline is whatever the client wrote there. *)
Lemma over_budget_context_forwarded `{SerdeJson} b64_decode v :
  let context := json_object [(§"files", Value.Array [json_object [(§"file", v)]])] in
  let action := Map.insert §"context" context [] in
  within_budget context = false →
  projected_context b64_decode action [] empty_intake
  = ([(§"context", json_object [(§"files", Value.Array [
       json_object [(§"fileId", js []); (§"file", v)]])])], empty_intake).
Proof.
  cbv zeta. intros Hb. unfold projected_context.
  rewrite Map.get_insert_eq. set (ctx := json_object _) in *.
  assert (take_uploads b64_decode ctx empty_intake = (ctx, empty_intake)) as -> by reflexivity.
  rewrite Hb. reflexivity.
Qed.
