(* ===== verification/A2aTask.v ===== *)
(** * A2aTask: tasks on the A2A wire
    (crates/triton-adapters-http/src/a2a_v1.rs: versions, errors, rendering,
    listing and streams)

    One stored task in either protocol version, the pages of a listing, and the
    frames of a stream.  [build] is [Ge.build_messages] with the clock, the key
    and the random ids of the process. *)

From S2P Require Import Prelude Json Errors Principal Context Stream Tasks Correlation A2ui.
From S2P Require Import Ge ReplyText A2aTime A2aInput.

Definition V10 : str := §"1.0".
Definition ERROR_INFO : str := §"type.googleapis.com/google.rpc.ErrorInfo".
Definition A2A_DOMAIN : str := §"a2a-protocol.org".
Definition ID_MAX : nat := 200.
Definition CONTEXT_ID_MAX : nat := 128.
Definition PAGE_SIZE_DEFAULT : nat := 20.
Definition PAGE_SIZE_MAX : nat := 100.

(** ** Versions *)

Inductive Version := V03 | V1.
#[export] Instance Version_eq_dec : EqDecision Version.
Proof. solve_decision. Defined.

Definition version_suffix (rest : str) : bool :=
  is_empty rest
  || match strip_prefix §"." rest with
     | Some p => negb (is_empty p) && forallb is_ascii_digit p
     | None => false
     end.
Definition version_of (prefix : str) (v : Version) (s : str) : option Version :=
  rest ← strip_prefix prefix s;
  if version_suffix rest then Some v else None.

Definition parse_version (raw : str) : option Version :=
  let v := trim raw in
  if is_empty v then Some V03
  else match version_of §"0.3" V03 v with Some x => Some x | None => version_of V10 V1 v end.

(** The refused value, cleaned. *)
Definition shown_version (raw : str) : str := keep_chars (λ c, negb (has_control c)) 20 (trim raw).

(** [header] is the [A2A-Version] header as text, [query] the pairs of the
    query. *)
Definition requested_version (header : option str) (query : list (str * str))
    : result Version str :=
  let from_query := snd <$> head (filter (λ kv, eq_ignore_ascii_case kv.1 §"a2a-version" = true) query) in
  let raw := default [] (match header with Some h => Some h | None => from_query end) in
  match parse_version raw with Some v => Ok v | None => Err (shown_version raw) end.

(** ** Errors *)

Module A2aError.
Inductive t :=
  | Parse
  | MethodNotFound (m : str)
  | InvalidParams (m : str)
  | TaskNotFound
  | TaskNotCancelable
  | PushNotSupported
  | Unsupported (m : str)
  | ExtendedCardNotConfigured
  | VersionNotSupported (v : str)
  | Unauthenticated (m : str)
  | PermissionDenied (m : str)
  | Internal (m : str).
End A2aError.
Abbreviation A2aError := A2aError.t.

Definition error_code (e : A2aError) : Z :=
  match e with
  | A2aError.Parse => -32700
  | A2aError.Unauthenticated _ | A2aError.PermissionDenied _ => -32600
  | A2aError.MethodNotFound _ => -32601
  | A2aError.InvalidParams _ => -32602
  | A2aError.Internal _ => -32603
  | A2aError.TaskNotFound => -32001
  | A2aError.TaskNotCancelable => -32002
  | A2aError.PushNotSupported => -32003
  | A2aError.Unsupported _ => -32004
  | A2aError.ExtendedCardNotConfigured => -32007
  | A2aError.VersionNotSupported _ => -32009
  end.

Definition error_status (e : A2aError) : Z :=
  match e with
  | A2aError.TaskNotFound | A2aError.MethodNotFound _ => 404
  | A2aError.Unauthenticated _ => 401
  | A2aError.PermissionDenied _ => 403
  | A2aError.Internal _ => 500
  | _ => 400
  end.

Definition reason (e : A2aError) : option str :=
  match e with
  | A2aError.TaskNotFound => Some §"TASK_NOT_FOUND"
  | A2aError.TaskNotCancelable => Some §"TASK_NOT_CANCELABLE"
  | A2aError.PushNotSupported => Some §"PUSH_NOTIFICATION_NOT_SUPPORTED"
  | A2aError.Unsupported _ => Some §"UNSUPPORTED_OPERATION"
  | A2aError.ExtendedCardNotConfigured => Some §"EXTENDED_AGENT_CARD_NOT_CONFIGURED"
  | A2aError.VersionNotSupported _ => Some §"VERSION_NOT_SUPPORTED"
  | _ => None
  end.

Definition error_message (e : A2aError) : str :=
  match e with
  | A2aError.Parse => §"Invalid JSON payload"
  | A2aError.InvalidParams m | A2aError.Unsupported m | A2aError.Unauthenticated m
  | A2aError.PermissionDenied m | A2aError.Internal m | A2aError.MethodNotFound m => m
  | A2aError.TaskNotFound => §"The task does not exist or was not created by you"
  | A2aError.TaskNotCancelable =>
      §"Tasks of this agent cannot be canceled: the agent may have acted on the request already"
  | A2aError.PushNotSupported =>
      §"This agent does not send push notifications; poll the task or stream it"
  | A2aError.ExtendedCardNotConfigured =>
      §"This agent has no extended card; the public card is complete"
  | A2aError.VersionNotSupported v =>
      §"A2A protocol version " ++ (if is_empty v then §"(none)" else v)
      ++ §" is not supported; this agent speaks 1.0 over JSON-RPC and HTTP+JSON and 0.3 over JSON-RPC (A2A-Version: 1.0, or none for 0.3)"
  end.

Definition details_v10 (e : A2aError) : list Value :=
  match reason e with
  | None => []
  | Some reason =>
      let info := json_object [(§"@type", js ERROR_INFO); (§"reason", js reason);
                               (§"domain", js A2A_DOMAIN)] in
      [match e with
       | A2aError.VersionNotSupported v =>
           set_key §"metadata" (json_object [(§"requestedVersion", js v);
                                             (§"supportedVersions", js §"0.3,1.0")]) info
       | _ => info
       end]
  end.

Definition base_body (e : A2aError) : Value :=
  json_object [(§"code", jz (error_code e)); (§"message", js (error_message e))].

Definition body_v03 (e : A2aError) : Value :=
  match e with
  | A2aError.VersionNotSupported v =>
      set_key §"data" (json_object [(§"requestedVersion", js v);
                                    (§"supportedVersions", jss [§"0.3"; §"1.0"])]) (base_body e)
  | _ => base_body e
  end.

Definition body_v10 (e : A2aError) : Value :=
  match details_v10 e with
  | [] => base_body e
  | details => set_key §"data" (Value.Array details) (base_body e)
  end.

Definition transport_status (e : A2aError) : Z :=
  match e with
  | A2aError.Unauthenticated _ | A2aError.PermissionDenied _ => error_status e
  | _ => 200
  end.

Definition rest_status_name (status : Z) : str :=
  if decide (status = 404%Z) then §"NOT_FOUND"
  else if decide (status = 401%Z) then §"UNAUTHENTICATED"
  else if decide (status = 403%Z) then §"PERMISSION_DENIED"
  else if decide (status = 500%Z) then §"INTERNAL"
  else §"FAILED_PRECONDITION".

Definition rest_error_body (e : A2aError) : Value :=
  json_object [(§"error", json_object
    [(§"code", jz (error_status e)); (§"status", js (rest_status_name (error_status e)));
     (§"message", js (error_message e)); (§"details", Value.Array (details_v10 e))])].

Definition rpc_body (i : Value) (k : str) (v : Value) : Value :=
  json_object [(§"jsonrpc", js §"2.0"); (§"id", i); (k, v)].

(** ** Rendering a stored task *)

Definition state_v10 (s : TaskState) : str :=
  match s with
  | TaskState.Submitted => §"TASK_STATE_SUBMITTED"
  | TaskState.Working => §"TASK_STATE_WORKING"
  | TaskState.Completed => §"TASK_STATE_COMPLETED"
  | TaskState.Failed => §"TASK_STATE_FAILED"
  end.
Definition state_v03 (s : TaskState) : str :=
  match s with
  | TaskState.Submitted => §"submitted"
  | TaskState.Working => §"working"
  | TaskState.Completed => §"completed"
  | TaskState.Failed => §"failed"
  end.

Definition status_text (r : TaskRecord) : option str :=
  match t_state r with
  | TaskState.Failed => Some (failure_text r)
  | TaskState.Working | TaskState.Submitted =>
      match progress r with Some p => Some (p_text p) | None => receipt r end
  | TaskState.Completed => None
  end.

Definition message_id (task suffix : str) : str := task ++ §":" ++ suffix.
Definition agent_message_v10 (task ctx suffix text : str) : Value :=
  json_object [(§"messageId", js (message_id task suffix)); (§"contextId", js ctx);
               (§"taskId", js task); (§"role", js §"ROLE_AGENT");
               (§"parts", Value.Array [json_object [(§"text", js text)]])].
Definition text_part_v03 (t : str) : Value :=
  json_object [(§"kind", js §"text"); (§"text", js t)].
Definition agent_message_v03 (task ctx suffix text : str) : Value :=
  json_object [(§"kind", js §"message"); (§"messageId", js (message_id task suffix));
               (§"contextId", js ctx); (§"taskId", js task); (§"role", js §"agent");
               (§"parts", Value.Array [text_part_v03 text])].

Definition status_v10 (r : TaskRecord) : Value :=
  set_opt §"message" (agent_message_v10 (Tasks.id r) (context_id r) §"status") (status_text r)
    (json_object [(§"state", js (state_v10 (t_state r))); (§"timestamp", js (rfc3339 (updated_ms r)))]).
Definition status_v03 (r : TaskRecord) : Value :=
  set_opt §"message" (agent_message_v03 (Tasks.id r) (context_id r) §"status") (status_text r)
    (json_object [(§"state", js (state_v03 (t_state r))); (§"timestamp", js (rfc3339 (updated_ms r)))]).

(** A blocking call at its cap: the receipt is the status. *)
Definition handover (r : TaskRecord) : TaskRecord :=
  match receipt r with
  | Some receipt =>
      if state_is_terminal (t_state r) then r
      else set_progress {| p_text := receipt; p_step := progress r ≫= p_step;
                           p_percent := progress r ≫= p_percent |} r
  | None => r
  end.

Definition metadata (r : TaskRecord) : option Value :=
  if state_is_terminal (t_state r) then None
  else
    let l := opt §"step" js (progress r ≫= p_step)
             ++ opt §"percent" jz (progress r ≫= p_percent)
             ++ opt §"checkAfterSeconds" jz (check_after_seconds r) in
    if is_empty l then None else Some (json_object l).

Section Rendering.
Context `{SerdeJson}.
Variable build : Value → option (list Value).

Definition a2ui_messages (r : TaskRecord) (a2ui : bool) : option (list Value) :=
  if a2ui then t_result r ≫= build else None.

Definition artifact_id (r : TaskRecord) : str := Tasks.id r ++ §":answer".

Definition artifact_v10 (r : TaskRecord) (a2ui : bool) : option Value :=
  if decide (t_state r = TaskState.Completed) then
    let msgs := a2ui_messages r a2ui in
    let text := match msgs, t_result r with
                | Some _, Some res => ReplyText.text_part res true
                | _, _ => default [] (result_text r)
                end in
    let data := (λ m, json_object [(§"data", m); (§"mediaType", js MIME)]) <$> default [] msgs in
    Some (json_object [(§"artifactId", js (artifact_id r)); (§"name", js §"Answer");
                       (§"parts", Value.Array (json_object [(§"text", js text)] :: data))])
  else None.

Definition artifact_v03 (r : TaskRecord) : option Value :=
  if decide (t_state r = TaskState.Completed) then
    Some (json_object [(§"artifactId", js (artifact_id r)); (§"name", js §"Answer");
                       (§"parts", Value.Array [text_part_v03 (default [] (result_text r))])])
  else None.

Definition task_v10 (r : TaskRecord) (with_artifacts a2ui : bool) : Value :=
  let t := json_object [(§"id", js (Tasks.id r)); (§"contextId", js (context_id r));
                        (§"status", status_v10 r)] in
  let t := set_if with_artifacts §"artifacts" (Value.Array (option_list (artifact_v10 r a2ui))) t in
  set_opt §"metadata" (λ m, m) (metadata r) t.

Definition task_v03 (r : TaskRecord) : Value :=
  let t := json_object [(§"kind", js §"task"); (§"id", js (Tasks.id r));
                        (§"contextId", js (context_id r)); (§"status", status_v03 r)] in
  let t := set_opt §"artifacts" (λ a, Value.Array [a]) (artifact_v03 r) t in
  set_opt §"metadata" (λ m, m) (metadata r) t.

(** ** Streams *)

Inductive Framing :=
  | JsonRpc10 (i : Value)
  | JsonRpc03 (i : Value)
  | Rest.

Definition wrap (f : Framing) (v : Value) : Value :=
  match f with
  | JsonRpc10 i | JsonRpc03 i => rpc_body i §"result" v
  | Rest => v
  end.
Definition is_v03 (f : Framing) : bool := match f with JsonRpc03 _ => true | _ => false end.

Definition status_update (v03 : bool) (now : Z) (task ctx : str) (st : TaskState)
    (text : option str) (meta : option Value) : Value :=
  if v03 then
    let status := set_opt §"message" (agent_message_v03 task ctx §"status") text
      (json_object [(§"state", js (state_v03 st)); (§"timestamp", js (rfc3339 now))]) in
    set_opt §"metadata" (λ m, m) meta
      (json_object [(§"kind", js §"status-update"); (§"taskId", js task); (§"contextId", js ctx);
                    (§"status", status); (§"final", Value.Bool (state_is_terminal st))])
  else
    let status := set_opt §"message" (agent_message_v10 task ctx §"status") text
      (json_object [(§"state", js (state_v10 st)); (§"timestamp", js (rfc3339 now))]) in
    json_object [(§"statusUpdate", set_opt §"metadata" (λ m, m) meta
      (json_object [(§"taskId", js task); (§"contextId", js ctx); (§"status", status)]))].

Definition with_state (st : TaskState) (r : TaskRecord) : TaskRecord :=
  {| Tasks.id := Tasks.id r; context_id := context_id r; t_state := st; owner := owner r;
     t_tool := t_tool r; upstream_task_id := upstream_task_id r;
     check_after_seconds := check_after_seconds r; progress := progress r;
     receipt := receipt r; note := note r; result_text := result_text r;
     t_result := t_result r; error := error r; error_class := error_class r;
     t_protocol := t_protocol r; t_triton_meta := t_triton_meta r; delivery := delivery r;
     created_ms := created_ms r; updated_ms := updated_ms r |}.

Definition artifact_update (v03 : bool) (task ctx : str) (artifact : Value) : Value :=
  let l := [(§"taskId", js task); (§"contextId", js ctx); (§"artifact", artifact);
            (§"append", Value.Bool false); (§"lastChunk", Value.Bool true)] in
  if v03 then json_object ((§"kind", js §"artifact-update") :: l)
  else json_object [(§"artifactUpdate", json_object l)].

Definition progress_meta (p : Progress) : option Value :=
  let l := opt §"step" js (p_step p) ++ opt §"percent" jz (p_percent p) in
  if is_empty l then None else Some (json_object l).

Definition frames_for (f : Framing) (now : Z) (r : TaskRecord) (ev : TaskEvent) (a2ui : bool)
    : list Value :=
  let v03 := is_v03 f in
  let update := status_update v03 now (Tasks.id r) (context_id r) in
  match ev with
  | TaskEvent.Token _ => []
  | TaskEvent.Async _ check _ _ =>
      [update TaskState.Working None ((λ s, json_object [(§"checkAfterSeconds", jz s)]) <$> check)]
  | TaskEvent.Progress p => [update TaskState.Working (Some (p_text p)) (progress_meta p)]
  | TaskEvent.Done _ =>
      let done := with_state TaskState.Completed r in
      let a := if v03 then artifact_v03 done else artifact_v10 done a2ui in
      [artifact_update v03 (Tasks.id r) (context_id r) (default Value.Null a);
       update TaskState.Completed None None]
  | TaskEvent.Failed cls m => [update TaskState.Failed (Some (user_text cls m)) None]
  end.

(** What the subscriber of a task gets: each item with the clock and what the
    store has then; and how it ends: the limit, the client going away, or the
    channel closing with what the store has. *)
Record Arrival := { ar_item : Recv; ar_now : Z; ar_stored : option TaskRecord }.
Inductive StreamEnding :=
  | Stopped
  | Closed (now : Z) (stored : option TaskRecord).

Definition stored_terminal (r : TaskRecord) : TaskEvent :=
  match t_state r with
  | TaskState.Completed => TaskEvent.Done Value.Null
  | _ => TaskEvent.Failed (default §"tool" (error_class r)) (default [] (error r))
  end.

Fixpoint live_frames (f : Framing) (first : TaskRecord) (rx : list Arrival) (en : StreamEnding)
    (a2ui : bool) : list Value :=
  match rx with
  | [] =>
      match en with
      | Closed now (Some r) =>
          if state_is_terminal (t_state r) then frames_for f now r (stored_terminal r) a2ui else []
      | _ => []
      end
  | a :: rx' =>
      match ar_item a with
      | Lagged => live_frames f first rx' en a2ui
      | Got ev =>
          frames_for f (ar_now a) (default first (ar_stored a)) ev a2ui
          ++ (if event_is_terminal ev then [] else live_frames f first rx' en a2ui)
      end
  end.

Definition initial_frame (f : Framing) (r : TaskRecord) (a2ui : bool) : Value :=
  if is_v03 f then task_v03 r else json_object [(§"task", task_v10 r true a2ui)].

Definition task_stream (f : Framing) (first : TaskRecord) (subscribed : bool) (rx : list Arrival)
    (en : StreamEnding) (a2ui : bool) : list Value :=
  wrap f <$> initial_frame f first a2ui
    :: (if subscribed && negb (state_is_terminal (t_state first))
        then live_frames f first rx en a2ui else []).
End Rendering.

(** ** Listing *)

(** A member under its camel-case or snake-case name. *)
Definition field (v : Value) (camel snake : str) : option Value :=
  match value_get camel v with Some x => Some x | None => value_get snake v end.
Definition opt_str (v : Value) (camel snake : str) : option str :=
  s ← field v camel snake ≫= as_str;
  if is_empty (trim s) then None else Some (trim s).

Section Listing.
Context `{Crypto} `{SerdeJson}.
Variable build : Value → option (list Value).

(** Values of a query are texts, those of JSON-RPC are typed. *)
Definition loose (v : Value) (camel snake : str) : option str :=
  s ← match field v camel snake with
      | Some (Value.String s) => Some s
      | Some (Value.Number x) => Some (json_to_string (Value.Number x))
      | Some (Value.Bool b) => Some (if b then §"true" else §"false")
      | _ => None
      end;
  if is_empty s then None else Some s.

Definition encode_cursor (offset : Z) : str := b64url_encode (§"ListTasks:" ++ dec offset).
Definition decode_cursor (token : str) : option Z :=
  raw ← b64url_decode token;
  if valid_utf8 raw then rest ← strip_prefix §"ListTasks:" raw; parse_uint u64_max rest else None.

Definition TASK_STATES : list str :=
  [§"TASK_STATE_SUBMITTED"; §"TASK_STATE_WORKING"; §"TASK_STATE_COMPLETED"; §"TASK_STATE_FAILED";
   §"TASK_STATE_CANCELED"; §"TASK_STATE_INPUT_REQUIRED"; §"TASK_STATE_REJECTED";
   §"TASK_STATE_AUTH_REQUIRED"].

Record ListQuery := {
  lq_page_size : Z;
  lq_offset : Z;
  lq_status : option str;
  lq_artifacts : bool;
  lq_after : option Z;
  lq_context : option str;
}.

Definition bad {A} (m : str) : result A A2aError := Err (A2aError.InvalidParams m).

Definition parse_page_size (params : Value) : result Z A2aError :=
  match loose params §"pageSize" §"page_size" with
  | None => Ok (Z.of_nat PAGE_SIZE_DEFAULT)
  | Some s =>
      match parse_uint u64_max s with
      | Some k => if ((1 <=? k) && (k <=? Z.of_nat PAGE_SIZE_MAX))%Z then Ok k
                  else bad §"pageSize must be from 1 to 100"
      | None => bad §"pageSize must be from 1 to 100"
      end
  end.

Definition parse_list (params : Value) : result ListQuery A2aError :=
  page_size ←? parse_page_size params;
  offset ←? match loose params §"pageToken" §"page_token" with
            | None => Ok 0%Z
            | Some t => ok_or (decode_cursor t)
                          (A2aError.InvalidParams §"pageToken is not a token of ListTasks")
            end;
  let status := match loose params §"status" §"status" with
                | Some s => if decide (s = §"TASK_STATE_UNSPECIFIED" ∨ s = §"0") then None else Some s
                | None => None
                end in
  _ ←? match status with
       | Some s => if decide (s ∈ TASK_STATES) then Ok () else bad §"status is not a task state"
       | None => Ok ()
       end;
  artifacts ←? match loose params §"includeArtifacts" §"include_artifacts" with
               | None => Ok false
               | Some s => if decide (s = §"false") then Ok false
                           else if decide (s = §"true") then Ok true
                           else bad §"includeArtifacts must be true or false"
               end;
  after ←? match loose params §"statusTimestampAfter" §"status_timestamp_after" with
           | None => Ok None
           | Some raw => result_map Some (ok_or (parse_rfc3339 raw)
               (A2aError.InvalidParams §"statusTimestampAfter must be an RFC 3339 timestamp"))
           end;
  Ok {| lq_page_size := page_size; lq_offset := offset; lq_status := status;
        lq_artifacts := artifacts; lq_after := after;
        lq_context := loose params §"contextId" §"context_id" |}.

Definition listed (q : ListQuery) (r : TaskRecord) : bool :=
  bool_decide (t_protocol r = §"a2a")
  && match lq_status q with Some s => bool_decide (s = state_v10 (t_state r)) | None => true end
  && match lq_after q with Some a => (a <? updated_ms r)%Z | None => true end.

(** One page of the tasks that match: the 64-bit sum wraps. *)
Definition page_of (q : ListQuery) (all : list TaskRecord) : list TaskRecord :=
  take (Z.to_nat (lq_page_size q)) (drop (Z.to_nat (lq_offset q)) all).
Definition next_token (q : ListQuery) (all : list TaskRecord) : str :=
  let next := u64_wrap (lq_offset q + lq_page_size q) in
  if (next <? Z.of_nat (length all))%Z then encode_cursor next else [].

Definition list_page (q : ListQuery) (a2ui : bool) (all : list TaskRecord) : Value :=
  json_object [(§"tasks", Value.Array ((λ r, task_v10 build r (lq_artifacts q) a2ui) <$> page_of q all));
               (§"nextPageToken", js (next_token q all));
               (§"pageSize", jz (lq_page_size q));
               (§"totalSize", jz (Z.of_nat (length all)))].
End Listing.

(** * Streams end once *)

(** The object a frame carries. *)
Definition payload (v03 : bool) (v : Value) : Value :=
  if v03 then v
  else match v with Value.Object [(_, x)] => x | _ => Value.Null end.

(** The frame that closes the task. *)
Definition ends (v03 : bool) (v : Value) : bool :=
  if v03 then match value_get §"final" v with Some (Value.Bool b) => b | _ => false end
  else match (st ← value_get §"statusUpdate" v ≫= value_get §"status"; get_str §"state" st) with
       | Some s => bool_decide (s = state_v10 TaskState.Completed ∨ s = state_v10 TaskState.Failed)
       | None => false
       end.

(** The frame names its task and its context. *)
Definition belongs (v03 : bool) (task ctx : str) (v : Value) : Prop :=
  let p := payload v03 v in
  get_str §"contextId" p = Some ctx
  ∧ (get_str §"taskId" p = Some task ∨ get_str §"id" p = Some task).

Definition same_task (a b : TaskRecord) : Prop :=
  Tasks.id a = Tasks.id b ∧ context_id a = context_id b.

Lemma get_str_set_ne k k' x v : k ≠ k' → get_str k' (set_key k x v) = get_str k' v.
Proof.
  intros Hk. unfold get_str, set_key. destruct v; try done. cbn [value_get].
  by rewrite Map.get_insert_ne.
Qed.
Lemma get_str_set_opt {A} k k' (f : A → Value) o v :
  k ≠ k' → get_str k' (set_opt k f o v) = get_str k' v.
Proof. intros Hk. destruct o; [by apply get_str_set_ne|done]. Qed.
Lemma value_get_set_ne k k' x v : k ≠ k' → value_get k' (set_key k x v) = value_get k' v.
Proof.
  intros Hk. unfold set_key. destruct v; try done. cbn [value_get]. by rewrite Map.get_insert_ne.
Qed.

Lemma status_update_facts v03 now task ctx st text meta :
  belongs v03 task ctx (status_update v03 now task ctx st text meta)
  ∧ ends v03 (status_update v03 now task ctx st text meta) = state_is_terminal st.
Proof.
  destruct v03, text, meta, st; (split; [split; [reflexivity|left; reflexivity]|reflexivity]).
Qed.

Lemma artifact_update_facts v03 task ctx a :
  belongs v03 task ctx (artifact_update v03 task ctx a)
  ∧ ends v03 (artifact_update v03 task ctx a) = false.
Proof. destruct v03; (split; [split; [reflexivity|left; reflexivity]|reflexivity]). Qed.

Section StreamFacts.
Context `{SerdeJson}.
Variable build : Value → option (list Value).

Lemma frames_for_facts f now r ev a2ui :
  ∃ earlier last,
    frames_for build f now r ev a2ui = earlier ++ last
    ∧ Forall (belongs (is_v03 f) (Tasks.id r) (context_id r)) (earlier ++ last)
    ∧ Forall (λ v, ends (is_v03 f) v = false) earlier
    ∧ if event_is_terminal ev then ∃ v, last = [v] ∧ ends (is_v03 f) v = true else last = [].
Proof.
  pose proof (λ st text meta, status_update_facts (is_v03 f) now (Tasks.id r) (context_id r) st text meta)
    as Hs.
  unfold frames_for. cbv zeta. destruct ev as [t|up check rc nt|p|v|cls m]; cbn [event_is_terminal].
  - exists [], []. repeat split; constructor.
  - eexists [_], []. rewrite app_nil_r. repeat split; try (constructor; [apply Hs|constructor]).
  - eexists [_], []. rewrite app_nil_r. repeat split; try (constructor; [apply Hs|constructor]).
  - eexists [_], [_]. cbn [app]. split; [reflexivity|].
    destruct (artifact_update_facts (is_v03 f) (Tasks.id r) (context_id r)
      (default Value.Null (if is_v03 f then artifact_v03 (with_state TaskState.Completed r)
         else artifact_v10 build (with_state TaskState.Completed r) a2ui))) as [Hb He].
    split; [constructor; [exact Hb|constructor; [apply Hs|constructor]]|].
    split; [by constructor|]. eexists. split; [reflexivity|]. apply (Hs TaskState.Completed).
  - eexists [], [_]. cbn [app]. split; [reflexivity|].
    split; [constructor; [apply Hs|constructor]|]. split; [constructor|].
    eexists. split; [reflexivity|]. apply (Hs TaskState.Failed).
Qed.

(** Whether the subscriber learns how the task ended. *)
Fixpoint finished (rx : list Arrival) (en : StreamEnding) : bool :=
  match rx with
  | [] => match en with Closed _ (Some r) => state_is_terminal (t_state r) | _ => false end
  | a :: rx' =>
      match ar_item a with
      | Got ev => event_is_terminal ev || finished rx' en
      | Lagged => finished rx' en
      end
  end.

Definition stored_same (first : TaskRecord) (o : option TaskRecord) : Prop :=
  match o with Some r => same_task r first | None => True end.

Lemma stored_terminal_terminal r :
  state_is_terminal (t_state r) = true → event_is_terminal (stored_terminal r) = true.
Proof. unfold stored_terminal. by destruct (t_state r). Qed.

Lemma live_frames_facts f first rx en a2ui :
  Forall (λ a, stored_same first (ar_stored a)) rx →
  match en with Closed _ o => stored_same first o | Stopped => True end →
  ∃ earlier last,
    live_frames build f first rx en a2ui = earlier ++ last
    ∧ Forall (belongs (is_v03 f) (Tasks.id first) (context_id first)) (earlier ++ last)
    ∧ Forall (λ v, ends (is_v03 f) v = false) earlier
    ∧ if finished rx en then ∃ v, last = [v] ∧ ends (is_v03 f) v = true else last = [].
Proof.
  assert (∃ e l : list Value, [] = e ++ l ∧ Forall (belongs (is_v03 f) (Tasks.id first)
    (context_id first)) (e ++ l) ∧ Forall (λ v, ends (is_v03 f) v = false) e ∧ l = []) as Hnil
    by (exists [], []; repeat split; constructor).
  intros Hrx Hen. induction Hrx as [|a rx Ha Hrx IH]; cbn [live_frames finished].
  - destruct en as [|now [r|]]; [exact Hnil| |exact Hnil].
    destruct (state_is_terminal (t_state r)) eqn:Et; [|exact Hnil].
    pose proof (frames_for_facts f now r (stored_terminal r) a2ui) as Hf.
    rewrite (stored_terminal_terminal r Et) in Hf. destruct Hen as [<- <-]. exact Hf.
  - destruct (ar_item a) as [ev|]; [|exact IH].
    set (r := default first (ar_stored a)).
    assert (same_task r first) as [Hid Hctx].
    { unfold r, stored_same in *. by destruct (ar_stored a). }
    destruct (frames_for_facts f (ar_now a) r ev a2ui) as (e1 & l1 & E1 & B1 & N1 & T1).
    rewrite Hid, Hctx in B1. rewrite E1. destruct (event_is_terminal ev); cbn [orb].
    + exists e1, l1. rewrite app_nil_r. auto.
    + subst l1. rewrite app_nil_r in *. destruct IH as (e2 & l2 & E2 & B2 & N2 & T2).
      exists (e1 ++ e2), l2. rewrite E2, <- !app_assoc. split; [done|].
      rewrite !Forall_app in *. tauto.
Qed.

Lemma initial_frame_facts f r a2ui :
  belongs (is_v03 f) (Tasks.id r) (context_id r) (initial_frame build f r a2ui)
  ∧ ends (is_v03 f) (initial_frame build f r a2ui) = false.
Proof.
  unfold initial_frame. destruct (is_v03 f) eqn:E.
  - split.
    + unfold belongs, payload, task_v03. cbv zeta.
      rewrite !get_str_set_opt by done. split; [done|by right].
    + unfold ends, task_v03. cbv zeta.
      destruct (artifact_v03 r), (metadata r); cbn [set_opt]; rewrite ?value_get_set_ne by done; done.
  - split; [|done]. unfold belongs.
    change (payload false (json_object [(§"task", task_v10 build r true a2ui)]))
      with (task_v10 build r true a2ui).
    unfold task_v10, set_if. cbv zeta. cbn match.
    rewrite !get_str_set_opt by done. rewrite !get_str_set_ne by done.
    split; [done|by right].
Qed.
End StreamFacts.

(** C38: The event stream of an unfinished A2A task, followed live, in either
    version and binding.  Every frame names the task and its context, the first is the task as it stands,
    and a frame that closes the task is sent exactly when the subscriber gets
    to learn the outcome (the terminal event arrives, or the channel closes
    after the outcome was stored), once, as the last frame, however many events
    were lost on the way. *)
Theorem task_stream_closes_once `{SerdeJson} build f first rx en a2ui :
  state_is_terminal (t_state first) = false →
  Forall (λ a, stored_same first (ar_stored a)) rx →
  match en with Closed _ o => stored_same first o | Stopped => True end →
  ∃ frames earlier last,
    task_stream build f first true rx en a2ui = wrap f <$> frames
    ∧ head frames = Some (initial_frame build f first a2ui)
    ∧ Forall (belongs (is_v03 f) (Tasks.id first) (context_id first)) frames
    ∧ frames = earlier ++ [last]
    ∧ Forall (λ v, ends (is_v03 f) v = false) earlier
    ∧ ends (is_v03 f) last = finished rx en.
Proof.
  intros Hf Hrx Hen. destruct (live_frames_facts build f first rx en a2ui Hrx Hen)
    as (e & l & E & B & N & T). destruct (initial_frame_facts build f first a2ui) as [Bi Ei].
  unfold task_stream. rewrite Hf. cbn [andb negb]. rewrite E.
  exists (initial_frame build f first a2ui :: e ++ l).
  destruct (finished rx en).
  - destruct T as (v & -> & Hv). exists (initial_frame build f first a2ui :: e), v.
    repeat split; try done; by constructor.
  - subst l. rewrite app_nil_r in *. destruct (exists_last (l := initial_frame build f first a2ui :: e))
      as (earlier & last & El); [done|].
    exists earlier, last. repeat split; try done; [by constructor|..].
    + assert (Forall (λ v, ends (is_v03 f) v = false) (earlier ++ [last])) as Ha
        by (rewrite <- El; by constructor). by apply Forall_app in Ha as [].
    + assert (Forall (λ v, ends (is_v03 f) v = false) (earlier ++ [last])) as Ha
        by (rewrite <- El; by constructor). apply Forall_app in Ha as [_ Ha].
      by apply Forall_inv in Ha.
Qed.

Lemma task_stream_closes_once_witness :
  ∃ frames earlier last,
    task_stream (H := sample_json) (λ _, None) Rest (with_state TaskState.Working demo_task) true
      [{| ar_item := Got (TaskEvent.Token §"x"); ar_now := 1002; ar_stored := None |};
       {| ar_item := Lagged; ar_now := 1003; ar_stored := None |}]
      (Closed 1004 (Some (with_state TaskState.Failed demo_task))) false
    = wrap Rest <$> frames
    ∧ head frames = Some (initial_frame (H := sample_json) (λ _, None) Rest
        (with_state TaskState.Working demo_task) false)
    ∧ Forall (belongs false §"a" §"ctx") frames
    ∧ frames = earlier ++ [last]
    ∧ Forall (λ v, ends false v = false) earlier
    ∧ ends false last = true.
Proof.
  apply (task_stream_closes_once (H := sample_json) (λ _, None) Rest
    (with_state TaskState.Working demo_task)
    [{| ar_item := Got (TaskEvent.Token §"x"); ar_now := 1002; ar_stored := None |};
     {| ar_item := Lagged; ar_now := 1003; ar_stored := None |}]
    (Closed 1004 (Some (with_state TaskState.Failed demo_task))) false).
  - reflexivity.
  - repeat constructor.
  - repeat constructor.
Defined.

(** * Pages *)

Definition digit_step (n : Z) (c : ascii) : Z := (10 * n + (Z.of_N (byte c) - 48))%Z.

Lemma pretty_digit (x : N) : (x < 10)%N → (Z.of_N (byte (pretty_N_char x)) - 48 = Z.of_N x)%Z.
Proof.
  intros Hx. assert (x = 0 ∨ x = 1 ∨ x = 2 ∨ x = 3 ∨ x = 4 ∨ x = 5 ∨ x = 6 ∨ x = 7
                     ∨ x = 8 ∨ x = 9)%N as Hc by lia.
  by repeat destruct Hc as [->|Hc]; [..|subst x].
Qed.

Lemma pretty_N_go_value (x : N) (s : string) :
  fold_left digit_step (lit (pretty_N_go x s)) 0%Z = fold_left digit_step (lit s) (Z.of_N x).
Proof.
  revert s. induction (N.lt_wf_0 x) as [x _ IH]; intros s.
  destruct (decide (0 < x)%N) as [Hx|]; [|assert (x = 0)%N as -> by lia; by rewrite pretty_N_go_0].
  rewrite pretty_N_go_step by done. rewrite IH by (by apply N.div_lt).
  unfold lit. cbn [String.list_ascii_of_string fold_left]. f_equal. unfold digit_step.
  rewrite pretty_digit by (by apply N.mod_lt).
  rewrite N2Z.inj_div, N2Z.inj_mod. pose proof (Z.div_mod (Z.of_N x) 10). lia.
Qed.

Lemma parse_dec n : (Z.of_nat n ≤ u64_max)%Z → parse_uint u64_max (dec (Z.of_nat n)) = Some (Z.of_nat n).
Proof.
  intros Hn. unfold parse_uint.
  assert (strip_plus (dec (Z.of_nat n)) = None) as ->.
  { pose proof (dec_digits n) as Hd. destruct (dec (Z.of_nat n)) as [|c r]; [done|].
    cbn [forallb] in Hd. bool_facts. unfold strip_plus. destruct c as [[] [] [] [] [] [] [] []]; try done. }
  rewrite dec_nonempty, dec_digits. cbn [orb negb].
  assert (fold_left digit_step (dec (Z.of_nat n)) 0%Z = Z.of_nat n) as E.
  { destruct n as [|n]; [done|].
    change (dec (Z.of_nat (S n))) with (lit (pretty_N_go (N.pos (Pos.of_succ_nat n)) "")).
    rewrite pretty_N_go_value. cbn. lia. }
  unfold digit_step in E. rewrite E.
  by rewrite (proj2 (Z.leb_le _ _) Hn).
Qed.

Lemma digits_utf8 s : forallb is_ascii_digit s = true → valid_utf8 s = true.
Proof.
  induction s as [|c s IH]; [done|]. cbn [forallb valid_utf8]. intros Hs. bool_facts.
  assert ((byte c <? 128)%N = true) as -> by (by destruct c as [[] [] [] [] [] [] [] []]).
  auto.
Qed.

Section Pages.
Context `{CryptoLaws} `{SerdeJson}.
(** No bytes encode to no characters. *)
Hypothesis b64_nil : b64url_encode [] = [].

Lemma cursor_roundtrip n :
  (Z.of_nat n ≤ u64_max)%Z → decode_cursor (encode_cursor (Z.of_nat n)) = Some (Z.of_nat n).
Proof.
  intros Hn. unfold decode_cursor, encode_cursor. rewrite b64_roundtrip. cbn [mbind option_bind].
  rewrite valid_utf8_app; [|done|by apply digits_utf8, dec_digits].
  assert (strip_prefix §"ListTasks:" (§"ListTasks:" ++ dec (Z.of_nat n)) = Some (dec (Z.of_nat n)))
    as -> by done.
  by apply parse_dec.
Qed.

Lemma cursor_nonempty n : is_empty (encode_cursor n) = false.
Proof.
  unfold encode_cursor. destruct (b64url_encode (§"ListTasks:" ++ dec n)) eqn:E; [|done]. exfalso.
  rewrite <- b64_nil in E. apply (f_equal b64url_decode) in E. by rewrite !b64_roundtrip in E.
Qed.

(** A client that asks for pages of [k] tasks and follows the token of each
    page: the tasks it gets from a fixed list, [None] when a request fails or
    [fuel] pages do not get it to the end. *)
Definition page_request (k : nat) (token : option str) : Value :=
  json_object ((§"pageSize", js (dec (Z.of_nat k))) :: opt §"pageToken" js token).
Fixpoint walk (fuel k : nat) (token : option str) (all : list TaskRecord)
    : option (list TaskRecord) :=
  match fuel with
  | 0 => None
  | S fuel =>
      match parse_list (page_request k token) with
      | Err _ => None
      | Ok q => if is_empty (next_token q all) then Some (page_of q all)
                else app (page_of q all) <$> walk fuel k (Some (next_token q all)) all
      end
  end.

Definition page_query (k n : nat) : ListQuery :=
  {| lq_page_size := Z.of_nat k; lq_offset := Z.of_nat n; lq_status := None;
     lq_artifacts := false; lq_after := None; lq_context := None |}.

Lemma page_request_parses k n token :
  1 ≤ k ≤ 100 → (Z.of_nat n ≤ u64_max)%Z →
  token = None ∧ n = 0 ∨ token = Some (encode_cursor (Z.of_nat n)) →
  parse_list (page_request k token) = Ok (page_query k n).
Proof.
  intros Hk Hn Ht.
  assert (parse_page_size (page_request k token) = Ok (Z.of_nat k)) as Hp.
  { unfold parse_page_size, loose.
    assert (field (page_request k token) §"pageSize" §"page_size" = Some (js (dec (Z.of_nat k)))) as ->
      by (by destruct token).
    cbn [mbind option_bind js]. rewrite dec_nonempty, parse_dec by (unfold u64_max; lia).
    unfold PAGE_SIZE_MAX. rewrite !(proj2 (Z.leb_le _ _)) by lia. done. }
  unfold parse_list. rewrite Hp. cbn [result_bind].
  destruct Ht as [[-> ->]| ->]; [done|].
  unfold loose at 1.
  assert (field (page_request k (Some (encode_cursor (Z.of_nat n)))) §"pageToken" §"page_token"
          = Some (js (encode_cursor (Z.of_nat n)))) as -> by done.
  cbn [mbind option_bind js]. rewrite cursor_nonempty, cursor_roundtrip by done. done.
Qed.

Lemma walk_from k all fuel n token :
  1 ≤ k ≤ 100 → (Z.of_nat (length all) ≤ u64_max - 100)%Z →
  token = None ∧ n = 0 ∨ token = Some (encode_cursor (Z.of_nat n)) →
  n ≤ length all → length all - n < fuel →
  walk fuel k token all = Some (drop n all).
Proof.
  intros Hk Hl. revert n token. induction fuel as [|fuel IH]; intros n token Ht Hn Hf; [lia|].
  cbn [walk]. rewrite (page_request_parses k n) by (done || lia).
  unfold next_token, page_of, page_query. cbn [lq_offset lq_page_size]. rewrite !Nat2Z.id.
  assert (u64_wrap (Z.of_nat n + Z.of_nat k) = Z.of_nat (n + k)) as ->.
  { unfold u64_wrap, u64_max in *. rewrite Z.mod_small by lia. lia. }
  destruct (Z.ltb_spec (Z.of_nat (n + k)) (Z.of_nat (length all))).
  - rewrite cursor_nonempty, (IH (n + k)) by (auto; lia). cbn [fmap option_fmap option_map].
    by rewrite <- drop_drop, take_drop.
  - cbn [is_empty]. rewrite take_ge; [done|]. rewrite length_drop. lia.
Qed.
End Pages.

(** C39: Paging through a listing.  A client that asks for pages of [k] tasks,
    [k] from 1 to 100, and follows each [nextPageToken] until it is empty gets
    every task of the list exactly once and in order, after at most one request
    more than there are tasks; every token it is given decodes to the offset it
    was made from. *)
Theorem pages_visit_all `{CryptoLaws} `{SerdeJson} k all :
  b64url_encode [] = [] →
  1 ≤ k ≤ 100 → (Z.of_nat (length all) ≤ u64_max - 100)%Z →
  walk (S (length all)) k None all = Some all
  ∧ ∀ n, n ≤ length all → decode_cursor (encode_cursor (Z.of_nat n)) = Some (Z.of_nat n).
Proof.
  intros Hb Hk Hl. split.
  - rewrite (walk_from Hb k all _ 0) by (auto; lia). done.
  - intros n Hn. apply cursor_roundtrip. lia.
Qed.

#[local] Instance page_crypto : Crypto := {|
  hmac_sha256 k m := m;
  b64url_encode := hex_prefix;
  b64url_decode := hex_decode;
  body_to_string body := Err [];
  body_from_slice s := Err [];
|}.

#[local] Instance page_laws : @CryptoLaws page_crypto.
Proof. constructor; [apply (@b64_roundtrip _ demo_laws)|apply (@b64_no_dot _ demo_laws)]. Qed.

Definition five_tasks : list TaskRecord :=
  (λ n, TaskRecord_new (Z.of_nat n) (dec (Z.of_nat n)) §"ctx" §"tool" (Some §"me")) <$> seq 0 5.

Lemma pages_visit_all_witness :
  walk (H1 := sample_json) 6 2 None five_tasks = Some five_tasks
  ∧ ∀ n, n ≤ 5 → decode_cursor (encode_cursor (Z.of_nat n)) = Some (Z.of_nat n).
Proof.
  apply (pages_visit_all (H1 := sample_json) 2 five_tasks); [reflexivity|lia|].
  change (length five_tasks) with 5. unfold u64_max. lia.
Defined.

(** A token of the last offset: the page is empty, and the next token leads
    back to the start. *)
Lemma cursor_overflow_restarts :
  let q := {| lq_page_size := 20; lq_offset := u64_max; lq_status := None;
              lq_artifacts := false; lq_after := None; lq_context := None |} in
  decode_cursor (encode_cursor u64_max) = Some u64_max
  ∧ page_of q (five_tasks ++ five_tasks ++ five_tasks ++ five_tasks) = []
  ∧ next_token q (five_tasks ++ five_tasks ++ five_tasks ++ five_tasks) = encode_cursor 19.
Proof.
  split; [vm_compute; reflexivity|]. split; [|vm_compute; reflexivity].
  unfold page_of. cbn [lq_offset lq_page_size]. rewrite drop_ge; [done|].
  change (length _) with 20. unfold u64_max. lia.
Qed.
