(* ===== verification/A2aCard.v ===== *)
(** * A2aCard: agent cards and the routes of an A2A endpoint
    (crates/triton-adapters-http/src/a2a_spec.rs, a2a_v1.rs)

    What the public card of either version says, who may read it from a
    browser, and the paths that answer under the endpoint: those of the endpoint
    itself and those of each configured agent. *)

From S2P Require Import Prelude Json Errors A2ui Ge A2aInput A2aTask.

Record SpecA2aConfig := {
  sc_name : str;
  sc_description : str;
  sc_version : str;
  public_url : str;
  a2a_path : str;
  default_tool : str;
  sc_skills : option (list Value);
}.

Definition endpoint_url (c : SpecA2aConfig) : str :=
  let base := trim_end_char "/" (public_url c) in
  let path := trim_end_char "/" (trim_start_char "/" (a2a_path c)) in
  if is_empty path then base else base ++ §"/" ++ path.

(** [cs_tools] are the names of the dispatcher's descriptors. *)
Record CardState := {
  cs_config : SpecA2aConfig;
  cs_tools : list str;
  oidc_providers : list (str * str);
}.

Definition CARD_FILENAMES : list str :=
  [§"agent-card.json"; §"agent.json"; §"agentcard.json"; §"agentCard.json"; §"agent_card.json"].

(** ** Cards *)

Definition skills (s : CardState) : list Value :=
  match sc_skills (cs_config s) with
  | Some l => l
  | None =>
      if bool_decide (default_tool (cs_config s) ∈ cs_tools s) then
        (λ n, json_object [(§"id", js n); (§"name", js n);
                           (§"description", js (§"Triton tool `" ++ n ++ §"`"));
                           (§"tags", jss [§"triton"])]) <$> cs_tools s
      else [json_object [(§"id", js (default_tool (cs_config s))); (§"name", js (sc_name (cs_config s)));
                         (§"description", js (sc_description (cs_config s)));
                         (§"tags", jss [§"triton"])]]
  end.

(** [str::replace]: every occurrence, left to right. *)
Definition replace (p r s : str) : str := replace_all (length s) p r s.

Definition discovery_url (issuer : str) : str :=
  replace §"{tenantid}" §"organizations" (trim_end_char "/" issuer)
  ++ §"/.well-known/openid-configuration".

Definition bearer_description (s : CardState) : str :=
  join §"; or " ((λ p, §"issuer " ++ p.1 ++ §" / audience " ++ p.2) <$> oidc_providers s).

Definition a2ui_extension : Value :=
  json_object
    [(§"uri", js EXTENSION_URI); (§"description", js §"Ability to render A2UI v0.9");
     (§"required", Value.Bool false);
     (§"params", json_object [(§"supportedCatalogIds", jss [BASIC_CATALOG]);
                              (§"acceptsInlineCatalogs", Value.Bool false)])].

Definition oidc_description (p : str * str) : Value :=
  js (§"OpenID Connect discovery for " ++ p.1 ++ §" (audience " ++ p.2 ++ §")").

(** The entry [bearer], then one [oidc_<i>] for each provider. *)
Definition schemes (bearer : Value) (oidc : str * str → Value) (ps : list (str * str)) : Value :=
  json_object ((§"bearer", bearer)
    :: imap (λ i p, (§"oidc_" ++ dec (Z.of_nat i), oidc p)) ps).

Definition interface (url binding version : str) : Value :=
  json_object [(§"url", js url); (§"protocolBinding", js binding); (§"protocolVersion", js version)].

Definition card_v10 (s : CardState) : Value :=
  let cfg := cs_config s in
  let url := endpoint_url cfg in
  let card := json_object
    [(§"name", js (sc_name cfg)); (§"description", js (sc_description cfg));
     (§"version", js (sc_version cfg));
     (§"supportedInterfaces", Value.Array
        [interface url §"JSONRPC" V10; interface (url ++ §"/v1") §"HTTP+JSON" V10;
         interface url §"JSONRPC" §"0.3"]);
     (§"capabilities", json_object
        [(§"streaming", Value.Bool true); (§"pushNotifications", Value.Bool false);
         (§"extendedAgentCard", Value.Bool false); (§"extensions", Value.Array [a2ui_extension])]);
     (§"defaultInputModes", jss [§"text/plain"]);
     (§"defaultOutputModes", jss [§"text/plain"; §"application/json"]);
     (§"skills", Value.Array (skills s))] in
  if is_empty (oidc_providers s) then card
  else
    let card := set_key §"securitySchemes" (schemes
      (json_object [(§"httpAuthSecurityScheme", json_object
         [(§"scheme", js §"bearer"); (§"bearerFormat", js §"JWT");
          (§"description", js (bearer_description s))])])
      (λ p, json_object [(§"openIdConnectSecurityScheme", json_object
         [(§"description", oidc_description p); (§"openIdConnectUrl", js (discovery_url p.1))])])
      (oidc_providers s)) card in
    set_key §"securityRequirements" (Value.Array [json_object [(§"schemes", json_object
      [(§"bearer", json_object [(§"list", Value.Array [])])])]]) card.

Definition card_v03 (s : CardState) : Value :=
  let cfg := cs_config s in
  let card := json_object
    [(§"protocolVersion", js §"0.3.0"); (§"name", js (sc_name cfg));
     (§"description", js (sc_description cfg)); (§"url", js (endpoint_url cfg));
     (§"preferredTransport", js §"JSONRPC"); (§"version", js (sc_version cfg));
     (§"capabilities", json_object
        [(§"streaming", Value.Bool true); (§"pushNotifications", Value.Bool false);
         (§"extensions", Value.Array [a2ui_extension])]);
     (§"defaultInputModes", jss [§"text/plain"]); (§"defaultOutputModes", jss [§"text/plain"]);
     (§"skills", Value.Array (skills s))] in
  if is_empty (oidc_providers s) then card
  else
    let card := set_key §"securitySchemes" (schemes
      (json_object [(§"type", js §"http"); (§"scheme", js §"bearer"); (§"bearerFormat", js §"JWT");
                    (§"description", js (bearer_description s))])
      (λ p, json_object [(§"type", js §"openIdConnect"); (§"description", oidc_description p);
                         (§"openIdConnectUrl", js (discovery_url p.1))])
      (oidc_providers s)) card in
    set_key §"security" (Value.Array [json_object [(§"bearer", Value.Array [])]]) card.

(** The status, the [Cache-Control] of the answer, and its body. *)
Definition CardReply : Type := Z * option str * Value.
Definition CACHED : option str := Some §"public, max-age=300".

(** [query] is the decoded query. *)
Definition card_response (s : CardState) (query : list (str * str)) (dflt : Version) : CardReply :=
  let wanted := snd <$> head (filter (λ kv, kv.1 = §"version") query) in
  let version :=
    match trim <$> wanted with
    | None => Some dflt
    | Some raw => if is_empty raw then Some dflt else parse_version raw
    end in
  match version with
  | None => (400%Z, None, json_object [(§"error", js §"version_not_supported");
                                       (§"supported_versions", jss [§"0.3"; §"1.0"])])
  | Some V1 => (200%Z, CACHED, card_v10 s)
  | Some V03 => (200%Z, CACHED, card_v03 s)
  end.

(** The card of a file name. *)
Definition card_route (s : CardState) (name : str) (query : list (str * str)) : CardReply :=
  card_response s query (if decide (name = §"agent-card.json") then V1 else V03).

Definition plain_v03_card (s : CardState) : CardReply :=
  let card := card_v03 s in
  let card := set_key §"capabilities" (json_object
    [(§"streaming", Value.Bool false); (§"pushNotifications", Value.Bool false)]) card in
  let card := set_key §"defaultInputModes" (jss [§"text/plain"]) card in
  let card := set_key §"defaultOutputModes" (jss [§"text/plain"]) card in
  (200%Z, CACHED, card).

Definition V03_BASE : str := §"/v0.3".

(** The configuration of the card at the 0.3 base. *)
Definition v03_card_state (s : CardState) : CardState :=
  let c := cs_config s in
  {| cs_config := {| sc_name := sc_name c; sc_description := sc_description c;
                     sc_version := sc_version c; public_url := public_url c;
                     a2a_path := trim_end_char "/" (a2a_path c) ++ V03_BASE;
                     default_tool := default_tool c; sc_skills := sc_skills c |};
     cs_tools := cs_tools s; oidc_providers := oidc_providers s |}.

(** ** Cross-origin reads of the public cards *)

Record CorsRequest := {
  is_options : bool;
  request_headers : option str;
  request_private_network : option str;
}.
Inductive CorsReply :=
  | Preflight (headers : list (str * str))
  (** the answer of the route, with this header added *)
  | PassedThrough (header : str * str).

Definition public_card_cors (r : CorsRequest) : CorsReply :=
  if is_options r then
    Preflight
      ([(§"access-control-allow-origin", §"*"); (§"access-control-allow-methods", §"GET, OPTIONS");
        (§"access-control-allow-headers", default §"*" (request_headers r));
        (§"access-control-max-age", §"600"); (§"allow", §"GET, OPTIONS")]
       ++ match request_private_network r with
          | Some v => if eq_ignore_ascii_case v §"true"
                      then [(§"access-control-allow-private-network", §"true")] else []
          | None => []
          end)
  else PassedThrough (§"access-control-allow-origin", §"*").

(** ** Slugs *)

Definition RESERVED_SLUGS : list str := [§"message"; §"tasks"; §"well-known"].

Definition slug_byte (c : ascii) : bool :=
  in_range 97 122 (byte c) || is_ascii_digit c || (byte c =? 45)%N.

Definition validate_agent_slug (slug : str) : result unit str :=
  let bad why := Err (§"a2a agent slug `" ++ slug ++ §"` " ++ why) in
  if is_empty slug || (64 <? length slug)%nat then bad §"must be 1-64 characters"
  else if negb (forallb slug_byte slug) then bad §"may contain only [a-z0-9-]"
  else if starts_with §"-" slug || ends_with §"-" slug then bad §"must not start or end with `-`"
  else if decide (slug ∈ RESERVED_SLUGS) then bad §"is reserved"
  else Ok ().

(** ** Routes *)

Inductive Seg := Lit (s : str) | Param.
#[export] Instance Seg_eq_dec : EqDecision Seg.
Proof. solve_decision. Defined.

(** What answers a route, and whether the card CORS layer is around it. *)
Inductive Target := RpcRoute (only_v03 : bool) | RestRoute | CardRoute (cors : bool) | MessageSend.
Record Route := { path : list Seg; target : Target }.
#[export] Instance Target_eq_dec : EqDecision Target.
Proof. solve_decision. Defined.
#[export] Instance Route_eq_dec : EqDecision Route.
Proof. solve_decision. Defined.

Definition under (prefix : list Seg) (r : Route) : Route :=
  {| path := prefix ++ path r; target := target r |}.

(** A parameter takes one segment that is not empty. *)
Fixpoint path_matches (p : list Seg) (segments : list str) : bool :=
  match p, segments with
  | [], [] => true
  | Lit a :: p', b :: ss => bool_decide (a = b) && path_matches p' ss
  | Param :: p', b :: ss => negb (is_empty b) && path_matches p' ss
  | _, _ => false
  end.

Definition rest_router : list Route :=
  (λ p, {| path := Lit §"v1" :: p; target := RestRoute |}) <$>
  [[Lit §"message:send"]; [Lit §"message:stream"]; [Lit §"tasks"]; [Lit §"tasks"; Param];
   [Lit §"tasks"; Param; Lit §"pushNotificationConfigs"];
   [Lit §"tasks"; Param; Lit §"pushNotificationConfigs"; Param]; [Lit §"extendedAgentCard"]].

Definition card_routes (cors : bool) (prefix : list Seg) : list Route :=
  (λ name, {| path := prefix ++ [Lit §".well-known"; Lit name]; target := CardRoute cors |})
  <$> CARD_FILENAMES.

Definition card_router : list Route := card_routes true [].
Definition jsonrpc_router : list Route := [{| path := []; target := RpcRoute false |}].
Definition v03_router : list Route :=
  {| path := [Lit §"v0.3"]; target := RpcRoute true |} :: card_routes true [Lit §"v0.3"].
Definition spec_routes : list Route := jsonrpc_router ++ v03_router ++ rest_router ++ card_router.

(** [a2a::router] *)
Definition message_router : list Route := [{| path := [Lit §"message:send"]; target := MessageSend |}].

Definition agent_router (slug : str) : result (list Route) str :=
  _ ←? validate_agent_slug slug;
  Ok ({| path := [Lit slug]; target := RpcRoute false |}
      :: (under [Lit slug] <$> rest_router) ++ card_routes false [Lit slug]).

(** The routes under the endpoint's path: those of the endpoint, and those of
    each agent whose slug is taken. *)
Definition base_routes : list Route := message_router ++ spec_routes.
Definition agent_routes (slug : str) : list Route :=
  match agent_router slug with Ok l => l | Err _ => [] end.

(** * Routes do not shadow each other *)

Lemma valid_slug_bytes slug :
  validate_agent_slug slug = Ok () → slug ≠ [] ∧ forallb slug_byte slug = true.
Proof.
  unfold validate_agent_slug. cbv zeta.
  destruct (is_empty slug) eqn:E1; [done|]. destruct (64 <? length slug)%nat; [done|].
  cbn [orb]. destruct (forallb slug_byte slug); [|done]. intros _. split; [by intros ->|done].
Qed.

Lemma slug_lit slug x : forallb slug_byte slug = true → forallb slug_byte x = false → slug ≠ x.
Proof. congruence. Qed.

Lemma agent_routes_shape slug r :
  r ∈ agent_routes slug →
  validate_agent_slug slug = Ok ()
  ∧ ∃ rest, path r = Lit slug :: rest
      ∧ (rest = [] ∨ (∃ more, rest = Lit §"v1" :: more) ∨ ∃ name, rest = [Lit §".well-known"; Lit name]).
Proof.
  unfold agent_routes, agent_router. destruct (validate_agent_slug slug) as [[]|] eqn:Ev;
    cbn [result_bind]; [|by intros ?%not_elem_of_nil].
  intros Hr. split; [done|]. apply elem_of_cons in Hr as [->|Hr]; [eexists; split; [done|by left]|].
  apply elem_of_app in Hr as [Hr|Hr].
  - apply list_elem_of_fmap in Hr as (r0 & -> & Hr0). unfold rest_router in Hr0.
    apply list_elem_of_fmap in Hr0 as (p & -> & _). eexists. split; [done|]. right. left. by eexists.
  - unfold card_routes in Hr. apply list_elem_of_fmap in Hr as (name & -> & _).
    eexists. split; [done|]. right. right. by eexists.
Qed.

(** What follows the first segment of a route of the endpoint. *)
Definition base_shape (p : list Seg) : bool :=
  match p with
  | [] => true
  | Lit a :: rest =>
      negb (forallb slug_byte a)
      || (bool_decide (a = §"v1")
          && match rest with
             | Lit b :: _ => negb (bool_decide (b = §"v1")) && negb (bool_decide (b = §".well-known"))
             | _ => false
             end)
  | _ => false
  end.
Lemma base_routes_shape r : r ∈ base_routes → base_shape (path r) = true.
Proof.
  intros Hr. apply list_elem_of_In in Hr.
  exact (proj1 (forallb_forall (λ r, base_shape (path r)) base_routes) eq_refl r Hr).
Qed.

Lemma path_first a p ss : path_matches (Lit a :: p) ss = true → ∃ ss', ss = a :: ss' ∧ path_matches p ss' = true.
Proof. destruct ss as [|b ss]; [done|]. cbn [path_matches]. intros Hp. bool_facts. subst. eauto. Qed.

Lemma agent_path_not_base slug ss r r' :
  r ∈ agent_routes slug → r' ∈ base_routes →
  path_matches (path r) ss = true → path_matches (path r') ss = false.
Proof.
  intros Hr Hr' Hm. apply not_true_iff_false. intros Hm'.
  apply agent_routes_shape in Hr as (Hv & rest & Ep & Hrest). rewrite Ep in Hm.
  apply valid_slug_bytes in Hv as [_ Hb]. apply path_first in Hm as (ss' & -> & Hm).
  apply base_routes_shape in Hr'. destruct (path r') as [|[a|] p]; [done| |done].
  apply path_first in Hm' as (ss1 & [= <- <-] & Hm'). cbn [base_shape] in Hr'.
  rewrite Hb in Hr'. cbn [negb orb] in Hr'. apply andb_true_iff in Hr' as [_ Hr'].
  destruct p as [|[b|] p]; [done| |done]. apply path_first in Hm' as (ss2 & -> & _).
  destruct Hrest as [->|[[more ->]|[name ->]]]; [done|..];
    apply path_first in Hm as (ss3 & [= -> _] & _); done.
Qed.

(** Which handler answers a path under the A2A endpoint.  No path of a
    configured agent is a path of the endpoint itself (its JSON-RPC root, the
    0.3 base, the HTTP+JSON binding, the cards, the Triton-shaped route), for
    any slug that is taken, [v1] included; and no path belongs to two agents.
    So a request for an agent never reaches another face, and a slug can take
    no route over. *)
Theorem agent_routes_disjoint slug slug' segments r r' :
  r ∈ agent_routes slug → path_matches (path r) segments = true →
  (r' ∈ base_routes ∨ (r' ∈ agent_routes slug' ∧ slug ≠ slug')) →
  path_matches (path r') segments = false.
Proof.
  intros Hr Hm [Hb|[Ha Hne]]; [by eapply agent_path_not_base|].
  apply not_true_iff_false. intros Hm'.
  apply agent_routes_shape in Hr as (_ & p & Ep & _), Ha as (_ & p' & Ep' & _).
  rewrite Ep in Hm. rewrite Ep' in Hm'.
  apply path_first in Hm as (ss & -> & _), Hm' as (ss' & [= Es _] & _). done.
Qed.

Lemma agent_routes_disjoint_witness :
  path_matches [Lit §"v1"; Lit §"tasks"; Param] [§"v1"; §"v1"; §"tasks"] = false.
Proof.
  apply (agent_routes_disjoint §"v1" §"x" [§"v1"; §"v1"; §"tasks"]
    {| path := [Lit §"v1"; Lit §"v1"; Lit §"tasks"]; target := RestRoute |}
    {| path := [Lit §"v1"; Lit §"tasks"; Param]; target := RestRoute |}).
  - by apply (bool_decide_unpack _); vm_compute.
  - reflexivity.
  - left. by apply (bool_decide_unpack _); vm_compute.
Defined.

(** Not every route of the endpoint has a character a slug cannot have. *)
Lemma base_route_of_slug_characters :
  {| path := [Lit §"v1"; Lit §"tasks"]; target := RestRoute |} ∈ base_routes
  ∧ forallb slug_byte §"v1" = true ∧ forallb slug_byte §"tasks" = true
  ∧ validate_agent_slug §"v1" = Ok ().
Proof. split; [by apply (bool_decide_unpack _); vm_compute|by vm_compute]. Qed.

(** The cards of an agent are outside the layer that lets a browser read a
    card from another origin; those of the endpoint are inside it. *)
Lemma agent_cards_without_cors :
  {| path := [Lit §"sales"; Lit §".well-known"; Lit §"agent-card.json"]; target := CardRoute false |}
    ∈ agent_routes §"sales"
  ∧ Forall (λ r, target r ≠ CardRoute false) base_routes.
Proof.
  split; [by apply (bool_decide_unpack _); vm_compute|].
  repeat (constructor; [discriminate|]). constructor.
Qed.
