(* ===== verification/A2aTurn.v ===== *)
(** * A2aTurn: one turn of the A2A 0.3 face
    (crates/triton-adapters-http/src/a2a_spec.rs)

    The context a turn adds to its dispatch, the search for charts and
    documents in a report, the surface a source button opens, and the frames of
    [message/stream].  [negotiated] is [Ge.build_messages_negotiated] with the
    clock, the key and the random ids of the process. *)

From S2P Require Import Prelude Json Errors Principal Stream Context AuditLog Dispatcher Tasks.
From S2P Require Import A2ui Surface Ge ReplyText A2aTime A2aInput A2aTask A2aCard.

(** ** Extensions and context *)

Definition activates_a2ui (header : option str) : bool :=
  match header with
  | Some h => existsb (λ uri, bool_decide (trim uri = EXTENSION_URI)) (split_on "," h)
  | None => false
  end.

Definition a2a_meta (config : SpecA2aConfig) (ctx : str) (evs : list Value) : JsonMap :=
  let m := Map.insert §"protocol" (js §"a2a") [] in
  let m := Map.insert §"a2a_context_id" (js ctx) m in
  let m := match strip_prefix §"/a2a/" (a2a_path config) with
           | Some slug => Map.insert §"agent" (js slug) m
           | None => m
           end in
  if is_empty evs then m
  else Map.insert §"client" (json_object [(§"a2ui_events", Value.Array evs)]) m.

Definition turn_context (config : SpecA2aConfig) (surfaces : gmap str Value) (ctx : str)
    (a2ui : bool) (client : ClientInput) : ContextOverrides :=
  {| triton_meta := a2a_meta config ctx (A2aInput.events client);
     ov_surface := if a2ui
                   then Some (default (descriptor_value (from_profile A2A_A2UI None))
                                (surfaces !! A2A_A2UI_KEY))
                   else None;
     client_files := if is_empty (ci_files client) then None else Some (ci_files client) |}.

(** ** Deep searches *)

(** [iter().find_map(f)] *)
Definition find_map {A B} (f : A → option B) : list A → option B :=
  fix go l := match l with
              | [] => None
              | x :: l' => match f x with Some b => Some b | None => go l' end
              end.

Definition object_value (o : option Value) : option Value :=
  match o with Some (Value.Object m) => Some (Value.Object m) | _ => None end.

(** The chart an object itself names: a [vega] component, or the first object of
    [vega_specs]. *)
Definition own_spec (m : JsonMap) : option Value :=
  let v := Value.Object m in
  match (if bool_decide (get_str §"kind" v = Some §"vega")
         then object_value (Map.get §"spec" m) else None) with
  | Some spec => Some spec
  | None => l ← Map.get §"vega_specs" m ≫= as_array; find_map (λ x, object_value (Some x)) l
  end.

Section Vega.
Context `{SerdeJson}.

(** A value, with what to do at a text. *)
Fixpoint find_in (text : str → option Value) (v : Value) : option Value :=
  match v with
  | Value.Object m =>
      match own_spec m with
      | Some spec => Some spec
      | None => find_map (λ e, find_in text e.2) m
      end
  | Value.Array l => find_map (find_in text) l
  | Value.String s => text s
  | _ => None
  end.

Definition looks_json (s : str) : bool :=
  match trim_start s with
  | c :: _ => bool_decide (c = "{"%char) || bool_decide (c = "["%char)
  | [] => false
  end.

(** The longest text in a value bounds how often texts nest. *)
Fixpoint longest (v : Value) : nat :=
  match v with
  | Value.Object m => foldr (λ e n, Nat.max (longest e.2) n) 0 m
  | Value.Array l => foldr (λ x n, Nat.max (longest x) n) 0 l
  | Value.String s => length s
  | _ => 0
  end.

Fixpoint find_vega (fuel : nat) (v : Value) : option Value :=
  match fuel with
  | 0 => None
  | S fuel =>
      find_in (λ s, if looks_json s then json_from_str s ≫= find_vega fuel else None) v
  end.
Definition find_vega_spec (v : Value) : option Value := find_vega (S (longest v)) v.
End Vega.

Fixpoint find_document_structured (v : Value) : option Value :=
  match v with
  | Value.Object m =>
      if bool_decide (is_Some (Map.get §"instances" m)) || bool_decide (is_Some (Map.get §"document" m))
      then Some v else find_map (λ e, find_document_structured e.2) m
  | Value.Array l => find_map find_document_structured l
  | _ => None
  end.

(** ** Dispatches a reply makes *)

Section Turn.
Context {W : Type} `{SerdeJson}.
Variable debug_set : gset str → str.
Variable env_var : str → option str.
Variable d : Dispatcher W.
Variable c : Clock.

(** The first report without a chart of its own: its place, id and parameters. *)
Fixpoint report_target (i : nat) (cs : list Value) : option (nat * str * Value) :=
  match cs with
  | [] => None
  | x :: cs' =>
      let here :=
        if bool_decide (get_str §"kind" x ≠ Some §"report") || bool_decide (is_Some (value_get §"vega_spec" x))
        then None
        else rid ← get_str §"report_id" x;
             Some (i, rid, default (Value.Object [])
                             (value_get §"args" x ≫= value_get §"params")) in
      match here with Some t => Some t | None => report_target (S i) cs' end
  end.

Definition set_component (idx : nat) (spec : Value) (res : Value) : Value :=
  match value_get §"surface" res with
  | Some surface =>
      match value_get §"components" surface ≫= as_array with
      | Some cs =>
          match cs !! idx with
          | Some comp =>
              set_key §"surface" (set_key §"components"
                (Value.Array (<[idx := set_key §"vega_spec" spec comp]> cs)) surface) res
          | None => res
          end
      | None => res
      end
  | None => res
  end.

Definition inject_report_vega (res : Value) (p : Principal) (ov : ContextOverrides) (w : World W)
    : Value * World W :=
  let cs := value_get §"surface" res ≫= λ s, value_get §"components" s ≫= as_array in
  match cs ≫= report_target 0 with
  | None => (res, w)
  | Some (idx, rid, params) =>
      let args := json_object [(§"report_id", js rid); (§"params", params)] in
      let '(r, w) := invoke_with debug_set d c §"render_report" args p §"a2a" ov w in
      (match r with
       | Ok rep => match find_vega_spec (dr_result rep) with
                   | Some spec => set_component idx spec res
                   | None => res
                   end
       | Err _ => res
       end, w)
  end.

Definition doc_open_parts (uuid : str) (p : Principal) (doc : OpenDocRef) (ov : ContextOverrides)
    (w : World W) : list Value * World W :=
  let opening msgs :=
    text_part_v03 (§"Opening “" ++ od_label doc ++ §"”.") :: data_parts msgs in
  if doc_iframe_enabled env_var && negb (is_empty (od_url doc)) then
    (opening (build_document_canvas uuid (od_url doc) (od_label doc)), w)
  else if negb (is_empty (od_skill doc)) && negb (is_empty (od_id doc)) then
    let args := json_object
      [(§"report_id", js §"document");
       (§"params", json_object [(§"skill", js (od_skill doc)); (§"id", js (od_id doc))])] in
    let '(r, w) := invoke_with debug_set d c §"render_report" args p §"a2a" ov w in
    let structured := match r with
                      | Ok rep => default Value.Null (find_document_structured (dr_result rep))
                      | Err _ => Value.Null
                      end in
    (opening (build_document_material uuid structured (od_label doc)), w)
  else
    ([text_part_v03 (if is_empty (od_url doc) then §"This document is unavailable."
                     else §"Open the document: " ++ od_url doc)], w).

(** ** The frames of [message/stream] *)

Variable negotiated : Value → bool → option (list Value).

(** The ids of a stream: of the call, the task, its context, the two artifacts
    and the messages. *)
Record StreamIds := {
  si_rpc : Value;
  si_task : str;
  si_ctx : str;
  si_artifact : str;
  si_a2ui_artifact : str;
  si_message : nat → str;
}.

Variable si : StreamIds.
Variable p : Principal.
Variable ov : ContextOverrides.
Variable a2ui : bool.

Definition rpc_frame (v : Value) : Value := rpc_body (si_rpc si) §"result" v.

Definition first_frame : Value :=
  rpc_frame (json_object [(§"kind", js §"task"); (§"id", js (si_task si));
    (§"contextId", js (si_ctx si)); (§"status", json_object [(§"state", js §"working")])]).

(** An [artifact-update]. *)
Definition update_artifact (append last : bool) (artifact : str) (parts : list Value) : Value :=
  rpc_frame (json_object
    ([(§"kind", js §"artifact-update"); (§"taskId", js (si_task si)); (§"contextId", js (si_ctx si))]
     ++ (if append then [(§"append", Value.Bool true)] else [])
     ++ (if last then [(§"lastChunk", Value.Bool true)] else [])
     ++ [(§"artifact", json_object [(§"artifactId", js artifact); (§"parts", Value.Array parts)])])).

Definition agent_text (n : nat) (text : str) : Value :=
  json_object [(§"kind", js §"message"); (§"role", js §"agent"); (§"messageId", js (si_message si n));
               (§"parts", Value.Array [text_part_v03 text])].

Definition status_frame (state : str) (message : option Value) (meta : option Value) (final : bool)
    : Value :=
  rpc_frame (json_object
    ([(§"kind", js §"status-update"); (§"taskId", js (si_task si)); (§"contextId", js (si_ctx si));
      (§"status", json_object ((§"state", js state) :: opt §"message" (λ m, m) message));
      (§"final", Value.Bool final)] ++ opt §"metadata" (λ m, m) meta)).

(** The frames of the answer [v]. *)
Definition done_frames (did_stream : bool) (v : Value) : list Value :=
  let msgs := negotiated v a2ui in
  let reply := ReplyText.text_part v (bool_decide (is_Some msgs)) in
  (if did_stream then
     match sources_markdown v with
     | Some sources => [update_artifact true false (si_artifact si) [text_part_v03 (nl ++ nl ++ sources)]]
     | None => []
     end ++ [update_artifact true true (si_artifact si) [text_part_v03 []]]
   else [update_artifact false true (si_artifact si) [text_part_v03 reply]])
  ++ match msgs with
     | Some msgs => [update_artifact false true (si_a2ui_artifact si) (data_parts msgs)]
     | None => []
     end
  ++ [status_frame §"completed" None None true].

(** The reader: [n] counts messages, and the two flags say whether text was
    streamed and whether events were lost.  The list ends where the channel
    closes or the limit passes. *)
Fixpoint turn_frames (n : nat) (streamed lagged : bool) (rx : list Recv) (w : World W)
    : list Value * World W :=
  match rx with
  | [] => ([], w)
  | Lagged :: rx' => turn_frames n streamed true rx' w
  | Got ev :: rx' =>
      match ev with
      | TaskEvent.Async _ _ _ _ => turn_frames n streamed lagged rx' w
      | TaskEvent.Token t =>
          let '(fs, w) := turn_frames n true lagged rx' w in
          (update_artifact true false (si_artifact si) [text_part_v03 t] :: fs, w)
      | TaskEvent.Progress pr =>
          let '(fs, w) := turn_frames (S n) streamed lagged rx' w in
          (status_frame §"working" (Some (agent_text n (p_text pr)))
             ((λ s, json_object [(§"step", js s)]) <$> p_step pr) false :: fs, w)
      | TaskEvent.Done v =>
          let '(v, w) := inject_report_vega v p ov w in
          (done_frames (streamed && negb lagged) v, w)
      | TaskEvent.Failed cls m =>
          ([status_frame §"failed" (Some (agent_text n (user_text cls m))) None true], w)
      end
  end.

Definition stream_frames (rx : list Recv) (w : World W) : list Value * World W :=
  let '(fs, w) := turn_frames 0 false false rx w in (first_frame :: fs, w).

(** A source button: the task, the document as its artifact, the end. *)
Definition doc_frames (parts : list Value) : list Value :=
  [first_frame; update_artifact false true (si_artifact si) parts;
   status_frame §"completed" None None true].
End Turn.

(** Induction through arrays and objects. *)
Lemma Value_ind' (P : Value → Prop) :
  P Value.Null → (∀ b, P (Value.Bool b)) → (∀ n, P (Value.Number n)) → (∀ s, P (Value.String s)) →
  (∀ l, Forall P l → P (Value.Array l)) → (∀ m, Forall (λ e, P e.2) m → P (Value.Object m)) →
  ∀ v, P v.
Proof.
  intros Hn Hb Hz Hs Ha Ho. fix go 1. intros [|b|n|s|l|m].
  - exact Hn.
  - apply Hb.
  - apply Hz.
  - apply Hs.
  - apply Ha. induction l as [|x l IH]; constructor; [apply go|exact IH].
  - apply Ho. induction m as [|x m IH]; constructor; [apply go|exact IH].
Qed.

(** A text inside a JSON text is shorter than it, so the search has enough
    fuel: more gives the same answer. *)
Section VegaFuel.
Context `{SerdeJson}.
Hypothesis parsed_shorter : ∀ s x, json_from_str s = Some x → longest x < length s.

Lemma find_in_ext f g v :
  (∀ s, length s ≤ longest v → f s = g s) → find_in f v = find_in g v.
Proof.
  induction v as [| | |s|l IH|m IH] using Value_ind'; intros Hfg; try done.
  - apply Hfg. done.
  - cbn [find_in longest] in *. induction IH as [|x l Hx IH' IHl]; [done|]. cbn [find_map foldr] in *.
    rewrite (Hx ltac:(intros; apply Hfg; lia)), IHl by (intros; apply Hfg; lia). done.
  - cbn [find_in longest] in *. destruct (own_spec m); [done|].
    induction IH as [|x l Hx IH' IHl]; [done|]. cbn [find_map foldr] in *.
    rewrite (Hx ltac:(intros; apply Hfg; lia)), IHl by (intros; apply Hfg; lia). done.
Qed.

Lemma find_vega_enough n v : longest v < n → find_vega n v = find_vega_spec v.
Proof.
  unfold find_vega_spec. intros Hn. assert (longest v < S (longest v)) as Hm by lia.
  revert Hm. generalize (S (longest v)) as m. revert v Hn.
  induction n as [|n IH]; intros v Hn m Hm; [lia|]. destruct m as [|m]; [lia|].
  cbn [find_vega]. apply find_in_ext. intros s Hs. destruct (looks_json s); [|done].
  destruct (json_from_str s) as [x|] eqn:E; [|done]. cbn [mbind option_bind].
  apply parsed_shorter in E. apply IH; lia.
Qed.
End VegaFuel.

(** * What a client of [message/stream] ends up with *)

(** The client's copy of one artifact: a chunk that appends is added to the
    text, any other chunk replaces it. *)
Definition apply_frame (artifact : str) (acc : str) (frame : Value) : str :=
  let chunk :=
    r ← value_get §"result" frame;
    a ← value_get §"artifact" r;
    i ← get_str §"artifactId" a;
    ps ← value_get §"parts" a ≫= as_array;
    if decide (i = artifact)
    then Some (bool_decide (value_get §"append" r ≫= as_bool = Some true),
               concat (omap (get_str §"text") ps))
    else None in
  match chunk with
  | Some (true, t) => acc ++ t
  | Some (false, t) => t
  | None => acc
  end.
Definition client_text (artifact : str) (acc : str) (frames : list Value) : str :=
  fold_left (apply_frame artifact) frames acc.

Definition closes_stream (frame : Value) : bool :=
  bool_decide ((r ← value_get §"result" frame; f ← value_get §"final" r; as_bool f) = Some true).

(** The frame names the task and the context of the stream. *)
Definition names_task (si : StreamIds) (frame : Value) : Prop :=
  ∃ r, value_get §"result" frame = Some r ∧ value_get §"id" frame = Some (si_rpc si)
    ∧ get_str §"contextId" r = Some (si_ctx si)
    ∧ (get_str §"taskId" r = Some (si_task si) ∨ get_str §"id" r = Some (si_task si)).

Definition is_token (x : Recv) : bool := match x with Got (TaskEvent.Token _) => true | _ => false end.
Definition is_lag (x : Recv) : bool := match x with Lagged => true | _ => false end.
Definition token_text (x : Recv) : option str :=
  match x with Got (TaskEvent.Token t) => Some t | _ => None end.
Definition ends_task (x : Recv) : bool := match x with Got e => event_is_terminal e | Lagged => false end.

Section Frames.
Variable si : StreamIds.

Lemma update_fields append last artifact parts :
  ∃ r x, value_get §"result" (update_artifact si append last artifact parts) = Some r
    ∧ value_get §"artifact" r = Some x ∧ get_str §"artifactId" x = Some artifact
    ∧ value_get §"parts" x = Some (Value.Array parts)
    ∧ bool_decide (value_get §"append" r ≫= as_bool = Some true) = append.
Proof. destruct append, last; eexists _, _; repeat split. Qed.

Lemma apply_update a append last artifact parts acc :
  apply_frame a acc (update_artifact si append last artifact parts)
  = if decide (artifact = a) then
      (if append then acc ++ concat (omap (get_str §"text") parts)
       else concat (omap (get_str §"text") parts))
    else acc.
Proof.
  destruct (update_fields append last artifact parts) as (r & x & Er & Ex & Ei & Ep & Ea).
  unfold apply_frame. rewrite Er. cbn [mbind option_bind]. rewrite Ex. cbn [mbind option_bind].
  rewrite Ei. cbn [mbind option_bind]. rewrite Ep. cbn [mbind option_bind as_array].
  rewrite Ea. by destruct (decide (artifact = a)), append.
Qed.
Lemma frame_text a append last artifact t acc :
  apply_frame a acc (update_artifact si append last artifact [text_part_v03 t])
  = if decide (artifact = a) then (if append then acc ++ t else t) else acc.
Proof.
  rewrite apply_update. change (concat (omap (get_str §"text") [text_part_v03 t])) with (t ++ []).
  by rewrite app_nil_r.
Qed.
Lemma frame_other a append last artifact parts acc :
  artifact ≠ a → apply_frame a acc (update_artifact si append last artifact parts) = acc.
Proof. intros Hne. by rewrite apply_update, decide_False. Qed.
Lemma frame_status a state m meta final acc :
  apply_frame a acc (status_frame si state m meta final) = acc.
Proof. by destruct m, meta. Qed.

Lemma update_facts append last artifact parts :
  names_task si (update_artifact si append last artifact parts)
  ∧ closes_stream (update_artifact si append last artifact parts) = false.
Proof. destruct append, last; (split; [eexists; repeat split; left; reflexivity|reflexivity]). Qed.
Lemma status_facts state m meta final :
  names_task si (status_frame si state m meta final)
  ∧ closes_stream (status_frame si state m meta final) = final.
Proof.
  destruct m, meta, final; (split; [eexists; repeat split; left; reflexivity|reflexivity]).
Qed.
Lemma first_facts : names_task si (first_frame si) ∧ closes_stream (first_frame si) = false.
Proof. split; [eexists; repeat split; right; reflexivity|reflexivity]. Qed.
End Frames.

Section Prose.
Context {W : Type} `{SerdeJson}.
Variable debug_set : gset str → str.
Variable d : Dispatcher W.
Variable c : Clock.
Variable negotiated : Value → bool → option (list Value).
Variable si : StreamIds.
Variable p : Principal.
Variable ov : ContextOverrides.
Variable a2ui : bool.
Abbreviation frames := (turn_frames debug_set d c negotiated si p ov a2ui).
Abbreviation injected := (inject_report_vega debug_set d c).

(** The prose a client should have: what was streamed with the sources after
    it, or the whole reply. *)
Definition prose (streamed : bool) (text : str) (v : Value) : str :=
  if streamed then
    text ++ match sources_markdown v with Some s => nl ++ nl ++ s | None => [] end
  else ReplyText.text_part v (bool_decide (is_Some (negotiated v a2ui))).

Lemma done_frames_text b acc v :
  si_artifact si ≠ si_a2ui_artifact si →
  client_text (si_artifact si) acc (done_frames negotiated si a2ui b v) = prose b acc v.
Proof.
  intros Hne. unfold done_frames, client_text, prose. cbv zeta.
  rewrite !fold_left_app. cbn [fold_left]. rewrite frame_status.
  assert (∀ acc', fold_left (apply_frame (si_artifact si))
    (match negotiated v a2ui with
     | Some msgs => [update_artifact si false true (si_a2ui_artifact si) (data_parts msgs)]
     | None => [] end) acc' = acc') as ->.
  { intros acc'. destruct (negotiated v a2ui); [|done]. cbn [fold_left]. by rewrite frame_other. }
  destruct b.
  - rewrite fold_left_app. destruct (sources_markdown v); cbn [fold_left];
      rewrite !frame_text, !decide_True by done; by rewrite ?app_nil_r.
  - cbn [fold_left]. by rewrite frame_text, decide_True.
Qed.

Lemma done_frames_facts b v :
  ∃ earlier last, done_frames negotiated si a2ui b v = earlier ++ [last]
    ∧ Forall (names_task si) (earlier ++ [last])
    ∧ Forall (λ f, closes_stream f = false) earlier ∧ closes_stream last = true.
Proof.
  unfold done_frames. cbv zeta. rewrite app_assoc.
  eexists _, _. split; [reflexivity|].
  pose proof (λ a l i ps, proj1 (update_facts si a l i ps)) as Hn.
  pose proof (λ a l i ps, proj2 (update_facts si a l i ps)) as Hc.
  destruct (status_facts si §"completed" None None true) as [Hs Hf].
  rewrite !Forall_app. repeat split; try exact Hf.
  - destruct b, (sources_markdown v); repeat constructor; apply Hn.
  - destruct (negotiated v a2ui); repeat constructor; apply Hn.
  - by repeat constructor.
  - destruct b, (sources_markdown v); repeat constructor; apply Hc.
  - destruct (negotiated v a2ui); repeat constructor; apply Hc.
Qed.
Lemma turn_frames_text v w pre n streamed lagged acc :
  si_artifact si ≠ si_a2ui_artifact si →
  Forall (λ x, ends_task x = false) pre →
  let r := frames n streamed lagged (pre ++ [Got (TaskEvent.Done v)]) w in
  r.2 = (injected v p ov w).2
  ∧ client_text (si_artifact si) acc r.1
    = prose ((streamed || existsb is_token pre) && negb (lagged || existsb is_lag pre))
        (acc ++ concat (omap token_text pre)) (injected v p ov w).1.
Proof.
  intros Hne Hq. revert n streamed lagged acc. cbv zeta.
  induction Hq as [|x pre Hx Hq IH]; intros n streamed lagged acc.
  - cbn [app turn_frames]. destruct (injected v p ov w) as [v' w']. cbn.
    rewrite !orb_false_r, app_nil_r. split; [done|by apply done_frames_text].
  - destruct x as [[t|up ck rc nt|pr|v0|cls m]|]; try done; cbn [app turn_frames existsb is_token is_lag].
    + specialize (IH n true lagged (acc ++ t)).
      destruct (frames n true lagged (pre ++ [Got (TaskEvent.Done v)]) w) as [fs w'].
      destruct IH as [IHw IHt]. split; [exact IHw|].
      cbn [fst client_text fold_left omap list_omap token_text] in *.
      rewrite frame_text, decide_True by done.
      unfold client_text in IHt. rewrite IHt.
      rewrite !orb_true_r, <- app_assoc. cbn [orb]. done.
    + apply IH.
    + specialize (IH (S n) streamed lagged acc).
      destruct (frames (S n) streamed lagged (pre ++ [Got (TaskEvent.Done v)]) w) as [fs w'].
      destruct IH as [IHw IHt]. split; [exact IHw|].
      cbn [fst client_text fold_left] in *. rewrite frame_status. exact IHt.
    + rewrite orb_true_r. apply (IH n streamed true acc).
Qed.

Lemma turn_frames_facts w rx n streamed lagged :
  ∃ earlier last, (frames n streamed lagged rx w).1 = earlier ++ last
    ∧ Forall (names_task si) (earlier ++ last)
    ∧ Forall (λ f, closes_stream f = false) earlier
    ∧ if existsb ends_task rx then ∃ f, last = [f] ∧ closes_stream f = true else last = [].
Proof.
  revert n streamed lagged. induction rx as [|x rx IH]; intros n streamed lagged.
  { exists [], []. repeat split; constructor. }
  destruct x as [[t|up ck rc nt|pr|v0|cls m]|]; cbn [turn_frames existsb ends_task event_is_terminal orb];
    try apply IH.
  - destruct (IH n true lagged) as (e & l & E & B & N & T).
    destruct (frames n true lagged rx w) as [fs w']. cbn [fst] in *. subst fs.
    exists (update_artifact si true false (si_artifact si) [text_part_v03 t] :: e), l.
    split; [done|]. cbn [app]. repeat split; try (constructor; [apply update_facts|done]). done.
  - destruct (IH (S n) streamed lagged) as (e & l & E & B & N & T).
    destruct (frames (S n) streamed lagged rx w) as [fs w']. cbn [fst] in *. subst fs.
    eexists (_ :: e), l. split; [reflexivity|]. cbn [app].
    repeat split; try (constructor; [apply status_facts|done]). done.
  - destruct (injected v0 p ov w) as [v' w'].
    destruct (done_frames_facts (streamed && negb lagged) v') as (e & f & E & B & N & T).
    cbn [fst]. rewrite E. exists e, [f]. repeat split; try done. by exists f.
  - eexists [], [_]. cbn [app fst]. split; [reflexivity|].
    split; [constructor; [apply status_facts|constructor]|]. split; [constructor|].
    eexists. split; [reflexivity|]. apply status_facts.
Qed.
End Prose.

(** C19: What a client of the 0.3 [message/stream] ends up with.  Every frame
    carries the id of the call, the task and the context; the stream closes
    with one final frame exactly when the task's end was received.  When the
    task is done, the client that appends and replaces chunks as it is told has
    the prose exactly once: the streamed text, in order, with the sources after
    it, or, when nothing was streamed or some of it was lost, the whole reply;
    the world is that of the one report dispatch the answer may make. *)
Theorem stream_prose_once {W : Type} `{SerdeJson} debug_set (d : Dispatcher W) c negotiated si p ov a2ui
    pre v w :
  si_artifact si ≠ si_a2ui_artifact si →
  Forall (λ x, ends_task x = false) pre →
  let rx := pre ++ [Got (TaskEvent.Done v)] in
  let r := stream_frames debug_set d c negotiated si p ov a2ui rx w in
  let injected := inject_report_vega debug_set d c v p ov w in
  client_text (si_artifact si) [] r.1
    = prose negotiated a2ui (existsb is_token pre && negb (existsb is_lag pre))
        (concat (omap token_text pre)) injected.1
  ∧ r.2 = injected.2
  ∧ ∀ rx, ∃ earlier last,
      (stream_frames debug_set d c negotiated si p ov a2ui rx w).1 = earlier ++ [last]
      ∧ Forall (names_task si) (earlier ++ [last])
      ∧ Forall (λ f, closes_stream f = false) earlier
      ∧ closes_stream last = existsb ends_task rx.
Proof.
  intros Hne Hq. cbv zeta. unfold stream_frames.
  destruct (turn_frames_text debug_set d c negotiated si p ov a2ui v w pre 0 false false [] Hne Hq)
    as [Hw Ht].
  split; [|split].
  - destruct (turn_frames _ _ _ _ _ _ _ _ _ _ _ _ _) as [fs w']. exact Ht.
  - destruct (turn_frames _ _ _ _ _ _ _ _ _ _ _ _ _) as [fs w']. exact Hw.
  - intros rx. clear Hw Ht.
    destruct (turn_frames_facts debug_set d c negotiated si p ov a2ui w rx 0 false false)
      as (e & l & E & B & N & T).
    destruct (turn_frames _ _ _ _ _ _ _ _ _ _ _ _ _) as [fs w']. cbn [fst] in *. subst fs.
    destruct (first_facts si) as [Hf1 Hf2]. destruct (existsb ends_task rx).
    + destruct T as (f & -> & Hf). exists (first_frame si :: e), f.
      cbn [app]. split_and!; try done; by constructor.
    + subst l. rewrite app_nil_r in *.
      destruct (exists_last (l := first_frame si :: e)) as (earlier & last & El); [done|].
      rewrite El. exists earlier, last.
      assert (Forall (λ f, closes_stream f = false) (earlier ++ [last])) as Ha
        by (rewrite <- El; by constructor).
      apply Forall_app in Ha as [Ha1 Ha2]. apply Forall_inv in Ha2.
      split_and!; try done. rewrite <- El. by constructor.
Qed.

Definition demo_ids : StreamIds :=
  {| si_rpc := Value.Null; si_task := §"t"; si_ctx := §"c"; si_artifact := §"a";
     si_a2ui_artifact := §"b"; si_message n := §"m" |}.

Lemma stream_prose_once_witness :
  let rx := [Got (TaskEvent.Token §"Hel"); Got (TaskEvent.Token §"lo")] ++ [Got (TaskEvent.Done Value.Null)] in
  client_text §"a" []
    (stream_frames (H := sample_json) (λ _, []) (demo_dispatcher None unenforced)
       {| c_when := []; c_started := 0; c_finished := 1 |} (λ _ _, None) demo_ids (alice []) no_overrides
       true rx (World_new unenforced 0)).1
  = §"Hello".
Proof.
  destruct (stream_prose_once (H := sample_json) (λ _, []) (demo_dispatcher None unenforced)
    {| c_when := []; c_started := 0; c_finished := 1 |} (λ _ _, None) demo_ids (alice []) no_overrides
    true [Got (TaskEvent.Token §"Hel"); Got (TaskEvent.Token §"lo")] Value.Null
    (World_new unenforced 0)) as [Ht _].
  - discriminate.
  - repeat constructor.
  - exact Ht.
Defined.
