(* ===== verification/A2a.v ===== *)
(** * A2a: the A2A faces
    (crates/triton-adapters-http/src/a2a.rs, a2a_spec.rs, a2a_v1.rs)

    The Triton-shaped [message:send], JSON-RPC in versions 0.3 and 1.0, and the
    1.0 HTTP+JSON binding, over the state the HTTP faces share.  A turn runs as
    a task: what its channel delivers and what the store holds afterwards are
    read from the environment ([A2aEnv]); the task itself is [Tasks].  [build]
    and [negotiated] are those of [Ge] with the clock, key and ids of the
    process, [action_for] is [Ge.action_for_with]; [parse_rpc] and
    [parse_inbound] are the parsers [serde] derives. *)

From S2P Require Import Prelude Json Errors Principal RateLimit Stream Context AuditLog.
From S2P Require Import Dispatcher Tasks Correlation Oidc GoogleToken A2ui HttpIdentity Rest ReplyText.
From S2P Require Import Ge Mcp A2aTime A2aInput A2aTask A2aCard A2aTurn.

Definition PARSE_ERROR : Z := -32700.
Definition INVALID_REQUEST : Z := -32600.
Definition METHOD_NOT_FOUND : Z := -32601.
Definition INVALID_PARAMS : Z := -32602.
Definition INTERNAL_ERROR : Z := -32603.
Definition MAX_A2A_BODY_BYTES : Z := 40 * 1024 * 1024.

(** ** Answers *)

Inductive A2aReply :=
  (** [application/json] *)
  | Json (r : Reply)
  (** [application/a2a+json] *)
  | A2aJson (r : Reply)
  (** an event stream of these messages *)
  | Events (frames : list Value).

(** With the header that confirms an extension. *)
Record Answer := { an_reply : A2aReply; an_extension : option (str * str) }.
Definition plain (r : A2aReply) : Answer := {| an_reply := r; an_extension := None |}.

Definition rpc_error (i : Value) (code : Z) (message : str) : A2aReply :=
  Json (plain_reply 200 (rpc_body i §"error"
    (json_object [(§"code", jz code); (§"message", js message)]))).
Definition rpc_ok (i v : Value) : A2aReply := Json (plain_reply 200 (rpc_body i §"result" v)).
Definition rpc_error_v10 (i : Value) (e : A2aError) : A2aReply :=
  Json (plain_reply (transport_status e) (rpc_body i §"error" (body_v10 e))).
Definition rpc_error_v03 (i : Value) (e : A2aError) : A2aReply :=
  Json (plain_reply (transport_status e) (rpc_body i §"error" (body_v03 e))).
Definition rest_error (e : A2aError) : A2aReply :=
  A2aJson (plain_reply (error_status e) (rest_error_body e)).
Definition rest_ok (v : Value) : A2aReply := A2aJson (plain_reply 200 v).
Definition body_too_large : A2aReply :=
  Json (plain_reply 413 (rpc_body Value.Null §"error" (json_object
    [(§"code", jz INVALID_REQUEST);
     (§"message", js (§"request body over " ++ dec (MAX_A2A_BODY_BYTES / (1024 * 1024)) ++ §" MiB"))]))).
Definition error_stream (body : Value) : A2aReply := Events [body].

Definition error_reply {A} (f : A2aError → A2aReply) (g : A → A2aReply) (r : result A A2aError)
    : A2aReply := match r with Ok a => g a | Err e => f e end.

(** ** What a request carries and reads *)

Record RpcRequest := { rq_jsonrpc : option str; rq_id : Value; rq_method : str; rq_params : Value }.

(** The headers of the faces; the decoded query; the body, absent when it is
    over the limit.  Then what the handler reads: the clock of a new record,
    those of its store operations, of the re-reading, what the channel of the
    task delivers and how it ends, the record the store has after the wait, and
    fresh ids. *)
Record A2aEnv `{Jwt} := {
  ae_http : HttpEnv;
  ae_parts : Parts;
  ae_version : option str;
  ae_x_extensions : option str;
  ae_extensions : option str;
  ae_query : list (str * str);
  ae_body : option str;
  ae_now : Z;
  ae_io : StoreIo;
  ae_reread : Z;
  ae_rx : list Arrival;
  ae_ending : StreamEnding;
  ae_after : option TaskRecord;
  ae_context_id : str;
  ae_message_id : str;
  ae_artifact : str;
  ae_a2ui_artifact : str;
  ae_messages : nat → str;
}.

Inductive Access := Owner | Operator | Legacy.

Definition valid_context_id (i : str) : bool :=
  (length i <=? CONTEXT_ID_MAX)%nat
  && forallb (λ c, is_ascii_alphanumeric c || existsb (λ x, bool_decide (c = x)) (§"-_.:")) i.

Record Incoming := {
  inc_text : str;
  inc_client : ClientInput;
  inc_context_id : option str;
  inc_task_id : option str;
  inc_return_immediately : bool;
  inc_reply : option str;
}.

Section Parse.
Context `{SerdeJson}.
Variable b64_decode : str → option str.
Variable action_for : str → Value → option GeAction.

Definition role_ok (v : option Value) : bool :=
  match v with
  | Some (Value.String r) => bool_decide (r = §"ROLE_USER") || bool_decide (r = §"user")
  | Some (Value.Number (Value.Int n)) => (n =? 1)%Z
  | _ => false
  end.

Definition send_text (client : ClientInput) (action : option str) (parts : list Value) : str :=
  let text := trim (match action with
                    | Some t => t
                    | None => join (nl ++ nl) (omap (get_str §"text") parts)
                    end) in
  if is_empty text then default [] (fallback client) else text.

Definition parse_send (params : Value) (a2ui : bool) : result Incoming A2aError :=
  msg ←? ok_or (object_value (value_get §"message" params))
           (A2aError.InvalidParams §"message is required");
  _ ←? match opt_str msg §"messageId" §"message_id" with
       | Some i => if (length (chars i) <=? ID_MAX)%nat then Ok ()
                   else bad §"message.messageId is required (at most 200 characters)"
       | None => bad §"message.messageId is required (at most 200 characters)"
       end;
  _ ←? (if role_ok (value_get §"role" msg) then Ok () else bad §"message.role must be ROLE_USER");
  let context_id := opt_str msg §"contextId" §"context_id" in
  _ ←? (if bool_decide (context_id = None) || valid_context_id (default [] context_id) then Ok ()
        else bad §"message.contextId must have at most 128 characters from A-Z a-z 0-9 - _ . :");
  parts ←? match value_get §"parts" msg ≫= as_array with
           | Some (p :: ps) => Ok (p :: ps)
           | _ => bad §"message.parts needs at least one part"
           end;
  let client := client_input b64_decode parts a2ui in
  action ←? match a2ui_action action_for parts with
            | Some (GeMessage text) => Ok (Some text)
            | Some (GeOpenDoc label _ _ _) => Ok (Some label)
            | Some (GeIncomplete names) => bad (§"Choose " ++ join §", " names ++ §" first.")
            | None => Ok None
            end;
  let text := send_text client action parts in
  let reply := if is_empty text && has_text_part parts then Some EMPTY_MESSAGE_REPLY else None in
  _ ←? (if is_empty text && bool_decide (reply = None) then bad §"the message needs a text part" else Ok ());
  Ok {| inc_text := text; inc_client := client; inc_context_id := context_id;
        inc_task_id := opt_str msg §"taskId" §"task_id";
        inc_return_immediately :=
          default false (cfg ← value_get §"configuration" params;
                         b ← A2aTask.field cfg §"returnImmediately" §"return_immediately"; as_bool b);
        inc_reply := reply |}.
End Parse.

Definition reply_message (uuid : str) (inc : Incoming) (text : str) : Value :=
  json_object [(§"message", set_opt §"contextId" js (inc_context_id inc)
    (json_object [(§"messageId", js uuid); (§"role", js §"ROLE_AGENT");
                  (§"parts", Value.Array [json_object [(§"text", js text)]])]))].

Definition is_v10_method (m : str) : bool :=
  bool_decide (m ∈ [§"SendMessage"; §"SendStreamingMessage"; §"GetTask"; §"ListTasks"; §"CancelTask";
    §"SubscribeToTask"; §"CreateTaskPushNotificationConfig"; §"GetTaskPushNotificationConfig";
    §"ListTaskPushNotificationConfigs"; §"DeleteTaskPushNotificationConfig"; §"GetExtendedAgentCard"]).

Definition is_streaming_method (m : str) : bool :=
  bool_decide (m ∈ [§"message/stream"; §"tasks/resubscribe"; §"SendStreamingMessage"; §"SubscribeToTask"]).

Definition query_params (query : list (str * str)) : Value :=
  Value.Object (fold_left (λ m kv,
    if eq_ignore_ascii_case kv.1 §"a2a-version" then m else Map.insert kv.1 (js kv.2) m) query []).

(** [0.3]: the context of the message, or a fresh one. *)
Definition context_or (uuid : str) (params : Value) : str :=
  default uuid (m ← value_get §"message" params; i ← get_str §"contextId" m;
                if is_empty (trim i) then None else Some i).

Definition agent_message (uuid : str) (parts : list Value) (extra : list (str * Value)) : Value :=
  json_object ([(§"kind", js §"message"); (§"role", js §"agent"); (§"messageId", js uuid);
                (§"parts", Value.Array parts)] ++ extra).

Section Handlers.
Context {W S : Type} `{Backend S} `{SerdeJson, Jwt, UrlParse, SerdeA2ui, Crypto}.
Variable iter : gmap str HdCacheEntry → list (str * HdCacheEntry).
Variable token_hash : str → str.
Variable dev_feature : bool.
Variable debug_set : gset str → str.
Variable env_var : str → option str.
Variable retention : Z.
Variable settings : TaskSettings.
Variable operators : gset (str * str).
Variable d : Dispatcher W.
Variable config : SpecA2aConfig.
Variable only_v03 : bool.
Variable b64_decode : str → option str.
Variable action_for : str → Value → option GeAction.
Variable build : Value → option (list Value).
Variable negotiated : Value → bool → option (list Value).
Variable parse_rpc : str → result RpcRequest str.

Abbreviation St := (McpState W S).
Abbreviation world s := (hs_world (ms_http s)).
Definition put_world (w : World W) (s : St) : St :=
  Build_McpState (Build_HttpState w (hs_identity (ms_http s))) (ms_tasks s).
Definition put_tasks (ps : Process S) (s : St) : St := Build_McpState (ms_http s) ps.

(** *** Access *)

(** How [p] may use a record, by the rules alone. *)
Definition access_of (p : Principal) (i : str) (r : TaskRecord) (q : list AuditEntry) : option Access :=
  match owner r with
  | Some o => if decide (o = owner_key p) then Some Owner
              else if is_named_operator p operators (d_env d) then Some Operator else None
  | None => if may_read_trace p operators (d_env d) i q then Some Legacy else None
  end.

Definition readable (env : A2aEnv) (p : Principal) (i : str) (s : St)
    : result (TaskRecord * Access) A2aError * St :=
  if is_empty i || (ID_MAX <? length i)%nat then (Err A2aError.TaskNotFound, s)
  else match get retention (io_read (ae_io env)) i (store (ms_tasks s)) with
  | None => (Err A2aError.TaskNotFound, s)
  | Some r =>
      match access_of p i r (buffer (sinks (world s))) with
      | None => (Err A2aError.TaskNotFound, s)
      | Some access =>
          let '(v, w) := deny_if_revoked d (he_clock (ae_http env)) p §"tasks/get" §"a2a" (world s) in
          (match v with
           | Ok _ => Ok (r, access)
           | Err e => Err (A2aError.Internal (to_string e))
           end, put_world w s)
      end
  end.

(** The record, and whether the caller is subscribed. *)
Definition readable_live (env : A2aEnv) (p : Principal) (i : str) (s : St)
    : result (TaskRecord * bool) A2aError * St :=
  let '(v, s) := readable env p i s in
  match v with
  | Err e => (Err e, s)
  | Ok (r, access) =>
      let '(rx, ps) := match access with
                       | Owner => ensure_running retention settings (ae_io env) (ae_now env) r (ms_tasks s)
                       | _ => (false, ms_tasks s)
                       end in
      (Ok (default r (get retention (ae_reread env) i (store ps)), rx), put_tasks ps s)
  end.

(** *** Operations *)

Definition start_task (env : A2aEnv) (p : Principal) (text ctx : str) (ov : ContextOverrides) (s : St)
    : result TaskRecord A2aError * St :=
  let r := TaskRecord_new (ae_now env) (trace_id p) ctx (default_tool config) (Some (owner_key p)) in
  match start retention (ae_io env) r (StartDispatch (json_object [(§"message", js text)])) §"a2a" ov Now
          (ms_tasks s) with
  | (Err e, ps) => (Err (A2aError.Internal (StartError_to_string e)), put_tasks ps s)
  | (Ok _, ps) => (Ok (default r (get retention (ae_reread env) (Tasks.id r) (store ps))), put_tasks ps s)
  end.

Definition refuse_continuation (env : A2aEnv) (p : Principal) (i : str) (s : St) : A2aError * St :=
  let '(v, s) := readable env p i s in
  (match v with
   | Err e => e
   | Ok (r, _) =>
       A2aError.Unsupported
         (if state_is_terminal (t_state r)
          then §"The task is finished and takes no further message; send a new message without taskId"
          else §"This agent does not continue tasks; send a new, complete message without taskId")
   end, s).

Definition turn_overrides (ctx : str) (a2ui : bool) (client : ClientInput) : ContextOverrides :=
  turn_context config (surfaces d) ctx a2ui client.

Definition op_send (env : A2aEnv) (p : Principal) (params : Value) (a2ui : bool) (s : St)
    : result Value A2aError * St :=
  match parse_send b64_decode action_for params a2ui with
  | Err e => (Err e, s)
  | Ok inc =>
      match inc_task_id inc, inc_reply inc with
      | Some i, _ => let '(e, s) := refuse_continuation env p i s in (Err e, s)
      | None, Some text => (Ok (reply_message (ae_message_id env) inc text), s)
      | None, None =>
          let ctx := default (ae_context_id env) (inc_context_id inc) in
          let '(v, s) := start_task env p (inc_text inc) ctx
                           (turn_overrides ctx a2ui (inc_client inc)) s in
          (r ←? v;
           let now := if inc_return_immediately inc
                      then get retention (ae_reread env) (Tasks.id r) (store (ms_tasks s))
                      else ae_after env in
           Ok (json_object [(§"task", task_v10 build (handover (default r now)) true a2ui)]), s)
      end
  end.

Definition op_get (env : A2aEnv) (p : Principal) (params : Value) (a2ui : bool) (s : St)
    : result Value A2aError * St :=
  match opt_str params §"id" §"id" with
  | None => (bad §"id is required", s)
  | Some i =>
      let '(v, s) := readable_live env p i s in
      (result_map (λ x, task_v10 build x.1 true a2ui) v, s)
  end.

Definition op_cancel (env : A2aEnv) (p : Principal) (params : Value) (s : St) : A2aError * St :=
  match opt_str params §"id" §"id" with
  | None => (A2aError.InvalidParams §"id is required", s)
  | Some i =>
      let '(v, s) := readable env p i s in
      (match v with Ok _ => A2aError.TaskNotCancelable | Err e => e end, s)
  end.

Definition op_list (env : A2aEnv) (p : Principal) (params : Value) (a2ui : bool) (s : St)
    : result Value A2aError * St :=
  match parse_list params with
  | Err e => (Err e, s)
  | Ok q =>
      let '(v, w) := deny_if_revoked d (he_clock (ae_http env)) p §"tasks/list" §"a2a" (world s) in
      (match v with
       | Err e => Err (A2aError.Internal (to_string e))
       | Ok _ =>
           let all := filter (λ r, listed q r = true)
             (list_tasks retention (io_read (ae_io env)) (owner_key p) (lq_context q) (store (ms_tasks s))) in
           Ok (list_page build q a2ui all)
       end, put_world w s)
  end.

Definition task_events (env : A2aEnv) (f : Framing) (r : TaskRecord) (subscribed a2ui : bool) : A2aReply :=
  Events (task_stream build f r subscribed (ae_rx env) (ae_ending env) a2ui).

Definition op_stream (env : A2aEnv) (p : Principal) (params : Value) (f : Framing) (a2ui : bool) (s : St)
    : result A2aReply A2aError * St :=
  match parse_send b64_decode action_for params a2ui with
  | Err e => (Err e, s)
  | Ok inc =>
      match inc_task_id inc, inc_reply inc with
      | Some i, _ => let '(e, s) := refuse_continuation env p i s in (Err e, s)
      | None, Some text => (Ok (Events [wrap f (reply_message (ae_message_id env) inc text)]), s)
      | None, None =>
          let ctx := default (ae_context_id env) (inc_context_id inc) in
          let '(v, s) := start_task env p (inc_text inc) ctx
                           (turn_overrides ctx a2ui (inc_client inc)) s in
          (result_map (λ r, task_events env f r true a2ui) v, s)
      end
  end.

Definition op_subscribe (env : A2aEnv) (p : Principal) (params : Value) (f : Framing) (a2ui : bool) (s : St)
    : result A2aReply A2aError * St :=
  match opt_str params §"id" §"id" with
  | None => (bad §"id is required", s)
  | Some i =>
      let '(v, s) := readable_live env p i s in
      (x ←? v;
       if state_is_terminal (t_state x.1)
       then Err (A2aError.Unsupported §"The task is finished; read it with GetTask")
       else Ok (task_events env f x.1 x.2 a2ui), s)
  end.

(** *** JSON-RPC 1.0 *)

Definition PUSH_METHODS_V10 : list str :=
  [§"CreateTaskPushNotificationConfig"; §"GetTaskPushNotificationConfig";
   §"ListTaskPushNotificationConfigs"; §"DeleteTaskPushNotificationConfig"].
Definition NO_EXTENDED_CARD : str := §"This agent has no extended card; the public card is complete".

Definition jsonrpc_v10 (env : A2aEnv) (p : Principal) (i : Value) (method : str) (params : Value)
    (a2ui : bool) (s : St) : A2aReply * St :=
  let answer := error_reply (rpc_error_v10 i) (rpc_ok i) in
  let stream := error_reply (rpc_error_v10 i) (λ r, r) in
  if decide (method = §"SendMessage") then
    let '(v, s) := op_send env p params a2ui s in (answer v, s)
  else if decide (method = §"SendStreamingMessage") then
    let '(v, s) := op_stream env p params (JsonRpc10 i) a2ui s in (stream v, s)
  else if decide (method = §"GetTask") then
    let '(v, s) := op_get env p params a2ui s in (answer v, s)
  else if decide (method = §"ListTasks") then
    let '(v, s) := op_list env p params a2ui s in (answer v, s)
  else if decide (method = §"CancelTask") then
    let '(e, s) := op_cancel env p params s in (rpc_error_v10 i e, s)
  else if decide (method = §"SubscribeToTask") then
    let '(v, s) := op_subscribe env p params (JsonRpc10 i) a2ui s in (stream v, s)
  else if decide (method ∈ PUSH_METHODS_V10) then (rpc_error_v10 i A2aError.PushNotSupported, s)
  else if decide (method = §"GetExtendedAgentCard") then
    (rpc_error_v10 i (A2aError.Unsupported NO_EXTENDED_CARD), s)
  else (rpc_error_v10 i (A2aError.MethodNotFound (§"Method `" ++ method
          ++ §"` not found; A2A 1.0 methods: SendMessage, SendStreamingMessage, GetTask, ListTasks, CancelTask, SubscribeToTask")), s).

(** *** JSON-RPC 0.3 *)

Definition NO_TEXT : str := §"params.message.parts must contain at least one non-empty text part".

(** The answer to a finished turn. *)
Definition done_reply (env : A2aEnv) (req : RpcRequest) (r : TaskRecord) (ctx : str) (a2ui : bool)
    (v : Value) : A2aReply :=
  let msgs := negotiated v a2ui in
  let parts := text_part_v03 (ReplyText.text_part v (bool_decide (is_Some msgs)))
                 :: data_parts (default [] msgs) in
  rpc_ok (rq_id req) (agent_message (ae_message_id env) parts
    [(§"taskId", js (Tasks.id r)); (§"contextId", js ctx)]).

Definition message_send (env : A2aEnv) (p : Principal) (req : RpcRequest) (a2ui : bool) (s : St)
    : A2aReply * St :=
  let i := rq_id req in
  let client := client_input b64_decode (message_parts (rq_params req)) a2ui in
  match text_from_params action_for (rq_params req) client with
  | None => (rpc_error i INVALID_PARAMS NO_TEXT, s)
  | Some inb =>
      match missing inb, in_open_doc inb with
      | Some m, _ => (rpc_ok i (agent_message (ae_message_id env) [text_part_v03 m] []), s)
      | None, Some doc =>
          let ctx := context_or (ae_context_id env) (rq_params req) in
          let '(parts, w) := doc_open_parts debug_set env_var d (he_clock (ae_http env))
                               (ae_artifact env) p doc (turn_overrides ctx a2ui client) (world s) in
          (rpc_ok i (agent_message (ae_message_id env) parts [(§"contextId", js ctx)]), put_world w s)
      | None, None =>
          let ctx := context_or (ae_context_id env) (rq_params req) in
          let ov := turn_overrides ctx a2ui client in
          let '(v, s) := start_task env p (in_text inb) ctx ov s in
          match v with
          | Err e => (rpc_error i INTERNAL_ERROR (error_message e), s)
          | Ok r =>
              if wants_immediate_task (rq_params req) then
                (rpc_ok i (json_object [(§"kind", js §"task"); (§"id", js (Tasks.id r));
                   (§"contextId", js ctx); (§"status", json_object [(§"state", js §"working")])]), s)
              else match wait_terminal (ar_item <$> ae_rx env) with
              | Some (TaskEvent.Done res) =>
                  let '(res, w) := inject_report_vega debug_set d (he_clock (ae_http env)) res p ov
                                     (world s) in
                  (done_reply env req r ctx a2ui res, put_world w s)
              | Some (TaskEvent.Failed cls m) => (rpc_error i INTERNAL_ERROR (user_text cls m), s)
              | _ => (rpc_ok i (task_v03 (handover (default r (ae_after env)))), s)
              end
          end
      end
  end.

Definition stream_ids (env : A2aEnv) (i : Value) (p : Principal) (ctx : str) : StreamIds :=
  {| si_rpc := i; si_task := trace_id p; si_ctx := ctx; si_artifact := ae_artifact env;
     si_a2ui_artifact := ae_a2ui_artifact env; si_message := ae_messages env |}.

Definition message_stream (env : A2aEnv) (p : Principal) (req : RpcRequest) (a2ui : bool) (s : St)
    : A2aReply * St :=
  let i := rq_id req in
  let client := client_input b64_decode (message_parts (rq_params req)) a2ui in
  match text_from_params action_for (rq_params req) client with
  | None => (rpc_error i INVALID_PARAMS NO_TEXT, s)
  | Some inb =>
      match missing inb, in_open_doc inb with
      | Some m, _ =>
          (Events [rpc_body i §"result" (agent_message (ae_message_id env) [text_part_v03 m] [])], s)
      | None, Some doc =>
          let ctx := context_or (ae_context_id env) (rq_params req) in
          let '(parts, w) := doc_open_parts debug_set env_var d (he_clock (ae_http env))
                               (ae_artifact env) p doc (turn_overrides ctx a2ui client) (world s) in
          let ps := ms_tasks s in
          let st := record_entry retention (ae_io env) (trace_id p) TaskState.Completed
                      (Some §"opened source document") None (store ps) in
          (Events (doc_frames (stream_ids env i p ctx) parts),
           put_tasks (Build_Process (hub ps) st (runners ps)) (put_world w s))
      | None, None =>
          let ctx := context_or (ae_context_id env) (rq_params req) in
          let ov := turn_overrides ctx a2ui client in
          let '(v, s) := start_task env p (in_text inb) ctx ov s in
          match v with
          | Err e => (rpc_error i INTERNAL_ERROR (error_message e), s)
          | Ok _ =>
              let '(fs, w) := stream_frames debug_set d (he_clock (ae_http env)) negotiated
                                (stream_ids env i p ctx) p ov a2ui (ar_item <$> ae_rx env) (world s) in
              (Events fs, put_world w s)
          end
      end
  end.

Definition tasks_get (env : A2aEnv) (p : Principal) (req : RpcRequest) (s : St) : A2aReply * St :=
  match get_str §"id" (rq_params req) with
  | None => (rpc_error (rq_id req) INVALID_PARAMS §"params.id is required", s)
  | Some i =>
      let '(v, s) := readable_live env p i s in
      (error_reply (rpc_error_v03 (rq_id req)) (λ x, rpc_ok (rq_id req) (task_v03 x.1)) v, s)
  end.

Definition tasks_cancel (env : A2aEnv) (p : Principal) (req : RpcRequest) (s : St) : A2aReply * St :=
  match get_str §"id" (rq_params req) with
  | None => (rpc_error_v03 (rq_id req) (A2aError.InvalidParams §"params.id is required"), s)
  | Some i =>
      let '(v, s) := readable env p i s in
      (rpc_error_v03 (rq_id req) match v with Ok _ => A2aError.TaskNotCancelable | Err e => e end, s)
  end.

Definition tasks_resubscribe (env : A2aEnv) (p : Principal) (req : RpcRequest) (s : St) : A2aReply * St :=
  let '(v, s) := op_subscribe env p (rq_params req) (JsonRpc03 (rq_id req)) false s in
  (error_reply (λ e, error_stream (rpc_body (rq_id req) §"error" (body_v03 e))) (λ r, r) v, s).

Definition PUSH_METHODS_V03 : list str :=
  [§"tasks/pushNotificationConfig/set"; §"tasks/pushNotificationConfig/get";
   §"tasks/pushNotificationConfig/list"; §"tasks/pushNotificationConfig/delete"].

Definition jsonrpc_v03 (env : A2aEnv) (p : Principal) (req : RpcRequest) (a2ui : bool) (s : St)
    : A2aReply * St :=
  let method := rq_method req in
  if decide (method = §"message/send") then message_send env p req a2ui s
  else if decide (method = §"message/stream") then message_stream env p req a2ui s
  else if decide (method = §"tasks/get") then tasks_get env p req s
  else if decide (method = §"tasks/cancel") then tasks_cancel env p req s
  else if decide (method = §"tasks/resubscribe") then tasks_resubscribe env p req s
  else if decide (method ∈ PUSH_METHODS_V03) then
    (rpc_error_v03 (rq_id req) A2aError.PushNotSupported, s)
  else if decide (method = §"agent/getAuthenticatedExtendedCard") then
    (rpc_error_v03 (rq_id req) A2aError.ExtendedCardNotConfigured, s)
  else (rpc_error (rq_id req) METHOD_NOT_FOUND (§"unsupported method `" ++ method
          ++ §"`; this agent implements message/send, message/stream, tasks/get, tasks/cancel, tasks/resubscribe (A2A 0.3; send A2A-Version: 1.0 for 1.0)"), s).

(** *** The endpoint *)

Definition echo (name : str) (a2ui : bool) (r : A2aReply) : Answer :=
  {| an_reply := r; an_extension := if a2ui then Some (name, EXTENSION_URI) else None |}.

Definition dispatch_rpc (env : A2aEnv) (p : Principal) (req : RpcRequest) (a2ui : bool) (s : St)
    : Answer * St :=
  if negb (bool_decide (rq_jsonrpc req = Some §"2.0"))
  then (plain (rpc_error (rq_id req) INVALID_REQUEST (§"jsonrpc must be " ++ quoted §"2.0")), s)
  else match requested_version (ae_version env ≫= header_to_str) (ae_query env) with
  | Ok V1 =>
      if only_v03
      then (plain (rpc_error_v03 (rq_id req) (A2aError.VersionNotSupported §"1.0")), s)
      else let '(r, s) := jsonrpc_v10 env p (rq_id req) (rq_method req) (rq_params req) a2ui s in
           (echo §"a2a-extensions" a2ui r, s)
  | Ok V03 =>
      let '(r, s) := jsonrpc_v03 env p req a2ui s in (echo §"x-a2a-extensions" a2ui r, s)
  | Err raw =>
      let e := A2aError.VersionNotSupported raw in
      (plain (if only_v03 || contains §"/" (rq_method req) || negb (is_v10_method (rq_method req))
              then rpc_error_v03 (rq_id req) e else rpc_error_v10 (rq_id req) e), s)
  end.

(** [None] where a body cannot be read back: [500] without one. *)
Definition errors_as_event_stream (a : Answer) : Answer :=
  match an_reply a with
  | Json r =>
      if decide (HttpIdentity.status r = 200%Z) then
        match HttpIdentity.body r with
        | Some b =>
            let text := json_to_string b in
            match (if (Z.of_nat (length text) <=? MAX_A2A_BODY_BYTES)%Z then json_from_str text else None) with
            | Some b => {| an_reply := error_stream b; an_extension := an_extension a |}
            | None => plain (Json {| HttpIdentity.status := 500; www_authenticate := None;
                                     insufficient_scope := None; session_id := None;
                                     HttpIdentity.body := None |})
            end
        | None => a
        end
      else a
  | _ => a
  end.

(** The caller of a request; a refusal is a rejection in no one's name. *)
Definition verify (env : A2aEnv) (op : str) (s : St)
    : result Principal (TritonError * option str) * St :=
  let '(r, prov) := identity_verify iter token_hash dev_feature (he_identity (ae_http env))
                      (ae_parts env) (hs_identity (ms_http s)) in
  match r with
  | Ok p => (Ok p, Build_McpState (Build_HttpState (world s) prov) (ms_tasks s))
  | Err e => (Err (e, scope_challenge prov),
              Build_McpState (Build_HttpState (record_rejection d (he_when (ae_http env))
                (he_now (ae_http env)) op §"a2a" §"-" §"-" (he_uuid (ae_http env)) e (world s)) prov)
                (ms_tasks s))
  end.

Definition jsonrpc (env : A2aEnv) (s : St) : Answer * St :=
  let '(v, s) := verify env §"message/send" s in
  match v with
  | Err (e, challenge) =>
      let st := match e with Forbidden _ => 403 | _ => 401 end%Z in
      (plain (Json (tag_rejection challenge e (plain_reply st (rpc_body Value.Null §"error"
         (json_object [(§"code", jz INVALID_REQUEST); (§"message", js (to_string e))]))))), s)
  | Ok p =>
      let ext := match ae_x_extensions env with Some x => Some x | None => ae_extensions env end in
      let a2ui := activates_a2ui (ext ≫= header_to_str) in
      match ae_body env with
      | None => (plain body_too_large, s)
      | Some body =>
          match parse_rpc body with
          | Err m => (plain (rpc_error Value.Null PARSE_ERROR (§"invalid JSON: " ++ m)), s)
          | Ok req =>
              let '(a, s) := dispatch_rpc env p req a2ui s in
              (if is_streaming_method (rq_method req) then errors_as_event_stream a else a, s)
          end
      end
  end.

(** *** HTTP+JSON *)

Definition rest_session (env : A2aEnv) (op : str) (s : St) : result Principal A2aReply * St :=
  let '(v, s) := verify env op s in
  (match v with
   | Err (e, challenge) =>
       let a := match e with
                | Forbidden _ => A2aError.PermissionDenied (to_string e)
                | _ => A2aError.Unauthenticated (to_string e)
                end in
       Err (A2aJson (tag_rejection challenge e (plain_reply (error_status a) (rest_error_body a))))
   | Ok p =>
       let header := ae_version env ≫= header_to_str in
       match requested_version header (ae_query env) with
       | Ok V1 => Ok p
       | Ok V03 => Err (rest_error (A2aError.VersionNotSupported (default [] header)))
       | Err raw => Err (rest_error (A2aError.VersionNotSupported raw))
       end
   end, s).

Definition rest_body (body : str) : result Value A2aError :=
  if is_empty body then Ok (Value.Object [])
  else ok_or (object_value (json_from_str body)) A2aError.Parse.

Definition activates_a2ui_headers (env : A2aEnv) : bool :=
  existsb (λ h, activates_a2ui (h ≫= header_to_str)) [ae_x_extensions env; ae_extensions env].

Inductive RestCall :=
  | RestSend
  | RestStream
  | RestList
  | RestTaskGet (i : str)
  | RestTaskPost (i : str)
  | RestPush
  | RestExtendedCard.

Definition rest_op (c : RestCall) : str :=
  match c with
  | RestSend => §"SendMessage"
  | RestStream => §"SendStreamingMessage"
  | RestList => §"ListTasks"
  | RestTaskGet _ => §"GetTask"
  | RestTaskPost _ => §"CancelTask"
  | RestPush => §"PushNotificationConfig"
  | RestExtendedCard => §"GetExtendedAgentCard"
  end.

Definition id_params (i : str) : Value := json_object [(§"id", js i)].

Definition rest_subscribe (env : A2aEnv) (p : Principal) (i : str) (s : St) : A2aReply * St :=
  let '(v, s) := op_subscribe env p (id_params i) A2aTask.Rest (activates_a2ui_headers env) s in
  (error_reply rest_error (λ r, r) v, s).

Definition with_body (env : A2aEnv) (f : Value → St → A2aReply * St) (s : St) : A2aReply * St :=
  match ae_body env with
  | None => (body_too_large, s)
  | Some b => match rest_body b with Ok params => f params s | Err e => (rest_error e, s) end
  end.

Definition rest_call (env : A2aEnv) (call : RestCall) (p : Principal) (s : St) : A2aReply * St :=
  let a2ui := activates_a2ui_headers env in
  match call with
  | RestSend => with_body env (λ params s,
      let '(v, s) := op_send env p params a2ui s in (error_reply rest_error rest_ok v, s)) s
  | RestStream => with_body env (λ params s,
      let '(v, s) := op_stream env p params A2aTask.Rest a2ui s in (error_reply rest_error (λ r, r) v, s)) s
  | RestList =>
      let '(v, s) := op_list env p (query_params (ae_query env)) a2ui s in
      (error_reply rest_error rest_ok v, s)
  | RestTaskGet i =>
      match strip_suffix §":subscribe" i with
      | Some i => rest_subscribe env p i s
      | None => let '(v, s) := op_get env p (id_params i) a2ui s in (error_reply rest_error rest_ok v, s)
      end
  | RestTaskPost i =>
      match strip_suffix §":cancel" i with
      | Some i => let '(e, s) := op_cancel env p (id_params i) s in (rest_error e, s)
      | None =>
          match strip_suffix §":subscribe" i with
          | Some i => rest_subscribe env p i s
          | None => (rest_error (A2aError.MethodNotFound §"no such task operation"), s)
          end
      end
  | RestPush => (rest_error A2aError.PushNotSupported, s)
  | RestExtendedCard => (rest_error (A2aError.Unsupported NO_EXTENDED_CARD), s)
  end.

Definition rest_handle (env : A2aEnv) (call : RestCall) (s : St) : A2aReply * St :=
  let '(v, s) := rest_session env (rest_op call) s in
  match v with
  | Err r => (r, s)
  | Ok p => rest_call env call p s
  end.
End Handlers.

(** ** The Triton-shaped route (a2a.rs) *)

Record InboundData := { id_tool : str; id_args : Value }.
Record InboundMessage := {
  im_parts : list InboundData;
  (** the metadata and its [a2ui_version] *)
  im_metadata : option (option str);
}.

Definition parse_a2ui_version (m : option (option str)) : result (option A2uiVersion) TritonError :=
  match m with
  | None | Some None => Ok None
  | Some (Some v) =>
      if decide (v = §"v0.8") then Ok (Some V08)
      else if decide (v = §"v0.9") then Ok (Some V09)
      else Err (Validation (§"unknown A2UI version: " ++ v))
  end.

Definition a2a_error_with_trace_opt (e : TritonError) (trace : option str) : Reply :=
  let metadata := set_opt §"trace_id" js trace
    (json_object [(§"error", js (class e)); (§"message", js (to_string e))]) in
  plain_reply (http_status e)
    (json_object [(§"error", js (class e)); (§"message", js (to_string e)); (§"metadata", metadata)]).
Definition a2a_error (e : TritonError) : Reply := a2a_error_with_trace_opt e None.
Definition a2a_error_with_trace (e : TritonError) (trace : str) : Reply :=
  a2a_error_with_trace_opt e (Some trace).

Definition outbound_message (x : DispatchResult) (tool_trace : option Value) : Value :=
  json_object
    [(§"parts", Value.Array [json_object [(§"data", envelope x)]]);
     (§"metadata", json_object ([(§"trace_id", js (dr_trace_id x)); (§"task_state", js §"completed")]
                                ++ opt §"tool_trace" (λ t, t) tool_trace))].

Section MessageSend.
Context {W S : Type} `{Backend S} `{SerdeJson, Jwt, UrlParse, SerdeA2ui}.
Variable iter : gmap str HdCacheEntry → list (str * HdCacheEntry).
Variable token_hash : str → str.
Variable dev_feature : bool.
Variable debug_set : gset str → str.
Variable cell : HttpHosts.
Variable retention : Z.
Variable d : Dispatcher W.
Variable parse_inbound : str → result InboundMessage str.
Abbreviation St := (McpState W S).
Abbreviation world s := (hs_world (ms_http s)).

Inductive MessageReply :=
  | MsgJson (r : Reply)
  | MsgSse (p : Principal) (events : Streamed (W := W)).

(** [tasks.record] *)
Definition record_state (io : StoreIo) (trace : str) (st : TaskState) (s : St) : St :=
  let ps := ms_tasks s in
  Build_McpState (ms_http s)
    (Build_Process (hub ps) (record_entry retention io trace st None None (store ps)) (runners ps)).

Definition reject_message (env : HttpEnv) (p : Principal) (e : TritonError) (s : St)
    : MessageReply * St :=
  (MsgJson (a2a_error_with_trace e (trace_id p)),
   put_world (record_rejection d (he_when env) (he_now env) §"message:send" §"a2a" (sub p) (tenant p)
                (trace_id p) e (world s)) s).

(** The dispatch of a part. *)
Definition send_part (env : HttpEnv) (io : StoreIo) (parts : Parts) (p : Principal)
    (requested : option A2uiVersion) (part : InboundData) (s : St) : MessageReply * St :=
  let trace := trace_id p in
  if wants_sse parts then
    let '(r, w) := invoke_streaming_with debug_set (wrap_a2ui cell) d (he_clock env) (id_tool part)
                     (id_args part) p §"a2a" requested no_overrides (world s) in
    match r with
    | Ok events => (MsgSse p events, put_world w s)
    | Err e => (MsgJson (a2a_error_with_trace e trace),
                record_state io trace TaskState.Failed (put_world w s))
    end
  else
    let '(r, w) := invoke debug_set d (he_clock env) (id_tool part) (id_args part) p §"a2a" (world s) in
    let s := put_world w s in
    let failed e := (MsgJson (a2a_error_with_trace e trace), record_state io trace TaskState.Failed s) in
    match r with
    | Err e => failed e
    | Ok x =>
        match wrap_a2ui_if_requested cell requested x with
        | Err e => failed e
        | Ok x' => (MsgJson (plain_reply 200
                      (outbound_message x' (array_under_meta §"tool_trace" (dr_result x)))),
                    record_state io trace TaskState.Completed s)
        end
    end.

Definition a2a_message_send (env : HttpEnv) (io : StoreIo) (parts : Parts) (body : str) (s : St)
    : MessageReply * St :=
  let '(r, prov) := identity_verify iter token_hash dev_feature (he_identity env) parts
                      (hs_identity (ms_http s)) in
  let s := Build_McpState (Build_HttpState (world s) prov) (ms_tasks s) in
  match r with
  | Err e =>
      (MsgJson (tag_rejection (scope_challenge prov) e (a2a_error e)),
       put_world (record_rejection d (he_when env) (he_now env) §"message:send" §"a2a" §"-" §"-"
                    (he_uuid env) e (world s)) s)
  | Ok p =>
      match parse_inbound body with
      | Err m => reject_message env p (Validation (§"invalid A2A Message: " ++ m)) s
      | Ok msg =>
          match parse_a2ui_version (im_metadata msg) with
          | Err e => reject_message env p e s
          | Ok requested =>
              match im_parts msg with
              | [] => reject_message env p (Validation §"A2A Message MUST contain at least one Part") s
              | part :: _ => send_part env io parts p requested part s
              end
          end
      end
  end.

(** Once the client is done with the reply: a stream's finalizer records how it
    ended. *)
Definition after_message (when tool : str) (opened at_drop : Z) (io : StoreIo) (x : MessageReply * St) : St :=
  match x.1 with
  | MsgJson _ => x.2
  | MsgSse p events =>
      let '(out, w) := consume d when tool §"a2a" p opened at_drop events (world x.2) in
      let f := (poll_run (Finalized_new opened) ((λ q, (at_drop, q)) <$> out)).2 in
      fold_left (λ s term, record_state io (trace_id p)
                   (if is_success term then TaskState.Completed else TaskState.Failed) s)
        (fst <$> fired (drop_finalized at_drop f)) (put_world w x.2)
  end.
End MessageSend.

(** * Who may see a task *)

Section AccessFacts.
Context {W S : Type} `{Backend S} `{SerdeJson, Jwt, UrlParse, SerdeA2ui, Crypto}.
Variable retention : Z.
Variable settings : TaskSettings.
Variable operators : gset (str * str).
Variable d : Dispatcher W.
Variable config : SpecA2aConfig.
Variable b64_decode : str → option str.
Variable action_for : str → Value → option GeAction.
Variable build : Value → option (list Value).
Abbreviation St := (McpState W S).
Implicit Types (s : St) (env : A2aEnv) (p : Principal).

(** The three rules: a task is its owner's; a named operator reads the tasks of
    others; a record without an owner goes by the rule of [/v1/trace]. *)
Inductive allowed (p : Principal) (i : str) (r : TaskRecord) (q : list AuditEntry) : Access → Prop :=
  | AllowedOwner : owner r = Some (owner_key p) → allowed p i r q Owner
  | AllowedOperator o :
      owner r = Some o → is_named_operator p operators (d_env d) = true → allowed p i r q Operator
  | AllowedLegacy :
      owner r = None → may_read_trace p operators (d_env d) i q = true → allowed p i r q Legacy.

(** No task has this id, or none of the rules lets [p] use it. *)
Definition hidden env p (i : str) s : Prop :=
  ∀ r a, get retention (io_read (ae_io env)) i (store (ms_tasks s)) = Some r →
         ¬ allowed p i r (buffer (sinks (hs_world (ms_http s)))) a.

Lemma access_of_allowed p i r q a : access_of operators d p i r q = Some a → allowed p i r q a.
Proof.
  unfold access_of. destruct (owner r) as [o|] eqn:Eo.
  - case_decide as E; [intros [= <-]; constructor; congruence|].
    destruct (is_named_operator p operators (d_env d)) eqn:En; [|done]. intros [= <-].
    by eapply AllowedOperator.
  - destruct (may_read_trace p operators (d_env d) i q) eqn:Em; [|done]. intros [= <-].
    by apply AllowedLegacy.
Qed.

Lemma readable_hidden env p i s :
  hidden env p i s → readable retention operators d env p i s = (Err A2aError.TaskNotFound, s).
Proof.
  unfold hidden, readable. intros Hh. destruct (is_empty i || _); [done|].
  destruct (get _ _ _ _) as [r|]; [|done].
  destruct (access_of _ _ _ _ _ _) as [a|] eqn:Ea; [|done].
  by apply access_of_allowed, (Hh r a eq_refl) in Ea.
Qed.

Lemma readable_live_hidden env p i s :
  hidden env p i s →
  readable_live retention settings operators d env p i s = (Err A2aError.TaskNotFound, s).
Proof. intros Hh. unfold readable_live. by rewrite readable_hidden. Qed.

Lemma subscribe_hidden env p i params f a2ui s :
  hidden env p i s → opt_str params §"id" §"id" = Some i →
  op_subscribe retention settings operators d build env p params f a2ui s = (Err A2aError.TaskNotFound, s).
Proof. intros Hh Hi. unfold op_subscribe. by rewrite Hi, readable_live_hidden. Qed.
Lemma get_hidden env p i params a2ui s :
  hidden env p i s → opt_str params §"id" §"id" = Some i →
  op_get retention settings operators d build env p params a2ui s = (Err A2aError.TaskNotFound, s).
Proof. intros Hh Hi. unfold op_get. by rewrite Hi, readable_live_hidden. Qed.
Lemma cancel_hidden env p i params s :
  hidden env p i s → opt_str params §"id" §"id" = Some i →
  op_cancel retention operators d env p params s = (A2aError.TaskNotFound, s).
Proof. intros Hh Hi. unfold op_cancel. by rewrite Hi, readable_hidden. Qed.

(** A message that names the task. *)
Lemma send_hidden env p i params a2ui s inc :
  hidden env p i s → parse_send b64_decode action_for params a2ui = Ok inc → inc_task_id inc = Some i →
  op_send retention operators d config b64_decode action_for build env p params a2ui s
    = (Err A2aError.TaskNotFound, s)
  ∧ ∀ f, op_stream retention operators d config b64_decode action_for build env p params f a2ui s
    = (Err A2aError.TaskNotFound, s).
Proof.
  intros Hh Hp Hi. unfold op_send, op_stream. rewrite Hp, Hi.
  unfold refuse_continuation. by rewrite readable_hidden.
Qed.

Lemma readable_ok env p i s r a s' :
  readable retention operators d env p i s = (Ok (r, a), s') →
  get retention (io_read (ae_io env)) i (store (ms_tasks s)) = Some r
  ∧ allowed p i r (buffer (sinks (hs_world (ms_http s)))) a
  ∧ is_denied d p = false ∧ s' = s.
Proof.
  unfold readable. destruct (is_empty i || _); [done|]. destruct (get _ _ _ _) as [r0|]; [|done].
  destruct (access_of _ _ _ _ _ _) as [a0|] eqn:Ea; [|done].
  unfold deny_if_revoked. destruct (is_denied d p); [by unfold deny|].
  intros [= -> -> <-]. apply access_of_allowed in Ea. split_and!; try done. by destruct s as [[] ?].
Qed.

Lemma readable_live_stranger env p i s r a s' :
  readable retention operators d env p i s = (Ok (r, a), s') → a ≠ Owner →
  ms_tasks (readable_live retention settings operators d env p i s).2 = ms_tasks s.
Proof.
  intros Hr Ha. unfold readable_live. rewrite Hr. apply readable_ok in Hr as (_ & _ & _ & ->).
  by destruct a.
Qed.
End AccessFacts.

(** The calls of the HTTP+JSON binding that name a task. *)
Inductive rest_names `{SerdeJson, Jwt} (b64_decode : str → option str)
    (action_for : str → Value → option GeAction) (env : A2aEnv) (i : str) : RestCall → Prop :=
  | NamesGet j :
      strip_suffix §":subscribe" j = None → opt_str (id_params j) §"id" §"id" = Some i →
      rest_names b64_decode action_for env i (RestTaskGet j)
  | NamesGetSubscribe j k :
      strip_suffix §":subscribe" j = Some k → opt_str (id_params k) §"id" §"id" = Some i →
      rest_names b64_decode action_for env i (RestTaskGet j)
  | NamesCancel j k :
      strip_suffix §":cancel" j = Some k → opt_str (id_params k) §"id" §"id" = Some i →
      rest_names b64_decode action_for env i (RestTaskPost j)
  | NamesPostSubscribe j k :
      strip_suffix §":cancel" j = None → strip_suffix §":subscribe" j = Some k →
      opt_str (id_params k) §"id" §"id" = Some i → rest_names b64_decode action_for env i (RestTaskPost j)
  | NamesMessage c body params inc :
      c ∈ [RestSend; RestStream] → ae_body env = Some body → rest_body body = Ok params →
      parse_send b64_decode action_for params (activates_a2ui_headers env) = Ok inc →
      inc_task_id inc = Some i → rest_names b64_decode action_for env i c.

(** C16: Who may see an A2A task.  A task the caller may not use (another
    person's, not as a named operator; or one without an owner whose trace is
    not visible to the caller) is answered exactly as a task that does not
    exist, in the form of the version, by every method that names a task: get,
    cancel and subscribe over JSON-RPC 0.3, 1.0 and HTTP+JSON, and a message that
    continues it over 1.0 and HTTP+JSON (a 0.3 message is never taken to continue
    one); and nothing changes, so ids cannot be probed.  Where a task
    is read, it is the stored one, by one of the three rules and by a caller who
    is not revoked, and anyone but its owner leaves the task and its runner
    alone. *)
Theorem task_access_sound {W S : Type} `{Backend S} `{SerdeJson, Jwt, UrlParse, SerdeA2ui, Crypto}
    debug_set env_var retention settings operators (d : Dispatcher W) config b64_decode action_for build
    negotiated env p i (s : McpState W S) :
  hidden retention operators d env p i s →
  let v03 := jsonrpc_v03 debug_set env_var retention settings operators d config b64_decode action_for build
               negotiated env p in
  let v10 := jsonrpc_v10 retention settings operators d config b64_decode action_for build env p in
  (∀ req a2ui, get_str §"id" (rq_params req) = Some i → rq_method req ∈ [§"tasks/get"; §"tasks/cancel"] →
     v03 req a2ui s = (rpc_error_v03 (rq_id req) A2aError.TaskNotFound, s))
  ∧ (∀ req a2ui, opt_str (rq_params req) §"id" §"id" = Some i → rq_method req = §"tasks/resubscribe" →
     v03 req a2ui s = (error_stream (rpc_body (rq_id req) §"error" (body_v03 A2aError.TaskNotFound)), s))
  ∧ (∀ rid params a2ui m, opt_str params §"id" §"id" = Some i →
     m ∈ [§"GetTask"; §"CancelTask"; §"SubscribeToTask"] →
     v10 rid m params a2ui s = (rpc_error_v10 rid A2aError.TaskNotFound, s))
  ∧ (∀ rid params a2ui m inc, m ∈ [§"SendMessage"; §"SendStreamingMessage"] →
     parse_send b64_decode action_for params a2ui = Ok inc → inc_task_id inc = Some i →
     v10 rid m params a2ui s = (rpc_error_v10 rid A2aError.TaskNotFound, s))
  ∧ (∀ call, rest_names b64_decode action_for env i call →
     rest_call retention settings operators d config b64_decode action_for build env call p s
     = (rest_error A2aError.TaskNotFound, s))
  ∧ (∀ p i s r a s', readable retention operators d env p i s = (Ok (r, a), s') →
     get retention (io_read (ae_io env)) i (store (ms_tasks s)) = Some r
     ∧ allowed operators d p i r (buffer (sinks (hs_world (ms_http s)))) a
     ∧ is_denied d p = false
     ∧ (a ≠ Owner →
        ms_tasks (readable_live retention settings operators d env p i s).2 = ms_tasks s)).
Proof.
  intros Hh v03 v10. subst v03 v10. split_and!.
  - intros req a2ui Hi Hm. unfold jsonrpc_v03. repeat apply elem_of_cons in Hm as [->|Hm].
    + repeat (rewrite decide_False by done). rewrite decide_True by done.
      unfold tasks_get. by rewrite Hi, readable_live_hidden.
    + repeat (rewrite decide_False by done). rewrite decide_True by done.
      unfold tasks_cancel. by rewrite Hi, readable_hidden.
    + by apply not_elem_of_nil in Hm.
  - intros req a2ui Hi Hm. unfold jsonrpc_v03. rewrite Hm. repeat (rewrite decide_False by done).
    rewrite decide_True by done. unfold tasks_resubscribe. by erewrite subscribe_hidden.
  - intros rid params a2ui m Hi Hm. repeat apply elem_of_cons in Hm as [->|Hm].
    + unfold jsonrpc_v10. cbn [decide_rel]. repeat (rewrite decide_False by done).
      rewrite decide_True by done. by erewrite get_hidden.
    + unfold jsonrpc_v10. repeat (rewrite decide_False by done).
      rewrite decide_True by done. by erewrite cancel_hidden.
    + unfold jsonrpc_v10. repeat (rewrite decide_False by done).
      rewrite decide_True by done. by erewrite subscribe_hidden.
    + by apply not_elem_of_nil in Hm.
  - intros rid params a2ui m inc Hm Hp Hi. pose proof (send_hidden retention operators d config
      b64_decode action_for build env p i params a2ui s inc Hh Hp Hi) as [Hs1 Hs2].
    repeat apply elem_of_cons in Hm as [->|Hm].
    + unfold jsonrpc_v10. rewrite decide_True by done. by rewrite Hs1.
    + unfold jsonrpc_v10. repeat (rewrite decide_False by done).
      rewrite decide_True by done. by rewrite Hs2.
    + by apply not_elem_of_nil in Hm.
  - intros call Hc. destruct Hc as [j Hj Hi|j k Hj Hi|j k Hj Hi|j k Hj Hk Hi|c body params inc Hc Hb Hp Ha Hi];
      unfold rest_call.
    + rewrite Hj. by erewrite get_hidden.
    + rewrite Hj. unfold rest_subscribe. by erewrite subscribe_hidden.
    + rewrite Hj. by erewrite cancel_hidden.
    + rewrite Hj, Hk. unfold rest_subscribe. by erewrite subscribe_hidden.
    + destruct (send_hidden retention operators d config b64_decode action_for build env p i params _ s inc
        Hh Ha Hi) as [Hs1 Hs2]. unfold with_body.
      repeat apply elem_of_cons in Hc as [->|Hc]; [| |by apply not_elem_of_nil in Hc]; rewrite Hb, Hp;
        [by rewrite Hs1|by rewrite Hs2].
  - clear. intros p i s r a s' Hr. pose proof Hr as Hr'. apply readable_ok in Hr as (Hg & Ha & Hd & _).
    split_and!; try done. intros Hne. by eapply readable_live_stranger.
Qed.

(** ** The route [message:send] *)

Section MessageFacts.
Context {W S : Type} `{BackendLaws S} `{SerdeJson, Jwt, UrlParse, SerdeA2ui}.
Variable iter : gmap str HdCacheEntry → list (str * HdCacheEntry).
Variable token_hash : str → str.
Variable dev : bool.
Variable dbg : gset str → str.
Variable cell : HttpHosts.
Variable retention : Z.
Variable d : Dispatcher W.
Variable parse_inbound : str → result InboundMessage str.
Implicit Types s : McpState W S.

(** How the caller sees the turn end. *)
Definition turn_succeeded (when tool : str) (opened at_drop : Z)
    (x : MessageReply (W := W) * McpState W S) : bool :=
  match x.1 with
  | MsgJson r => bool_decide (HttpIdentity.status r = 200%Z)
  | MsgSse p ev => is_success (classify
      (consume d when tool §"a2a" p opened at_drop ev (hs_world (ms_http x.2))).1)
  end.

Lemma http_status_not_ok e : http_status e ≠ 200%Z.
Proof using Type.
  unfold http_status. destruct e; try done; repeat case_match; done.
Qed.

Lemma record_state_reads io trace st now s :
  b_wf (store (ms_tasks s)) → io_fails io = None → (io_prune io - retention ≤ io_write io)%Z →
  (now - retention ≤ io_write io)%Z →
  state_of retention now trace (store (ms_tasks (record_state retention io trace st s))) = Some st.
Proof using Type.
  intros Hwf Hf Hp Hn. unfold record_state, record_entry, state_of. cbn [ms_tasks store].
  set (r0 := default _ _). set (r := set_updated (io_write io) (set_entry st None None r0)).
  assert (Tasks.id r = trace) as Hid.
  { subst r r0. cbn. unfold get. destruct (b_get trace (store (ms_tasks s))) as [x|] eqn:E; [|done].
    apply wf_id in E; [|done]. by destruct (live _ _ _). }
  unfold get, put. rewrite <- Hid, Hf. rewrite put_get; [|done|done|apply put_accepts].
  unfold live. assert ((now - retention <=? updated_ms r)%Z = true) as -> by (apply Z.leb_le; done).
  done.
Qed.

(** The state of one turn, recorded once. *)
Lemma send_part_facts env io parts p requested part s when opened at_drop io' :
  let x := send_part dbg cell retention d env io parts p requested part s in
  let s' := after_message retention d when (id_tool part) opened at_drop io' x in
  one_line (hs_world (ms_http s)) (hs_world (ms_http s')) (line_for (id_tool part) §"a2a" p)
  ∧ ∃ io0, (io0 = io ∨ io0 = io')
    ∧ ms_tasks s' = ms_tasks (record_state retention io0 (trace_id p)
        (if turn_succeeded when (id_tool part) opened at_drop x then TaskState.Completed
         else TaskState.Failed) s).
Proof using Type.
  cbv zeta. unfold send_part. destruct (wants_sse parts).
  - pose proof (invoke_streaming_line dbg (wrap_a2ui cell) d (he_clock env) (id_tool part) (id_args part) p
      §"a2a" requested no_overrides (hs_world (ms_http s)) when opened at_drop) as Hl. cbv zeta in Hl.
    destruct (invoke_streaming_with _ _ _ _ _ _ _ _ _ _ _) as [[ev|e] w]; cbn [settled_world fst snd] in Hl.
    + unfold after_message, turn_succeeded, settled_world in *. cbn [fst snd ms_http put_world hs_world] in *.
      destruct (consume d when (id_tool part) §"a2a" p opened at_drop ev w) as [out w'] eqn:Ec.
      rewrite finalizer_fires_exactly_once. cbn [fold_left]. split.
      * eapply one_line_impl; [|exact Hl]. by intros l [? _].
      * exists io'. split; [by right|]. rewrite <- list_fmap_compose.
        change (snd ∘ λ q, (at_drop, q)) with (λ q : Poll, q). rewrite list_fmap_id. done.
    + split; [eapply one_line_impl; [|exact Hl]; by intros l [? _]|].
      exists io. split; [by left|]. cbn. rewrite bool_decide_eq_false_2 by apply http_status_not_ok. done.
  - pose proof (invoke_with_line dbg d (he_clock env) (id_tool part) (id_args part) p §"a2a" no_overrides
      (hs_world (ms_http s))) as Hl. unfold invoke.
    destruct (invoke_with _ _ _ _ _ _ _ _ _) as [[x|e] w]; cbn [fst snd] in Hl.
    + destruct (wrap_a2ui_if_requested cell requested x) as [x'|e].
      * split; [eapply one_line_impl; [|exact Hl]; by intros l [? _]|]. exists io. by split; [left|].
      * split; [eapply one_line_impl; [|exact Hl]; by intros l [? _]|].
        exists io. split; [by left|]. cbn. rewrite bool_decide_eq_false_2 by apply http_status_not_ok. done.
    + split; [eapply one_line_impl; [|exact Hl]; by intros l [? _]|].
      exists io. split; [by left|]. cbn. rewrite bool_decide_eq_false_2 by apply http_status_not_ok. done.
Qed.
End MessageFacts.

(** A write that is accepted, of a record still within retention at [now]. *)
Definition io_good (retention now : Z) (io : StoreIo) : Prop :=
  io_fails io = None ∧ (io_prune io - retention ≤ io_write io)%Z ∧ (now - retention ≤ io_write io)%Z.

(** C18: The Triton-shaped [message:send].  A well-formed message of a verified
    caller, asked for as a whole or as an event stream, leaves exactly one
    dispatch line in the caller's name, and the task store, where it accepts the
    write and until retention ends, then answers for its trace id with the
    outcome the caller saw: completed after a 200 or a stream
    that ended in [done], failed after an error reply, an error event, or a
    stream that broke off. *)
Theorem message_send_recorded {W S : Type} `{BackendLaws S} `{SerdeJson, Jwt, UrlParse, SerdeA2ui}
    iter token_hash dev dbg cell retention (d : Dispatcher W) parse_inbound env io io' parts body
    (s : McpState W S) p msg requested part rest when opened at_drop now :
  verified iter token_hash dev env parts (ms_http s) p →
  parse_inbound body = Ok msg → parse_a2ui_version (im_metadata msg) = Ok requested →
  im_parts msg = part :: rest →
  b_wf (store (ms_tasks s)) → io_good retention now io → io_good retention now io' →
  let x := a2a_message_send iter token_hash dev dbg cell retention d parse_inbound env io parts body s in
  let s' := after_message retention d when (id_tool part) opened at_drop io' x in
  one_line (hs_world (ms_http s)) (hs_world (ms_http s')) (line_for (id_tool part) §"a2a" p)
  ∧ state_of retention now (trace_id p) (store (ms_tasks s'))
    = Some (if turn_succeeded d when (id_tool part) opened at_drop x
            then TaskState.Completed else TaskState.Failed).
Proof.
  intros Hv Hb Hm Hp Hwf Hio Hio' x s'. subst x s'. unfold a2a_message_send. unfold verified in Hv.
  destruct (identity_verify _ _ _ _ _ _) as [r prov]. cbn [fst] in Hv. subst r.
  rewrite Hb, Hm, Hp.
  pose proof (send_part_facts dbg cell retention d env io parts p requested part
    (Build_McpState (Build_HttpState (hs_world (ms_http s)) prov) (ms_tasks s)) when opened at_drop io')
    as [Hl (io0 & Hio0 & Ht)].
  split; [exact Hl|]. rewrite Ht.
  assert (io_good retention now io0) as (Hf & Hpr & Hn) by (by destruct Hio0 as [->| ->]).
  by apply record_state_reads.
Qed.

(** ** Instances *)

#[local] Existing Instance demo_json.
#[local] Existing Instance demo_jwt.
#[local] Existing Instance sample_url.
#[local] Existing Instance sample_serde.

Definition demo_state : McpState nat Memory :=
  Build_McpState demo_http (Build_Process ∅ (memory_put demo_task Memory_default) []).
Definition demo_message : InboundMessage :=
  {| im_parts := [{| id_tool := §"echo"; id_args := Value.Null |}]; im_metadata := None |}.

Lemma message_send_recorded_witness :
  let x := a2a_message_send map_to_list demo_hash true no_debug None 1000000 demo_echo
             (λ _, Ok demo_message) demo_http_env (plain_io 1001) demo_parts [] demo_state in
  let s' := after_message 1000000 demo_echo [] §"echo" 0 0 (plain_io 1001) x in
  one_line (hs_world demo_http) (hs_world (ms_http s')) (line_for §"echo" §"a2a" demo_alice)
  ∧ state_of 1000000 1002 (trace_id demo_alice) (store (ms_tasks s')) = Some TaskState.Completed.
Proof.
  destruct (message_send_recorded map_to_list demo_hash true no_debug None 1000000 demo_echo
    (λ _, Ok demo_message) demo_http_env (plain_io 1001) (plain_io 1001) demo_parts [] demo_state
    demo_alice demo_message None {| id_tool := §"echo"; id_args := Value.Null |} [] [] 0 0 1002)
    as [Hl Hs].
  - vm_compute. reflexivity.
  - reflexivity.
  - reflexivity.
  - reflexivity.
  - change (b_wf (b_put None 0 demo_task Memory_default).2). apply put_wf.
    split; [cbn; lia|apply map_Forall_empty].
  - split_and!; [reflexivity|cbn; lia|cbn; lia].
  - split_and!; [reflexivity|cbn; lia|cbn; lia].
  - split; [exact Hl|]. etransitivity; [exact Hs|]. vm_compute. reflexivity.
Defined.

Definition demo_a2a_env : A2aEnv :=
  {| ae_http := demo_http_env; ae_parts := demo_parts; ae_version := None; ae_x_extensions := None;
     ae_extensions := None; ae_query := []; ae_body := Some []; ae_now := 1001; ae_io := plain_io 1001;
     ae_reread := 1001; ae_rx := []; ae_ending := Stopped; ae_after := None; ae_context_id := §"c";
     ae_message_id := §"m"; ae_artifact := §"x"; ae_a2ui_artifact := §"y"; ae_messages n := §"z" |}.

(** The task of somebody else, asked for and cancelled. *)
Lemma task_access_sound_witness :
  let config := {| sc_name := []; sc_description := []; sc_version := []; public_url := []; a2a_path := [];
                   default_tool := []; sc_skills := None |} in
  jsonrpc_v03 (H1 := demo_jwt) no_debug (λ _, None) 1000000 short_settings ∅ demo_echo config (λ _, None)
    (λ _ _, None) (λ _, None) (λ _ _, None) demo_a2a_env demo_alice
    {| rq_jsonrpc := Some §"2.0"; rq_id := Value.Null; rq_method := §"tasks/get";
       rq_params := id_params §"a" |} false demo_state
  = (rpc_error_v03 Value.Null A2aError.TaskNotFound, demo_state)
  ∧ rest_call (H4 := page_crypto) 1000000 short_settings ∅ demo_echo config (λ _, None) (λ _ _, None) (λ _, None)
      demo_a2a_env (RestTaskPost §"a:cancel") demo_alice demo_state
    = (rest_error A2aError.TaskNotFound, demo_state).
Proof.
  cbv zeta.
  destruct (task_access_sound (H4 := page_crypto) no_debug (λ _, None) 1000000 short_settings ∅ demo_echo
    {| sc_name := []; sc_description := []; sc_version := []; public_url := []; a2a_path := [];
       default_tool := []; sc_skills := None |} (λ _, None) (λ _ _, None) (λ _, None) (λ _ _, None)
    demo_a2a_env demo_alice §"a" demo_state) as (Hg & _ & _ & _ & Hr & _).
  - intros r a Hr Ha. assert (r = demo_task) as -> by (vm_compute in Hr; injection Hr as <-; reflexivity).
    destruct Ha as [Ho|o Ho Hn|Ho _]; vm_compute in *; congruence.
  - split.
    + apply (Hg {| rq_jsonrpc := Some §"2.0"; rq_id := Value.Null; rq_method := §"tasks/get";
                   rq_params := id_params §"a" |} false); [reflexivity|apply elem_of_cons; by left].
    + apply Hr. by apply (NamesCancel _ _ _ _ _ §"a").
Defined.

(** The caller of the JSON-RPC endpoint whose body is not a request leaves no
    line at all, while the Triton-shaped route records the rejection. *)
Lemma malformed_rpc_unaudited :
  let r := jsonrpc (H4 := page_crypto) map_to_list demo_hash true no_debug (λ _, None) 1000000
             short_settings ∅ demo_echo
             {| sc_name := []; sc_description := []; sc_version := []; public_url := []; a2a_path := [];
                default_tool := []; sc_skills := None |}
             false (λ _, None) (λ _ _, None) (λ _, None) (λ _ _, None) (λ _, Err []) demo_a2a_env demo_state in
  length (stdout (sinks (hs_world (ms_http r.2)))) = 0
  ∧ length (stdout (sinks (hs_world (ms_http (a2a_message_send map_to_list demo_hash true no_debug None
      1000000 demo_echo (λ _, Err []) demo_http_env (plain_io 1001) demo_parts [] demo_state).2)))) = 1.
Proof. split; vm_compute; reflexivity. Qed.
