(* ===== verification/Outbound.v ===== *)
(** * Outbound: agent-initiated sends
    (crates/triton-core/src/outbound.rs, crates/triton-adapters-http/src/outbound.rs)

    [OutboundCourier] is the trait a chat adapter implements; [outbound_send] is
    the endpoint in front of it, with its gates in order.  What an adapter
    promises the endpoint is [TenantBound]: a caller it authorises is of the
    tenant that owns the recipient.  The adapters' files discharge it. *)

From Stdlib Require Import SpecFloat.
From S2P Require Import Prelude Json Errors Principal RateLimit Context AuditLog Dispatcher.
From S2P Require Import Oidc GoogleToken HttpIdentity Rest.

Record OutboundRequest := {
  req_to : str;
  req_result : Value;
  req_category : option str;
  req_variables : list str;
  req_reference : option Value;
}.

(** The trait, over the world its adapter acts on. *)
Record OutboundCourier (W : Type) := {
  courier_protocol : str;
  courier_authorize : OutboundRequest → Principal → World W → result unit TritonError * World W;
  courier_deliver : OutboundRequest → Principal → World W → result unit TritonError * World W;
}.
Arguments courier_protocol {W} _.
Arguments courier_authorize {W} _ _ _ _.
Arguments courier_deliver {W} _ _ _ _.

(** What the endpoint relies on.  [owner] is the tenant a request's recipient
    belongs to, as the adapter knows it. *)
Class TenantBound {W} (c : OutboundCourier W) (owner : OutboundRequest → option str) := {
  authorized_owner req p w w1 :
    courier_authorize c req p w = (Ok (), w1) → owner req = Some (tenant p);
  authorize_reaches_nothing req p w :
    outside (courier_authorize c req p w).2 = outside w;
}.

Definition REQUIRED_OUTBOUND_SCOPE : str := §"outbound:send".

Record OutboundState (W : Type) `{Jwt} := {
  ob_world : World W;
  ob_identity : IdentityProvider;
  ob_rate_limit : TokenBucket spec_float;
  ob_per_tenant_limit : PerTenantBuckets spec_float;
}.
Arguments ob_world {W _} _.
Arguments ob_identity {W _} _.
Arguments ob_rate_limit {W _} _.
Arguments ob_per_tenant_limit {W _} _.
Arguments Build_OutboundState {W _} _ _ _ _.

(** The body, as its deserializer yields it. *)
Record OutboundBody := {
  ob_adapter : str;
  ob_to : str;
  ob_result : Value;
  ob_category : option str;
  ob_variables : list str;
  ob_reference : option Value;
}.

(** An answer, with the seconds of its [Retry-After] header. *)
Record OutboundReply := { reply : Reply; retry_after : option Z }.
Definition answer (r : Reply) : OutboundReply := {| reply := r; retry_after := None |}.

(** What one request reads besides the HTTP environment: the clock of either
    limiter. *)
Record OutboundEnv `{Jwt} := {
  oe_http : HttpEnv;
  oe_rate_now : Z;
  oe_tenant_now : Readings;
}.

Section Endpoint.
Context {W : Type} `{SerdeJson, Jwt}.
Variable iter : gmap str HdCacheEntry → list (str * HdCacheEntry).
Variable token_hash : str → str.
Variable dev_feature : bool.
(** The iteration order of the per-tenant map. *)
Variable bucket_iter : gmap str (Tracked spec_float) → list (str * Tracked spec_float).
Variable d : Dispatcher W.
Variable couriers : gmap str (OutboundCourier W).
Implicit Types (s : OutboundState W) (p : Principal).

Definition set_ob_world (w : World W) s : OutboundState W :=
  Build_OutboundState w (ob_identity s) (ob_rate_limit s) (ob_per_tenant_limit s).

Definition reject_outbound (env : OutboundEnv) (sub tenant trace : str) (e : TritonError) s
    : OutboundState W :=
  set_ob_world (record_rejection d (he_when (oe_http env)) (he_now (oe_http env)) §"v1/outbound"
                  §"rest" sub tenant trace e (ob_world s)) s.

(** A refusal of a caller who is known. *)
Definition refuse_caller (env : OutboundEnv) p (e : TritonError) s
    : OutboundReply * OutboundState W :=
  (answer (error_response e (Some (trace_id p))),
   reject_outbound env (sub p) (tenant p) (trace_id p) e s).

Definition rate_limited (env : OutboundEnv) p (retry : RetryAfter spec_float) s
    : OutboundReply * OutboundState W :=
  let secs := retry_secs retry in
  let e := RateLimited (§"outbound rate limit for tenant `" ++ tenant p ++ §"`; retry in "
                          ++ dec secs ++ §"s") in
  ({| reply := plain_reply 429 (json_object [(§"error", Value.String §"ratelimit");
                                             (§"message", Value.String (to_string e))]);
      retry_after := Some secs |},
   reject_outbound env (sub p) (tenant p) (trace_id p) e s).

Definition request_of (body : OutboundBody) : OutboundRequest :=
  {| req_to := ob_to body; req_result := ob_result body; req_category := ob_category body;
     req_variables := ob_variables body; req_reference := ob_reference body |}.

(** Steps 4 to 6: the adapter, its own check, the delivery. *)
Definition send_through (env : OutboundEnv) p (body : OutboundBody) s
    : OutboundReply * OutboundState W :=
  match couriers !! ob_adapter body with
  | None =>
      (answer (plain_reply 404 (json_object [(§"error", Value.String §"not_found");
         (§"message", Value.String (§"no outbound adapter `" ++ ob_adapter body
                                      ++ §"` configured"))])), s)
  | Some c =>
      let '(r, w) := courier_authorize c (request_of body) p (ob_world s) in
      let s := set_ob_world w s in
      match r with
      | Err e => refuse_caller env p e s
      | Ok _ =>
          let '(r, w) := courier_deliver c (request_of body) p (ob_world s) in
          (answer match r with
                  | Ok _ => plain_reply 202 (json_object [(§"trace_id", Value.String (trace_id p))])
                  | Err e => error_response e (Some (trace_id p))
                  end, set_ob_world w s)
      end
  end.

Definition outbound_send (env : OutboundEnv) (parts : Parts) (body : OutboundBody) s
    : OutboundReply * OutboundState W :=
  let '(r, prov) := identity_verify iter token_hash dev_feature (he_identity (oe_http env)) parts
                      (ob_identity s) in
  let s := Build_OutboundState (ob_world s) prov (ob_rate_limit s) (ob_per_tenant_limit s) in
  match r with
  | Err e =>
      (answer (tag_rejection (scope_challenge prov) e (error_response e None)),
       reject_outbound env §"-" §"-" (he_uuid (oe_http env)) e s)
  | Ok p =>
      let '(r, w) := deny_if_revoked d (he_clock (oe_http env)) p §"v1/outbound" §"rest"
                       (ob_world s) in
      let s := set_ob_world w s in
      match r with
      | Err e => (answer (error_response e (Some (trace_id p))), s)
      | Ok _ =>
          if negb (bool_decide (REQUIRED_OUTBOUND_SCOPE ∈ scopes p)) then
            refuse_caller env p
              (Forbidden (§"outbound send requires the `" ++ REQUIRED_OUTBOUND_SCOPE
                            ++ §"` scope")) s
          else
            let '(r, b) := try_take (oe_rate_now env) (ob_rate_limit s) in
            let s := Build_OutboundState (ob_world s) (ob_identity s) b (ob_per_tenant_limit s) in
            match r with
            | Err retry => rate_limited env p retry s
            | Ok _ =>
                let '(r, m) := tenant_try_take bucket_iter (oe_tenant_now env) (tenant p)
                                 (ob_per_tenant_limit s) in
                let s := Build_OutboundState (ob_world s) (ob_identity s) (ob_rate_limit s) m in
                match r with
                | Err retry => rate_limited env p retry s
                | Ok _ => send_through env p body s
                end
            end
      end
  end.
End Endpoint.

(** ** What reaches a courier *)

Section EndpointFacts.
Context {W : Type} `{SerdeJson, Jwt}.
Variable iter : gmap str HdCacheEntry → list (str * HdCacheEntry).
Variable token_hash : str → str.
Variable dev : bool.
Variable bucket_iter : gmap str (Tracked spec_float) → list (str * Tracked spec_float).
Variable d : Dispatcher W.
Variable couriers : gmap str (OutboundCourier W).
Variable env : OutboundEnv.
Implicit Types (s : OutboundState W) (p : Principal) (w : World W).

(** [w'] is [w] after one refusal: counted, and nothing beyond the audit
    record touched. *)
Definition one_refusal w w' : Prop :=
  outside w' = outside w
  ∧ (audit_total (metrics w') = bump §"rejected" (audit_total (metrics w))
     ∨ one_line w w' (λ l, au_result l = §"error:forbidden" ∧ AuditLog.status l = 403%Z)).

(** Every check between the request and the courier, in the order they run. *)
Definition passed_gates (parts : Parts) s p : Prop :=
  (identity_verify iter token_hash dev (he_identity (oe_http env)) parts (ob_identity s)).1 = Ok p
  ∧ is_denied d p = false
  ∧ REQUIRED_OUTBOUND_SCOPE ∈ scopes p
  ∧ (try_take (oe_rate_now env) (ob_rate_limit s)).1 = Ok ()
  ∧ (tenant_try_take bucket_iter (oe_tenant_now env) (tenant p) (ob_per_tenant_limit s)).1 = Ok ().

Inductive Fate (parts : Parts) (body : OutboundBody) s (x : OutboundReply * OutboundState W) : Prop :=
  (** turned away at a gate *)
  | Refused :
      (400 ≤ HttpIdentity.status (reply x.1))%Z → one_refusal (ob_world s) (ob_world x.2) →
      Fate parts body s x
  (** nobody answers for the adapter it names *)
  | NoAdapter p :
      passed_gates parts s p → couriers !! ob_adapter body = None →
      HttpIdentity.status (reply x.1) = 404%Z → ob_world x.2 = ob_world s → Fate parts body s x
  (** the adapter refuses the recipient *)
  | Unauthorized p c e w :
      passed_gates parts s p → couriers !! ob_adapter body = Some c →
      courier_authorize c (request_of body) p (ob_world s) = (Err e, w) →
      HttpIdentity.status (reply x.1) = http_status e → one_refusal w (ob_world x.2) →
      Fate parts body s x
  (** handed over: exactly one delivery, answered 202 if it succeeded *)
  | HandedOver p c w r :
      passed_gates parts s p → couriers !! ob_adapter body = Some c →
      courier_authorize c (request_of body) p (ob_world s) = (Ok (), w) →
      courier_deliver c (request_of body) p w = (r, ob_world x.2) →
      HttpIdentity.status (reply x.1) = match r with Ok _ => 202%Z | Err e => http_status e end →
      Fate parts body s x.

Lemma rejection_refusal s sb tn tr e :
  one_refusal (ob_world s) (ob_world (reject_outbound d env sb tn tr e s)).
Proof using Type.
  split; [|left]; unfold reject_outbound, record_rejection; cbn; by repeat case_match.
Qed.

Lemma tagged_status ch e r : HttpIdentity.status (tag_rejection ch e r) = HttpIdentity.status r.
Proof using Type. unfold tag_rejection. by destruct e, ch. Qed.

Lemma send_through_fate parts body s s0 p :
  passed_gates parts s0 p → ob_world s = ob_world s0 →
  Fate parts body s0 (send_through d couriers env p body s).
Proof using Type.
  intros Hg Hw. unfold send_through. destruct (couriers !! ob_adapter body) as [c|] eqn:Hc.
  2: { by eapply NoAdapter. }
  destruct (courier_authorize c (request_of body) p (ob_world s)) as [[[]|e] w] eqn:Ha;
    rewrite Hw in Ha.
  2: { eapply Unauthorized; [done..|]. apply (rejection_refusal (set_ob_world w s)). }
  cbn [ob_world set_ob_world].
  destruct (courier_deliver c (request_of body) p w) as [r w2] eqn:Hd.
  eapply HandedOver; [done..|]. by destruct r as [[]|e].
Qed.

Lemma outbound_send_fate parts body s :
  Fate parts body s
    (outbound_send iter token_hash dev bucket_iter d couriers env parts body s).
Proof using Type.
  unfold outbound_send.
  destruct (identity_verify _ _ _ _ _ _) as [[p|e] prov] eqn:Hv.
  2: { apply Refused; cbn [fst reply answer].
       - rewrite tagged_status. apply http_status_error.
       - apply (rejection_refusal (Build_OutboundState (ob_world s) prov _ _)). }
  unfold deny_if_revoked. destruct (is_denied d p) eqn:Hd.
  { apply Refused; [apply http_status_error|]. split; [done|right].
    eapply one_line_impl; [|apply fail_line]. cbn. by intros l [_ [-> ->]]. }
  cbn [ob_world set_ob_world ob_rate_limit ob_per_tenant_limit ob_identity].
  case_bool_decide as Hs; cbn [negb].
  2: { apply Refused; [apply http_status_error|].
       by apply (rejection_refusal (Build_OutboundState (ob_world s) prov _ _)). }
  destruct (try_take _ _) as [[[]|r] b] eqn:Ht.
  2: { apply Refused; [done|]. by apply (rejection_refusal (Build_OutboundState (ob_world s) prov b _)). }
  cbn [ob_world set_ob_world ob_rate_limit ob_per_tenant_limit ob_identity].
  destruct (tenant_try_take _ _ _ _) as [[[]|r] m] eqn:Hm.
  2: { apply Refused; [done|]. by apply (rejection_refusal (Build_OutboundState (ob_world s) prov b m)). }
  apply send_through_fate; [|done]. unfold passed_gates. by rewrite Hv, Ht, Hm.
Qed.
End EndpointFacts.

Lemma outbound_send_bound {W} `{SerdeJson, Jwt} iter token_hash dev bucket_iter
    (d : Dispatcher W) couriers owner env parts body s :
  (∀ name c, couriers !! name = Some c → TenantBound c (owner name)) →
  let x := outbound_send iter token_hash dev bucket_iter d couriers env parts body s in
  Fate iter token_hash dev bucket_iter d couriers env parts body s x
  ∧ (outside (ob_world x.2) ≠ outside (ob_world s) →
     ∃ p, passed_gates iter token_hash dev bucket_iter d env parts s p
        ∧ owner (ob_adapter body) (request_of body) = Some (tenant p))
  ∧ (HttpIdentity.status (reply x.1) = 202%Z →
     ∃ p, passed_gates iter token_hash dev bucket_iter d env parts s p
        ∧ owner (ob_adapter body) (request_of body) = Some (tenant p)).
Proof.
  intros Hb x.
  pose proof (outbound_send_fate iter token_hash dev bucket_iter d couriers env parts body s) as Hf.
  fold x in Hf. clearbody x. split; [done|].
  destruct Hf as [Hst [Ho _]|p Hg Hc Hst Hw|p c e w Hg Hc Ha Hst [Ho _]|p c w r Hg Hc Ha Hd Hst].
  - split; [done|lia].
  - rewrite Hw. split; [done|lia].
  - pose proof (@authorize_reaches_nothing _ _ _ (Hb _ _ Hc) (request_of body) p (ob_world s)) as Hr.
    rewrite Ha in Hr. cbn [snd] in Hr. split; [congruence|].
    pose proof (http_status_error e). lia.
  - pose proof (@authorized_owner _ _ _ (Hb _ _ Hc) _ _ _ _ Ha). split; eauto.
Qed.

(** C7: a message an agent asks for goes out only past every gate, and only
    within its own tenant.  Whatever the request, its fate is one of four: it
    is refused with at least 400, the refusal counted and nothing beyond the
    audit record touched; it names no adapter, 404 and nothing changes; the
    adapter refuses the recipient, which is recorded and reaches nothing; or
    exactly one delivery is made, for a caller who was verified, is not
    revoked, holds the send scope and took a token of both limiters, with the
    answer 202 exactly if the delivery succeeded, and, where the adapter keeps
    its promise, the recipient belongs to the caller's tenant. *)
Theorem outbound_send_gated {W} `{SerdeJson, Jwt} iter token_hash dev bucket_iter
    (d : Dispatcher W) couriers owner env parts body s :
  (∀ name c, couriers !! name = Some c → TenantBound c (owner name)) →
  let x := outbound_send iter token_hash dev bucket_iter d couriers env parts body s in
  Fate iter token_hash dev bucket_iter d couriers env parts body s x
  ∧ (outside (ob_world x.2) ≠ outside (ob_world s) →
     ∃ p, passed_gates iter token_hash dev bucket_iter d env parts s p
        ∧ owner (ob_adapter body) (request_of body) = Some (tenant p))
  ∧ (HttpIdentity.status (reply x.1) = 202%Z →
     ∃ p, passed_gates iter token_hash dev bucket_iter d env parts s p
        ∧ owner (ob_adapter body) (request_of body) = Some (tenant p)).
Proof. intros. by apply outbound_send_bound. Qed.

(** ** An instance *)

#[local] Existing Instance demo_json.
#[local] Existing Instance demo_jwt.

(** A courier for one recipient, of the tenant acme; a delivery adds one to the
    count outside. *)
Definition demo_courier : OutboundCourier nat :=
  {| courier_protocol := §"messenger:demo";
     courier_authorize req p w :=
       (if bool_decide (req_to req = §"42" ∧ tenant p = §"acme") then Ok ()
        else Err (Forbidden §"not your recipient"), w);
     courier_deliver _ _ w := (Ok (), set_outside (S (outside w)) w) |}.
Definition demo_owner (name : str) (req : OutboundRequest) : option str :=
  if decide (req_to req = §"42") then Some §"acme" else None.

Lemma demo_bound : TenantBound demo_courier (demo_owner §"demo").
Proof.
  split; [|done]. intros req p w w1. cbn. case_bool_decide as Hd; [|done]. intros _.
  destruct Hd as [Ht ->]. unfold demo_owner. by rewrite decide_True.
Qed.

Definition demo_outbound_env : OutboundEnv :=
  {| oe_http := demo_http_env; oe_rate_now := 0;
     oe_tenant_now := {| at_entry := 0; at_scan _ := 0%Z; at_create := 0; at_take := 0 |} |}.
Definition demo_outbound : OutboundState nat :=
  Build_OutboundState (World_new unenforced 0) demo_provider (TokenBucket_new 5 5 0)
    (PerTenantBuckets_new 1 1).
Definition demo_send (to : str) : OutboundBody :=
  {| ob_adapter := §"demo"; ob_to := to; ob_result := Value.Null; ob_category := None;
     ob_variables := []; ob_reference := None |}.
Definition demo_push (to : str) : OutboundReply * OutboundState nat :=
  outbound_send map_to_list demo_hash true map_to_list demo_echo {[ §"demo" := demo_courier ]}
    demo_outbound_env demo_parts (demo_send to) demo_outbound.

Lemma demo_pushed :
  HttpIdentity.status (reply (demo_push §"42").1) = 202%Z
  ∧ outside (ob_world (demo_push §"42").2) = 1
  ∧ HttpIdentity.status (reply (demo_push §"7").1) = 403%Z
  ∧ outside (ob_world (demo_push §"7").2) = 0.
Proof. vm_compute. done. Qed.

Lemma outbound_send_gated_witness :
  ∃ p, passed_gates map_to_list demo_hash true map_to_list demo_echo demo_outbound_env demo_parts
         demo_outbound p
       ∧ demo_owner §"demo" (request_of (demo_send §"42")) = Some (tenant p).
Proof.
  apply (outbound_send_gated map_to_list demo_hash true map_to_list demo_echo
    {[ §"demo" := demo_courier ]} demo_owner demo_outbound_env demo_parts (demo_send §"42")
    demo_outbound).
  - intros name c [<- <-]%lookup_singleton_Some. exact demo_bound.
  - exact (proj1 demo_pushed).
Defined.
