(* ===== verification/Twilio.v ===== *)
(** * Twilio: WhatsApp and RCS through Twilio (crates/triton-chat-twilio/src)

    [signature.rs], [surface_mapper.rs], [courier.rs] and the two adapters of
    [whatsapp.rs] and [rcs.rs], which differ in their labels, the prefix of an
    address, templates and delivery receipts: the shared text is stated once,
    for a [Channel].  The Messaging API is part of the world outside
    ([api]). *)

From Stdlib Require Import SpecFloat.
From S2P Require Import Prelude Json Errors Principal RateLimit Context AuditLog Dispatcher.
From S2P Require Import A2ui A2uiText ChatIdentity Manifest Chat Oidc GoogleToken HttpIdentity.
From S2P Require Import Rest Outbound.

(** ** Signatures *)

(** HMAC-SHA1 (key, message) and the standard base64 alphabet. *)
Class TwilioCrypto := {
  hmac_sha1 : str → str → str;
  b64_decode : str → option str;
}.

(** [sort_by_key]: stable. *)
Fixpoint insert_by_key (x : str * str) (l : list (str * str)) : list (str * str) :=
  match l with
  | [] => [x]
  | y :: l' => match str_compare x.1 y.1 with
               | Gt => y :: insert_by_key x l'
               | _ => x :: l
               end
  end.
Definition sort_by_key (l : list (str * str)) : list (str * str) := foldr insert_by_key [] l.

Definition signing_string (url : str) (params : list (str * str)) : str :=
  url ++ concat ((λ kv, kv.1 ++ kv.2) <$> sort_by_key params).

Definition verify `{TwilioCrypto} (url : str) (params : list (str * str))
    (auth_token presented : str) : bool :=
  match b64_decode presented with
  | None => false
  | Some presented_bytes =>
      let computed := hmac_sha1 auth_token (signing_string url params) in
      (length presented_bytes =? length computed)%nat && bool_decide (presented_bytes = computed)
  end.

(** ** The surface mapper *)

Definition TWILIO_TEXT_MAX_BYTES : nat := 1600.
Definition TRUNCATION_SENTINEL : str :=
  nl ++ nl ++ §"[truncated — content exceeded Twilio's 1600-byte limit]".

Record RenderedMessage := {
  tm_text : str;
  tm_deferred_buttons : nat;
  tm_deferred_selections : nat;
  tm_deferred_forms : nat;
  tm_deferred_dashboards : nat;
  tm_truncated : bool;
}.

Inductive RenderError := EmptyAfterRender.

(** The loop's variables. *)
Record Collected := {
  chunks : list str;
  n_buttons : nat;
  n_selections : nat;
  n_forms : nat;
  n_dashboards : nat;
}.
Definition nothing_collected : Collected :=
  {| chunks := []; n_buttons := 0; n_selections := 0; n_forms := 0; n_dashboards := 0 |}.
Definition push_chunk (t : str) (a : Collected) : Collected :=
  {| chunks := chunks a ++ [t]; n_buttons := n_buttons a; n_selections := n_selections a;
     n_forms := n_forms a; n_dashboards := n_dashboards a |}.
Definition defer (b s f d : nat) (a : Collected) : Collected :=
  {| chunks := chunks a; n_buttons := n_buttons a + b; n_selections := n_selections a + s;
     n_forms := n_forms a + f; n_dashboards := n_dashboards a + d |}.

Definition fence : str := §"```".

Section Mapper.
Context `{UrlParse, SerdeA2ui}.
Variable cell : HttpHosts.

Definition render_component (a : Collected) (c : Component) : Collected :=
  if is_conversation c then
    match degrade cell c with Some t => push_chunk t a | None => a end
  else
    match c with
    | Component.Text value _ => push_chunk value a
    | Component.Narration text => push_chunk (§"_" ++ text ++ §"_") a
    | Component.Sources items =>
        if is_empty items then a
        else push_chunk (§"Sources: " ++ join §" · " (s_label <$> items)) a
    | Component.Report _ _ _ _ _ => a
    | Component.Diff lines => push_chunk (fence ++ nl ++ diff_to_text lines ++ nl ++ fence) a
    | Component.Button _ _ _ _ _ _ => defer 1 0 0 0 a
    | Component.Selection _ _ _ _ _ _ => defer 0 1 0 0 a
    | Component.Form _ _ _ _ _ _ => defer 0 0 1 0 a
    | Component.Dashboard _ _ => defer 0 0 0 1 a
    | _ => a
    end.

(** The text under the limit, and whether it was cut. *)
Definition cap_text (text : str) : str * bool :=
  if (TWILIO_TEXT_MAX_BYTES <? length text)%nat then
    let budget := TWILIO_TEXT_MAX_BYTES - length TRUNCATION_SENTINEL in
    let cut := floor_char_boundary text (Nat.min budget (length text)) in
    (take cut text ++ TRUNCATION_SENTINEL, true)
  else (text, false).

Definition render (s : Surface) : result RenderedMessage RenderError :=
  let a := foldl render_component nothing_collected (components s) in
  let '(text, truncated) := cap_text (join (nl ++ nl) (chunks a)) in
  if is_empty text then Err EmptyAfterRender
  else Ok {| tm_text := text; tm_deferred_buttons := n_buttons a;
             tm_deferred_selections := n_selections a; tm_deferred_forms := n_forms a;
             tm_deferred_dashboards := n_dashboards a; tm_truncated := truncated |}.

Definition try_render_surface (res : Value) : option (result RenderedMessage RenderError) :=
  match extract_surface cell res with
  | Ok s => Some (render s)
  | Err _ => None
  end.

Definition render_dispatch_result `{SerdeJson} (res : Value) : result RenderedMessage RenderError :=
  match try_render_surface res with
  | Some r => r
  | None =>
      let text := bare_text res in
      if is_empty text then Err EmptyAfterRender
      else Ok {| tm_text := text; tm_deferred_buttons := 0; tm_deferred_selections := 0;
                 tm_deferred_forms := 0; tm_deferred_dashboards := 0; tm_truncated := false |}
  end.
End Mapper.

(** ** The courier *)

Inductive CourierError :=
  | Transport (m : str)
  | Application (http_status : Z) (label : PostLabel).

Definition courier_label (e : CourierError) : PostLabel :=
  match e with Transport _ => LRetry | Application _ label => label end.
Definition courier_http_status (e : CourierError) : Z :=
  match e with Transport _ => 0 | Application s _ => s end.
Definition courier_message (e : CourierError) : str :=
  match e with
  | Transport m => §"twilio courier transport: " ++ m
  | Application s label =>
      §"twilio courier application: http_status=" ++ dec s ++ §", label=" ++ post_label_str label
  end.

(** One POST to the Messaging API and its answer: an error's text or a
    status. *)
Record ApiRequest := {
  ar_url : str;
  ar_user : str;
  ar_password : str;
  ar_form : list (str * str);
}.
Inductive ApiReply := NoResponse (error : str) | Status (http_status : Z).

Definition classify_reply (auth_token : str) (r : ApiReply) : result SendOutcome CourierError :=
  match r with
  | NoResponse e => Err (Transport (redact §"<redacted>" e auth_token))
  | Status s =>
      if (200 <=? s)%Z && (s <? 300)%Z then Ok {| so_http_status := s; so_label := LPosted |}
      else Err (Application s (if (s =? 429)%Z || (500 <=? s)%Z then LRetry else LDropped))
  end.

(** ** The adapters *)

Record Channel := {
  ch_protocol : str;
  (** the kind's name, in messages *)
  ch_kind : str;
  (** of an address *)
  ch_prefix : str;
}.
Definition whatsapp : Channel :=
  {| ch_protocol := §"messenger:twilio_whatsapp"; ch_kind := §"twilio_whatsapp";
     ch_prefix := §"whatsapp:" |}.
Definition rcs : Channel :=
  {| ch_protocol := §"messenger:twilio_rcs"; ch_kind := §"twilio_rcs"; ch_prefix := §"rcs:" |}.

Definition OUTBOUND_TOOL : str := §"outbound".

(** The RCS adapter has neither status callbacks nor templates. *)
Record TwilioAdapter (W : Type) := {
  tw_name : str;
  tw_auth_token : str;
  tw_outbound_token : str;
  tw_account_sid : str;
  tw_public_url : str;
  tw_status_callback_public_url : option str;
  tw_from : str;
  tw_sender_table : SenderTable;
  tw_inbound_tool : str;
  tw_dispatcher : Dispatcher W;
  (** [CourierConfig::api_base] without the slashes at its end *)
  tw_base : str;
  tw_templates : list (TemplateCategory * TemplateDecl);
}.
Arguments tw_name {W} _.
Arguments tw_auth_token {W} _.
Arguments tw_outbound_token {W} _.
Arguments tw_account_sid {W} _.
Arguments tw_public_url {W} _.
Arguments tw_status_callback_public_url {W} _.
Arguments tw_from {W} _.
Arguments tw_sender_table {W} _.
Arguments tw_inbound_tool {W} _.
Arguments tw_dispatcher {W} _.
Arguments tw_base {W} _.
Arguments tw_templates {W} _.

Definition route_command (text default_tool : str) : str * Value :=
  let fallback := (default_tool, json_object [(§"message", Value.String text)]) in
  match strip_prefix §"/" text with
  | None => fallback
  | Some rest =>
      let '(tool, subject) := default (rest, []) (split_once " " rest) in
      if decide (tool = §"narrate")
      then (§"narrate", json_object [(§"subject", Value.String subject)])
      else if decide (tool = §"help") then (§"help", Value.Object [])
      else if decide (tool = §"feedback")
      then (§"feedback", json_object [(§"text", Value.String subject)])
      else fallback
  end.

(** [HashMap] of the pairs: the last one of a key counts. *)
Fixpoint param (k : str) (pairs : list (str * str)) : option str :=
  match pairs with
  | [] => None
  | (k', v) :: rest =>
      match param k rest with
      | Some v' => Some v'
      | None => if decide (k = k') then Some v else None
      end
  end.

Definition category_of_str (s : str) : option TemplateCategory :=
  if decide (s = §"utility") then Some Utility
  else if decide (s = §"marketing") then Some Marketing
  else if decide (s = §"authentication") then Some Authentication
  else None.
Definition template_for (c : TemplateCategory) (l : list (TemplateCategory * TemplateDecl))
    : option TemplateDecl :=
  snd <$> find (λ x, bool_decide (x.1 = c)) l.

(** Positions count from one. *)
Fixpoint numbered_from (i : Z) (vs : list str) : list (str * Value) :=
  match vs with
  | [] => []
  | v :: vs' => (dec i, Value.String v) :: numbered_from (i + 1) vs'
  end.

Section Handlers.
Context {W : Type} `{SerdeJson, UrlParse, SerdeA2ui, TwilioCrypto}.
Variable cell : HttpHosts.
Variable debug_set : gset str → str.
(** [serde_urlencoded::from_bytes] *)
Variable parse_form : str → option (list (str * str)).
(** The iteration order of the per-tenant map. *)
Variable iter : gmap str (Tracked spec_float) → list (str * Tracked spec_float).
(** [format!("{:.2}", secs)] *)
Variable two_decimals : RetryAfter spec_float → str.
(** The Messaging API. *)
Variable api : ApiRequest → W → ApiReply * W.
Variable ch : Channel.
Variable ad : TwilioAdapter W.
Variable env : ChatEnv.

Definition reject (sub tenant : str) (e : TritonError) : ST (ChatState W) unit :=
  to_chat_world (record_rejection (tw_dispatcher ad) (ce_reject_when env) (ce_reject_now env)
                   (tw_name ad) (ch_protocol ch) sub tenant (ce_reject_uuid env) e).
Definition refuse (sub tenant : str) (e : TritonError) (r : Response) : ST (ChatState W) Response :=
  _ ←ₛ reject sub tenant e; ret r.

Definition api_request (params : list (str * str)) : ApiRequest :=
  {| ar_url := tw_base ad ++ §"/2010-04-01/Accounts/" ++ tw_account_sid ad ++ §"/Messages.json";
     ar_user := tw_account_sid ad; ar_password := tw_outbound_token ad; ar_form := params |}.

Definition send_message (params : list (str * str)) (w : World W)
    : result SendOutcome CourierError * World W :=
  let '(r, o) := api (api_request params) (outside w) in
  (classify_reply (tw_outbound_token ad) r, set_outside o w).

Definition record_post_outcome (tool_name : str) (p : Principal)
    (outcome : result SendOutcome CourierError) (w : World W) : World W :=
  record_post (tw_dispatcher ad) (c_when (ce_post env)) tool_name (ch_protocol ch) p
    (elapsed_ms (ce_post env))
    match outcome with
    | Ok s => Ok (so_http_status s, to_outcome (so_label s), None)
    | Err e => Err (Provider (courier_message e), courier_http_status e,
                    to_outcome (courier_label e), None)
    end w.

(** One call to the platform and its audit line. *)
Definition send_and_record (tool_name : str) (p : Principal) (params : list (str * str))
    (w : World W) : World W :=
  let '(outcome, w) := send_message params w in record_post_outcome tool_name p outcome w.

Definition status_callback : list (str * str) :=
  match tw_status_callback_public_url ad with
  | Some url => [(§"StatusCallback", url)]
  | None => []
  end.

Definition post_back (p : Principal) (tool_name to : str) (msg : RenderedMessage) (w : World W)
    : World W :=
  send_and_record tool_name p
    ([(§"From", tw_from ad); (§"To", ch_prefix ch ++ to); (§"Body", tm_text msg)]
       ++ status_callback) w.

Definition sender_principal (c : SenderClaims) : Principal :=
  {| sub := sc_sub c; scopes := sc_scopes c; groups := sc_groups c; tenant := sc_tenant c;
     raw_token := []; trace_id := ce_trace env; sender_ref := None; conversation_ref := None;
     idp := None |}.

(** What follows a dispatch. *)
Definition answer_with (tool_name to : str) (p : Principal)
    (r : result DispatchResult TritonError) (w : World W) : World W :=
  match r with
  | Ok dispatch =>
      match render_dispatch_result cell (dr_result dispatch) with
      | Ok msg => post_back p tool_name to msg w
      | Err EmptyAfterRender =>
          record_post (tw_dispatcher ad) (c_when (ce_post env)) tool_name (ch_protocol ch) p 0
            (Err (Provider (ch_kind ch ++ §" surface mapper: empty surface"), 0%Z, Dropped, None)) w
      end
  | Err _ => w
  end.

Definition process_message (sender_key text : str) : ST (ChatState W) Response :=
  match tw_sender_table ad !! sender_key with
  | None => refuse §"-" §"-" (Auth (§"unknown sender " ++ sender_key)) (respond 401 §"unknown sender")
  | Some claims =>
      taken ←ₛ on_chat_tenants (tenant_try_take iter (ce_tenant_now env) (sc_tenant claims));
      match taken with
      | Err r =>
          refuse (sc_sub claims) (sc_tenant claims)
            (RateLimited (§"tenant `" ++ sc_tenant claims ++ §"` rate limit hit on adapter `"
                            ++ tw_name ad ++ §"`; retry in " ++ two_decimals r ++ §"s"))
            (too_many r §"tenant rate limited")
      | Ok _ =>
          let p := sender_principal claims in
          let '(tool_name, args) := route_command text (tw_inbound_tool ad) in
          r ←ₛ on_chat_world (invoke debug_set (tw_dispatcher ad) (ce_dispatch env) tool_name args p
                                (ch_protocol ch));
          _ ←ₛ to_chat_world (answer_with tool_name sender_key p r);
          ret ok_response
      end
  end.

(** The text a message is routed by. *)
Definition routing_text (pairs : list (str * str)) : str :=
  match param §"ButtonPayload" pairs with
  | Some (a :: payload) => a :: payload
  | _ => default [] (param §"Body" pairs)
  end.

(** [header] is the value of the signature header, if it is readable. *)
Definition handle_webhook (header : option str) (body : str) : ST (ChatState W) Response :=
  match parse_form body with
  | None =>
      refuse §"-" §"-" (Validation §"malformed x-www-form-urlencoded body")
        (respond 400 §"malformed")
  | Some pairs =>
      if negb (verify (tw_public_url ad) pairs (tw_auth_token ad) (default [] header)) then
        refuse §"-" §"-" (Auth §"bad X-Twilio-Signature") (respond 401 §"unauthorized")
      else
        taken ←ₛ on_chat_rate (try_take (ce_rate_now env));
        match taken with
        | Err r =>
            refuse §"-" §"-"
              (RateLimited (ch_kind ch ++ §" adapter `" ++ tw_name ad ++ §"` rate limit hit; retry in "
                              ++ two_decimals r ++ §"s")) (too_many r §"rate limited")
        | Ok _ =>
            let text := routing_text pairs in
            if is_empty text then ret ok_response
            else
              match strip_prefix (ch_prefix ch) (default [] (param §"From" pairs)) with
              | None =>
                  refuse §"-" §"-" (Validation (§"From is missing the `" ++ ch_prefix ch ++ §"` prefix"))
                    (respond 400 §"malformed From")
              | Some sender_key => process_message sender_key text
              end
        end
  end.

(** ** Delivery receipts *)

Definition receipt_principal (message_sid : str) : Principal :=
  {| sub := §"-"; scopes := []; groups := []; tenant := §"-"; raw_token := [];
     trace_id := message_sid; sender_ref := None; conversation_ref := None; idp := None |}.

Definition record_receipt (message_sid status : str) (w : World W) : World W :=
  let record outcome :=
    record_post (tw_dispatcher ad) (c_when (ce_post env)) OUTBOUND_TOOL (ch_protocol ch)
      (receipt_principal message_sid) 0 outcome w in
  if decide (status = §"delivered" ∨ status = §"read")
  then record (Ok (200%Z, Posted, Some §"twilio_delivery_receipt"))
  else if decide (status = §"failed" ∨ status = §"undelivered")
  then record (Err (Provider (§"twilio delivery status: " ++ status), 0%Z, Dropped,
                    Some §"twilio_delivery_receipt"))
  else w.

Definition handle_status_callback (header : option str) (body : str) : ST (ChatState W) Response :=
  match parse_form body with
  | None =>
      refuse §"-" §"-" (Validation §"malformed x-www-form-urlencoded body")
        (respond 400 §"malformed")
  | Some pairs =>
      match tw_status_callback_public_url ad with
      | None => ret (respond 404 [])
      | Some status_url =>
          if negb (verify status_url pairs (tw_auth_token ad) (default [] header)) then
            refuse §"-" §"-" (Auth §"bad X-Twilio-Signature") (respond 401 §"unauthorized")
          else
            _ ←ₛ to_chat_world (record_receipt (default §"-" (param §"MessageSid" pairs))
                                  (default [] (param §"MessageStatus" pairs)));
            ret ok_response
      end
  end.

(** ** Proactive sends *)

Definition authorize (req : OutboundRequest) (p : Principal) (w : World W)
    : result unit TritonError * World W :=
  (match tw_sender_table ad !! req_to req with
   | Some claims =>
       if decide (sc_tenant claims = tenant p) then Ok ()
       else Err (Forbidden (§"recipient " ++ req_to req ++ §" is not in tenant `" ++ tenant p
                              ++ §"`"))
   | None => Err (Forbidden (§"recipient " ++ req_to req
                               ++ §" is not a known sender for this adapter"))
   end, w).

Definition deliver_text (req : OutboundRequest) (p : Principal) (w : World W)
    : result unit TritonError * World W :=
  match render_dispatch_result cell (req_result req) with
  | Ok rendered => (Ok (), post_back p OUTBOUND_TOOL (req_to req) rendered w)
  | Err EmptyAfterRender => (Err (Validation §"outbound surface rendered to nothing"), w)
  end.

Definition deliver_template (req : OutboundRequest) (p : Principal) (category : str) (w : World W)
    : result unit TritonError * World W :=
  match category_of_str category with
  | None =>
      (Err (Validation (§"unknown template category `" ++ category
                          ++ §"` (expected utility|marketing|authentication)")), w)
  | Some parsed =>
      match template_for parsed (tw_templates ad) with
      | None =>
          (Err (Validation (§"no template configured for category `" ++ category
                              ++ §"` on adapter `" ++ tw_name ad ++ §"`")), w)
      | Some decl =>
          let content_variables := json_to_string (json_object (numbered_from 1 (req_variables req))) in
          (Ok (), send_and_record OUTBOUND_TOOL p
             ([(§"From", tw_from ad); (§"To", ch_prefix ch ++ req_to req);
               (§"ContentSid", td_name decl); (§"ContentVariables", content_variables)]
                ++ status_callback) w)
      end
  end.

Definition deliver_whatsapp (req : OutboundRequest) (p : Principal) (w : World W)
    : result unit TritonError * World W :=
  match req_category req with
  | Some category => deliver_template req p category w
  | None => deliver_text req p w
  end.
End Handlers.

(** *** The two adapters *)

Section Adapters.
Context {W : Type} `{SerdeJson, UrlParse, SerdeA2ui, TwilioCrypto}.
Variable cell : HttpHosts.
Variable debug_set : gset str → str.
Variable parse_form : str → option (list (str * str)).
Variable iter : gmap str (Tracked spec_float) → list (str * Tracked spec_float).
Variable two_decimals : RetryAfter spec_float → str.
Variable api : ApiRequest → W → ApiReply * W.

Definition rcs_webhook := handle_webhook cell debug_set parse_form iter two_decimals api rcs.
Definition whatsapp_webhook :=
  handle_webhook cell debug_set parse_form iter two_decimals api whatsapp.

Definition rcs_courier (ad : TwilioAdapter W) (env : ChatEnv) : OutboundCourier W :=
  {| courier_protocol := ch_protocol rcs; courier_authorize := authorize ad;
     courier_deliver := deliver_text cell api rcs ad env |}.
Definition whatsapp_courier (ad : TwilioAdapter W) (env : ChatEnv) : OutboundCourier W :=
  {| courier_protocol := ch_protocol whatsapp; courier_authorize := authorize ad;
     courier_deliver := deliver_whatsapp cell api whatsapp ad env |}.
End Adapters.

(** ** Boot *)

Inductive BuildError :=
  | BadIdentity (e : IdentityError)
  | WrongKind
  | Unsupported (m : str)
  | MissingCredential (field : str)
  | Resolve (field : str) (e : ResolveError)
  | BadTable (m : str).

Definition ADAPTER_HEADROOM : Z := 10.

Section Boot.
Context {W : Type}.
(** The secret resolver, the JSON decoder of the sender table, and whether the
    HTTP client could be built. *)
Variable resolver : SecretField → result str ResolveError.
Variable decode_table : str → result SenderTable str.
Variable http_client : result unit str.
(** [CourierConfig::api_base] *)
Variable api_base : str.
(** [Instant::now()] when the bucket is created. *)
Variable now : Z.

Definition resolve (field : option SecretField) (label : str) : result str BuildError :=
  f ←? ok_or field (MissingCredential label);
  result_map_err (Resolve label) (resolver f).

(** The checks both adapters open with. *)
Definition check_kind (k : AdapterKind) (ch : Channel) (a : Adapter) : result unit BuildError :=
  if bool_decide (a_kind a ≠ k) then Err WrongKind
  else if bool_decide (in_signature (a_inbound a) ≠ TwilioSignature) then
    Err (Unsupported (ch_kind ch ++ §" adapter requires `signature: twilio_signature`; got "
                        ++ scheme_debug (in_signature (a_inbound a))))
  else result_map_err BadIdentity
         (require_supported_kind (ch_kind ch) (id_kind (a_identity a)) [KSenderTable]).

Definition build_table (a : Adapter) : result SenderTable BuildError :=
  json ←? resolve (cred §"table" (id_credentials (a_identity a))) §"identity.table";
  result_map_err BadIdentity (SenderTable_parse decode_table json).

Definition build_base : result str BuildError :=
  _ ←? result_map_err (λ e, Unsupported (§"twilio courier http client: " ++ e)) http_client;
  Ok (trim_end_char "/" api_base).

(** The state an adapter starts with, around the dispatcher's world. *)
Definition initial_state (a : Adapter) (w : World W) : ChatState W :=
  let r := a_rate_limit a in
  {| cs_world := w;
     cs_rate := TokenBucket_new (u32_saturating_mul (rl_messages_per_sec r) ADAPTER_HEADROOM)
                  (u32_saturating_mul (rl_burst r) ADAPTER_HEADROOM) now;
     cs_tenants := PerTenantBuckets_new (rl_messages_per_sec r) (rl_burst r) |}.

Definition rcs_from_manifest (name : str) (a : Adapter) (d : Dispatcher W)
    : result (TwilioAdapter W) BuildError :=
  let inc := in_credentials (a_inbound a) in
  let out := out_credentials (a_outbound a) in
  _ ←? check_kind AKTwilioRcs rcs a;
  auth_token ←? resolve (cred §"secret" inc) §"inbound.secret";
  outbound_token ←? resolve (cred §"token" out) §"outbound.token";
  account_sid ←? resolve (cred §"account_sid" out) §"outbound.account_sid";
  public_url ←? resolve (cred §"public_url" inc) §"inbound.public_url";
  from ←? resolve (cred §"from" out) §"outbound.from";
  table ←? build_table a;
  base ←? build_base;
  Ok {| tw_name := name; tw_auth_token := auth_token; tw_outbound_token := outbound_token;
        tw_account_sid := account_sid; tw_public_url := public_url;
        tw_status_callback_public_url := None; tw_from := from; tw_sender_table := table;
        tw_inbound_tool := a_tool a; tw_dispatcher := d; tw_base := base; tw_templates := [] |}.

Definition whatsapp_from_manifest (name : str) (a : Adapter) (d : Dispatcher W)
    : result (TwilioAdapter W) BuildError :=
  let inc := in_credentials (a_inbound a) in
  let out := out_credentials (a_outbound a) in
  _ ←? check_kind AKTwilioWhatsapp whatsapp a;
  auth_token ←? resolve (cred §"secret" inc) §"inbound.secret";
  outbound_token ←? resolve (cred §"token" out) §"outbound.token";
  account_sid ←? resolve (cred §"account_sid" out) §"outbound.account_sid";
  public_url ←? resolve (cred §"public_url" inc) §"inbound.public_url";
  status_url ←? match cred §"status_callback_public_url" inc with
                | Some f => result_map Some
                    (result_map_err (Resolve §"inbound.status_callback_public_url") (resolver f))
                | None => Ok None
                end;
  from ←? resolve (cred §"from" out) §"outbound.from";
  table ←? build_table a;
  base ←? build_base;
  Ok {| tw_name := name; tw_auth_token := auth_token; tw_outbound_token := outbound_token;
        tw_account_sid := account_sid; tw_public_url := public_url;
        tw_status_callback_public_url := status_url; tw_from := from; tw_sender_table := table;
        tw_inbound_tool := a_tool a; tw_dispatcher := d; tw_base := base;
        tw_templates := a_templates a |}.
End Boot.

(** ** What a signature covers *)

Lemma str_lt_trans a b c :
  str_compare a b = Lt → str_compare b c ≠ Gt → str_compare a c = Lt.
Proof.
  intros Hab Hbc. assert (str_compare a c ≠ Gt) as Hac.
  { eapply str_compare_trans; [|done]. by rewrite Hab. }
  destruct (str_compare a c) eqn:E; [|done|done]. apply str_compare_eq in E as ->.
  rewrite str_compare_antisym, Hab in Hbc. done.
Qed.

Lemma insert_below x y l :
  str_compare x.1 y.1 = Lt →
  insert_by_key x (insert_by_key y l) = insert_by_key y (insert_by_key x l).
Proof.
  intros Hxy. assert (str_compare y.1 x.1 = Gt) as Hyx.
  { by rewrite str_compare_antisym, Hxy. }
  induction l as [|z l IH]; cbn [insert_by_key]; [by rewrite Hxy, Hyx|].
  destruct (str_compare y.1 z.1) eqn:Hyz.
  1, 2: assert (str_compare x.1 z.1 = Lt) as Hxz by (eapply str_lt_trans; [done|by rewrite Hyz]);
    rewrite Hxz; cbn [insert_by_key]; rewrite Hxy, Hyx; cbn [insert_by_key]; by rewrite Hyz.
  destruct (str_compare x.1 z.1) eqn:Hxz; cbn [insert_by_key];
    rewrite ?Hxz, ?Hyx, ?Hyz; cbn [insert_by_key]; rewrite ?Hyz; [done|done|by rewrite IH].
Qed.

Lemma insert_comm x y l :
  x.1 ≠ y.1 → insert_by_key x (insert_by_key y l) = insert_by_key y (insert_by_key x l).
Proof.
  intros Hne. destruct (str_compare x.1 y.1) eqn:E.
  - by apply str_compare_eq in E.
  - by apply insert_below.
  - symmetry. apply insert_below. by rewrite str_compare_antisym, E.
Qed.

(** The order the form lists distinct parameters in does not matter. *)
Lemma signing_string_order url ps qs :
  NoDup ps.*1 → ps ≡ₚ qs → signing_string url ps = signing_string url qs.
Proof.
  intros Hn Hp. unfold signing_string, sort_by_key. do 3 f_equal.
  apply (foldr_permutation (=) _ _ ps qs); [|done].
  intros i x j y l Hij Hi Hj. apply insert_comm. intros He. apply Hij.
  apply (NoDup_lookup ps.*1 i j x.1); [done|..]; rewrite list_lookup_fmap.
  - by rewrite Hi.
  - by rewrite Hj, He.
Qed.

Lemma verify_spec `{TwilioCrypto} url ps token presented :
  verify url ps token presented = true
  ↔ b64_decode presented = Some (hmac_sha1 token (signing_string url ps)).
Proof.
  unfold verify. destruct (b64_decode presented) as [b|]; [|done].
  rewrite andb_true_iff, Nat.eqb_eq, bool_decide_eq_true. split; [by intros [_ ->]|].
  intros [= ->]. done.
Qed.

(** Keys and values run together: another split of the same text verifies. *)
Lemma signature_ambiguous `{TwilioCrypto} url k v v' token presented :
  verify url [(k, v ++ v')] token presented = verify url [(k ++ v, v')] token presented.
Proof. unfold verify, signing_string. cbn. by rewrite <- !app_assoc. Qed.

(** ** The text stays under the limit *)

Lemma cap_text_bounded text : length (cap_text text).1 ≤ TWILIO_TEXT_MAX_BYTES.
Proof.
  unfold cap_text. destruct (TWILIO_TEXT_MAX_BYTES <? length text)%nat eqn:E; bool_facts; [|done].
  cbn [fst]. rewrite length_app, length_take.
  pose proof (floor_char_boundary_le text
    (Nat.min (TWILIO_TEXT_MAX_BYTES - length TRUNCATION_SENTINEL) (length text))).
  assert (length TRUNCATION_SENTINEL ≤ TWILIO_TEXT_MAX_BYTES) by (vm_compute; lia). lia.
Qed.

Lemma cap_text_utf8 text :
  valid_utf8 text = true → valid_utf8 (cap_text text).1 = true.
Proof.
  intros Hv. unfold cap_text. destruct (_ <? _)%nat; [|done]. cbn [fst].
  apply valid_utf8_app; [by apply valid_utf8_floor|done].
Qed.

Lemma render_bounded `{UrlParse, SerdeA2ui} cell s m :
  render cell s = Ok m → 0 < length (tm_text m) ≤ TWILIO_TEXT_MAX_BYTES.
Proof.
  unfold render.
  pose proof (cap_text_bounded
    (join (nl ++ nl) (chunks (foldl (render_component cell) nothing_collected (components s))))) as Hb.
  destruct (cap_text _) as [text truncated]. destruct text as [|a text]; [done|].
  intros [= <-]. cbn [tm_text fst] in *. cbn [length] in *. lia.
Qed.

(** A result that is not a surface goes out at any length. *)
Lemma bare_result_unbounded `{UrlParse, SerdeA2ui, SerdeJson} cell n :
  ∃ m, render_dispatch_result cell (Value.String (replicate (S n) "x"%char)) = Ok m
       ∧ length (tm_text m) = S n ∧ tm_truncated m = false.
Proof.
  eexists. split; [reflexivity|]. split; [|done]. cbn. f_equal. apply length_replicate.
Qed.

(** ** What a webhook call can do *)

Section Facts.
Context {W : Type} `{SerdeJson, UrlParse, SerdeA2ui, TwilioCrypto}.
Variables (cell : HttpHosts) (debug_set : gset str → str).
Variable parse_form : str → option (list (str * str)).
Variable iter : gmap str (Tracked spec_float) → list (str * Tracked spec_float).
Variable two_decimals : RetryAfter spec_float → str.
Variable api : ApiRequest → W → ApiReply * W.
Variable ch : Channel.
Variable ad : TwilioAdapter W.
Variable env : ChatEnv.
Implicit Types (s : ChatState W) (w : World W) (p : Principal).

Abbreviation webhook := (handle_webhook cell debug_set parse_form iter two_decimals api ch ad env).
Abbreviation process := (process_message cell debug_set iter two_decimals api ch ad env).

(** One more line, of a post by [p] for [tl], with this result, status and
    label. *)
Definition post_line (tl : str) p (res : str) (st : Z) (label : PostLabel) w w' : Prop :=
  ∃ l, sinks w' = emit l (sinks w)
    ∧ audit_total (metrics w') = bump §"post" (audit_total (metrics w))
    ∧ rejects w' = rejects w
    ∧ phase l = Post ∧ AuditLog.protocol l = ch_protocol ch ∧ tool l = tl ∧ subject l = sub p
    ∧ au_tenant l = tenant p ∧ au_trace_id l = trace_id p
    ∧ au_result l = res ∧ AuditLog.status l = st ∧ status_label l = Some (post_label_str label).

(** [form] was posted once, and its line tells how it went. *)
Definition posted (tl : str) p (form : list (str * str)) w w' : Prop :=
  let '(r, o) := api (api_request ad form) (outside w) in
  outside w' = o
  ∧ match classify_reply (tw_outbound_token ad) r with
    | Ok so => post_line tl p §"ok" (so_http_status so) LPosted w w'
    | Err e => post_line tl p §"error:provider" (courier_http_status e) (courier_label e) w w'
    end.

Lemma classify_posted token r so : classify_reply token r = Ok so → so_label so = LPosted.
Proof. unfold classify_reply. destruct r; [done|]. case_if; [|done]. by intros [= <-]. Qed.

Lemma send_and_record_posted tl p form w :
  posted tl p form w (send_and_record api ch ad env tl p form w).
Proof using Type.
  unfold posted, send_and_record, send_message.
  destruct (api (api_request ad form) (outside w)) as [r o].
  unfold record_post_outcome, record_post, record_post_to.
  destruct (classify_reply _ r) as [so|e] eqn:E; (split; [done|]);
    eexists; repeat split; cbn; rewrite ?outcome_str; try done.
  by rewrite (classify_posted _ _ _ E).
Qed.

(** What the sender of a message gets, after the dispatch. *)
Definition answered (tl : str) p (sender : str) (r : result DispatchResult TritonError) w w' : Prop :=
  match r with
  | Err _ => w' = w
  | Ok x =>
      match render_dispatch_result cell (dr_result x) with
      | Err _ => outside w' = outside w ∧ post_line tl p §"error:provider" 0 LDropped w w'
      | Ok msg => posted tl p ([(§"From", tw_from ad); (§"To", ch_prefix ch ++ sender);
                                (§"Body", tm_text msg)] ++ status_callback ad) w w'
      end
  end.

Lemma answer_with_answered tl sender p r w :
  answered tl p sender r w (answer_with cell api ch ad env tl sender p r w).
Proof using Type.
  unfold answered, answer_with. destruct r as [x|e]; [|done].
  destruct (render_dispatch_result cell (dr_result x)) as [msg|[]].
  - apply send_and_record_posted.
  - split; [done|]. eexists. repeat split.
Qed.

(** Same world; the limiters may have moved. *)
Definition only_limiters s s' : Prop := cs_world s' = cs_world s.

Inductive WebhookFate (header : option str) (body : str) s (x : Response * ChatState W) : Prop :=
  (** turned away with one rejection *)
  | TurnedAway sb tn e s1 :
      resp_status x.1 ∈ [400; 401; 429]%Z → only_limiters s s1 →
      cs_world x.2 = record_rejection (tw_dispatcher ad) (ce_reject_when env) (ce_reject_now env)
                       (tw_name ad) (ch_protocol ch) sb tn (ce_reject_uuid env) e (cs_world s1) →
      WebhookFate header body s x
  (** a message without text *)
  | Ignored : x.1 = ok_response → only_limiters s x.2 → WebhookFate header body s x
  (** signed, from a listed sender: dispatched as that sender and answered to it *)
  | Served pairs sender claims tl args r w :
      parse_form body = Some pairs →
      b64_decode (default [] header)
        = Some (hmac_sha1 (tw_auth_token ad) (signing_string (tw_public_url ad) pairs)) →
      default [] (param §"From" pairs) = ch_prefix ch ++ sender →
      tw_sender_table ad !! sender = Some claims →
      (tl, args) = route_command (routing_text pairs) (tw_inbound_tool ad) →
      invoke debug_set (tw_dispatcher ad) (ce_dispatch env) tl args (sender_principal env claims)
        (ch_protocol ch) (cs_world s) = (r, w) →
      answered tl (sender_principal env claims) sender r w (cs_world x.2) →
      x.1 = ok_response → WebhookFate header body s x.

Lemma refuse_turned header body sb tn e r s s1 :
  resp_status r ∈ [400; 401; 429]%Z → only_limiters s s1 →
  WebhookFate header body s (refuse ch ad env sb tn e r s1).
Proof using Type. intros Hr Hs. by eapply (TurnedAway _ _ _ _ sb tn e s1). Qed.

Lemma process_fate header body pairs sender s s1 :
  parse_form body = Some pairs →
  b64_decode (default [] header)
    = Some (hmac_sha1 (tw_auth_token ad) (signing_string (tw_public_url ad) pairs)) →
  default [] (param §"From" pairs) = ch_prefix ch ++ sender → only_limiters s s1 →
  WebhookFate header body s (process sender (routing_text pairs) s1).
Proof using Type.
  intros Hp Hsig Hfrom Hs. unfold process_message.
  destruct (tw_sender_table ad !! sender) as [claims|] eqn:Ht.
  2: { apply refuse_turned; [|done]. set_solver. }
  unfold bind at 1, on_chat_tenants.
  destruct (tenant_try_take iter (ce_tenant_now env) (sc_tenant claims) (cs_tenants s1))
    as [[[]|r] b].
  2: { apply refuse_turned; [|done]. set_solver. }
  destruct (route_command (routing_text pairs) (tw_inbound_tool ad)) as [tl args] eqn:Hrc.
  unfold bind, on_chat_world, to_chat_world, ret.
  destruct (invoke debug_set (tw_dispatcher ad) (ce_dispatch env) tl args _ _ _) as [r w] eqn:Hi.
  cbn [cs_world] in Hi. rewrite Hs in Hi.
  eapply (Served _ _ _ _ pairs sender claims tl args r w); try done.
  apply answer_with_answered.
Qed.

Lemma webhook_fate header body s : WebhookFate header body s (webhook header body s).
Proof using Type.
  unfold handle_webhook. destruct (parse_form body) as [pairs|] eqn:Hp.
  2: { apply refuse_turned; [|done]. set_solver. }
  destruct (verify _ _ _ _) eqn:Hv; cbn [negb].
  2: { apply refuse_turned; [|done]. set_solver. }
  apply verify_spec in Hv. unfold bind, on_chat_rate.
  destruct (try_take (ce_rate_now env) (cs_rate s)) as [[[]|r] b].
  2: { apply refuse_turned; [|done]. set_solver. }
  destruct (routing_text pairs) as [|a text] eqn:Hr; cbn [is_empty].
  { by apply Ignored. }
  destruct (strip_prefix _ _) as [sender|] eqn:Hf.
  2: { apply refuse_turned; [|done]. set_solver. }
  rewrite <- Hr. apply process_fate; try done.
  by apply strip_prefix_Some in Hf.
Qed.
End Facts.

(** C23: a webhook call to a Twilio adapter is served only for a listed sender
    and only under Twilio's signature.  Whatever the call, one of three things
    happens: it is turned away with 400, 401 or 429 and one rejection, or has
    no text and is acknowledged, and in both cases nothing outside is touched;
    or its signature is the HMAC, under the adapter's token, of the configured
    URL and the form, its sender has a row in the table, exactly the tool and
    arguments its text routes to are dispatched as that row's principal, and the
    answer goes in one message to that sender alone, with one audit line that
    tells how Twilio took it, or in none, when the dispatch failed (no line) or
    rendered to nothing (a dropped line). *)
Theorem twilio_webhook_served {W} `{SerdeJson, UrlParse, SerdeA2ui, TwilioCrypto} cell dbg
    parse_form iter two_decimals api ch (ad : TwilioAdapter W) env header body s :
  let x := handle_webhook cell dbg parse_form iter two_decimals api ch ad env header body s in
  WebhookFate cell dbg parse_form api ch ad env header body s x
  ∧ (outside (cs_world x.2) ≠ outside (cs_world s) →
     ∃ pairs sender claims, parse_form body = Some pairs
       ∧ b64_decode (default [] header)
         = Some (hmac_sha1 (tw_auth_token ad) (signing_string (tw_public_url ad) pairs))
       ∧ default [] (param §"From" pairs) = ch_prefix ch ++ sender
       ∧ tw_sender_table ad !! sender = Some claims).
Proof.
  intros x. pose proof (webhook_fate cell dbg parse_form iter two_decimals api ch ad env header
                          body s) as Hf.
  fold x in Hf. clearbody x. split; [done|].
  destruct Hf as [sb tn e s1 _ Hs Hw|_ Hs|pairs sender claims tl args r w].
  - rewrite Hw. unfold record_rejection. rewrite <- Hs. by repeat case_match.
  - by rewrite Hs.
  - intros _. by exists pairs, sender, claims.
Qed.

(** ** The couriers keep their promise *)

Definition table_owner {W} (ad : TwilioAdapter W) (req : OutboundRequest) : option str :=
  sc_tenant <$> tw_sender_table ad !! req_to req.

Lemma authorize_owner {W} (ad : TwilioAdapter W) req p w w1 :
  authorize ad req p w = (Ok (), w1) → table_owner ad req = Some (tenant p).
Proof.
  unfold authorize, table_owner. destruct (tw_sender_table ad !! req_to req) as [c|]; [|done].
  cbn. case_decide; [|done]. congruence.
Qed.

#[export] Instance rcs_tenant_bound {W} `{SerdeJson, UrlParse, SerdeA2ui} cell api
    (ad : TwilioAdapter W) env : TenantBound (rcs_courier cell api ad env) (table_owner ad).
Proof. split; [apply authorize_owner|done]. Qed.
#[export] Instance whatsapp_tenant_bound {W} `{SerdeJson, UrlParse, SerdeA2ui} cell api
    (ad : TwilioAdapter W) env : TenantBound (whatsapp_courier cell api ad env) (table_owner ad).
Proof. split; [apply authorize_owner|done]. Qed.

(** The endpoint and the Twilio couriers together: a gateway that registers
    the two adapters calls Twilio on behalf of an agent only if the recipient
    is a row of the named adapter's table and the row's tenant is the one the
    agent's own verified token names, past revocation, scope and both rate
    limits; the answer 202 implies the same. *)
Theorem twilio_push_stays_in_tenant {W} `{SerdeJson, Jwt, UrlParse, SerdeA2ui} iter token_hash dev
    bucket_iter (d : Dispatcher W) cell api wa rc cenv env parts body s :
  let couriers := <[§"whatsapp" := whatsapp_courier cell api wa cenv]>
                    {[ §"rcs" := rcs_courier cell api rc cenv ]} in
  let x := outbound_send iter token_hash dev bucket_iter d couriers env parts body s in
  outside (ob_world x.2) ≠ outside (ob_world s) ∨ HttpIdentity.status (reply x.1) = 202%Z →
  ∃ p ad claims, passed_gates iter token_hash dev bucket_iter d env parts s p
    ∧ (ob_adapter body = §"whatsapp" ∧ ad = wa ∨ ob_adapter body = §"rcs" ∧ ad = rc)
    ∧ tw_sender_table ad !! ob_to body = Some claims ∧ sc_tenant claims = tenant p.
Proof.
  intros couriers x.
  pose (owner (name : str) := table_owner (if decide (name = §"whatsapp") then wa else rc)).
  assert (∀ name c, couriers !! name = Some c →
            TenantBound c (owner name) ∧ (name = §"whatsapp" ∨ name = §"rcs")) as Hb.
  { intros name c [[<- <-]|[Hne [<- <-]%lookup_singleton_Some]]%lookup_insert_Some; unfold owner.
    - rewrite decide_True by done. split; [apply _|by left].
    - rewrite decide_False by done. split; [apply _|by right]. }
  destruct (outbound_send_bound iter token_hash dev bucket_iter d couriers owner env parts body s)
    as (Hf & Ho & Hs); [intros; by eapply Hb|]. fold x in Hf, Ho, Hs.
  intros Hx. assert (∃ p, passed_gates iter token_hash dev bucket_iter d env parts s p
    ∧ owner (ob_adapter body) (request_of body) = Some (tenant p)) as (p & Hg & Hp).
  { destruct Hx; auto. }
  assert (ob_adapter body = §"whatsapp" ∨ ob_adapter body = §"rcs") as Hn.
  { destruct Hf as [Hst [Hout _]|? ? ? Hst Hw|? c e w ? Hc Ha Hst [Hout _]|? c w r ? Hc].
    - destruct Hx; [done|lia].
    - rewrite Hw in Hx. destruct Hx; [done|lia].
    - apply (Hb _ _ Hc).
    - apply (Hb _ _ Hc). }
  unfold owner, table_owner in Hp. cbn [request_of req_to] in Hp.
  destruct Hn as [Hn|Hn]; rewrite Hn in Hp; [rewrite decide_True in Hp by done|
    rewrite decide_False in Hp by done];
    apply fmap_Some in Hp as (claims & Hc & Ht); exists p; eexists _, claims;
    (split; [done|]); (split; [|by split]); [left|right]; by rewrite Hn.
Qed.

(** ** Departures from the documentation *)

(** The courier's failure is audited and not returned: whatever Twilio answers
    the send counts as delivered. *)
Lemma refused_send_counts_as_delivered {W} `{SerdeJson, UrlParse, SerdeA2ui} cell api
    (ad : TwilioAdapter W) env req p w :
  is_ok (render_dispatch_result cell (req_result req)) = true →
  (courier_deliver (rcs_courier cell api ad env) req p w).1 = Ok ().
Proof. cbn. unfold deliver_text. by destruct (render_dispatch_result _ _). Qed.

(** A receipt's line carries the message's identifier as its trace id, not in
    the detail field. *)
Lemma receipt_detail_is_fixed {W} (ad : TwilioAdapter W) env sid status w :
  status = §"failed" ∨ status = §"delivered" →
  ∃ l, sinks (record_receipt whatsapp ad env sid status w) = emit l (sinks w)
       ∧ status_detail l = Some §"twilio_delivery_receipt" ∧ au_trace_id l = sid.
Proof. by intros [-> | ->]; eexists; repeat split. Qed.

(** ** Instances *)

#[local] Existing Instance demo_json.
#[local] Existing Instance demo_jwt.
#[local] Existing Instance sample_url.
#[local] Existing Instance sample_serde.

Definition demo_table : SenderTable := {[ §"+491701" := ChatIdentity.demo_claims §"alice" ]}.
Definition demo_adapter : TwilioAdapter nat :=
  {| tw_name := §"tw"; tw_auth_token := §"token"; tw_outbound_token := §"password";
     tw_account_sid := §"AC1"; tw_public_url := §"https://gw.example/tw/webhook";
     tw_status_callback_public_url := None; tw_from := §"rcs:agent";
     tw_sender_table := demo_table; tw_inbound_tool := §"echo"; tw_dispatcher := demo_echo;
     tw_base := §"https://api.twilio.com"; tw_templates := [] |}.
Definition demo_chat_env : ChatEnv :=
  {| ce_rate_now := 0; ce_tenant_now := oe_tenant_now demo_outbound_env; ce_reject_when := §"now";
     ce_reject_now := 0; ce_reject_uuid := §"u"; ce_trace := §"t"; ce_dispatch := Dispatcher.tick;
     ce_post := Dispatcher.tick |}.
(** An API that accepts everything and counts. *)
Definition demo_api (_ : ApiRequest) (n : nat) : ApiReply * nat := (Status 201, S n).
Definition demo_message (to : str) : OutboundBody :=
  {| ob_adapter := §"rcs"; ob_to := to; ob_result := Value.String §"done"; ob_category := None;
     ob_variables := []; ob_reference := None |}.

Lemma demo_message_accepted :
  HttpIdentity.status (reply (outbound_send map_to_list demo_hash true map_to_list demo_echo
    (<[§"whatsapp" := whatsapp_courier None demo_api demo_adapter demo_chat_env]>
       {[ §"rcs" := rcs_courier None demo_api demo_adapter demo_chat_env ]})
    demo_outbound_env demo_parts (demo_message §"+491701") demo_outbound).1) = 202%Z.
Proof. vm_compute. reflexivity. Qed.

Lemma twilio_push_stays_in_tenant_witness :
  ∃ p ad claims,
    passed_gates map_to_list demo_hash true map_to_list demo_echo demo_outbound_env demo_parts
      demo_outbound p
    ∧ (§"rcs" = §"whatsapp" ∧ ad = demo_adapter ∨ §"rcs" = §"rcs" ∧ ad = demo_adapter)
    ∧ tw_sender_table ad !! §"+491701" = Some claims ∧ sc_tenant claims = tenant p.
Proof.
  apply (twilio_push_stays_in_tenant map_to_list demo_hash true map_to_list demo_echo None demo_api
    demo_adapter demo_adapter demo_chat_env demo_outbound_env demo_parts (demo_message §"+491701")
    demo_outbound).
  right. exact demo_message_accepted.
Defined.

(** A variable that is set but empty boots an adapter whose signatures anyone
    can compute. *)
Definition demo_rcs_entry : Adapter :=
  {| a_kind := AKTwilioRcs; a_tool := §"echo";
     a_inbound := {| in_kind := IWebhook; in_signature := TwilioSignature;
                     in_credentials := [(§"secret", EnvRef §"SECRET"); (§"public_url", Literal §"u")] |};
     a_outbound := {| out_kind := ORestApi;
                      out_credentials := [(§"token", Literal §"t"); (§"account_sid", Literal §"a");
                                          (§"from", Literal §"f")] |};
     a_identity := {| id_kind := KSenderTable; id_pairing_tool := None;
                      id_credentials := [(§"table", Literal §"{}")] |};
     a_degrade := []; a_rate_limit := {| rl_messages_per_sec := 1; rl_burst := 1 |};
     a_correlation_key := Literal §"k"; a_templates := []; a_surface_guidance := None |}.
Lemma empty_secret_boots :
  ∃ ad, rcs_from_manifest (LiteralResolver_resolve (λ _, Some [])) (λ _, Ok ∅) (Ok ())
          §"https://api.twilio.com/" §"tw" demo_rcs_entry demo_echo = Ok ad
        ∧ tw_auth_token ad = [].
Proof. eexists. split; vm_compute; reflexivity. Qed.
