(* ===== verification/Email.v ===== *)
(** * Email: the courier of the email adapter
    (crates/triton-chat-email/src/courier.rs)

    Email has no webhook: the adapter is built from its manifest entry, decides
    whom a caller may write to, and posts a rendered surface to the provider's
    API, which is part of the world outside ([api]). *)

From S2P Require Import Prelude Json Errors Principal Context AuditLog Dispatcher.
From S2P Require Import A2ui ChatIdentity Manifest Outbound Surface EmailMapper.

Definition PROTOCOL : str := §"email".
Definition OUTBOUND_TOOL : str := §"outbound".

Record CourierConfig := { cc_api_base : str; cc_timeout_secs : Z }.
Definition default_config : CourierConfig :=
  {| cc_api_base := §"https://api.sendgrid.com"; cc_timeout_secs := 10 |}.

Record RecipientClaims := { rc_sub : str; rc_scopes : list str; rc_tenant : str }.

Record EmailAdapter (W : Type) := {
  ea_name : str;
  ea_from : str;
  ea_api_key : str;
  ea_sender_table : gmap str RecipientClaims;
  ea_dispatcher : Dispatcher W;
  ea_api_base : str;
}.
Arguments ea_name {W} _.
Arguments ea_from {W} _.
Arguments ea_api_key {W} _.
Arguments ea_sender_table {W} _.
Arguments ea_dispatcher {W} _.
Arguments ea_api_base {W} _.

Inductive BuildError :=
  | WrongKind
  | Unsupported (m : str)
  | MissingCredential (field : str)
  | Resolve (field : str) (e : ResolveError)
  | TableParse (m : str)
  | Http (m : str).

(** ** Boot *)

Definition identity_error_text (e : IdentityError) : str :=
  match e with
  | ChatIdentity.TableParse m => §"identity.table failed to parse as sender JSON: " ++ m
  | TableEntry key reason => §"identity.table entry `" ++ key ++ §"` is unusable: " ++ reason
  | EmptyResolverTool => §"identity.resolver_tool must be non-empty"
  | ResolverToolCollision tool =>
      §"identity.resolver_tool `" ++ tool ++ §"` collides with an in-process tool; the upstream resolver must be a distinct upstream agent, or identity would be decided in-process without the router or the per-call upstream token"
  | UnsupportedKind adapter got supported =>
      adapter ++ §" adapter supports `identity.kind`: " ++ supported ++ §"; got " ++ got
  end.

Definition recipient_key (address : str) : str := to_ascii_lowercase (trim address).

(** [collect] into a [HashMap]: of two keys that become one, the later counts. *)
Definition normalise (entries : list (str * RecipientClaims)) : gmap str RecipientClaims :=
  foldl (λ m e, <[recipient_key e.1 := e.2]> m) ∅ entries.

Fixpoint validate_recipients (entries : list (str * RecipientClaims)) : result unit IdentityError :=
  match entries with
  | [] => Ok ()
  | (recipient, c) :: rest =>
      _ ←? validate_table_entry recipient recipient (rc_tenant c);
      validate_recipients rest
  end.

Section Boot.
Context {W : Type}.
(** The secret resolver, the JSON decoder of the table (its entries in the order
    of the decoded map), and whether the HTTP client could be built. *)
Variable resolve : SecretField → result str ResolveError.
Variable decode_table : str → result (list (str * RecipientClaims)) str.
Variable http_client : result unit str.

Definition credential (field name : str) (m : Credentials) : result str BuildError :=
  f ←? ok_or (cred name m) (MissingCredential field);
  result_map_err (Resolve field) (resolve f).

Definition from_manifest (name : str) (a : Adapter) (d : Dispatcher W) (config : CourierConfig)
    : result (EmailAdapter W) BuildError :=
  if bool_decide (a_kind a ≠ AKEmail) then Err WrongKind
  else if bool_decide (out_kind (a_outbound a) ≠ ORestApi) then
    Err (Unsupported (§"email adapter requires `outbound.kind: rest_api`; got "
                        ++ outbound_kind_debug (out_kind (a_outbound a))))
  else
    _ ←? result_map_err (λ e, TableParse (identity_error_text e))
           (require_supported_kind §"email" (id_kind (a_identity a)) [KSenderTable]);
    api_key ←? credential §"outbound.token" §"token" (out_credentials (a_outbound a));
    from ←? credential §"outbound.from" §"from" (out_credentials (a_outbound a));
    table_json ←? credential §"identity.table" §"table" (id_credentials (a_identity a));
    entries ←? result_map_err TableParse (decode_table table_json);
    let table := normalise entries in
    _ ←? result_map_err (λ e, TableParse (identity_error_text e))
           (validate_recipients (map_to_list table));
    _ ←? result_map_err Http http_client;
    Ok {| ea_name := name; ea_from := from; ea_api_key := api_key; ea_sender_table := table;
          ea_dispatcher := d; ea_api_base := cc_api_base config |}.
End Boot.

(** ** Sends *)

(** A POST to the provider, and its answer: an error's text or a status. *)
Record ApiRequest := { ar_url : str; ar_bearer : str; ar_json : Value }.
Inductive ApiReply := NoResponse (error : str) | Status (http_status : Z).

(** [redact] of the courier *)
Definition redact_key (s secret : str) : str := redact §"***" s secret.

Section Courier.
Context {W : Type} `{UrlParse, SerdeA2ui}.
Variable cell : HttpHosts.
Variable api : ApiRequest → W → ApiReply * W.
Variable ad : EmailAdapter W.
(** The readings around the POST. *)
Variable post : Clock.

Definition authorize (req : OutboundRequest) (p : Principal) (w : World W)
    : result unit TritonError * World W :=
  (match ea_sender_table ad !! recipient_key (req_to req) with
   | Some claims =>
       if decide (rc_tenant claims = tenant p) then Ok ()
       else Err (Forbidden (§"recipient " ++ req_to req ++ §" is not in tenant `" ++ tenant p
                              ++ §"`"))
   | None => Err (Forbidden (§"recipient " ++ req_to req
                               ++ §" is not a known recipient for this adapter"))
   end, w).

Definition mail_body (to : str) (r : RenderedEmail) : Value :=
  json_object
    [(§"personalizations", Value.Array [json_object
        [(§"to", Value.Array [json_object [(§"email", Value.String to)]]);
         (§"subject", Value.String (em_subject r))]]);
     (§"from", json_object [(§"email", Value.String (ea_from ad))]);
     (§"content", Value.Array
        [json_object [(§"type", Value.String §"text/plain"); (§"value", Value.String (em_text r))];
         json_object [(§"type", Value.String §"text/html"); (§"value", Value.String (em_html r))]])].
Definition mail_request (to : str) (r : RenderedEmail) : ApiRequest :=
  {| ar_url := ea_api_base ad ++ §"/v3/mail/send"; ar_bearer := ea_api_key ad;
     ar_json := mail_body to r |}.

(** What the answer means: the caller's result and the audit's. *)
Definition send_outcome (reply : ApiReply)
    : result (Z * PostOutcome * option str) (TritonError * Z * PostOutcome * option str) :=
  match reply with
  | Status s =>
      if (200 <=? s)%Z && (s <? 300)%Z then Ok (s, Posted, None)
      else Err (Provider (§"email API returned " ++ dec s), s,
                if (s =? 429)%Z || (500 <=? s)%Z then Retry else Dropped, None)
  | NoResponse e =>
      Err (Provider (§"email transport error: " ++ redact_key e (ea_api_key ad)), 0%Z, Retry, None)
  end.

Definition deliver (req : OutboundRequest) (p : Principal) (w : World W)
    : result unit TritonError * World W :=
  match try_render_surface cell (req_result req) with
  | None => (Err (Validation §"outbound result is not an A2UI surface"), w)
  | Some None => (Err (Validation §"outbound surface rendered to nothing"), w)
  | Some (Some rendered) =>
      let '(reply, o) := api (mail_request (req_to req) rendered) (outside w) in
      let outcome := send_outcome reply in
      let w := record_post (ea_dispatcher ad) (c_when post) OUTBOUND_TOOL PROTOCOL p (elapsed_ms post)
                 outcome (set_outside o w) in
      (match outcome with Ok _ => Ok () | Err (e, _, _, _) => Err e end, w)
  end.

Definition email_courier : OutboundCourier W :=
  {| courier_protocol := PROTOCOL; courier_authorize := authorize; courier_deliver := deliver |}.
End Courier.

(** ** The table *)

Definition table_owner {W} (ad : EmailAdapter W) (req : OutboundRequest) : option str :=
  rc_tenant <$> ea_sender_table ad !! recipient_key (req_to req).

Lemma normalise_keys entries k c :
  normalise entries !! k = Some c → ∃ e, e ∈ entries ∧ k = recipient_key e.1 ∧ c = e.2.
Proof.
  unfold normalise. assert (∀ m : gmap str RecipientClaims,
    foldl (λ m e, <[recipient_key e.1 := e.2]> m) m entries !! k = Some c →
    m !! k = Some c ∨ ∃ e, e ∈ entries ∧ k = recipient_key e.1 ∧ c = e.2) as Hg.
  { induction entries as [|e es IH]; intros m; cbn [foldl]; [by left|].
    intros [Hm|(e' & He' & Hk & Hc)]%IH; [|right; exists e'; set_solver].
    apply lookup_insert_Some in Hm as [[<- <-]|[_ Hm]]; [|by left]. right. exists e. set_solver. }
  intros [Hm|He]%Hg; [by apply lookup_empty_Some in Hm|done].
Qed.

Lemma validate_recipients_Ok l :
  validate_recipients l = Ok () ↔ Forall (λ e, validate_resolved e.1 (rc_tenant e.2) = Ok ()) l.
Proof.
  induction l as [|[k c] l IH]; cbn [validate_recipients]; [by split|].
  rewrite Forall_cons, <- IH. unfold validate_table_entry. cbn [fst snd].
  destruct (validate_resolved k (rc_tenant c)) as [[]|e]; cbn [result_map_err result_bind]; [tauto|].
  split; [done|by intros [? _]].
Qed.

#[export] Instance email_tenant_bound {W} `{UrlParse, SerdeA2ui} cell api
    (ad : EmailAdapter W) post : TenantBound (email_courier cell api ad post) (table_owner ad).
Proof.
  split; [|done]. intros req p w w1. cbn [courier_authorize email_courier].
  unfold authorize, table_owner. destruct (ea_sender_table ad !! _) as [c|]; [|done]. cbn.
  case_decide; [|done]. congruence.
Qed.

(** Addresses of the table that differ in case only: which tenant owns the
    address depends on the order the decoded map is walked in. *)
Lemma collision_by_order :
  let alice := (§"Ann@x.org", {| rc_sub := []; rc_scopes := []; rc_tenant := §"acme" |}) in
  let bob := (§"ann@x.org", {| rc_sub := []; rc_scopes := []; rc_tenant := §"umbrella" |}) in
  rc_tenant <$> normalise [alice; bob] !! §"ann@x.org" = Some §"umbrella"
  ∧ rc_tenant <$> normalise [bob; alice] !! §"ann@x.org" = Some §"acme".
Proof. by vm_compute. Qed.

(** ** A send *)

Section SendFacts.
Context {W : Type} `{UrlParse, SerdeA2ui}.
Variable cell : HttpHosts.
Variable api : ApiRequest → W → ApiReply * W.
Variable post : Clock.
Variable resolve : SecretField → result str ResolveError.
Variable decode_table : str → result (list (str * RecipientClaims)) str.
Variable http_client : result unit str.
Implicit Types (ad : EmailAdapter W) (w : World W).

Lemma boot_table name a d config ad k c :
  from_manifest resolve decode_table http_client name a d config = Ok ad →
  ea_sender_table ad !! k = Some c →
  ∃ json entries e, decode_table json = Ok entries ∧ e ∈ entries ∧ recipient_key e.1 = k ∧ e.2 = c
    ∧ validate_resolved k (rc_tenant c) = Ok ().
Proof.
  unfold from_manifest. do 2 (case_bool_decide; [done|]).
  intros (? & _ & Hb)%result_bind_Ok. apply result_bind_Ok in Hb as (key & _ & Hb).
  apply result_bind_Ok in Hb as (from & _ & Hb). apply result_bind_Ok in Hb as (json & _ & Hb).
  apply result_bind_Ok in Hb as (entries & He%result_map_err_Ok & Hb).
  apply result_bind_Ok in Hb as ([] & Hv%result_map_err_Ok & Hb).
  apply result_bind_Ok in Hb as ([] & _ & Hb). injection Hb as <-. cbn [ea_sender_table]. intros Hk.
  apply validate_recipients_Ok in Hv. rewrite Forall_forall in Hv.
  pose proof (Hv (k, c) (proj2 (elem_of_map_to_list _ _ _) Hk)) as Hkc.
  apply normalise_keys in Hk as (e & Hin & -> & ->). by exists json, entries, e.
Qed.

(** The line of a post by [p]. *)
Definition mail_line (p : Principal) (reply : ApiReply) (r : result unit TritonError)
    (l : AuditRecord) : Prop :=
  phase l = Post ∧ AuditLog.protocol l = PROTOCOL ∧ tool l = OUTBOUND_TOOL ∧ subject l = sub p
  ∧ au_tenant l = tenant p ∧ au_trace_id l = trace_id p
  ∧ match reply with
    | Status s =>
        AuditLog.status l = s
        ∧ if (200 <=? s)%Z && (s <? 300)%Z
          then r = Ok () ∧ au_result l = §"ok" ∧ status_label l = Some §"posted"
          else r = Err (Provider (§"email API returned " ++ dec s))
               ∧ status_label l = Some (if (s =? 429)%Z || (500 <=? s)%Z then §"retry" else §"dropped")
    | NoResponse _ =>
        (∃ m, r = Err (Provider m)) ∧ AuditLog.status l = 0%Z ∧ status_label l = Some §"retry"
    end.

(** What a delivery did: nothing, or one POST and its line. *)
Definition mail_sent ad (req : OutboundRequest) p w (r : result unit TritonError) w' : Prop :=
  match try_render_surface cell (req_result req) with
  | Some (Some rendered) =>
      ∃ reply l, api (mail_request ad (req_to req) rendered) (outside w) = (reply, outside w')
        ∧ sinks w' = emit l (sinks w)
        ∧ audit_total (metrics w') = bump §"post" (audit_total (metrics w))
        ∧ mail_line p reply r l
  | _ => w' = w ∧ ∃ m, r = Err (Validation m)
  end.

Lemma deliver_accounted ad req p w :
  mail_sent ad req p w (deliver cell api ad post req p w).1 (deliver cell api ad post req p w).2.
Proof.
  unfold mail_sent, deliver. destruct (try_render_surface cell (req_result req)) as [[r|]|]; cbn [fst snd];
    [|by split; [|eexists]..].
  destruct (api _ _) as [reply o] eqn:E. cbn [fst snd]. exists reply.
  unfold send_outcome. destruct reply as [e|s].
  - eexists. split_and!; [done|reflexivity|reflexivity|]. repeat split. by eexists.
  - destruct (_ && _) eqn:Es; eexists; (split_and!; [done|reflexivity|reflexivity|]);
      unfold mail_line; rewrite Es; repeat split. by destruct (_ || _).
Qed.

(** C34: email reaches the caller's own tenant, once, and on the record.  From an
    adapter built at boot, a caller is authorised only for a recipient of the
    operator's table, by an entry whose address is the recipient's up to case and
    white space, whose tenant is valid and is the caller's; and then the delivery
    makes at most one POST, for that address: a result that is no surface or
    renders to nothing changes nothing and is a validation error, and otherwise
    one line says what became of the POST, as the caller is told: posted for a
    2xx answer, to retry for a 429, a 5xx or none, dropped for the others. *)
Theorem email_send_sound name a d config ad req p w w1 :
  from_manifest resolve decode_table http_client name a d config = Ok ad →
  authorize ad req p w = (Ok (), w1) →
  (∃ json entries e, decode_table json = Ok entries ∧ e ∈ entries
     ∧ recipient_key e.1 = recipient_key (req_to req) ∧ rc_tenant e.2 = tenant p
     ∧ validate_resolved (recipient_key e.1) (tenant p) = Ok ())
  ∧ w1 = w
  ∧ mail_sent ad req p w1 (deliver cell api ad post req p w1).1 (deliver cell api ad post req p w1).2.
Proof.
  intros Hb Ha. unfold authorize in Ha.
  destruct (ea_sender_table ad !! recipient_key (req_to req)) as [c|] eqn:Ek; [|done].
  destruct (decide (rc_tenant c = tenant p)) as [Et|]; [|done]. injection Ha as <-.
  eapply boot_table in Hb as (json & entries & e & Hd & Hin & Hk & He & Hv); [|exact Ek].
  split_and!; [|done|apply deliver_accounted]. exists json, entries, e. subst c. rewrite Hk, <- Et. done.
Qed.
End SendFacts.

Definition demo_entry : Adapter :=
  {| a_kind := AKEmail; a_tool := §"echo";
     a_inbound := {| in_kind := IWebhook; in_signature := SecretToken; in_credentials := [] |};
     a_outbound := {| out_kind := ORestApi;
                      out_credentials := [(§"token", Literal §"t"); (§"from", Literal §"bot@x.org")] |};
     a_identity := {| id_kind := KSenderTable; id_pairing_tool := None;
                      id_credentials := [(§"table", Literal §"{}")] |};
     a_degrade := []; a_rate_limit := {| rl_messages_per_sec := 1; rl_burst := 1 |};
     a_correlation_key := Literal §"k"; a_templates := []; a_surface_guidance := None |}.
Definition demo_table : list (str * RecipientClaims) :=
  [(§"Ann@x.org", {| rc_sub := []; rc_scopes := []; rc_tenant := §"acme" |})].
Definition demo_adapter : EmailAdapter nat :=
  {| ea_name := §"mail"; ea_from := §"bot@x.org"; ea_api_key := §"t";
     ea_sender_table := normalise demo_table; ea_dispatcher := demo_dispatcher None unenforced;
     ea_api_base := §"https://api.sendgrid.com" |}.
Definition demo_request : OutboundRequest :=
  {| req_to := §" ann@X.org "; req_result := json_object [(§"surface", Value.Null)];
     req_category := None; req_variables := []; req_reference := None |}.

Lemma email_send_sound_witness :
  let w := World_new unenforced 0 in
  let api := λ (_ : ApiRequest) n, (Status 202, S n) in
  from_manifest (LiteralResolver_resolve (λ _, None)) (λ _, Ok demo_table) (Ok ()) §"mail" demo_entry
    (demo_dispatcher None unenforced) default_config = Ok demo_adapter
  ∧ mail_sent (H := sample_url) (H0 := sample_serde) None api demo_adapter demo_request (alice []) w (Ok ())
      (deliver (H := sample_url) (H0 := sample_serde) None api demo_adapter tick demo_request (alice []) w).2.
Proof.
  intros w api.
  assert (from_manifest (LiteralResolver_resolve (λ _, None)) (λ _, Ok demo_table) (Ok ()) §"mail" demo_entry
    (demo_dispatcher None unenforced) default_config = Ok demo_adapter) as Hb by (vm_compute; reflexivity).
  split; [exact Hb|].
  exact (proj2 (proj2 (email_send_sound (H := sample_url) (H0 := sample_serde) None api tick
    (LiteralResolver_resolve (λ _, None)) (λ _, Ok demo_table) (Ok ()) §"mail" demo_entry
    (demo_dispatcher None unenforced) default_config demo_adapter demo_request (alice []) w w Hb
    ltac:(vm_compute; reflexivity)))).
Defined.
