(* ===== verification/WhatsAppMapper.v ===== *)
(** * WhatsAppMapper: a surface as one WhatsApp message
    (crates/triton-chat-whatsapp/src/surface_mapper.rs)

    Text becomes chunks, the first selection a list or the buttons reply buttons
    of signed tokens, the first dashboard an image.  Rendering indexes a vector
    that may be empty, which panics: that is [None]. *)

From S2P Require Import Prelude Json A2ui A2uiText Correlation TelegramMapper Surface.

Definition SURFACE : SurfaceProfile :=
  {| sp_channel := §"whatsapp"; sp_markdown := Markdown.Basic; sp_tables := Tables.Text;
     sp_buttons := true; sp_max_buttons := Some 3; sp_charts := Charts.None; sp_images := true;
     sp_max_text_bytes := Some 4096; sp_streaming := false; sp_subject_line := false;
     sp_guidance := §"WhatsApp: plain short text with *bold*/_italic_ only. No tables or charts; at most 3 short follow-up buttons; keep it to a few short paragraphs." |}.

(** The caps of the profile, which has them. *)
Definition WHATSAPP_TEXT_MAX_BYTES : nat := default 0 (text_cap SURFACE).
Definition TRUNCATION_SENTINEL : str :=
  nl ++ nl ++ §"[truncated — content exceeded WhatsApp's 4096-byte limit]".

Definition MAX_REPLY_BUTTONS : nat := default 0 (button_cap SURFACE).
Definition MAX_LIST_ROWS : nat := 10.
Definition BUTTON_TITLE_MAX : nat := 20.
Definition LIST_ROW_TITLE_MAX : nat := 24.
Definition LIST_MENU_LABEL_MAX : nat := 20.
Definition INTERACTIVE_BODY_MAX : nat := 1024.

Record WaMessage := {
  wm_text : str;
  wm_deferred_buttons : nat;
  wm_deferred_selections : nat;
  wm_deferred_forms : nat;
  wm_deferred_dashboards : nat;
  wm_truncated : bool;
  wm_dashboard : option RasterDashboard;
  wm_interactive : option Value;
}.

Record InteractiveChoice := { ic_title : str; ic_id : str }.
Record InteractiveSelection := { is_prompt : str; is_rows : list InteractiveChoice }.

(** ** Cutting *)

Definition truncate_chars (s : str) (max : nat) : str :=
  if (char_count s <=? max)%nat then s else take_chars max s.

(** The loop of [budget_raw]: the length of what is kept, of which [total] is
    behind. *)
Fixpoint budget_scan (fuel : nat) (rest : str) (max total : nat) : nat :=
  match fuel, rest with
  | S fuel, _ :: _ =>
      let n := char_len rest in
      if (max <? total + n)%nat then total else budget_scan fuel (drop n rest) max (total + n)
  | _, _ => total
  end.
Definition budget_raw (raw : str) (max_bytes : nat) : str :=
  take (budget_scan (length raw) raw max_bytes 0) raw.

(** ** Interactive objects and bodies *)

Definition interactive_body_text (chunks : list str) : str :=
  let joined := join (nl ++ nl) chunks in
  budget_raw (if is_empty joined then §"Please choose:" else joined) INTERACTIVE_BODY_MAX.

Definition reply_button (b : InteractiveChoice) : Value :=
  json_object [(§"type", js §"reply");
               (§"reply", json_object [(§"id", js (ic_id b)); (§"title", js (ic_title b))])].
Definition build_button_interactive (body_text : str) (buttons : list InteractiveChoice) : Value :=
  json_object [(§"type", js §"button");
               (§"body", json_object [(§"text", js body_text)]);
               (§"action", json_object [(§"buttons", Value.Array (reply_button <$> buttons))])].

Definition list_row (r : InteractiveChoice) : Value :=
  json_object [(§"id", js (ic_id r)); (§"title", js (ic_title r))].
Definition build_list_interactive (body_text : str) (sel : InteractiveSelection) : Value :=
  let menu := if is_empty (is_prompt sel) then §"Choose"
              else truncate_chars (is_prompt sel) LIST_MENU_LABEL_MAX in
  let rows := list_row <$> take MAX_LIST_ROWS (is_rows sel) in
  json_object [(§"type", js §"list");
               (§"body", json_object [(§"text", js body_text)]);
               (§"action", json_object
                  [(§"button", js menu);
                   (§"sections", Value.Array [json_object
                      [(§"title", js §"Options"); (§"rows", Value.Array rows)]])])].

Definition wa_body (to kind : str) (payload : str * Value) : Value :=
  json_object [(§"messaging_product", js §"whatsapp"); (§"recipient_type", js §"individual");
               (§"to", js to); (§"type", js kind); payload].
Definition build_interactive_body (to : str) (interactive : Value) : Value :=
  wa_body to §"interactive" (§"interactive", interactive).
Definition build_image_message_body (to media_id : str) (caption : option str) : Value :=
  let image := [(§"id", js media_id)] ++
    match caption with
    | Some c => if is_empty c then [] else [(§"caption", js c)]
    | None => []
    end in
  wa_body to §"image" (§"image", json_object image).
Definition build_messages_body (to : str) (msg : WaMessage) : Value :=
  wa_body to §"text" (§"text", json_object [(§"body", js (wm_text msg));
                                            (§"preview_url", Value.Bool false)]).
Definition build_template_body (to name language : str) (variables : list str) : Value :=
  let components :=
    if is_empty variables then []
    else [(§"components", Value.Array [json_object
            [(§"type", js §"body");
             (§"parameters", Value.Array
                ((λ v, json_object [(§"type", js §"text"); (§"text", js v)]) <$> variables))]])] in
  wa_body to §"template"
    (§"template", json_object ([(§"name", js name);
                                (§"language", json_object [(§"code", js language)])] ++ components)).

(** ** Collecting *)

(** The loop's variables. *)
Record WaCollected := {
  w_chunks : list str;
  w_raw : list (option (RawKind * str));
  w_deferred_buttons : nat;
  w_deferred_selections : nat;
  w_deferred_forms : nat;
  w_deferred_dashboards : nat;
  w_buttons : list InteractiveChoice;
  w_selection : option InteractiveSelection;
  w_dashboard : option RasterDashboard;
}.
Definition wa_nothing : WaCollected :=
  {| w_chunks := []; w_raw := []; w_deferred_buttons := 0; w_deferred_selections := 0;
     w_deferred_forms := 0; w_deferred_dashboards := 0; w_buttons := []; w_selection := None;
     w_dashboard := None |}.

(** A chunk and, where the source records it, what it was made from. *)
Definition w_push (chunk : str) (raw : list (option (RawKind * str))) (a : WaCollected) : WaCollected :=
  {| w_chunks := w_chunks a ++ [chunk]; w_raw := w_raw a ++ raw;
     w_deferred_buttons := w_deferred_buttons a; w_deferred_selections := w_deferred_selections a;
     w_deferred_forms := w_deferred_forms a; w_deferred_dashboards := w_deferred_dashboards a;
     w_buttons := w_buttons a; w_selection := w_selection a; w_dashboard := w_dashboard a |}.
Definition w_defer (b s f d : nat) (a : WaCollected) : WaCollected :=
  {| w_chunks := w_chunks a; w_raw := w_raw a; w_deferred_buttons := w_deferred_buttons a + b;
     w_deferred_selections := w_deferred_selections a + s;
     w_deferred_forms := w_deferred_forms a + f; w_deferred_dashboards := w_deferred_dashboards a + d;
     w_buttons := w_buttons a; w_selection := w_selection a; w_dashboard := w_dashboard a |}.
Definition w_control (bs : list InteractiveChoice) (sel : option InteractiveSelection)
    (dash : option RasterDashboard) (a : WaCollected) : WaCollected :=
  {| w_chunks := w_chunks a; w_raw := w_raw a; w_deferred_buttons := w_deferred_buttons a;
     w_deferred_selections := w_deferred_selections a; w_deferred_forms := w_deferred_forms a;
     w_deferred_dashboards := w_deferred_dashboards a; w_buttons := bs; w_selection := sel;
     w_dashboard := dash |}.

Definition w_fence : str := §"```".

Section Render.
Context `{UrlParse} (cell : HttpHosts) `{Crypto}.
Variables (correlation_key tenant sender : str).

Definition whatsapp_binding : Binding :=
  {| b_platform := §"whatsapp"; b_tenant := tenant; b_sender := sender |}.
Definition wa_mint (tool : str) (args : Value) : result str EncodeError :=
  encode_bound None tool args correlation_key PLATFORM_MAX_CALLBACK_DATA whatsapp_binding None.

(** The rows of a selection whose token fits. *)
Definition option_row (tool args_key : str) (o : SelectionOption) : option InteractiveChoice :=
  match wa_mint tool (option_args args_key o) with
  | Ok token => Some {| ic_title := truncate_chars (o_label o) LIST_ROW_TITLE_MAX; ic_id := token |}
  | Err _ => None
  end.

Definition wa_component (a : WaCollected) (c : Component) : WaCollected :=
  if is_conversation c then
    match degrade cell c with Some t => w_push t [Some (RawText, t)] a | None => a end
  else
    match c with
    | Component.Text value _ => w_push value [Some (RawText, value)] a
    | Component.Report _ _ _ _ _ => a
    | Component.Sources items =>
        if is_empty items then a else w_push (§"Sources: " ++ join §" · " (s_label <$> items)) [] a
    | Component.Narration text => w_push (§"_" ++ text ++ §"_") [Some (RawNarration, text)] a
    | Component.Diff lines =>
        w_push (w_fence ++ nl ++ diff_to_text lines ++ nl ++ w_fence) [None] a
    | Component.Button label tool args _ _ _ =>
        match wa_mint tool args with
        | Ok token =>
            w_control (w_buttons a ++ [{| ic_title := truncate_chars label BUTTON_TITLE_MAX;
                                          ic_id := token |}]) (w_selection a) (w_dashboard a) a
        | Err _ => w_defer 1 0 0 0 a
        end
    | Component.Selection prompt options tool args_key _ _ =>
        match w_selection a with
        | Some _ => w_defer 0 1 0 0 a
        | None =>
            let rows := omap (option_row tool args_key) options in
            if is_empty rows then w_defer 0 1 0 0 a
            else w_control (w_buttons a) (Some {| is_prompt := prompt; is_rows := rows |})
                   (w_dashboard a) a
        end
    | Component.Form _ _ _ _ _ _ => w_defer 0 0 1 0 a
    | Component.Dashboard title tiles =>
        match w_dashboard a with
        | None => w_control (w_buttons a) (w_selection a)
                    (Some {| rd_title := title; rd_tiles := tiles |}) a
        | Some _ => w_defer 0 0 0 1 a
        end
    | _ => a
    end.

Definition wa_collect (s : Surface) : WaCollected := fold_left wa_component (components s) wa_nothing.

(** The interactive object, and the counts after it was chosen. *)
Definition wa_interactive (a : WaCollected) : option Value * WaCollected :=
  match w_dashboard a with
  | Some _ => (None, w_defer (length (w_buttons a)) (match w_selection a with Some _ => 1 | None => 0 end)
                       0 0 a)
  | None =>
      match w_selection a with
      | Some sel =>
          (Some (build_list_interactive (interactive_body_text (w_chunks a)) sel),
           w_defer (length (w_buttons a)) 0 0 0 a)
      | None =>
          if is_empty (w_buttons a) then (None, a)
          else (Some (build_button_interactive (interactive_body_text (w_chunks a))
                        (take MAX_REPLY_BUTTONS (w_buttons a))),
                w_defer (length (w_buttons a) - MAX_REPLY_BUTTONS) 0 0 0 a)
      end
  end.

Definition wa_message (text : str) (truncated : bool) (dash : option RasterDashboard)
    (interactive : option Value) (a : WaCollected) : WaMessage :=
  {| wm_text := text; wm_deferred_buttons := w_deferred_buttons a;
     wm_deferred_selections := w_deferred_selections a; wm_deferred_forms := w_deferred_forms a;
     wm_deferred_dashboards := w_deferred_dashboards a; wm_truncated := truncated;
     wm_dashboard := dash; wm_interactive := interactive |}.

(** The first chunk cut down to the budget; [None] is the index out of
    bounds. *)
Definition wa_cut_first (budget : nat) (raw : list (option (RawKind * str))) : option str :=
  match raw with
  | [] => None
  | Some (RawText, raw) :: _ => Some (budget_raw raw budget ++ TRUNCATION_SENTINEL)
  | Some (RawNarration, raw) :: _ =>
      Some (§"_" ++ budget_raw raw (budget - 2) ++ §"_" ++ TRUNCATION_SENTINEL)
  | None :: _ => Some (trim_start TRUNCATION_SENTINEL)
  end.

(** The text and whether it was cut. *)
Definition wa_fit (a : WaCollected) : option (str * bool) :=
  let joined := join (nl ++ nl) (w_chunks a) in
  if (length joined <=? WHATSAPP_TEXT_MAX_BYTES)%nat then Some (joined, false)
  else
    let budget := WHATSAPP_TEXT_MAX_BYTES - length TRUNCATION_SENTINEL in
    match accepted_prefix budget 0 true (w_chunks a) with
    | [] => (λ t, (t, true)) <$> wa_cut_first budget (w_raw a)
    | accepted => Some (join (nl ++ nl) accepted ++ TRUNCATION_SENTINEL, true)
    end.

Definition wa_finish (a : WaCollected) : option (result WaMessage RenderError) :=
  let '(interactive, a) := wa_interactive a in
  match interactive with
  | Some i => Some (Ok (wa_message (interactive_body_text (w_chunks a)) false None (Some i) a))
  | None =>
      if is_empty (w_chunks a) && bool_decide (w_dashboard a = None) then Some (Err EmptyAfterRender)
      else x ← wa_fit a; Some (Ok (wa_message x.1 x.2 (w_dashboard a) None a))
  end.

Definition wa_render (s : Surface) : option (result WaMessage RenderError) := wa_finish (wa_collect s).

Context `{SerdeA2ui}.

(** The outer option: not a surface. *)
Definition wa_try_render (res : Value) : option (option (result WaMessage RenderError)) :=
  match extract_surface cell res with Ok s => Some (wa_render s) | Err _ => None end.
End Render.

(** * What fits *)

Lemma budget_scan_le fuel rest max total : total ≤ max → budget_scan fuel rest max total ≤ max.
Proof.
  revert rest total. induction fuel as [|fuel IH]; intros rest total Ht; [done|].
  destruct rest as [|a rest]; [done|]. cbn [budget_scan]. cbv zeta.
  destruct (max <? _)%nat eqn:E; bool_facts; [done|]. by apply IH.
Qed.
Lemma budget_raw_le raw max : length (budget_raw raw max) ≤ max.
Proof.
  unfold budget_raw. rewrite length_take. pose proof (budget_scan_le (length raw) raw max 0). lia.
Qed.

Lemma take_chars_count n s : char_count (take_chars n s) ≤ n.
Proof.
  revert n. unfold char_count. induction s as [|a s IH]; intros n; [cbn; lia|]. cbn [take_chars].
  destruct (is_continuation a) eqn:E.
  - rewrite filter_cons_False by (by rewrite E). apply IH.
  - destruct n as [|n]; [cbn; lia|]. rewrite filter_cons_True by done. cbn [length].
    specialize (IH n). lia.
Qed.
Lemma truncate_chars_count s max : char_count (truncate_chars s max) ≤ max.
Proof.
  unfold truncate_chars. destruct (_ <=? max)%nat eqn:E; bool_facts; [done|apply take_chars_count].
Qed.

Lemma accepted_none budget c cs :
  accepted_prefix budget 0 true (c :: cs) = [] → budget < length c.
Proof. cbn [accepted_prefix]. destruct (_ <? _)%nat eqn:E; bool_facts; [lia|done]. Qed.

Section Facts.
Context `{UrlParse} (cell : HttpHosts) `{Crypto}.
Variables (key tenant sender : str).

(** The calls a surface's own controls ask for. *)
Definition control_calls (c : Component) : list (str * Value) :=
  match c with
  | Component.Button _ tool args _ _ _ => [(tool, args)]
  | Component.Selection _ options tool args_key _ _ => (λ o, (tool, option_args args_key o)) <$> options
  | _ => []
  end.

(** A short title, and a token for the recipient of one of those calls. *)
Definition choice_ok (cs : list Component) (title_max : nat) (x : InteractiveChoice) : Prop :=
  char_count (ic_title x) ≤ title_max
  ∧ ∃ c call, c ∈ cs ∧ call ∈ control_calls c
    ∧ wa_mint key tenant sender call.1 call.2 = Ok (ic_id x).

Definition sources_chunk (cs : list Component) (chunk : str) : Prop :=
  ∃ items, Component.Sources items ∈ cs
    ∧ chunk = §"Sources: " ++ join §" · " (s_label <$> items).

Record wa_collected_ok (cs : list Component) (a : WaCollected) : Prop := {
  ok_raw : w_raw a = [] → Forall (sources_chunk cs) (w_chunks a);
  ok_buttons : Forall (choice_ok cs BUTTON_TITLE_MAX) (w_buttons a);
  ok_selection sel : w_selection a = Some sel →
    is_rows sel ≠ [] ∧ Forall (choice_ok cs LIST_ROW_TITLE_MAX) (is_rows sel);
}.

Lemma w_push_ok cs chunk r a :
  wa_collected_ok cs a → wa_collected_ok cs (w_push chunk [r] a).
Proof. intros [Hr Hb Hs]. split; cbn; [|done|done]. by intros [_ ?]%app_nil. Qed.
Lemma w_defer_ok cs b s f d a : wa_collected_ok cs a → wa_collected_ok cs (w_defer b s f d a).
Proof. intros [Hr Hb Hs]. by split. Qed.

Lemma option_rows_ok cs prompt options tool args_key action template :
  Component.Selection prompt options tool args_key action template ∈ cs →
  Forall (choice_ok cs LIST_ROW_TITLE_MAX) (omap (option_row key tenant sender tool args_key) options).
Proof.
  intros Hc. apply Forall_forall. intros x (o & Ho & Hx)%list_elem_of_omap. unfold option_row in Hx.
  destruct (wa_mint key tenant sender tool (option_args args_key o)) as [token|] eqn:E; [|done].
  injection Hx as <-. split; [apply truncate_chars_count|].
  eexists _, (tool, option_args args_key o). split; [exact Hc|]. split; [|done].
  cbn [control_calls]. apply list_elem_of_fmap. eauto.
Qed.

Lemma wa_component_ok cs a c :
  c ∈ cs → wa_collected_ok cs a → wa_collected_ok cs (wa_component cell key tenant sender a c).
Proof.
  intros Hc Ha. unfold wa_component. destruct (is_conversation c).
  { destruct (degrade cell c); [by apply w_push_ok|done]. }
  destruct c; try exact Ha; try (by apply w_push_ok); try (by apply w_defer_ok).
  - destruct (wa_mint key tenant sender tool args) as [token|] eqn:E; [|by apply w_defer_ok].
    destruct Ha as [Hr Hb Hs]. split; cbn [w_control w_raw w_chunks w_buttons w_selection]; [done| |done].
    apply Forall_app. split; [done|]. constructor; [|constructor]. split; [apply truncate_chars_count|].
    eexists _, (tool, args). split; [exact Hc|]. split; [set_solver|done].
  - destruct (w_selection a) as [sel|] eqn:Es; [by apply w_defer_ok|].
    destruct (is_empty _) eqn:Ee; [by apply w_defer_ok|].
    destruct Ha as [Hr Hb Hs]. split; cbn [w_control w_raw w_chunks w_buttons w_selection]; [done|done|].
    intros sel [= <-]. cbn [is_rows]. split; [by destruct (omap _ _)|by eapply option_rows_ok].
  - destruct (w_dashboard a); [by apply w_defer_ok|]. by destruct Ha.
  - destruct (is_empty items); [done|]. destruct Ha as [Hr Hb Hs].
    split; cbn; [|done|done]. rewrite app_nil_r. intros Hnil. apply Forall_app. split; [auto|].
    constructor; [by exists items|constructor].
Qed.

Lemma wa_collect_ok s : wa_collected_ok (components s) (wa_collect cell key tenant sender s).
Proof.
  unfold wa_collect. apply fold_invariant; [|by split; [intros _; constructor|constructor|]].
  intros a c Hc. by apply wa_component_ok.
Qed.

Lemma wa_cut_first_bound budget raw t :
  2 ≤ budget → wa_cut_first budget raw = Some t → length t ≤ budget + length TRUNCATION_SENTINEL.
Proof using Type.
  intros Hb. unfold wa_cut_first. destruct raw as [|[[[] r]|] raw]; [done|..];
    intros Ht; apply (inj Some) in Ht as <-.
  - rewrite length_app. pose proof (budget_raw_le r budget). lia.
  - rewrite !length_app. pose proof (budget_raw_le r (budget - 2)). cbn [length lit String.list_ascii_of_string]. lia.
  - transitivity (length TRUNCATION_SENTINEL); [by apply Nat.leb_le|lia].
Qed.

Lemma wa_fit_bound a x : wa_fit a = Some x → length x.1 ≤ WHATSAPP_TEXT_MAX_BYTES.
Proof using Type.
  assert (length TRUNCATION_SENTINEL + 2 ≤ WHATSAPP_TEXT_MAX_BYTES) as Hs by by apply Nat.leb_le.
  unfold wa_fit. destruct (_ <=? _)%nat eqn:E; bool_facts; [by intros [= <-]|].
  set (b := WHATSAPP_TEXT_MAX_BYTES - length TRUNCATION_SENTINEL).
  pose proof (accepted_bound b (w_chunks a)) as Ha.
  destruct (accepted_prefix b 0 true (w_chunks a)) as [|c l].
  - destruct (wa_cut_first b (w_raw a)) as [t|] eqn:Et; [|done]. intros [= <-]. cbn [fst].
    assert (2 ≤ b) as Hb by (unfold b; lia). apply (wa_cut_first_bound _ _ _ Hb) in Et.
    unfold b in Et. lia.
  - intros Hx. apply (inj Some) in Hx as <-. cbn [fst]. rewrite length_app. unfold b in Ha. lia.
Qed.

(** An interactive object: one to three reply buttons, or a list of at most ten
    rows, under a short body. *)
Definition interactive_ok (cs : list Component) (body : str) (i : Value) : Prop :=
  length body ≤ INTERACTIVE_BODY_MAX
  ∧ ((∃ bs, i = build_button_interactive body bs ∧ 1 ≤ length bs ≤ 3
        ∧ Forall (choice_ok cs BUTTON_TITLE_MAX) bs)
     ∨ ∃ sel, i = build_list_interactive body sel ∧ is_rows sel ≠ []
        ∧ length (take MAX_LIST_ROWS (is_rows sel)) ≤ 10
        ∧ Forall (choice_ok cs LIST_ROW_TITLE_MAX) (is_rows sel)).

Lemma wa_interactive_ok cs a i a' :
  wa_collected_ok cs a → wa_interactive a = (Some i, a') →
  w_chunks a' = w_chunks a ∧ interactive_ok cs (interactive_body_text (w_chunks a)) i.
Proof using Type.
  intros [_ Hb Hs]. unfold wa_interactive, interactive_ok.
  assert (length (interactive_body_text (w_chunks a)) ≤ INTERACTIVE_BODY_MAX) by apply budget_raw_le.
  destruct (w_dashboard a); [done|]. destruct (w_selection a) as [sel|] eqn:Es.
  - intros [= <- <-]. split_and!; [done|done|]. right. exists sel. destruct (Hs sel eq_refl).
    split_and!; [done|done|rewrite length_take; unfold MAX_LIST_ROWS; lia|done].
  - destruct (w_buttons a) as [|b bs] eqn:Eb; [done|]. cbn [is_empty]. intros [= <- <-].
    split_and!; [done|done|]. left. exists (take MAX_REPLY_BUTTONS (b :: bs)). rewrite length_take.
    change MAX_REPLY_BUTTONS with 3. cbn [length].
    split_and!; [done|lia|lia|by apply (Forall_take _ 3)].
Qed.

Lemma wa_fit_panics cs a :
  wa_collected_ok cs a → wa_fit a = None →
  ∃ items, Component.Sources items ∈ cs
    ∧ WHATSAPP_TEXT_MAX_BYTES - length TRUNCATION_SENTINEL
      < length (§"Sources: " ++ join §" · " (s_label <$> items)).
Proof using Type.
  intros [Hr _ _]. unfold wa_fit. destruct (_ <=? _)%nat eqn:E; bool_facts; [done|].
  destruct (accepted_prefix _ 0 true (w_chunks a)) as [|c l] eqn:Ep; [|done].
  unfold wa_cut_first. destruct (w_raw a) as [|[[[] r]|] raw]; [|done..].
  intros _. specialize (Hr eq_refl). destruct Hr as [|c cs' (items & Hin & ->) _]; [cbn in E; lia|].
  exists items. split; [done|]. by apply accepted_none in Ep.
Qed.

(** A WhatsApp message keeps the platform's limits, and its controls are the
    surface's.  Rendering gives a text of at most 4,096 bytes; an interactive
    message is one to three reply buttons or a list of at most ten rows, under at
    most 1,024 bytes and beside no image, every title is short, and every id is a
    token signed for this tenant and recipient for a call a control of the
    surface asks for; nothing comes out only of a surface with neither text nor
    control nor dashboard; and rendering panics only on a list of sources longer
    than the message. *)
Theorem wa_message_fits s :
  match wa_render cell key tenant sender s with
  | Some (Ok m) =>
      length (wm_text m) ≤ 4096
      ∧ (∀ i, wm_interactive m = Some i →
           wm_dashboard m = None ∧ interactive_ok (components s) (wm_text m) i)
  | Some (Err _) =>
      let a := wa_collect cell key tenant sender s in
      w_chunks a = [] ∧ w_buttons a = [] ∧ w_selection a = None ∧ w_dashboard a = None
  | None =>
      ∃ items, Component.Sources items ∈ components s
        ∧ WHATSAPP_TEXT_MAX_BYTES - length TRUNCATION_SENTINEL
          < length (§"Sources: " ++ join §" · " (s_label <$> items))
  end.
Proof using Type.
  pose proof (wa_collect_ok s) as Hok. unfold wa_render.
  generalize dependent (wa_collect cell key tenant sender s). intros a Hok. unfold wa_finish.
  destruct (wa_interactive a) as [[i|] a'] eqn:Ei.
  { apply (wa_interactive_ok (components s)) in Ei as [Hc Hi]; [|done].
    cbn [wa_message wm_text wm_interactive wm_dashboard]. rewrite Hc. split.
    - etransitivity; [apply budget_raw_le|]. by apply Nat.leb_le.
    - by intros i' [= <-]. }
  assert (w_chunks a' = w_chunks a ∧ w_dashboard a' = w_dashboard a ∧ wa_collected_ok (components s) a'
    ∧ (w_dashboard a = None → w_buttons a = [] ∧ w_selection a = None)) as (Hc & Hd & Hok' & Hn).
  { revert Ei. unfold wa_interactive. destruct (w_dashboard a) eqn:Ed.
    - intros [= <-]. split_and!; [done|done|by apply w_defer_ok|done].
    - destruct (w_selection a); [done|]. destruct (w_buttons a); [|done]. by intros [= <-]. }
  destruct (is_empty (w_chunks a') && _) eqn:E.
  - apply andb_true_iff in E as [E1 E2%bool_decide_eq_true]. rewrite Hd in E2. rewrite Hc in E1.
    cbv zeta. destruct (Hn E2). split_and!; [by destruct (w_chunks a)|done|done|done].
  - destruct (wa_fit a') as [x|] eqn:Ex; cbn [mbind option_bind].
    + cbn [wa_message wm_text wm_interactive]. split; [|done]. by apply (wa_fit_bound a').
    + by apply (wa_fit_panics _ a').
Qed.
End Facts.

(** A long list of sources alone: the vector of raw chunks is empty. *)
Lemma long_sources_panic `{UrlParse, Crypto} cell key tenant sender (label : str) :
  5000 ≤ length label →
  ∃ items, wa_render cell key tenant sender {| components := [Component.Sources items] |} = None.
Proof.
  intros Hl. exists [{| s_label := label; s_resource := [] |}].
  unfold wa_render, wa_collect, wa_finish, wa_fit. cbn [components fold_left wa_component is_conversation is_empty
    w_push wa_nothing w_chunks w_raw app wa_interactive w_dashboard w_selection w_buttons fmap list_fmap join s_label].
  assert (5000 ≤ length (§"Sources: " ++ label)) as Hlen by (rewrite length_app; lia).
  revert Hlen. generalize (§"Sources: " ++ label) as l. intros l Hlen. cbn [andb].
  rewrite (proj2 (Nat.leb_gt _ _)) by (change WHATSAPP_TEXT_MAX_BYTES with 4096; lia).
  cbn [accepted_prefix]. rewrite (proj2 (Nat.ltb_lt _ _)) by (change WHATSAPP_TEXT_MAX_BYTES with 4096; lia).
  reflexivity.
Qed.
