(* ===== verification/WhatsApp.v ===== *)
(** * WhatsApp: the Cloud API adapter (crates/triton-chat-whatsapp/src/lib.rs)

    The handshake, the signed webhook with its batch of messages, answers with
    their images, the 24-hour service window, proactive sends and boot.  The
    Graph API is part of the world outside ([api]); a panic is [None]. *)

From Stdlib Require Import SpecFloat.
From S2P Require Import Prelude Json Errors Principal RateLimit Context AuditLog Dispatcher.
From S2P Require Import Correlation A2ui A2uiText ChatIdentity Manifest Chat.
From S2P Require Import TelegramMapper Telegram WhatsAppMapper Outbound.

Definition PROTOCOL : str := §"messenger:whatsapp".
Definition PROTOCOL_RESOLVE : str := §"messenger:whatsapp:identity".
Definition OUTBOUND_TOOL : str := §"outbound".
Definition SERVICE_WINDOW : Z := 24 * 60 * 60 * 1000000000.
Definition SERVICE_WINDOW_PRUNE_AT : nat := 1024.

Record WaAdapter (W : Type) := {
  wa_name : str;
  wa_app_secret : str;
  wa_verify_token : str;
  wa_access_token : str;
  wa_phone_number_id : str;
  wa_identity : IdentityMode;
  wa_inbound_tool : str;
  wa_dispatcher : Dispatcher W;
  (** [CourierClient]: the base address without the slashes at its end *)
  wa_base : str;
  wa_rasterizer : option (RasterDashboard → Principal → str → World W → result str str * World W);
  wa_templates : list (TemplateCategory * TemplateDecl);
  wa_correlation_key : KeyRing;
}.
Arguments wa_name {W} _.
Arguments wa_app_secret {W} _.
Arguments wa_verify_token {W} _.
Arguments wa_access_token {W} _.
Arguments wa_phone_number_id {W} _.
Arguments wa_identity {W} _.
Arguments wa_inbound_tool {W} _.
Arguments wa_dispatcher {W} _.
Arguments wa_base {W} _.
Arguments wa_rasterizer {W} _.
Arguments wa_templates {W} _.
Arguments wa_correlation_key {W} _.

(** ** The service window *)

(** When each sender was last heard of. *)
Abbreviation ServiceWindow := (gmap str Z).

(** [now.saturating_duration_since(t) < window] *)
Definition open_at (now window t : Z) : bool := (Z.max 0 (now - t) <? window)%Z.

Definition prune_expired_window (now window : Z) (m : ServiceWindow) : ServiceWindow :=
  filter (λ kv, open_at now window kv.2 = true) m.

Definition stamp_service_window (wa_id : str) (now : Z) (m : ServiceWindow) : ServiceWindow :=
  let m := if (SERVICE_WINDOW_PRUNE_AT <=? size m)%nat
           then prune_expired_window now SERVICE_WINDOW m else m in
  <[wa_id := now]> m.

Definition is_within_window (wa_id : str) (now : Z) (m : ServiceWindow) : bool :=
  default false (open_at now SERVICE_WINDOW <$> m !! wa_id).

(** ** The courier *)

Inductive CourierError :=
  | Transport (m : str)
  | Application (http_status : Z) (label : PostLabel).

Definition courier_label (e : CourierError) : PostLabel :=
  match e with Transport _ => LRetry | Application _ label => label end.
Definition courier_http_status (e : CourierError) : Z :=
  match e with Transport _ => 0 | Application s _ => s end.
Definition courier_message (e : CourierError) : str :=
  match e with
  | Transport m => §"whatsapp courier transport: " ++ m
  | Application s label =>
      §"whatsapp courier application: http_status=" ++ dec s ++ §", label=" ++ post_label_str label
  end.

(** A POST with the bearer token: a message, or an image to keep. *)
Inductive GraphCall :=
  | PostMessage (url bearer : str) (body : Value)
  | PostMedia (url bearer : str) (png : str).
(** No response, or a status and, for an image, its id as the body has it. *)
Inductive GraphReply :=
  | NoResponse (error : str)
  | Answer (http_status : Z) (media : result str str).

Definition success (s : Z) : bool := (200 <=? s)%Z && (s <? 300)%Z.
Definition failure_label (s : Z) : PostLabel :=
  if (s =? 429)%Z || (500 <=? s)%Z then LRetry else LDropped.

Definition redact_bearer (s token : str) : str := redact §"<redacted>" s token.

Definition classify_send (token : str) (r : GraphReply) : result SendOutcome CourierError :=
  match r with
  | NoResponse e => Err (Transport (redact_bearer e token))
  | Answer s _ =>
      if success s then Ok {| so_http_status := s; so_label := LPosted |}
      else Err (Application s (failure_label s))
  end.
Definition classify_upload (token : str) (r : GraphReply) : result str CourierError :=
  match r with
  | NoResponse e => Err (Transport (redact_bearer e token))
  | Answer s media =>
      if negb (success s) then Err (Application s (failure_label s))
      else match media with
           | Err e => Err (Transport (redact_bearer e token))
           | Ok id => if is_empty id then Err (Application s LDropped) else Ok id
           end
  end.

(** ** State and readings *)

Record WaState (W : Type) := { wa_chat : ChatState W; wa_window : ServiceWindow }.
Arguments wa_chat {W} _.
Arguments wa_window {W} _.
Arguments Build_WaState {W} _ _.

Definition on_wa {W A : Type} (f : ST (ChatState W) A) : ST (WaState W) A :=
  λ s, let '(a, c) := f (wa_chat s) in (a, Build_WaState c (wa_window s)).
Definition stamp {W : Type} (wa_id : str) (now : Z) : ST (WaState W) unit :=
  λ s, ((), Build_WaState (wa_chat s) (stamp_service_window wa_id now (wa_window s))).

(** What one message or one send reads. *)
Record MsgEnv := {
  me_chat : ChatEnv;
  me_resolve : Clock;
  me_resolve_uuid : str;
  me_window_now : Z;
  me_raster : Clock;
  me_upload : Clock;
}.

Record InboundMessage := { im_from : str; im_kind : str; im_text : option str }.
(** [entry], [changes] and [messages]. *)
Definition WebhookEnvelope : Type := list (list (list InboundMessage)).

(** The messages that are acted on, in order. *)
Definition text_of (m : InboundMessage) : option (str * str) :=
  if bool_decide (im_kind m ≠ §"text") then None
  else match im_text m with
       | None | Some [] => None
       | Some text => Some (im_from m, text)
       end.
Definition inbound_texts (e : WebhookEnvelope) : list (str * str) := omap text_of (concat (concat e)).

Record VerifyQuery := { vq_mode : str; vq_verify_token : str; vq_challenge : str }.

Definition wa_route_command (dev_token : bool) (text default_tool : str) : str * Value :=
  let fallback := (default_tool, json_object [(§"message", Value.String text)]) in
  match strip_prefix §"/" text with
  | None => fallback
  | Some rest =>
      let '(tool, subject) := default (rest, []) (split_once " " rest) in
      if decide (tool = §"narrate")
      then (§"narrate", json_object [(§"subject", Value.String subject)])
      else if dev_token && bool_decide (tool = §"demo") then (§"demo_panel", Value.Object [])
      else fallback
  end.

Definition plain_message (text : str) : WaMessage :=
  {| wm_text := text; wm_deferred_buttons := 0; wm_deferred_selections := 0; wm_deferred_forms := 0;
     wm_deferred_dashboards := 0; wm_truncated := false; wm_dashboard := None;
     wm_interactive := None |}.

Definition category_of_str (s : str) : option TemplateCategory :=
  if decide (s = §"utility") then Some Utility
  else if decide (s = §"marketing") then Some Marketing
  else if decide (s = §"authentication") then Some Authentication
  else None.
Definition template_for (c : TemplateCategory) (l : list (TemplateCategory * TemplateDecl))
    : option TemplateDecl :=
  snd <$> find (λ x, bool_decide (x.1 = c)) l.

Section Handlers.
Context {W : Type} `{SerdeJson, Crypto, UrlParse, SerdeA2ui}.
Variable cell : HttpHosts.
Variable dev_token : bool.
Variable debug_set : gset str → str.
Variable decode_reply : Value → result ResolverReply str.
(** [serde_json::from_slice] into an envelope, with its error's text. *)
Variable parse_envelope : str → result WebhookEnvelope str.
(** [hex::decode] *)
Variable hex_decode : str → option str.
Variable iter : gmap str (Tracked spec_float) → list (str * Tracked spec_float).
Variable two_decimals : RetryAfter spec_float → str.
(** The Graph API. *)
Variable api : GraphCall → W → GraphReply * W.
Variable ad : WaAdapter W.

Definition verify_hmac256 (header body : str) : bool :=
  match strip_prefix §"sha256=" header with
  | None => false
  | Some hex_part =>
      match hex_decode hex_part with
      | None => false
      | Some presented =>
          if negb (length presented =? 32)%nat then false
          else bool_decide (presented = hmac_sha256 (wa_app_secret ad) body)
      end
  end.

Definition reject (env : ChatEnv) (sub tenant : str) (e : TritonError) : ST (ChatState W) unit :=
  to_chat_world (record_rejection (wa_dispatcher ad) (ce_reject_when env) (ce_reject_now env)
                   (wa_name ad) PROTOCOL sub tenant (ce_reject_uuid env) e).
Definition refuse {A : Type} (env : ChatEnv) (sub tenant : str) (e : TritonError) (r : A)
    : ST (ChatState W) A :=
  _ ←ₛ reject env sub tenant e; ret r.

(** ** The handshake *)

Definition handle_verify (env : ChatEnv) (q : VerifyQuery) : ST (ChatState W) Response :=
  if bool_decide (vq_mode q = §"subscribe") && negb (is_empty (wa_verify_token ad))
     && constant_time_eq (vq_verify_token q) (wa_verify_token ad)
  then ret (respond 200 (vq_challenge q))
  else refuse env §"-" §"-" (Auth §"whatsapp verify handshake mismatch") (respond 403 §"forbidden").

(** ** Answers *)

Definition graph (c : GraphCall) (w : World W) : GraphReply * World W :=
  let '(r, o) := api c (outside w) in (r, set_outside o w).
Definition graph_url (what : str) : str :=
  wa_base ad ++ §"/v18.0/" ++ wa_phone_number_id ad ++ what.

Definition send_message (body : Value) (w : World W) : result SendOutcome CourierError * World W :=
  let '(r, w) := graph (PostMessage (graph_url §"/messages") (wa_access_token ad) body) w in
  (classify_send (wa_access_token ad) r, w).
Definition upload_media (png : str) (w : World W) : result str CourierError * World W :=
  let '(r, w) := graph (PostMedia (graph_url §"/media") (wa_access_token ad) png) w in
  (classify_upload (wa_access_token ad) r, w).

Definition courier_failure (e : CourierError)
    : TritonError * Z * PostOutcome * option str :=
  (Provider (courier_message e), courier_http_status e, to_outcome (courier_label e), None).

Definition record_post_outcome (c : Clock) (tool_name : str) (p : Principal)
    (outcome : result SendOutcome CourierError) (w : World W) : World W :=
  record_post (wa_dispatcher ad) (c_when c) tool_name PROTOCOL p (elapsed_ms c)
    match outcome with
    | Ok s => Ok (so_http_status s, to_outcome (so_label s), None)
    | Err e => Err (courier_failure e)
    end w.

(** One message to the platform and its audit line. *)
Definition send_and_record (c : Clock) (tool_name : str) (p : Principal) (body : Value) (w : World W)
    : World W :=
  let '(outcome, w) := send_message body w in record_post_outcome c tool_name p outcome w.

Definition rasterize_dashboard (c : Clock) (tool_name : str) (p : Principal)
    (render : RasterDashboard → Principal → str → World W → result str str * World W)
    (dash : RasterDashboard) (w : World W) : result str str * World W :=
  let '(r, w) := render dash p PROTOCOL w in
  (r, record_post (wa_dispatcher ad) (c_when c) tool_name PROTOCOL p (elapsed_ms c)
        match r with
        | Ok _ => Ok (200%Z, Posted, Some §"rasterizer_call")
        | Err e => Err (Provider (§"rasterizer: " ++ e), 0%Z, Dropped, Some §"rasterizer_failed")
        end w).

Definition with_placeholder (placeholder : str) (msg : WaMessage) : WaMessage :=
  {| wm_text := if is_empty (wm_text msg) then placeholder
                else wm_text msg ++ nl ++ nl ++ placeholder;
     wm_deferred_buttons := wm_deferred_buttons msg;
     wm_deferred_selections := wm_deferred_selections msg;
     wm_deferred_forms := wm_deferred_forms msg;
     wm_deferred_dashboards := wm_deferred_dashboards msg; wm_truncated := wm_truncated msg;
     wm_dashboard := None; wm_interactive := wm_interactive msg |}.

Definition message_body (to : str) (msg : WaMessage) : Value :=
  match wm_interactive msg with
  | Some i => build_interactive_body to i
  | None => build_messages_body to msg
  end.

(** The image of a dashboard: kept first, then sent with the text as caption. *)
Definition post_image (env : MsgEnv) (p : Principal) (tool_name to : str) (msg : WaMessage)
    (png : str) (w : World W) : World W :=
  let '(media, w) := upload_media png w in
  match media with
  | Err e =>
      record_post (wa_dispatcher ad) (c_when (me_upload env)) tool_name PROTOCOL p
        (elapsed_ms (me_upload env)) (Err (courier_failure e)) w
  | Ok media_id =>
      let caption := if is_empty (wm_text msg) then None else Some (wm_text msg) in
      send_and_record (ce_post (me_chat env)) tool_name p
        (build_image_message_body to media_id caption) w
  end.

Definition post_back (env : MsgEnv) (p : Principal) (tool_name to : str) (msg : WaMessage)
    (w : World W) : World W :=
  let send_text msg := send_and_record (ce_post (me_chat env)) tool_name p (message_body to msg) in
  match wm_dashboard msg with
  | None => send_text msg w
  | Some dash =>
      match wa_rasterizer ad with
      | None =>
          send_text (with_placeholder (§"(dashboard '" ++ rd_title dash
                       ++ §"' deferred — rasterizer not configured)") msg) w
      | Some render =>
          let '(r, w) := rasterize_dashboard (me_raster env) tool_name p render dash w in
          match r with
          | Ok png => post_image env p tool_name to msg png w
          | Err _ =>
              send_text (with_placeholder (§"(dashboard '" ++ rd_title dash
                           ++ §"' unavailable — rasterizer failed)") msg) w
          end
      end
  end.

Definition render_dispatch_result (res : Value) (key tenant sender : str)
    : option (result WaMessage RenderError) :=
  match wa_try_render cell key tenant sender res with
  | Some r => r
  | None =>
      let text := bare_text res in
      Some (if is_empty text then Err EmptyAfterRender else Ok (plain_message text))
  end.

Definition wa_signing_key : str := default [] (signing (wa_correlation_key ad)).

(** ** The webhook *)

Definition resolve_sender (env : MsgEnv) (sender_key : str) (w : World W)
    : result Resolved (TritonError * str) * World W :=
  match wa_identity ad with
  | ModeSenderTable table =>
      (ok_or (SenderTable_resolve table sender_key)
         (Auth (§"unknown sender " ++ sender_key), §"unknown sender"), w)
  | ModeUpstream up =>
      let '(r, w) := resolver_resolve debug_set decode_reply up (wa_dispatcher ad) (me_resolve env)
                       (me_resolve_uuid env) sender_key w in
      (result_map_err (λ e, (e, §"identity resolution failed")) r, w)
  end.

Definition wa_principal (env : MsgEnv) (sender_key : str) (r : Resolved) : Principal :=
  {| sub := r_sub r; scopes := r_scopes r; groups := r_groups r; tenant := r_tenant r;
     raw_token := []; trace_id := ce_trace (me_chat env);
     sender_ref := match wa_identity ad with ModeUpstream _ => Some sender_key | _ => None end;
     conversation_ref := None; idp := None |}.

(** What follows a dispatch; [None]: the task panicked. *)
Definition answer_with (env : MsgEnv) (tool_name to : str) (p : Principal)
    (r : result DispatchResult TritonError) (w : World W) : option unit * World W :=
  match r with
  | Err _ => (Some (), w)
  | Ok dispatch =>
      match render_dispatch_result (dr_result dispatch) wa_signing_key (tenant p) to with
      | None => (None, w)
      | Some (Ok msg) => (Some (), post_back env p tool_name to msg w)
      | Some (Err EmptyAfterRender) =>
          (Some (), record_post (wa_dispatcher ad) (c_when (ce_post (me_chat env))) tool_name PROTOCOL
             p 0 (Err (Provider §"whatsapp surface mapper: empty surface", 0%Z, Dropped, None)) w)
      end
  end.

Definition process_message (env : MsgEnv) (sender_key text : str)
    : ST (WaState W) (option (result unit Response)) :=
  let ce := me_chat env in
  resolved ←ₛ on_wa (on_chat_world (resolve_sender env sender_key));
  match resolved with
  | Err (e, body) => on_wa (refuse ce §"-" §"-" e (Some (Err (respond 401 body))))
  | Ok r =>
      _ ←ₛ stamp sender_key (me_window_now env);
      taken ←ₛ on_wa (on_chat_tenants (tenant_try_take iter (ce_tenant_now ce) (r_tenant r)));
      match taken with
      | Err wait =>
          on_wa (refuse ce (r_sub r) (r_tenant r)
            (RateLimited (§"tenant `" ++ r_tenant r ++ §"` rate limit hit on adapter `" ++ wa_name ad
                            ++ §"`; retry in " ++ two_decimals wait ++ §"s"))
            (Some (Err (too_many wait §"tenant rate limited"))))
      | Ok _ =>
          let p := wa_principal env sender_key r in
          let '(tool_name, args) := wa_route_command dev_token text (wa_inbound_tool ad) in
          d ←ₛ on_wa (on_chat_world (invoke debug_set (wa_dispatcher ad) (ce_dispatch ce) tool_name args
                                       p PROTOCOL));
          answered ←ₛ on_wa (on_chat_world (answer_with env tool_name sender_key p d));
          ret (Ok <$> answered)
      end
  end.

(** The nested loops; the first refusal is the answer. *)
Fixpoint process_all (envs : nat → MsgEnv) (i : nat) (msgs : list (str * str))
    : ST (WaState W) (option Response) :=
  match msgs with
  | [] => ret (Some ok_response)
  | (from, text) :: msgs' =>
      r ←ₛ process_message (envs i) from text;
      match r with
      | None => ret None
      | Some (Err resp) => ret (Some resp)
      | Some (Ok _) => process_all envs (S i) msgs'
      end
  end.

(** [env] is read before the messages are, [envs] by each of them. *)
Definition handle_webhook (env : ChatEnv) (envs : nat → MsgEnv) (header : option str) (body : str)
    : ST (WaState W) (option Response) :=
  if negb (verify_hmac256 (default [] header) body) then
    on_wa (refuse env §"-" §"-" (Auth §"bad X-Hub-Signature-256") (Some (respond 401 §"unauthorized")))
  else
    taken ←ₛ on_wa (on_chat_rate (try_take (ce_rate_now env)));
    match taken with
    | Err r =>
        on_wa (refuse env §"-" §"-"
          (RateLimited (§"whatsapp adapter `" ++ wa_name ad ++ §"` rate limit hit; retry in "
                          ++ two_decimals r ++ §"s")) (Some (too_many r §"rate limited")))
    | Ok _ =>
        match parse_envelope body with
        | Err e =>
            on_wa (refuse env §"-" §"-" (Validation (§"malformed webhook body: " ++ e))
              (Some (respond 400 §"malformed")))
        | Ok envelope => process_all envs 0 (inbound_texts envelope)
        end
    end.

(** ** Proactive sends *)

Definition authorize (env : MsgEnv) (req : OutboundRequest) (p : Principal) (w : World W)
    : result unit TritonError * World W :=
  let not_in_tenant := Forbidden (§"recipient " ++ req_to req ++ §" is not in tenant `" ++ tenant p
                                    ++ §"`") in
  if is_empty (trim (tenant p)) then (Err not_in_tenant, w)
  else
    match wa_identity ad with
    | ModeSenderTable table =>
        (match table !! req_to req with
         | Some claims => if decide (sc_tenant claims = tenant p) then Ok () else Err not_in_tenant
         | None => Err (Forbidden (§"recipient " ++ req_to req
                                     ++ §" is not a known sender for this adapter"))
         end, w)
    | ModeUpstream up =>
        let '(r, w) := resolver_resolve debug_set decode_reply up (wa_dispatcher ad) (me_resolve env)
                         (me_resolve_uuid env) (req_to req) w in
        (match r with
         | Ok _ => Ok ()
         | Err _ => Err (Forbidden (§"recipient " ++ req_to req
                                      ++ §" could not be resolved for this adapter"))
         end, w)
    end.

Definition outbound_mint_tenant (env : MsgEnv) (to : str) (p : Principal) (w : World W)
    : result str TritonError * World W :=
  match wa_identity ad with
  | ModeSenderTable _ => (Ok (tenant p), w)
  | ModeUpstream up =>
      let '(r, w) := resolver_resolve debug_set decode_reply up (wa_dispatcher ad) (me_resolve env)
                       (me_resolve_uuid env) to w in
      (result_map r_tenant r, w)
  end.

Definition deliver_template (env : MsgEnv) (req : OutboundRequest) (p : Principal) (category : str)
    (w : World W) : result unit TritonError * World W :=
  match category_of_str category with
  | None =>
      (Err (Validation (§"unknown template category `" ++ category
                          ++ §"` (expected utility|marketing|authentication)")), w)
  | Some parsed =>
      match template_for parsed (wa_templates ad) with
      | None =>
          (Err (Validation (§"no template configured for category `" ++ category
                              ++ §"` on adapter `" ++ wa_name ad ++ §"`")), w)
      | Some decl =>
          (Ok (), send_and_record (ce_post (me_chat env)) OUTBOUND_TOOL p
             (build_template_body (req_to req) (td_name decl) (td_language decl) (req_variables req)) w)
      end
  end.

(** [None]: the task panicked. *)
Definition deliver (env : MsgEnv) (win : ServiceWindow) (req : OutboundRequest) (p : Principal)
    (w : World W) : option (result unit TritonError) * World W :=
  match req_category req with
  | Some category => let '(r, w) := deliver_template env req p category w in (Some r, w)
  | None =>
      if negb (is_within_window (req_to req) (me_window_now env) win) then
        (Some (Err (Validation (§"recipient " ++ req_to req
           ++ §" is outside the 24-hour service window; a template `category` is required"))), w)
      else
        let '(mint_tenant, w) := outbound_mint_tenant env (req_to req) p w in
        match mint_tenant with
        | Err e => (Some (Err e), w)
        | Ok mint_tenant =>
            match render_dispatch_result (req_result req) wa_signing_key mint_tenant (req_to req) with
            | None => (None, w)
            | Some (Err EmptyAfterRender) =>
                (Some (Err (Validation §"outbound surface rendered to nothing")), w)
            | Some (Ok msg) => (Some (Ok ()), post_back env p OUTBOUND_TOOL (req_to req) msg w)
            end
        end
  end.
End Handlers.

(** ** Boot *)

Inductive BuildError :=
  | BadIdentity (e : IdentityError)
  | BadCorrelationKey (e : KeyRingError)
  | WrongKind
  | Unsupported (m : str)
  | MissingCredential (field : str)
  | Resolve (field : str) (e : ResolveError)
  | TableParse (m : str).

Record CourierConfig := { cc_api_base : str; cc_timeout_secs : Z }.
Definition default_config : CourierConfig :=
  {| cc_api_base := §"https://graph.facebook.com"; cc_timeout_secs := 10 |}.

Section Boot.
Context {W : Type}.
Variable resolver : SecretField → result str ResolveError.
Variable decode_table : str → result SenderTable str.
Variable http_client : result unit str.
Variable now : Z.

Definition credential (field name : str) (m : Credentials) : result str BuildError :=
  f ←? ok_or (cred name m) (MissingCredential field);
  result_map_err (Resolve field) (resolver f).

Definition build_identity (a : Adapter) (d : Dispatcher W) : result IdentityMode BuildError :=
  match id_kind (a_identity a) with
  | KUpstream =>
      tool ←? credential §"identity.resolver_tool" §"resolver_tool" (id_credentials (a_identity a));
      result_map ModeUpstream
        (result_map_err BadIdentity (UpstreamResolver_new tool §"whatsapp" PROTOCOL_RESOLVE d))
  | _ =>
      (* the other kinds were refused above *)
      json ←? credential §"identity.table" §"table" (id_credentials (a_identity a));
      result_map ModeSenderTable (result_map_err BadIdentity (SenderTable_parse decode_table json))
  end.

Definition ADAPTER_HEADROOM : Z := 10.

Definition wa_initial_state (a : Adapter) (w : World W) : WaState W :=
  let r := a_rate_limit a in
  {| wa_chat :=
       {| cs_world := w;
          cs_rate := TokenBucket_new (u32_saturating_mul (rl_messages_per_sec r) ADAPTER_HEADROOM)
                       (u32_saturating_mul (rl_burst r) ADAPTER_HEADROOM) now;
          cs_tenants := PerTenantBuckets_new (rl_messages_per_sec r) (rl_burst r) |};
     wa_window := ∅ |}.

Definition from_manifest (name : str) (a : Adapter) (d : Dispatcher W) (config : CourierConfig) rasterizer
    : result (WaAdapter W) BuildError :=
  let inc := in_credentials (a_inbound a) in
  let out := out_credentials (a_outbound a) in
  if bool_decide (a_kind a ≠ AKWhatsappCloud) then Err WrongKind
  else if bool_decide (in_signature (a_inbound a) ≠ Hmac256) then
    Err (Unsupported (§"whatsapp adapter requires `signature: hmac256`; got "
                        ++ scheme_debug (in_signature (a_inbound a))))
  else
    _ ←? result_map_err BadIdentity
           (require_supported_kind §"whatsapp" (id_kind (a_identity a)) [KSenderTable; KUpstream]);
    app_secret ←? credential §"inbound.secret" §"secret" inc;
    if is_empty app_secret then Err (Unsupported §"inbound.secret resolved to empty string")
    else
      verify_token ←? match cred §"verify_token" inc with
                      | Some f => result_map_err (Resolve §"inbound.verify_token") (resolver f)
                      | None => Ok []
                      end;
      access_token ←? credential §"outbound.token" §"token" out;
      phone_number_id ←? credential §"outbound.phone_number_id" §"phone_number_id" out;
      identity ←? build_identity a d;
      key ←? result_map_err (Resolve §"correlation_key") (resolver (a_correlation_key a));
      ring ←? result_map_err BadCorrelationKey (KeyRing_parse key);
      _ ←? result_map_err (λ e, Unsupported (§"courier http client: " ++ e)) http_client;
      Ok {| wa_name := name; wa_app_secret := app_secret; wa_verify_token := verify_token;
            wa_access_token := access_token; wa_phone_number_id := phone_number_id;
            wa_identity := identity; wa_inbound_tool := a_tool a; wa_dispatcher := d;
            wa_base := trim_end_char "/" (cc_api_base config); wa_rasterizer := rasterizer;
            wa_templates := a_templates a; wa_correlation_key := ring |}.
End Boot.

(** * The service window is the history of inbound messages *)

(** What the tracker stands for: the latest time each sender was stamped. *)
Fixpoint last_seen (wa_id : str) (history : list (str * Z)) : option Z :=
  match history with
  | [] => None
  | (id, t) :: older => if decide (id = wa_id) then Some t else last_seen wa_id older
  end.

(** The stamps, latest first. *)
Fixpoint tracker (history : list (str * Z)) : ServiceWindow :=
  match history with
  | [] => ∅
  | (id, t) :: older => stamp_service_window id t (tracker older)
  end.

(** A clock that never goes back: every time is at most the later ones. *)
Fixpoint monotone (now : Z) (history : list (str * Z)) : Prop :=
  match history with
  | [] => True
  | (_, t) :: older => (t ≤ now)%Z ∧ monotone t older
  end.

Lemma monotone_weaken now now' h : (now ≤ now')%Z → monotone now h → monotone now' h.
Proof. destruct h as [|[id t] h]; [done|]. cbn. intros ? [? ?]. split; [lia|done]. Qed.

Lemma open_at_later now now' t :
  (now ≤ now')%Z → open_at now SERVICE_WINDOW t = false → open_at now' SERVICE_WINDOW t = false.
Proof. unfold open_at. rewrite !Z.ltb_ge. lia. Qed.

Lemma pruned_lookup now m id :
  prune_expired_window now SERVICE_WINDOW m !! id
  = (t ← m !! id; if open_at now SERVICE_WINDOW t then Some t else None).
Proof.
  unfold prune_expired_window. destruct (m !! id) as [t|] eqn:E; cbn [mbind option_bind].
  - destruct (open_at now SERVICE_WINDOW t) eqn:Eo.
    + by apply map_lookup_filter_Some.
    + apply map_lookup_filter_None. right. intros t' Ht'. cbn.
      pose proof (eq_trans (eq_sym E) Ht') as [= <-]. by rewrite Eo.
  - apply map_lookup_filter_None. by left.
Qed.

(** The entry of a sender is the last stamp, or it was dropped when its window
    had already closed. *)
Lemma tracker_lookup now h id :
  monotone now h →
  tracker h !! id = last_seen id h
  ∨ tracker h !! id = None ∧ ∃ t, last_seen id h = Some t ∧ open_at now SERVICE_WINDOW t = false.
Proof.
  revert now. induction h as [|[id' t'] h IH]; intros now Hm; cbn [tracker last_seen].
  { left. apply lookup_empty. }
  destruct Hm as [Ht Hm]. unfold stamp_service_window.
  destruct (decide (id' = id)) as [->|Hne]; [left; by rewrite lookup_insert_eq|].
  rewrite lookup_insert_ne by done. destruct (IH t' Hm) as [E|(E & t & El & Eo)].
  - destruct (_ <=? _)%nat; [|by left]. rewrite pruned_lookup, E.
    destruct (last_seen id h) as [t|] eqn:El; [|by left]. cbn [mbind option_bind].
    destruct (open_at t' SERVICE_WINDOW t) eqn:Eo; [by left|]. right. split; [done|].
    exists t. split; [done|]. by eapply open_at_later.
  - right. split; [|exists t; split; [done|by eapply open_at_later]].
    destruct (_ <=? _)%nat; [|done]. by rewrite pruned_lookup, E.
Qed.

Lemma window_from_history now h id :
  monotone now h →
  is_within_window id now (tracker h) = default false (open_at now SERVICE_WINDOW <$> last_seen id h).
Proof.
  intros Hm. unfold is_within_window. destruct (tracker_lookup now h id Hm) as [->|(-> & t & -> & Eo)];
    [done|]. cbn. by rewrite Eo.
Qed.

(** A stamp that finds the map large leaves in it only open windows. *)
Lemma stamp_bounded now id m :
  size (stamp_service_window id now m) ≤ SERVICE_WINDOW_PRUNE_AT
  ∨ map_Forall (λ _ t, open_at now SERVICE_WINDOW t = true) (stamp_service_window id now m).
Proof.
  unfold stamp_service_window. destruct (_ <=? size m)%nat eqn:E; bool_facts.
  - right. apply map_Forall_insert_2; [unfold open_at; rewrite Z.sub_diag; by apply Z.ltb_lt|].
    intros k t Hk. unfold prune_expired_window in Hk. by apply map_lookup_filter_Some in Hk as [_ Hk].
  - left. rewrite map_size_insert. destruct (m !! id); cbn; lia.
Qed.

(** ** Who opens a window *)

Section Facts.
Context {W : Type} `{SerdeJson, Crypto, UrlParse, SerdeA2ui}.
Variables (cell : HttpHosts) (dev_token : bool) (debug_set : gset str → str).
Variable decode_reply : Value → result ResolverReply str.
Variable parse_envelope : str → result WebhookEnvelope str.
Variable hex_decode : str → option str.
Variable iter : gmap str (Tracked spec_float) → list (str * Tracked spec_float).
Variable two_decimals : RetryAfter spec_float → str.
Variable api : GraphCall → W → GraphReply * W.
Variable ad : WaAdapter W.
Implicit Types (s : WaState W) (w : World W) (p : Principal).

(** A webhook call, with what is read while it is handled. *)
Record WebhookCall := {
  wc_env : ChatEnv;
  wc_envs : nat → MsgEnv;
  wc_header : option str;
  wc_body : str;
}.

Definition run_call (c : WebhookCall) s : WaState W :=
  (handle_webhook cell dev_token debug_set decode_reply parse_envelope hex_decode iter two_decimals api ad
     (wc_env c) (wc_envs c) (wc_header c) (wc_body c) s).2.
Definition run_calls (cs : list WebhookCall) s : WaState W := fold_left (λ s c, run_call c s) cs s.

(** A sender the operator lists, when there is a list. *)
Definition listed (wa_id : str) : Prop :=
  ∀ table, wa_identity ad = ModeSenderTable table → is_Some (SenderTable_resolve table wa_id).

(** The call was signed with the adapter's secret and brought a text from
    [wa_id], read at [t]. *)
Definition brought (c : WebhookCall) (wa_id : str) (t : Z) : Prop :=
  verify_hmac256 hex_decode ad (default [] (wc_header c)) (wc_body c) = true
  ∧ ∃ e i text, parse_envelope (wc_body c) = Ok e ∧ inbound_texts e !! i = Some (wa_id, text)
      ∧ t = me_window_now (wc_envs c i) ∧ listed wa_id.

Lemma on_wa_window {A} (f : ST (ChatState W) A) s : wa_window (on_wa f s).2 = wa_window s.
Proof using Type. unfold on_wa. by destruct (f (wa_chat s)). Qed.

Lemma resolve_listed env from w r :
  (resolve_sender debug_set decode_reply ad env from w).1 = Ok r → listed from.
Proof using Type.
  unfold resolve_sender, listed. destruct (wa_identity ad) as [table|up]; [|done].
  intros Hr table' [= <-]. destruct (SenderTable_resolve table from); [done|]. done.
Qed.

Abbreviation process := (process_message cell dev_token debug_set decode_reply iter two_decimals api ad).

Lemma process_window env from text s :
  wa_window (process env from text s).2 = wa_window s
  ∨ listed from
    ∧ wa_window (process env from text s).2
      = stamp_service_window from (me_window_now env) (wa_window s).
Proof using Type.
  unfold process_message. cbv zeta. rewrite bind_snd.
  set (x := on_wa (on_chat_world (resolve_sender debug_set decode_reply ad env from)) s).
  assert (wa_window x.2 = wa_window s) as Hx by apply on_wa_window.
  destruct x.1 as [r|[e body]] eqn:Er; [right|left; by rewrite on_wa_window].
  split.
  { apply (resolve_listed env _ (cs_world (wa_chat s)) r). revert Er. subst x. unfold on_wa, on_chat_world.
    by destruct (resolve_sender _ _ _ _ _ _) as [r' w']. }
  rewrite bind_snd. cbn [stamp fst snd]. rewrite bind_snd.
  set (y := on_wa (on_chat_tenants _) _).
  assert (wa_window y.2 = stamp_service_window from (me_window_now env) (wa_window s)) as Hy.
  { subst y. rewrite on_wa_window. cbn [wa_window]. by rewrite Hx. }
  clearbody y. destruct y.1 as [|wait]; [|by rewrite on_wa_window].
  destruct (wa_route_command _ _ _) as [tl args].
  rewrite !bind_snd. cbn [ret snd]. by rewrite !on_wa_window.
Qed.

(** Every entry of the map was there, or a message of the batch put it there. *)
Lemma process_all_window envs i msgs s id t :
  wa_window (process_all cell dev_token debug_set decode_reply iter two_decimals api ad envs i msgs s).2
    !! id = Some t →
  wa_window s !! id = Some t
  ∨ ∃ j text, msgs !! j = Some (id, text) ∧ t = me_window_now (envs (i + j)) ∧ listed id.
Proof using Type.
  revert i s. induction msgs as [|[from text] msgs IH]; intros i s; cbn [process_all]; [by left|].
  rewrite bind_snd. intros Hl.
  assert (wa_window (process (envs i) from text s).2 !! id = Some t
    ∨ ∃ j text', msgs !! j = Some (id, text') ∧ t = me_window_now (envs (S i + j)) ∧ listed id) as Hc.
  { destruct (process (envs i) from text s) as [[[[]|resp]|] s']; cbn [fst snd ret] in *;
      [by apply IH|by left|by left]. }
  destruct Hc as [Hw|(j & text' & Hj & -> & Hid)].
  - destruct (process_window (envs i) from text s) as [E|[Hf E]]; rewrite E in Hw; [by left|].
    unfold stamp_service_window in Hw. apply lookup_insert_Some in Hw as [[<- <-]|[_ Hw]].
    + right. exists 0, text. by rewrite Nat.add_0_r.
    + left. destruct (_ <=? _)%nat; [|done]. unfold prune_expired_window in Hw.
      by apply map_lookup_filter_Some in Hw as [? _].
  - right. exists (S j), text'. by rewrite Nat.add_succ_r.
Qed.

Lemma run_call_window c s id t :
  wa_window (run_call c s) !! id = Some t → wa_window s !! id = Some t ∨ brought c id t.
Proof using Type.
  unfold run_call, handle_webhook, brought. destruct (verify_hmac256 _ _ _ _); cbn [negb].
  2: { rewrite on_wa_window. by left. }
  rewrite bind_snd. set (y := on_wa (on_chat_rate _) s).
  assert (wa_window y.2 = wa_window s) as Hy by apply on_wa_window. clearbody y.
  destruct y.1; [|rewrite on_wa_window, Hy; by left].
  destruct (parse_envelope (wc_body c)) as [e|e]; [|rewrite on_wa_window, Hy; by left].
  intros [Hw|(j & text & Hj & Ht & Hl)]%process_all_window; [left; by rewrite <- Hy|].
  right. split; [done|]. exists e, j, text. by split_and!.
Qed.

Lemma run_calls_window cs s id t :
  wa_window (run_calls cs s) !! id = Some t →
  wa_window s !! id = Some t ∨ ∃ c, c ∈ cs ∧ brought c id t.
Proof using Type.
  unfold run_calls. revert s. induction cs as [|c cs IH]; intros s; [by left|]. cbn [fold_left].
  intros [Hw|(c' & Hc & Hb)]%IH; [|right; exists c'; set_solver].
  apply run_call_window in Hw as [Hw|Hb]; [by left|]. right. exists c. set_solver.
Qed.

(** A call that is not signed is refused, and leaves one rejection. *)
Lemma bad_signature_reaches_nothing env envs header body s :
  verify_hmac256 hex_decode ad (default [] header) body = false →
  let x := handle_webhook cell dev_token debug_set decode_reply parse_envelope hex_decode iter two_decimals
             api ad env envs header body s in
  x.1 = Some (respond 401 §"unauthorized") ∧ wa_window x.2 = wa_window s
  ∧ outside (cs_world (wa_chat x.2)) = outside (cs_world (wa_chat s))
  ∧ cs_rate (wa_chat x.2) = cs_rate (wa_chat s) ∧ cs_tenants (wa_chat x.2) = cs_tenants (wa_chat s).
Proof using Type.
  intros Hv. unfold handle_webhook. rewrite Hv. cbn [negb]. split_and!; try done.
  cbn. unfold record_rejection. by repeat case_match.
Qed.

(** ** Calls to the platform *)

(** [c] was made, and one line of [p] tells how it went. *)
Definition graph_recorded (tl : str) p (c : GraphCall) (ok : GraphReply → bool) w w' : Prop :=
  ∃ r l, api c (outside w) = (r, outside w') ∧ sinks w' = emit l (sinks w)
    ∧ phase l = Post ∧ AuditLog.protocol l = PROTOCOL ∧ tool l = tl ∧ subject l = sub p
    ∧ au_tenant l = tenant p ∧ au_trace_id l = trace_id p
    ∧ (status_label l = Some §"posted" ↔ ok r = true).

Definition accepted (r : GraphReply) : bool :=
  match r with Answer s _ => success s | NoResponse _ => false end.
Abbreviation message body := (PostMessage (graph_url ad §"/messages") (wa_access_token ad) body).
Abbreviation media png := (PostMedia (graph_url ad §"/media") (wa_access_token ad) png).

Lemma failure_not_posted st : failure_label st = LRetry ∨ failure_label st = LDropped.
Proof using Type. unfold failure_label. case_match; auto. Qed.

Lemma send_and_record_recorded c tl p body w :
  graph_recorded tl p (message body) accepted w (send_and_record api ad c tl p body w).
Proof using Type.
  unfold graph_recorded, send_and_record, send_message, graph. destruct (api _ _) as [r o] eqn:E.
  exists r. unfold record_post_outcome, record_post, record_post_to. destruct r as [e|st md].
  - eexists. split; [done|]. split; [reflexivity|]. by repeat split.
  - cbn [classify_send accepted]. destruct (success st); eexists; (split; [done|]);
      (split; [reflexivity|]); repeat split; try done. cbn.
    by destruct (failure_not_posted st) as [-> | ->].
Qed.

(** How a message was answered: the message was sent with its line, or it was an
    image: then it was first kept, which leaves a line only if it failed, and
    sent with its line. *)
Inductive answered (tl : str) p (to : str) w w' : Prop :=
  | AnsweredPlain msg : graph_recorded tl p (message (message_body to msg)) accepted w w' →
      answered tl p to w w'
  | AnsweredImage png id caption r o :
      api (media png) (outside w) = (r, o) → classify_upload (wa_access_token ad) r = Ok id →
      graph_recorded tl p (message (build_image_message_body to id caption)) accepted (set_outside o w) w' →
      answered tl p to w w'
  | ImageFailed png : graph_recorded tl p (media png) (λ _, false) w w' → answered tl p to w w'.

Lemma post_image_answered env p tl to msg png w :
  answered tl p to w (post_image api ad env p tl to msg png w).
Proof using Type.
  unfold post_image, upload_media, graph. destruct (api (media png) (outside w)) as [r o] eqn:E.
  destruct (classify_upload (wa_access_token ad) r) as [id|e] eqn:Ec.
  - eapply (AnsweredImage _ _ _ _ _ png id _ r o); [done|done|]. apply send_and_record_recorded.
  - apply (ImageFailed _ _ _ _ _ png). exists r. eexists. split; [done|]. split; [reflexivity|].
    repeat split; try done. cbn.
    assert (courier_label e ≠ LPosted) as Hl.
    2: { destruct (courier_label e); [by destruct Hl|discriminate..]. }
    revert Ec. destruct r as [m|st md]; cbn [classify_upload]; [by intros [= <-]|].
    destruct (success st); cbn [negb];
      [|intros [= <-]; cbn; by destruct (failure_not_posted st) as [-> | ->]].
    destruct md as [i|m]; [|by intros [= <-]]. destruct (is_empty i); [by intros [= <-]|done].
Qed.

(** Every answer is accounted for, after the line of the image's rendering when
    there was one. *)
Lemma post_back_answered env p tl to msg w :
  ∃ w1, (w1 = w ∨ ∃ l w0, sinks w1 = emit l (sinks w0) ∧ phase l = Post
           ∧ (status_detail l = Some §"rasterizer_call" ∨ status_detail l = Some §"rasterizer_failed")
           ∧ outside w1 = outside w0)
    ∧ answered tl p to w1 (post_back api ad env p tl to msg w).
Proof using Type.
  unfold post_back. cbv zeta. destruct (wm_dashboard msg) as [dash|].
  2: { exists w. split; [by left|]. eapply AnsweredPlain, send_and_record_recorded. }
  destruct (wa_rasterizer ad) as [render|].
  2: { exists w. split; [by left|]. eapply AnsweredPlain, send_and_record_recorded. }
  unfold rasterize_dashboard. destruct (render dash p PROTOCOL w) as [r w0].
  destruct r as [png|e];
    [eexists; split; [|apply post_image_answered]
    |eexists; split; [|eapply AnsweredPlain, send_and_record_recorded]];
    right; eexists _, w0; (split; [reflexivity|]); cbn; auto.
Qed.
End Facts.

(** C28: the tracker of service windows is exact and bounded.  Along a clock that
    does not go back, the pruned map answers as the whole history of stamps
    would: a window is open exactly when the sender's last message is less than
    24 hours old; and after a stamp the map holds at most 1,024 entries, or only
    open windows. *)
Theorem window_refines_history now h id :
  monotone now h →
  is_within_window id now (tracker h) = default false (open_at now SERVICE_WINDOW <$> last_seen id h)
  ∧ (size (tracker ((id, now) :: h)) ≤ 1024
     ∨ map_Forall (λ _ t, open_at now SERVICE_WINDOW t = true) (tracker ((id, now) :: h))).
Proof. intros Hm. split; [by apply window_from_history|]. apply stamp_bounded. Qed.

(** C27: a free-form message needs a recent one.  Whatever webhook calls an
    adapter that started with no windows has served, a proactive send without a
    template category goes through, or touches anything outside, only if one of
    those calls was signed with the app secret and carried a text message from
    the recipient, who is in the operator's table if there is one, less than 24
    hours before. *)
Theorem free_form_needs_recent_message {W} `{SerdeJson, Crypto, UrlParse, SerdeA2ui} cell dev_token
    dbg decode_reply parse_envelope hex_decode iter two_decimals api (ad : WaAdapter W) calls s0 env
    req p w :
  let s := run_calls cell dev_token dbg decode_reply parse_envelope hex_decode iter two_decimals api ad
             calls s0 in
  let x := deliver cell dbg decode_reply api ad env (wa_window s) req p w in
  wa_window s0 = ∅ → req_category req = None →
  (outside x.2 ≠ outside w ∨ x.1 = Some (Ok ())) →
  ∃ c t, c ∈ calls ∧ brought parse_envelope hex_decode ad c (req_to req) t
    ∧ (Z.max 0 (me_window_now env - t) < 24 * 60 * 60 * 1000000000)%Z.
Proof.
  intros s x Hs0 Hcat. subst x. unfold deliver. rewrite Hcat.
  destruct (is_within_window (req_to req) (me_window_now env) (wa_window s)) eqn:Ew; cbn [negb].
  2: { by intros [?|?]. }
  intros _. unfold is_within_window in Ew.
  destruct (wa_window s !! req_to req) as [t|] eqn:Et; [|done]. cbn in Ew. apply Z.ltb_lt in Ew.
  apply run_calls_window in Et as [Et|(c & Hc & Hb)]; [by rewrite Hs0 in Et|]. by exists c, t.
Qed.

(** The outcome of the call to the platform is audited and not returned. *)
Lemma wa_refused_send_counts_as_delivered {W} `{SerdeJson, Crypto, UrlParse, SerdeA2ui} cell dbg
    decode_reply api (ad : WaAdapter W) env win req p w text :
  (∃ table, wa_identity ad = ModeSenderTable table) →
  is_within_window (req_to req) (me_window_now env) win = true → req_category req = None →
  wa_try_render cell (wa_signing_key ad) (tenant p) (req_to req) (req_result req) = None →
  bare_text (req_result req) = text → text ≠ [] →
  (deliver cell dbg decode_reply api ad env win req p w).1 = Some (Ok ()).
Proof.
  intros [table Ht] Hw Hc Hr <- Hne. unfold deliver, outbound_mint_tenant, render_dispatch_result.
  rewrite Hc, Hw, Ht. cbn [negb]. rewrite Hr. by destruct (bare_text (req_result req)).
Qed.

(** ** Instances *)

#[local] Existing Instance sample_json.
#[local] Existing Instance sample_url.
#[local] Existing Instance sample_serde.
(** Every tag is the same, and nothing is encoded. *)
#[local] Instance wa_crypto : Crypto := {|
  hmac_sha256 _ _ := replicate 32 "x"%char;
  b64url_encode s := s;
  b64url_decode s := Some s;
  body_to_string _ := Err §"no";
  body_from_slice _ := Err §"no";
|}.

Definition wa_demo_adapter : WaAdapter nat :=
  {| wa_name := §"wa"; wa_app_secret := §"s"; wa_verify_token := §"v"; wa_access_token := §"t";
     wa_phone_number_id := §"1"; wa_identity := ModeSenderTable ChatIdentity.demo_table;
     wa_inbound_tool := §"echo"; wa_dispatcher := demo_dispatcher None unenforced;
     wa_base := §"https://g"; wa_rasterizer := None; wa_templates := [];
     wa_correlation_key := {| keys := [] |} |}.
Definition wa_demo_env : ChatEnv :=
  {| ce_rate_now := 0;
     ce_tenant_now := {| at_entry := 0; at_scan := λ _, 0%Z; at_create := 0; at_take := 0 |};
     ce_reject_when := §"now"; ce_reject_now := 0; ce_reject_uuid := §"u"; ce_trace := §"t";
     ce_dispatch := Dispatcher.tick; ce_post := Dispatcher.tick |}.
Definition wa_demo_msg_env (now : Z) : MsgEnv :=
  {| me_chat := wa_demo_env; me_resolve := Dispatcher.tick; me_resolve_uuid := §"u";
     me_window_now := now; me_raster := Dispatcher.tick; me_upload := Dispatcher.tick |}.
Definition wa_demo_state : WaState nat :=
  {| wa_chat := {| cs_world := World_new unenforced 0; cs_rate := TokenBucket_new 10 10 0;
                   cs_tenants := PerTenantBuckets_new 10 10 |};
     wa_window := ∅ |}.
Definition wa_demo_api (_ : GraphCall) (n : nat) : GraphReply * nat := (Answer 200 (Err []), S n).
Definition wa_text (from : str) : InboundMessage :=
  {| im_from := from; im_kind := §"text"; im_text := Some §"hello" |}.
(** A body of two messages, the second from someone unknown. *)
Definition wa_demo_parse (_ : str) : result WebhookEnvelope str := Ok [[[wa_text §"42"; wa_text §"7"]]].
Definition wa_demo_call : WebhookCall :=
  {| wc_env := wa_demo_env; wc_envs := λ _, wa_demo_msg_env 0;
     wc_header := Some (§"sha256=" ++ replicate 32 "x"%char); wc_body := §"{}" |}.
Definition wa_demo_request : OutboundRequest :=
  {| req_to := §"42"; req_result := Value.String §"done"; req_category := None; req_variables := [];
     req_reference := None |}.

(** The answer to a batch is that of its first refusal: what came before was
    dispatched and answered, and is dispatched again when the batch is sent
    again. *)
Lemma refused_batch_was_dispatched :
  let x := handle_webhook None false no_debug (λ _, Err []) wa_demo_parse Some map_to_list (λ _, [])
             wa_demo_api wa_demo_adapter wa_demo_env (λ _, wa_demo_msg_env 0) (wc_header wa_demo_call)
             §"{}" wa_demo_state in
  (resp_status <$> x.1 = Some 401%Z) ∧ outside (cs_world (wa_chat x.2)) = 2.
Proof. vm_compute. split; reflexivity. Qed.

Lemma window_refines_history_witness :
  is_within_window §"42" 10 (tracker [(§"42", 5%Z)]) = true.
Proof.
  rewrite (proj1 (window_refines_history 10 [(§"42", 5%Z)] §"42" ltac:(cbn; lia))). reflexivity.
Defined.

Lemma free_form_needs_recent_message_witness :
  ∃ c t, c ∈ [wa_demo_call] ∧ brought wa_demo_parse Some wa_demo_adapter c §"42" t
    ∧ (Z.max 0 (1000 - t) < 24 * 60 * 60 * 1000000000)%Z.
Proof.
  apply (free_form_needs_recent_message None false no_debug (λ _, Err []) wa_demo_parse Some map_to_list
    (λ _, []) wa_demo_api wa_demo_adapter [wa_demo_call] wa_demo_state (wa_demo_msg_env 1000)
    wa_demo_request (alice []) (World_new unenforced 0) eq_refl eq_refl).
  right. vm_compute. reflexivity.
Defined.
