(* ===== verification/WhatsAppBridge.v ===== *)
(** * WhatsAppBridge: WhatsApp Web through a local daemon
    (crates/triton-chat-whatsapp/src/bridge.rs)

    Lines of JSON over a socket: what is read is an argument, what is written
    goes to the world outside ([write]).  The worker reconnects with a pause that
    doubles up to a bound. *)

From Stdlib Require Import SpecFloat.
From S2P Require Import Prelude Json Errors Principal RateLimit Context AuditLog Dispatcher.
From S2P Require Import Correlation ChatIdentity Manifest Chat WhatsApp.

Definition BACKOFF_INITIAL : Z := 500.
Definition BACKOFF_MAX : Z := 30000.

Module BridgeAddr.
Inductive t := Tcp (addr : str) | Unix (path : str).
End BridgeAddr.

Definition BridgeAddr_parse (s : str) : result BridgeAddr.t str :=
  match strip_prefix §"tcp://" s with
  | Some rest =>
      if is_empty rest then Err §"tcp:// requires host:port" else Ok (BridgeAddr.Tcp rest)
  | None =>
      match strip_prefix §"unix://" s with
      | Some rest =>
          if is_empty rest then Err §"unix:// requires a path" else Ok (BridgeAddr.Unix rest)
      | None => Err (§"whatsapp bridge addr must start with `tcp://` or `unix://`: " ++ s)
      end
  end.

Record BridgeAdapter (W : Type) := {
  br_name : str;
  br_addr : BridgeAddr.t;
  br_sender_table : SenderTable;
  br_inbound_tool : str;
  br_dispatcher : Dispatcher W;
}.
Arguments br_name {W} _.
Arguments br_addr {W} _.
Arguments br_sender_table {W} _.
Arguments br_inbound_tool {W} _.
Arguments br_dispatcher {W} _.

Definition bridge_route_command (text default_tool : str) : str * Value :=
  match strip_prefix §"/narrate " text with
  | Some rest => (§"narrate", json_object [(§"subject", Value.String rest)])
  | None =>
      if decide (text = §"/narrate") then (§"narrate", json_object [(§"subject", Value.String [])])
      else (default_tool, json_object [(§"message", Value.String text)])
  end.

(** The text of a component. *)
Definition component_part (c : Value) : option str :=
  match value_get §"kind" c ≫= as_str with
  | Some k =>
      if decide (k = §"text") then value_get §"value" c ≫= as_str
      else if decide (k = §"narration") then value_get §"text" c ≫= as_str
      else None
  | None => None
  end.

Definition reply_text `{SerdeJson} (res : Value) : str :=
  match value_get §"echo" res ≫= as_str with
  | Some s => s
  | None =>
      match value_get §"surface" res ≫= value_get §"components" with
      | Some (Value.Array cs) =>
          let parts := omap component_part cs in
          if is_empty parts then json_to_string res else join nl parts
      | _ => json_to_string res
      end
  end.

(** What a read gives. *)
Inductive ReadEvent :=
  | ReadShutdown
  | ReadLine (env : ChatEnv) (line : str)
  | ReadEof
  | ReadError.

Section Worker.
Context {W : Type} `{SerdeJson}.
Variable debug_set : gset str → str.
Variable iter : gmap str (Tracked spec_float) → list (str * Tracked spec_float).
(** [write_all] of a line, and whether it went out. *)
Variable write : str → W → bool * W.
Variable ad : BridgeAdapter W.

Definition bridge_reject (env : ChatEnv) (sub tenant : str) (e : TritonError) : ST (ChatState W) unit :=
  to_chat_world (record_rejection (br_dispatcher ad) (ce_reject_when env) (ce_reject_now env)
                   (br_name ad) PROTOCOL sub tenant (ce_reject_uuid env) e).

Definition bridge_principal (env : ChatEnv) (c : SenderClaims) : Principal :=
  {| sub := sc_sub c; scopes := sc_scopes c; groups := sc_groups c; tenant := sc_tenant c;
     raw_token := []; trace_id := ce_trace env; sender_ref := None; conversation_ref := None;
     idp := None |}.

Definition send_line (to reply : str) : str :=
  json_to_string (json_object [(§"type", Value.String §"send"); (§"to", Value.String to);
                               (§"text", Value.String reply)]) ++ nl.

Definition bridge_answer (env : ChatEnv) (tool from : str) (p : Principal)
    (r : result DispatchResult TritonError) (w : World W) : World W :=
  match r with
  | Err _ => w
  | Ok dispatch =>
      let '(ok, o) := write (send_line from (reply_text (dr_result dispatch))) (outside w) in
      record_post (br_dispatcher ad) (c_when (ce_post env)) tool PROTOCOL p (elapsed_ms (ce_post env))
        (if ok : bool then Ok (200%Z, Posted, None)
         else Err (Provider §"whatsapp bridge write failed", 0%Z, Retry, None)) (set_outside o w)
  end.

Definition handle_message (env : ChatEnv) (v : Value) : ST (ChatState W) unit :=
  let from := default [] (value_get §"from" v ≫= as_str) in
  let text := default [] (value_get §"text" v ≫= as_str) in
  if is_empty from || is_empty text then ret ()
  else
    taken ←ₛ on_chat_rate (try_take (ce_rate_now env));
    match taken with
    | Err _ =>
        bridge_reject env §"-" §"-"
          (RateLimited (§"whatsapp bridge `" ++ br_name ad ++ §"` rate limit"))
    | Ok _ =>
        match br_sender_table ad !! from with
        | None => bridge_reject env §"-" §"-" (Auth (§"unknown sender " ++ from))
        | Some claims =>
            taken ←ₛ on_chat_tenants (tenant_try_take iter (ce_tenant_now env) (sc_tenant claims));
            match taken with
            | Err _ =>
                bridge_reject env (sc_sub claims) (sc_tenant claims)
                  (RateLimited (§"tenant `" ++ sc_tenant claims ++ §"` rate limit"))
            | Ok _ =>
                let p := bridge_principal env claims in
                let '(tool, args) := bridge_route_command text (br_inbound_tool ad) in
                r ←ₛ on_chat_world (invoke debug_set (br_dispatcher ad) (ce_dispatch env) tool args p
                                      PROTOCOL);
                to_chat_world (bridge_answer env tool from p r)
            end
        end
    end.

Definition read_line (env : ChatEnv) (line : str) : ST (ChatState W) unit :=
  let trimmed := trim line in
  if is_empty trimmed then ret ()
  else
    match json_from_str trimmed with
    | None => ret ()
    | Some v =>
        if decide (value_get §"type" v ≫= as_str = Some §"message") then handle_message env v
        else ret ()
    end.

(** [Some true]: shut down; [Some false]: connect again; [None]: still reading. *)
Fixpoint read_loop (events : list ReadEvent) : ST (ChatState W) (option bool) :=
  match events with
  | [] => ret None
  | ReadShutdown :: _ => ret (Some true)
  | ReadEof :: _ | ReadError :: _ => ret (Some false)
  | ReadLine env line :: events' => _ ←ₛ read_line env line; read_loop events'
  end.

(** One round of the worker: the flag at its start, the connection, and whether
    the shutdown came during the pause. *)
Inductive Connection := ConnectShutdown | ConnectFailed | Connected (events : list ReadEvent).
Record Round := { rd_cancelled : bool; rd_connection : Connection; rd_sleep_cancelled : bool }.

(** The pauses made, and whether the worker returned. *)
Fixpoint bridge_run (rounds : list Round) (backoff : Z) : ST (ChatState W) (list Z * bool) :=
  match rounds with
  | [] => ret ([], false)
  | r :: rounds' =>
      let pause backoff :=
        if rd_sleep_cancelled r then ret ([backoff], true)
        else rest ←ₛ bridge_run rounds' (Z.min (backoff * 2) BACKOFF_MAX);
             ret (backoff :: rest.1, rest.2) in
      if rd_cancelled r then ret ([], true)
      else
        match rd_connection r with
        | ConnectShutdown => ret ([], true)
        | ConnectFailed => pause backoff
        | Connected events =>
            done_ ←ₛ read_loop events;
            match done_ with
            | Some true => ret ([], true)
            | Some false => pause BACKOFF_INITIAL
            | None => ret ([], false)
            end
        end
  end.
End Worker.

(** ** Boot *)

Section Boot.
Context {W : Type}.
Variable resolver : SecretField → result str ResolveError.
Variable decode_table : str → result SenderTable str.

(** The limiters, around the dispatcher's world. *)
Definition bridge_initial_state (now : Z) (a : Adapter) (w : World W) : ChatState W :=
  let r := a_rate_limit a in
  {| cs_world := w;
     cs_rate := TokenBucket_new (u32_saturating_mul (rl_messages_per_sec r) ADAPTER_HEADROOM)
                  (u32_saturating_mul (rl_burst r) ADAPTER_HEADROOM) now;
     cs_tenants := PerTenantBuckets_new (rl_messages_per_sec r) (rl_burst r) |}.

Definition bridge_from_manifest (name : str) (a : Adapter) (d : Dispatcher W) (bridge_addr : str)
    : result (BridgeAdapter W) BuildError :=
  if bool_decide (a_kind a ≠ AKWhatsappWeb) then Err WrongKind
  else if bool_decide (in_kind (a_inbound a) ≠ ISocket) then
    Err (Unsupported (§"whatsapp bridge adapter requires `inbound.kind: socket`; got "
                        ++ inbound_kind_debug (in_kind (a_inbound a))))
  else if bool_decide (out_kind (a_outbound a) ≠ OSocket) then
    Err (Unsupported (§"whatsapp bridge adapter requires `outbound.kind: socket`; got "
                        ++ outbound_kind_debug (out_kind (a_outbound a))))
  else if bool_decide (in_signature (a_inbound a) ≠ TrustedSocket) then
    Err (Unsupported (§"whatsapp bridge (socket) adapter requires `signature: trusted_socket`; got "
                        ++ scheme_debug (in_signature (a_inbound a))))
  else
    _ ←? result_map_err BadIdentity
           (require_supported_kind §"whatsapp_web" (id_kind (a_identity a)) [KSenderTable]);
    addr ←? result_map_err Unsupported (BridgeAddr_parse bridge_addr);
    json ←? credential resolver §"identity.table" §"table" (id_credentials (a_identity a));
    table ←? result_map_err BadIdentity (SenderTable_parse decode_table json);
    key ←? result_map_err (Resolve §"correlation_key") (resolver (a_correlation_key a));
    _ ←? result_map_err BadCorrelationKey (KeyRing_parse key);
    Ok {| br_name := name; br_addr := addr; br_sender_table := table; br_inbound_tool := a_tool a;
          br_dispatcher := d |}.
End Boot.

(** * Reconnecting *)

Section Facts.
Context {W : Type} `{SerdeJson}.
Variable debug_set : gset str → str.
Variable iter : gmap str (Tracked spec_float) → list (str * Tracked spec_float).
Variable write : str → W → bool * W.
Variable ad : BridgeAdapter W.
Implicit Types (s : ChatState W).

Definition pause_ok (b : Z) : Prop := (BACKOFF_INITIAL ≤ b ≤ BACKOFF_MAX)%Z.

Lemma next_pause b : pause_ok b → pause_ok (Z.min (b * 2) BACKOFF_MAX).
Proof using Type. unfold pause_ok, BACKOFF_INITIAL, BACKOFF_MAX. lia. Qed.

(** A worker pauses between half a second and half a minute. *)
Lemma pauses_bounded rounds b s :
  pause_ok b → Forall pause_ok (bridge_run debug_set iter write ad rounds b s).1.1.
Proof using Type.
  revert b s. induction rounds as [|r rounds IH]; intros b s Hb; cbn [bridge_run]; [constructor|].
  assert (∀ b s, pause_ok b →
    Forall pause_ok ((if rd_sleep_cancelled r then ret ([b], true)
      else rest ←ₛ bridge_run debug_set iter write ad rounds (Z.min (b * 2) BACKOFF_MAX);
           ret (b :: rest.1, rest.2)) s).1.1) as Hpause.
  { clear b s Hb. intros b s Hb. destruct (rd_sleep_cancelled r); [repeat constructor; apply Hb|].
    rewrite bind_snd. cbn [ret fst snd]. constructor; [done|]. apply IH, next_pause, Hb. }
  destruct (rd_cancelled r); [constructor|]. destruct (rd_connection r) as [| |events];
    [constructor|by apply Hpause|].
  rewrite bind_snd. destruct (read_loop _ _ _ _ _ _) as [[[]|] s']; cbn [fst snd];
    [constructor| |constructor]. by apply Hpause.
Qed.

(** The pauses of [k] failures in a row. *)
Fixpoint failing (k : nat) : list Round :=
  match k with
  | 0 => []
  | S k => {| rd_cancelled := false; rd_connection := ConnectFailed; rd_sleep_cancelled := false |}
             :: failing k
  end.
Lemma failures_back_off k b s :
  pause_ok b →
  (bridge_run debug_set iter write ad (failing k) b s).1.1
  = (λ i, Z.min (b * 2 ^ Z.of_nat i) BACKOFF_MAX) <$> seq 0 k.
Proof using Type.
  revert b s. induction k as [|k IH]; intros b s Hb; [done|]. cbn [failing bridge_run rd_cancelled
    rd_connection rd_sleep_cancelled]. rewrite bind_snd. cbn [ret fst snd].
  rewrite IH by by apply next_pause. cbn [seq fmap list_fmap]. f_equal.
  - unfold pause_ok in Hb. rewrite Z.mul_1_r. lia.
  - rewrite <- fmap_S_seq, <- list_fmap_compose. apply list_fmap_ext. intros i j _. unfold compose.
    rewrite Nat2Z.inj_succ, Z.pow_succ_r by lia. unfold pause_ok, BACKOFF_INITIAL, BACKOFF_MAX in *.
    pose proof (Z.pow_pos_nonneg 2 (Z.of_nat j) ltac:(lia) ltac:(lia)). clear IH. nia.
Qed.

(** ** A message *)

Definition bridge_line (tl : str) (p : Principal) (ok : bool) (l : AuditRecord) : Prop :=
  phase l = Post ∧ AuditLog.protocol l = PROTOCOL ∧ tool l = tl ∧ subject l = sub p
  ∧ au_tenant l = tenant p ∧ au_trace_id l = trace_id p
  ∧ status_label l = Some (if ok then §"posted" else §"retry").

(** Turned away or served: nothing is written for someone the table does not
    list, and a reply that is written is written once, with its line. *)
Inductive bridge_fate (env : ChatEnv) (v : Value) s (s' : ChatState W) : Prop :=
  | BridgeQuiet : outside (cs_world s') = outside (cs_world s) → bridge_fate env v s s'
  | BridgeServed from text claims tl args r w :
      value_get §"from" v ≫= as_str = Some from → value_get §"text" v ≫= as_str = Some text →
      br_sender_table ad !! from = Some claims →
      (tl, args) = bridge_route_command text (br_inbound_tool ad) →
      invoke debug_set (br_dispatcher ad) (ce_dispatch env) tl args (bridge_principal env claims) PROTOCOL
        (cs_world s) = (r, w) →
      match r with
      | Err _ => cs_world s' = w
      | Ok dispatch =>
          ∃ ok l, write (send_line from (reply_text (dr_result dispatch))) (outside w)
                  = (ok, outside (cs_world s'))
            ∧ sinks (cs_world s') = emit l (sinks w)
            ∧ bridge_line tl (bridge_principal env claims) ok l
      end → bridge_fate env v s s'.

Lemma bridge_reject_quiet env v sb tn e s s1 :
  cs_world s1 = cs_world s → bridge_fate env v s (bridge_reject ad env sb tn e s1).2.
Proof using Type.
  intros Hs. apply BridgeQuiet. unfold bridge_reject, to_chat_world, on_chat_world. cbn [snd cs_world].
  rewrite Hs. unfold record_rejection. by repeat case_match.
Qed.

Lemma handle_message_fate env v s :
  bridge_fate env v s (handle_message debug_set iter write ad env v s).2.
Proof using Type.
  unfold handle_message. destruct (value_get §"from" v ≫= as_str) as [from|] eqn:Ef;
    [cbn [from_option id]|by apply BridgeQuiet].
  destruct (value_get §"text" v ≫= as_str) as [text|] eqn:Et; cbn [from_option id];
    [|rewrite orb_true_r; by apply BridgeQuiet].
  destruct (is_empty from || is_empty text); [by apply BridgeQuiet|].
  rewrite bind_snd. unfold on_chat_rate at 1 2. destruct (try_take _ (cs_rate s)) as [[[]|wait] b];
    cbn [fst snd]; [|by apply bridge_reject_quiet].
  destruct (br_sender_table ad !! from) as [claims|] eqn:Ec; [|by apply bridge_reject_quiet].
  rewrite bind_snd. unfold on_chat_tenants at 1 2. cbn [cs_tenants cs_world cs_rate].
  destruct (tenant_try_take _ _ _ _) as [[[]|wait] b']; cbn [fst snd]; [|by apply bridge_reject_quiet].
  destruct (bridge_route_command text (br_inbound_tool ad)) as [tl args] eqn:Er.
  rewrite bind_snd. unfold on_chat_world at 1 2. cbn [cs_world].
  destruct (invoke _ _ _ _ _ _ _ _) as [r w] eqn:Ei. cbn [fst snd].
  eapply (BridgeServed _ _ _ _ from text claims tl args r w); try done.
  unfold to_chat_world, on_chat_world. cbn [cs_world snd]. unfold bridge_answer.
  destruct r as [dispatch|]; [|done].
  destruct (write _ _) as [ok o] eqn:Ew. exists ok.
  destruct ok; eexists; (split; [done|]); (split; [reflexivity|]); repeat split.
Qed.
End Facts.
