(* ===== verification/DiscordMapper.v ===== *)
(** * DiscordMapper: a surface as a Discord interaction response
    (crates/triton-chat-discord/src/surface_mapper.rs)

    Escaped text, action rows of signed buttons and select menus, a lone form as
    a modal, the first dashboard as an image. *)

From S2P Require Import Prelude Json A2ui A2uiText Correlation TelegramMapper Surface.

Definition DISCORD_BUTTONS_PER_ROW : nat := 5.
Definition DISCORD_MAX_ROWS : nat := 5.
Definition SURFACE : SurfaceProfile :=
  {| sp_channel := §"discord"; sp_markdown := Markdown.None; sp_tables := Tables.Text;
     sp_buttons := true; sp_max_buttons := Some (DISCORD_BUTTONS_PER_ROW * DISCORD_MAX_ROWS);
     sp_charts := Charts.None; sp_images := true; sp_max_text_bytes := Some 2000;
     sp_streaming := false; sp_subject_line := false;
     sp_guidance := §"Discord: short plain text under 2000 characters (markdown is escaped). No tables; up to 25 buttons; dashboards arrive as an image." |}.
Definition DISCORD_CONTENT_MAX_BYTES : nat := default 0 (text_cap SURFACE).
Definition TRUNCATION_SENTINEL : str :=
  nl ++ nl ++ §"*(truncated — exceeded Discord's 2000-byte content cap)*".
Definition BUTTON_ONLY_PLACEHOLDER : str := §"Choose an option:".
Definition DISCORD_MAX_BUTTONS : nat := default 0 (button_cap SURFACE).
Definition DISCORD_SELECT_MAX_OPTIONS : nat := 25.
Definition CARD_TOKEN_TTL_SECS : Z := 7 * 24 * 3600.
Definition DISCORD_MODAL_MAX_FIELDS : nat := 5.
Definition DISCORD_MODAL_TITLE_MAX : nat := 45.

Record RenderedInteraction := {
  ri_content : str;
  ri_components : option Value;
  ri_deferred_buttons : nat;
  ri_deferred_selections : nat;
  ri_deferred_forms : nat;
  ri_deferred_dashboards : nat;
  ri_truncated : bool;
  ri_dashboard : option RasterDashboard;
}.

Inductive FormModalError :=
  | TooManyFields (n : nat)
  | NoFields
  | UnsupportedFieldKind (name : str)
  | EmptyFieldName
  | DuplicateFieldName (name : str)
  | TokenOversize.

(** ** Text *)

Definition MD_CHARS : str := §"\*_~`>|#-+.![]()".
Definition md_escape (s : str) : str :=
  concat ((λ c, if decide (c ∈ MD_CHARS) then [ "\"%char; c] else [c]) <$> s).

Definition clamp_plain_text (raw : str) : str :=
  let escaped := md_escape raw in
  if (length escaped <=? DISCORD_CONTENT_MAX_BYTES)%nat then escaped
  else
    let budget := DISCORD_CONTENT_MAX_BYTES - length TRUNCATION_SENTINEL in
    take (floor_char_boundary escaped (Nat.min budget (length escaped))) escaped ++ TRUNCATION_SENTINEL.

(** [chunks[0]] exists when the text is over the cap. *)
Definition truncate_chunks (chunks : list str) : str * bool :=
  let budget := DISCORD_CONTENT_MAX_BYTES - length TRUNCATION_SENTINEL in
  let body :=
    match accepted_prefix budget 0 true chunks with
    | [] =>
        match chunks with
        | raw :: _ => take (floor_char_boundary raw (Nat.min budget (length raw))) raw
        | [] => []
        end
    | accepted => join (nl ++ nl) accepted
    end in
  (body ++ TRUNCATION_SENTINEL, true).

Definition clamp_title (s : str) : str :=
  take (floor_char_boundary s (Nat.min (length s) DISCORD_MODAL_TITLE_MAX)) s.
Definition clamp_label (s : str) : str :=
  take (floor_char_boundary s (Nat.min (length s) DISCORD_MODAL_TITLE_MAX)) s.

(** ** Components *)

Definition num (z : Z) : Value := Value.Number (Value.Int z).

Definition button_value (label token : str) : Value :=
  json_object [(§"type", num 2); (§"style", num 1); (§"label", js label); (§"custom_id", js token)].
Definition action_row (components : list Value) : Value :=
  json_object [(§"type", num 1); (§"components", Value.Array components)].
Definition option_value (o : SelectionOption) : Value :=
  json_object [(§"label", js (o_label o)); (§"value", js (o_value o))].
Definition select_menu (token prompt : str) (options : list SelectionOption) : Value :=
  json_object [(§"type", num 3); (§"custom_id", js token); (§"placeholder", js prompt);
               (§"options", Value.Array (option_value <$> options)); (§"min_values", num 1);
               (§"max_values", num 1)].

(** The loop's variables. *)
Record DiscordCollected := {
  dc_chunks : list str;
  dc_deferred_buttons : nat;
  dc_deferred_selections : nat;
  dc_deferred_forms : nat;
  dc_deferred_dashboards : nat;
  dc_buttons : list Value;
  dc_select_rows : list Value;
  dc_dashboard : option RasterDashboard;
}.
Definition dc_nothing : DiscordCollected :=
  {| dc_chunks := []; dc_deferred_buttons := 0; dc_deferred_selections := 0; dc_deferred_forms := 0;
     dc_deferred_dashboards := 0; dc_buttons := []; dc_select_rows := []; dc_dashboard := None |}.
Definition dc_push (chunk : str) (a : DiscordCollected) : DiscordCollected :=
  {| dc_chunks := dc_chunks a ++ [chunk]; dc_deferred_buttons := dc_deferred_buttons a;
     dc_deferred_selections := dc_deferred_selections a; dc_deferred_forms := dc_deferred_forms a;
     dc_deferred_dashboards := dc_deferred_dashboards a; dc_buttons := dc_buttons a;
     dc_select_rows := dc_select_rows a; dc_dashboard := dc_dashboard a |}.
Definition dc_defer (b s f d : nat) (a : DiscordCollected) : DiscordCollected :=
  {| dc_chunks := dc_chunks a; dc_deferred_buttons := dc_deferred_buttons a + b;
     dc_deferred_selections := dc_deferred_selections a + s;
     dc_deferred_forms := dc_deferred_forms a + f;
     dc_deferred_dashboards := dc_deferred_dashboards a + d; dc_buttons := dc_buttons a;
     dc_select_rows := dc_select_rows a; dc_dashboard := dc_dashboard a |}.
Definition dc_control (bs rows : list Value) (dash : option RasterDashboard) (a : DiscordCollected)
    : DiscordCollected :=
  {| dc_chunks := dc_chunks a; dc_deferred_buttons := dc_deferred_buttons a;
     dc_deferred_selections := dc_deferred_selections a; dc_deferred_forms := dc_deferred_forms a;
     dc_deferred_dashboards := dc_deferred_dashboards a; dc_buttons := bs; dc_select_rows := rows;
     dc_dashboard := dash |}.

(** The rows that find a place: select menus first. *)
Definition place_rows (rows : list Value) (rows_left : nat) : list Value * nat * nat :=
  (take rows_left rows, length rows - rows_left, rows_left - length rows).

Section Render.
Context `{UrlParse} (cell : HttpHosts) `{Crypto}.
(** [now_secs()] where a token is minted. *)
Variable now : option Z.
Variables (correlation_key tenant sender : str).

Definition discord_binding : Binding :=
  {| b_platform := §"discord"; b_tenant := tenant; b_sender := sender |}.
Definition discord_mint (tool : str) (args : Value) : result str EncodeError :=
  encode_bound now tool args correlation_key DISCORD_MAX_CUSTOM_ID discord_binding
    (Some CARD_TOKEN_TTL_SECS).

Definition discord_component (a : DiscordCollected) (c : Component) : DiscordCollected :=
  if is_conversation c then
    match degrade cell c with Some t => dc_push (md_escape t) a | None => a end
  else
    match c with
    | Component.Text value _ => dc_push (md_escape value) a
    | Component.Report _ _ _ _ _ => a
    | Component.Sources items =>
        if is_empty items then a else dc_push (§"Sources: " ++ join §" · " (s_label <$> items)) a
    | Component.Narration text => dc_push (§"*" ++ md_escape text ++ §"*") a
    | Component.Diff lines =>
        dc_push (§"```diff" ++ nl ++ diff_to_text lines ++ nl ++ §"```") a
    | Component.Button label tool args _ _ _ =>
        if (DISCORD_MAX_BUTTONS <=? length (dc_buttons a))%nat then dc_defer 1 0 0 0 a
        else match discord_mint tool args with
             | Ok token => dc_control (dc_buttons a ++ [button_value label token]) (dc_select_rows a)
                             (dc_dashboard a) a
             | Err _ => dc_defer 1 0 0 0 a
             end
    | Component.Selection prompt options tool args_key _ _ =>
        if is_empty options || (DISCORD_SELECT_MAX_OPTIONS <? length options)%nat
        then dc_defer 0 1 0 0 a
        else match discord_mint tool (json_object [(args_key, Value.Null)]) with
             | Ok token =>
                 dc_push (md_escape prompt)
                   (dc_control (dc_buttons a)
                      (dc_select_rows a ++ [action_row [select_menu token prompt options]])
                      (dc_dashboard a) a)
             | Err _ => dc_defer 0 1 0 0 a
             end
    | Component.Form title fields _ _ _ _ =>
        dc_defer 0 0 1 0
          (dc_push (§"**" ++ md_escape title ++ §"**" ++ nl
                      ++ join §", " ((λ f, md_escape (f_label f)) <$> fields)) a)
    | Component.Dashboard title tiles =>
        match dc_dashboard a with
        | None => dc_control (dc_buttons a) (dc_select_rows a)
                    (Some {| rd_title := title; rd_tiles := tiles |}) a
        | Some _ => dc_defer 0 0 0 1 a
        end
    | _ => a
    end.

Definition discord_collect (s : Surface) : DiscordCollected :=
  fold_left discord_component (components s) dc_nothing.

(** The rows of the message, and how many menus and buttons had no place. *)
Definition discord_rows (a : DiscordCollected) : list Value * nat * nat :=
  let '(menus, deferred_selections, rows_left) := place_rows (dc_select_rows a) DISCORD_MAX_ROWS in
  let button_rows := rows_of (length (dc_buttons a)) DISCORD_BUTTONS_PER_ROW (dc_buttons a) in
  (menus ++ (action_row <$> take rows_left button_rows), deferred_selections,
   length (concat (drop rows_left button_rows))).

Definition discord_finish (a : DiscordCollected) : result RenderedInteraction RenderError :=
  let no_dashboard := bool_decide (dc_dashboard a = None) in
  if is_empty (dc_chunks a) && is_empty (dc_buttons a) && is_empty (dc_select_rows a) && no_dashboard
  then Err EmptyAfterRender
  else
    let chunks := if is_empty (dc_chunks a) && negb (is_empty (dc_buttons a)) && no_dashboard
                  then [BUTTON_ONLY_PLACEHOLDER] else dc_chunks a in
    let joined := join (nl ++ nl) chunks in
    let '(content, truncated) :=
      if (length joined <=? DISCORD_CONTENT_MAX_BYTES)%nat then (joined, false)
      else truncate_chunks chunks in
    let '(all_rows, deferred_selections, deferred_buttons) := discord_rows a in
    Ok {| ri_content := content;
          ri_components := if is_empty all_rows then None else Some (Value.Array all_rows);
          ri_deferred_buttons := dc_deferred_buttons a + deferred_buttons;
          ri_deferred_selections := dc_deferred_selections a + deferred_selections;
          ri_deferred_forms := dc_deferred_forms a;
          ri_deferred_dashboards := dc_deferred_dashboards a;
          ri_truncated := truncated; ri_dashboard := dc_dashboard a |}.

Definition discord_render (s : Surface) : result RenderedInteraction RenderError :=
  discord_finish (discord_collect s).

(** ** Modals *)

Fixpoint check_fields (seen : gset str) (fields : list FormField) : result unit FormModalError :=
  match fields with
  | [] => Ok ()
  | f :: fields' =>
      match f_kind f with
      | KString =>
          if is_empty (f_name f) then Err EmptyFieldName
          else if decide (f_name f ∈ seen) then Err (DuplicateFieldName (f_name f))
          else check_fields ({[f_name f]} ∪ seen) fields'
      | _ => Err (UnsupportedFieldKind (f_name f))
      end
  end.

Definition skeleton (fields : list FormField) : Value :=
  json_object ((λ f, (f_name f, Value.Null)) <$> fields).

Definition text_input (f : FormField) : Value :=
  action_row [json_object [(§"type", num 4); (§"custom_id", js (f_name f));
                           (§"label", js (clamp_label (f_label f))); (§"style", num 1);
                           (§"required", Value.Bool (required f))]].

Definition build_modal_response (title : str) (fields : list FormField) (submit_tool : str)
    : result Value FormModalError :=
  if is_empty fields then Err NoFields
  else if (DISCORD_MODAL_MAX_FIELDS <? length fields)%nat then Err (TooManyFields (length fields))
  else
    _ ←? check_fields ∅ fields;
    custom_id ←? result_map_err (λ _, TokenOversize) (discord_mint submit_tool (skeleton fields));
    Ok (json_object
          [(§"type", num 9);
           (§"data", json_object [(§"custom_id", js custom_id); (§"title", js (clamp_title title));
                                  (§"components", Value.Array (text_input <$> fields))])]).

Context `{SerdeA2ui}.

Definition discord_try_render (res : Value) : option (result RenderedInteraction RenderError) :=
  match extract_surface cell res with Ok s => Some (discord_render s) | Err _ => None end.

Definition try_render_form_modal (res : Value) : option (result Value FormModalError) :=
  match extract_surface cell res with
  | Ok {| components := [Component.Form title fields _ tool _ _] |} =>
      Some (build_modal_response title fields tool)
  | _ => None
  end.
End Render.

Definition build_interaction_response (r : RenderedInteraction) : Value :=
  json_object [(§"type", num 4);
    (§"data", json_object ([(§"content", js (ri_content r))]
       ++ match ri_components r with Some c => [(§"components", c)] | None => [] end))].

(** * What fits *)

Lemma concat_rows_of {A} fuel n (l : list A) :
  0 < n → length l ≤ fuel → concat (rows_of fuel n l) = l.
Proof.
  intros Hn. revert l. induction fuel as [|fuel IH]; intros [|a l] Hl; cbn [length rows_of] in *;
    [done|lia|done|].
  cbn [concat]. rewrite IH; [apply take_drop|]. rewrite length_drop. cbn [length]. lia.
Qed.

Lemma clamped_length s n : length (take (floor_char_boundary s (Nat.min (length s) n)) s) ≤ n.
Proof. rewrite length_take. pose proof (floor_char_boundary_le s (Nat.min (length s) n)). lia. Qed.

Lemma truncate_chunks_bound chunks : length (truncate_chunks chunks).1 ≤ DISCORD_CONTENT_MAX_BYTES.
Proof.
  assert (length TRUNCATION_SENTINEL ≤ DISCORD_CONTENT_MAX_BYTES) as Hs by by apply Nat.leb_le.
  unfold truncate_chunks. set (b := DISCORD_CONTENT_MAX_BYTES - length TRUNCATION_SENTINEL).
  pose proof (accepted_bound b chunks) as Ha. cbn [fst]. rewrite length_app.
  assert (DISCORD_CONTENT_MAX_BYTES = b + length TRUNCATION_SENTINEL) as Hb by (unfold b; lia).
  clearbody b. destruct (accepted_prefix b 0 true chunks) as [|c l]; [|lia].
  destruct chunks as [|raw chunks]; [cbn [length]; lia|].
  rewrite Nat.min_comm. pose proof (clamped_length raw b). lia.
Qed.

Lemma clamp_plain_text_bound raw : length (clamp_plain_text raw) ≤ DISCORD_CONTENT_MAX_BYTES.
Proof.
  assert (length TRUNCATION_SENTINEL ≤ DISCORD_CONTENT_MAX_BYTES) as Hs by by apply Nat.leb_le.
  unfold clamp_plain_text. set (escaped := md_escape raw).
  destruct (_ <=? _)%nat eqn:E; bool_facts; [done|]. rewrite length_app, Nat.min_comm.
  pose proof (clamped_length escaped (DISCORD_CONTENT_MAX_BYTES - length TRUNCATION_SENTINEL)). lia.
Qed.

Section Facts.
Context `{UrlParse} (cell : HttpHosts) `{Crypto}.
Variable now : option Z.
Variables (key tenant sender : str).
Abbreviation mint := (discord_mint now key tenant sender).

(** A button of the surface with a token for the recipient. *)
Definition own_button (cs : list Component) (v : Value) : Prop :=
  ∃ label tool args action template pl token,
    Component.Button label tool args action template pl ∈ cs
    ∧ mint tool args = Ok token ∧ v = button_value label token.
(** A menu of the surface: its token leaves one slot open for the choice. *)
Definition own_menu (cs : list Component) (row : Value) : Prop :=
  ∃ prompt options tool args_key action template token,
    Component.Selection prompt options tool args_key action template ∈ cs
    ∧ 1 ≤ length options ≤ 25
    ∧ mint tool (json_object [(args_key, Value.Null)]) = Ok token
    ∧ row = action_row [select_menu token prompt options].

Definition is_button (c : Component) : bool :=
  negb (is_conversation c) && match c with Component.Button _ _ _ _ _ _ => true | _ => false end.
Definition is_selection (c : Component) : bool :=
  negb (is_conversation c) && match c with Component.Selection _ _ _ _ _ _ => true | _ => false end.
Definition count (f : Component → bool) (cs : list Component) : nat := length (List.filter f cs).

Lemma count_snoc f cs c : count f (cs ++ [c]) = count f cs + (if f c then 1 else 0).
Proof using Type. unfold count. rewrite List.filter_app, length_app. cbn. by destruct (f c). Qed.

(** [done] are the components the loop has seen. *)
Record dc_ok (cs done : list Component) (a : DiscordCollected) : Prop := {
  dok_buttons : Forall (own_button cs) (dc_buttons a);
  dok_button_cap : length (dc_buttons a) ≤ DISCORD_MAX_BUTTONS;
  dok_menus : Forall (own_menu cs) (dc_select_rows a);
  dok_button_count : length (dc_buttons a) + dc_deferred_buttons a = count is_button done;
  dok_menu_count : length (dc_select_rows a) + dc_deferred_selections a = count is_selection done;
}.

Lemma dc_push_ok cs d chunk a : dc_ok cs d a → dc_ok cs d (dc_push chunk a).
Proof using Type. by intros []. Qed.

Lemma dc_defer_ok cs d f x a : dc_ok cs d a → dc_ok cs d (dc_defer 0 0 f x a).
Proof using Type. intros [? ? ? ? ?]. split; cbn; try done; by rewrite Nat.add_0_r. Qed.

Lemma dc_plain_ok cs d c b s f x a :
  dc_ok cs d a → b = (if is_button c then 1 else 0) → s = (if is_selection c then 1 else 0) →
  dc_ok cs (d ++ [c]) (dc_defer b s f x a).
Proof using Type.
  intros [? ? ? ? ?] -> ->. split; cbn [dc_defer dc_buttons dc_select_rows dc_deferred_buttons
    dc_deferred_selections]; try done; rewrite count_snoc; lia.
Qed.

(** A component that is neither a button nor a menu. *)
Lemma dc_other_ok cs d c a :
  is_button c = false → is_selection c = false → dc_ok cs d a → dc_ok cs (d ++ [c]) a.
Proof using Type.
  intros Hb Hs [? ? ? ? ?]. split; try done; rewrite count_snoc, ?Hb, ?Hs; lia.
Qed.

Lemma discord_button_ok cs d a label tool args action template pl :
  let c := Component.Button label tool args action template pl in
  c ∈ cs → is_conversation c = false → dc_ok cs d a →
  dc_ok cs (d ++ [c]) (discord_component cell now key tenant sender a c).
Proof using Type.
  intros c Hc Hv Ha. assert (is_button c = true ∧ is_selection c = false) as [Hb Hs].
  { unfold is_button, is_selection. by rewrite Hv. }
  unfold discord_component. rewrite Hv. cbn [c].
  destruct (_ <=? length (dc_buttons a))%nat eqn:E; bool_facts;
    [apply dc_plain_ok; [done|by rewrite Hb|by rewrite Hs]|].
  destruct (mint tool args) as [token|] eqn:Em;
    [|apply dc_plain_ok; [done|by rewrite Hb|by rewrite Hs]].
  destruct Ha as [H1 H2 H3 H4 H5].
  split; cbn [dc_control dc_buttons dc_select_rows dc_deferred_buttons dc_deferred_selections];
    [|rewrite length_app; cbn [length]; lia|done
     |rewrite count_snoc, Hb, length_app; cbn [length]; lia
     |rewrite count_snoc, Hs; lia].
  apply Forall_app. split; [done|]. constructor; [|constructor].
  exists label, tool, args, action, template, pl, token. by split_and!.
Qed.

Lemma discord_selection_ok cs d a prompt options tool args_key action template :
  let c := Component.Selection prompt options tool args_key action template in
  c ∈ cs → is_conversation c = false → dc_ok cs d a →
  dc_ok cs (d ++ [c]) (discord_component cell now key tenant sender a c).
Proof using Type.
  intros c Hc Hv Ha. assert (is_button c = false ∧ is_selection c = true) as [Hb Hs].
  { unfold is_button, is_selection. by rewrite Hv. }
  unfold discord_component. rewrite Hv. cbn [c].
  destruct (is_empty options || _) eqn:E; [apply dc_plain_ok; [done|by rewrite Hb|by rewrite Hs]|].
  destruct (mint tool _) as [token|] eqn:Em; [|apply dc_plain_ok; [done|by rewrite Hb|by rewrite Hs]].
  apply dc_push_ok. apply orb_false_iff in E as [E1 E2]. unfold DISCORD_SELECT_MAX_OPTIONS in E2. bool_facts.
  destruct Ha as [H1 H2 H3 H4 H5].
  split; cbn [dc_control dc_buttons dc_select_rows dc_deferred_buttons dc_deferred_selections];
    [done|done| |rewrite count_snoc, Hb; lia|rewrite count_snoc, Hs, length_app; cbn [length]; lia].
  apply Forall_app. split; [done|]. constructor; [|constructor].
  exists prompt, options, tool, args_key, action, template, token. split_and!; [done| |lia|done|done].
  destruct options; [done|]. cbn [length]. lia.
Qed.

Lemma discord_component_ok cs d a c :
  c ∈ cs → dc_ok cs d a → dc_ok cs (d ++ [c]) (discord_component cell now key tenant sender a c).
Proof using Type.
  intros Hc Ha. destruct (is_conversation c) eqn:Hv.
  { assert (dc_ok cs (d ++ [c]) a) as Ha'.
    { apply dc_other_ok; [unfold is_button; by rewrite Hv|unfold is_selection; by rewrite Hv|done]. }
    unfold discord_component. rewrite Hv. destruct (degrade cell c); [by apply dc_push_ok|done]. }
  destruct c; try (by apply discord_button_ok); try (by apply discord_selection_ok);
    match goal with |- dc_ok _ (_ ++ [?c]) _ =>
      assert (∀ a, dc_ok cs d a → dc_ok cs (d ++ [c]) a) as Ha' by
        (intros; apply dc_other_ok; [apply andb_false_r|apply andb_false_r|done])
    end;
    unfold discord_component; rewrite Hv; try (by apply Ha'); try (by apply dc_push_ok, Ha').
  - by apply dc_defer_ok, dc_push_ok, Ha'.
  - destruct (dc_dashboard a); [by apply dc_defer_ok, Ha'|].
    apply Ha' in Ha. by destruct Ha.
  - destruct (is_empty items); [by apply Ha'|by apply dc_push_ok, Ha'].
Qed.

Lemma discord_collect_ok s :
  dc_ok (components s) (components s) (discord_collect cell now key tenant sender s).
Proof using Type.
  unfold discord_collect.
  assert (∀ l d a, (∀ c, c ∈ l → c ∈ components s) → dc_ok (components s) d a →
    dc_ok (components s) (d ++ l) (fold_left (discord_component cell now key tenant sender) l a)) as H'.
  { induction l as [|c l IH]; intros d a Hl Ha; [by rewrite app_nil_r|]. cbn [fold_left].
    rewrite (cons_middle c d l), app_assoc. apply IH; [set_solver|].
    apply discord_component_ok; [set_solver|done]. }
  apply (H' (components s) [] dc_nothing); [done|]. split; [constructor|by apply Nat.leb_le|constructor|done|done].
Qed.

(** A row of the message: one menu, or one to five buttons. *)
Definition row_ok (cs : list Component) (row : Value) : Prop :=
  own_menu cs row
  ∨ ∃ bs, row = action_row bs ∧ 1 ≤ length bs ≤ 5 ∧ Forall (own_button cs) bs.

(** The rows: at most five, each of the surface's own controls, and what found
    no place is counted. *)
Lemma discord_rows_ok cs d a :
  dc_ok cs d a →
  ∃ menus button_rows,
    (discord_rows a).1.1 = menus ++ (action_row <$> button_rows)
    ∧ length menus + length button_rows ≤ 5 ∧ Forall (row_ok cs) (discord_rows a).1.1
    ∧ length menus + (discord_rows a).1.2 = length (dc_select_rows a)
    ∧ length (concat button_rows) + (discord_rows a).2 = length (dc_buttons a).
Proof using Type.
  intros [H1 H2 H3 H4 H5]. unfold discord_rows, place_rows. change DISCORD_MAX_ROWS with 5.
  change DISCORD_BUTTONS_PER_ROW with 5.
  set (rows := rows_of (length (dc_buttons a)) 5 (dc_buttons a)).
  set (left := 5 - length (dc_select_rows a)).
  exists (take 5 (dc_select_rows a)), (take left rows). cbn [fst snd].
  split; [done|]. rewrite !length_take. split; [unfold left; lia|]. split.
  - apply Forall_app. split; [eapply Forall_impl; [by apply Forall_take|by left]|].
    apply Forall_fmap, Forall_forall. intros row Hrow. right. exists row. split; [done|].
    assert (row ∈ rows) as Hr by (rewrite <-(take_drop left rows); set_solver).
    apply rows_of_spec in Hr as [Hl Hs]; [|lia]. split; [done|]. apply Forall_forall.
    intros x Hx%Hs. by eapply Forall_forall in H1.
  - split; [lia|]. rewrite <-length_app, <-concat_app, take_drop. unfold rows.
    rewrite concat_rows_of; [done|lia|lia].
Qed.

(** The surface and the message agree: content within the cap, at most five rows
    of the surface's own controls, and every control is shown or counted. *)
Lemma discord_finish_ok cs a m :
  dc_ok cs cs a → discord_finish a = Ok m →
  length (ri_content m) ≤ DISCORD_CONTENT_MAX_BYTES
  ∧ ∃ menus button_rows,
      ri_components m = (let rows := menus ++ (action_row <$> button_rows) in
                         if is_empty rows then None else Some (Value.Array rows))
      ∧ length menus + length button_rows ≤ 5
      ∧ Forall (row_ok cs) (menus ++ (action_row <$> button_rows))
      ∧ length menus + ri_deferred_selections m = count is_selection cs
      ∧ length (concat button_rows) + ri_deferred_buttons m = count is_button cs.
Proof using Type.
  intros Ha. destruct (discord_rows_ok _ _ _ Ha) as (menus & brows & Er & Hn & Hr & Hm & Hb).
  destruct Ha as [_ _ _ H4 H5]. unfold discord_finish. destruct (_ && bool_decide _) eqn:Ee; [done|]. clear Ee.
  set (chunks := if _ : bool then [BUTTON_ONLY_PLACEHOLDER] else dc_chunks a). clearbody chunks.
  set (fit := if (_ <=? _)%nat then _ else _).
  assert (length fit.1 ≤ DISCORD_CONTENT_MAX_BYTES) as Hfit.
  { unfold fit. destruct (_ <=? _)%nat eqn:E; bool_facts; [done|apply truncate_chunks_bound]. }
  clearbody fit. destruct fit as [content truncated]. destruct (discord_rows a) as [[rows ds] db].
  intros [= <-]. cbn [fst snd] in *. split; [done|]. exists menus, brows. subst rows.
  cbn [ri_components ri_deferred_selections ri_deferred_buttons]. split_and!; [done|done|done|lia|lia].
Qed.

Theorem discord_message_fits s m :
  discord_render cell now key tenant sender s = Ok m →
  length (ri_content m) ≤ 2000
  ∧ ∃ menus button_rows,
      ri_components m = (let rows := menus ++ (action_row <$> button_rows) in
                         if is_empty rows then None else Some (Value.Array rows))
      ∧ length menus + length button_rows ≤ 5
      ∧ Forall (row_ok (components s)) (menus ++ (action_row <$> button_rows))
      ∧ length menus + ri_deferred_selections m = count is_selection (components s)
      ∧ length (concat button_rows) + ri_deferred_buttons m = count is_button (components s).
Proof using Type. apply (discord_finish_ok _ _ m (discord_collect_ok s)). Qed.

(** ** Modals *)

Lemma check_fields_ok seen fields :
  check_fields seen fields = Ok () →
  NoDup (f_name <$> fields)
  ∧ Forall (λ f, f_kind f = KString ∧ f_name f ≠ [] ∧ f_name f ∉ seen) fields.
Proof using Type.
  revert seen. induction fields as [|f fields IH]; intros seen; cbn [check_fields fmap list_fmap].
  { split; constructor. }
  destruct (f_kind f) eqn:Ek; try done. destruct (f_name f) as [|ch name] eqn:En; [done|].
  cbn [is_empty]. destruct (decide (_ ∈ seen)); [done|]. intros [Hn Hf]%IH. rewrite <-En in *. split.
  - constructor; [|done]. intros (g & Hg & Hin)%list_elem_of_fmap.
    eapply Forall_forall in Hf as (_ & _ & Hs); [|exact Hin]. set_solver.
  - constructor; [by rewrite En in *|]. eapply Forall_impl; [exact Hf|]. set_solver.
Qed.

(** A modal has one to five text inputs of distinct, non-empty names, and its
    token commits to exactly these names. *)
Lemma modal_commits title fields tool v :
  build_modal_response now key tenant sender title fields tool = Ok v →
  1 ≤ length fields ≤ 5 ∧ NoDup (f_name <$> fields) ∧ Forall (λ f, f_name f ≠ []) fields
  ∧ Forall (λ f, f_kind f = KString) fields
  ∧ ∃ token, mint tool (skeleton fields) = Ok token
    ∧ v = json_object
            [(§"type", num 9);
             (§"data", json_object [(§"custom_id", js token); (§"title", js (clamp_title title));
                                    (§"components", Value.Array (text_input <$> fields))])]
    ∧ length (clamp_title title) ≤ 45.
Proof using Type.
  unfold build_modal_response. destruct fields as [|f fields]; [done|]. cbn [is_empty].
  destruct (_ <? _)%nat eqn:E; [done|]. unfold DISCORD_MODAL_MAX_FIELDS in E. bool_facts.
  destruct (check_fields ∅ (f :: fields)) as [[]|] eqn:Ef; [|done]. cbn [result_bind].
  destruct (mint tool _) as [token|] eqn:Em; [|done]. cbn [result_map_err result_bind].
  intros [= <-]. apply check_fields_ok in Ef as [Hn Hf].
  split; [cbn [length] in *; lia|]. split; [done|].
  split; [eapply Forall_impl; [exact Hf|]; by intros ? (? & ? & ?)|].
  split; [eapply Forall_impl; [exact Hf|]; by intros ? (? & ? & ?)|].
  exists token. split_and!; [done|done|]. apply clamped_length.
Qed.
End Facts.

(** Escaping leaves a mention of everyone as it is. *)
Lemma everyone_not_escaped : clamp_plain_text §"@everyone" = §"@everyone".
Proof. by vm_compute. Qed.
