(* ===== verification/Discord.v ===== *)
(** * Discord: the interactions webhook (crates/triton-chat-discord/src/lib.rs)

    The signed endpoint, its three kinds of interaction (a click, a slash
    command, a submitted modal), the answer in the body of the response, and
    boot.  Signatures, hexadecimal, timestamps and the decoder of a body are
    parameters. *)

From Stdlib Require Import SpecFloat.
From S2P Require Import Prelude Json Errors Principal RateLimit Context AuditLog Dispatcher.
From S2P Require Import Correlation A2ui A2uiText ChatIdentity Manifest Chat.
From S2P Require Import Stream TelegramMapper Telegram EmailMapper DiscordMapper.

Definition PROTOCOL : str := §"messenger:discord".
Definition MAX_TIMESTAMP_SKEW_SECS : Z := 300.
Definition CALLBACK_TTL_SECS : Z := 300.
Definition CALLBACK_FUTURE_SKEW_SECS : Z := 60.

Record DiscordAdapter (W : Type) := {
  di_name : str;
  di_verifying_key : str;
  di_correlation_key : KeyRing;
  di_sender_table : SenderTable;
  di_dispatcher : Dispatcher W;
  di_rasterizer : option (RasterDashboard → Principal → str → World W → result str str * World W);
}.
Arguments di_name {W} _.
Arguments di_verifying_key {W} _.
Arguments di_correlation_key {W} _.
Arguments di_sender_table {W} _.
Arguments di_dispatcher {W} _.
Arguments di_rasterizer {W} _.

(** ** The body of an interaction *)

Record DiscordModalInput := { dmi_custom_id : str; dmi_value : str }.
(** [DiscordModalRow] *)
Abbreviation DiscordModalRow := (list DiscordModalInput).
Record DiscordCommandOption := { dco_name : str; dco_kind : Z; dco_value : Value }.
Record DiscordInteractionData := {
  did_custom_id : option str;
  did_name : option str;
  did_options : list DiscordCommandOption;
  did_values : list str;
  did_component_type : option Z;
  did_components : list DiscordModalRow;
}.
(** A user is its id. *)
Record DiscordMember := { dm_user : option str }.
Record DiscordInteractionMessage := { dim_timestamp : option str }.
Record DiscordInteraction := {
  din_kind : Z;
  din_data : option DiscordInteractionData;
  din_user : option str;
  din_member : option DiscordMember;
  din_message : option DiscordInteractionMessage;
}.

Definition user_id (i : DiscordInteraction) : str :=
  default [] (match din_user i with Some u => Some u | None => m ← din_member i; dm_user m end).

(** ** Answers *)

Inductive InteractionResponse :=
  | Plain (r : Response)
  | JsonBody (body : Value)
  | Multipart (content_type body : str).

Definition message_json (data : list (str * Value)) : Value :=
  json_object [(§"type", num 4); (§"data", json_object data)].
(** Shown to the caller alone. *)
Definition ephemeral (content : str) : InteractionResponse :=
  JsonBody (message_json [(§"content", js content); (§"flags", num 64)]).

Definition build_plain_response (content : str) (components : option Value) : Value :=
  message_json ((§"content", js content)
                  :: match components with Some c => [(§"components", c)] | None => [] end).

Definition md_escape_caption (s : str) : str :=
  concat ((λ c, if decide (c ∈ MD_CHARS) then [ "\"%char; c] else [c]) <$> s).

Definition crlf : str := [carriage_return; newline].
Definition build_multipart_body `{SerdeJson} (uuid : str) (payload_json : Value) (png : str) : str * str :=
  let boundary := §"triton-discord-" ++ uuid in
  (§"--" ++ boundary ++ crlf
     ++ §"Content-Disposition: form-data; " ++ attr §"name" §"payload_json" ++ crlf
     ++ §"Content-Type: application/json" ++ crlf ++ crlf
     ++ json_to_string payload_json ++ crlf
     ++ §"--" ++ boundary ++ crlf
     ++ §"Content-Disposition: form-data; " ++ attr §"name" §"files[0]" ++ §"; "
     ++ attr §"filename" §"dashboard.png" ++ crlf
     ++ §"Content-Type: image/png" ++ crlf ++ crlf
     ++ png ++ crlf
     ++ §"--" ++ boundary ++ §"--" ++ crlf, boundary).

(** What one interaction reads. *)
Record InteractionEnv := {
  ie_chat : ChatEnv;
  (** [SystemTime::now()] since the epoch, when it is after it *)
  ie_unix : option Z;
  (** [chrono::Utc::now().timestamp()] *)
  ie_click_now : Z;
  (** [now_secs()] of the token that is verified, of the modal's and of the
      controls of a message, one reading for all of them *)
  ie_token_now : option Z;
  ie_modal_now : option Z;
  ie_mint_now : option Z;
  ie_raster : Clock;
  (** [Uuid::simple] of the multipart boundary *)
  ie_boundary : str;
}.

(** A refusal: what the audit line says and what the platform gets. *)
Definition Refusal : Type := TritonError * Response.
Definition bad (m reply : str) : Refusal := (Validation m, respond 400 reply).
Definition denied (m reply : str) : Refusal := (Auth m, respond 401 reply).

(** [filter(|s| !s.is_empty())] *)
Definition non_empty (o : option str) : option str :=
  s ← o; if is_empty s then None else Some s.

(** ** Arguments *)

Definition is_null (v : Value) : bool := match v with Value.Null => true | _ => false end.
Definition as_i64 (v : Value) : option Z :=
  match v with
  | Value.Number (Value.Int z) => if decide (i64_min ≤ z ≤ i64_max)%Z then Some z else None
  | _ => None
  end.

Definition option_value_of (o : DiscordCommandOption) : result Value str :=
  let named kind := §"option `" ++ dco_name o ++ §"` (" ++ kind in
  if (dco_kind o =? 3)%Z then
    ok_or (js <$> as_str (dco_value o)) (named §"string) has non-string value")
  else if (dco_kind o =? 4)%Z then
    ok_or (num <$> as_i64 (dco_value o)) (named §"integer) has non-integer value")
  else if (dco_kind o =? 5)%Z then
    ok_or (Value.Bool <$> as_bool (dco_value o)) (named §"boolean) has non-bool value")
  else Err (§"unsupported option type " ++ dec (dco_kind o) ++ §" for option `" ++ dco_name o ++ §"`").

Fixpoint collect_options (opts : list DiscordCommandOption) (m : list (str * Value))
    : result (list (str * Value)) str :=
  match opts with
  | [] => Ok m
  | o :: opts' =>
      v ←? option_value_of o;
      if decide (Map.get (dco_name o) m = None)
      then collect_options opts' (Map.insert (dco_name o) v m)
      else Err (§"duplicate option name `" ++ dco_name o ++ §"`")
  end.
Definition options_to_args (opts : list DiscordCommandOption) : result Value str :=
  result_map Value.Object (collect_options opts []).

(** A click on a button leaves the signed arguments as they are; a choice fills
    their one open slot. *)
Definition click_args (data : DiscordInteractionData) (args : Value) : result Value Refusal :=
  match did_component_type data, did_values data with
  | None, _ => Err (bad §"missing data.component_type" §"missing component_type")
  | Some k, values =>
      if (k =? 3)%Z then
        match values with
        | [] => Err (bad §"select callback missing data.values" §"select missing values")
        | [chosen] =>
            match args with
            | Value.Object [(key, val)] =>
                if is_null val then Ok (Value.Object [(key, js chosen)])
                else Err (bad (§"select callback: args[" ++ key ++ §"] must be null sentinel")
                            §"args slot not null")
            | Value.Object obj =>
                Err (bad (§"select callback: args must have exactly 1 key; got "
                            ++ dec (Z.of_nat (length obj))) §"args shape mismatch")
            | _ => Err (bad §"select callback: args is not an object" §"args not object")
            end
        | _ =>
            Err (bad (§"select callback expects exactly 1 value; got "
                        ++ dec (Z.of_nat (length values))) §"wrong values count")
        end
      else if (k =? 2)%Z then
        match values with
        | [] => Ok args
        | _ => Err (bad §"button callback MUST NOT carry `data.values`" §"button with values")
        end
      else Err (bad (§"unsupported component_type " ++ dec k) §"unsupported component_type")
  end.

Fixpoint collect_inputs (inputs : list DiscordModalInput) (submitted : gmap str str)
    : result (gmap str str) Refusal :=
  match inputs with
  | [] => Ok submitted
  | i :: inputs' =>
      if is_empty (dmi_custom_id i)
      then Err (bad §"modal submission has TEXT_INPUT with empty custom_id" §"empty field name")
      else if decide (submitted !! dmi_custom_id i = None)
      then collect_inputs inputs' (<[dmi_custom_id i := dmi_value i]> submitted)
      else Err (bad (§"duplicate field `" ++ dmi_custom_id i ++ §"` in modal submission")
                  §"duplicate field")
  end.

Fixpoint fill_skeleton (slots : list (str * Value)) (submitted : gmap str str)
    : result (list (str * Value) * gmap str str) Refusal :=
  match slots with
  | [] => Ok ([], submitted)
  | (key, slot) :: slots' =>
      match submitted !! key with
      | None => Err (bad (§"modal submission missing field `" ++ key ++ §"`") §"missing field")
      | Some val =>
          if negb (is_null slot)
          then Err (bad (§"modal token field `" ++ key ++ §"` not a null slot") §"args slot not null")
          else
            r ←? fill_skeleton slots' (delete key submitted);
            Ok ((key, js val) :: r.1, r.2)
      end
  end.

Section Handlers.
Context {W : Type} `{SerdeJson, Crypto, UrlParse, SerdeA2ui}.
Variable cell : HttpHosts.
Variable debug_set : gset str → str.
(** [{:?}] of the keys of a map, in its iteration order. *)
Variable debug_keys : gmap str str → str.
(** [serde_json::from_slice] into an interaction, with its error's text. *)
Variable parse_interaction : str → result DiscordInteraction str.
(** [hex::decode] *)
Variable hex_decode : str → result str str.
(** [VerifyingKey::verify] of a message under a key. *)
Variable ed25519_verify : str → str → str → bool.
(** [DateTime::parse_from_rfc3339], as seconds since the epoch. *)
Variable parse_rfc3339 : str → result Z str.
Variable iter : gmap str (Tracked spec_float) → list (str * Tracked spec_float).
Variable two_decimals : RetryAfter spec_float → str.
Variable ad : DiscordAdapter W.

Definition modal_args (data : DiscordInteractionData) (args : Value) : result Value Refusal :=
  match args with
  | Value.Object slots =>
      submitted ←? collect_inputs (concat (did_components data)) ∅;
      r ←? fill_skeleton slots submitted;
      if decide (r.2 = ∅) then Ok (Value.Object r.1)
      else Err (bad (§"modal submission has unexpected fields " ++ debug_keys r.2)
                  §"unexpected fields")
  | _ => Err (bad §"modal token args not object" §"args shape mismatch")
  end.

(** The age of the message that carries the control. *)
Definition check_freshness (now_secs : Z) (i : DiscordInteraction) : result unit Refusal :=
  match non_empty (m ← din_message i; dim_timestamp m) with
  | None => Err (denied §"interaction missing message.timestamp (freshness anchor)"
                   §"missing message.timestamp")
  | Some ts_iso =>
      match parse_rfc3339 ts_iso with
      | Err e => Err (bad (§"unparseable message.timestamp: " ++ e) §"bad message timestamp")
      | Ok msg_secs =>
          if (0 <? msg_secs)%Z && (CALLBACK_TTL_SECS <? now_secs - msg_secs)%Z then
            Err (denied (§"stale callback: message age " ++ dec (now_secs - msg_secs)
                           ++ §"s exceeds TTL " ++ dec CALLBACK_TTL_SECS ++ §"s") §"stale callback")
          else if (CALLBACK_FUTURE_SKEW_SECS <? msg_secs - now_secs)%Z then
            Err (denied (§"future-dated callback: message " ++ dec (msg_secs - now_secs)
                           ++ §"s ahead of now") §"future-dated callback")
          else Ok ()
      end
  end.

(** [decode_bound_any] for the one who clicked. *)
Definition redeem (now : option Z) (prefix token tenant sender : str)
    : result (str * Value) Refusal :=
  result_map_err (λ e, denied (prefix ++ decode_error_str e) §"token rejected")
    (decode_bound_any now token (di_correlation_key ad) DISCORD_MAX_CUSTOM_ID
       (discord_binding tenant sender)).

(** The call each kind of interaction asks for. *)
Definition component_call (env : InteractionEnv) (i : DiscordInteraction) (claims : SenderClaims)
    (data : DiscordInteractionData) : result (str * Value) Refusal :=
  token ←? ok_or (non_empty (did_custom_id data))
             (bad §"message_component without custom_id" §"missing custom_id");
  _ ←? check_freshness (ie_click_now env) i;
  c ←? redeem (ie_token_now env) §"custom_id token: " token (sc_tenant claims) (user_id i);
  args ←? click_args data c.2;
  Ok (c.1, args).

Definition command_call (data : DiscordInteractionData) : result (str * Value) Refusal :=
  tool_name ←? ok_or (non_empty (did_name data))
                 (bad §"application_command without data.name" §"missing command name");
  args ←? result_map_err (λ e, bad (§"slash command options: " ++ e) §"bad option")
            (options_to_args (did_options data));
  Ok (tool_name, args).

Definition modal_call (env : InteractionEnv) (i : DiscordInteraction) (claims : SenderClaims)
    (data : DiscordInteractionData) : result (str * Value) Refusal :=
  token ←? ok_or (non_empty (did_custom_id data))
             (bad §"modal_submit without custom_id" §"missing custom_id");
  c ←? redeem (ie_token_now env) §"modal custom_id token: " token (sc_tenant claims) (user_id i);
  args ←? modal_args data c.2;
  Ok (c.1, args).

(** ** Answering *)

Definition reject (env : ChatEnv) (sub tenant : str) (e : TritonError) : ST (ChatState W) unit :=
  to_chat_world (record_rejection (di_dispatcher ad) (ce_reject_when env) (ce_reject_now env)
                   (di_name ad) PROTOCOL sub tenant (ce_reject_uuid env) e).
Definition refuse (env : ChatEnv) (sub tenant : str) (r : Refusal)
    : ST (ChatState W) InteractionResponse :=
  _ ←ₛ reject env sub tenant r.1; ret (Plain r.2).

(** [latency_ms] is that of the dispatch. *)
Definition posted (env : InteractionEnv) (tool_name : str) (p : Principal)
    (outcome : result (Z * PostOutcome * option str) (TritonError * Z * PostOutcome * option str))
    (w : World W) : World W :=
  record_post (di_dispatcher ad) (c_when (ce_post (ie_chat env))) tool_name PROTOCOL p
    (elapsed_ms (ce_post (ie_chat env))) outcome w.

Definition rasterize_dashboard (c : Clock) (tool_name : str) (p : Principal)
    (render : RasterDashboard → Principal → str → World W → result str str * World W)
    (dash : RasterDashboard) (w : World W) : result str str * World W :=
  let '(r, w) := render dash p PROTOCOL w in
  (r, record_post (di_dispatcher ad) (c_when c) tool_name PROTOCOL p (elapsed_ms c)
        match r with
        | Ok _ => Ok (200%Z, Posted, Some §"rasterizer_call")
        | Err e => Err (Provider (§"rasterizer: " ++ e), 0%Z, Dropped, Some §"rasterizer_failed")
        end w).

Definition with_placeholder (content placeholder : str) : str :=
  if is_empty content then placeholder else content ++ nl ++ nl ++ placeholder.

Definition image_payload (content title : str) (components : option Value) : Value :=
  message_json
    ((if is_empty content then [] else [(§"content", js content)])
       ++ match components with Some c => [(§"components", c)] | None => [] end
       ++ [(§"attachments",
            Value.Array [json_object [(§"id", num 0); (§"filename", js §"dashboard.png");
                                      (§"description", js title)]])]).

Definition build_response_with_rasterizer (env : InteractionEnv) (tool_name : str) (p : Principal)
    (rendered : RenderedInteraction) (w : World W) : InteractionResponse * World W :=
  let content := ri_content rendered in
  let components := ri_components rendered in
  let sent := posted env tool_name p (Ok (200%Z, Posted, None)) in
  let text placeholder := JsonBody (build_plain_response (with_placeholder content placeholder) components) in
  match ri_dashboard rendered with
  | None => (JsonBody (build_plain_response content components), sent w)
  | Some dash =>
      match di_rasterizer ad with
      | None =>
          (text (§"*(dashboard '" ++ md_escape_caption (rd_title dash)
                   ++ §"' deferred — rasterizer not configured)*"), sent w)
      | Some render =>
          let '(r, w) := rasterize_dashboard (ie_raster env) tool_name p render dash w in
          match r with
          | Ok png =>
              let '(body, boundary) :=
                build_multipart_body (ie_boundary env) (image_payload content (rd_title dash) components)
                  png in
              (Multipart (§"multipart/form-data; boundary=" ++ boundary) body, sent w)
          | Err _ =>
              (text (§"*(dashboard '" ++ md_escape_caption (rd_title dash)
                       ++ §"' unavailable — rasterizer failed)*"), sent w)
          end
      end
  end.

Definition di_signing_key : str := default [] (signing (di_correlation_key ad)).

(** A result of a dispatch as a message. *)
Definition render_result (env : InteractionEnv) (tool_name sender : str) (p : Principal) (res : Value)
    (w : World W) : InteractionResponse * World W :=
  match discord_try_render cell (ie_mint_now env) di_signing_key (tenant p) sender res with
  | Some (Ok rendered) => build_response_with_rasterizer env tool_name p rendered w
  | Some (Err EmptyAfterRender) =>
      (ephemeral §"(no content)",
       posted env tool_name p
         (Err (Provider §"discord surface mapper: empty surface", 0%Z, Dropped, None)) w)
  | None =>
      (JsonBody (message_json [(§"content", js (clamp_plain_text (bare_text res)))]),
       posted env tool_name p (Ok (200%Z, Posted, None)) w)
  end.

(** What follows a dispatch; a form alone opens a modal, unless the call was
    itself a submitted modal. *)
Definition answer_with (env : InteractionEnv) (modals : bool) (tool_name sender : str) (p : Principal)
    (r : result DispatchResult TritonError) (w : World W) : InteractionResponse * World W :=
  match r with
  | Err e =>
      (ephemeral (§"(error: " ++ class e ++ §")"),
       posted env tool_name p (Err (e, 0%Z, Dropped, Some §"error_response")) w)
  | Ok dispatch =>
      match if modals
            then try_render_form_modal cell (ie_modal_now env) di_signing_key (tenant p) sender
                   (dr_result dispatch)
            else None with
      | Some (Ok modal) =>
          (JsonBody modal, posted env tool_name p (Ok (200%Z, Posted, Some §"modal_opened")) w)
      | _ => render_result env tool_name sender p (dr_result dispatch) w
      end
  end.

Definition di_principal (env : ChatEnv) (claims : SenderClaims) : Principal :=
  {| sub := sc_sub claims; scopes := sc_scopes claims; groups := []; tenant := sc_tenant claims;
     raw_token := []; trace_id := ce_trace env; sender_ref := None; conversation_ref := None;
     idp := None |}.

(** The sender, the tenant's bucket and the data, which every kind of
    interaction starts with. *)
Definition with_sender (env : ChatEnv) (what : str) (i : DiscordInteraction)
    (k : SenderClaims → DiscordInteractionData → ST (ChatState W) InteractionResponse)
    : ST (ChatState W) InteractionResponse :=
  match di_sender_table ad !! user_id i with
  | None => refuse env §"-" §"-" (denied (§"unknown sender " ++ user_id i) §"unknown sender")
  | Some claims =>
      taken ←ₛ on_chat_tenants (tenant_try_take iter (ce_tenant_now env) (sc_tenant claims));
      match taken with
      | Err wait =>
          refuse env (sc_sub claims) (sc_tenant claims)
            (RateLimited (§"tenant `" ++ sc_tenant claims ++ §"` rate limit hit on adapter `"
                            ++ di_name ad ++ §"`; retry in " ++ two_decimals wait ++ §"s"),
             too_many wait §"tenant rate limited")
      | Ok _ =>
          match din_data i with
          | None => refuse env (sc_sub claims) (sc_tenant claims)
                      (bad (what ++ §" without data") §"missing data")
          | Some data => k claims data
          end
      end
  end.

(** The dispatch of the call, or the refusal. *)
Definition dispatch_call (env : InteractionEnv) (modals : bool) (i : DiscordInteraction)
    (claims : SenderClaims) (call : result (str * Value) Refusal)
    : ST (ChatState W) InteractionResponse :=
  match call with
  | Err r => refuse (ie_chat env) (sc_sub claims) (sc_tenant claims) r
  | Ok (tool_name, args) =>
      let p := di_principal (ie_chat env) claims in
      d ←ₛ on_chat_world (invoke debug_set (di_dispatcher ad) (ce_dispatch (ie_chat env)) tool_name args p
                            PROTOCOL);
      on_chat_world (answer_with env modals tool_name (user_id i) p d)
  end.

Definition handle_message_component (env : InteractionEnv) (i : DiscordInteraction)
    : ST (ChatState W) InteractionResponse :=
  with_sender (ie_chat env) §"message_component" i
    (λ claims data, dispatch_call env true i claims (component_call env i claims data)).
Definition handle_application_command (env : InteractionEnv) (i : DiscordInteraction)
    : ST (ChatState W) InteractionResponse :=
  with_sender (ie_chat env) §"application_command" i
    (λ claims data, dispatch_call env true i claims (command_call data)).
Definition handle_modal_submit (env : InteractionEnv) (i : DiscordInteraction)
    : ST (ChatState W) InteractionResponse :=
  with_sender (ie_chat env) §"modal_submit" i
    (λ claims data, dispatch_call env false i claims (modal_call env i claims data)).

(** ** The endpoint *)

(** A header is absent also when it is not visible ASCII. *)
Definition verify_signature (unix : option Z) (sig_header ts_header : option str) (body : str)
    : result unit str :=
  sig_hex ←? ok_or sig_header §"missing X-Signature-Ed25519";
  timestamp ←? ok_or ts_header §"missing X-Signature-Timestamp";
  ts_secs ←? ok_or (parse_uint u64_max timestamp) §"timestamp parse";
  let now := default 0%Z unix in
  let skew := Z.max (Z.max 0 (now - ts_secs)) (Z.max 0 (ts_secs - now)) in
  if (MAX_TIMESTAMP_SKEW_SECS <? skew)%Z then Err §"timestamp skew too large"
  else
    sig_bytes ←? result_map_err (λ _, §"signature not hex") (hex_decode sig_hex);
    if negb (length sig_bytes =? 64)%nat then Err §"signature wrong length"
    else if ed25519_verify (di_verifying_key ad) (timestamp ++ body) sig_bytes then Ok ()
    else Err §"ed25519 verify failed".

Definition handle_interaction (env : InteractionEnv) (sig_header ts_header : option str) (body : str)
    : ST (ChatState W) InteractionResponse :=
  let ce := ie_chat env in
  match verify_signature (ie_unix env) sig_header ts_header body with
  | Err reason => refuse ce §"-" §"-" (denied (§"ed25519: " ++ reason) §"signature")
  | Ok _ =>
      taken ←ₛ on_chat_rate (try_take (ce_rate_now ce));
      match taken with
      | Err r =>
          refuse ce §"-" §"-"
            (RateLimited (§"discord adapter `" ++ di_name ad ++ §"` rate limit hit; retry in "
                            ++ two_decimals r ++ §"s"), too_many r §"rate limited")
      | Ok _ =>
          match parse_interaction body with
          | Err e => refuse ce §"-" §"-" (bad (§"malformed interaction body: " ++ e) §"malformed")
          | Ok i =>
              if (din_kind i =? 1)%Z then ret (JsonBody (json_object [(§"type", num 1)]))
              else if (din_kind i =? 2)%Z then handle_application_command env i
              else if (din_kind i =? 3)%Z then handle_message_component env i
              else if (din_kind i =? 5)%Z then handle_modal_submit env i
              else
                _ ←ₛ reject ce §"-" §"-" (Validation (§"unsupported discord interaction type "
                                                        ++ dec (din_kind i)));
                ret (ephemeral (§"_(Interaction type " ++ dec (din_kind i) ++ §" not supported.)_"))
          end
      end
  end.
End Handlers.

(** ** Boot *)

Inductive BuildError :=
  | BadIdentity (e : IdentityError)
  | BadCorrelationKey (e : KeyRingError)
  | WrongKind
  | Unsupported (m : str)
  | MissingCredential (field : str)
  | Resolve (field : str) (e : ResolveError)
  | TableParse (m : str).

Section Boot.
Context {W : Type}.
Variable resolver : SecretField → result str ResolveError.
Variable decode_table : str → result SenderTable str.
Variable hex_decode : str → result str str.
(** [VerifyingKey::from_bytes]: the error of bytes that are no key. *)
Variable key_error : str → option str.
Variable now : Z.

Definition credential (field name : str) (m : Credentials) : result str BuildError :=
  f ←? ok_or (cred name m) (MissingCredential field);
  result_map_err (Resolve field) (resolver f).

Definition parse_public_key (hex : str) : result str BuildError :=
  pk ←? result_map_err (λ e, Unsupported (§"inbound.public_key not hex: " ++ e)) (hex_decode (trim hex));
  if negb (length pk =? 32)%nat then Err (Unsupported §"inbound.public_key must be 32 bytes")
  else match key_error pk with
       | Some e => Err (Unsupported (§"inbound.public_key invalid: " ++ e))
       | None => Ok pk
       end.

Definition ADAPTER_HEADROOM : Z := 10.

Definition di_initial_state (a : Adapter) (w : World W) : ChatState W :=
  let r := a_rate_limit a in
  {| cs_world := w;
     cs_rate := TokenBucket_new (u32_saturating_mul (rl_messages_per_sec r) ADAPTER_HEADROOM)
                  (u32_saturating_mul (rl_burst r) ADAPTER_HEADROOM) now;
     cs_tenants := PerTenantBuckets_new (rl_messages_per_sec r) (rl_burst r) |}.

Definition from_manifest (name : str) (a : Adapter) (d : Dispatcher W) rasterizer
    : result (DiscordAdapter W) BuildError :=
  if bool_decide (a_kind a ≠ AKDiscord) then Err WrongKind
  else if bool_decide (in_signature (a_inbound a) ≠ Ed25519) then
    Err (Unsupported (§"discord adapter requires `signature: ed25519`; got "
                        ++ scheme_debug (in_signature (a_inbound a))))
  else
    _ ←? result_map_err BadIdentity
           (require_supported_kind §"discord" (id_kind (a_identity a)) [KSenderTable]);
    public_key_hex ←? credential §"inbound.public_key" §"public_key" (in_credentials (a_inbound a));
    verifying_key ←? parse_public_key public_key_hex;
    _ ←? match cred §"token" (out_credentials (a_outbound a)) with
         | Some f => result_map_err (Resolve §"outbound.token") (resolver f)
         | None => Ok []
         end;
    table_json ←? credential §"identity.table" §"table" (id_credentials (a_identity a));
    sender_table ←? result_map_err BadIdentity (SenderTable_parse decode_table table_json);
    key ←? result_map_err (Resolve §"correlation_key") (resolver (a_correlation_key a));
    ring ←? result_map_err BadCorrelationKey (KeyRing_parse key);
    Ok {| di_name := name; di_verifying_key := verifying_key; di_correlation_key := ring;
          di_sender_table := sender_table; di_dispatcher := d; di_rasterizer := rasterizer |}.
End Boot.

(** * A submitted modal has exactly the fields its token commits to *)

Definition input_names (inputs : list DiscordModalInput) : list str := dmi_custom_id <$> inputs.
Definition input_pairs (inputs : list DiscordModalInput) : list (str * str) :=
  (λ i, (dmi_custom_id i, dmi_value i)) <$> inputs.
Definition submitted_args (inputs : list DiscordModalInput) : Value :=
  json_object ((λ i, (dmi_custom_id i, js (dmi_value i))) <$> inputs).

Lemma input_pairs_fst inputs : (input_pairs inputs).*1 = input_names inputs.
Proof. unfold input_pairs, input_names. by rewrite <-list_fmap_compose. Qed.

(** The map of a submission, when no name is empty or repeated. *)
Lemma collect_inputs_spec inputs m m' :
  collect_inputs inputs m = Ok m' ↔
  NoDup (input_names inputs) ∧ Forall (λ k, k ≠ [] ∧ m !! k = None) (input_names inputs)
  ∧ m' = list_to_map (input_pairs inputs) ∪ m.
Proof.
  revert m. induction inputs as [|i inputs IH]; intros m; cbn [collect_inputs input_names fmap list_fmap].
  { change (list_to_map (input_pairs []) ∪ m) with (∅ ∪ m). rewrite (left_id_L ∅ (∪) m).
    split; [intros [= <-]; split_and!; constructor|].
    by intros (_ & _ & ->). }
  fold (input_names inputs). rewrite NoDup_cons, Forall_cons.
  destruct (dmi_custom_id i) as [|ch name] eqn:En; cbn [is_empty]; [split; [done|tauto]|].
  rewrite <-En. destruct (decide (m !! dmi_custom_id i = None)) as [Hm|Hm]; [|split; [done|tauto]].
  rewrite IH.
  assert ((list_to_map (input_pairs (i :: inputs)) : gmap str str)
    = <[dmi_custom_id i := dmi_value i]> (list_to_map (input_pairs inputs))) as E by done.
  split.
  - intros (Hn & Hf & ->).
    assert (dmi_custom_id i ∉ input_names inputs) as Hi.
    { intros Hi. rewrite Forall_forall in Hf. apply Hf in Hi as [_ Hi]. by rewrite lookup_insert_eq in Hi. }
    split_and!; [done|done|by rewrite En|done| |].
    + eapply Forall_impl; [exact Hf|]. intros k [? Hk]. split; [done|].
      by apply lookup_insert_None in Hk as [? _].
    + rewrite E, <-insert_union_l, <-insert_union_r; [done|].
      apply not_elem_of_list_to_map_1. by rewrite input_pairs_fst.
  - intros ([Hi Hn] & [_ Hf] & ->). split_and!; [done| |].
    + apply Forall_forall. intros k Hk. rewrite Forall_forall in Hf. destruct (Hf _ Hk). split; [done|].
      rewrite lookup_insert_ne; [done|]. by intros <-.
    + rewrite E, <-insert_union_l, <-insert_union_r; [done|].
      apply not_elem_of_list_to_map_1. by rewrite input_pairs_fst.
Qed.

(** Filling the open slots. *)
Lemma fill_skeleton_spec slots m :
  NoDup slots.*1 → Forall (λ s, s.2 = Value.Null) slots →
  match fill_skeleton slots m with
  | Ok (r, m') =>
      r.*1 = slots.*1 ∧ (∀ k v, (k, v) ∈ r → js <$> m !! k = Some v)
      ∧ ∀ k, m' !! k = if decide (k ∈ slots.*1) then None else m !! k
  | Err _ => ∃ k, k ∈ slots.*1 ∧ m !! k = None
  end.
Proof.
  revert m. induction slots as [|[key slot] slots IH]; intros m; cbn [fill_skeleton fmap list_fmap fst].
  { intros _ _. split; [done|]. split; [set_solver|done]. }
  intros [Hk Hn]%NoDup_cons [Hs Hf]%Forall_cons. cbn in Hs. subst slot. cbn [is_null negb].
  destruct (m !! key) as [val|] eqn:Em; [|exists key; set_solver].
  specialize (IH (delete key m) Hn Hf). destruct (fill_skeleton slots (delete key m)) as [[r m']|e].
  - destruct IH as (Hr & Hv & Hm'). cbn [result_bind fst snd]. cbn [fmap list_fmap fst].
    split; [by f_equal|]. split.
    + intros k v [[= -> ->]|Hin]%elem_of_cons; [by rewrite Em|].
      apply Hv in Hin. destruct (decide (k = key)) as [->|]; [by rewrite lookup_delete_eq in Hin|].
      by rewrite lookup_delete_ne in Hin.
    + intros k. rewrite Hm'. destruct (decide (k = key)) as [->|Hne].
      * rewrite lookup_delete_eq. by destruct (decide _), (decide _); set_solver.
      * rewrite lookup_delete_ne by done. destruct (decide (k ∈ slots.*1)), (decide (k ∈ key :: slots.*1));
          set_solver.
  - cbn [result_bind]. destruct IH as (k & Hin & Hd). exists k. split; [set_solver|].
    rewrite lookup_delete_ne in Hd; [done|]. intros <-. done.
Qed.

(** An object built from distinct names. *)
Lemma get_insert_all_nodup (l : list (str * Value)) k :
  NoDup l.*1 → Map.get k (Map.insert_all l []) = (list_to_map l : gmap str Value) !! k.
Proof.
  assert (∀ m, NoDup l.*1 → Map.get k (Map.insert_all l m)
    = match (list_to_map l : gmap str Value) !! k with Some v => Some v | None => Map.get k m end) as H.
  2: { intros Hn. rewrite H by done. by destruct (list_to_map l !! k). }
  induction l as [|[k' v] l IH]; intros m; [done|]. intros [Hk Hn]%NoDup_cons. cbn [list_to_map].
  change (Map.insert_all ((k', v) :: l) m) with (Map.insert_all l (Map.insert k' v m)). rewrite IH by done.
  change (list_to_map ((k', v) :: l) : gmap str Value) with (<[k' := v]> (list_to_map l : gmap str Value)).
  destruct (decide (k = k')) as [->|Hne].
  - rewrite lookup_insert_eq, Map.get_insert_eq. rewrite not_elem_of_list_to_map_1 by done. done.
  - rewrite lookup_insert_ne by done. by rewrite Map.get_insert_ne by done.
Qed.

Lemma ordered_nodup m : Map.ordered m → NoDup m.*1.
Proof.
  induction m as [|[k v] m IH]; [constructor|]. intros [Hb Ho]. cbn [fmap list_fmap fst].
  constructor; [|auto]. intros ([k' v'] & -> & Hin)%list_elem_of_fmap. cbn in *.
  eapply Forall_forall in Hb; [|exact Hin]. cbn in Hb. pose proof (proj2 (str_compare_eq k' k') eq_refl).
  congruence.
Qed.

Lemma ordered_get m k : Map.ordered m → Map.get k m = (list_to_map m : gmap str Value) !! k.
Proof.
  intros Ho. rewrite <-(get_insert_all_nodup m k) by by apply ordered_nodup.
  rewrite Map.get_insert_all_ordered by done. by destruct (Map.get k m).
Qed.

Lemma ordered_fst m m' : m.*1 = m'.*1 → Map.ordered m → Map.ordered m'.
Proof.
  revert m'. induction m as [|[k v] m IH]; intros [|[k' v'] m']; cbn; try done.
  intros [= <- E] [Hb Ho]. split; [|by apply IH]. unfold Map.below in *.
  rewrite <-(Forall_fmap fst (λ k', str_compare k k' = Lt) m') .
  rewrite <-E. by apply Forall_fmap.
Qed.

(** The open slots of a form with distinct names. *)
Lemma skeleton_slots fields :
  NoDup (f_name <$> fields) →
  ∃ slots, skeleton fields = Value.Object slots ∧ Map.ordered slots
    ∧ slots.*1 ≡ₚ f_name <$> fields ∧ Forall (λ s, s.2 = Value.Null) slots.
Proof.
  intros Hn. set (l := (λ f, (f_name f, Value.Null)) <$> fields).
  assert (l.*1 = f_name <$> fields) as El by (unfold l; by rewrite <-list_fmap_compose).
  exists (Map.insert_all l []). split; [done|].
  assert (Map.ordered (Map.insert_all l [])) as Ho by by apply Map.insert_all_ordered.
  assert ((list_to_map (Map.insert_all l []) : gmap str Value) = list_to_map l) as E.
  { apply map_eq. intros k. rewrite <-ordered_get by done. apply get_insert_all_nodup. by rewrite El. }
  apply list_to_map_inj in E; [|by apply ordered_nodup|by rewrite El].
  split; [done|]. split; [by rewrite E, El|].
  rewrite E. apply Forall_fmap, Forall_true. done.
Qed.

Section ModalFacts.
Variable debug_keys : gmap str str → str.

Abbreviation input_map inputs := (list_to_map (input_pairs inputs) : gmap str str).

Lemma input_map_dom inputs k : k ∈ input_names inputs ↔ input_map inputs !! k ≠ None.
Proof using Type.
  rewrite <-input_pairs_fst. split.
  - intros Hk E. by apply not_elem_of_list_to_map in E.
  - intros Hk. destruct (decide (k ∈ (input_pairs inputs).*1)) as [|E]; [done|].
    by rewrite not_elem_of_list_to_map_1 in Hk.
Qed.

(** Filled slots with the names of a submission are its arguments. *)
Lemma filled_is_submitted inputs r :
  Map.ordered r → NoDup (input_names inputs) → (∀ k, k ∈ input_names inputs → k ∈ r.*1) →
  (∀ k v, (k, v) ∈ r → js <$> input_map inputs !! k = Some v) → Value.Object r = submitted_args inputs.
Proof using Type.
  intros Hor Hnd Hsub Hv. unfold submitted_args, json_object. f_equal.
  set (l := (λ i, (dmi_custom_id i, js (dmi_value i))) <$> inputs).
  assert (l.*1 = input_names inputs) as El by (unfold l, input_names; by rewrite <-list_fmap_compose).
  apply Map.ordered_ext; [done|by apply Map.insert_all_ordered|]. intros k.
  rewrite ordered_get, get_insert_all_nodup by (try done; by rewrite El).
  assert ((list_to_map l : gmap str Value) = js <$> input_map inputs) as ->.
  { unfold l, input_pairs. rewrite <-list_to_map_fmap, <-list_fmap_compose. done. }
  rewrite lookup_fmap. destruct (list_to_map r !! k) as [v'|] eqn:Ek.
  - apply elem_of_list_to_map_2 in Ek. by rewrite (Hv _ _ Ek).
  - destruct (input_map inputs !! k) eqn:Emk; [|done]. exfalso.
    apply not_elem_of_list_to_map in Ek. apply Ek, Hsub, input_map_dom. by rewrite Emk.
Qed.

(** A submission goes through exactly when its names are those of the form, each
    once, and then the arguments are what was typed. *)
Lemma modal_args_exact data fields v :
  NoDup (f_name <$> fields) → Forall (λ f, f_name f ≠ []) fields →
  let inputs := concat (did_components data) in
  modal_args debug_keys data (skeleton fields) = Ok v
  ↔ input_names inputs ≡ₚ f_name <$> fields ∧ v = submitted_args inputs.
Proof.
  intros Hn Hne inputs. destruct (skeleton_slots fields Hn) as (slots & -> & Ho & Hp & Hs).
  pose proof (ordered_nodup _ Ho) as Hsn. unfold modal_args. fold inputs.
  pose proof (input_map_dom inputs) as Hdom. set (m := input_map inputs) in *.
  assert (m ∪ ∅ = m) as Hm0 by apply (right_id_L ∅ (∪)).
  destruct (collect_inputs inputs ∅) as [m'|e] eqn:Ec; cbn [result_bind].
  - apply collect_inputs_spec in Ec as (Hnd & _ & ->). fold m. rewrite Hm0.
    pose proof (fill_skeleton_spec slots m Hsn Hs) as Hf.
    destruct (fill_skeleton slots m) as [[r m']|e]; cbn [result_bind fst snd].
    + destruct Hf as (Er & Hv & Hm'). destruct (decide (m' = ∅)) as [->|Hx].
      * assert (input_names inputs ≡ₚ f_name <$> fields) as Hperm.
        { rewrite <-Hp, <-Er. apply NoDup_Permutation; [done|by rewrite Er|]. intros k. rewrite Hdom. split.
          - intros Hk. rewrite Er. specialize (Hm' k). rewrite lookup_empty in Hm'.
            by destruct (decide (k ∈ slots.*1)).
          - intros ([k' v'] & -> & Hin)%list_elem_of_fmap. apply Hv in Hin. cbn. intros E. by rewrite E in Hin. }
        rewrite (filled_is_submitted inputs r); [split; [intros [= <-]; done|by intros [_ ->]]|..];
          [by eapply ordered_fst|done| |done].
        intros k. by rewrite Er, Hp, Hperm.
      * split; [done|]. intros [Hperm _]. exfalso. apply Hx, map_eq. intros k.
        rewrite Hm', lookup_empty. destruct (decide (k ∈ slots.*1)) as [|Hk]; [done|].
        destruct (m !! k) eqn:Emk; [|done]. exfalso. apply Hk. rewrite Hp, <-Hperm. apply Hdom. by rewrite Emk.
    + split; [done|]. intros [Hperm _]. destruct Hf as (k & Hk & Emk). exfalso.
      apply (Hdom k); [|done]. by rewrite Hperm, <-Hp.
  - split; [done|]. intros [Hperm _]. exfalso.
    assert (collect_inputs inputs ∅ = Ok (m ∪ ∅)) as E; [|congruence].
    apply collect_inputs_spec. split; [by rewrite Hperm|]. split; [|done].
    rewrite Hperm. apply Forall_fmap. eapply Forall_impl; [exact Hne|]. done.
Qed.
End ModalFacts.

(** * What an interaction may do *)

Section Facts.
Context {W : Type} `{SerdeJson, Crypto, UrlParse, SerdeA2ui}.
Variables (cell : HttpHosts) (debug_set : gset str → str) (debug_keys : gmap str str → str).
Variable parse_interaction : str → result DiscordInteraction str.
Variable hex_decode : str → result str str.
Variable ed25519_verify : str → str → str → bool.
Variable parse_rfc3339 : str → result Z str.
Variable iter : gmap str (Tracked spec_float) → list (str * Tracked spec_float).
Variable two_decimals : RetryAfter spec_float → str.
Variable ad : DiscordAdapter W.
Implicit Types (s : ChatState W) (w : World W) (p : Principal).

(** The body and its timestamp carry a signature of the application's key, and
    the timestamp is within five minutes of the clock. *)
Definition signed (env : InteractionEnv) (sig_header ts_header : option str) (body : str) : Prop :=
  ∃ hex ts secs sig, sig_header = Some hex ∧ ts_header = Some ts ∧ parse_uint u64_max ts = Some secs
    ∧ (- 300 ≤ default 0 (ie_unix env) - secs ≤ 300)%Z ∧ hex_decode hex = Ok sig ∧ length sig = 64
    ∧ ed25519_verify (di_verifying_key ad) (ts ++ body) sig = true.

Lemma verify_signature_ok env sig_header ts_header body :
  verify_signature hex_decode ed25519_verify ad (ie_unix env) sig_header ts_header body = Ok () →
  signed env sig_header ts_header body.
Proof using Type.
  unfold verify_signature. destruct sig_header as [hex|]; [|done]. destruct ts_header as [ts|]; [|done].
  cbn [ok_or result_bind]. destruct (parse_uint u64_max ts) as [secs|] eqn:Ep; [|done]. cbn [ok_or result_bind].
  cbv zeta. destruct (_ <? _)%Z eqn:Es; [done|]. apply Z.ltb_ge in Es. unfold MAX_TIMESTAMP_SKEW_SECS in Es.
  destruct (hex_decode hex) as [sig|] eqn:Eh; [|done]. cbn [result_map_err result_bind].
  destruct (length sig =? 64)%nat eqn:El; [|done]. cbn [negb].
  destruct (ed25519_verify _ _ _) eqn:Ev; [|done]. intros _.
  apply Nat.eqb_eq in El. exists hex, ts, secs, sig. split_and!; try done; lia.
Qed.

(** The control's message is at most five minutes old, and at most one minute
    ahead; a message from before 1970 passes. *)
Definition fresh (env : InteractionEnv) (i : DiscordInteraction) : Prop :=
  ∃ m iso t, din_message i = Some m ∧ dim_timestamp m = Some iso ∧ iso ≠ []
    ∧ parse_rfc3339 iso = Ok t ∧ (t ≤ 0 ∨ ie_click_now env - t ≤ 300)%Z
    ∧ (t - ie_click_now env ≤ 60)%Z.

(** [tool] and [args] are what the interaction of a listed sender stands for: a
    command with its typed options; or a token on the ring made for this sender,
    of a control clicked in time, or of a modal submitted with its fields. *)
Definition redeems (env : InteractionEnv) (i : DiscordInteraction) (claims : SenderClaims)
    (data : DiscordInteractionData) (tool : str) (args : Value) : Prop :=
  ∃ token, did_custom_id data = Some token
    ∧ decode_bound_any (ie_token_now env) token (di_correlation_key ad) DISCORD_MAX_CUSTOM_ID
        (discord_binding (sc_tenant claims) (user_id i)) = Ok (tool, args).
Inductive asks (env : InteractionEnv) (i : DiscordInteraction) (claims : SenderClaims)
    (data : DiscordInteractionData) : bool → str → Value → Prop :=
  | AsksCommand tool args :
      din_kind i = 2%Z → did_name data = Some tool → options_to_args (did_options data) = Ok args →
      asks env i claims data true tool args
  | AsksClick tool signed_args args :
      din_kind i = 3%Z → fresh env i → redeems env i claims data tool signed_args →
      click_args data signed_args = Ok args → asks env i claims data true tool args
  | AsksSubmit tool signed_args args :
      din_kind i = 5%Z → redeems env i claims data tool signed_args →
      modal_args debug_keys data signed_args = Ok args → asks env i claims data false tool args.

Lemma non_empty_Some o (x : str) : non_empty o = Some x → o = Some x ∧ x ≠ [].

Proof using Type. destruct o as [[|c t]|]; cbn; try done. by intros [= <-]. Qed.

Lemma check_freshness_ok env i :
  check_freshness parse_rfc3339 (ie_click_now env) i = Ok () → fresh env i.
Proof using Type.
  unfold check_freshness, fresh. destruct (non_empty _) as [iso|] eqn:En; [|done].
  apply non_empty_Some in En as [Em Hne]. destruct (din_message i) as [m|]; [|done]. cbn in Em.
  destruct (parse_rfc3339 iso) as [t|] eqn:Et; [|done].
  destruct ((0 <? t)%Z && _) eqn:E1; [discriminate|].
  destruct (CALLBACK_FUTURE_SKEW_SECS <? _)%Z eqn:E2; [discriminate|]. intros _.
  apply andb_false_iff in E1. rewrite !Z.ltb_ge in E1. apply Z.ltb_ge in E2.
  unfold CALLBACK_TTL_SECS, CALLBACK_FUTURE_SKEW_SECS in *.
  exists m, iso, t. split_and!; try done; lia.
Qed.

Lemma redeem_ok env i claims data prefix token r :
  non_empty (did_custom_id data) = Some token →
  redeem ad (ie_token_now env) prefix token (sc_tenant claims) (user_id i) = Ok r →
  redeems env i claims data r.1 r.2.
Proof using Type.
  intros [Et _]%non_empty_Some. unfold redeem. destruct (decode_bound_any _ _ _ _ _) as [[t a]|] eqn:E; [|done].
  intros [= <-]. by exists token.
Qed.

Lemma component_call_asks env i claims data tool args :
  din_kind i = 3%Z → component_call parse_rfc3339 ad env i claims data = Ok (tool, args) →
  asks env i claims data true tool args.
Proof using Type.
  intros Hk. unfold component_call. destruct (non_empty (did_custom_id data)) as [token|] eqn:Et; [|done].
  cbn [ok_or result_bind].
  destruct (check_freshness _ _ _) as [[]|] eqn:Ef; [|done]. cbn [result_bind].
  destruct (redeem _ _ _ _ _ _) as [r|] eqn:Er; [|done]. cbn [result_bind].
  destruct (click_args data r.2) as [a|] eqn:Ea; [|done]. cbn [result_bind]. intros [= <- <-].
  eapply AsksClick; [done|by apply check_freshness_ok|by eapply redeem_ok|done].
Qed.
Lemma command_call_asks env i claims data tool args :
  din_kind i = 2%Z → command_call data = Ok (tool, args) → asks env i claims data true tool args.
Proof using Type.
  intros Hk. unfold command_call. destruct (non_empty (did_name data)) as [nm|] eqn:Et; [|done].
  cbn [ok_or result_bind]. destruct (options_to_args _) as [a|] eqn:Ea; [|done].
  cbn [result_map_err result_bind]. intros [= <- <-]. apply non_empty_Some in Et as [Et _].
  by apply AsksCommand.
Qed.
Lemma modal_call_asks env i claims data tool args :
  din_kind i = 5%Z → modal_call debug_keys ad env i claims data = Ok (tool, args) →
  asks env i claims data false tool args.
Proof using Type.
  intros Hk. unfold modal_call. destruct (non_empty (did_custom_id data)) as [token|] eqn:Et; [|done].
  cbn [ok_or result_bind]. destruct (redeem _ _ _ _ _ _) as [r|] eqn:Er; [|done]. cbn [result_bind].
  destruct (modal_args _ data r.2) as [a|] eqn:Ea; [|done]. cbn [result_bind]. intros [= <- <-].
  eapply AsksSubmit; [done|by eapply redeem_ok|done].
Qed.

(** ** The answer *)

(** The last line written is that of the answer, of this caller and tool. *)
Definition answer_recorded (tl : str) p w' : Prop :=
  ∃ l w0, sinks w' = emit l (sinks w0) ∧ outside w' = outside w0 ∧ phase l = Post
    ∧ AuditLog.protocol l = PROTOCOL ∧ tool l = tl ∧ subject l = sub p ∧ au_tenant l = tenant p
    ∧ au_trace_id l = trace_id p.

Lemma posted_recorded env tl p outcome w : answer_recorded tl p (posted ad env tl p outcome w).
Proof using Type.
  unfold posted, record_post, record_post_to. destruct outcome as [[[? ?] ?]|[[[? ?] ?] ?]];
    eexists _, w; split_and!; reflexivity.
Qed.

Lemma answer_with_recorded env modals tl sender p d w :
  answer_recorded tl p (answer_with cell ad env modals tl sender p d w).2.
Proof using Type.
  assert (∀ res w, answer_recorded tl p (render_result cell ad env tl sender p res w).2) as Hr.
  { intros res w0. unfold render_result. destruct (discord_try_render _ _ _ _ _ _) as [[r|[]]|];
      try apply posted_recorded.
    unfold build_response_with_rasterizer. cbv zeta. destruct (ri_dashboard r) as [dash|];
      [|apply posted_recorded].
    destruct (di_rasterizer ad) as [render|]; [|apply posted_recorded].
    destruct (rasterize_dashboard _ _ _ _ _ _ _) as [[png|e] w1]; [|apply posted_recorded].
    destruct (build_multipart_body _ _ _). apply posted_recorded. }
  unfold answer_with. destruct d as [dispatch|e]; [|apply posted_recorded].
  destruct (if modals then _ else _) as [[modal|e]|]; [apply posted_recorded|apply Hr|apply Hr].
Qed.

(** ** The outcome of a call *)

(** Nothing outside is touched, and the answer is a refusal. *)
Definition turned_away s (x : InteractionResponse * ChatState W) : Prop :=
  outside (cs_world x.2) = outside (cs_world s)
  ∧ ∃ r, x.1 = Plain r ∧ resp_status r ∈ [400; 401; 429]%Z.

(** Nothing outside is touched, and the answer is the fixed one to a probe, which
    leaves no trace, or to a kind of interaction that is not handled. *)
Definition fixed_reply (i : DiscordInteraction) s (x : InteractionResponse * ChatState W) : Prop :=
  din_kind i = 1%Z ∧ x.1 = JsonBody (json_object [(§"type", num 1)]) ∧ cs_world x.2 = cs_world s
  ∨ ¬ (din_kind i ∈ [1; 2; 3; 5]%Z)
    ∧ x.1 = ephemeral (§"_(Interaction type " ++ dec (din_kind i) ++ §" not supported.)_")
    ∧ outside (cs_world x.2) = outside (cs_world s).

(** What the interaction asks for was dispatched as its listed sender, and the
    answer recorded. *)
Definition carried_out (env : InteractionEnv) (i : DiscordInteraction) s
    (x : InteractionResponse * ChatState W) : Prop :=
  ∃ claims data modals tl args d w1,
    di_sender_table ad !! user_id i = Some claims ∧ din_data i = Some data
    ∧ asks env i claims data modals tl args
    ∧ let p := di_principal (ie_chat env) claims in
      invoke debug_set (di_dispatcher ad) (ce_dispatch (ie_chat env)) tl args p PROTOCOL (cs_world s)
        = (d, w1)
      ∧ (x.1, cs_world x.2) = answer_with cell ad env modals tl (user_id i) p d w1
      ∧ answer_recorded tl p (cs_world x.2).

Lemma reject_outside env sb tn e s :
  outside (cs_world (reject ad env sb tn e s).2) = outside (cs_world s).
Proof using Type. cbn. unfold record_rejection. by repeat case_match. Qed.

Lemma refuse_turned_away env sb tn r s :
  resp_status r.2 ∈ [400; 401; 429]%Z → turned_away s (refuse ad env sb tn r s).
Proof using Type.
  intros Hr. unfold refuse, bind. pose proof (reject_outside env sb tn r.1 s) as Ho.
  destruct (reject ad env sb tn r.1 s) as [[] s']. split; [done|]. by eexists.
Qed.

(** The refusals of a call ask for 400 or 401. *)
Definition plain_refusal (c : result (str * Value) Refusal) : Prop :=
  match c with Ok _ => True | Err r => resp_status r.2 ∈ [400; 401; 429]%Z end.

Lemma dispatch_call_outcome env modals i claims data call s :
  di_sender_table ad !! user_id i = Some claims → din_data i = Some data → plain_refusal call →
  (∀ tl args, call = Ok (tl, args) → asks env i claims data modals tl args) →
  let x := dispatch_call cell debug_set ad env modals i claims call s in
  turned_away s x ∨ carried_out env i s x.
Proof using Type.
  intros Hc Hd Hp Ha x. subst x. unfold dispatch_call. destruct call as [[tl args]|r].
  2: { left. by apply refuse_turned_away. }
  right. specialize (Ha tl args eq_refl). unfold carried_out. unfold bind, on_chat_world.
  destruct (invoke _ _ _ _ _ _ _ _) as [d w1] eqn:Ei. cbn [cs_world].
  set (a := answer_with cell ad env modals tl (user_id i) (di_principal (ie_chat env) claims) d w1).
  exists claims, data, modals, tl, args, d, w1. split_and!; [done|done|done|done| |].
  - fold a. by destruct a.
  - pose proof (answer_with_recorded env modals tl (user_id i) (di_principal (ie_chat env) claims) d w1) as Hr.
    fold a in Hr. by destruct a.
Qed.

Lemma with_sender_outcome env ce what i k s :
  (∀ claims data s0, di_sender_table ad !! user_id i = Some claims → din_data i = Some data →
     cs_world s0 = cs_world s → turned_away s0 (k claims data s0) ∨ carried_out env i s0 (k claims data s0)) →
  let x := with_sender iter two_decimals ad ce what i k s in
  turned_away s x ∨ carried_out env i s x.
Proof using Type.
  intros Hk x. subst x. unfold with_sender. destruct (di_sender_table ad !! user_id i) as [claims|] eqn:Ec.
  2: { left. apply refuse_turned_away. by apply (bool_decide_unpack _). }
  unfold bind, on_chat_tenants. destruct (tenant_try_take _ _ _ _) as [taken b].
  set (s0 := Build_ChatState _ _ b).
  assert (cs_world s0 = cs_world s) as Hs0 by done. clearbody s0.
  assert (∀ x, turned_away s0 x ∨ carried_out env i s0 x → turned_away s x ∨ carried_out env i s x) as Hmv.
  { intros x. unfold turned_away, carried_out. by rewrite Hs0. }
  apply Hmv. destruct taken as [|wait]; [|left; apply refuse_turned_away; by apply (bool_decide_unpack _)].
  destruct (din_data i) as [data|] eqn:Ed; [by apply Hk|]. left. apply refuse_turned_away. by apply (bool_decide_unpack _).
Qed.

Lemma click_args_refusal data args r : click_args data args = Err r → resp_status r.2 = 400%Z.
Proof using Type.
  unfold click_args. destruct (did_component_type data) as [k|]; [|by intros [= <-]].
  destruct (k =? 3)%Z; [|destruct (k =? 2)%Z; [|by intros [= <-]]].
  2: { destruct (did_values data); [done|by intros [= <-]]. }
  destruct (did_values data) as [|chosen [|]]; [by intros [= <-]| |by intros [= <-]].
  destruct args as [| | | | |[|[key val] [|]]]; try (by intros [= <-]).
  destruct (is_null val); [done|by intros [= <-]].
Qed.

Lemma collect_inputs_refusal inputs m r : collect_inputs inputs m = Err r → resp_status r.2 = 400%Z.
Proof using Type.
  revert m. induction inputs as [|i inputs IH]; intros m; cbn [collect_inputs]; [done|].
  destruct (is_empty _); [by intros [= <-]|]. destruct (decide _); [apply IH|by intros [= <-]].
Qed.
Lemma fill_skeleton_refusal slots m r : fill_skeleton slots m = Err r → resp_status r.2 = 400%Z.
Proof using Type.
  revert m. induction slots as [|[key slot] slots IH]; intros m; cbn [fill_skeleton]; [done|].
  destruct (m !! key); [|by intros [= <-]]. destruct (is_null slot); [|by intros [= <-]]. cbn [negb].
  specialize (IH (delete key m)). destruct (fill_skeleton slots _); [done|]. cbn [result_bind].
  intros [= <-]. by apply IH.
Qed.
Lemma modal_args_refusal data args r : modal_args debug_keys data args = Err r → resp_status r.2 = 400%Z.
Proof using Type.
  unfold modal_args. destruct args as [| | | | |slots]; try (by intros [= <-]).
  destruct (collect_inputs _ _) as [m|] eqn:Ec; [|intros [= <-]; by eapply collect_inputs_refusal].
  cbn [result_bind]. destruct (fill_skeleton slots m) as [[f m']|] eqn:Ef;
    [|intros [= <-]; by eapply fill_skeleton_refusal].
  cbn [result_bind snd]. destruct (decide _); [done|by intros [= <-]].
Qed.

Lemma redeem_refusal now prefix token tn sender r :
  redeem ad now prefix token tn sender = Err r → resp_status r.2 = 401%Z.
Proof using Type. unfold redeem. destruct (decode_bound_any _ _ _ _ _); [done|]. by intros [= <-]. Qed.

Lemma check_freshness_refusal now i r :
  check_freshness parse_rfc3339 now i = Err r → resp_status r.2 ∈ [400; 401; 429]%Z.
Proof using Type.
  unfold check_freshness. destruct (non_empty _) as [iso|]; [|intros [= <-]; by apply (bool_decide_unpack _)].
  destruct (parse_rfc3339 iso) as [t|]; [|intros [= <-]; by apply (bool_decide_unpack _)].
  destruct ((0 <? t)%Z && _); [intros [= <-]; by apply (bool_decide_unpack _)|].
  destruct (CALLBACK_FUTURE_SKEW_SECS <? _)%Z; [intros [= <-]; by apply (bool_decide_unpack _)|done].
Qed.

Lemma component_call_refusal env i claims data :
  plain_refusal (component_call parse_rfc3339 ad env i claims data).
Proof using Type.
  unfold component_call. destruct (non_empty _); cbn [ok_or result_bind]; [|by apply (bool_decide_unpack _)].
  destruct (check_freshness _ _ _) as [[]|r] eqn:Ef; cbn [result_bind].
  2: { by apply check_freshness_refusal in Ef. }
  destruct (redeem _ _ _ _ _ _) as [c|r] eqn:Er; cbn [result_bind].
  2: { apply redeem_refusal in Er. cbn. rewrite Er. by apply (bool_decide_unpack _). }
  destruct (click_args data c.2) as [a|r] eqn:Ea; cbn [result_bind]; [done|].
  apply click_args_refusal in Ea. cbn. rewrite Ea. by apply (bool_decide_unpack _).
Qed.
Lemma modal_call_refusal env i claims data :
  plain_refusal (modal_call debug_keys ad env i claims data).
Proof using Type.
  unfold modal_call. destruct (non_empty _); cbn [ok_or result_bind]; [|by apply (bool_decide_unpack _)].
  destruct (redeem _ _ _ _ _ _) as [c|r] eqn:Er; cbn [result_bind].
  2: { apply redeem_refusal in Er. cbn. rewrite Er. by apply (bool_decide_unpack _). }
  destruct (modal_args _ data c.2) as [a|r] eqn:Ea; cbn [result_bind]; [done|].
  apply modal_args_refusal in Ea. cbn. rewrite Ea. by apply (bool_decide_unpack _).
Qed.
Lemma command_call_refusal data : plain_refusal (command_call data).
Proof using Type.
  unfold command_call. destruct (non_empty _); cbn [ok_or result_bind]; [|by apply (bool_decide_unpack _)].
  destruct (options_to_args _) as [a|e]; cbn [result_map_err result_bind]; [done|by apply (bool_decide_unpack _)].
Qed.

(** C29: nothing happens for an interaction that is not signed and its sender's
    own.  A call to the Discord endpoint is either refused with 400, 401 or 429
    and leaves everything outside as it was; or its body and timestamp were
    signed by the application's key within five minutes of the clock.  Then it
    is a probe, answered with the fixed reply, or an interaction of a kind that
    is not handled, answered with the fixed note, and again nothing outside is
    touched; or its sender is in the operator's table, and what was dispatched,
    as that sender, is what the interaction stands for: the command it names
    with its typed options, the call signed for this sender in the token of a
    control clicked within five minutes of its message (or whose message claims
    a time before 1970), or the call signed in the token of a modal with the
    fields submitted; and the last audit line is that of the answer. *)
Theorem discord_interaction_outcome env sig_header ts_header body s :
  let x := handle_interaction cell debug_set debug_keys parse_interaction hex_decode ed25519_verify
             parse_rfc3339 iter two_decimals ad env sig_header ts_header body s in
  turned_away s x
  ∨ signed env sig_header ts_header body
    ∧ ∃ i, parse_interaction body = Ok i ∧ (fixed_reply i s x ∨ carried_out env i s x).
Proof using Type.
  intros x. subst x. unfold handle_interaction. cbv zeta.
  destruct (verify_signature _ _ _ _ _ _ _) as [[]|] eqn:Ev;
    [|left; apply refuse_turned_away; by apply (bool_decide_unpack _)].
  apply verify_signature_ok in Ev. rewrite bind_snd.
  set (y := on_chat_rate _ s). assert (cs_world y.2 = cs_world s) as Hs0.
  { subst y. unfold on_chat_rate. by destruct (try_take _ _). }
  clearbody y. destruct y as [taken s0]. cbn [fst snd] in *.
  assert (∀ x, (turned_away s0 x ∨ signed env sig_header ts_header body
      ∧ ∃ i, parse_interaction body = Ok i ∧ (fixed_reply i s0 x ∨ carried_out env i s0 x)) →
    turned_away s x ∨ signed env sig_header ts_header body
      ∧ ∃ i, parse_interaction body = Ok i ∧ (fixed_reply i s x ∨ carried_out env i s x)) as Hmv.
  { intros x. unfold turned_away, fixed_reply, carried_out. by rewrite Hs0. }
  apply Hmv. destruct taken as [|wait]; [|left; apply refuse_turned_away; by apply (bool_decide_unpack _)].
  destruct (parse_interaction body) as [i|]; [|left; apply refuse_turned_away; by apply (bool_decide_unpack _)].
  destruct (din_kind i =? 1)%Z eqn:E1; [apply Z.eqb_eq in E1|].
  { right. split; [done|]. exists i. split; [done|]. left. by left. }
  assert (∀ x, turned_away s0 x ∨ carried_out env i s0 x → turned_away s0 x
    ∨ signed env sig_header ts_header body
      ∧ ∃ i', Ok (E:=str) i = Ok i' ∧ (fixed_reply i' s0 x ∨ carried_out env i' s0 x)) as Hi.
  { intros x [?|?]; [by left|]. right. split; [done|]. exists i. auto. }
  destruct (din_kind i =? 2)%Z eqn:E2; [apply Z.eqb_eq in E2; apply Hi, with_sender_outcome; intros|].
  { eapply dispatch_call_outcome; [done|done|apply command_call_refusal|].
    intros tl args. by apply command_call_asks. }
  destruct (din_kind i =? 3)%Z eqn:E3; [apply Z.eqb_eq in E3; apply Hi, with_sender_outcome; intros|].
  { eapply dispatch_call_outcome; [done|done|apply component_call_refusal|].
    intros tl args. by apply component_call_asks. }
  destruct (din_kind i =? 5)%Z eqn:E5; [apply Z.eqb_eq in E5; apply Hi, with_sender_outcome; intros|].
  { eapply dispatch_call_outcome; [done|done|apply modal_call_refusal|].
    intros tl args. by apply modal_call_asks. }
  right. split; [done|]. exists i. split; [done|]. left. right. split.
  { apply Z.eqb_neq in E1, E2, E3, E5. rewrite !elem_of_cons, elem_of_nil. tauto. }
  unfold bind. cbn [ret snd fst].
  pose proof (reject_outside (ie_chat env) §"-" §"-" (Validation (§"unsupported discord interaction type "
    ++ dec (din_kind i))) s0) as Ho. by destruct (reject _ _ _ _ _ _).
Qed.
End Facts.

(** ** From the opened modal to the submitted one *)

(** The token Discord sends back. *)
Definition modal_token (modal : Value) : option str :=
  d ← value_get §"data" modal; get_str §"custom_id" d.

(** C30: a modal round-trips exactly.  When a form opened a modal for a sender,
    a submission of it by that sender within a week is accepted as a call if and
    only if it brings the fields of the form, each once and no other; and the
    call, which is dispatched unless a rate limit refuses it, is the form's tool
    with every value under its field's name. *)
Theorem discord_modal_exact {W} `{CryptoLaws} debug_keys (ad : DiscordAdapter W) key rest n n' title
    fields tool modal env i claims data call :
  keys (di_correlation_key ad) = key :: rest →
  build_modal_response (Some n) key (sc_tenant claims) (user_id i) title fields tool = Ok modal →
  did_custom_id data = modal_token modal → ie_token_now env = Some n' →
  (0 ≤ n)%Z → (n' ≤ n + 7 * 24 * 3600)%Z → (n + 7 * 24 * 3600 + 3600 ≤ u64_max)%Z →
  body_roundtrips {| cb_t := tool; cb_a := skeleton fields;
                     cb_x := Some (div_ceil (n + 7 * 24 * 3600) 3600) |} →
  let inputs := concat (did_components data) in
  modal_call debug_keys ad env i claims data = Ok call
  ↔ input_names inputs ≡ₚ f_name <$> fields ∧ call = (tool, submitted_args inputs).
Proof.
  intros Hk Hm Hdata Hnow Hn Hn' Hmax Hrt inputs.
  destruct (modal_commits _ _ _ _ _ _ _ _ Hm) as (_ & Hnd & Hne & _ & token & Hmint & -> & _).
  change (modal_token _) with (Some token) in Hdata. unfold modal_call. rewrite Hdata, Hnow.
  destruct (minted_lifetime n (7 * 24 * 3600) _ _ _ _ _ _ n' Hn ltac:(lia) Hmax Hrt Hmint) as (_ & Hdec & _).
  specialize (Hdec Hn').
  assert (token ≠ []) as Ht.
  { intros ->. revert Hmint. unfold discord_mint, encode_bound. destruct (is_empty tool); [done|].
    cbn [bound_expiry result_bind]. intros (json & _ & _ & E)%finish_Ok. by destruct (b64url_encode json). }
  destruct token as [|c token]; [done|]. cbn [non_empty mbind option_bind is_empty ok_or result_bind].
  unfold redeem, decode_bound_any, try_ring, verifying. rewrite Hk. cbn [try_keys]. rewrite Hdec.
  cbn [result_map_err result_bind fst snd].
  destruct (modal_args debug_keys data (skeleton fields)) as [v|r] eqn:Ea; cbn [result_bind].
  - apply modal_args_exact in Ea as [Hp ->]; [|done|done]. split; [by intros [= <-]|by intros [_ ->]].
  - split; [done|]. intros [Hp _].
    assert (modal_args debug_keys data (skeleton fields) = Ok (submitted_args inputs)) as E.
    { apply modal_args_exact; [done|done|]. by split. }
    congruence.
Qed.

(** A control whose message claims a time before 1970 is never stale. *)
Lemma prehistoric_click_is_fresh now (t : Z) iso i :
  (t ≤ 0)%Z → (0 ≤ now)%Z → iso ≠ [] → din_message i = Some {| dim_timestamp := Some iso |} →
  check_freshness (λ _, Ok t) now i = Ok ().
Proof.
  intros Ht Hnow Hiso Hm. unfold check_freshness. rewrite Hm. destruct iso as [|c iso]; [done|].
  cbn [mbind option_bind non_empty is_empty dim_timestamp].
  rewrite (proj2 (Z.ltb_ge 0 t)) by lia. cbn [andb].
  by rewrite (proj2 (Z.ltb_ge _ _)) by (unfold CALLBACK_FUTURE_SKEW_SECS; lia).
Qed.

(** ** Boot *)

(** An adapter that starts verifies under a key of 32 bytes, has a key to sign
    with, and was declared with signed interactions and a table of senders. *)
Lemma discord_boot_fails_closed {W} resolver decode_table hex key_error name a (d : Dispatcher W) ras ad :
  from_manifest resolver decode_table hex key_error name a d ras = Ok ad →
  a_kind a = AKDiscord ∧ in_signature (a_inbound a) = Ed25519 ∧ id_kind (a_identity a) = KSenderTable
  ∧ length (di_verifying_key ad) = 32 ∧ is_Some (signing (di_correlation_key ad)).
Proof.
  unfold from_manifest. destruct (bool_decide (a_kind a ≠ _)) eqn:E1; [done|].
  destruct (bool_decide (in_signature _ ≠ _)) eqn:E2; [done|].
  apply bool_decide_eq_false, dec_stable in E1. apply bool_decide_eq_false, dec_stable in E2.
  destruct (require_supported_kind _ _ _) as [[]|] eqn:Ei; [|done]. cbn [result_map_err result_bind].
  destruct (credential _ _ _ _) as [hex_key|]; [|done]. cbn [result_bind].
  destruct (parse_public_key hex key_error hex_key) as [pk|] eqn:Epk; [|done]. cbn [result_bind].
  destruct (match cred _ _ with Some _ => _ | None => _ end); [|done]. cbn [result_bind].
  destruct (credential _ _ _ _) as [table|]; [|done]. cbn [result_bind].
  destruct (SenderTable_parse _ _) as [senders|]; [|done]. cbn [result_map_err result_bind].
  destruct (resolver (a_correlation_key a)) as [k|]; [|done]. cbn [result_map_err result_bind].
  destruct (KeyRing_parse k) as [ring|] eqn:Er; [|done]. cbn [result_map_err result_bind].
  intros [= <-]. cbn [di_verifying_key di_correlation_key]. split_and!; [done|done| | |].
  - revert Ei. unfold require_supported_kind. by destruct (id_kind (a_identity a)).
  - revert Epk. unfold parse_public_key. destruct (hex _) as [b|]; [|done]. cbn [result_map_err result_bind].
    destruct (length b =? 32)%nat eqn:El; [|done]. cbn [negb]. destruct (key_error b); [done|].
    intros [= <-]. by apply Nat.eqb_eq.
  - by destruct (key_ring_sound _ _ Er) as [[k' ->] _].
Qed.

(** ** Instances *)

Definition di_demo_field : FormField :=
  {| f_name := §"city"; f_label := §"City"; f_kind := KString; required := true;
     placeholder := None; default_value := None; options := []; f_style := Dropdown |}.
(** Bodies that ask for [save] with one open field, until the end of the week. *)
#[local] Instance di_crypto : Crypto := {|
  hmac_sha256 _ _ := replicate 32 "x"%char;
  b64url_encode := @b64url_encode demo_crypto;
  b64url_decode := @b64url_decode demo_crypto;
  body_to_string _ := Ok §"save";
  body_from_slice _ := Ok {| cb_t := §"save"; cb_a := skeleton [di_demo_field]; cb_x := Some 168%Z |};
|}.
#[local] Instance di_laws : CryptoLaws.
Proof. constructor; [apply (@b64_roundtrip _ demo_laws)|apply (@b64_no_dot _ demo_laws)]. Qed.

Definition di_demo_adapter : DiscordAdapter nat :=
  {| di_name := §"d"; di_verifying_key := replicate 32 "k"%char;
     di_correlation_key := {| keys := [§"key"] |}; di_sender_table := ChatIdentity.demo_table;
     di_dispatcher := demo_dispatcher None unenforced; di_rasterizer := None |}.
Definition di_demo_env : InteractionEnv :=
  {| ie_chat :=
       {| ce_rate_now := 0;
          ce_tenant_now := {| at_entry := 0; at_scan := λ _, 0%Z; at_create := 0; at_take := 0 |};
          ce_reject_when := §"now"; ce_reject_now := 0; ce_reject_uuid := §"u"; ce_trace := §"t";
          ce_dispatch := Dispatcher.tick; ce_post := Dispatcher.tick |};
     ie_unix := Some 0%Z; ie_click_now := 0; ie_token_now := Some 10%Z; ie_modal_now := Some 0%Z;
     ie_mint_now := Some 0%Z; ie_raster := Dispatcher.tick; ie_boundary := §"b" |}.
Definition di_demo_modal : Value := Eval vm_compute in
  match build_modal_response (Some 0%Z) §"key" §"acme" §"42" §"Where" [di_demo_field] §"save" with
  | Ok v => v
  | Err _ => Value.Null
  end.
Definition di_demo_data (inputs : list DiscordModalInput) : DiscordInteractionData :=
  {| did_custom_id := modal_token di_demo_modal; did_name := None; did_options := [];
     did_values := []; did_component_type := None; did_components := [inputs] |}.
Definition di_demo_interaction : DiscordInteraction :=
  {| din_kind := 5; din_data := None; din_user := Some §"42"; din_member := None; din_message := None |}.

Lemma discord_modal_exact_witness :
  modal_call (λ _, []) di_demo_adapter di_demo_env di_demo_interaction (demo_claims §"alice")
    (di_demo_data [{| dmi_custom_id := §"city"; dmi_value := §"Bonn" |}])
  = Ok (§"save", Value.Object [(§"city", Value.String §"Bonn")]).
Proof.
  apply (discord_modal_exact (λ _, []) di_demo_adapter §"key" [] 0 10 §"Where" [di_demo_field] §"save"
    di_demo_modal di_demo_env di_demo_interaction (demo_claims §"alice")
    (di_demo_data [{| dmi_custom_id := §"city"; dmi_value := §"Bonn" |}])).
  - reflexivity.
  - vm_compute. reflexivity.
  - reflexivity.
  - reflexivity.
  - lia.
  - lia.
  - unfold u64_max. lia.
  - exists §"save". split; vm_compute; reflexivity.
  - split; [reflexivity|]. vm_compute. reflexivity.
Defined.

#[local] Existing Instance sample_json.

(** The note on a dashboard is appended after the text was cut. *)
Lemma long_dashboard_title_exceeds_cap :
  let m := {| ri_content := replicate 1999 "x"%char; ri_components := None; ri_deferred_buttons := 0;
              ri_deferred_selections := 0; ri_deferred_forms := 0; ri_deferred_dashboards := 0;
              ri_truncated := false; ri_dashboard := Some {| rd_title := §"t"; rd_tiles := [] |} |} in
  ∃ body content,
    (build_response_with_rasterizer di_demo_adapter di_demo_env §"echo" (alice []) m
       (World_new unenforced 0)).1 = JsonBody body
    ∧ (d ← value_get §"data" body; get_str §"content" d) = Some content
    ∧ DISCORD_CONTENT_MAX_BYTES < length content.
Proof. eexists _, _. split; [reflexivity|]. split; [reflexivity|]. by apply Nat.ltb_lt. Qed.
