(* ===== verification/DiscordGateway.v ===== *)
(** * DiscordGateway: the persistent connection to Discord
    (crates/triton-chat-discord/src/gateway.rs)

    A worker that connects, identifies or resumes, reads frames, keeps the
    connection alive with heartbeats and connects again with a pause that doubles
    up to a bound.  What the socket and the timers bring is a list of events; the
    heartbeat task is interleaved with the reader at its ticks.  What the worker
    does, and the frames it reads, are kept in a log. *)

From Stdlib Require Import SpecFloat.
From S2P Require Import Prelude Json Errors Principal RateLimit Context AuditLog Dispatcher.
From S2P Require Import Correlation A2ui ChatIdentity Manifest Chat WhatsAppBridge.
From S2P Require Import DiscordMapper Discord.

Definition BACKOFF_INITIAL : Z := 500.
Definition BACKOFF_MAX : Z := 30000.
Definition INTENTS : Z := Z.lor (Z.shiftl 1 9) (Z.lor (Z.shiftl 1 12) (Z.shiftl 1 15)).

Record DiscordGatewayAdapter (W : Type) := {
  gw_name : str;
  gw_bot_token : str;
  gw_sender_table : SenderTable;
  gw_inbound_tool : str;
  gw_dispatcher : Dispatcher W;
  gw_gateway_url : str;
  gw_rest_base : str;
}.
Arguments gw_name {W} _.
Arguments gw_bot_token {W} _.
Arguments gw_sender_table {W} _.
Arguments gw_inbound_tool {W} _.
Arguments gw_dispatcher {W} _.
Arguments gw_gateway_url {W} _.
Arguments gw_rest_base {W} _.

Inductive ConnOutcome := OShutdown | OReconnect | OReIdentify.
Record Session := { sess_id : str; sess_resume_url : str }.

Definition is_non_resumable_close (code : Z) : bool :=
  bool_decide (code ∈ [4004; 4010; 4011; 4012; 4013; 4014]%Z).

(** ** Addresses *)

Definition ws_host `{UrlParse} (url : str) : option str :=
  parsed ← url_parse url;
  if bool_decide (url_scheme parsed ∈ [§"ws"; §"wss"])
  then (λ h, to_ascii_lowercase (trim_end_char "." h)) <$> url_host_str parsed
  else None.

Definition is_discord (host : str) : bool :=
  bool_decide (host = §"discord.gg") || bool_decide (host = §"discord.com")
  || ends_with §".discord.gg" host || ends_with §".discord.com" host.

Definition resume_url_is_trusted `{UrlParse} (resume_url gateway_url : str) : bool :=
  match ws_host resume_url with
  | None => false
  | Some host => is_discord host || bool_decide (ws_host gateway_url = Some host)
  end.

Definition with_query (base : str) : str :=
  if bool_decide ("?"%char ∈ base) then base else base ++ §"?v=10&encoding=json".

(** ** Frames *)

Definition heartbeat_payload (seq : Z) : Value :=
  json_object [(§"op", num 1); (§"d", if (seq <? 0)%Z then Value.Null else num seq)].
Definition resume_payload (token id : str) (seq : Z) : Value :=
  json_object [(§"op", num 6);
               (§"d", json_object [(§"token", js token); (§"session_id", js id); (§"seq", num seq)])].
Definition identify_payload (token : str) : Value :=
  json_object [(§"op", num 2);
    (§"d", json_object [(§"token", js token); (§"intents", num INTENTS);
       (§"properties", json_object [(§"os", js §"linux"); (§"browser", js §"triton");
                                    (§"device", js §"triton")])])].

Definition gw_route_command : str → str → str * Value := bridge_route_command.
Definition gw_reply_text `{SerdeJson} : Value → str := reply_text.

(** ** The worker's state *)

(** What a worker does and what its reader gets. *)
Inductive GwAct :=
  | ActConnect (url : str)
  | ActSend (frame : Value)
  | ActRecv (frame : Value)
  | ActClosed (code : option Z)
  | ActPause (ms : Z).

(** [gs_last_seq] is also the atomic the heartbeats read: they are stored
    together.  The log, kept here alone, has the latest first. *)
Record GwState (W : Type) := {
  gs_chat : ChatState W;
  gs_session : option Session;
  gs_last_seq : Z;
  gs_backoff : Z;
  gs_awaiting_ack : bool;
  (** of the connection: the heartbeat task runs, and has given it up *)
  gs_beating : bool;
  gs_dead : bool;
  gs_log : list GwAct;
}.
Arguments gs_chat {W} _.
Arguments gs_session {W} _.
Arguments gs_last_seq {W} _.
Arguments gs_backoff {W} _.
Arguments gs_awaiting_ack {W} _.
Arguments gs_beating {W} _.
Arguments gs_dead {W} _.
Arguments gs_log {W} _.

Section Setters.
Context {W : Type}.
Implicit Types (s : GwState W).
Definition set_chat (c : ChatState W) s : GwState W :=
  {| gs_chat := c; gs_session := gs_session s; gs_last_seq := gs_last_seq s; gs_backoff := gs_backoff s;
     gs_awaiting_ack := gs_awaiting_ack s; gs_beating := gs_beating s; gs_dead := gs_dead s;
     gs_log := gs_log s |}.
Definition set_session (x : option Session) s : GwState W :=
  {| gs_chat := gs_chat s; gs_session := x; gs_last_seq := gs_last_seq s; gs_backoff := gs_backoff s;
     gs_awaiting_ack := gs_awaiting_ack s; gs_beating := gs_beating s; gs_dead := gs_dead s;
     gs_log := gs_log s |}.
Definition set_seq (n : Z) s : GwState W :=
  {| gs_chat := gs_chat s; gs_session := gs_session s; gs_last_seq := n; gs_backoff := gs_backoff s;
     gs_awaiting_ack := gs_awaiting_ack s; gs_beating := gs_beating s; gs_dead := gs_dead s;
     gs_log := gs_log s |}.
Definition set_backoff (b : Z) s : GwState W :=
  {| gs_chat := gs_chat s; gs_session := gs_session s; gs_last_seq := gs_last_seq s; gs_backoff := b;
     gs_awaiting_ack := gs_awaiting_ack s; gs_beating := gs_beating s; gs_dead := gs_dead s;
     gs_log := gs_log s |}.
Definition set_flags (awaiting beating dead : bool) s : GwState W :=
  {| gs_chat := gs_chat s; gs_session := gs_session s; gs_last_seq := gs_last_seq s;
     gs_backoff := gs_backoff s; gs_awaiting_ack := awaiting; gs_beating := beating; gs_dead := dead;
     gs_log := gs_log s |}.
Definition log_act (a : GwAct) s : GwState W :=
  {| gs_chat := gs_chat s; gs_session := gs_session s; gs_last_seq := gs_last_seq s;
     gs_backoff := gs_backoff s; gs_awaiting_ack := gs_awaiting_ack s; gs_beating := gs_beating s;
     gs_dead := gs_dead s; gs_log := a :: gs_log s |}.
Definition gw_modify (f : GwState W → GwState W) : ST (GwState W) unit := λ s, ((), f s).
Definition on_gw_chat {A : Type} (f : ST (ChatState W) A) : ST (GwState W) A :=
  λ s, let '(a, c) := f (gs_chat s) in (a, set_chat c s).
End Setters.

(** What handling one message reads: [gm_http] is the call that posts the reply. *)
Record GwMsgEnv := { gm_chat : ChatEnv; gm_http : Clock }.

(** What the reader's [select!] or the heartbeat's timer brings. *)
Inductive GwEvent :=
  | EvShutdown
  | EvDead
  | EvTick
  | EvText (env : GwMsgEnv) (text : str)
  | EvClose (code : option Z)
  | EvOther
  | EvEnd.

Section Worker.
Context {W : Type} `{SerdeJson, UrlParse}.
Variable debug_set : gset str → str.
Variable iter : gmap str (Tracked spec_float) → list (str * Tracked spec_float).
(** A frame on the socket, and whether it went out. *)
Variable ws_send : Value → W → bool * W.
(** The POST of a reply: address, [Authorization], body; its status, if any. *)
Variable http_post : str → str → Value → W → option Z * W.
Variable ad : DiscordGatewayAdapter W.

(** ** A message *)

Definition gw_reject (env : ChatEnv) (sub tenant : str) (e : TritonError) : ST (ChatState W) unit :=
  to_chat_world (record_rejection (gw_dispatcher ad) (ce_reject_when env) (ce_reject_now env)
                   (gw_name ad) PROTOCOL sub tenant (ce_reject_uuid env) e).

Definition post_reply (env : GwMsgEnv) (channel_id content : str) (p : Principal) (tool : str)
    (dispatch_latency_ms : Z) (w : World W) : World W :=
  let url := gw_rest_base ad ++ §"/api/v10/channels/" ++ channel_id ++ §"/messages" in
  let '(resp, o) := http_post url (§"Bot " ++ gw_bot_token ad) (json_object [(§"content", js content)])
                      (outside w) in
  let latency := (dispatch_latency_ms + elapsed_ms (gm_http env))%Z in
  record_post (gw_dispatcher ad) (c_when (gm_http env)) tool PROTOCOL p latency
    match resp with
    | Some status =>
        if (200 <=? status)%Z && (status <? 300)%Z then Ok (status, Posted, None)
        else Err (Provider (§"discord messages POST " ++ dec status), status,
                  if (500 <=? status)%Z || (status =? 429)%Z then Retry else Dropped, None)
    | None => Err (Provider §"discord messages POST transport", 0%Z, Retry, None)
    end (set_outside o w).

Definition gw_principal (env : ChatEnv) (c : SenderClaims) : Principal :=
  {| sub := sc_sub c; scopes := sc_scopes c; groups := []; tenant := sc_tenant c; raw_token := [];
     trace_id := ce_trace env; sender_ref := None; conversation_ref := None; idp := None |}.

Definition gw_answer (env : GwMsgEnv) (tool channel_id : str) (p : Principal)
    (r : result DispatchResult TritonError) (w : World W) : World W :=
  match r with
  | Err _ => w
  | Ok dispatch =>
      post_reply env channel_id (gw_reply_text (dr_result dispatch)) p tool
        (elapsed_ms (ce_post (gm_chat env))) w
  end.

Definition handle_message_create (env : GwMsgEnv) (d : Value) : ST (ChatState W) unit :=
  let ce := gm_chat env in
  let author := value_get §"author" d in
  if bool_decide ((a ← author; b ← value_get §"bot" a; as_bool b) = Some true) then ret ()
  else
    let author_id := default [] (a ← author; get_str §"id" a) in
    let content := default [] (get_str §"content" d) in
    let channel_id := default [] (get_str §"channel_id" d) in
    if is_empty author_id || is_empty content || is_empty channel_id then ret ()
    else
      taken ←ₛ on_chat_rate (try_take (ce_rate_now ce));
      match taken with
      | Err _ => gw_reject ce §"-" §"-" (RateLimited (§"discord gateway `" ++ gw_name ad ++ §"` rate limit"))
      | Ok _ =>
          match gw_sender_table ad !! author_id with
          | None => gw_reject ce §"-" §"-" (Auth (§"unknown sender " ++ author_id))
          | Some claims =>
              taken ←ₛ on_chat_tenants (tenant_try_take iter (ce_tenant_now ce) (sc_tenant claims));
              match taken with
              | Err _ =>
                  gw_reject ce (sc_sub claims) (sc_tenant claims)
                    (RateLimited (§"tenant `" ++ sc_tenant claims ++ §"` rate limit"))
              | Ok _ =>
                  let p := gw_principal ce claims in
                  let '(tool, args) := gw_route_command content (gw_inbound_tool ad) in
                  r ←ₛ on_chat_world (invoke debug_set (gw_dispatcher ad) (ce_dispatch ce) tool args p
                                        PROTOCOL);
                  to_chat_world (gw_answer env tool channel_id p r)
              end
          end
      end.

(** ** A connection *)

Definition send_frame (frame : Value) : ST (GwState W) bool :=
  λ s,
    let c := gs_chat s in
    let '(ok, o) := ws_send frame (outside (cs_world c)) in
    (ok, log_act (ActSend frame)
           (set_chat (Build_ChatState (set_outside o (cs_world c)) (cs_rate c) (cs_tenants c)) s)).

(** The heartbeat task's timer. *)
Definition heartbeat_tick : ST (GwState W) unit :=
  λ s,
    if negb (gs_beating s) then ((), s)
    else if gs_awaiting_ack s then ((), set_flags true false true s)
    else
      let '(ok, s) := send_frame (heartbeat_payload (gs_last_seq s)) (set_flags true true (gs_dead s) s) in
      ((), if ok : bool then s else set_flags true false true s).

(** [Ok rest]: a HELLO was read, [rest] follows. *)
Fixpoint read_hello (events : list GwEvent) : option (result (list GwEvent) ConnOutcome) :=
  match events with
  | [] => None
  | EvShutdown :: _ => Some (Err OShutdown)
  | EvEnd :: _ => Some (Err OReconnect)
  | EvText _ text :: rest =>
      match json_from_str text with
      | None => Some (Err OReconnect)
      | Some v =>
          if bool_decide ((o ← value_get §"op" v; as_i64 o) = Some 10%Z) then
            match (d ← value_get §"d" v; h ← value_get §"heartbeat_interval" d; as_u64 h) with
            | Some _ => Some (Ok rest)
            | None => Some (Err OReconnect)
            end
          else read_hello rest
      end
  | _ :: rest => read_hello rest
  end.

Definition ready (v : Value) : ST (GwState W) unit :=
  let d := value_get §"d" v in
  match (x ← d; get_str §"session_id" x) with
  | None => ret ()
  | Some sid =>
      let resume_url :=
        default (gw_gateway_url ad)
          (u ← (x ← d; get_str §"resume_gateway_url" x);
           if resume_url_is_trusted u (gw_gateway_url ad) then Some u else None) in
      let x := {| sess_id := sid; sess_resume_url := resume_url |} in
      gw_modify (set_session (Some x))
  end.

(** One text frame; the outcome when it ends the connection. *)
Definition handle_frame (env : GwMsgEnv) (v : Value) : ST (GwState W) (option ConnOutcome) :=
  _ ←ₛ match (s ← value_get §"s" v; as_i64 s) with
       | Some s => gw_modify (set_seq s)
       | None => ret ()
       end;
  let op := default (-1)%Z (o ← value_get §"op" v; as_i64 o) in
  if (op =? 0)%Z then
    let t := default [] (get_str §"t" v) in
    if decide (t = §"READY") then _ ←ₛ ready v; ret None
    else if decide (t = §"MESSAGE_CREATE") then
      _ ←ₛ on_gw_chat (handle_message_create env (default Value.Null (value_get §"d" v)));
      ret None
    else ret None
  else if (op =? 1)%Z then
    λ s, let '(_, s) := send_frame (heartbeat_payload (gs_last_seq s))
                          (set_flags true (gs_beating s) (gs_dead s) s) in (None, s)
  else if (op =? 11)%Z then
    λ s, (None, set_flags false (gs_beating s) (gs_dead s) s)
  else if (op =? 7)%Z then ret (Some OReconnect)
  else if (op =? 9)%Z then
    ret (Some (if bool_decide ((d ← value_get §"d" v; as_bool d) = Some true)
               then OReconnect else OReIdentify))
  else ret None.

(** The reader's loop, and the ticks between its rounds; [None]: still reading. *)
Fixpoint connection_loop (events : list GwEvent) : ST (GwState W) (option ConnOutcome) :=
  match events with
  | [] => ret None
  | EvShutdown :: _ => ret (Some OShutdown)
  | EvDead :: rest => λ s, if gs_dead s then (Some OReconnect, s) else connection_loop rest s
  | EvTick :: rest => _ ←ₛ heartbeat_tick; connection_loop rest
  | EvEnd :: _ => ret (Some OReconnect)
  | EvClose code :: _ =>
      _ ←ₛ gw_modify (log_act (ActClosed code));
      ret (Some (if is_non_resumable_close (default 0%Z code) then OReIdentify else OReconnect))
  | EvOther :: rest => connection_loop rest
  | EvText env text :: rest =>
      match json_from_str text with
      | None => connection_loop rest
      | Some v =>
          _ ←ₛ gw_modify (log_act (ActRecv v));
          r ←ₛ handle_frame env v;
          match r with Some o => ret (Some o) | None => connection_loop rest end
      end
  end.

Definition opening_frame (s : GwState W) : Value :=
  match gs_session s with
  | Some x => resume_payload (gw_bot_token ad) (sess_id x) (gs_last_seq s)
  | None => identify_payload (gw_bot_token ad)
  end.

Definition run_connection (events : list GwEvent) : ST (GwState W) (option ConnOutcome) :=
  match read_hello events with
  | None => ret None
  | Some (Err o) => ret (Some o)
  | Some (Ok rest) =>
      _ ←ₛ gw_modify (set_backoff BACKOFF_INITIAL);
      ok ←ₛ (λ s, send_frame (opening_frame s) s);
      if negb ok then ret (Some OReconnect)
      else
        _ ←ₛ gw_modify (set_flags false true false);
        o ←ₛ connection_loop rest;
        _ ←ₛ (λ s, ((), set_flags (gs_awaiting_ack s) false (gs_dead s) s));
        ret o
  end.

(** ** The worker *)

Inductive GwConnect := GwConnectShutdown | GwConnectFailed | GwConnected (events : list GwEvent).
Record GwRound := { gr_cancelled : bool; gr_connect : GwConnect; gr_sleep_cancelled : bool }.

(** [backoff_sleep] and the doubling. *)
Definition pause : ST (GwState W) unit :=
  λ s, ((), set_backoff (Z.min (gs_backoff s * 2) BACKOFF_MAX) (log_act (ActPause (gs_backoff s)) s)).

Definition connect_url (s : GwState W) : str :=
  with_query (match gs_session s with Some x => sess_resume_url x | None => gw_gateway_url ad end).

(** Whether the worker returned. *)
Fixpoint gw_run (rounds : list GwRound) : ST (GwState W) bool :=
  match rounds with
  | [] => ret false
  | r :: rounds' =>
      let again := if gr_sleep_cancelled r then _ ←ₛ pause; ret true else _ ←ₛ pause; gw_run rounds' in
      if gr_cancelled r then ret true
      else
        _ ←ₛ (λ s, ((), log_act (ActConnect (connect_url s)) s));
        match gr_connect r with
        | GwConnectShutdown => ret true
        | GwConnectFailed => again
        | GwConnected events =>
            o ←ₛ run_connection events;
            match o with
            | None => ret false
            | Some OShutdown => ret true
            | Some OReconnect => again
            | Some OReIdentify =>
                _ ←ₛ gw_modify (λ s, set_seq (-1) (set_session None s)); again
            end
        end
  end.

Definition gw_initial (c : ChatState W) : GwState W :=
  {| gs_chat := c; gs_session := None; gs_last_seq := -1; gs_backoff := BACKOFF_INITIAL;
     gs_awaiting_ack := false; gs_beating := false; gs_dead := false; gs_log := [] |}.
End Worker.

(** ** Boot *)

Section Boot.
Context {W : Type}.
Variable resolver : SecretField → result str ResolveError.
Variable decode_table : str → result SenderTable str.
Variable http_client : result unit str.

Definition gw_from_manifest (name : str) (a : Adapter) (d : Dispatcher W) (gateway_url rest_base : str)
    : result (DiscordGatewayAdapter W) BuildError :=
  if bool_decide (a_kind a ≠ AKDiscord) then Err WrongKind
  else if bool_decide (in_signature (a_inbound a) ≠ TrustedSocket) then
    Err (Unsupported (§"discord gateway (socket) adapter requires `signature: trusted_socket`; got "
                        ++ scheme_debug (in_signature (a_inbound a))))
  else
    _ ←? result_map_err BadIdentity
           (require_supported_kind §"discord_gateway" (id_kind (a_identity a)) [KSenderTable]);
    bot_token ←? credential resolver §"outbound.token" §"token" (out_credentials (a_outbound a));
    if is_empty (trim bot_token) then Err (Unsupported §"outbound.token must not be empty")
    else
      table_json ←? credential resolver §"identity.table" §"table" (id_credentials (a_identity a));
      sender_table ←? result_map_err BadIdentity (SenderTable_parse decode_table table_json);
      key ←? result_map_err (Resolve §"correlation_key") (resolver (a_correlation_key a));
      _ ←? result_map_err BadCorrelationKey (KeyRing_parse key);
      _ ←? result_map_err (λ e, Unsupported (§"gateway http client: " ++ e)) http_client;
      Ok {| gw_name := name; gw_bot_token := bot_token; gw_sender_table := sender_table;
            gw_inbound_tool := a_tool a; gw_dispatcher := d; gw_gateway_url := gateway_url;
            gw_rest_base := rest_base |}.
End Boot.

(** * What the worker does, from its log *)

Definition frame_op (v : Value) : option Z := o ← value_get §"op" v; as_i64 o.
Definition frame_seq (v : Value) : option Z := s ← value_get §"s" v; as_i64 s.

(** What ends a session for good: an invalid session that cannot be resumed, or a
    close that forbids it. *)
Definition forgets (a : GwAct) : bool :=
  match a with
  | ActRecv v =>
      bool_decide (frame_op v = Some 9%Z)
      && negb (bool_decide ((d ← value_get §"d" v; as_bool d) = Some true))
  | ActClosed code => is_non_resumable_close (default 0%Z code)
  | _ => false
  end.

(** The sequence number a log leaves: that of the last frame received with one,
    since the last session ended. *)
Fixpoint seq_of (log : list GwAct) : Z :=
  match log with
  | [] => -1
  | a :: log' =>
      if forgets a then -1
      else match a with ActRecv v => default (seq_of log') (frame_seq v) | _ => seq_of log' end
  end.

Section Facts.
Context {W : Type} `{SerdeJson, UrlParse}.
Variable debug_set : gset str → str.
Variable iter : gmap str (Tracked spec_float) → list (str * Tracked spec_float).
Variable ws_send : Value → W → bool * W.
Variable http_post : str → str → Value → W → option Z * W.
Variable ad : DiscordGatewayAdapter W.
Implicit Types (s : GwState W).

(** The session a READY frame gives; an address to resume at is taken only when
    it is trusted. *)
Definition session_given (v : Value) : option Session :=
  if bool_decide (frame_op v = Some 0%Z) && bool_decide (get_str §"t" v = Some §"READY") then
    d ← value_get §"d" v;
    sid ← get_str §"session_id" d;
    Some {| sess_id := sid;
            sess_resume_url :=
              match get_str §"resume_gateway_url" d with
              | Some u => if resume_url_is_trusted u (gw_gateway_url ad) then u else gw_gateway_url ad
              | None => gw_gateway_url ad
              end |}
  else None.

(** The session a log leaves: that of the last READY frame, unless it ended. *)
Fixpoint session_of (log : list GwAct) : option Session :=
  match log with
  | [] => None
  | a :: log' =>
      if forgets a then None
      else match a with
           | ActRecv v => match session_given v with Some x => Some x | None => session_of log' end
           | _ => session_of log'
           end
  end.

(** The configured gateway, or a Discord host. *)
Definition trusted_url (u : str) : Prop :=
  u = gw_gateway_url ad ∨ resume_url_is_trusted u (gw_gateway_url ad) = true.
Definition gw_pause_ok (b : Z) : Prop := (500 ≤ b ≤ 30000)%Z.

(** What may be done after [earlier]. *)
Definition act_ok (a : GwAct) (earlier : list GwAct) : Prop :=
  match a with
  | ActConnect u =>
      ∃ base, u = with_query base ∧ trusted_url base
        ∧ base = match session_of earlier with
                 | Some x => sess_resume_url x
                 | None => gw_gateway_url ad
                 end
  | ActSend f =>
      f = heartbeat_payload (seq_of earlier)
      ∨ (∃ u earlier', earlier = ActConnect u :: earlier')
        ∧ f = match session_of earlier with
              | Some x => resume_payload (gw_bot_token ad) (sess_id x) (seq_of earlier)
              | None => identify_payload (gw_bot_token ad)
              end
  | ActPause ms => gw_pause_ok ms
  | ActRecv _ | ActClosed _ => True
  end.
Fixpoint log_ok (log : list GwAct) : Prop :=
  match log with [] => True | a :: earlier => act_ok a earlier ∧ log_ok earlier end.

Record gw_ok s : Prop := {
  gok_log : log_ok (gs_log s);
  gok_session : gs_session s = session_of (gs_log s);
  gok_seq : gs_last_seq s = seq_of (gs_log s);
  gok_backoff : gw_pause_ok (gs_backoff s);
}.

Lemma session_given_trusted v x : session_given v = Some x → trusted_url (sess_resume_url x).
Proof using Type.
  unfold session_given, trusted_url. destruct (_ && _); [|done].
  destruct (value_get §"d" v) as [d|]; [|done]. cbn [mbind option_bind].
  destruct (get_str §"session_id" d); [|done]. cbn [mbind option_bind]. intros Hx.
  apply (inj Some) in Hx as <-. cbn [sess_resume_url].
  destruct (get_str §"resume_gateway_url" d) as [u|]; [|by left].
  destruct (resume_url_is_trusted u (gw_gateway_url ad)) eqn:E; [right; exact E|by left].
Qed.

Lemma session_trusted log x : session_of log = Some x → trusted_url (sess_resume_url x).
Proof using Type.
  induction log as [|a log IH]; [done|]. cbn [session_of]. destruct (forgets a); [done|].
  destruct a as [| |v| |]; try exact IH. destruct (session_given v) eqn:E; [|exact IH].
  intros [= <-]. by eapply session_given_trusted.
Qed.

Definition keeps {A} (m : ST (GwState W) A) : Prop := ∀ s, gw_ok s → gw_ok (m s).2.

(** A connection that ends for good leaves the session to be dropped by the
    worker. *)
Definition settle (o : option ConnOutcome) s : GwState W :=
  match o with Some OReIdentify => set_seq (-1) (set_session None s) | _ => s end.
Definition settled (m : ST (GwState W) (option ConnOutcome)) : Prop :=
  ∀ s, gw_ok s → gw_ok (settle (m s).1 (m s).2).

Lemma keeps_ret {A} (a : A) : keeps (ret a).
Proof using Type. by intros s. Qed.
Lemma keeps_bind {A B} (m : ST (GwState W) A) (k : A → ST (GwState W) B) :
  keeps m → (∀ a, keeps (k a)) → keeps (bind m k).
Proof using Type. intros Hm Hk s Hs. rewrite bind_snd. apply Hk, Hm, Hs. Qed.
Lemma keeps_chat {A} (m : ST (ChatState W) A) : keeps (on_gw_chat m).
Proof using Type. intros s [? ? ? ?]. unfold on_gw_chat. destruct (m (gs_chat s)). by split. Qed.
Lemma flags_ok a b d s : gw_ok s → gw_ok (set_flags a b d s).
Proof using Type. intros [? ? ? ?]. by split. Qed.
Lemma settle_flags o a b d s : gw_ok (settle o s) → gw_ok (settle o (set_flags a b d s)).
Proof using Type. destruct o as [[]|]; cbn [settle]; intros [? ? ? ?]; by split. Qed.

Lemma settled_ret o : o ≠ Some OReIdentify → settled (ret o).
Proof using Type. intros Ho s Hs. by destruct o as [[]|]. Qed.
Lemma settled_bind {A} (m : ST (GwState W) A) k :
  keeps m → (∀ a, settled (k a)) → settled (bind m k).
Proof using Type.
  intros Hm Hk s Hs. specialize (Hm s Hs). unfold bind. destruct (m s) as [a s']. by apply Hk.
Qed.

Lemma send_frame_ok f s :
  gw_ok s → act_ok (ActSend f) (gs_log s) → gw_ok (send_frame ws_send f s).2.
Proof using Type.
  intros [? ? ? ?] Ha. unfold send_frame. destruct (ws_send _ _). by split.
Qed.
Lemma heartbeat_ok s : gw_ok s → gw_ok (send_frame ws_send (heartbeat_payload (gs_last_seq s)) s).2.
Proof using Type. intros Hs. apply send_frame_ok; [done|]. left. by rewrite (gok_seq s Hs). Qed.

Lemma keeps_tick : keeps (heartbeat_tick ws_send).
Proof using Type.
  intros s Hs. unfold heartbeat_tick. destruct (gs_beating s); [|done]. cbn [negb].
  destruct (gs_awaiting_ack s); [by apply flags_ok|].
  pose proof (heartbeat_ok _ (flags_ok true true (gs_dead s) _ Hs)) as Hb. cbn [gs_last_seq set_flags] in Hb.
  destruct (send_frame _ _ _) as [[] s']; [done|by apply flags_ok].
Qed.

(** ** Frames *)

Lemma op_cases v : default (-1)%Z (frame_op v) = 0%Z → frame_op v = Some 0%Z.
Proof using Type. by destruct (frame_op v); cbn; [intros ->|]. Qed.

(** The session of a READY frame is stored. *)
Lemma ready_given v s :
  frame_op v = Some 0%Z → get_str §"t" v = Some §"READY" →
  (ready ad v s).2 = match session_given v with Some x => set_session (Some x) s | None => s end.
Proof using Type.
  intros Ho Ht. unfold ready, session_given. rewrite Ho, Ht. cbn [andb bool_decide].
  rewrite !bool_decide_eq_true_2 by done. cbn [andb].
  destruct (value_get §"d" v) as [d|]; [|done]. cbn [mbind option_bind].
  destruct (get_str §"session_id" d) as [sid|]; [|done]. cbn [mbind option_bind gw_modify snd].
  destruct (get_str §"resume_gateway_url" d) as [u|]; [|done]. cbn [mbind option_bind].
  by destruct (resume_url_is_trusted u _).
Qed.

(** A frame other than the end of a session, once its number is stored. *)
Lemma recv_ok v s s' :
  gw_ok s → forgets (ActRecv v) = false →
  gs_log s' = ActRecv v :: gs_log s → gs_last_seq s' = default (gs_last_seq s) (frame_seq v) →
  gs_session s' = match session_given v with Some x => Some x | None => gs_session s end →
  gs_backoff s' = gs_backoff s → gw_ok s'.
Proof using Type.
  intros [Hl Hx Hq Hb] Hf El Eq Ex Eb. split; [by rewrite El| | |by rewrite Eb].
  - rewrite El, Ex. cbn [session_of]. by rewrite Hf, Hx.
  - rewrite El, Eq. cbn [seq_of]. by rewrite Hf, Hq.
Qed.

(** Where the number is stored. *)
Definition numbered (v : Value) s : GwState W :=
  let s := log_act (ActRecv v) s in match frame_seq v with Some n => set_seq n s | None => s end.

Lemma numbered_ok v s :
  gw_ok s → forgets (ActRecv v) = false → session_given v = None → gw_ok (numbered v s).
Proof using Type.
  intros Hs Hf Hg. apply (recv_ok v s); try done; unfold numbered; destruct (frame_seq v); try done; by rewrite Hg.
Qed.

Lemma settled_frame env v s :
  gw_ok s →
  let x := handle_frame debug_set iter ws_send http_post ad env v (log_act (ActRecv v) s) in
  gw_ok (settle x.1 x.2).
Proof using Type.
  intros Hs. cbv zeta. unfold handle_frame.
  assert (∀ k : () → ST (GwState W) (option ConnOutcome),
    bind match s0 ← value_get §"s" v; as_i64 s0 with
         | Some n => gw_modify (set_seq n) | None => ret () end k (log_act (ActRecv v) s)
    = k () (numbered v s)) as Hb.
  { intros k. unfold bind, numbered, frame_seq. by destruct (s0 ← _; _). }
  rewrite !Hb. clear Hb.
  cbv zeta. fold (frame_op v). set (op := default (-1)%Z (frame_op v)).
  assert (∀ z, z ≠ 9%Z → op = z → forgets (ActRecv v) = false) as Hforget.
  { intros z Hz Ho. subst op. unfold forgets. destruct (frame_op v) as [o|]; [|done]. cbn in Ho.
    rewrite bool_decide_eq_false_2; [done|]. intros [= ->]. done. }
  assert (∀ z, z ≠ 0%Z → op = z → session_given v = None) as Hgiven.
  { intros z Hz Ho. subst op. unfold session_given. destruct (frame_op v) as [o|]; [|done]. cbn in Ho.
    rewrite bool_decide_eq_false_2; [done|]. intros [= ->]. done. }
  destruct (op =? 0)%Z eqn:E0; [apply Z.eqb_eq in E0|apply Z.eqb_neq in E0].
  { pose proof (op_cases v E0) as Ho.
    assert (forgets (ActRecv v) = false) as Hf by by apply (Hforget 0%Z).
    destruct (decide _) as [Et|Et].
    - assert (get_str §"t" v = Some §"READY") as Ht.
      { by destruct (get_str §"t" v) as [t|]; cbn [from_option id] in Et; [rewrite Et|]. }
      unfold bind. pose proof (ready_given v (numbered v s) Ho Ht) as Hr.
      destruct (ready ad v (numbered v s)) as [[] s']. cbn [snd fst ret settle] in *. subst s'.
      apply (recv_ok v s); try done; unfold numbered; destruct (session_given v), (frame_seq v); done.
    - assert (session_given v = None) as Hg.
      { unfold session_given. destruct (get_str §"t" v) as [t|]; cbn [from_option id] in Et;
          [|by rewrite andb_false_r].
        rewrite (bool_decide_eq_false_2 (Some t = _)) by congruence. by rewrite andb_false_r. }
      pose proof (numbered_ok v s Hs Hf Hg) as Hn.
      destruct (decide _); [|done]. unfold bind.
      pose proof (keeps_chat (handle_message_create debug_set iter http_post ad env
        (default Value.Null (value_get §"d" v))) _ Hn) as Hc.
      by destruct (on_gw_chat _ _). }
  pose proof (Hgiven op E0 eq_refl) as Hg.
  destruct (op =? 1)%Z eqn:E1; [apply Z.eqb_eq in E1|].
  { pose proof (numbered_ok v s Hs (Hforget 1%Z ltac:(done) E1) Hg) as Hn.
    pose proof (heartbeat_ok _ (flags_ok true (gs_beating (numbered v s)) (gs_dead (numbered v s)) _ Hn)) as Hb.
    cbn [gs_last_seq set_flags] in Hb. by destruct (send_frame _ _ _). }
  destruct (op =? 11)%Z eqn:E11; [apply Z.eqb_eq in E11|].
  { apply flags_ok, numbered_ok; [done|by apply (Hforget 11%Z)|done]. }
  destruct (op =? 7)%Z eqn:E7; [apply Z.eqb_eq in E7|].
  { apply numbered_ok; [done|by apply (Hforget 7%Z)|done]. }
  destruct (op =? 9)%Z eqn:E9; [apply Z.eqb_eq in E9|apply Z.eqb_neq in E9].
  - assert (frame_op v = Some 9%Z) as Ho by (subst op; destruct (frame_op v); cbn in E9; congruence).
    destruct (bool_decide ((d ← value_get §"d" v; as_bool d) = Some true)) eqn:Er; cbn [ret fst snd settle].
    + apply numbered_ok; [done| |done]. unfold forgets. rewrite Er. apply andb_false_r.
    + assert (forgets (ActRecv v) = true) as Hf.
      { unfold forgets. by rewrite Er, bool_decide_eq_true_2. }
      destruct Hs as [Hl Hx Hq Hb]. unfold numbered.
      split; destruct (frame_seq v); try done;
        cbn [gs_session gs_last_seq gs_log set_seq set_session log_act session_of seq_of]; by rewrite Hf.
  - by apply numbered_ok, Hg; [|apply (Hforget op)].
Qed.

Lemma settled_close code s :
  gw_ok s →
  gw_ok (settle (Some (if is_non_resumable_close (default 0%Z code) then OReIdentify else OReconnect))
           (log_act (ActClosed code) s)).
Proof using Type.
  intros [Hl Hx Hq Hb].
  destruct (is_non_resumable_close (default 0%Z code)) eqn:E; cbn [settle]; split; try done;
    cbn [gs_session gs_last_seq gs_log set_seq set_session log_act session_of seq_of forgets]; by rewrite E.
Qed.

Lemma settled_loop events : settled (connection_loop debug_set iter ws_send http_post ad events).
Proof using Type.
  induction events as [|e events IH]; cbn [connection_loop]; [by apply settled_ret|].
  destruct e as [| | |env text|code| |]; try (by apply settled_ret); try exact IH.
  - intros s Hs. destruct (gs_dead s); [done|by apply IH].
  - apply settled_bind; [apply keeps_tick|intros _; exact IH].
  - destruct (json_from_str text) as [v|]; [|exact IH]. intros s Hs. unfold bind, gw_modify.
    pose proof (settled_frame env v s Hs) as Hf. cbv zeta in Hf.
    destruct (handle_frame _ _ _ _ _ _ _ _) as [[o|] s']; [exact Hf|]. by apply IH.
  - intros s Hs. by apply settled_close.
Qed.

Lemma settled_connection events s u earlier :
  gw_ok s → gs_log s = ActConnect u :: earlier →
  let x := run_connection debug_set iter ws_send http_post ad events s in gw_ok (settle x.1 x.2).
Proof using Type.
  intros Hs El. cbv zeta. unfold run_connection.
  destruct (read_hello events) as [[rest|o]|] eqn:Eh; [|apply settled_ret; [|done]|by apply settled_ret].
  2: { revert Eh. clear. induction events as [|e events IH]; [done|]. cbn [read_hello].
       destruct e; try done; try (by intros [= <-]). destruct (json_from_str text); [|by intros [= <-]].
       destruct (bool_decide _); [|done]. destruct (d ← _; _); [done|by intros [= <-]]. }
  unfold bind, gw_modify. set (s1 := set_backoff BACKOFF_INITIAL s).
  assert (gw_ok s1) as Hs1 by (destruct Hs; by split).
  assert (gw_ok (send_frame ws_send (opening_frame ad s1) s1).2) as Hs2.
  { apply send_frame_ok; [done|]. right. split; [by exists u, earlier|].
    unfold opening_frame. by rewrite (gok_session s1 Hs1), (gok_seq s1 Hs1). }
  destruct (send_frame _ _ s1) as [ok s2]. cbn [snd] in Hs2.
  destruct ok; [|done]. cbn [negb].
  pose proof (settled_loop rest _ (flags_ok false true false _ Hs2)) as Hl.
  destruct (connection_loop _ _ _ _ _ rest _) as [o s3]. cbn [fst snd ret] in *. by apply settle_flags.
Qed.

(** ** The worker *)

Lemma keeps_pause : keeps pause.
Proof using Type.
  intros s [Hl Hx Hq Hb]. split; cbn; try done.
  unfold gw_pause_ok, BACKOFF_MAX in *. lia.
Qed.

Lemma connect_ok s : gw_ok s → gw_ok (log_act (ActConnect (connect_url ad s)) s).
Proof using Type.
  intros [Hl Hx Hq Hb]. split; cbn; try done. split; [|done].
  unfold connect_url. rewrite Hx. eexists. split; [reflexivity|]. split; [|done].
  destruct (session_of (gs_log s)) as [x|] eqn:Ex; [by eapply session_trusted|by left].
Qed.

Lemma keeps_run rounds : keeps (gw_run debug_set iter ws_send http_post ad rounds).
Proof using Type.
  induction rounds as [|r rounds IH]; cbn [gw_run]; [apply keeps_ret|].
  set (again := if gr_sleep_cancelled r then _ else _).
  assert (keeps again) as Ha.
  { unfold again. destruct (gr_sleep_cancelled r); apply keeps_bind; try apply keeps_pause; intros _;
      [apply keeps_ret|exact IH]. }
  clearbody again. destruct (gr_cancelled r); [apply keeps_ret|].
  intros s Hs. rewrite bind_snd. cbn [fst snd]. pose proof (connect_ok s Hs) as Hc.
  destruct (gr_connect r) as [| |events]; [done|by apply Ha|]. rewrite bind_snd.
  pose proof (settled_connection events _ _ (gs_log s) Hc eq_refl) as Hr. cbv zeta in Hr.
  destruct (run_connection _ _ _ _ _ _ _) as [[[]|] s1]; cbn [fst snd settle ret] in *; try done.
  - by apply Ha.
  - rewrite bind_snd. by apply Ha.
Qed.

(** C31: the bot token goes only where it may, and a session is resumed where it
    stopped.  Whatever frames, losses and timer ticks a worker meets, every
    address it connects to is the configured gateway or, to resume, the address
    the last READY frame gave, which is on a Discord host or on the gateway's
    own; every frame it sends is a heartbeat with the number of the last frame
    read on its connections that had one, or the first frame of a connection:
    the resumption of the session of the last READY frame, with its id and that
    number, and an identification only when there is none, before the first or
    since an invalid session or a close that forbids to resume; and every pause
    is between half a second and thirty seconds. *)
Theorem gateway_log_ok rounds (c : ChatState W) later a earlier :
  gs_log (gw_run debug_set iter ws_send http_post ad rounds (gw_initial c)).2 = later ++ a :: earlier →
  act_ok a earlier.
Proof using Type.
  assert (gw_ok (gw_initial c)) as Hi.
  { by split. }
  pose proof (gok_log _ (keeps_run rounds _ Hi)) as Hl. intros E. rewrite E in Hl. clear E.
  induction later as [|b later IH]; [by destruct Hl|]. apply IH. by destruct Hl.
Qed.

(** A heartbeat that is due while the last one is not acknowledged gives the
    connection up, whatever follows it is no longer answered by the timer. *)
Lemma zombie_reconnects events s :
  gs_beating s = true → gs_awaiting_ack s = true →
  (connection_loop debug_set iter ws_send http_post ad (EvTick :: EvDead :: events) s).1
  = Some OReconnect.
Proof using Type.
  intros Hb Ha. cbn [connection_loop]. rewrite bind_snd. unfold heartbeat_tick. rewrite Hb, Ha. done.
Qed.

(** ** A message *)

Definition gw_line (tl : str) (p : Principal) (l : AuditRecord) : Prop :=
  phase l = Post ∧ AuditLog.protocol l = PROTOCOL ∧ tool l = tl ∧ subject l = sub p
  ∧ au_tenant l = tenant p ∧ au_trace_id l = trace_id p.

(** Turned away or served: nothing is sent for an author the table does not
    list, and a reply is posted once, to the message's channel, with its line. *)
Inductive gw_fate (env : GwMsgEnv) (d : Value) (c c' : ChatState W) : Prop :=
  | GwQuiet : outside (cs_world c') = outside (cs_world c) → gw_fate env d c c'
  | GwServed a author text channel claims tl args r w :
      value_get §"author" d = Some a → get_str §"id" a = Some author →
      get_str §"content" d = Some text → get_str §"channel_id" d = Some channel →
      gw_sender_table ad !! author = Some claims →
      (tl, args) = gw_route_command text (gw_inbound_tool ad) →
      invoke debug_set (gw_dispatcher ad) (ce_dispatch (gm_chat env)) tl args
        (gw_principal (gm_chat env) claims) PROTOCOL (cs_world c) = (r, w) →
      match r with
      | Err _ => cs_world c' = w
      | Ok dispatch =>
          ∃ st l, http_post (gw_rest_base ad ++ §"/api/v10/channels/" ++ channel ++ §"/messages")
                    (§"Bot " ++ gw_bot_token ad)
                    (json_object [(§"content", js (gw_reply_text (dr_result dispatch)))]) (outside w)
                  = (st, outside (cs_world c'))
            ∧ sinks (cs_world c') = emit l (sinks w)
            ∧ gw_line tl (gw_principal (gm_chat env) claims) l
      end → gw_fate env d c c'.

Lemma gw_reject_quiet env ce d sb tn e c c1 :
  cs_world c1 = cs_world c → gw_fate env d c (gw_reject ad ce sb tn e c1).2.
Proof using Type.
  intros Hc. apply GwQuiet. unfold gw_reject, to_chat_world, on_chat_world. cbn [snd cs_world].
  rewrite Hc. unfold record_rejection. by repeat case_match.
Qed.

Lemma gw_message_fate env d c :
  gw_fate env d c (handle_message_create debug_set iter http_post ad env d c).2.
Proof using Type.
  unfold handle_message_create. cbv zeta. destruct (bool_decide _); [by apply GwQuiet|].
  destruct (value_get §"author" d) as [a|] eqn:Ea; [|by apply GwQuiet]. cbn [mbind option_bind].
  destruct (get_str §"id" a) as [author|] eqn:Ei; [|by apply GwQuiet].
  destruct (get_str §"content" d) as [text|] eqn:Et; [|rewrite orb_true_r; by apply GwQuiet].
  destruct (get_str §"channel_id" d) as [channel|] eqn:Ec; [|rewrite orb_true_r; by apply GwQuiet].
  cbn [from_option id]. destruct (_ || is_empty channel); [by apply GwQuiet|].
  rewrite bind_snd. unfold on_chat_rate at 1 2. destruct (try_take _ (cs_rate c)) as [[[]|wait] b];
    cbn [fst snd]; [|by apply gw_reject_quiet].
  destruct (gw_sender_table ad !! author) as [claims|] eqn:El; [|by apply gw_reject_quiet].
  rewrite bind_snd. unfold on_chat_tenants at 1 2. cbn [cs_tenants cs_world cs_rate].
  destruct (tenant_try_take _ _ _ _) as [[[]|wait] b']; cbn [fst snd]; [|by apply gw_reject_quiet].
  destruct (gw_route_command text (gw_inbound_tool ad)) as [tl args] eqn:Er.
  rewrite bind_snd. unfold on_chat_world at 1 2. cbn [cs_world].
  destruct (invoke _ _ _ _ _ _ _ _) as [r w] eqn:Ev. cbn [fst snd].
  eapply (GwServed _ _ _ _ a author text channel claims tl args r w); try done.
  unfold to_chat_world, on_chat_world. cbn [cs_world snd]. unfold gw_answer.
  destruct r as [dispatch|]; [|done]. unfold post_reply.
  destruct (http_post _ _ _ _) as [st o] eqn:Ew. exists st.
  destruct st as [st|]; [destruct (_ && _)|]; eexists; (split; [done|]); (split; [reflexivity|]);
    repeat split.
Qed.
End Facts.

(** ** Instances *)

#[local] Existing Instance sample_json.

(** Nothing parses as an address. *)
#[local] Instance gw_urls : UrlParse := {| url_parse _ := None |}.
Definition gw_demo_adapter : DiscordGatewayAdapter nat :=
  {| gw_name := §"gw"; gw_bot_token := §"t"; gw_sender_table := ChatIdentity.demo_table;
     gw_inbound_tool := §"echo"; gw_dispatcher := demo_dispatcher None unenforced;
     gw_gateway_url := §"wss://g"; gw_rest_base := §"https://r" |}.
Definition gw_demo_chat : ChatState nat :=
  {| cs_world := World_new unenforced 0; cs_rate := TokenBucket_new 10 10 0;
     cs_tenants := PerTenantBuckets_new 10 10 |}.
(** HELLO, READY, and an event with a number. *)
Definition gw_demo_hello : Value :=
  json_object [(§"op", num 10); (§"d", json_object [(§"heartbeat_interval", num 45000)])].
Definition gw_demo_ready : Value :=
  json_object [(§"op", num 0); (§"s", num 1); (§"t", js §"READY");
               (§"d", json_object [(§"session_id", js §"S")])].
Definition gw_demo_event : Value :=
  json_object [(§"op", num 0); (§"s", num 7); (§"t", js §"TYPING_START"); (§"d", Value.Null)].
#[local] Instance gw_demo_json : SerdeJson :=
  {| json_to_string _ := §"?";
     json_from_str s := if decide (s = §"hello") then Some gw_demo_hello
                        else if decide (s = §"ready") then Some gw_demo_ready
                        else if decide (s = §"event") then Some gw_demo_event else None |}.
Definition gw_demo_chat_env : ChatEnv :=
  {| ce_rate_now := 0; ce_tenant_now := {| at_entry := 0; at_scan _ := 0%Z; at_create := 0; at_take := 0 |};
     ce_reject_when := §"now"; ce_reject_now := 0; ce_reject_uuid := §"u"; ce_trace := §"t";
     ce_dispatch := Dispatcher.tick; ce_post := Dispatcher.tick |}.
Definition gw_demo_text : str → GwEvent := EvText {| gm_chat := gw_demo_chat_env; gm_http := Dispatcher.tick |}.
Definition gw_demo_round (events : list GwEvent) : GwRound :=
  {| gr_cancelled := false; gr_connect := GwConnected events; gr_sleep_cancelled := false |}.
(** A connection that is lost after an event, one that resumes and is closed for
    good after a heartbeat, and one that identifies again. *)
Definition gw_demo_rounds : list GwRound :=
  [gw_demo_round [gw_demo_text §"hello"; gw_demo_text §"ready"; gw_demo_text §"event"; EvEnd];
   gw_demo_round [gw_demo_text §"hello"; EvTick; EvClose (Some 4004%Z)];
   gw_demo_round [gw_demo_text §"hello"]].
Definition gw_demo_log : list GwAct := Eval vm_compute in
  gs_log (gw_run no_debug map_to_list (λ _ n, (true, S n)) (λ _ _ _ n, (None, n)) gw_demo_adapter
            gw_demo_rounds (gw_initial gw_demo_chat)).2.

Example gw_demo_frames :
  omap (λ a, match a with ActSend f => Some f | _ => None end) gw_demo_log
  = [identify_payload §"t"; heartbeat_payload 7; resume_payload §"t" §"S" 7; identify_payload §"t"].
Proof. vm_compute. reflexivity. Qed.

(** The resumption, after what came before it. *)
Lemma gateway_log_ok_witness :
  ∃ later earlier,
    gw_demo_log = later ++ ActSend (resume_payload §"t" §"S" 7) :: earlier
    ∧ act_ok gw_demo_adapter (ActSend (resume_payload §"t" §"S" 7)) earlier
    ∧ seq_of earlier = 7%Z ∧ session_of gw_demo_adapter earlier
        = Some {| sess_id := §"S"; sess_resume_url := §"wss://g" |}.
Proof.
  exists (take 5 gw_demo_log), (drop 6 gw_demo_log). split; [vm_compute; reflexivity|]. split.
  - apply (gateway_log_ok no_debug map_to_list (λ _ n, (true, S n)) (λ _ _ _ n, (None, n)) gw_demo_adapter
      gw_demo_rounds gw_demo_chat (take 5 gw_demo_log)).
    vm_compute. reflexivity.
  - split; vm_compute; reflexivity.
Defined.
