(* ===== verification/Signal.v ===== *)
(** * Signal: the signald adapter (crates/triton-chat-signal)

    [surface_mapper.rs]: plain text within a cap.  [signald_client.rs]: the
    connection task with its writer slot and the bounded channel to the adapter.
    [lib.rs]: subscription, messages, replies, boot.  The two tasks are a step
    relation over what they share, with a step between any two awaits that the
    other task can tell apart; the socket is part of the world outside. *)

From Stdlib Require Import SpecFloat.
From S2P Require Import Prelude Json Errors Principal RateLimit Context AuditLog Dispatcher.
From S2P Require Import Correlation A2ui A2uiText ChatIdentity Manifest Chat.
From S2P Require Import TelegramMapper DiscordMapper Surface.

Definition PROTOCOL : str := §"messenger:signal".

(** ** The mapper *)

Definition SIGNAL_SURFACE : SurfaceProfile :=
  {| sp_channel := §"signal"; sp_markdown := Markdown.None; sp_tables := Tables.Text;
     sp_buttons := false; sp_max_buttons := None; sp_charts := Charts.None; sp_images := false;
     sp_max_text_bytes := Some 2000; sp_streaming := false; sp_subject_line := false;
     sp_guidance := §"Signal: plain unformatted text only. No markdown, tables, buttons or charts; keep it short." |}.
Definition SIGNAL_TEXT_MAX_BYTES : nat := default 0 (text_cap SIGNAL_SURFACE).
Definition SIGNAL_SENTINEL : str :=
  nl ++ nl ++ §"[truncated — content exceeded Signal's 2000-byte cap]".

Record SignalMessage := {
  sm_text : str;
  sm_deferred_buttons : nat;
  sm_deferred_selections : nat;
  sm_deferred_forms : nat;
  sm_deferred_dashboards : nat;
  sm_truncated : bool;
}.

(** The loop's variables: the chunks and the four counters. *)
Record SignalCollected := { sc_chunks : list str; sc_deferred : nat * nat * nat * nat }.

Definition push_chunk (chunk : str) (a : SignalCollected) : SignalCollected :=
  {| sc_chunks := sc_chunks a ++ [chunk]; sc_deferred := sc_deferred a |}.
Definition defer (b s f d : nat) (a : SignalCollected) : SignalCollected :=
  let '(b0, s0, f0, d0) := sc_deferred a in
  {| sc_chunks := sc_chunks a; sc_deferred := (b0 + b, s0 + s, f0 + f, d0 + d) |}.

(** Whole chunks while they fit, or the first one cut between characters. *)
Definition cut_chunks (budget : nat) (chunks : list str) : str :=
  match accepted_prefix budget 0 true chunks with
  | [] =>
      match chunks with
      | raw :: _ => take (floor_char_boundary raw (Nat.min budget (length raw))) raw
      | [] => []
      end
  | accepted => join (nl ++ nl) accepted
  end.

Section Render.
Context `{UrlParse} (cell : HttpHosts).

Definition signal_component (a : SignalCollected) (c : Component) : SignalCollected :=
  if is_conversation c then
    match degrade cell c with Some t => push_chunk t a | None => a end
  else
    match c with
    | Component.Text value _ => push_chunk value a
    | Component.Report _ _ _ _ _ => a
    | Component.Sources items =>
        if is_empty items then a else push_chunk (§"Sources: " ++ join §" · " (s_label <$> items)) a
    | Component.Narration text => push_chunk (§"_" ++ text ++ §"_") a
    | Component.Diff lines => push_chunk (diff_to_text lines) a
    | Component.Button _ _ _ _ _ _ => defer 1 0 0 0 a
    | Component.Selection _ _ _ _ _ _ => defer 0 1 0 0 a
    | Component.Form _ _ _ _ _ _ => defer 0 0 1 0 a
    | Component.Dashboard _ _ => defer 0 0 0 1 a
    | _ => a
    end.

Definition signal_render (s : Surface) : result SignalMessage RenderError :=
  let a := fold_left signal_component (components s) {| sc_chunks := []; sc_deferred := (0, 0, 0, 0) |} in
  let '(b, sl, f, d) := sc_deferred a in
  let message text truncated :=
    {| sm_text := text; sm_deferred_buttons := b; sm_deferred_selections := sl; sm_deferred_forms := f;
       sm_deferred_dashboards := d; sm_truncated := truncated |} in
  if is_empty (sc_chunks a) then Err EmptyAfterRender
  else
    let joined := join (nl ++ nl) (sc_chunks a) in
    if (length joined <=? SIGNAL_TEXT_MAX_BYTES)%nat then Ok (message joined false)
    else Ok (message (cut_chunks (SIGNAL_TEXT_MAX_BYTES - length SIGNAL_SENTINEL) (sc_chunks a)
                        ++ SIGNAL_SENTINEL) true).

Context `{SerdeA2ui}.

Definition signal_try_render (res : Value) : option (result SignalMessage RenderError) :=
  match extract_surface cell res with Ok s => Some (signal_render s) | Err _ => None end.
End Render.

Definition build_send_body (bot_account recipient_uuid : str) (recipient_number : option str)
    (msg : SignalMessage) : Value :=
  json_object
    [(§"type", js §"send"); (§"username", js bot_account);
     (§"recipientAddress",
      json_object ((§"uuid", js recipient_uuid)
                     :: match recipient_number with Some n => [(§"number", js n)] | None => [] end));
     (§"messageBody", js (sm_text msg))].

(** ** The client *)

Definition BACKOFF_INITIAL : Z := 500.
Definition BACKOFF_MAX : Z := 30000.
(** The capacity of the channel between the tasks. *)
Definition EVENTS_CAPACITY : nat := 256.

Module SignaldAddr.
Inductive t := Tcp (addr : str) | Unix (path : str).
End SignaldAddr.

Definition SignaldAddr_parse (s : str) : result SignaldAddr.t str :=
  match strip_prefix §"tcp://" s with
  | Some rest =>
      if is_empty rest then Err §"tcp:// requires host:port" else Ok (SignaldAddr.Tcp rest)
  | None =>
      match strip_prefix §"unix://" s with
      | Some rest =>
          if is_empty rest then Err §"unix:// requires a path" else Ok (SignaldAddr.Unix rest)
      | None => Err (§"signald addr must start with `tcp://` or `unix://`: " ++ s)
      end
  end.

Inductive SendError :=
  | Disconnected
  | Io (e : str)
  | Timeout
  | Encode (e : str).
Definition send_error_str (e : SendError) : str :=
  match e with
  | Disconnected => §"signald: not connected (reconnect in progress)"
  | Io e => §"signald: write failed: " ++ e
  | Timeout => §"signald: write timed out"
  | Encode e => §"signald: serialise body: " ++ e
  end.

Inductive SignaldEvent := Line (v : Value) | Connected.

(** What a write on the socket comes to within [WRITE_TIMEOUT]. *)
Inductive WriteResult := Written | WriteFailed (e : str) | WriteTimedOut.

(** What the tasks share: the limiters and the dispatcher's world, and whether
    the writer slot holds a writer. *)
Record SignalIO (W : Type) := { si_chat : ChatState W; si_writer : bool }.
Arguments si_chat {W} _.
Arguments si_writer {W} _.
Arguments Build_SignalIO {W} _ _.

Definition on_si_chat {W A : Type} (f : ST (ChatState W) A) : ST (SignalIO W) A :=
  λ s, let '(a, c) := f (si_chat s) in (a, Build_SignalIO c (si_writer s)).

Record SignalAdapter (W : Type) := {
  sg_name : str;
  sg_signald_addr : SignaldAddr.t;
  sg_account : str;
  sg_sender_table : SenderTable;
  sg_inbound_tool : str;
  sg_dispatcher : Dispatcher W;
}.
Arguments sg_name {W} _.
Arguments sg_signald_addr {W} _.
Arguments sg_account {W} _.
Arguments sg_sender_table {W} _.
Arguments sg_inbound_tool {W} _.
Arguments sg_dispatcher {W} _.

Definition signal_route_command (text default_tool : str) : str * Value :=
  let fallback := (default_tool, json_object [(§"message", js text)]) in
  match strip_prefix §"/" text with
  | None => fallback
  | Some rest =>
      let '(tool, subject) := default (rest, []) (split_once " " rest) in
      if decide (tool = §"narrate") then (§"narrate", json_object [(§"subject", js subject)])
      else if decide (tool = §"echo") then (§"echo", json_object [(§"message", js subject)])
      else fallback
  end.

Section Adapter.
Context {W : Type} `{SerdeJson, UrlParse, SerdeA2ui}.
Variable cell : HttpHosts.
Variable debug_set : gset str → str.
Variable iter : gmap str (Tracked spec_float) → list (str * Tracked spec_float).
Variable two_decimals : RetryAfter spec_float → str.
(** [write_all] on the socket. *)
Variable write : str → W → WriteResult * W.
Variable ad : SignalAdapter W.

(** [Sender::send]: a writer that timed out is dropped. *)
Definition send (body : Value) : ST (SignalIO W) (result unit SendError) :=
  λ s,
    let c := si_chat s in
    if negb (si_writer s) then (Err Disconnected, s)
    else
      let '(r, o) := write (json_to_string body ++ nl) (outside (cs_world c)) in
      let c := Build_ChatState (set_outside o (cs_world c)) (cs_rate c) (cs_tenants c) in
      match r with
      | Written => (Ok (), Build_SignalIO c true)
      | WriteFailed e => (Err (Io e), Build_SignalIO c true)
      | WriteTimedOut => (Err Timeout, Build_SignalIO c false)
      end.

Definition signal_reject (env : ChatEnv) (sub tenant : str) (e : TritonError) : ST (SignalIO W) unit :=
  on_si_chat (to_chat_world (record_rejection (sg_dispatcher ad) (ce_reject_when env) (ce_reject_now env)
                               (sg_name ad) PROTOCOL sub tenant (ce_reject_uuid env) e)).

Definition signal_post (env : ChatEnv) (tool_name : str) (p : Principal) (latency : Z)
    (outcome : result (Z * PostOutcome * option str) (TritonError * Z * PostOutcome * option str))
    : ST (SignalIO W) unit :=
  on_si_chat (to_chat_world (record_post (sg_dispatcher ad) (c_when (ce_post env)) tool_name PROTOCOL p
                               latency outcome)).

Definition send_error_outcome (e : SendError) : PostOutcome :=
  match e with Disconnected | Io _ | Timeout => Retry | Encode _ => Dropped end.

Definition post_back (env : ChatEnv) (p : Principal) (tool_name recipient_uuid : str)
    (recipient_number : option str) (msg : SignalMessage) : ST (SignalIO W) unit :=
  outcome ←ₛ send (build_send_body (sg_account ad) recipient_uuid recipient_number msg);
  signal_post env tool_name p (elapsed_ms (ce_post env))
    match outcome with
    | Ok _ => Ok (200%Z, Posted, None)
    | Err e => Err (Provider (§"signal courier: " ++ send_error_str e), 0%Z, send_error_outcome e, None)
    end.

Definition plain_signal (text : str) : SignalMessage :=
  {| sm_text := text; sm_deferred_buttons := 0; sm_deferred_selections := 0; sm_deferred_forms := 0;
     sm_deferred_dashboards := 0; sm_truncated := false |}.

Definition signal_render_result (res : Value) : result SignalMessage RenderError :=
  match signal_try_render cell res with
  | Some r => r
  | None =>
      let text := bare_text res in
      if is_empty text then Err EmptyAfterRender else Ok (plain_signal text)
  end.

Definition signal_principal (env : ChatEnv) (c : SenderClaims) : Principal :=
  {| sub := sc_sub c; scopes := sc_scopes c; groups := []; tenant := sc_tenant c; raw_token := [];
     trace_id := ce_trace env; sender_ref := None; conversation_ref := None; idp := None |}.

(** What [handle_event] goes on to post back. *)
Record SignalReply := {
  sj_env : ChatEnv;
  sj_principal : Principal;
  sj_tool : str;
  sj_uuid : str;
  sj_number : option str;
  sj_msg : SignalMessage;
}.

Definition signal_answer (env : ChatEnv) (tool_name uuid : str) (number : option str) (p : Principal)
    (r : result DispatchResult TritonError) : ST (SignalIO W) (option SignalReply) :=
  match r with
  | Err _ => ret None
  | Ok dispatch =>
      match signal_render_result (dr_result dispatch) with
      | Ok msg =>
          ret (Some {| sj_env := env; sj_principal := p; sj_tool := tool_name; sj_uuid := uuid;
                       sj_number := number; sj_msg := msg |})
      | Err EmptyAfterRender =>
          _ ←ₛ signal_post env tool_name p 0
                 (Err (Provider §"signal surface mapper: empty surface", 0%Z, Dropped, None));
          ret None
      end
  end.

(** [handle_event] up to its post-back. *)
Definition receive_event (env : ChatEnv) (event : Value) : ST (SignalIO W) (option SignalReply) :=
  let rejected sub tenant e := _ ←ₛ signal_reject env sub tenant e; ret None in
  if negb (bool_decide (default [] (get_str §"type" event) = §"IncomingMessage")) then ret None
  else
    let data := default Value.Null (value_get §"data" event) in
    let body := default [] (m ← value_get §"data_message" data; get_str §"body" m) in
    if is_empty body then ret None
    else
      taken ←ₛ on_si_chat (on_chat_rate (try_take (ce_rate_now env)));
      match taken with
      | Err wait =>
          rejected §"-" §"-"
            (RateLimited (§"signal adapter `" ++ sg_name ad ++ §"` rate limit hit; retry in "
                            ++ two_decimals wait ++ §"s"))
      | Ok _ =>
          let source := value_get §"source" data in
          let uuid := default [] (s ← source; get_str §"uuid" s) in
          let number := s ← source; get_str §"number" s in
          if is_empty uuid then
            rejected §"-" §"-"
              (Validation §"IncomingMessage without source.uuid (envelope shape skew)")
          else
            match sg_sender_table ad !! uuid with
            | None => rejected §"-" §"-" (Auth (§"unknown sender uuid " ++ uuid))
            | Some claims =>
                taken ←ₛ on_si_chat (on_chat_tenants
                           (tenant_try_take iter (ce_tenant_now env) (sc_tenant claims)));
                match taken with
                | Err wait =>
                    rejected (sc_sub claims) (sc_tenant claims)
                      (RateLimited (§"tenant `" ++ sc_tenant claims ++ §"` rate limit hit on adapter `"
                                      ++ sg_name ad ++ §"`; retry in " ++ two_decimals wait ++ §"s"))
                | Ok _ =>
                    let p := signal_principal env claims in
                    let '(tool_name, args) := signal_route_command body (sg_inbound_tool ad) in
                    r ←ₛ on_si_chat (on_chat_world (invoke debug_set (sg_dispatcher ad) (ce_dispatch env)
                                                      tool_name args p PROTOCOL));
                    signal_answer env tool_name uuid number p r
                end
            end
      end.

Definition post_reply (r : SignalReply) : ST (SignalIO W) unit :=
  post_back (sj_env r) (sj_principal r) (sj_tool r) (sj_uuid r) (sj_number r) (sj_msg r).

Definition handle_event (env : ChatEnv) (event : Value) : ST (SignalIO W) unit :=
  r ←ₛ receive_event env event;
  match r with Some r => post_reply r | None => ret () end.

Definition subscribe_body : Value :=
  json_object [(§"type", js §"subscribe"); (§"account", js (sg_account ad))].

(** One event of the adapter's loop. *)
Definition take_event (env : ChatEnv) (e : SignaldEvent) : ST (SignalIO W) unit :=
  match e with
  | Connected => _ ←ₛ send subscribe_body; ret ()
  | Line v => handle_event env v
  end.

(** ** The two tasks *)

(** Where the connection task is: it blocks on a full channel at [Announcing]
    and [Delivering], and on the writer's lock at [Installing], [Dropping] and
    [Closing]. *)
Inductive Reader :=
  | Connecting
  | Installing
  | Announcing
  | Reading
  | Delivering (v : Value)
  | Dropping
  | Pausing
  | Closing
  | Stopped.

(** What the adapter's loop has to write. *)
Inductive Job := Subscribe | Answer (r : SignalReply).

Definition run_job (j : Job) : ST (SignalIO W) unit :=
  match j with Subscribe => _ ←ₛ send subscribe_body; ret () | Answer r => post_reply r end.

(** Where the adapter's loop is: waiting for an event, with a line whose dispatch
    it awaits, with something to send and the lock not yet taken, in the write
    with the lock held, or past the loop. *)
Inductive Loop :=
  | Idle
  | Handling (v : Value)
  | Sending (j : Job)
  | Writing (j : Job)
  | Ended.

(** [sig_produced] and [sig_taken] are the history of the channel. *)
Record SignalState := {
  sig_io : SignalIO W;
  sig_reader : Reader;
  sig_loop : Loop;
  sig_cancelled : bool;
  sig_backoff : Z;
  sig_queue : list SignaldEvent;
  sig_produced : list SignaldEvent;
  sig_taken : list SignaldEvent;
}.

Definition with_writer (b : bool) (io : SignalIO W) : SignalIO W := Build_SignalIO (si_chat io) b.

Definition set_reader (r : Reader) (s : SignalState) : SignalState :=
  {| sig_io := sig_io s; sig_reader := r; sig_loop := sig_loop s; sig_cancelled := sig_cancelled s;
     sig_backoff := sig_backoff s; sig_queue := sig_queue s; sig_produced := sig_produced s;
     sig_taken := sig_taken s |}.
Definition set_loop (l : Loop) (s : SignalState) : SignalState :=
  {| sig_io := sig_io s; sig_reader := sig_reader s; sig_loop := l; sig_cancelled := sig_cancelled s;
     sig_backoff := sig_backoff s; sig_queue := sig_queue s; sig_produced := sig_produced s;
     sig_taken := sig_taken s |}.
Definition set_io (io : SignalIO W) (s : SignalState) : SignalState :=
  {| sig_io := io; sig_reader := sig_reader s; sig_loop := sig_loop s; sig_cancelled := sig_cancelled s;
     sig_backoff := sig_backoff s; sig_queue := sig_queue s; sig_produced := sig_produced s;
     sig_taken := sig_taken s |}.
Definition set_cancelled (s : SignalState) : SignalState :=
  {| sig_io := sig_io s; sig_reader := sig_reader s; sig_loop := sig_loop s; sig_cancelled := true;
     sig_backoff := sig_backoff s; sig_queue := sig_queue s; sig_produced := sig_produced s;
     sig_taken := sig_taken s |}.
Definition set_sig_backoff (b : Z) (s : SignalState) : SignalState :=
  {| sig_io := sig_io s; sig_reader := sig_reader s; sig_loop := sig_loop s;
     sig_cancelled := sig_cancelled s; sig_backoff := b; sig_queue := sig_queue s;
     sig_produced := sig_produced s; sig_taken := sig_taken s |}.
Definition enqueue (e : SignaldEvent) (s : SignalState) : SignalState :=
  {| sig_io := sig_io s; sig_reader := sig_reader s; sig_loop := sig_loop s;
     sig_cancelled := sig_cancelled s; sig_backoff := sig_backoff s;
     sig_queue := sig_queue s ++ [e]; sig_produced := sig_produced s ++ [e];
     sig_taken := sig_taken s |}.
Definition dequeue (e : SignaldEvent) (q : list SignaldEvent) (s : SignalState) : SignalState :=
  {| sig_io := sig_io s; sig_reader := sig_reader s; sig_loop := sig_loop s;
     sig_cancelled := sig_cancelled s; sig_backoff := sig_backoff s; sig_queue := q;
     sig_produced := sig_produced s; sig_taken := sig_taken s ++ [e] |}.

Definition room (s : SignalState) : Prop := length (sig_queue s) < EVENTS_CAPACITY.
(** The writer's lock is free: [send] holds it across its write. *)
Definition unlocked (s : SignalState) : Prop :=
  match sig_loop s with Writing _ => False | _ => True end.
Definition set_writer (b : bool) (s : SignalState) : SignalState := set_io (with_writer b (sig_io s)) s.

(** What the loop does next with an event. *)
Definition begin_event (e : SignaldEvent) : Loop :=
  match e with Connected => Sending Subscribe | Line v => Handling v end.
Definition after_dispatch (r : option SignalReply) : Loop :=
  match r with Some r => Sending (Answer r) | None => Idle end.

(** The interleavings of the connection task ([spawn_connect_loop]) with the
    adapter's loop ([spawn]).  Whatever one task awaits (the connection, a line,
    the pause, the channel, the lock, the dispatch, the write) the other may run
    meanwhile; the dispatch touches nothing they share.  The adapter's task keeps
    the channel's receiver until the connection task has ended, so sending on it
    does not fail. *)
Inductive sig_step : SignalState → SignalState → Prop :=
  | StepConnectFailed s :
      sig_reader s = Connecting → sig_step s (set_reader Pausing s)
  | StepConnect s :
      sig_reader s = Connecting → sig_step s (set_reader Installing s)
  | StepInstall s :
      sig_reader s = Installing → unlocked s → sig_step s (set_reader Announcing (set_writer true s))
  | StepAnnounce s :
      sig_reader s = Announcing → room s →
      sig_step s (set_reader Reading (set_sig_backoff BACKOFF_INITIAL (enqueue Connected s)))
  | StepLine s line v :
      sig_reader s = Reading → trim line ≠ [] → json_from_str (trim line) = Some v →
      sig_step s (set_reader (Delivering v) s)
  | StepSkip s line :
      sig_reader s = Reading → line ≠ [] → (trim line = [] ∨ json_from_str (trim line) = None) →
      sig_step s s
  | StepDeliver s v :
      sig_reader s = Delivering v → room s → sig_step s (set_reader Reading (enqueue (Line v) s))
  | StepLost s :
      sig_reader s = Reading → sig_step s (set_reader Dropping s)
  | StepDrop s :
      sig_reader s = Dropping → unlocked s → sig_step s (set_reader Pausing (set_writer false s))
  | StepWake s :
      sig_reader s = Pausing →
      sig_step s (set_reader Connecting (set_sig_backoff (Z.min (sig_backoff s * 2) BACKOFF_MAX) s))
  | StepCancel s : sig_step s (set_cancelled s)
  | StepQuit s :
      sig_cancelled s = true → sig_reader s = Connecting ∨ sig_reader s = Reading ∨ sig_reader s = Pausing →
      sig_step s (set_reader Closing s)
  | StepClose s :
      sig_reader s = Closing → unlocked s → sig_step s (set_reader Stopped (set_writer false s))
  | StepTake s e q :
      sig_loop s = Idle → sig_queue s = e :: q → sig_step s (set_loop (begin_event e) (dequeue e q s))
  | StepDispatch s env v r io :
      sig_loop s = Handling v → receive_event env v (sig_io s) = (r, io) →
      sig_step s (set_loop (after_dispatch r) (set_io io s))
  | StepDisconnected s j :
      sig_loop s = Sending j → si_writer (sig_io s) = false →
      sig_step s (set_loop Idle (set_io (run_job j (sig_io s)).2 s))
  | StepLock s j :
      sig_loop s = Sending j → si_writer (sig_io s) = true → sig_step s (set_loop (Writing j) s)
  | StepWrite s j :
      sig_loop s = Writing j → sig_step s (set_loop Idle (set_io (run_job j (sig_io s)).2 s))
  | StepEnd s :
      sig_cancelled s = true → sig_loop s = Idle → sig_step s (set_loop Ended s).

Definition sig_initial (c : ChatState W) : SignalState :=
  {| sig_io := Build_SignalIO c false; sig_reader := Connecting; sig_loop := Idle; sig_cancelled := false;
     sig_backoff := BACKOFF_INITIAL; sig_queue := []; sig_produced := []; sig_taken := [] |}.
End Adapter.

(** ** Boot *)

Inductive BuildError :=
  | BadIdentity (e : IdentityError)
  | BadCorrelationKey (e : KeyRingError)
  | WrongKind
  | Unsupported (m : str)
  | MissingCredential (field : str)
  | Resolve (field : str) (e : ResolveError)
  | TableParse (m : str)
  | AddrParse (m : str).

Section Boot.
Context {W : Type}.
Variable resolver : SecretField → result str ResolveError.
Variable decode_table : str → result SenderTable str.

Definition signal_credential (field name : str) (m : Credentials) : result str BuildError :=
  f ←? ok_or (cred name m) (MissingCredential field);
  result_map_err (Resolve field) (resolver f).

Definition signal_from_manifest (name : str) (a : Adapter) (d : Dispatcher W)
    : result (SignalAdapter W) BuildError :=
  let inc := in_credentials (a_inbound a) in
  if bool_decide (a_kind a ≠ AKSignal) then Err WrongKind
  else if bool_decide (in_signature (a_inbound a) ≠ TrustedSocket) then
    Err (Unsupported (§"signal adapter requires `signature: trusted_socket`; got "
                        ++ scheme_debug (in_signature (a_inbound a))))
  else
    _ ←? result_map_err BadIdentity
           (require_supported_kind §"signal" (id_kind (a_identity a)) [KSenderTable]);
    addr_str ←? signal_credential §"inbound.signald_addr" §"signald_addr" inc;
    addr ←? result_map_err AddrParse (SignaldAddr_parse (trim addr_str));
    account ←? result_map trim (signal_credential §"inbound.account" §"account" inc);
    if negb (starts_with §"+" account) then
      Err (Unsupported (§"inbound.account must be E.164 with leading `+`; got `" ++ account ++ §"`"))
    else
      json ←? signal_credential §"identity.table" §"table" (id_credentials (a_identity a));
      table ←? result_map_err BadIdentity (SenderTable_parse decode_table json);
      key ←? result_map_err (Resolve §"correlation_key") (resolver (a_correlation_key a));
      _ ←? result_map_err BadCorrelationKey (KeyRing_parse key);
      Ok {| sg_name := name; sg_signald_addr := addr; sg_account := account; sg_sender_table := table;
            sg_inbound_tool := a_tool a; sg_dispatcher := d |}.
End Boot.

(** * Facts *)

Lemma cut_chunks_bound budget chunks : length (cut_chunks budget chunks) ≤ budget.
Proof.
  unfold cut_chunks. pose proof (accepted_bound budget chunks) as Ha.
  destruct (accepted_prefix budget 0 true chunks); [|done]. destruct chunks as [|raw chunks]; [cbn; lia|].
  rewrite Nat.min_comm. apply clamped_length.
Qed.

Lemma signal_message_bound `{UrlParse} cell s m :
  signal_render cell s = Ok m → length (sm_text m) ≤ SIGNAL_TEXT_MAX_BYTES.
Proof.
  assert (length SIGNAL_SENTINEL ≤ SIGNAL_TEXT_MAX_BYTES) as Hs by by apply Nat.leb_le.
  unfold signal_render. generalize dependent SIGNAL_TEXT_MAX_BYTES. generalize dependent SIGNAL_SENTINEL.
  intros sentinel cap Hs. set (a := fold_left _ _ _). clearbody a. destruct (sc_deferred a) as [[[b sl] f] d].
  destruct (is_empty (sc_chunks a)); [done|]. destruct (_ <=? _)%nat eqn:E; bool_facts;
    intros [= <-]; cbn [sm_text]; [done|].
  rewrite length_app.
  pose proof (cut_chunks_bound (cap - length sentinel) (sc_chunks a)). lia.
Qed.

Section Facts.
Context {W : Type} `{SerdeJson, UrlParse, SerdeA2ui}.
Variables (cell : HttpHosts) (debug_set : gset str → str).
Variable iter : gmap str (Tracked spec_float) → list (str * Tracked spec_float).
Variable two_decimals : RetryAfter spec_float → str.
Variable write : str → W → WriteResult * W.
Variable ad : SignalAdapter W.
Implicit Types (io : SignalIO W) (s : SignalState (W:=W)).

Abbreviation step := (sig_step cell debug_set iter two_decimals write ad).
Abbreviation taking := (take_event cell debug_set iter two_decimals write ad).

(** ** Replies *)

Definition signal_line (tl : str) (p : Principal) (l : AuditRecord) : Prop :=
  phase l = Post ∧ AuditLog.protocol l = PROTOCOL ∧ tool l = tl ∧ subject l = sub p
  ∧ au_tenant l = tenant p ∧ au_trace_id l = trace_id p.

(** A reply: nothing is written without a writer; otherwise one line of JSON is,
    and a writer that timed out is given up; the audit line says how it went. *)
Definition replied (env : ChatEnv) (tl uuid : str) (number : option str) (p : Principal)
    (msg : SignalMessage) io io' : Prop :=
  ∃ l, sinks (cs_world (si_chat io')) = emit l (sinks (cs_world (si_chat io))) ∧ signal_line tl p l
    ∧ if si_writer io then
        ∃ r, write (json_to_string (build_send_body (sg_account ad) uuid number msg) ++ nl)
               (outside (cs_world (si_chat io))) = (r, outside (cs_world (si_chat io')))
          ∧ (si_writer io' = true ↔ r ≠ WriteTimedOut)
          ∧ (status_label l = Some §"posted" ↔ r = Written)
      else outside (cs_world (si_chat io')) = outside (cs_world (si_chat io)) ∧ si_writer io' = false
           ∧ status_label l = Some §"retry".

Lemma post_back_replied env tl uuid number p msg io :
  replied env tl uuid number p msg io (post_back write ad env p tl uuid number msg io).2.
Proof using Type.
  unfold replied, post_back. rewrite bind_snd. unfold send. destruct (si_writer io) eqn:Ew; cbn [negb].
  - destruct (write _ _) as [[|e|] o] eqn:Er; cbn [fst snd];
      (eexists; split; [reflexivity|]; split; [by repeat split|]; eexists; split; [reflexivity|]; done).
  - cbn [fst snd]. eexists. split; [reflexivity|]. split; [by repeat split|]. done.
Qed.

(** What becomes of a message, up to its reply. *)
Inductive signal_fate (env : ChatEnv) (v : Value) io : option SignalReply → SignalIO W → Prop :=
  | SignalQuiet io' : outside (cs_world (si_chat io')) = outside (cs_world (si_chat io)) →
      si_writer io' = si_writer io → signal_fate env v io None io'
  | SignalServed data source uuid claims body tl args r w io1 reply io' :
      value_get §"data" v = Some data → value_get §"source" data = Some source →
      get_str §"uuid" source = Some uuid → sg_sender_table ad !! uuid = Some claims →
      (m ← value_get §"data_message" data; get_str §"body" m) = Some body →
      (tl, args) = signal_route_command body (sg_inbound_tool ad) →
      invoke debug_set (sg_dispatcher ad) (ce_dispatch env) tl args (signal_principal env claims) PROTOCOL
        (cs_world (si_chat io)) = (r, w) →
      cs_world (si_chat io1) = w → si_writer io1 = si_writer io →
      match r with
      | Err _ => reply = None ∧ io' = io1
      | Ok dispatch =>
          match signal_render_result cell (dr_result dispatch) with
          | Ok msg =>
              reply = Some {| sj_env := env; sj_principal := signal_principal env claims; sj_tool := tl;
                              sj_uuid := uuid; sj_number := get_str §"number" source; sj_msg := msg |}
              ∧ io' = io1
          | Err _ => reply = None ∧ ∃ l, sinks (cs_world (si_chat io')) = emit l (sinks w)
              ∧ signal_line tl (signal_principal env claims) l
              ∧ outside (cs_world (si_chat io')) = outside w ∧ si_writer io' = si_writer io
          end
      end → signal_fate env v io reply io'.

Lemma signal_reject_quiet env v sb tn e io io1 :
  cs_world (si_chat io1) = cs_world (si_chat io) → si_writer io1 = si_writer io →
  let y := (_ ←ₛ signal_reject ad env sb tn e; ret None) io1 in signal_fate env v io y.1 y.2.
Proof using Type.
  intros Hc Hw. cbn zeta. rewrite bind_snd. unfold signal_reject, on_si_chat, to_chat_world, on_chat_world.
  cbn. apply SignalQuiet; [|done]. cbn. rewrite Hc. unfold record_rejection. by repeat case_match.
Qed.

(** The limiters touch neither the world nor the writer. *)
Lemma on_si_rate {A} (f : TokenBucket spec_float → A * TokenBucket spec_float) io :
  let y := on_si_chat (on_chat_rate f) io in
  cs_world (si_chat y.2) = cs_world (si_chat io) ∧ si_writer y.2 = si_writer io.
Proof using Type. unfold on_si_chat, on_chat_rate. by destruct (f _). Qed.
Lemma on_si_tenants {A} (f : PerTenantBuckets spec_float → A * PerTenantBuckets spec_float) io :
  let y := on_si_chat (on_chat_tenants f) io in
  cs_world (si_chat y.2) = cs_world (si_chat io) ∧ si_writer y.2 = si_writer io.
Proof using Type. unfold on_si_chat, on_chat_tenants. by destruct (f _). Qed.

Lemma signal_event_fate env v io :
  let y := receive_event cell debug_set iter two_decimals ad env v io in signal_fate env v io y.1 y.2.
Proof using Type.
  unfold receive_event. cbv zeta. destruct (bool_decide _); [|by apply SignalQuiet]. cbn [negb].
  destruct (value_get §"data" v) as [data|] eqn:Ed; cbn [from_option id]; [|by apply SignalQuiet].
  destruct (m ← value_get §"data_message" data; get_str §"body" m) as [body|] eqn:Eb;
    cbn [from_option id]; [|by apply SignalQuiet].
  destruct (is_empty body); [by apply SignalQuiet|].
  rewrite bind_snd. destruct (on_si_rate (try_take (ce_rate_now env)) io) as [Hc1 Hw1].
  set (y := on_si_chat _ io) in *. clearbody y. destruct y as [[[]|wait] io1]; cbn [fst snd] in *;
    [|by apply signal_reject_quiet].
  destruct (value_get §"source" data) as [source|] eqn:Es; cbn [mbind option_bind];
    [|by apply signal_reject_quiet].
  destruct (get_str §"uuid" source) as [uuid|] eqn:Eu; cbn [from_option id]; [|by apply signal_reject_quiet].
  destruct (is_empty uuid); [by apply signal_reject_quiet|].
  destruct (sg_sender_table ad !! uuid) as [claims|] eqn:Ec; [|by apply signal_reject_quiet].
  rewrite bind_snd.
  destruct (on_si_tenants (tenant_try_take iter (ce_tenant_now env) (sc_tenant claims)) io1) as [Hc2 Hw2].
  set (y := on_si_chat _ io1) in *. clearbody y. destruct y as [[[]|wait] io2]; cbn [fst snd] in *;
    [|apply signal_reject_quiet; congruence].
  destruct (signal_route_command body (sg_inbound_tool ad)) as [tl args] eqn:Er.
  rewrite bind_snd. unfold on_si_chat at 1 2 3 4, on_chat_world.
  destruct (invoke _ _ _ _ _ _ _ _) as [r w] eqn:Ei. cbn [fst snd].
  set (io3 := Build_SignalIO _ _).
  eapply (SignalServed _ _ _ data source uuid claims body tl args r w io3); try done;
    [by rewrite <-Hc1, <-Hc2|by cbn; rewrite Hw2|].
  unfold signal_answer. destruct r as [dispatch|e]; [|done].
  destruct (signal_render_result cell (dr_result dispatch)) as [msg|[]]; [done|].
  split; [done|]. eexists. split; [reflexivity|]. split; [by repeat split|]. split; [done|]. cbn. congruence.
Qed.

(** What sending comes to: nothing is written without a writer; otherwise one
    line of JSON is, and a writer that timed out is given up. *)
Definition job_done (j : Job) io io' : Prop :=
  match j with
  | Answer r => replied (sj_env r) (sj_tool r) (sj_uuid r) (sj_number r) (sj_principal r) (sj_msg r) io io'
  | Subscribe =>
      if si_writer io then
        ∃ r, write (json_to_string (subscribe_body ad) ++ nl) (outside (cs_world (si_chat io)))
             = (r, outside (cs_world (si_chat io')))
          ∧ sinks (cs_world (si_chat io')) = sinks (cs_world (si_chat io))
          ∧ (si_writer io' = true ↔ r ≠ WriteTimedOut)
      else io' = io
  end.

Lemma run_job_done j io : job_done j io (run_job write ad j io).2.
Proof using Type.
  destruct j as [|r]; [|apply post_back_replied]. cbn [run_job job_done]. rewrite bind_snd. unfold send.
  destruct (si_writer io) eqn:Ew; cbn [negb]; [|done].
  by destruct (write _ _) as [[|e|] o]; eexists.
Qed.

Lemma job_done_writer j io io' : job_done j io io' → si_writer io = false → si_writer io' = false.
Proof using Type.
  intros Hj Hw. destruct j as [|r]; cbn [job_done] in Hj; [rewrite Hw in Hj; congruence|].
  destruct Hj as (l & _ & _ & Hj). rewrite Hw in Hj. apply Hj.
Qed.

Lemma signal_fate_writer env v io r io' : signal_fate env v io r io' → si_writer io' = si_writer io.
Proof using Type.
  destruct 1 as [|? ? ? ? ? ? ? res w io1 ? ? ? ? ? ? ? ? ? ? E Hm]; [done|].
  destruct res as [dispatch|]; [|by destruct Hm as [_ ->]].
  destruct (signal_render_result cell (dr_result dispatch)); [by destruct Hm as [_ ->]|].
  by destruct Hm as (_ & l & _ & _ & _ & ->).
Qed.

(** ** The channel and the lock *)

(** Whether the task holds, or is leaving, a connection. *)
Definition connected (r : Reader) : Prop :=
  match r with Announcing | Reading | Delivering _ | Dropping | Closing => True | _ => False end.

(** A job is a subscription for the connection just taken, or the reply that the
    dispatch of the line just taken gave, nothing having happened since. *)
Definition owed s (j : Job) : Prop :=
  match j with
  | Subscribe => last (sig_taken s) = Some Connected
  | Answer r => ∃ env v io io', last (sig_taken s) = Some (Line v)
      ∧ signal_fate env v io (Some r) io' ∧ si_chat (sig_io s) = si_chat io'
  end.

Definition loop_ok s : Prop :=
  match sig_loop s with
  | Idle | Ended => True
  | Handling v => last (sig_taken s) = Some (Line v)
  | Sending j => owed s j
  | Writing j => owed s j ∧ si_writer (sig_io s) = true
  end.

Record sig_ok s : Prop := {
  sok_order : sig_produced s = sig_taken s ++ sig_queue s;
  sok_capacity : length (sig_queue s) ≤ EVENTS_CAPACITY;
  sok_writer : si_writer (sig_io s) = true → connected (sig_reader s);
  sok_backoff : (BACKOFF_INITIAL ≤ sig_backoff s ≤ BACKOFF_MAX)%Z;
  sok_loop : loop_ok s;
}.

(** What the connection task leaves alone keeps the loop's promise. *)
Lemma loop_ok_ext s s' :
  sig_loop s' = sig_loop s → sig_taken s' = sig_taken s → si_chat (sig_io s') = si_chat (sig_io s) →
  (si_writer (sig_io s') = si_writer (sig_io s) ∨ unlocked s) → loop_ok s → loop_ok s'.
Proof using Type.
  unfold loop_ok, owed, unlocked. intros -> -> -> Hw.
  destruct (sig_loop s); try done. intros [Ho Hs]. split; [done|]. destruct Hw as [->|[]]. done.
Qed.

Lemma enqueue_ok e r b s :
  sig_ok s → room s → connected r → (BACKOFF_INITIAL ≤ b ≤ BACKOFF_MAX)%Z →
  sig_ok (set_reader r (set_sig_backoff b (enqueue e s))).
Proof using Type.
  unfold room. intros [Ho Hc Hw _ Hl] Hr Hcon Hb. split; cbn; [by rewrite Ho, app_assoc| |done|done|].
  - rewrite length_app. cbn. lia.
  - apply (loop_ok_ext s); auto.
Qed.

Lemma run_job_ok j s :
  sig_ok s → sig_ok (set_loop Idle (set_io (run_job write ad j (sig_io s)).2 s)).
Proof using Type.
  intros [Ho Hc Hw Hb Hl]. split; try done. cbn. intros Hw'. apply Hw.
  destruct (si_writer (sig_io s)) eqn:E; [done|].
  by rewrite (job_done_writer _ _ _ (run_job_done j (sig_io s)) E) in Hw'.
Qed.

Lemma signal_step_ok s s' : step s s' → sig_ok s → sig_ok s'.
Proof using Type.
  intros Hst Hok. pose proof Hok as [Ho Hc Hw Hb Hl].
  destruct Hst as [s Er|s Er|s Er Hu|s Er Hroom|s line v Er|s line Er|s v Er Hroom|s Er|s Er Hu|s Er
    |s|s Ec Er|s Er Hu|s e q El Eq|s env v r io El Ed|s j El Ew|s j El Ew|s j El|s Ec El].
  - split; [done|done|by rewrite Er in Hw|done|done].
  - split; [done|done|by rewrite Er in Hw|done|done].
  - split; try done. apply (loop_ok_ext s); auto.
  - by apply enqueue_ok.
  - split; [done|done|done|done|done].
  - done.
  - by apply (enqueue_ok _ _ (sig_backoff s)).
  - split; [done|done|done|done|done].
  - split; try done. apply (loop_ok_ext s); auto.
  - split; try done; cbn; [by rewrite Er in Hw|]. unfold BACKOFF_INITIAL, BACKOFF_MAX in *. lia.
  - split; [done|done|done|done|done].
  - split; [done|done|done|done|done].
  - split; try done. apply (loop_ok_ext s); auto.
  - split; try done; cbn; [by rewrite Ho, Eq, <-app_assoc| |].
    + rewrite Eq in Hc. cbn in Hc. lia.
    + unfold loop_ok. destruct e; cbn; by rewrite last_snoc.
  - pose proof (signal_event_fate env v (sig_io s)) as Hf. cbn in Hf. rewrite Ed in Hf. cbn in Hf.
    split; try done; cbn; [by rewrite (signal_fate_writer _ _ _ _ _ Hf)|].
    unfold loop_ok in *. rewrite El in Hl. destruct r as [r|]; [|done]. by exists env, v, (sig_io s), io.
  - by apply run_job_ok.
  - split; try done. unfold loop_ok in *. rewrite El in Hl. cbn. done.
  - by apply run_job_ok.
  - split; [done|done|done|done|done].
Qed.

Lemma signal_reachable_ok c s : rtc step (sig_initial c) s → sig_ok s.
Proof using Type.
  intros Hr. remember (sig_initial c) as s0 eqn:E0. assert (sig_ok s0) as H0'.
  { subst. split; [done|apply Nat.le_0_l|done|done|done]. }
  clear E0. induction Hr as [|x y z Hxy _ IH]; [done|]. apply IH. by eapply signal_step_ok.
Qed.

(** What a step does to the limiters, the audit trail and the world outside, when
    it does anything: the line taken last is dispatched, or what is owed for the
    event taken last is sent or found to have no connection. *)
Inductive signal_act s s' : Prop :=
  | ActDispatches env v r :
      sig_loop s = Handling v → last (sig_taken s) = Some (Line v) →
      signal_fate env v (sig_io s) r (sig_io s') → sig_loop s' = after_dispatch r → signal_act s s'
  | ActSends j :
      (sig_loop s = Sending j ∧ si_writer (sig_io s) = false
       ∨ sig_loop s = Writing j ∧ si_writer (sig_io s) = true) →
      owed s j → job_done j (sig_io s) (sig_io s') → sig_loop s' = Idle → signal_act s s'.


(** ** The loop alone *)

Lemma send_steps j s :
  sig_loop s = Sending j → rtc step s (set_loop Idle (set_io (run_job write ad j (sig_io s)).2 s)).
Proof using Type.
  intros El. destruct (si_writer (sig_io s)) eqn:Ew.
  - eapply rtc_l; [by apply StepLock|].
    apply (rtc_once (R:=step) _ _ (StepWrite _ _ _ _ _ _ (set_loop (Writing j) s) j eq_refl)).
  - apply rtc_once. by apply StepDisconnected.
Qed.

(** When the connection task does nothing meanwhile, the steps for an event come
    to what [spawn] and [handle_event] do with it from beginning to end. *)
Lemma undisturbed_event env e q s :
  sig_loop s = Idle → sig_queue s = e :: q →
  ∃ s', rtc step s s' ∧ sig_loop s' = Idle ∧ sig_queue s' = q ∧ sig_taken s' = sig_taken s ++ [e]
    ∧ sig_io s' = (taking env e (sig_io s)).2.
Proof using Type.
  intros El Eq. set (s1 := set_loop (begin_event e) (dequeue e q s)).
  assert (step s s1) as Hs1 by by apply StepTake. destruct e as [v|]; cbn [take_event].
  - unfold handle_event. rewrite bind_snd.
    destruct (receive_event cell debug_set iter two_decimals ad env v (sig_io s)) as [r io] eqn:Ed.
    assert (step s1 (set_loop (after_dispatch r) (set_io io s1))) as Hs2 by by eapply StepDispatch.
    destruct r as [r|]; cbn [fst snd after_dispatch] in *.
    + eexists. split; [eapply rtc_l; [exact Hs1|]; eapply rtc_l; [exact Hs2|]; by eapply send_steps|]. done.
    + eexists. split; [eapply rtc_l; [exact Hs1|]; by apply rtc_once|]. done.
  - eexists. split; [eapply rtc_l; [exact Hs1|]; by eapply send_steps|]. done.
Qed.

(** ** Shutdown *)

(** The loop is over and the channel is full: the connection task waits for room
    that nobody makes, the loop's task waits for it, and neither ends. *)
Definition drain_stuck s : Prop :=
  sig_loop s = Ended ∧ length (sig_queue s) = EVENTS_CAPACITY ∧ ∃ v, sig_reader s = Delivering v.

Lemma full_channel_never_drains s s' : rtc step s s' → drain_stuck s → drain_stuck s'.
Proof using Type.
  intros Hr. induction Hr as [|x y z Hxy _ IH]; [done|]. intros Hs. apply IH. clear IH.
  destruct Hs as (El & Eq & v & Er). unfold EVENTS_CAPACITY in *.
  destruct Hxy; unfold room, EVENTS_CAPACITY in *; try (exfalso; intuition (congruence || lia)).
  split_and!; [done|done|by exists v].
Qed.
End Facts.

(** A write that times out drops the writer and nothing tells the reader: it goes
    on delivering while every reply fails, until the peer closes. *)
Lemma timeout_leaves_reader_deaf {W} `{SerdeJson} (write : str → W → WriteResult * W) body io o :
  si_writer io = true →
  write (json_to_string body ++ nl) (outside (cs_world (si_chat io))) = (WriteTimedOut, o) →
  (send write body io).1 = Err Timeout
  ∧ ∀ body', (send write body' (send write body io).2).1 = Err Disconnected.
Proof.
  intros Hw Hr. unfold send. rewrite Hw. cbn [negb]. by rewrite Hr.
Qed.

(** A result that is not a surface is sent whole, whatever its length. *)
Lemma plain_result_not_cut `{SerdeJson, UrlParse, SerdeA2ui} cell text :
  text ≠ [] →
  ∃ m, signal_render_result cell (Value.String text) = Ok m ∧ sm_text m = text.
Proof.
  intros Ht. unfold signal_render_result, signal_try_render, extract_surface. cbn.
  destruct text as [|c text]; [done|]. by eexists.
Qed.

(** ** Instances *)

#[local] Existing Instance sample_url.
#[local] Existing Instance sample_serde.

Definition sg_demo_adapter : SignalAdapter nat :=
  {| sg_name := §"sig"; sg_signald_addr := SignaldAddr.Tcp §"d:1"; sg_account := §"+1";
     sg_sender_table := ChatIdentity.demo_table; sg_inbound_tool := §"echo";
     sg_dispatcher := demo_dispatcher None unenforced |}.
Definition sg_demo_chat : ChatState nat :=
  {| cs_world := World_new unenforced 0; cs_rate := TokenBucket_new 10 10 0;
     cs_tenants := PerTenantBuckets_new 10 10 |}.
Definition sg_demo_write (_ : str) (n : nat) : WriteResult * nat := (Written, S n).
Definition sg_demo_env : ChatEnv :=
  {| ce_rate_now := 0; ce_tenant_now := {| at_entry := 0; at_scan _ := 0%Z; at_create := 0; at_take := 0 |};
     ce_reject_when := §"now"; ce_reject_now := 0; ce_reject_uuid := §"u"; ce_trace := §"t";
     ce_dispatch := Dispatcher.tick; ce_post := Dispatcher.tick |}.
Definition sg_demo_event : Value :=
  json_object
    [(§"type", js §"IncomingMessage");
     (§"data", json_object [(§"source", json_object [(§"uuid", js §"42")]);
                            (§"data_message", json_object [(§"body", js §"hi")])])].
#[local] Instance sg_demo_json : SerdeJson :=
  {| json_to_string _ := §"{}"; json_from_str _ := Some sg_demo_event |}.

Abbreviation sg_demo_step := (sig_step None no_debug map_to_list (λ _, []) sg_demo_write sg_demo_adapter).
Abbreviation sg_demo_job := (run_job sg_demo_write sg_demo_adapter).

(** Connected and subscribed; a message is read and taken. *)
Definition sg_demo_taken : SignalState :=
  let s := set_writer true (set_reader Installing (sig_initial sg_demo_chat)) in
  let s := set_reader Reading (set_sig_backoff BACKOFF_INITIAL (enqueue Connected (set_reader Announcing s))) in
  let s := set_loop (Writing Subscribe) (set_loop (begin_event Connected) (dequeue Connected [] s)) in
  let s := set_loop Idle (set_io (sg_demo_job Subscribe (sig_io s)).2 s) in
  let s := set_reader Reading (enqueue (Line sg_demo_event) (set_reader (Delivering sg_demo_event) s)) in
  set_loop (begin_event (Line sg_demo_event)) (dequeue (Line sg_demo_event) [] s).
(** While it is dispatched the connection is lost and another one made. *)
Definition sg_demo_again : SignalState :=
  let s := set_reader Pausing (set_writer false (set_reader Dropping sg_demo_taken)) in
  let s := set_reader Connecting (set_sig_backoff (Z.min (sig_backoff s * 2) BACKOFF_MAX) s) in
  set_reader Announcing (set_writer true (set_reader Installing s)).
Definition sg_demo_served := receive_event None no_debug map_to_list (λ _, []) sg_demo_adapter sg_demo_env
  sg_demo_event (sig_io sg_demo_again).
Definition sg_demo_reply : SignalReply :=
  {| sj_env := sg_demo_env; sj_principal := signal_principal sg_demo_env (ChatIdentity.demo_claims §"alice");
     sj_tool := §"echo"; sj_uuid := §"42"; sj_number := None; sj_msg := plain_signal §"hi" |}.
Definition sg_demo_state : SignalState :=
  set_loop (Writing (Answer sg_demo_reply))
    (set_loop (after_dispatch (Some sg_demo_reply)) (set_io sg_demo_served.2 sg_demo_again)).

Lemma sg_demo_served_reply : sg_demo_served.1 = Some sg_demo_reply.
Proof. by vm_compute. Qed.
Lemma sg_demo_served_eq : sg_demo_served = (Some sg_demo_reply, sg_demo_served.2).
Proof. rewrite <-sg_demo_served_reply. apply surjective_pairing. Qed.

Lemma sg_demo_run : rtc sg_demo_step (sig_initial sg_demo_chat) sg_demo_state.
Proof.
  eapply rtc_l; [by apply StepConnect|]. eapply rtc_l; [by apply StepInstall|].
  eapply rtc_l; [apply StepAnnounce; [done|by apply Nat.ltb_lt]|].
  eapply rtc_l; [by apply (StepTake _ _ _ _ _ _ _ Connected [])|].
  eapply rtc_l; [by apply (StepLock _ _ _ _ _ _ _ Subscribe)|].
  eapply rtc_l; [by apply (StepWrite _ _ _ _ _ _ _ Subscribe)|].
  eapply rtc_l; [by apply (StepLine _ _ _ _ _ _ _ §"x" sg_demo_event)|].
  eapply rtc_l; [apply (StepDeliver _ _ _ _ _ _ _ sg_demo_event); [done|by apply Nat.ltb_lt]|].
  eapply rtc_l; [by apply (StepTake _ _ _ _ _ _ _ (Line sg_demo_event) [])|].
  trans sg_demo_taken; [apply rtc_refl|].
  eapply rtc_l; [by apply StepLost|]. eapply rtc_l; [by apply StepDrop|]. eapply rtc_l; [by apply StepWake|].
  eapply rtc_l; [by apply StepConnect|]. eapply rtc_l; [by apply StepInstall|].
  trans sg_demo_again; [apply rtc_refl|].
  eapply rtc_l; [exact (StepDispatch None no_debug map_to_list (λ _, []) sg_demo_write sg_demo_adapter
    sg_demo_again sg_demo_env sg_demo_event (Some sg_demo_reply) sg_demo_served.2 eq_refl sg_demo_served_eq)|].
  eapply rtc_l; [apply (StepLock _ _ _ _ _ _ _ (Answer sg_demo_reply)); [done|by vm_compute]|].
  apply rtc_refl.
Qed.

