(* ===== verification/GeminiMapper.v ===== *)
(** * GeminiMapper: a surface as a markdown answer
    (crates/triton-chat-gemini/src/surface_mapper.rs)

    Text passes through, a dashboard is a table, sources are numbered citations,
    controls are counted; the whole within 8,000 bytes. *)

From S2P Require Import Prelude Json A2ui A2uiText TelegramMapper DiscordMapper Signal Surface.

Definition GEMINI_SURFACE : SurfaceProfile :=
  {| sp_channel := §"gemini"; sp_markdown := Markdown.Full; sp_tables := Tables.Native;
     sp_buttons := false; sp_max_buttons := None; sp_charts := Charts.Caption; sp_images := false;
     sp_max_text_bytes := Some (Z.to_nat 8000); sp_streaming := false; sp_subject_line := false;
     sp_guidance := §"Gemini Enterprise: a markdown answer card. Tables render; buttons are dropped and charts become a one-line caption." |}.
Definition GEMINI_TEXT_MAX_BYTES : nat := default 0 (text_cap GEMINI_SURFACE).
Definition GEMINI_SENTINEL : str :=
  nl ++ nl ++ §"[truncated — content exceeded Gemini's 8000-byte cap]".

Record GeminiMessage := {
  gem_text : str;
  gem_deferred_buttons : nat;
  gem_deferred_selections : nat;
  gem_deferred_forms : nat;
  gem_deferred_dashboards : nat;
  gem_truncated : bool;
}.

Definition table_row (cells : list str) : str := §"| " ++ join §" | " cells ++ §" |" ++ nl.

Definition dashboard_table (title : str) (tiles : list DashboardTile) : str :=
  let any_trend := existsb (λ t, bool_decide (is_Some (t_trend t))) tiles in
  trim_end
    ((if is_empty title then [] else §"**" ++ title ++ §"**" ++ nl ++ nl)
     ++ if any_trend then
          table_row [§"Metric"; §"Value"; §"Trend"] ++ table_row [§"---"; §"---"; §"---"]
          ++ concat ((λ t, table_row [t_label t; t_value t; default [] (t_trend t)]) <$> tiles)
        else
          table_row [§"Metric"; §"Value"] ++ table_row [§"---"; §"---"]
          ++ concat ((λ t, table_row [t_label t; t_value t]) <$> tiles)).

Definition citations (items : list SourceItem) : str :=
  trim_end
    (§"**References**" ++ nl
     ++ concat (imap (λ i item, dec (Z.of_nat (i + 1)) ++ §". [" ++ s_label item ++ §"](" ++ s_resource item
                                  ++ §")" ++ nl) items)).

Definition cap (joined : str) (chunks : list str) : str * bool :=
  if (length joined <=? GEMINI_TEXT_MAX_BYTES)%nat then (joined, false)
  else (cut_chunks (GEMINI_TEXT_MAX_BYTES - length GEMINI_SENTINEL) chunks ++ GEMINI_SENTINEL, true).

Section Render.
Context `{UrlParse} (cell : HttpHosts).

Definition gemini_component (a : SignalCollected) (c : Component) : SignalCollected :=
  if is_conversation c then
    match degrade cell c with Some t => push_chunk t a | None => a end
  else
    match c with
    | Component.Text value _ => push_chunk value a
    | Component.Narration text => push_chunk text a
    | Component.Diff lines => push_chunk (§"```diff" ++ nl ++ diff_to_text lines ++ nl ++ §"```") a
    | Component.Dashboard title tiles => push_chunk (dashboard_table title tiles) a
    | Component.Sources items => if is_empty items then a else push_chunk (citations items) a
    | Component.Report report_id _ _ _ _ =>
        push_chunk (§"📊 _" ++ report_id ++ §"_ — open the chart in the app") a
    | Component.Button _ _ _ _ _ _ => defer 1 0 0 0 a
    | Component.Selection _ _ _ _ _ _ => defer 0 1 0 0 a
    | Component.Form _ _ _ _ _ _ => defer 0 0 1 0 a
    | _ => a
    end.

Definition gemini_render (s : Surface) : result GeminiMessage RenderError :=
  let a := fold_left gemini_component (components s) {| sc_chunks := []; sc_deferred := (0, 0, 0, 0) |} in
  let '(b, sl, f, _) := sc_deferred a in
  if is_empty (sc_chunks a) then Err EmptyAfterRender
  else
    let '(text, truncated) := cap (join (nl ++ nl) (sc_chunks a)) (sc_chunks a) in
    Ok {| gem_text := text; gem_deferred_buttons := b; gem_deferred_selections := sl;
          gem_deferred_forms := f; gem_deferred_dashboards := 0; gem_truncated := truncated |}.

Context `{SerdeA2ui}.

Definition gemini_try_render (res : Value) : option (result GeminiMessage RenderError) :=
  match extract_surface cell res with Ok s => Some (gemini_render s) | Err _ => None end.
End Render.

(** * Facts *)

Lemma cap_bound joined chunks : length (cap joined chunks).1 ≤ GEMINI_TEXT_MAX_BYTES.
Proof.
  assert (length GEMINI_SENTINEL ≤ GEMINI_TEXT_MAX_BYTES) as Hs by (apply Nat.leb_le; by vm_compute).
  unfold cap. generalize dependent GEMINI_TEXT_MAX_BYTES. generalize dependent GEMINI_SENTINEL.
  intros sentinel max Hs. destruct (_ <=? _)%nat eqn:E; bool_facts; cbn [fst]; [done|].
  rewrite length_app. pose proof (cut_chunks_bound (max - length sentinel) chunks). lia.
Qed.

(** Whatever the surface, the answer keeps to the cap; a cut one says so, and one
    that was not cut is all the chunks. *)
Lemma gemini_answer_fits `{UrlParse} cell s m :
  gemini_render cell s = Ok m →
  length (gem_text m) ≤ GEMINI_TEXT_MAX_BYTES
  ∧ if gem_truncated m then ∃ body, gem_text m = body ++ GEMINI_SENTINEL
    else ∃ chunks, chunks ≠ [] ∧ gem_text m = join (nl ++ nl) chunks.
Proof.
  unfold gemini_render. set (a := fold_left _ _ _). clearbody a. destruct (sc_deferred a) as [[[b sl] f] d].
  destruct (is_empty (sc_chunks a)) eqn:Ee; [done|].
  pose proof (cap_bound (join (nl ++ nl) (sc_chunks a)) (sc_chunks a)) as Hb.
  assert (if (cap (join (nl ++ nl) (sc_chunks a)) (sc_chunks a)).2
    then ∃ body, (cap (join (nl ++ nl) (sc_chunks a)) (sc_chunks a)).1 = body ++ GEMINI_SENTINEL
    else (cap (join (nl ++ nl) (sc_chunks a)) (sc_chunks a)).1 = join (nl ++ nl) (sc_chunks a)) as Hc.
  { unfold cap. destruct (_ <=? _)%nat; cbn [fst snd]; [done|by eexists]. }
  destruct (cap _ _) as [text truncated]. cbn [fst snd] in *. intros [= <-].
  cbn [gem_text gem_truncated]. split; [done|].
  destruct truncated; [done|]. exists (sc_chunks a). split; [by destruct (sc_chunks a)|done].
Qed.

(** A bar in a label opens another cell. *)
Lemma bar_in_label_adds_cell :
  dashboard_table [] [{| t_label := §"a|b"; t_value := §"1"; t_trend := None |}]
  = §"| Metric | Value |" ++ nl ++ §"| --- | --- |" ++ nl ++ §"| a|b | 1 |".
Proof. by vm_compute. Qed.
