(* ===== verification/PlatformAuth.v ===== *)
(** * PlatformAuth: what the token code of the platform adapters shares
    (crates/triton-chat-googlechat/src/token_minter.rs,
    crates/triton-chat-msteams/src/token_client.rs)

    Google Chat and Microsoft Teams sign the webhooks they post and take an
    OAuth bearer on what is posted to them.  The verifiers and the token clients
    of both are in [GoogleChatAuth] and [TeamsAuth]; here are the parts of the
    token library they use beyond [Jwt] ([TokenLib], with [TokenLibLaws]), and
    the cached access token that three clients keep in the same way. *)

From S2P Require Import Prelude Json Errors Principal Oidc.

(** ** The token library *)

(** [jsonwebtoken::Validation], the fields the verifiers set: [None] when the
    issuer or the audience was not set. *)
Record Validation := {
  va_alg : Algorithm;
  va_issuer : option (list str);
  va_audience : option (list str);
  va_required : list str;
  va_leeway : Z;
}.

Class TokenLib `{Jwt} := {
  (** the text of [from_jwk]'s error *)
  jwk_error : Jwk → str;
  from_rsa_components : str → str → result DecodingKey str;
  (** [DecodingKey::from_rsa_pem]: a PEM key or certificate *)
  from_rsa_pem : str → result DecodingKey str;
  (** [decode::<A>] at a unix second, [A] by its deserializer *)
  decode_as {A} : (Value → option A) → Z → str → DecodingKey → Validation → result A str;
  EncodingKey : Type;
  (** [EncodingKey::from_rsa_pem] *)
  encoding_from_rsa_pem : str → result EncodingKey str;
  (** [encode] with an RS256 header *)
  encode_rs256 : Value → EncodingKey → result str str;
  (** the text of [serde_json::from_str]'s error on a document *)
  json_error : str → str;
}.

(** The values of a registered claim that is a string or an array with strings
    in it. *)
Definition spec_claim (k : str) (body : Value) : option (list str) :=
  match value_get k body with
  | Some (Value.String s) => Some [s]
  | Some (Value.Array xs) => Some (omap as_str xs)
  | _ => None
  end.

(** A claim that is there has one of the accepted values. *)
Definition claim_allowed (k : str) (accepted : option (list str)) (body : Value) : Prop :=
  ∀ l vs, accepted = Some l → spec_claim k body = Some vs → ∃ s, s ∈ vs ∧ s ∈ l.

Class TokenLibLaws `{SerdeJson, TokenLib} := {
  token_signed : DecodingKey → Algorithm → str → Prop;
  token_exp : Value → option Z;
  (** [decode] checks the signature; the claims listed as required are there;
      the issuer and the audience are compared with the ones set when the token
      has them, and not otherwise; the expiry has the leeway set *)
  decode_as_sound {A} (read : Value → option A) now token key va a :
    decode_as read now token key va = Ok a →
    token_signed key (va_alg va) token
    ∧ ∃ body, payload token = Some body ∧ read body = Some a
        ∧ (∀ k, k ∈ va_required va → k = §"iss" ∨ k = §"aud" → is_Some (spec_claim k body))
        ∧ claim_allowed §"iss" (va_issuer va) body
        ∧ claim_allowed §"aud" (va_audience va) body
        ∧ (§"exp" ∈ va_required va → ∃ t, token_exp body = Some t ∧ (now - va_leeway va ≤ t)%Z);
}.

(** [#\[serde(default)\]] on a string field. *)
Definition str_or_default (k : str) (body : Value) : option str :=
  match value_get k body with
  | None => Some []
  | Some v => as_str v
  end.

(** ** Cached access tokens *)

Record CachedToken := { ct_token : str; ct_refresh_at : Z }.

(** What a token endpoint answers with. *)
Record TokenResponse := { tr_access_token : str; tr_expires_in : Z }.

(** What a request comes to: no answer, or a status and what the decoding of
    the body yields. *)
Inductive Exchange (A : Type) :=
  | NoAnswer (error : str)
  | Answered (status : Z) (body : result A str).
Arguments NoAnswer {A} _.
Arguments Answered {A} _ _.

(** The cached token, while it is not due. *)
Definition cached_token (now : Z) (c : option CachedToken) : option str :=
  match c with
  | Some c => if (now <? ct_refresh_at c)%Z then Some (ct_token c) else None
  | None => None
  end.

(** [Instant + Duration::from_secs], [None] when the seconds of the sum do not
    fit in 64 signed bits: the addition panics. *)
Definition instant_plus (now s : Z) : option Z :=
  let t := (now + secs s)%Z in
  if (t / secs 1 <=? i64_max)%Z then Some t else None.

(** [lifetime.saturating_sub(lead).max(1)] *)
Definition kept_for (lead lifetime : Z) : Z := Z.max (Z.max 0 (lifetime - lead)) 1.

Definition cache_token (lead now : Z) (tok : str) (lifetime : Z) : option CachedToken :=
  (λ t, {| ct_token := tok; ct_refresh_at := t |}) <$> instant_plus now (kept_for lead lifetime).

(** A call answers, or its task panics. *)
Inductive Minted (E : Type) :=
  | Answer (r : result str E)
  | Panics.
Arguments Answer {E} _.
Arguments Panics {E}.

(** The end of a refresh: the token is stored, then answered. *)
Definition keep_token {E} (lead now : Z) (tok : str) (lifetime : Z) (c : option CachedToken)
    : Minted E * option CachedToken :=
  match cache_token lead now tok lifetime with
  | Some ct => (Answer (Ok tok), Some ct)
  | None => (Panics, c)
  end.

(** A token in the cache was issued at [t] for [lifetime] seconds. *)
Definition issued_as (lead : Z) (c : option CachedToken) (t lifetime : Z) : Prop :=
  ∃ ct, c = Some ct ∧ ct_refresh_at ct = (t + secs (kept_for lead lifetime))%Z.

(** What every one of the clients does with its cache, [mint tok t lifetime]
    saying that an exchange of this call issued the token. *)
Definition cache_discipline {E} (lead now : Z) (mint : str → Z → Z → Prop)
    (c : option CachedToken) (r : Minted E) (c' : option CachedToken) : Prop :=
  match r with
  | Answer (Ok tok) =>
      (cached_token now c = Some tok ∧ c' = c)
      ∨ (cached_token now c = None ∧ ∃ t lifetime, mint tok t lifetime
          ∧ c' = Some {| ct_token := tok;
                         ct_refresh_at := (t + secs (kept_for lead lifetime))%Z |})
  | _ => cached_token now c = None ∧ c' = c
  end.

Lemma cached_token_Some now c tok :
  cached_token now c = Some tok ↔
  ∃ ct, c = Some ct ∧ ct_token ct = tok ∧ (now < ct_refresh_at ct)%Z.
Proof.
  unfold cached_token. destruct c as [ct|]; [|naive_solver].
  destruct (Z.ltb_spec now (ct_refresh_at ct)); [naive_solver|].
  split; [done|]. intros (? & [= <-] & _ & ?). lia.
Qed.

Lemma instant_plus_Some now s t : instant_plus now s = Some t → t = (now + secs s)%Z.
Proof. unfold instant_plus. case_match; congruence. Qed.

Lemma keep_token_discipline {E} lead now0 now tok lifetime c (mint : str → Z → Z → Prop) :
  cached_token now0 c = None → mint tok now lifetime →
  let '(r, c') := keep_token (E := E) lead now tok lifetime c in
  cache_discipline lead now0 mint c r c'.
Proof.
  intros Hc Hm. unfold keep_token, cache_token.
  destruct (instant_plus _ _) as [t|] eqn:Ht; cbn; [|done].
  apply instant_plus_Some in Ht as ->. right. eauto.
Qed.

(** A token served from the cache has the lead before its announced expiry
    left, unless it was issued for hardly longer than the lead. *)
Lemma served_before_expiry lead c t lifetime now tok :
  (0 ≤ lead)%Z → issued_as lead c t lifetime → cached_token now c = Some tok →
  (lead < lifetime → now + secs lead < t + secs lifetime)%Z
  ∧ (lifetime ≤ lead → now < t + secs 1)%Z.
Proof.
  intros Hl (ct & -> & Hr) (? & [= <-] & _ & Hn)%cached_token_Some.
  unfold kept_for, secs in *. lia.
Qed.

(** A lifetime that does not fit an instant makes the call panic. *)
Lemma instant_plus_overflows now s :
  (0 ≤ now)%Z → (i64_max < s)%Z → instant_plus now s = None.
Proof.
  intros Hn Hs. unfold instant_plus.
  assert (i64_max < (now + secs s) / secs 1)%Z as Hlt; [|case_match; [lia|done]].
  unfold secs in *. rewrite Z.mul_1_l, Z.div_add by lia.
  pose proof (Z.div_pos now 1000000000 Hn ltac:(lia)). lia.
Qed.

Lemma keep_token_panics {E} lead now tok lifetime c :
  (0 ≤ now)%Z → (i64_max < lifetime - lead)%Z →
  keep_token (E := E) lead now tok lifetime c = (Panics, c).
Proof.
  intros Hn Hl. unfold keep_token, cache_token. rewrite instant_plus_overflows; [done..|].
  unfold kept_for. lia.
Qed.

(** ** A client's calls, one at a time under its lock *)

Section Calls.
Context {Env E : Type}.
Variable call : Env → option CachedToken → Minted E * option CachedToken.

Fixpoint calls (es : list Env) (c : option CachedToken)
    : list (Minted E) * option CachedToken :=
  match es with
  | [] => ([], c)
  | e :: es =>
      let '(r, c) := call e c in
      let '(rs, c) := calls es c in
      (r :: rs, c)
  end.

(** When a call looks at the cache, when its exchange ends, and what it was
    issued. *)
Variables check issued_at : Env → Z.
Variable mint : Env → str → Z → Z → Prop.
Variable lead : Z.
Hypothesis lead_nonneg : (0 ≤ lead)%Z.
Hypothesis mint_time : ∀ e tok t lifetime, mint e tok t lifetime → t = issued_at e.
Hypothesis discipline : ∀ e c,
  let '(r, c') := call e c in cache_discipline lead (check e) (mint e) c r c'.

(** The token in the cache, if any, is one of those issued. *)
Definition cache_issued (es : list Env) (c : option CachedToken) : Prop :=
  ∀ ct, c = Some ct → ∃ e lifetime, e ∈ es ∧ mint e (ct_token ct) (issued_at e) lifetime
    ∧ ct_refresh_at ct = (issued_at e + secs (kept_for lead lifetime))%Z.

Lemma calls_issued es0 es c : cache_issued es0 c → cache_issued (es0 ++ es) (calls es c).2.
Proof using discipline mint_time.
  revert es0 c. induction es as [|e es IH]; intros es0 c Hc; cbn [calls].
  { by rewrite app_nil_r. }
  pose proof (discipline e c) as Hd. destruct (call e c) as [r c1].
  assert (cache_issued (es0 ++ [e]) c1) as Hc1.
  { assert (cache_issued (es0 ++ [e]) c) as Hc'.
    { intros ct Hct. destruct (Hc ct Hct) as (e' & l & ? & ? & ?).
      exists e', l. rewrite elem_of_app. tauto. }
    destruct r as [[tok|err]|]; cbn in Hd; [|by destruct Hd as [_ ->]..].
    destruct Hd as [[_ ->]|(_ & t & l & Hm & ->)]; [done|]. intros ct [= <-]. exists e, l.
    pose proof (mint_time _ _ _ _ Hm) as ->. rewrite elem_of_app, list_elem_of_singleton.
    tauto. }
  specialize (IH _ _ Hc1). destruct (calls es c1) as [rs c2]. by rewrite <-app_assoc in IH.
Qed.

Lemma calls_serve_live es e tok c' :
  call e (calls es None).2 = (Answer (Ok tok), c') →
  (∃ lifetime, mint e tok (issued_at e) lifetime)
  ∨ ∃ e0 lifetime, e0 ∈ es ∧ mint e0 tok (issued_at e0) lifetime
      ∧ (lead < lifetime → check e + secs lead < issued_at e0 + secs lifetime)%Z
      ∧ (lifetime ≤ lead → check e < issued_at e0 + secs 1)%Z.
Proof using discipline mint_time lead_nonneg.
  intros Ha. pose proof (discipline e (calls es None).2) as Hd.
  pose proof (calls_issued [] es None) as Hi. rewrite Ha in Hd.
  destruct Hd as [[Hc _]|(_ & t & l & Hm & _)].
  2: { left. exists l. by pose proof (mint_time _ _ _ _ Hm) as ->. }
  pose proof Hc as (ct & Hct & <- & _)%cached_token_Some. right.
  destruct (Hi ltac:(done) ct Hct) as (e0 & l & He0 & Hm & Hr). exists e0, l.
  split; [done|]. split; [done|].
  eapply served_before_expiry; [done| |exact Hc]. exists ct. by split.
Qed.
End Calls.

(** ** An instance

    A library that knows one token with a given payload, signed under the key 7
    with RS256. *)

Definition toy_token : str := §"header.body.signature".

Section Toy.
Variable body : Value.

Definition toy_json : SerdeJson := {|
  json_to_string _ := §"body";
  json_from_str s := if decide (s = §"body") then Some body else None;
|}.

Definition toy_jwt : Jwt := {|
  DecodingKey := nat;
  Jwk := str * nat;
  jwk_key_id j := Some j.1;
  key_from_jwk j := Some j.2;
  decode_header t := if decide (t = toy_token) then Ok {| h_alg := RS256; h_kid := Some §"k1" |}
                     else Err §"no header";
  decode _ _ _ _ := Err §"refused";
  b64url s := Some s;
|}.

Definition toy_exp (v : Value) : option Z :=
  match value_get §"exp" v with Some (Value.Number (Value.Int z)) => Some z | _ => None end.

Definition toy_present (k : str) : bool :=
  if decide (k = §"exp") then bool_decide (is_Some (toy_exp body))
  else bool_decide (is_Some (spec_claim k body)).

Definition toy_allowed (k : str) (accepted : option (list str)) : bool :=
  match accepted, spec_claim k body with
  | Some l, Some vs => existsb (λ s, bool_decide (s ∈ l)) vs
  | _, _ => true
  end.

Definition toy_decode {A} (read : Value → option A) (now : Z) (t : str) (key : nat)
    (va : Validation) : result A str :=
  match read body with
  | Some a =>
      if bool_decide (t = toy_token) && bool_decide (key = 7%nat) && bool_decide (va_alg va = RS256)
         && forallb toy_present (va_required va)
         && toy_allowed §"iss" (va_issuer va) && toy_allowed §"aud" (va_audience va)
         && (now - va_leeway va <=? default 0 (toy_exp body))%Z
      then Ok a else Err §"refused"
  | None => Err §"not the claims"
  end.

Definition toy_lib : @TokenLib toy_jwt := {|
  jwk_error _ := [];
  from_rsa_components n _ :=
    if decide (n = §"modulus") then Ok (7%nat : @DecodingKey toy_jwt) else Err §"bad modulus";
  from_rsa_pem _ := Err §"not a key";
  decode_as A read := @toy_decode A read;
  EncodingKey := unit;
  encoding_from_rsa_pem _ := Ok ();
  encode_rs256 _ _ := Ok §"assertion";
  json_error _ := §"EOF";
|}.

Lemma toy_allowed_spec k l : toy_allowed k l = true → claim_allowed k l body.
Proof using Type.
  unfold toy_allowed, claim_allowed. intros Ht l' vs -> Hvs. rewrite Hvs in Ht.
  apply existsb_exists in Ht as (s & Hs%list_elem_of_In & Hl). bool_facts. eauto.
Qed.

Definition toy_laws : @TokenLibLaws toy_json toy_jwt toy_lib.
Proof using Type.
  refine {| token_signed key a t :=
              key = (7%nat : @DecodingKey toy_jwt) ∧ a = RS256 ∧ t = toy_token;
            token_exp := toy_exp |}.
  intros A read now token key va a. cbn [decode_as toy_lib]. unfold toy_decode.
  destruct (read body) as [a'|] eqn:Hr; [|done].
  case_match eqn:E; [|done]. intros [= ->].
  repeat (apply andb_true_iff in E as [E ?]). bool_facts. subst.
  split; [done|]. exists body. split; [by vm_compute|]. split; [done|].
  assert (∀ k, k ∈ va_required va → toy_present k = true) as Hp.
  { intros k Hk. eapply (proj1 (forallb_forall _ _)); [eassumption|]. by apply list_elem_of_In. }
  split; [|split; [by apply toy_allowed_spec|split; [by apply toy_allowed_spec|]]].
  - intros k Hk Hor. specialize (Hp k Hk). unfold toy_present in Hp.
    rewrite decide_False in Hp by (by destruct Hor as [-> | ->]). by bool_facts.
  - intros Hk. specialize (Hp _ Hk). unfold toy_present in Hp.
    rewrite decide_True in Hp by done. bool_facts. destruct Hp as [z Hz]. rewrite Hz in *.
    exists z. cbn in *. split; [done|lia].
Defined.
End Toy.
