(* ===== verification/GoogleChatAuth.v ===== *)
(** * GoogleChatAuth: inbound tokens and outbound credentials of Google Chat
    (crates/triton-chat-googlechat/src/jwt_verifier.rs, token_minter.rs,
    wif_minter.rs)

    A verifier is its key cache with the instant it was filled and the number of
    keyset requests made; the documents, the instants and the unix seconds a
    call reads are inputs of the call.  [lookup_key] is the reading of the lookup
    when no one else is at it; [lookup_locked] is its part under the refresh
    lock, which the waiters of a burst take one after another ([burst]).  The
    two minters are their cache under its lock. *)

From S2P Require Import Prelude Json Errors Principal Oidc PlatformAuth.

(** ** Who may speak for Chat *)

Definition CHAT_PLATFORM_SA : str := §"chat@system.gserviceaccount.com".
Definition ACCEPTED_ISSUERS : list str :=
  [§"https://accounts.google.com"; §"accounts.google.com"; CHAT_PLATFORM_SA].
Definition WORKSPACE_ADDONS_SA_DOMAIN : str := §"gcp-sa-gsuiteaddons.iam.gserviceaccount.com".
Definition CLOCK_SKEW_SECS : Z := 300.

Definition is_workspace_addon_actor (email : str) : bool :=
  match (rest ← strip_prefix §"service-" email; split_once "@" rest) with
  | Some (project, domain) =>
      negb (is_empty project) && forallb is_ascii_digit project
      && bool_decide (domain = WORKSPACE_ADDONS_SA_DOMAIN)
  | None => false
  end.

Definition is_chat_actor (iss email : str) : bool :=
  bool_decide (iss = CHAT_PLATFORM_SA) || bool_decide (email = CHAT_PLATFORM_SA)
  || is_workspace_addon_actor email.

(** ** The verifier *)

(** The fields of the source's [VerifierConfig] and [GoogleChatClaims]. *)
Record VerifierConfig := { vc_jwks_uri : str; vc_audience : str; vc_cache_ttl : Z }.

Definition VerifierConfig_new (jwks_uri audience : str) : VerifierConfig :=
  {| vc_jwks_uri := jwks_uri; vc_audience := audience; vc_cache_ttl := secs (5 * 60) |}.

Record GoogleChatClaims := { gc_iss : str; gc_aud : str; gc_sub : str; gc_email : str }.

(** The derived deserializer. *)
Definition gchat_claims (v : Value) : option GoogleChatClaims :=
  iss ← get_str §"iss" v;
  aud ← get_str §"aud" v;
  sub ← str_or_default §"sub" v;
  email ← str_or_default §"email" v;
  Some {| gc_iss := iss; gc_aud := aud; gc_sub := sub; gc_email := email |}.

Definition is_workspace_addon (c : GoogleChatClaims) : bool := is_workspace_addon_actor (gc_email c).

Inductive VerifyError :=
  | MissingKid
  | UnsupportedAlg (alg : Algorithm)
  | UnknownKid (kid : str)
  | VerifyFailed (m : str)
  | BadIssuer (iss : str)
  | BadAudience
  | NotChatPlatform (email : str)
  | JwksFetch (m : str)
  | JwksParse (m : str)
  | BadHeader (m : str).

Definition verify_error_str (e : VerifyError) : str :=
  match e with
  | MissingKid => §"missing kid"
  | UnsupportedAlg alg =>
      §"unsupported alg " ++ algorithm_debug alg ++ §"; only RS256 accepted (FR-I-3)"
  | UnknownKid kid => §"unknown kid `" ++ kid ++ §"`"
  | VerifyFailed m => §"verify failed: " ++ m
  | BadIssuer iss => §"unexpected issuer `" ++ iss ++ §"`"
  | BadAudience => §"unexpected audience"
  | NotChatPlatform email =>
      §"OIDC token not minted for the Chat platform (email `" ++ email ++ §"`)"
  | JwksFetch m => §"jwks fetch: " ++ m
  | JwksParse m => §"jwks parse: " ++ m
  | BadHeader m => §"decode header: " ++ m
  end.

Section Verifier.
Context `{SerdeJson, TokenLib}.

Record GoogleJwtVerifier := {
  gv_config : VerifierConfig;
  gv_keys : gmap str DecodingKey;
  gv_last_refresh : option Z;
  (** requests for the keyset so far *)
  gv_fetches : nat;
}.

Definition GoogleJwtVerifier_new (c : VerifierConfig) : GoogleJwtVerifier :=
  {| gv_config := c; gv_keys := ∅; gv_last_refresh := None; gv_fetches := 0 |}.

(** One entry of the [keys] array: skipped, refused, or a key. *)
Definition jwks_entry (k : Value) : result (option (str * DecodingKey)) VerifyError :=
  match get_str §"kid" k with
  | None => Ok None
  | Some kid =>
      if negb (bool_decide (default [] (get_str §"kty" k) = §"RSA")) then Ok None
      else
        n ←? ok_or (get_str §"n" k) (JwksParse (§"kid " ++ kid ++ §" missing n"));
        e ←? ok_or (get_str §"e" k) (JwksParse (§"kid " ++ kid ++ §" missing e"));
        key ←? result_map_err (λ m, JwksParse (§"kid " ++ kid ++ §": " ++ m))
          (from_rsa_components n e);
        Ok (Some (kid, key))
  end.

Definition pem_entry (kv : str * Value) : result (option (str * DecodingKey)) VerifyError :=
  match as_str kv.2 with
  | None => Ok None
  | Some pem =>
      key ←? result_map_err (λ m, JwksParse (§"kid " ++ kv.1 ++ §" PEM: " ++ m)) (from_rsa_pem pem);
      Ok (Some (kv.1, key))
  end.

(** The loop over the entries: the first refusal ends it, a key replaces an
    earlier one of the same id. *)
Fixpoint collect_keys {A} (entry : A → result (option (str * DecodingKey)) VerifyError)
    (l : list A) (out : gmap str DecodingKey) : result (gmap str DecodingKey) VerifyError :=
  match l with
  | [] => Ok out
  | x :: l =>
      r ←? entry x;
      collect_keys entry l match r with Some (kid, key) => <[kid := key]> out | None => out end
  end.

Definition parse_keyset (body : Value) : result (gmap str DecodingKey) VerifyError :=
  match value_get §"keys" body with
  | Some (Value.Array keys) => collect_keys jwks_entry keys ∅
  | _ =>
      match body with
      | Value.Object m => collect_keys pem_entry m ∅
      | _ => Err (JwksParse §"keyset is neither JWKS nor PEM-cert map")
      end
  end.

(** What a lookup reads: the instants of the two staleness checks and of the
    end of a refresh, and what the keyset request comes to ([Unreachable] for
    an error status too). *)
Record KeyEnv := {
  ke_fast : Z;
  ke_locked : Z;
  ke_done : Z;
  ke_served : Fetch Value;
}.

Definition gv_cache_stale (now : Z) (v : GoogleJwtVerifier) : bool :=
  match gv_last_refresh v with
  | Some t => (vc_cache_ttl (gv_config v) <=? Z.max 0 (now - t))%Z
  | None => true
  end.

Definition served_keys (f : Fetch Value) : result (gmap str DecodingKey) VerifyError :=
  match f with
  | Unreachable e => Err (JwksFetch e)
  | Undecodable e => Err (JwksParse e)
  | Fetched body => parse_keyset body
  end.

Definition gv_refresh (e : KeyEnv) (v : GoogleJwtVerifier)
    : result unit VerifyError * GoogleJwtVerifier :=
  let fetches := S (gv_fetches v) in
  match served_keys (ke_served e) with
  | Err err => (Err err, {| gv_config := gv_config v; gv_keys := gv_keys v;
                            gv_last_refresh := gv_last_refresh v; gv_fetches := fetches |})
  | Ok next => (Ok (), {| gv_config := gv_config v; gv_keys := next;
                          gv_last_refresh := Some (ke_done e); gv_fetches := fetches |})
  end.

(** The key of a cache that is not stale. *)
Definition fresh_key (now : Z) (kid : str) (v : GoogleJwtVerifier) : option DecodingKey :=
  if gv_cache_stale now v then None else gv_keys v !! kid.

(** From the acquired lock on. *)
Definition lookup_locked (e : KeyEnv) (kid : str) (v : GoogleJwtVerifier)
    : result DecodingKey VerifyError * GoogleJwtVerifier :=
  match fresh_key (ke_locked e) kid v with
  | Some k => (Ok k, v)
  | None =>
      let '(r, v) := gv_refresh e v in
      match r with
      | Err err => (Err err, v)
      | Ok _ => (ok_or (gv_keys v !! kid) (UnknownKid kid), v)
      end
  end.

Definition lookup_key (e : KeyEnv) (kid : str) (v : GoogleJwtVerifier)
    : result DecodingKey VerifyError * GoogleJwtVerifier :=
  match fresh_key (ke_fast e) kid v with
  | Some k => (Ok k, v)
  | None => lookup_locked e kid v
  end.

Definition gchat_validation (c : VerifierConfig) : Validation :=
  {| va_alg := RS256; va_issuer := Some ACCEPTED_ISSUERS; va_audience := Some [vc_audience c];
     va_required := [§"exp"; §"iss"; §"aud"]; va_leeway := CLOCK_SKEW_SECS |}.

(** The checks on the decoded claims. *)
Definition check_claims (c : VerifierConfig) (claims : GoogleChatClaims)
    : result GoogleChatClaims VerifyError :=
  if negb (bool_decide (gc_iss claims ∈ ACCEPTED_ISSUERS)) then Err (BadIssuer (gc_iss claims))
  else if negb (bool_decide (gc_aud claims = vc_audience c)) then Err BadAudience
  else if negb (is_chat_actor (gc_iss claims) (gc_email claims))
  then Err (NotChatPlatform (gc_email claims))
  else Ok claims.

Definition verify (unix : Z) (e : KeyEnv) (raw_token : str) (v : GoogleJwtVerifier)
    : result GoogleChatClaims VerifyError * GoogleJwtVerifier :=
  match decode_header raw_token with
  | Err m => (Err (BadHeader m), v)
  | Ok header =>
      if negb (bool_decide (h_alg header = RS256)) then (Err (UnsupportedAlg (h_alg header)), v)
      else
        match h_kid header with
        | None => (Err MissingKid, v)
        | Some kid =>
            let '(r, v1) := lookup_key e kid v in
            (key ←? r;
             claims ←? result_map_err VerifyFailed
               (decode_as gchat_claims unix raw_token key (gchat_validation (gv_config v)));
             check_claims (gv_config v) claims, v1)
        end
  end.

(** The callers that found no key before the lock, each with the lock in
    turn. *)
Fixpoint burst (kid : str) (es : list KeyEnv) (v : GoogleJwtVerifier)
    : list (result DecodingKey VerifyError) * GoogleJwtVerifier :=
  match es with
  | [] => ([], v)
  | e :: es =>
      let '(r, v) := lookup_locked e kid v in
      let '(rs, v) := burst kid es v in
      (r :: rs, v)
  end.
End Verifier.

(** ** The service-account minter *)

Definition CHAT_BOT_SCOPE : str := §"https://www.googleapis.com/auth/chat.bot".
Definition DEFAULT_TOKEN_URL : str := §"https://oauth2.googleapis.com/token".
Definition JWT_BEARER_GRANT : str := §"urn:ietf:params:oauth:grant-type:jwt-bearer".
Definition REFRESH_LEAD_SECS : Z := 60.
Definition ASSERTION_LIFETIME_SECS : Z := 3600.

Inductive MinterError :=
  | KeyError (m : str)
  | SignError (m : str)
  | TransportFailed (m : str)
  | StatusError (status : Z)
  | DecodeFailed (m : str).

Definition minter_error_str (e : MinterError) : str :=
  match e with
  | KeyError m => §"service-account key: " ++ m
  | SignError m => §"assertion signing: " ++ m
  | TransportFailed m => §"token endpoint transport: " ++ m
  | StatusError s => §"token endpoint returned status " ++ dec s
  | DecodeFailed m => §"token endpoint body decode: " ++ m
  end.

(** The status check and the decoding of an answer. *)
Definition exchanged {A} (prefix : str) (x : Exchange A) : result A MinterError :=
  match x with
  | NoAnswer e => Err (TransportFailed (prefix ++ e))
  | Answered status body =>
      if negb ((200 <=? status)%Z && (status <? 300)%Z) then Err (StatusError status)
      else result_map_err (λ e, DecodeFailed (prefix ++ e)) body
  end.

Section Minters.
Context `{SerdeJson, TokenLib}.

(** The [type] of a resolved [outbound.token] that is a JSON object. *)
Definition has_key_type (t raw : str) : bool :=
  match json_from_str raw with
  | Some v => bool_decide (get_str §"type" v = Some t)
  | None => false
  end.

Definition looks_like_service_account_key (raw : str) : bool := has_key_type §"service_account" raw.
Definition looks_like_external_account_key (raw : str) : bool :=
  has_key_type §"external_account" raw.

Record ServiceAccountKey := {
  sa_client_email : str;
  sa_private_key : str;
  sa_token_uri : option str;
}.

Definition service_account_key (v : Value) : option ServiceAccountKey :=
  client_email ← get_str §"client_email" v;
  private_key ← get_str §"private_key" v;
  token_uri ← opt_claim as_str §"token_uri" v;
  Some {| sa_client_email := client_email; sa_private_key := private_key;
          sa_token_uri := token_uri |}.

(** [serde_json::from_str] into a key type. *)
Definition read_key {A} (read : Value → option A) (raw : str) : result A MinterError :=
  match (v ← json_from_str raw; read v) with
  | Some k => Ok k
  | None => Err (KeyError (json_error raw))
  end.

Record TokenMinter := {
  tm_client_email : str;
  tm_signing_key : EncodingKey;
  tm_token_url : str;
}.

Definition with_token_url (raw : str) (override_url : option str)
    : result TokenMinter MinterError :=
  key ←? read_key service_account_key raw;
  if is_empty (trim (sa_client_email key)) then Err (KeyError §"client_email is empty")
  else
    signing_key ←? result_map_err (λ e, KeyError (§"private_key is not a usable RSA PEM: " ++ e))
      (encoding_from_rsa_pem (sa_private_key key));
    let own := u ← sa_token_uri key; if is_empty (trim u) then None else Some (trim u) in
    let token_url :=
      match override_url with Some u => u | None => default DEFAULT_TOKEN_URL own end in
    Ok {| tm_client_email := sa_client_email key; tm_signing_key := signing_key;
          tm_token_url := token_url |}.

Definition from_key_json (raw : str) : result TokenMinter MinterError := with_token_url raw None.

(** The claims of the assertion, [now] in unix seconds. *)
Definition assertion_claims (m : TokenMinter) (now : Z) : Value :=
  json_object [
    (§"iss", Value.String (tm_client_email m)); (§"scope", Value.String CHAT_BOT_SCOPE);
    (§"aud", Value.String (tm_token_url m)); (§"iat", Value.Number (Value.Int now));
    (§"exp", Value.Number (Value.Int (now + ASSERTION_LIFETIME_SECS)%Z))].

(** [unix] is the error of a clock before the epoch, or its seconds. *)
Definition sign_assertion (m : TokenMinter) (unix : result Z str) : result str MinterError :=
  now ←? result_map_err SignError unix;
  result_map_err SignError (encode_rs256 (assertion_claims m now) (tm_signing_key m)).

Definition exchange_form (assertion : str) : list (str * str) :=
  [(§"grant_type", JWT_BEARER_GRANT); (§"assertion", assertion)].

(** What a call reads: the instants of the cache check and of the end of the
    exchange, the wall clock, and what the endpoint answers to a form. *)
Record MintEnv := {
  mn_check : Z;
  mn_unix : result Z str;
  mn_post : str → list (str * str) → Exchange TokenResponse;
  mn_done : Z;
}.

Definition access_token (m : TokenMinter) (e : MintEnv) (c : option CachedToken)
    : Minted MinterError * option CachedToken :=
  match cached_token (mn_check e) c with
  | Some tok => (Answer (Ok tok), c)
  | None =>
      match (assertion ←? sign_assertion m (mn_unix e);
             exchanged [] (mn_post e (tm_token_url m) (exchange_form assertion))) with
      | Err err => (Answer (Err err), c)
      | Ok parsed =>
          keep_token REFRESH_LEAD_SECS (mn_done e) (tr_access_token parsed) (tr_expires_in parsed) c
      end
  end.

(** ** The keyless minter *)

Definition STS_SCOPE : str := §"https://www.googleapis.com/auth/cloud-platform".
Definition TOKEN_EXCHANGE_GRANT : str := §"urn:ietf:params:oauth:grant-type:token-exchange".
Definition ACCESS_TOKEN_TYPE : str := §"urn:ietf:params:oauth:token-type:access_token".
Definition FALLBACK_LIFETIME_SECS : Z := 600.

Record ExternalAccountKey := {
  ea_audience : str;
  ea_subject_token_type : str;
  ea_token_url : str;
  ea_impersonation_url : str;
  ea_file : str;
}.

Definition external_account_key (v : Value) : option ExternalAccountKey :=
  audience ← get_str §"audience" v;
  subject_token_type ← get_str §"subject_token_type" v;
  token_url ← get_str §"token_url" v;
  url ← get_str §"service_account_impersonation_url" v;
  source ← value_get §"credential_source" v;
  file ← get_str §"file" source;
  Some {| ea_audience := audience; ea_subject_token_type := subject_token_type;
          ea_token_url := token_url; ea_impersonation_url := url; ea_file := file |}.

Definition from_credential_json (raw : str) : result ExternalAccountKey MinterError :=
  key ←? read_key external_account_key raw;
  match list_find (λ nv : str * str, is_empty (trim nv.2) = true)
    [(§"audience", ea_audience key); (§"subject_token_type", ea_subject_token_type key);
     (§"token_url", ea_token_url key);
     (§"service_account_impersonation_url", ea_impersonation_url key);
     (§"credential_source.file", ea_file key)] with
  | Some (_, (name, _)) => Err (KeyError (name ++ §" is empty"))
  | None => Ok key
  end.

(** [ImpersonationResponse] *)
Record Impersonation := { im_access_token : str; im_expire_time : option str }.

Definition sts_form (k : ExternalAccountKey) (subject_token : str) : list (str * str) :=
  [(§"grant_type", TOKEN_EXCHANGE_GRANT); (§"audience", ea_audience k); (§"scope", STS_SCOPE);
   (§"requested_token_type", ACCESS_TOKEN_TYPE); (§"subject_token", subject_token);
   (§"subject_token_type", ea_subject_token_type k)].

Definition impersonation_body : Value :=
  json_object [(§"scope", Value.Array [Value.String CHAT_BOT_SCOPE])].

(** What a call reads: the file or its error, the answers of the two hops (the
    second to a URL, a bearer and a body), the parser of time stamps and the
    wall clock, in nanoseconds since the epoch. *)
Record WifEnv := {
  wf_check : Z;
  wf_file : str → result str str;
  wf_sts : str → list (str * str) → Exchange str;
  wf_impersonate : str → str → Value → Exchange Impersonation;
  parse_from_rfc3339 : str → option Z;
  wf_utc : Z;
  wf_done : Z;
}.

Definition expire_time_to_lifetime_secs (e : WifEnv) (stamp : str) : option Z :=
  expires ← parse_from_rfc3339 e stamp;
  let s := Z.quot (expires - wf_utc e) (secs 1) in
  if (0 <? s)%Z then Some s else None.

Definition impersonated_lifetime (e : WifEnv) (m : Impersonation) : Z :=
  default FALLBACK_LIFETIME_SECS (s ← im_expire_time m; expire_time_to_lifetime_secs e s).

(** The two hops. *)
Definition wif_mint (k : ExternalAccountKey) (e : WifEnv) : result Impersonation MinterError :=
  raw ←? result_map_err
    (λ err, KeyError (§"credential_source.file `" ++ ea_file k ++ §"`: " ++ err))
    (wf_file e (ea_file k));
  federated ←? exchanged §"sts: " (wf_sts e (ea_token_url k) (sts_form k (trim raw)));
  exchanged §"iamcredentials: "
    (wf_impersonate e (ea_impersonation_url k) federated impersonation_body).

Definition wif_access_token (k : ExternalAccountKey) (e : WifEnv) (c : option CachedToken)
    : Minted MinterError * option CachedToken :=
  match cached_token (wf_check e) c with
  | Some tok => (Answer (Ok tok), c)
  | None =>
      match wif_mint k e with
      | Err err => (Answer (Err err), c)
      | Ok minted =>
          keep_token REFRESH_LEAD_SECS (wf_done e) (im_access_token minted)
            (impersonated_lifetime e minted) c
      end
  end.
End Minters.

(** ** Actors *)

(** The add-on identities are those of the managed domain, and no others. *)
Theorem addon_actor_exact email :
  is_workspace_addon_actor email = true ↔
  ∃ project, project ≠ [] ∧ forallb is_ascii_digit project = true
    ∧ email = §"service-" ++ project ++ §"@" ++ WORKSPACE_ADDONS_SA_DOMAIN.
Proof.
  unfold is_workspace_addon_actor. split.
  - destruct (strip_prefix §"service-" email) as [rest|] eqn:Hp; [|done].
    apply strip_prefix_Some in Hp as ->. cbn [mbind option_bind].
    destruct (split_once "@" rest) as [[project domain]|] eqn:Hs; [|done].
    apply split_once_Some in Hs as [-> _]. intros Hb. bool_facts. subst.
    exists project. split; [by intros ->|done].
  - intros (project & Hne & Hd & ->).
    rewrite (proj2 (strip_prefix_Some _ _ (project ++ §"@" ++ WORKSPACE_ADDONS_SA_DOMAIN)))
      by done.
    cbn [mbind option_bind].
    change (§"@" ++ WORKSPACE_ADDONS_SA_DOMAIN) with ("@"%char :: WORKSPACE_ADDONS_SA_DOMAIN).
    rewrite split_once_app by by apply digits_notin.
    rewrite Hd, bool_decide_true by done. by destruct project.
Qed.

Definition chat_actor (iss email : str) : Prop :=
  iss = CHAT_PLATFORM_SA ∨ email = CHAT_PLATFORM_SA
  ∨ ∃ project, project ≠ [] ∧ forallb is_ascii_digit project = true
      ∧ email = §"service-" ++ project ++ §"@" ++ WORKSPACE_ADDONS_SA_DOMAIN.

Lemma is_chat_actor_spec iss email : is_chat_actor iss email = true ↔ chat_actor iss email.
Proof.
  unfold is_chat_actor, chat_actor. rewrite !orb_true_iff, !bool_decide_eq_true, addon_actor_exact.
  tauto.
Qed.

(** ** The key cache *)

Section Keys.
Context `{SerdeJson, TokenLib}.

(** The key a lookup may answer with: one that was fetched less than the time
    to live before one of the two checks, or the one of the keyset served to
    this call. *)
Definition key_in_force (e : KeyEnv) (kid : str) (v : GoogleJwtVerifier) (key : DecodingKey)
    : Prop :=
  (∃ t now, (now = ke_fast e ∨ now = ke_locked e) ∧ gv_last_refresh v = Some t
     ∧ (Z.max 0 (now - t) < vc_cache_ttl (gv_config v))%Z ∧ gv_keys v !! kid = Some key)
  ∨ ∃ keys, served_keys (ke_served e) = Ok keys ∧ keys !! kid = Some key.

Lemma fresh_key_Some now kid v key :
  fresh_key now kid v = Some key ↔
  gv_keys v !! kid = Some key ∧ ∃ t, gv_last_refresh v = Some t
    ∧ (Z.max 0 (now - t) < vc_cache_ttl (gv_config v))%Z.
Proof.
  unfold fresh_key, gv_cache_stale. destruct (gv_last_refresh v) as [t|]; [|naive_solver].
  destruct (Z.leb_spec (vc_cache_ttl (gv_config v)) (Z.max 0 (now - t))) as [Hl|Hl].
  - split; [done|]. intros (_ & ? & [= <-] & ?). lia.
  - naive_solver.
Qed.

Lemma lookup_locked_Ok e kid v key v' :
  lookup_locked e kid v = (Ok key, v') → key_in_force e kid v key ∧ gv_config v' = gv_config v.
Proof.
  unfold lookup_locked. destruct (fresh_key (ke_locked e) kid v) as [k|] eqn:Hf.
  - intros [= -> <-]. apply fresh_key_Some in Hf as (? & t & ? & ?). split; [|done].
    left. exists t, (ke_locked e). tauto.
  - unfold gv_refresh. destruct (served_keys (ke_served e)) as [keys|err] eqn:Hs; [|done].
    destruct (keys !! kid) as [k|] eqn:Hk; cbn; rewrite Hk; [|done].
    intros [= -> <-]. split; [|done]. right. eauto.
Qed.

Lemma gchat_lookup_key_Ok e kid v key v' :
  lookup_key e kid v = (Ok key, v') → key_in_force e kid v key ∧ gv_config v' = gv_config v.
Proof.
  unfold lookup_key. destruct (fresh_key (ke_fast e) kid v) as [k|] eqn:Hf.
  - intros [= -> <-]. apply fresh_key_Some in Hf as (? & t & ? & ?). split; [|done].
    left. exists t, (ke_fast e). tauto.
  - apply lookup_locked_Ok.
Qed.

(** One request serves a burst of callers for a key that the keyset has: all of
    them get it, as long as the lock reaches them within the time to live. *)
Theorem known_kid_fetched_once e es kid key keys v :
  fresh_key (ke_locked e) kid v = None →
  served_keys (ke_served e) = Ok keys → keys !! kid = Some key →
  Forall (λ e', Z.max 0 (ke_locked e' - ke_done e) < vc_cache_ttl (gv_config v))%Z es →
  let '(rs, v') := burst kid (e :: es) v in
  rs = replicate (S (length es)) (Ok key) ∧ gv_fetches v' = S (gv_fetches v).
Proof.
  intros Hf Hs Hk Hes. cbn [burst]. unfold lookup_locked. rewrite Hf. unfold gv_refresh.
  rewrite Hs. cbn [gv_keys]. rewrite Hk. cbn [ok_or].
  assert (∀ v', gv_keys v' = keys → gv_last_refresh v' = Some (ke_done e) →
    gv_config v' = gv_config v →
    burst kid es v' = (replicate (length es) (Ok key), v')) as Hrest.
  { induction Hes as [|e' es He' _ IH]; intros v' Hv1 Hv2 Hv3; [done|]. cbn [burst].
    unfold lookup_locked.
    rewrite (proj2 (fresh_key_Some (ke_locked e') kid v' key)).
    2: { rewrite Hv1, Hv3. split; [done|]. exists (ke_done e). by split. }
    by rewrite (IH v'). }
  rewrite Hrest by done. by split.
Qed.

(** Not so for a key id the keyset does not have: each caller of the burst, on
    its turn, makes a request of its own, and fails. *)
Theorem unknown_kid_fetched_each_time es kid v :
  gv_keys v !! kid = None →
  Forall (λ e, ∀ keys, served_keys (ke_served e) = Ok keys → keys !! kid = None) es →
  let '(rs, v') := burst kid es v in
  Forall (λ r, ∃ err, r = Err err) rs ∧ gv_fetches v' = (gv_fetches v + length es)%nat.
Proof.
  intros Hv Hes. revert v Hv. induction Hes as [|e es He _ IH]; intros v Hv; cbn [burst].
  { split; [done|]. cbn. lia. }
  unfold lookup_locked.
  assert (fresh_key (ke_locked e) kid v = None) as ->.
  { unfold fresh_key. by case_match. }
  unfold gv_refresh. destruct (served_keys (ke_served e)) as [keys|err] eqn:Hs; cbn [gv_keys].
  - rewrite (He keys) by done. cbn [ok_or].
    specialize (IH {| gv_config := gv_config v; gv_keys := keys;
      gv_last_refresh := Some (ke_done e); gv_fetches := S (gv_fetches v) |} (He keys eq_refl)).
    destruct (burst kid es _) as [rs v']. destruct IH as [? IH]. cbn in IH.
    split; [constructor; eauto|]. rewrite IH. cbn. lia.
  - specialize (IH {| gv_config := gv_config v; gv_keys := gv_keys v;
      gv_last_refresh := gv_last_refresh v; gv_fetches := S (gv_fetches v) |} Hv).
    destruct (burst kid es _) as [rs v']. destruct IH as [? IH]. cbn in IH.
    split; [constructor; eauto|]. rewrite IH. cbn. lia.
Qed.

Lemma check_claims_Ok c claims r :
  check_claims c claims = Ok r →
  r = claims ∧ gc_iss claims ∈ ACCEPTED_ISSUERS ∧ gc_aud claims = vc_audience c
  ∧ chat_actor (gc_iss claims) (gc_email claims).
Proof.
  unfold check_claims. repeat (case_match; [done|]).
  bool_facts. intros [= ->]. rewrite <-is_chat_actor_spec. done.
Qed.
End Keys.

(** C33: a webhook's token is accepted as Google Chat's only if Chat signed it
    for this app.  Its header names RS256 and a key id; the key is one fetched
    less than the time to live ago or by this very call; the signature verifies
    under it; issuer and audience, as the claims have them, are an accepted
    issuer and the configured audience; it has not expired (up to five
    minutes); and its actor is the Chat platform, that is, the platform is its
    issuer, or its [email] is the platform's account or a service agent
    [service-<digits>] of the add-ons domain, exactly. *)
Theorem chat_token_sound `{TokenLibLaws} unix e tok v claims v' :
  verify unix e tok v = (Ok claims, v') →
  ∃ h kid key body,
    decode_header tok = Ok h ∧ h_alg h = RS256 ∧ h_kid h = Some kid
    ∧ key_in_force e kid v key ∧ token_signed key RS256 tok
    ∧ payload tok = Some body ∧ gchat_claims body = Some claims
    ∧ gc_iss claims ∈ ACCEPTED_ISSUERS ∧ gc_aud claims = vc_audience (gv_config v)
    ∧ (∃ t, token_exp body = Some t ∧ unix - CLOCK_SKEW_SECS ≤ t)%Z
    ∧ chat_actor (gc_iss claims) (gc_email claims).
Proof.
  unfold verify. intros Hv. destruct (decode_header tok) as [h|] eqn:Hh; [|done].
  destruct (bool_decide (h_alg h = RS256)) eqn:Ha; [|done]. cbn in Hv. bool_facts.
  destruct (h_kid h) as [kid|] eqn:Hk; [|done].
  destruct (lookup_key e kid v) as [[key|] v1] eqn:Hl; [|done].
  apply gchat_lookup_key_Ok in Hl as [Hkey _]. cbn in Hv.
  destruct (decode_as gchat_claims unix tok key _) as [cl|] eqn:Hd; [|done]. cbn in Hv.
  injection Hv as Hc _. apply check_claims_Ok in Hc as (-> & ? & ? & ?).
  apply decode_as_sound in Hd as (? & body & ? & ? & _ & _ & _ & Hexp).
  exists h, kid, key, body. repeat split_and!; try done.
  apply Hexp. cbn. set_solver.
Qed.

(** ** The minted tokens *)

Section MinterFacts.
Context `{SerdeJson, TokenLib}.

(** An exchange of this call issued the token. *)
Definition sa_mint (m : TokenMinter) (e : MintEnv) (tok : str) (t lifetime : Z) : Prop :=
  t = mn_done e ∧ ∃ assertion parsed,
    sign_assertion m (mn_unix e) = Ok assertion
    ∧ exchanged [] (mn_post e (tm_token_url m) (exchange_form assertion)) = Ok parsed
    ∧ tr_access_token parsed = tok ∧ tr_expires_in parsed = lifetime.

Definition wif_minted (k : ExternalAccountKey) (e : WifEnv) (tok : str) (t lifetime : Z) : Prop :=
  t = wf_done e ∧ ∃ minted, wif_mint k e = Ok minted
    ∧ im_access_token minted = tok ∧ impersonated_lifetime e minted = lifetime.

Lemma access_token_discipline m e c :
  let '(r, c') := access_token m e c in
  cache_discipline REFRESH_LEAD_SECS (mn_check e) (sa_mint m e) c r c'.
Proof.
  unfold access_token. destruct (cached_token (mn_check e) c) as [tok|] eqn:Hc; [by left|].
  destruct (sign_assertion m (mn_unix e)) as [a|] eqn:Ha; cbn; [|done].
  destruct (exchanged [] _) as [p|] eqn:Hp; [|done].
  apply keep_token_discipline; [done|]. split; [done|]. by exists a, p.
Qed.

Lemma wif_access_token_discipline k e c :
  let '(r, c') := wif_access_token k e c in
  cache_discipline REFRESH_LEAD_SECS (wf_check e) (wif_minted k e) c r c'.
Proof.
  unfold wif_access_token. destruct (cached_token (wf_check e) c) as [tok|] eqn:Hc; [by left|].
  destruct (wif_mint k e) as [p|] eqn:Hp; [|done].
  apply keep_token_discipline; [done|]. split; [done|]. by exists p.
Qed.

(** A token the service-account minter answers with, after any calls, was
    issued by the endpoint for an assertion of this account, in this call or in
    an earlier one; in the second case it has more than a minute left, if it was
    issued for more than one, and was issued less than a second ago
    otherwise. *)
Theorem minter_serves_live_tokens m es e tok c' :
  access_token m e (calls (access_token m) es None).2 = (Answer (Ok tok), c') →
  (∃ lifetime, sa_mint m e tok (mn_done e) lifetime)
  ∨ ∃ e0 lifetime, e0 ∈ es ∧ sa_mint m e0 tok (mn_done e0) lifetime
      ∧ (REFRESH_LEAD_SECS < lifetime →
         mn_check e + secs REFRESH_LEAD_SECS < mn_done e0 + secs lifetime)%Z
      ∧ (lifetime ≤ REFRESH_LEAD_SECS → mn_check e < mn_done e0 + secs 1)%Z.
Proof.
  apply (calls_serve_live _ mn_check mn_done (sa_mint m)); [done|by intros ????[-> _]|].
  apply access_token_discipline.
Qed.

(** So does the keyless one. *)
Theorem wif_serves_live_tokens k es e tok c' :
  wif_access_token k e (calls (wif_access_token k) es None).2 = (Answer (Ok tok), c') →
  (∃ lifetime, wif_minted k e tok (wf_done e) lifetime)
  ∨ ∃ e0 lifetime, e0 ∈ es ∧ wif_minted k e0 tok (wf_done e0) lifetime
      ∧ (REFRESH_LEAD_SECS < lifetime →
         wf_check e + secs REFRESH_LEAD_SECS < wf_done e0 + secs lifetime)%Z
      ∧ (lifetime ≤ REFRESH_LEAD_SECS → wf_check e < wf_done e0 + secs 1)%Z.
Proof.
  apply (calls_serve_live _ wf_check wf_done (wif_minted k)); [done|by intros ????[-> _]|].
  apply wif_access_token_discipline.
Qed.

(** A lifetime near the top of its 64 bits is not an error of the call: the
    call panics, and leaves the cache as it was. *)
Theorem huge_lifetime_panics m e c assertion parsed :
  cached_token (mn_check e) c = None → (0 ≤ mn_done e)%Z →
  sign_assertion m (mn_unix e) = Ok assertion →
  exchanged [] (mn_post e (tm_token_url m) (exchange_form assertion)) = Ok parsed →
  (i64_max + REFRESH_LEAD_SECS < tr_expires_in parsed)%Z →
  access_token m e c = (Panics, c).
Proof.
  intros Hc Hn Ha Hp Hl. unfold access_token. rewrite Hc, Ha. cbn. rewrite Hp.
  apply keep_token_panics; lia.
Qed.

(** A token the second hop declares expired is kept and served for nine
    minutes, as one without a time stamp is. *)
Theorem expired_stamp_is_kept k e c minted stamp t :
  cached_token (wf_check e) c = None → wif_mint k e = Ok minted →
  im_expire_time minted = Some stamp → parse_from_rfc3339 e stamp = Some t → (t ≤ wf_utc e)%Z →
  (0 ≤ wf_done e ≤ secs 1000000000)%Z →
  wif_access_token k e c =
    (Answer (Ok (im_access_token minted)),
     Some {| ct_token := im_access_token minted; ct_refresh_at := (wf_done e + secs 540)%Z |}).
Proof.
  intros Hc Hm Hs Ht Hpast Hn. unfold wif_access_token. rewrite Hc, Hm.
  assert (impersonated_lifetime e minted = 600)%Z as ->.
  { unfold impersonated_lifetime. rewrite Hs. cbn [mbind option_bind].
    unfold expire_time_to_lifetime_secs. rewrite Ht. cbn [mbind option_bind].
    assert (Z.quot (t - wf_utc e) (secs 1) ≤ 0)%Z as Hq.
    { apply Z.quot_le_upper_bound; unfold secs; lia. }
    case_match; [lia|done]. }
  unfold keep_token, cache_token, instant_plus.
  change (kept_for REFRESH_LEAD_SECS 600) with 540%Z.
  assert ((wf_done e + secs 540) / secs 1 ≤ i64_max)%Z as Hb.
  { apply Z.div_le_upper_bound; unfold secs, i64_max in *; lia. }
  by rewrite (proj2 (Z.leb_le _ _) Hb).
Qed.
End MinterFacts.

(** ** Instances *)

Definition demo_addon : str := §"service-42@" ++ WORKSPACE_ADDONS_SA_DOMAIN.
Definition demo_body : Value :=
  json_object [(§"iss", Value.String §"accounts.google.com");
               (§"aud", Value.String §"https://app.example/chat");
               (§"email", Value.String demo_addon); (§"exp", Value.Number (Value.Int 2000))].

Section Demo.
#[local] Instance demo_json : SerdeJson := toy_json demo_body.
#[local] Instance demo_jwt : Jwt := toy_jwt.
#[local] Instance demo_lib : TokenLib := toy_lib demo_body.
#[local] Instance demo_laws : TokenLibLaws := toy_laws demo_body.

(** A keyset with a key of another type, one without an id, and the RSA key. *)
Definition demo_keyset : Value :=
  json_object [(§"keys", Value.Array [
    json_object [(§"kid", Value.String §"k0"); (§"kty", Value.String §"EC")];
    json_object [(§"kty", Value.String §"RSA")];
    json_object [(§"kid", Value.String §"k1"); (§"kty", Value.String §"RSA");
                 (§"n", Value.String §"modulus"); (§"e", Value.String §"AQAB")]])].

Definition demo_env (served : Fetch Value) : KeyEnv :=
  {| ke_fast := 1; ke_locked := 2; ke_done := 3; ke_served := served |}.
Definition demo_verifier : GoogleJwtVerifier :=
  GoogleJwtVerifier_new (VerifierConfig_new §"https://keys.example" §"https://app.example/chat").

Definition demo_claims : GoogleChatClaims :=
  {| gc_iss := §"accounts.google.com"; gc_aud := §"https://app.example/chat"; gc_sub := [];
     gc_email := demo_addon |}.

Lemma chat_token_sound_witness :
  ∃ v', verify 2200 (demo_env (Fetched demo_keyset)) toy_token demo_verifier = (Ok demo_claims, v')
    ∧ is_workspace_addon demo_claims = true ∧ chat_actor (gc_iss demo_claims) (gc_email demo_claims).
Proof.
  destruct (verify 2200 (demo_env (Fetched demo_keyset)) toy_token demo_verifier) as [r v'] eqn:E.
  assert (r = Ok demo_claims) as ->.
  { change (r = Ok demo_claims) with ((r, v').1 = Ok demo_claims). rewrite <-E.
    vm_compute. reflexivity. }
  exists v'. split; [reflexivity|]. split; [vm_compute; reflexivity|].
  destruct (chat_token_sound 2200 _ toy_token demo_verifier demo_claims v' E)
    as (h & kid & key & body & _ & _ & _ & _ & _ & _ & _ & _ & _ & _ & Ha).
  exact Ha.
Defined.

(** Two callers ask for a key the keyset has: one request.  Two ask for one it
    does not have: two requests. *)
Definition demo_burst (kid : str) : nat :=
  gv_fetches (burst kid [demo_env (Fetched demo_keyset); demo_env (Fetched demo_keyset)]
                demo_verifier).2.

Lemma known_kid_fetched_once_witness : demo_burst §"k1" = 1%nat.
Proof.
  pose proof (known_kid_fetched_once (demo_env (Fetched demo_keyset))
    [demo_env (Fetched demo_keyset)] §"k1" 7%nat {[§"k1" := 7%nat]} demo_verifier) as Hb.
  unfold demo_burst. destruct (burst §"k1" _ demo_verifier) as [rs v']. cbn [snd].
  apply Hb; [reflexivity|vm_compute; reflexivity|reflexivity|].
  repeat constructor.
Defined.

Lemma unknown_kid_fetched_each_time_witness : demo_burst §"k2" = 2%nat.
Proof.
  pose proof (unknown_kid_fetched_each_time
    [demo_env (Fetched demo_keyset); demo_env (Fetched demo_keyset)] §"k2" demo_verifier) as Hb.
  unfold demo_burst. destruct (burst §"k2" _ demo_verifier) as [rs v']. cbn [snd].
  apply Hb; [reflexivity|].
  assert (∀ keys, served_keys (Fetched demo_keyset) = Ok keys → keys !! §"k2" = None) as Hk.
  { intros keys Hk. assert (served_keys (Fetched demo_keyset) = Ok {[§"k1" := 7%nat]}) as E
      by (vm_compute; reflexivity).
    rewrite E in Hk. injection Hk as <-. reflexivity. }
  repeat constructor; exact Hk.
Defined.

Definition demo_minter : TokenMinter :=
  {| tm_client_email := §"sa@p.example"; tm_signing_key := (); tm_token_url := DEFAULT_TOKEN_URL |}.
Definition demo_mint (check done expires : Z) : MintEnv :=
  {| mn_check := check; mn_unix := Ok 100%Z; mn_done := done;
     mn_post _ _ := Answered 200 (Ok {| tr_access_token := §"t"; tr_expires_in := expires |}) |}.

(** The second call is served from the cache. *)
Lemma minter_serves_live_tokens_witness :
  (access_token demo_minter (demo_mint (secs 3000) 0 0)
     (calls (access_token demo_minter) [demo_mint 0 (secs 1) 3600] None).2).1 = Answer (Ok §"t")
  ∧ (secs 3000 + secs 60 < secs 1 + secs 3600)%Z.
Proof.
  split; [vm_compute; reflexivity|].
  destruct (minter_serves_live_tokens demo_minter [demo_mint 0 (secs 1) 3600]
    (demo_mint (secs 3000) 0 0) §"t"
    (calls (access_token demo_minter) [demo_mint 0 (secs 1) 3600] None).2) as [Hm|(e0 & l & Hin & Hm & Hl & _)].
  - vm_compute. reflexivity.
  - reflexivity.
  - apply list_elem_of_singleton in Hin as ->. destruct Hm as (_ & a & p & Ha & Hp & _ & Hx).
    injection Ha as <-. injection Hp as <-. cbn in Hx. subst l. by apply Hl.
Defined.

Lemma huge_lifetime_panics_witness :
  access_token demo_minter (demo_mint 0 5 u64_max) None = (Panics, None).
Proof.
  eapply (huge_lifetime_panics demo_minter); [reflexivity|done|reflexivity|reflexivity|].
  vm_compute. reflexivity.
Defined.

Definition demo_account : ExternalAccountKey :=
  {| ea_audience := §"pool"; ea_subject_token_type := §"jwt"; ea_token_url := §"https://sts";
     ea_impersonation_url := §"https://iam"; ea_file := §"/token" |}.
Definition demo_wif : WifEnv :=
  {| wf_check := 0; wf_file _ := Ok §" k8s "; wf_sts _ _ := Answered 200 (Ok §"federated");
     wf_impersonate _ _ _ :=
       Answered 200 (Ok {| im_access_token := §"t"; im_expire_time := Some §"past" |});
     parse_from_rfc3339 _ := Some 0%Z; wf_utc := secs 50; wf_done := secs 1 |}.

Lemma expired_stamp_is_kept_witness :
  wif_access_token demo_account demo_wif None =
    (Answer (Ok §"t"), Some {| ct_token := §"t"; ct_refresh_at := secs 541 |}).
Proof.
  apply (expired_stamp_is_kept demo_account demo_wif None
    {| im_access_token := §"t"; im_expire_time := Some §"past" |} §"past" 0);
    [reflexivity..|vm_compute; discriminate|split; vm_compute; discriminate].
Defined.
End Demo.
