(* ===== verification/TeamsAuth.v ===== *)
(** * TeamsAuth: inbound tokens and the outbound bearer of Microsoft Teams
    (crates/triton-chat-msteams/src/jwt_verifier.rs, token_client.rs)

    A verifier has trust anchors, each with its own cache; a call walks them in
    order ([find_anchor]), fetching what an anchor publishes when its cache is
    empty or old.  Documents, instants and the unix second are inputs of a call;
    the URL parser is [UrlParse].  The token client is its cache under its
    lock. *)

From S2P Require Import Prelude Json Errors Principal A2ui Oidc PlatformAuth.

Definition DEFAULT_OPENID_URL : str :=
  §"https://login.botframework.com/v1/.well-known/openidconfiguration".
Definition EXPECTED_ISSUER : str := §"https://api.botframework.com".
Definition ENTRA_HOST : str := §"https://login.microsoftonline.com".
Definition ENTRA_V1_ISSUER_HOST : str := §"https://sts.windows.net".
Definition JWKS_CACHE_TTL : Z := secs (5 * 60).
Definition SERVICE_URL_HOST_SUFFIXES : list str :=
  [§".botframework.com"; §"smba.trafficmanager.net"; §".smba.trafficmanager.net"].

(** ** Tenant ids *)

Definition is_tenant_char (c : ascii) : bool :=
  is_ascii_alphanumeric c || bool_decide (c = "-"%char) || bool_decide (c = "."%char).

(** Both files have this check, each with its own error. *)
Definition validate_tenant_id (tenant_id : str) : option str :=
  let t := trim tenant_id in
  if is_empty t || negb (forallb is_tenant_char t) then None else Some t.

(** ** Reply targets *)

Section ServiceUrl.
Context `{UrlParse}.

Definition suffix_allows (host suffix : str) : bool :=
  match strip_prefix §"." suffix with
  | Some apex => bool_decide (host = apex) || ends_with suffix host
  | None => bool_decide (host = suffix)
  end.

Definition service_url_host_allowed_with_extras (service_url : str) (extras : list str) : bool :=
  match url_parse service_url with
  | None => false
  | Some u =>
      match url_host_str u with
      | None => false
      | Some host =>
          if bool_decide (host ∈ extras)
          then bool_decide (url_scheme u = §"http") || bool_decide (url_scheme u = §"https")
          else bool_decide (url_scheme u = §"https")
               && existsb (suffix_allows host) SERVICE_URL_HOST_SUFFIXES
      end
  end.

Definition service_url_host_allowed (service_url : str) : bool :=
  service_url_host_allowed_with_extras service_url [].
End ServiceUrl.

Definition normalize_host (entry : str) : str :=
  let e := trim entry in
  match strip_prefix §"[" e with
  | Some rest =>
      to_ascii_lowercase match split_once "]" rest with Some (inside, _) => inside | None => rest end
  | None =>
      if (1 <? count_byte ":" e)%nat then to_ascii_lowercase e
      else
        to_ascii_lowercase
          match rsplit_once ":" e with
          | Some (head, tail) =>
              if negb (is_empty tail) && forallb is_ascii_digit tail then head else e
          | None => e
          end
  end.

(** ** The verifier *)

Record TrustAnchor := { ta_openid_url : str; ta_issuers : list str }.

Record VerifiedClaims := { vc_service_url : option str; vc_service_url_attested : bool }.

Definition reply_base (c : VerifiedClaims) : str := default [] (vc_service_url c).

Record BotFrameworkClaims := { bf_iss : str; bf_service_url : str }.

(** The derived deserializer. *)
Definition bot_claims (v : Value) : option BotFrameworkClaims :=
  iss ← get_str §"iss" v;
  service_url ← str_or_default §"serviceurl" v;
  Some {| bf_iss := iss; bf_service_url := service_url |}.

Inductive VerifyError :=
  | DiscoveryFailed (m : str)
  | JwksFailed (m : str)
  | BadHeader (m : str)
  | UnknownKid (kid : str)
  | DecodeFailed (m : str)
  | BadIssuer (actual expected : str)
  | InvalidTenant (tenant : str)
  | MissingClaim (claim : str)
  | UntrustedServiceUrl (url : str).

Definition verify_error_str (e : VerifyError) : str :=
  match e with
  | DiscoveryFailed m => §"openid discovery fetch failed: " ++ m
  | JwksFailed m => §"jwks fetch failed: " ++ m
  | BadHeader m => §"jwt header decode failed: " ++ m
  | UnknownKid kid => §"no JWKS key matched kid `" ++ kid ++ §"`"
  | DecodeFailed m => §"jwt decode failed: " ++ m
  | BadIssuer actual expected =>
      §"jwt issuer does not match expected `" ++ expected ++ §"`; got `" ++ actual ++ §"`"
  | InvalidTenant t => §"invalid tenant id: " ++ t
  | MissingClaim c => §"jwt missing required claim `" ++ c ++ §"`"
  | UntrustedServiceUrl u =>
      §"jwt `serviceUrl` `" ++ u ++ §"` is not on the bot framework host allowlist"
  end.

Section Verifier.
Context `{SerdeJson, TokenLib, UrlParse}.

(** A keyset and when it was fetched. *)
Record CachedJwks := { cj_jwks : list Jwk; cj_fetched_at : Z }.

Record JwtVerifier := {
  jv_anchors : list (TrustAnchor * option CachedJwks);
  jv_audience : str;
  jv_extra_hosts : list str;
}.

Definition JwtVerifier_new (openid_url audience : str) : JwtVerifier :=
  {| jv_anchors := [({| ta_openid_url := openid_url; ta_issuers := [EXPECTED_ISSUER] |}, None)];
     jv_audience := audience; jv_extra_hosts := [] |}.

Definition single_tenant_anchor (tenant : str) : TrustAnchor :=
  {| ta_openid_url := ENTRA_HOST ++ §"/" ++ tenant ++ §"/v2.0/.well-known/openid-configuration";
     ta_issuers := [ENTRA_HOST ++ §"/" ++ tenant ++ §"/v2.0";
                    ENTRA_V1_ISSUER_HOST ++ §"/" ++ tenant ++ §"/"] |}.

Definition with_single_tenant (tenant_id : str) (v : JwtVerifier)
    : result JwtVerifier VerifyError :=
  tenant ←? ok_or (validate_tenant_id tenant_id) (InvalidTenant tenant_id);
  Ok {| jv_anchors := jv_anchors v ++ [(single_tenant_anchor tenant, None)];
        jv_audience := jv_audience v; jv_extra_hosts := jv_extra_hosts v |}.

Definition with_extra_service_url_hosts (hosts : list str) (v : JwtVerifier) : JwtVerifier :=
  {| jv_anchors := jv_anchors v; jv_audience := jv_audience v;
     jv_extra_hosts := jv_extra_hosts v ++ hosts |}.

(** What the lookup of one anchor reads: the instants of the age check and of
    the end of the fetch, the discovery document's [jwks_uri] and the keyset
    at it. *)
Record AnchorEnv := {
  ae_check : Z;
  ae_discovery : Fetch str;
  ae_jwks : str → Fetch (list Jwk);
  ae_done : Z;
}.

Definition fetched {A} (err : str → VerifyError) (f : Fetch A) : result A VerifyError :=
  match f with Unreachable e | Undecodable e => Err (err e) | Fetched a => Ok a end.

Definition jwks_for (e : AnchorEnv) (cache : option CachedJwks)
    : result (list Jwk) VerifyError * option CachedJwks :=
  match (c ← cache;
         if (Z.max 0 (ae_check e - cj_fetched_at c) <? JWKS_CACHE_TTL)%Z then Some c else None) with
  | Some c => (Ok (cj_jwks c), cache)
  | None =>
      match (jwks_uri ←? fetched DiscoveryFailed (ae_discovery e);
             fetched JwksFailed (ae_jwks e jwks_uri)) with
      | Ok jwks => (Ok jwks, Some {| cj_jwks := jwks; cj_fetched_at := ae_done e |})
      | Err err => (Err err, cache)
      end
  end.

(** [JwkSet::find] *)
Definition jwks_find (kid : str) (jwks : list Jwk) : option Jwk :=
  snd <$> list_find (λ j, jwk_key_id j = Some kid) jwks.

(** The walk over the anchors: the one whose keyset has the key id, or the last
    failure. *)
Fixpoint find_anchor (env : str → AnchorEnv) (kid : str) (last_err : option VerifyError)
    (anchors : list (TrustAnchor * option CachedJwks))
    : result (TrustAnchor * DecodingKey) VerifyError * list (TrustAnchor * option CachedJwks) :=
  match anchors with
  | [] => (Err (default (UnknownKid kid) last_err), [])
  | (a, cache) :: rest =>
      let '(r, cache) := jwks_for (env (ta_openid_url a)) cache in
      match r with
      | Err err =>
          let '(found, rest) := find_anchor env kid (Some err) rest in (found, (a, cache) :: rest)
      | Ok jwks =>
          match jwks_find kid jwks with
          | Some jwk =>
              (match key_from_jwk jwk with
               | Some key => Ok (a, key)
               | None => Err (JwksFailed (jwk_error jwk))
               end, (a, cache) :: rest)
          | None =>
              let '(found, rest) := find_anchor env kid last_err rest in
              (found, (a, cache) :: rest)
          end
      end
  end.

Definition service_url_allowed (v : JwtVerifier) (url : str) : bool :=
  service_url_host_allowed_with_extras url (jv_extra_hosts v).

Definition is_extra_service_url_host (v : JwtVerifier) (url : str) : bool :=
  match (u ← url_parse url; url_host_str u) with
  | Some host => existsb (λ e, bool_decide (normalize_host e = host)) (jv_extra_hosts v)
  | None => false
  end.

(** The default required claims are left: [exp] alone. *)
Definition bot_validation (v : JwtVerifier) : Validation :=
  {| va_alg := RS256; va_issuer := None; va_audience := Some [jv_audience v];
     va_required := [§"exp"]; va_leeway := 300 |}.

Definition check_claims (v : JwtVerifier) (anchor : TrustAnchor) (claims : BotFrameworkClaims)
    : result VerifiedClaims VerifyError :=
  if negb (bool_decide (bf_iss claims ∈ ta_issuers anchor))
  then Err (BadIssuer (bf_iss claims) (join §" or " (ta_issuers anchor)))
  else if is_empty (bf_service_url claims)
  then Ok {| vc_service_url := None; vc_service_url_attested := false |}
  else if negb (service_url_allowed v (bf_service_url claims))
  then Err (UntrustedServiceUrl (bf_service_url claims))
  else Ok {| vc_service_url := Some (bf_service_url claims); vc_service_url_attested := true |}.

Definition set_anchors (l : list (TrustAnchor * option CachedJwks)) (v : JwtVerifier)
    : JwtVerifier :=
  {| jv_anchors := l; jv_audience := jv_audience v; jv_extra_hosts := jv_extra_hosts v |}.

Definition missing_kid : VerifyError :=
  BadHeader §"missing `kid` header — Bot Framework JWTs MUST carry one".

Definition verify (unix : Z) (env : str → AnchorEnv) (token : str) (v : JwtVerifier)
    : result VerifiedClaims VerifyError * JwtVerifier :=
  match decode_header token with
  | Err m => (Err (BadHeader m), v)
  | Ok header =>
      match h_kid header with
      | None => (Err missing_kid, v)
      | Some kid =>
          let '(r, anchors) := find_anchor env kid None (jv_anchors v) in
          (ak ←? r;
           claims ←? result_map_err DecodeFailed
             (decode_as bot_claims unix token ak.2 (bot_validation v));
           check_claims v ak.1 claims, set_anchors anchors v)
      end
  end.
End Verifier.

(** ** The token client *)

Definition TOKEN_HOST : str := §"https://login.microsoftonline.com".
Definition TOKEN_URL : str :=
  §"https://login.microsoftonline.com/botframework.com/oauth2/v2.0/token".
Definition CLIENT_ASSERTION_TYPE : str :=
  §"urn:ietf:params:oauth:client-assertion-type:jwt-bearer".
Definition REFRESH_LEAD_SECS : Z := 300.
Definition SCOPE : str := §"https://api.botframework.com/.default".

Inductive Credential :=
  | Secret (client_secret : str)
  | Federated (token_file : str).

Record TokenClient := { tc_client_id : str; tc_credential : Credential; tc_token_url : str }.

Inductive TokenError :=
  | TokenTransport (m : str)
  | TokenStatus (status : Z)
  | TokenDecode (m : str)
  | CredentialRead (path m : str)
  | TokenInvalidTenant (tenant : str).

Definition token_error_str (e : TokenError) : str :=
  match e with
  | TokenTransport m => §"token endpoint transport: " ++ m
  | TokenStatus s => §"token endpoint returned status " ++ dec s
  | TokenDecode m => §"token endpoint body decode: " ++ m
  | CredentialRead p m => §"federated token file " ++ p ++ §": " ++ m
  | TokenInvalidTenant t => §"invalid tenant id: " ++ t
  end.

Definition TokenClient_new (client_id client_secret : str) : TokenClient :=
  {| tc_client_id := client_id; tc_credential := Secret client_secret; tc_token_url := TOKEN_URL |}.

Definition tenant_token_url (tenant : str) : str :=
  TOKEN_HOST ++ §"/" ++ tenant ++ §"/oauth2/v2.0/token".

Definition with_secret_for_tenant (client_id tenant_id client_secret : str)
    : result TokenClient TokenError :=
  tenant ←? ok_or (validate_tenant_id tenant_id) (TokenInvalidTenant tenant_id);
  Ok {| tc_client_id := client_id; tc_credential := Secret client_secret;
        tc_token_url := tenant_token_url tenant |}.

Definition with_federated_credential (client_id tenant_id token_file : str)
    : result TokenClient TokenError :=
  tenant ←? ok_or (validate_tenant_id tenant_id) (TokenInvalidTenant tenant_id);
  Ok {| tc_client_id := client_id; tc_credential := Federated token_file;
        tc_token_url := tenant_token_url tenant |}.

(** What a call reads: the instants of the cache check and of the end of the
    exchange, the file or its error, and what the endpoint answers to a
    form. *)
Record ClientEnv := {
  cl_check : Z;
  cl_file : str → result str str;
  cl_post : str → list (str * str) → Exchange TokenResponse;
  cl_done : Z;
}.

Definition read_assertion (e : ClientEnv) (path : str) : result str TokenError :=
  raw ←? result_map_err (CredentialRead path) (cl_file e path);
  if is_empty (trim raw) then Err (CredentialRead path §"file is empty") else Ok (trim raw).

(** The form of the grant.  The last arm of the source's second match cannot be
    reached: its assertion is read for every federated client. *)
Definition grant_form (c : TokenClient) (e : ClientEnv) : result (list (str * str)) TokenError :=
  let common := [(§"grant_type", §"client_credentials"); (§"client_id", tc_client_id c);
                 (§"scope", SCOPE)] in
  match tc_credential c with
  | Secret secret => Ok (common ++ [(§"client_secret", secret)])
  | Federated token_file =>
      a ←? read_assertion e token_file;
      Ok (common ++ [(§"client_assertion_type", CLIENT_ASSERTION_TYPE);
                     (§"client_assertion", a)])
  end.

Definition token_answer (x : Exchange TokenResponse) : result TokenResponse TokenError :=
  match x with
  | NoAnswer e => Err (TokenTransport e)
  | Answered status body =>
      if negb ((200 <=? status)%Z && (status <? 300)%Z) then Err (TokenStatus status)
      else result_map_err TokenDecode body
  end.

Definition client_access_token (c : TokenClient) (e : ClientEnv) (cache : option CachedToken)
    : Minted TokenError * option CachedToken :=
  match cached_token (cl_check e) cache with
  | Some tok => (Answer (Ok tok), cache)
  | None =>
      match (form ←? grant_form c e; token_answer (cl_post e (tc_token_url c) form)) with
      | Err err => (Answer (Err err), cache)
      | Ok parsed =>
          keep_token REFRESH_LEAD_SECS (cl_done e) (tr_access_token parsed) (tr_expires_in parsed)
            cache
      end
  end.

(** ** Tenants *)

Lemma validate_tenant_id_Some t tenant :
  validate_tenant_id t = Some tenant →
  tenant = trim t ∧ tenant ≠ [] ∧ forallb is_tenant_char tenant = true.
Proof.
  unfold validate_tenant_id. case_if; [done|]. intros [= <-].
  apply orb_false_iff in Heqb as [? ?]. bool_facts. split; [done|]. by destruct (trim t).
Qed.

(** The addresses a tenant is put into keep the host: the tenant is a segment of
    the path, without a slash, a query, a fragment, an at sign or a percent
    sign. *)
Theorem tenant_stays_in_its_segment t tenant c :
  validate_tenant_id t = Some tenant → c ∈ §"/\?#@%:&= " → c ∉ tenant.
Proof.
  intros (_ & _ & Hall)%validate_tenant_id_Some Hc Hin%list_elem_of_In.
  apply (proj1 (forallb_forall _ _) Hall) in Hin.
  assert (forallb (λ c, negb (is_tenant_char c)) §"/\?#@%:&= " = true) as Hno by done.
  apply list_elem_of_In, (proj1 (forallb_forall _ _) Hno) in Hc. by rewrite Hin in Hc.
Qed.

(** It may be the segment that stands for the parent, though: the path of the
    address is then another one. *)
Theorem parent_segment_is_a_tenant :
  validate_tenant_id §".." = Some §".."
  ∧ ta_openid_url (single_tenant_anchor §"..")
    = §"https://login.microsoftonline.com/../v2.0/.well-known/openid-configuration".
Proof. split; vm_compute; reflexivity. Qed.

(** ** Which keys verify *)

Section Anchors.
Context `{SerdeJson, TokenLib, UrlParse}.

(** The keyset a lookup may answer with: one fetched less than five minutes
    before, or the one the anchor's discovery document leads to. *)
Definition keyset_in_force (e : AnchorEnv) (cache : option CachedJwks) (jwks : list Jwk) : Prop :=
  (∃ t, cache = Some {| cj_jwks := jwks; cj_fetched_at := t |}
     ∧ (Z.max 0 (ae_check e - t) < JWKS_CACHE_TTL)%Z)
  ∨ ∃ uri, ae_discovery e = Fetched uri ∧ ae_jwks e uri = Fetched jwks.

Lemma fetched_Ok {A} err (f : Fetch A) a : fetched err f = Ok a ↔ f = Fetched a.
Proof. destruct f; naive_solver. Qed.

Lemma jwks_for_Ok e cache jwks cache' :
  jwks_for e cache = (Ok jwks, cache') → keyset_in_force e cache jwks.
Proof.
  unfold jwks_for. destruct (_ ≫= _) as [c|] eqn:Hc.
  - intros [= <- <-]. left. destruct cache as [[ks t]|]; [|done]. cbn in Hc.
    destruct (Z.ltb_spec (Z.max 0 (ae_check e - t)) JWKS_CACHE_TTL); [|done].
    injection Hc as <-. eauto.
  - destruct (fetched _ (ae_discovery e)) as [uri|] eqn:Hd; cbn; [|done].
    destruct (fetched _ (ae_jwks e uri)) as [ks|] eqn:Hj; [|done]. intros [= -> _].
    right. apply fetched_Ok in Hd, Hj. eauto.
Qed.

Lemma jwks_find_Some kid jwks jwk :
  jwks_find kid jwks = Some jwk → jwk ∈ jwks ∧ jwk_key_id jwk = Some kid.
Proof.
  unfold jwks_find. destruct (list_find _ jwks) as [[i j]|] eqn:Hf; [|done]. intros [= <-].
  apply list_find_Some in Hf as (Hi & ? & _). split; [|done]. by eapply list_elem_of_lookup_2.
Qed.

(** The key of a found anchor is one it publishes under the key id. *)
Definition anchor_key (env : str → AnchorEnv) (kid : str)
    (anchors : list (TrustAnchor * option CachedJwks)) (a : TrustAnchor) (key : DecodingKey)
    : Prop :=
  ∃ cache jwks jwk, (a, cache) ∈ anchors
    ∧ keyset_in_force (env (ta_openid_url a)) cache jwks
    ∧ jwk ∈ jwks ∧ jwk_key_id jwk = Some kid ∧ key_from_jwk jwk = Some key.

Lemma anchor_key_cons env kid x anchors a key :
  anchor_key env kid anchors a key → anchor_key env kid (x :: anchors) a key.
Proof. intros (c & ks & k & ? & ?). exists c, ks, k. split; [by right|done]. Qed.

Lemma find_anchor_Ok env kid le anchors a key anchors' :
  find_anchor env kid le anchors = (Ok (a, key), anchors') → anchor_key env kid anchors a key.
Proof.
  revert le anchors'. induction anchors as [|[a0 cache] rest IH]; intros le anchors'; cbn; [done|].
  destruct (jwks_for _ cache) as [[jwks|err] cache'] eqn:Hj.
  - destruct (jwks_find kid jwks) as [jwk|] eqn:Hf.
    + destruct (key_from_jwk jwk) as [k|] eqn:Hk; [|done]. intros [= -> -> _].
      apply jwks_find_Some in Hf as [? ?]. apply jwks_for_Ok in Hj.
      exists cache, jwks, jwk. split; [by left|done].
    + destruct (find_anchor env kid le rest) as [found r] eqn:Hr. intros [= -> _].
      by eapply anchor_key_cons, IH.
  - destruct (find_anchor env kid (Some err) rest) as [found r] eqn:Hr. intros [= -> _].
    by eapply anchor_key_cons, IH.
Qed.

(** Anchors that cannot be reached, or that do not publish the key id, do not
    stand in the way of the one that does. *)
Definition passed_over (env : str → AnchorEnv) (kid : str) (x : TrustAnchor * option CachedJwks)
    : Prop :=
  match (jwks_for (env (ta_openid_url x.1)) x.2).1 with
  | Ok jwks => jwks_find kid jwks = None
  | Err _ => True
  end.

Theorem outage_does_not_veto env kid le before a cache after jwks jwk key :
  Forall (passed_over env kid) before →
  (jwks_for (env (ta_openid_url a)) cache).1 = Ok jwks →
  jwks_find kid jwks = Some jwk → key_from_jwk jwk = Some key →
  (find_anchor env kid le (before ++ (a, cache) :: after)).1 = Ok (a, key).
Proof.
  intros Hb Hj Hf Hk. revert le. induction Hb as [|[a0 c0] before Hx _ IH]; intros le; cbn.
  { destruct (jwks_for _ cache) as [r c']. cbn in Hj. subst r. by rewrite Hf, Hk. }
  unfold passed_over in Hx. cbn in Hx. destruct (jwks_for _ c0) as [[ks|err] c0']; cbn in Hx.
  - rewrite Hx. specialize (IH le). by destruct (find_anchor _ _ _ _).
  - specialize (IH (Some err)). by destruct (find_anchor _ _ _ _).
Qed.

(** A key id the cached keysets do not have is refused without a request: a
    key that was rotated in is unknown until the caches are five minutes
    old. *)
Theorem rotated_key_waits unix env tok v h kid :
  decode_header tok = Ok h → h_kid h = Some kid →
  Forall (λ x, ∃ jwks t, x.2 = Some {| cj_jwks := jwks; cj_fetched_at := t |}
    ∧ (Z.max 0 (ae_check (env (ta_openid_url x.1)) - t) < JWKS_CACHE_TTL)%Z
    ∧ jwks_find kid jwks = None) (jv_anchors v) →
  verify unix env tok v = (Err (UnknownKid kid), v).
Proof.
  intros Hh Hk Hall. unfold verify. rewrite Hh, Hk.
  assert (find_anchor env kid None (jv_anchors v) = (Err (UnknownKid kid), jv_anchors v)) as ->.
  { induction Hall as [|[a c] l (jwks & t & Hc & Ht & Hf) _ IH]; [done|]. cbn in Hc, Ht. subst c.
    cbn [find_anchor]. unfold jwks_for. cbn [mbind option_bind cj_fetched_at].
    rewrite (proj2 (Z.ltb_lt _ _) Ht). cbn [cj_jwks]. by rewrite Hf, IH. }
  by destruct v.
Qed.

(** ** Which hosts are answered *)

Definition microsoft_host (host : str) : Prop :=
  host = §"botframework.com" ∨ host = §"smba.trafficmanager.net"
  ∨ ∃ sub, host = sub ++ §".botframework.com" ∨ host = sub ++ §".smba.trafficmanager.net".

Lemma suffix_allows_spec host :
  existsb (suffix_allows host) SERVICE_URL_HOST_SUFFIXES = true ↔ microsoft_host host.
Proof.
  unfold SERVICE_URL_HOST_SUFFIXES, suffix_allows, microsoft_host. cbn [existsb].
  change (strip_prefix §"." §".botframework.com") with (Some §"botframework.com").
  change (strip_prefix §"." §"smba.trafficmanager.net") with (@None str).
  change (strip_prefix §"." §".smba.trafficmanager.net") with (Some §"smba.trafficmanager.net").
  cbv beta iota.
  rewrite !orb_true_iff, !bool_decide_eq_true, !ends_with_spec. naive_solver.
Qed.

(** A reply target is an address of Microsoft's over TLS, the dot before the
    domain included, or of a host of the deployment's own list. *)
Theorem service_url_allowed_spec v url :
  service_url_allowed v url = true ↔
  ∃ u host, url_parse url = Some u ∧ url_host_str u = Some host
    ∧ ((host ∈ jv_extra_hosts v ∧ (url_scheme u = §"http" ∨ url_scheme u = §"https"))
       ∨ ((host ∉ jv_extra_hosts v) ∧ url_scheme u = §"https" ∧ microsoft_host host)).
Proof.
  unfold service_url_allowed, service_url_host_allowed_with_extras.
  destruct (url_parse url) as [u|]; [|naive_solver].
  destruct (url_host_str u) as [host|] eqn:Hh; [|naive_solver].
  destruct (bool_decide (host ∈ jv_extra_hosts v)) eqn:He; bool_facts.
  - rewrite orb_true_iff, !bool_decide_eq_true. naive_solver.
  - rewrite andb_true_iff, bool_decide_eq_true, suffix_allows_spec. naive_solver.
Qed.

(** An entry of that list is compared as it was typed here, and normalised in
    the other check: one in capitals is only good for the second. *)
Theorem capital_entry_is_half_an_entry v url u :
  jv_extra_hosts v = [§"LOCALHOST"] → url_parse url = Some u →
  url_host_str u = Some §"localhost" →
  is_extra_service_url_host v url = true ∧ service_url_allowed v url = false.
Proof.
  intros He Hu Hh. unfold is_extra_service_url_host, service_url_allowed,
    service_url_host_allowed_with_extras. rewrite Hu, He. cbn [mbind option_bind]. rewrite Hh.
  split; [vm_compute; reflexivity|]. cbn [bool_decide].
  rewrite bool_decide_false by (apply (bool_decide_unpack _); vm_compute; done).
  destruct (bool_decide (url_scheme u = §"https")); [vm_compute|]; reflexivity.
Qed.

(** The other way round for an address in brackets: the parser keeps them, and
    the normal form has none. *)
Theorem bracketed_entry_is_half_an_entry v url u :
  jv_extra_hosts v = [§"[::1]"] → url_parse url = Some u → url_host_str u = Some §"[::1]" →
  url_scheme u = §"http" →
  service_url_allowed v url = true ∧ is_extra_service_url_host v url = false.
Proof.
  intros He Hu Hh Hs. unfold is_extra_service_url_host, service_url_allowed,
    service_url_host_allowed_with_extras. rewrite Hu, He. cbn [mbind option_bind]. rewrite Hh, Hs.
  split; vm_compute; reflexivity.
Qed.

Lemma bot_check_claims_Ok v a claims r :
  check_claims v a claims = Ok r →
  bf_iss claims ∈ ta_issuers a
  ∧ (vc_service_url_attested r = bool_decide (is_Some (vc_service_url r)))
  ∧ (∀ url, vc_service_url r = Some url →
       url = bf_service_url claims ∧ service_url_allowed v url = true).
Proof.
  unfold check_claims. case_match; [done|]. bool_facts.
  case_match; [intros [= <-]; naive_solver|]. case_match; [done|]. bool_facts.
  intros [= <-]. cbn. split; [done|]. split; [done|]. intros url [= <-]. done.
Qed.
End Anchors.

(** C37: a webhook's token is accepted as the Bot Framework's only if one of the
    configured anchors signed it.  The key its header names is published by
    that anchor, in a keyset fetched less than five minutes ago or by this very
    call; the signature verifies under it with RS256; the token's issuer is one
    of that same anchor's; if it has an audience, that is the bot; it has not
    expired (up to five minutes).  A reply target that is reported as attested
    comes out of the token and is one the deployment allows. *)
Theorem bot_token_sound `{TokenLibLaws} `{UrlParse} unix env tok v claims v' :
  verify unix env tok v = (Ok claims, v') →
  ∃ h kid a key body bf,
    decode_header tok = Ok h ∧ h_kid h = Some kid
    ∧ anchor_key env kid (jv_anchors v) a key ∧ token_signed key RS256 tok
    ∧ payload tok = Some body ∧ bot_claims body = Some bf ∧ bf_iss bf ∈ ta_issuers a
    ∧ claim_allowed §"aud" (Some [jv_audience v]) body
    ∧ (∃ t, token_exp body = Some t ∧ unix - 300 ≤ t)%Z
    ∧ vc_service_url_attested claims = bool_decide (is_Some (vc_service_url claims))
    ∧ (∀ url, vc_service_url claims = Some url →
         url = bf_service_url bf ∧ service_url_allowed v url = true).
Proof.
  unfold verify. intros Hv. destruct (decode_header tok) as [h|] eqn:Hh; [|done].
  destruct (h_kid h) as [kid|] eqn:Hk; [|done].
  destruct (find_anchor env kid None (jv_anchors v)) as [[[a key]|err] l] eqn:Hf; [|done].
  apply find_anchor_Ok in Hf. cbn in Hv.
  destruct (decode_as bot_claims unix tok key _) as [bf|] eqn:Hd; [|done]. cbn in Hv.
  injection Hv as Hc _. apply bot_check_claims_Ok in Hc as (? & ? & ?).
  apply decode_as_sound in Hd as (? & body & ? & ? & _ & _ & Haud & Hexp).
  exists h, kid, a, key, body, bf. repeat split_and!; try done.
  apply Hexp. cbn. set_solver.
Qed.

(** ** The bearer *)

Definition client_mint (c : TokenClient) (e : ClientEnv) (tok : str) (t lifetime : Z) : Prop :=
  t = cl_done e ∧ ∃ form parsed,
    grant_form c e = Ok form ∧ token_answer (cl_post e (tc_token_url c) form) = Ok parsed
    ∧ tr_access_token parsed = tok ∧ tr_expires_in parsed = lifetime.

Lemma client_access_token_discipline c e cache :
  let '(r, cache') := client_access_token c e cache in
  cache_discipline REFRESH_LEAD_SECS (cl_check e) (client_mint c e) cache r cache'.
Proof.
  unfold client_access_token.
  destruct (cached_token (cl_check e) cache) as [tok|] eqn:Hc; [by left|].
  destruct (grant_form c e) as [form|] eqn:Hf; cbn; [|done].
  destruct (token_answer _) as [p|] eqn:Hp; [|done].
  apply keep_token_discipline; [done|]. split; [done|]. by exists form, p.
Qed.

(** A bearer served from the cache has more than five minutes left, or was
    issued for no more than that and less than a second ago. *)
Theorem client_serves_live_tokens c es e tok cache' :
  client_access_token c e (calls (client_access_token c) es None).2 = (Answer (Ok tok), cache') →
  (∃ lifetime, client_mint c e tok (cl_done e) lifetime)
  ∨ ∃ e0 lifetime, e0 ∈ es ∧ client_mint c e0 tok (cl_done e0) lifetime
      ∧ (REFRESH_LEAD_SECS < lifetime →
         cl_check e + secs REFRESH_LEAD_SECS < cl_done e0 + secs lifetime)%Z
      ∧ (lifetime ≤ REFRESH_LEAD_SECS → cl_check e < cl_done e0 + secs 1)%Z.
Proof.
  apply (calls_serve_live _ cl_check cl_done (client_mint c)); [done|by intros ????[-> _]|].
  apply client_access_token_discipline.
Qed.

(** A federated client shows its assertion file's content, as it is at the time
    of the refresh, and no secret; a file it cannot use ends the call before
    anything is posted. *)
Theorem federated_form c e file :
  tc_credential c = Federated file →
  grant_form c e =
    match cl_file e file with
    | Err m => Err (CredentialRead file m)
    | Ok raw =>
        if is_empty (trim raw) then Err (CredentialRead file §"file is empty")
        else Ok [(§"grant_type", §"client_credentials"); (§"client_id", tc_client_id c);
                 (§"scope", SCOPE); (§"client_assertion_type", CLIENT_ASSERTION_TYPE);
                 (§"client_assertion", trim raw)]
    end.
Proof.
  intros Hc. unfold grant_form, read_assertion. rewrite Hc.
  destruct (cl_file e file) as [raw|]; cbn; [|done]. by destruct (is_empty (trim raw)).
Qed.

(** ** Instances *)

(** A token of the Bot Framework, without an audience. *)
Definition demo_body (service_url : str) : Value :=
  json_object [(§"iss", Value.String EXPECTED_ISSUER); (§"exp", Value.Number (Value.Int 2000));
               (§"serviceurl", Value.String service_url)].
Definition demo_url : str := §"https://smba.trafficmanager.net/teams/".

Section Demo.
#[local] Instance demo_json : SerdeJson := toy_json (demo_body demo_url).
#[local] Instance demo_jwt : Jwt := toy_jwt.
#[local] Instance demo_lib : TokenLib := toy_lib (demo_body demo_url).
#[local] Instance demo_laws : TokenLibLaws := toy_laws (demo_body demo_url).
#[local] Instance demo_urls : UrlParse := {|
  url_parse s :=
    if decide (s = demo_url)
    then Some {| url_scheme := §"https"; url_host_str := Some §"smba.trafficmanager.net";
                 url_username := []; url_password := None |}
    else None;
|}.

Definition demo_anchor_env (url : str) : AnchorEnv :=
  {| ae_check := 1; ae_done := 2;
     ae_discovery := if decide (url = DEFAULT_OPENID_URL) then Fetched §"keys"
                     else Unreachable §"timeout";
     ae_jwks _ := Fetched [(§"k0", 8%nat); (§"k1", 7%nat)] |}.
Definition demo_verifier : JwtVerifier := JwtVerifier_new DEFAULT_OPENID_URL §"app-id".
Definition demo_claims : VerifiedClaims :=
  {| vc_service_url := Some demo_url; vc_service_url_attested := true |}.

Lemma demo_verified :
  (verify 2200 demo_anchor_env toy_token demo_verifier).1 = Ok demo_claims.
Proof. vm_compute. reflexivity. Qed.

Lemma bot_token_sound_witness :
  ∃ v', verify 2200 demo_anchor_env toy_token demo_verifier = (Ok demo_claims, v')
    ∧ service_url_allowed demo_verifier demo_url = true.
Proof.
  destruct (verify 2200 demo_anchor_env toy_token demo_verifier) as [r v'] eqn:E.
  pose proof demo_verified as Hr. rewrite E in Hr. cbn [fst] in Hr. subst r.
  exists v'. split; [reflexivity|].
  destruct (bot_token_sound 2200 demo_anchor_env toy_token demo_verifier demo_claims v' E)
    as (h & kid & a & key & body & bf & _ & _ & _ & _ & _ & _ & _ & _ & _ & _ & Hu).
  apply (Hu demo_url eq_refl).
Defined.

(** A library that keeps to its laws may accept a token that has no audience,
    and then so does the verifier: it does not ask for the claim. *)
Theorem audience_is_not_required :
  (verify 2200 demo_anchor_env toy_token demo_verifier).1 = Ok demo_claims
  ∧ ∃ body, payload toy_token = Some body ∧ value_get §"aud" body = None.
Proof.
  split; [apply demo_verified|]. exists (demo_body demo_url). split; vm_compute; reflexivity.
Qed.
End Demo.
