(* ===== verification/GoogleChatMapper.v ===== *)
(** * GoogleChatMapper: a surface as a Google Chat message
    (crates/triton-chat-googlechat/src/surface_mapper.rs, table_card.rs)

    The text of a message with its byte limit, the two renderings of Markdown
    (Chat text and card HTML), the cards with their signed controls, the answer
    with tables as card sections.  The patterns are those of [EmailMapper].
    Where the source slices a string at a fixed byte, which panics inside a
    character, the definition has [None] for the panic. *)

From Stdlib Require Import SpecFloat.
From S2P Require Import Prelude F64 Json A2ui A2uiText Correlation TelegramMapper Surface EmailMapper.

(** ** Chrome *)

Inductive LogoStyle := Avatar | Banner.
#[export] Instance LogoStyle_eq_dec : EqDecision LogoStyle.
Proof. solve_decision. Defined.

Record CardChrome := {
  cc_title : option str;
  cc_logo_url : option str;
  cc_brand_color : option str;
  cc_logo_style : LogoStyle;
}.
Definition default_chrome : CardChrome :=
  {| cc_title := None; cc_logo_url := None; cc_brand_color := None; cc_logo_style := Avatar |}.

(** [filter(|s| !s.is_empty())] *)
Definition nonempty (o : option str) : option str :=
  s ← o; if is_empty s then None else Some s.

Definition from_get_theme (res : Value) : CardChrome :=
  let get k := nonempty (get_str k res) in
  {| cc_title := get §"title"; cc_logo_url := get §"logo_url"; cc_brand_color := get §"brand_color";
     cc_logo_style :=
       if bool_decide (get_str §"logo_style" res = Some §"banner") then Banner else Avatar |}.

Definition SURFACE : SurfaceProfile :=
  {| sp_channel := §"googlechat"; sp_markdown := Markdown.Basic; sp_tables := Tables.Native;
     sp_buttons := true; sp_max_buttons := None; sp_charts := Charts.Image; sp_images := true;
     sp_max_text_bytes := Some (Z.to_nat 32000); sp_streaming := true; sp_subject_line := false;
     sp_guidance := §"Google Chat: concise text with basic emphasis. Tables become cards (keep them to about 4 columns); buttons and chart images work." |}.
Definition GOOGLE_CHAT_TEXT_MAX_BYTES : nat := default 0 (text_cap SURFACE).
Definition TRUNCATION_SENTINEL : str :=
  nl ++ nl ++ §"[truncated — content exceeded Google Chat's 32,000-byte limit]".

Record GChatMessage := {
  gm_text : str;
  gm_deferred_buttons : nat;
  gm_deferred_selections : nat;
  gm_deferred_forms : nat;
  gm_deferred_dashboards : nat;
  gm_truncated : bool;
}.

(** ** Markdown as Chat text *)

Definition escape_underscore (s : str) : str := replace_char "_" §"\_" s.

(** The link pattern with [f text url] for a match. *)
Definition link_as (f : str → str → str) (s : str) : option (str * str) :=
  x ← LINK s; Some (f x.1.1 x.1.2, x.2).
Definition starred (m : str → option (str * str)) (s : str) : option (str * str) :=
  x ← m s; Some (§"*" ++ x.1 ++ §"*", x.2).

(** The two groups of the bullet pattern: indent and text. *)
Definition INDENTED_BULLET (s : str) : option (str * str) :=
  t ← BULLET s; Some (take (length s - length (trim_start s)) s, t).

Definition chat_block (raw : str) : str :=
  match HEADER raw with
  | Some t => §"*" ++ trim_end t ++ §"*"
  | None =>
      match INDENTED_BULLET raw with
      | Some (indent, t) => indent ++ §"- " ++ t
      | None => raw
      end
  end.

Definition chat_line (raw : str) : str :=
  let line := rewrite_all (link_as (λ text url, §"<" ++ url ++ §"|" ++ text ++ §">"))
                (chat_block raw) in
  let line := rewrite_all (starred BOLD_STAR) line in
  rewrite_all (starred BOLD_UNDER) line.

Definition to_google_chat (md : str) : str := join nl (chat_line <$> lines md).
Definition chat_text (md : str) : str := to_google_chat md.

(** ** Markdown as card HTML *)

Definition html_escape (s : str) : str :=
  replace_char ">" §"&gt;" (replace_char "<" §"&lt;" (replace_char "&" §"&amp;" s)).

Definition code_font (s : str) : str :=
  §"<font " ++ attr §"color" §"#0b57d0" ++ §">" ++ s ++ §"</font>".

(** The italic pattern from its first mark [c] on: what is inside (no mark, no
    line feed, no white space first), the white space or the end after the
    second mark, the rest. *)
Definition slanted (c : ascii) (s : str) : option (str * str * str) :=
  rest ← strip_prefix [c] s;
  let inner := EmailMapper.take_while
                 (λ a, negb (bool_decide (a = c)) && negb (bool_decide (nl = [a]))) rest in
  rest ← strip_prefix [c] (drop (length inner) rest);
  if is_empty inner || negb (ws_len inner =? 0)%nat then None
  else if is_empty rest then Some (inner, [], [])
  else if (ws_len rest =? 0)%nat then None
  else Some (inner, take (ws_len rest) rest, drop (ws_len rest) rest).

(** The same after the start of the text or white space. *)
Definition slanted_after (c : ascii) (at_start : bool) (s : str) : option (str * str * str * str) :=
  match (if at_start then slanted c s else None) with
  | Some (i, g3, rest) => Some ([], i, g3, rest)
  | None =>
      if (ws_len s =? 0)%nat then None
      else x ← slanted c (drop (ws_len s) s); Some (take (ws_len s) s, x.1.1, x.1.2, x.2)
  end.

(** [replace_all] with [$1<i>$2</i>$3]; a match starts at the start of the text
    or with white space, and takes the white space after it too. *)
Fixpoint italics (c : ascii) (fuel : nat) (at_start : bool) (s : str) : str :=
  match fuel, s with
  | S fuel, a :: r =>
      match slanted_after c at_start s with
      | Some (g1, i, g3, rest) =>
          g1 ++ §"<i>" ++ i ++ §"</i>" ++ g3 ++ italics c fuel false rest
      | None => a :: italics c fuel false r
      end
  | _, _ => s
  end.
Definition italicize (c : ascii) (s : str) : str := italics c (length s) true s.

Definition format_inline (s : str) : str :=
  let with_code := rewrite_all (λ s, x ← CODE s; Some (code_font x.1, x.2)) (html_escape s) in
  let with_links :=
    rewrite_all (link_as (λ text url, §"<a " ++ attr §"href" url ++ §">" ++ text ++ §"</a>"))
      with_code in
  let with_bold := rewrite_all (in_tag §"b" BOLD_STAR) with_links in
  let with_bold := rewrite_all (in_tag §"b" BOLD_UNDER) with_bold in
  italicize "_" (italicize "*" with_bold).

(** The writer: what is out, and the lines of the fence that is open. *)
Record Html := { h_out : list str; h_code : option (list str) }.

Definition is_fence (raw : str) : bool := starts_with §"```" (trim_start raw).

Definition code_block (ls : list str) : list str :=
  if is_empty ls then [] else [code_font (join §"<br>" ls)].

Definition html_line (m : Html) (raw : str) : Html :=
  let push s := {| h_out := h_out m ++ [s]; h_code := h_code m |} in
  if is_fence raw then
    match h_code m with
    | Some ls => {| h_out := h_out m ++ code_block ls; h_code := None |}
    | None => {| h_out := h_out m; h_code := Some [] |}
    end
  else
    match h_code m with
    | Some ls => {| h_out := h_out m; h_code := Some (ls ++ [html_escape raw]) |}
    | None =>
        if is_empty (trim raw) then
          if negb (is_empty (default [] (last (h_out m)))) then push [] else m
        else
          push match HEADER raw with
               | Some t => §"<b>" ++ format_inline (trim_end t) ++ §"</b>"
               | None =>
                   match INDENTED_BULLET raw with
                   | Some (_, t) => §"• " ++ format_inline t
                   | None => format_inline raw
                   end
               end
    end.

Definition to_card_html (md : str) : str :=
  let m := fold_left html_line (lines md) {| h_out := []; h_code := None |} in
  join §"<br>" (h_out m ++ match h_code m with Some ls => code_block ls | None => [] end).

(** ** The text of a message *)

Record Collected := {
  gc_chunks : list str;
  gc_buttons : nat;
  gc_selections : nat;
  gc_forms : nat;
  gc_dashboards : nat;
}.
Definition gc_nothing : Collected :=
  {| gc_chunks := []; gc_buttons := 0; gc_selections := 0; gc_forms := 0; gc_dashboards := 0 |}.
Definition gc_push (chunk : str) (a : Collected) : Collected :=
  {| gc_chunks := gc_chunks a ++ [chunk]; gc_buttons := gc_buttons a;
     gc_selections := gc_selections a; gc_forms := gc_forms a; gc_dashboards := gc_dashboards a |}.
Definition gc_defer (b s f d : nat) (a : Collected) : Collected :=
  {| gc_chunks := gc_chunks a; gc_buttons := gc_buttons a + b; gc_selections := gc_selections a + s;
     gc_forms := gc_forms a + f; gc_dashboards := gc_dashboards a + d |}.

Section Render.
Context `{UrlParse} (cell : HttpHosts).
(** [doc_dialog_enabled()] *)
Variable doc_dialog : bool.

Definition source_text (i : SourceItem) : str :=
  if is_allowed_link cell (s_resource i)
  then §"<" ++ s_resource i ++ §"|" ++ s_label i ++ §">" else s_label i.

Definition gchat_component (a : Collected) (c : Component) : Collected :=
  if is_conversation c then
    match degrade cell c with Some t => gc_push t a | None => a end
  else
    match c with
    | Component.Text value _ => gc_push (to_google_chat value) a
    | Component.Report _ _ _ _ _ => a
    | Component.Sources items =>
        if doc_dialog || is_empty items then a
        else gc_push (§"Sources: " ++ join §" · " (source_text <$> items)) a
    | Component.Narration text => gc_push (§"_" ++ escape_underscore text ++ §"_") a
    | Component.Diff ls => gc_push (§"```" ++ nl ++ diff_to_text ls ++ nl ++ §"```") a
    | Component.Button _ _ _ _ _ _ => gc_defer 1 0 0 0 a
    | Component.Selection _ _ _ _ _ _ => gc_defer 0 1 0 0 a
    | Component.Form _ _ _ _ _ _ => gc_defer 0 0 1 0 a
    | Component.Dashboard _ _ => gc_defer 0 0 0 1 a
    | _ => a
    end.

(** [chunks[0]] exists when the text is over the cap. *)
Definition gchat_fit (chunks : list str) : str * bool :=
  let joined := join (nl ++ nl) chunks in
  if (length joined <=? GOOGLE_CHAT_TEXT_MAX_BYTES)%nat then (joined, false)
  else
    let budget := GOOGLE_CHAT_TEXT_MAX_BYTES - length TRUNCATION_SENTINEL in
    let body :=
      match accepted_prefix budget 0 true chunks with
      | [] => match chunks with
              | first :: _ => take (floor_char_boundary first (Nat.min budget (length first))) first
              | [] => []
              end
      | accepted => join (nl ++ nl) accepted
      end in
    (body ++ TRUNCATION_SENTINEL, true).

Definition gchat_render (s : Surface) : result GChatMessage RenderError :=
  let a := fold_left gchat_component (components s) gc_nothing in
  if is_empty (gc_chunks a) then Err EmptyAfterRender
  else
    let '(text, truncated) := gchat_fit (gc_chunks a) in
    Ok {| gm_text := text; gm_deferred_buttons := gc_buttons a;
          gm_deferred_selections := gc_selections a; gm_deferred_forms := gc_forms a;
          gm_deferred_dashboards := gc_dashboards a; gm_truncated := truncated |}.

Context `{SerdeA2ui}.

Definition gchat_try_render (res : Value) : option (result GChatMessage RenderError) :=
  match extract_surface cell res with Ok s => Some (gchat_render s) | Err _ => None end.

Definition text_of (c : Component) : option str :=
  match c with Component.Text value _ => Some value | _ => None end.
Definition is_source_line (c : Component) : bool :=
  match c with Component.Sources items => negb (is_empty items) | _ => false end.

Definition answer_markdown (res : Value) : option str :=
  match extract_surface cell res with
  | Err _ => None
  | Ok s =>
      if existsb is_source_line (components s) && negb doc_dialog then None
      else match omap text_of (components s) with
           | [] => None
           | texts => Some (join (nl ++ nl) texts)
           end
  end.
End Render.

(** [TRITON_GOOGLE_CHAT_DOC_DIALOG], read once. *)
Definition doc_dialog_enabled (env : option str) : bool :=
  match env with
  | Some v => existsb (λ x, bool_decide (trim v = x)) [§"1"; §"true"; §"TRUE"; §"yes"; §"on"]
  | None => false
  end.

(** ** Envelopes *)

Definition wrap_message (message : Value) (workspace_addon : bool) : Value :=
  if workspace_addon then
    json_object [(§"hostAppDataAction",
      json_object [(§"chatDataAction",
        json_object [(§"createMessageAction", json_object [(§"message", message)])])])]
  else message.

Definition text_reply_body (text : str) (workspace_addon : bool) : Value :=
  wrap_message (json_object [(§"text", js text)]) workspace_addon.

Definition build_inline_response (msg : GChatMessage) (workspace_addon : bool) : Value :=
  text_reply_body (gm_text msg) workspace_addon.

Definition dialog_response (card : Value) (workspace_addon : bool) : Value :=
  if workspace_addon then
    json_object [(§"action",
      json_object [(§"navigations", Value.Array [json_object [(§"pushCard", card)]])])]
  else
    json_object [(§"actionResponse",
      json_object [(§"type", js §"DIALOG");
                   (§"dialogAction",
                    json_object [(§"dialog", json_object [(§"body", card)])])])].

(** ** Controls *)

Definition BUTTON_ACTION_FUNCTION : str := §"agent_action".
Definition BUTTON_TOKEN_PARAM : str := §"ct".
Definition BUTTON_LABEL_PARAM : str := §"lbl".
Definition OPEN_DOC_TOOL : str := §"__open_doc".

Record FormFieldSpec := { ff_name : str; ff_label : str; ff_boolean : bool }.

Module InteractiveSpec.
Inductive t :=
  | Button (label tool : str) (args : Value)
  | Selection (prompt : str) (options : list (str * str)) (tool args_key : str)
  | Form (title submit_label : str) (fields : list FormFieldSpec) (tool : str)
  | OpenDoc (label skill id : str).
End InteractiveSpec.
Abbreviation InteractiveSpec := InteractiveSpec.t.

Definition spec_tool (s : InteractiveSpec) : str :=
  match s with
  | InteractiveSpec.Button _ tool _ | InteractiveSpec.Selection _ _ tool _
  | InteractiveSpec.Form _ _ _ tool => tool
  | InteractiveSpec.OpenDoc _ _ _ => OPEN_DOC_TOOL
  end.

Definition base_args (s : InteractiveSpec) : Value :=
  match s with
  | InteractiveSpec.Button _ _ args => args
  | InteractiveSpec.OpenDoc _ skill id => json_object [(§"skill", js skill); (§"id", js id)]
  | _ => json_object []
  end.

(** [split_once] on a string. *)
Definition split_once_str (sep s : str) : option (str * str) :=
  n ← find_sub sep s; Some (take n s, drop (n + length sep) s).

Definition source_skill_id (i : SourceItem) : option (str * str) :=
  x ← split_once_str §" · " (s_label i);
  let skill := trim x.1 in
  let id := trim x.2 in
  if is_empty skill || is_empty id then None else Some (skill, id).

Definition spec_of (c : Component) : option InteractiveSpec :=
  match c with
  | Component.Button label tool args _ _ _ => Some (InteractiveSpec.Button label tool args)
  | Component.Selection prompt options tool args_key _ _ =>
      Some (InteractiveSpec.Selection prompt ((λ o, (o_label o, o_value o)) <$> options) tool args_key)
  | Component.Form title fields submit_label tool _ _ =>
      Some (InteractiveSpec.Form title submit_label
              ((λ f, {| ff_name := f_name f; ff_label := f_label f;
                        ff_boolean := match f_kind f with KBoolean => true | _ => false end |})
                 <$> fields) tool)
  | _ => None
  end.

Section Lift.
Context `{UrlParse, SerdeA2ui} (cell : HttpHosts).
Variable doc_dialog : bool.

Definition doc_spec (i : SourceItem) : option InteractiveSpec :=
  if is_allowed_link cell (s_resource i)
  then x ← source_skill_id i; Some (InteractiveSpec.OpenDoc (s_label i) x.1 x.2) else None.
Definition doc_specs (c : Component) : list InteractiveSpec :=
  match c with Component.Sources items => omap doc_spec items | _ => [] end.

Definition interactive_from_result (res : Value) : list InteractiveSpec :=
  match extract_surface cell res with
  | Err _ => []
  | Ok s =>
      omap spec_of (components s)
        ++ (if doc_dialog then concat (doc_specs <$> components s) else [])
  end.

(** A dashboard: its title, and the label and value of each tile. *)
Definition DashboardData : Type := str * list (str * str).

Definition dashboard_of (c : Component) : option DashboardData :=
  match c with
  | Component.Dashboard title tiles => Some (title, (λ t, (t_label t, t_value t)) <$> tiles)
  | _ => None
  end.
Definition dashboard_from_result (res : Value) : option DashboardData :=
  match extract_surface cell res with
  | Ok s => head (omap dashboard_of (components s)) | Err _ => None end.

Definition report_of (c : Component) : option (str * Value) :=
  match c with Component.Report report_id args _ _ _ => Some (report_id, args) | _ => None end.
Definition report_from_result (res : Value) : option (str * Value) :=
  match extract_surface cell res with
  | Ok s => head (omap report_of (components s)) | Err _ => None end.
End Lift.

(** ** Colours *)

Definition hex_digit (c : ascii) : Z :=
  let b := Z.of_N (byte c) in
  if is_ascii_digit c then (b - 48)%Z else if in_range 97 102 (byte c) then (b - 87)%Z else (b - 55)%Z.

(** [u8::from_str_radix] of two bytes in base 16: a plus may stand first. *)
Definition hex_pair (p : str) : option Z :=
  let ds := default p (strip_plus p) in
  if is_empty ds || negb (forallb is_ascii_hexdigit ds) then None
  else Some (fold_left (λ n c, 16 * n + hex_digit c)%Z ds 0%Z).

(** [n as f64 / 255.0] *)
Definition channel (n : Z) : Value :=
  Value.Number (Value.Float (f64_encode (f64_div (f64_of_int n) (f64_of_int 255)))).

(** [&h[i..i + 2]], [None] when it panics, and its value. *)
Definition slice_pair (h : str) (i : nat) : option (option Z) :=
  if is_char_boundary h i && is_char_boundary h (i + 2)
  then Some (hex_pair (take 2 (drop i h))) else None.

(** The outer [None] is the panic. *)
Definition hex_to_color (hex : str) : option (option Value) :=
  let h := trim_start_char "#" (trim hex) in
  if negb (length h =? 6)%nat then Some None
  else
    r ← slice_pair h 0;
    match r with
    | None => Some None
    | Some r =>
        g ← slice_pair h 2;
        match g with
        | None => Some None
        | Some g =>
            b ← slice_pair h 4;
            match b with
            | None => Some None
            | Some b =>
                Some (Some (json_object [(§"red", channel r); (§"green", channel g);
                  (§"blue", channel b);
                  (§"alpha", Value.Number (Value.Float (f64_encode f64_one)))]))
            end
        end
    end.

(** ** Cards *)

Definition card_header (theme : CardChrome) : option Value :=
  let header :=
    match nonempty (cc_title theme) with Some t => [(§"title", js t)] | None => [] end
    ++ match (if decide (cc_logo_style theme = Avatar) then nonempty (cc_logo_url theme) else None) with
       | Some logo => [(§"imageUrl", js logo); (§"imageType", js §"CIRCLE")]
       | None => []
       end in
  if is_empty header then None else Some (json_object header).

Definition image_widget (url alt : str) : Value :=
  json_object [(§"image", json_object [(§"imageUrl", js url); (§"altText", js alt)])].
Definition section_of (widgets : list Value) : Value :=
  json_object [(§"widgets", Value.Array widgets)].

Definition logo_banner_section (theme : CardChrome) : option Value :=
  if decide (cc_logo_style theme = Banner) then
    logo ← nonempty (cc_logo_url theme);
    Some (section_of [image_widget logo (default §"logo" (cc_title theme))])
  else None.

(** [{"key": k, "value": v}] *)
Definition parameter (k v : str) : Value := json_object [(§"key", js k); (§"value", js v)].

(** A button with what its click carries; [interaction] for a dialog. *)
Definition click_button (interaction : list (str * Value)) (label token : str) (theme : CardChrome)
    (click_function : str) : option Value :=
  color ← match cc_brand_color theme with Some c => hex_to_color c | None => Some None end;
  Some (json_object
    ([(§"text", js label);
      (§"type", js (if bool_decide (is_Some color) then §"FILLED" else §"FILLED_TONAL"));
      (§"onClick", json_object [(§"action", json_object
         ([(§"function", js click_function);
           (§"parameters", Value.Array [parameter BUTTON_TOKEN_PARAM token;
                                        parameter BUTTON_LABEL_PARAM label])] ++ interaction))])]
     ++ opt §"color" id color)).
Definition action_button : str → str → CardChrome → str → option Value := click_button [].
Definition dialog_button : str → str → CardChrome → str → option Value :=
  click_button [(§"interaction", js §"OPEN_DIALOG")].

Definition button_list (buttons : list Value) : Value :=
  json_object [(§"buttonList", json_object [(§"buttons", Value.Array buttons)])].

Definition dashboard_section (d : DashboardData) (image_url : option str) : Value :=
  let widget :=
    match image_url with
    | Some url => image_widget url d.1
    | None =>
        json_object [(§"grid", json_object [(§"columnCount", Value.Number (Value.Int 2));
          (§"items", Value.Array
             ((λ t, json_object [(§"title", js t.2); (§"subtitle", js t.1)]) <$> d.2))])]
    end in
  json_object ((§"widgets", Value.Array [widget])
                 :: if is_empty d.1 then [] else [(§"header", js d.1)]).

Definition dropdown (args_key prompt : str) (options : list (str * str)) : Value :=
  json_object [(§"selectionInput",
    json_object [(§"name", js args_key); (§"label", js prompt); (§"type", js §"DROPDOWN");
                 (§"items", Value.Array
                    ((λ o, json_object [(§"text", js o.1); (§"value", js o.2)]) <$> options))])].

Definition form_field (f : FormFieldSpec) : Value :=
  if ff_boolean f then
    json_object [(§"selectionInput",
      json_object [(§"name", js (ff_name f)); (§"label", js (ff_label f)); (§"type", js §"SWITCH");
                   (§"items", Value.Array
                      [json_object [(§"text", js (ff_label f)); (§"value", js §"true")]])])]
  else json_object [(§"textInput",
         json_object [(§"name", js (ff_name f)); (§"label", js (ff_label f))])].

(** The pending buttons as a row. *)
Definition flush (pending : list Value) : list Value :=
  if is_empty pending then [] else [button_list pending].

(** The loop: the widgets so far and the buttons not yet in a row. *)
Fixpoint card_widgets (theme : CardChrome) (click_function : str)
    (signed : list (InteractiveSpec * str)) (widgets pending : list Value) : option (list Value) :=
  match signed with
  | [] => Some (widgets ++ flush pending)
  | (spec, token) :: signed =>
      let button label := action_button label token theme click_function in
      match spec with
      | InteractiveSpec.Button label _ _ =>
          b ← button label; card_widgets theme click_function signed widgets (pending ++ [b])
      | InteractiveSpec.OpenDoc label _ _ =>
          b ← dialog_button (§"Open: " ++ label) token theme click_function;
          card_widgets theme click_function signed widgets (pending ++ [b])
      | InteractiveSpec.Selection prompt options _ args_key =>
          b ← button §"Submit";
          card_widgets theme click_function signed
            (widgets ++ flush pending ++ [dropdown args_key prompt options; button_list [b]]) []
      | InteractiveSpec.Form title submit_label fields _ =>
          b ← button (if is_empty submit_label then §"Submit" else submit_label);
          card_widgets theme click_function signed
            (widgets ++ flush pending
               ++ (if is_empty title then []
                   else [json_object [(§"decoratedText", json_object [(§"text", js title)])]])
               ++ (form_field <$> fields) ++ [button_list [b]]) []
      end
  end.

(** A card of sections under its id, with the text beside it. *)
Definition card_message (card_id text : str) (theme : CardChrome) (sections : list Value) : Value :=
  let card := json_object ((§"sections", Value.Array sections) :: opt §"header" id (card_header theme)) in
  json_object
    ((§"cardsV2", Value.Array [json_object [(§"cardId", js card_id); (§"card", card)]])
       :: if is_empty text then [] else [(§"text", js text)]).

Definition banner (theme : CardChrome) : list Value :=
  match logo_banner_section theme with Some b => [b] | None => [] end.

Definition build_interactive_card_with_answer (text : str) (answer_sections : list Value)
    (dashboard : option DashboardData) (dashboard_image_url : option str)
    (signed : list (InteractiveSpec * str)) (workspace_addon : bool) (theme : CardChrome)
    (click_endpoint : option str) : option Value :=
  widgets ← card_widgets theme (default BUTTON_ACTION_FUNCTION click_endpoint) signed [] [];
  let sections :=
    banner theme ++ answer_sections
    ++ match dashboard with Some d => [dashboard_section d dashboard_image_url] | None => [] end
    ++ (if is_empty widgets then [] else [section_of widgets]) in
  Some (wrap_message (card_message §"agent-actions" text theme sections) workspace_addon).

Definition build_interactive_card (text : str) (dashboard : option DashboardData)
    (dashboard_image_url : option str) (signed : list (InteractiveSpec * str))
    (workspace_addon : bool) (theme : CardChrome) (click_endpoint : option str) : option Value :=
  build_interactive_card_with_answer text [] dashboard dashboard_image_url signed workspace_addon
    theme click_endpoint.

Definition build_agent_chooser (prompt : str) (buttons : list (str * str)) (workspace_addon : bool)
    (theme : CardChrome) (click_endpoint : option str) : option Value :=
  btns ← mapM (λ x, action_button x.1 x.2 theme (default BUTTON_ACTION_FUNCTION click_endpoint))
           buttons;
  Some (wrap_message (card_message §"agent-chooser" prompt theme
                        (banner theme ++ [section_of [button_list btns]])) workspace_addon).

Definition image_reply_card (text image_url : str) (workspace_addon : bool) (theme : CardChrome)
    : Value :=
  wrap_message (card_message §"agent-report" text theme
                  (banner theme ++ [section_of [image_widget image_url §"chart"]])) workspace_addon.

(** ** The document dialog *)

Definition text_paragraph (text : str) : Value :=
  json_object [(§"textParagraph", json_object [(§"text", js text)])].

Definition fact_widget (f : Value) : option Value :=
  k ← get_str §"key" f;
  v ← get_str §"value" f;
  Some (json_object [(§"decoratedText",
    json_object [(§"topLabel", js k); (§"text", js v); (§"wrapText", Value.Bool true)])]).

Definition event_line (e : Value) : str :=
  let get k := default [] (get_str k e) in
  let meta := join §" · " (filter (λ s, is_empty s = false) [get §"at"; get §"source"]) in
  if is_empty meta then §"• " ++ html_escape (get §"title")
  else §"• <b>" ++ html_escape (get §"title") ++ §"</b> — " ++ html_escape meta.

Definition get_array (k : str) (v : Value) : option (list Value) :=
  match value_get k v with Some (Value.Array l) => Some l | _ => None end.

Definition instance_widgets (inst : Value) : list Value :=
  match get_array §"facts" inst with Some facts => omap fact_widget facts | None => [] end
  ++ match get_str §"markdown" inst with
     | Some md => if is_empty (trim md) then [] else [text_paragraph (to_card_html md)]
     | None => []
     end
  ++ match get_array §"events" inst with
     | Some [] | None => []
     | Some events =>
         [text_paragraph (§"<b>Activity</b><br>" ++ join §"<br>" (event_line <$> events))]
     end.

(** The first of an object's values, in key order. *)
Definition first_value (v : Value) : option Value :=
  match v with Value.Object ((_, x) :: _) => Some x | _ => None end.

Definition build_document_dialog (structured : Value) : Value :=
  let inst := m ← value_get §"instances" structured; first_value m in
  let title :=
    match (i ← inst; get_str §"id" i) with
    | Some t => t
    | None => default §"Document" (d ← value_get §"document" structured; get_str §"id" d)
    end in
  let widgets := match inst with Some i => instance_widgets i | None => [] end in
  let widgets :=
    if is_empty widgets then [text_paragraph §"This document is unavailable right now."]
    else widgets in
  json_object [(§"sections",
    Value.Array [json_object [(§"header", js title); (§"widgets", Value.Array widgets)]])].

(** ** Tables as card sections (table_card.rs) *)

Definition MAX_TABLE_ROWS : nat := 25.
Definition WIDE_TABLE_COLUMNS : nat := 4.
Definition DETAIL_COLOR : str := §"#80868b".

Record RichAnswer := { ra_lead_md : str; ra_sections : list Value }.

Definition is_table_row (line : str) : bool :=
  let t := trim line in starts_with §"|" t && (1 <? length t)%nat.

Definition split_row (line : str) : list str :=
  let t := trim_start_char "|" (trim line) in
  let t := default t (strip_suffix §"|" t) in
  trim <$> split_on "|" t.

Definition trim_char (c : ascii) (s : str) : str := trim_end_char c (trim_start_char c s).

Definition is_separator (line : str) : bool :=
  is_table_row line
  && forallb (λ c, let c := trim_char ":" c in
                   negb (is_empty c) && forallb (λ x, bool_decide (x = "-"%char)) c)
       (split_row line).

(** A table starts at the first of these lines. *)
Definition starts_table (ls : list str) : bool :=
  match ls with
  | line :: next :: _ => is_table_row line && is_separator next
  | _ => false
  end.

Definition heading_text (line : str) : option str :=
  let t := trim_start line in
  let level := length (EmailMapper.take_while (λ c, bool_decide (c = "#"%char)) t) in
  if (1 <=? level)%nat && (level <=? 6)%nat && starts_with §" " (drop level t)
  then Some (drop level t) else None.

(** [t] without its white space is three or more of one mark. *)
Definition is_rule (t : str) : bool :=
  let c := concat (split_whitespace t) in
  (3 <=? length c)%nat
  && existsb (λ m, forallb (λ x, bool_decide (x = m)) c) ["-"%char; "*"%char; "_"%char].

(** The inline-code tags, each from its opening to the next closing mark. *)
Fixpoint drop_tags (fuel : nat) (s : str) : str :=
  match fuel with
  | 0 => s
  | S fuel =>
      match find_sub §"(`" s with
      | None => s
      | Some start =>
          match find_sub §"`)" (drop start s) with
          | None => s
          | Some end_ => drop_tags fuel (take start s ++ drop (start + end_ + 2) s)
          end
      end
  end.

Definition str_replace (pat rep s : str) : str := replace_all (length s) pat rep s.

Record Builder := { b_sections : list Value; b_header : option str; b_widgets : list Value }.
Definition builder_default : Builder := {| b_sections := []; b_header := None; b_widgets := [] |}.

Definition b_close (b : Builder) : Builder :=
  if is_empty (b_widgets b) && bool_decide (b_header b = None) then b
  else
    let widgets := if is_empty (b_widgets b) then [text_paragraph []] else b_widgets b in
    {| b_sections := b_sections b
         ++ [json_object ((§"widgets", Value.Array widgets) :: opt §"header" js (b_header b))];
       b_header := None; b_widgets := [] |}.

Definition b_open (header : option str) (b : Builder) : Builder :=
  let b := b_close b in
  {| b_sections := b_sections b; b_header := nonempty header; b_widgets := b_widgets b |}.

Definition b_push (ws : list Value) (b : Builder) : Builder :=
  {| b_sections := b_sections b; b_header := b_header b; b_widgets := b_widgets b ++ ws |}.

Definition b_paragraph (para : list str) (b : Builder) : Builder :=
  if is_empty para then b else b_push [text_paragraph (to_card_html (join nl para))] b.

Definition table_row_widget (left right : str) : Value :=
  if is_empty right then text_paragraph left
  else
    let item style align text :=
      json_object [(§"horizontalSizeStyle", js style); (§"horizontalAlignment", js align);
                   (§"verticalAlignment", js §"CENTER");
                   (§"widgets", Value.Array [text_paragraph text])] in
    json_object [(§"columns", json_object [(§"columnItems",
      Value.Array [item §"FILL_AVAILABLE_SPACE" §"START" left;
                   item §"FILL_MINIMUM_SPACE" §"END" right])])].

Definition bold_cell (s : str) : str := if is_empty s then s else §"<b>" ++ s ++ §"</b>".
Definition cell_html (cells : list str) (n : nat) : str :=
  default [] (to_card_html <$> cells !! n).
Definition rest_cells (cells : list str) : str :=
  join §" · " (filter (λ c, is_empty c = false) (to_card_html <$> drop 1 cells)).

(** The third cell and those after it, each under its header. *)
Definition details (header cells : list str) : str :=
  join §" · " (omap (λ '(n, c),
    let v := to_card_html c in
    if is_empty v then None
    else let h := cell_html header n in
         Some (if is_empty h then v else h ++ §": " ++ v))
    (drop 2 (imap pair cells))).

Definition body_row (header cells : list str) : Value :=
  if (length header <? WIDE_TABLE_COLUMNS)%nat
  then table_row_widget (cell_html cells 0) (rest_cells cells)
  else
    let d := details header cells in
    let left := cell_html cells 0
      ++ if is_empty d then []
         else §"<br><font " ++ attr §"color" DETAIL_COLOR ++ §">" ++ d ++ §"</font>" in
    table_row_widget left (cell_html cells 1).

Definition b_table (header : list str) (rows : list (list str)) (b : Builder) : Builder :=
  let header_right :=
    if (length header <? WIDE_TABLE_COLUMNS)%nat then rest_cells header else cell_html header 1 in
  b_push
    ([table_row_widget (bold_cell (cell_html header 0)) (bold_cell header_right);
      json_object [(§"divider", json_object [])]]
     ++ (body_row header <$> take MAX_TABLE_ROWS rows)
     ++ (if (MAX_TABLE_ROWS <? length rows)%nat then
           [text_paragraph (§"<i>… " ++ dec (Z.of_nat (length rows - MAX_TABLE_ROWS))
                              ++ §" more rows in the report</i>")]
         else [])) b.

(** The rows a table goes on with, and what follows them. *)
Fixpoint span_rows (ls : list str) : list (list str) * list str :=
  match ls with
  | line :: rest =>
      if is_table_row line
      then let '(rows, rest) := span_rows rest in (split_row line :: rows, rest)
      else ([], ls)
  | [] => ([], [])
  end.

Section Rich.
(** [char::is_alphanumeric] of an encoded character that is not ASCII. *)
Variable alphanumeric : str → bool.

(** The bytes of the first character. *)
Definition char_bytes (s : str) : nat :=
  match s with
  | [] => 0
  | _ :: r => S (length (EmailMapper.take_while is_continuation r))
  end.

Definition char_alphanumeric (ch : str) : bool :=
  match ch with [c] => is_ascii_alphanumeric c | _ => alphanumeric ch end.

Fixpoint trim_start_symbols (fuel : nat) (s : str) : str :=
  match fuel with
  | 0 => s
  | S fuel =>
      if is_empty s || char_alphanumeric (take (char_bytes s) s) then s
      else trim_start_symbols fuel (drop (char_bytes s) s)
  end.

Definition clean_heading (raw : str) : str :=
  let s := trim (trim_end_char "#" (trim raw)) in
  let s := drop_tags (length s) s in
  let s := str_replace §"**" [] (str_replace §"`" [] s) in
  join §" " (split_whitespace (trim_start_symbols (length s) s)).

Definition block_start (ls : list str) : bool :=
  match ls with
  | line :: _ => bool_decide (is_Some (heading_text line)) || is_rule (trim line) || starts_table ls
  | [] => false
  end.

(** The lead: the lines before the first block. *)
Fixpoint split_lead (ls : list str) : list str * list str :=
  match ls with
  | [] => ([], [])
  | line :: rest =>
      if block_start ls then ([], ls)
      else let '(lead, rest) := split_lead rest in (line :: lead, rest)
  end.

(** The loop after the lead; each round takes a line or a whole table. *)
Fixpoint rich_loop (fuel : nat) (ls para : list str) (b : Builder) : Builder :=
  match fuel, ls with
  | S fuel, line :: rest =>
      let t := trim line in
      if is_empty t then rich_loop fuel rest [] (b_paragraph para b)
      else
        match heading_text line with
        | Some h => rich_loop fuel rest [] (b_open (Some (clean_heading h)) (b_paragraph para b))
        | None =>
            if is_rule t then rich_loop fuel rest [] (b_open None (b_paragraph para b))
            else if starts_table ls then
              let '(rows, rest) := span_rows (drop 1 rest) in
              rich_loop fuel rest [] (b_table (split_row line) rows (b_paragraph para b))
            else rich_loop fuel rest (para ++ [line]) b
        end
  | _, _ => b_paragraph para b
  end.

(** Some line starts a table. *)
Fixpoint has_table (ls : list str) : bool :=
  match ls with _ :: rest => starts_table ls || has_table rest | [] => false end.

Definition rich_answer (md : str) : option RichAnswer :=
  let ls := lines md in
  if negb (has_table ls) then None
  else
    let '(lead, rest) := split_lead ls in
    Some {| ra_lead_md := trim (join nl lead);
            ra_sections := b_sections (b_close (rich_loop (length rest) rest [] builder_default)) |}.
End Rich.

(** * The text fits *)

Lemma gchat_cap : GOOGLE_CHAT_TEXT_MAX_BYTES = Z.to_nat 32000.
Proof. reflexivity. Qed.
#[local] Opaque GOOGLE_CHAT_TEXT_MAX_BYTES.

Lemma gchat_fit_bound chunks : length (gchat_fit chunks).1 ≤ GOOGLE_CHAT_TEXT_MAX_BYTES.
Proof.
  unfold gchat_fit. destruct (_ <=? _)%nat eqn:E; bool_facts; [done|]. cbn [fst].
  assert (length TRUNCATION_SENTINEL ≤ GOOGLE_CHAT_TEXT_MAX_BYTES) as Hs.
  { rewrite gchat_cap. vm_compute length. lia. }
  set (budget := GOOGLE_CHAT_TEXT_MAX_BYTES - length TRUNCATION_SENTINEL) in *.
  rewrite length_app. pose proof (accepted_bound budget chunks) as Ha.
  destruct (accepted_prefix _ _ _ _) as [|c l].
  - destruct chunks as [|first rest]; [cbn; lia|]. rewrite length_take.
    pose proof (floor_char_boundary_le first (Nat.min budget (length first))). lia.
  - lia.
Qed.

(** The text of a rendered surface is within the platform's limit. *)
Theorem gchat_text_fits `{UrlParse} cell doc_dialog s m :
  gchat_render cell doc_dialog s = Ok m → length (gm_text m) ≤ Z.to_nat 32000.
Proof.
  unfold gchat_render. destruct (is_empty _); [done|].
  set (a := fold_left _ _ _). pose proof (gchat_fit_bound (gc_chunks a)) as Hb.
  destruct (gchat_fit (gc_chunks a)) as [text truncated]. intros [= <-]. cbn in *.
  by rewrite gchat_cap in Hb.
Qed.

(** * The controls of a card *)

(** The tokens a card would send back: the [ct] parameters in it, in order. *)
Fixpoint tokens_in (v : Value) : list str :=
  match v with
  | Value.Array l =>
      (fix go l := match l with [] => [] | x :: l => tokens_in x ++ go l end) l
  | Value.Object m =>
      match get_str §"key" v, get_str §"value" v with
      | Some k, Some t => if decide (k = BUTTON_TOKEN_PARAM) then [t] else []
      | _, _ => (fix go (m : JsonMap) := match m with [] => [] | x :: m => tokens_in x.2 ++ go m end) m
      end
  | _ => []
  end.

Definition tokens_of (l : list Value) : list str := concat (tokens_in <$> l).

Lemma tokens_in_array l : tokens_in (Value.Array l) = tokens_of l.
Proof. unfold tokens_of. cbn. induction l as [|x l IH]; [done|]. cbn. by rewrite IH. Qed.

Lemma tokens_of_app l l' : tokens_of (l ++ l') = tokens_of l ++ tokens_of l'.
Proof. unfold tokens_of. by rewrite fmap_app, concat_app. Qed.

Lemma tokens_of_fmap_nil {A} (f : A → Value) l :
  (∀ x, tokens_in (f x) = []) → tokens_of (f <$> l) = [].
Proof.
  intros Hf. unfold tokens_of. induction l as [|x l IH]; [done|]. cbn. by rewrite Hf, IH.
Qed.

(** An object with one field under a name that is not that of a parameter. *)
Lemma tokens_in_field k v : k ≠ §"key" → tokens_in (json_object [(k, v)]) = tokens_in v.
Proof.
  intros Hk. cbn. rewrite (decide_False (P := §"key" = k)) by congruence. by rewrite app_nil_r.
Qed.

Lemma channel_tokens n : tokens_in (channel n) = [].
Proof. done. Qed.

Lemma color_tokens hex c : hex_to_color hex = Some (Some c) → tokens_in c = [].
Proof.
  unfold hex_to_color. case_match; [done|].
  destruct (slice_pair _ 0) as [[r|]|]; cbn [mbind option_bind]; try done.
  destruct (slice_pair _ 2) as [[g|]|]; cbn [mbind option_bind]; try done.
  destruct (slice_pair _ 4) as [[b|]|]; cbn [mbind option_bind]; try done.
  intros [= <-]. lazy. done.
Qed.

Lemma click_button_tokens dialog label token theme f b :
  click_button (if dialog : bool then [(§"interaction", js §"OPEN_DIALOG")] else []) label token
    theme f = Some b →
  tokens_in b = [token].
Proof.
  unfold click_button. destruct (cc_brand_color theme) as [hex|].
  - destruct (hex_to_color hex) as [[c|]|] eqn:Hc; cbn [mbind option_bind]; intros [= <-].
    + apply color_tokens in Hc. lazy in Hc. destruct dialog; lazy; by rewrite Hc.
    + destruct dialog; reflexivity.
  - cbn [mbind option_bind]. intros [= <-]. destruct dialog; reflexivity.
Qed.

Lemma action_button_tokens label token theme f b :
  action_button label token theme f = Some b → tokens_in b = [token].
Proof. apply (click_button_tokens false). Qed.
Lemma dialog_button_tokens label token theme f b :
  dialog_button label token theme f = Some b → tokens_in b = [token].
Proof. apply (click_button_tokens true). Qed.

Lemma button_list_tokens l : tokens_in (button_list l) = tokens_of l.
Proof.
  unfold button_list. rewrite tokens_in_field by done. rewrite tokens_in_field by done.
  apply tokens_in_array.
Qed.

Lemma flush_tokens pending : tokens_of (flush pending) = tokens_of pending.
Proof.
  destruct pending as [|b pending]; [done|]. unfold flush. cbn [is_empty].
  unfold tokens_of at 1. cbn [fmap list_fmap concat]. by rewrite button_list_tokens, app_nil_r.
Qed.

Lemma dropdown_tokens args_key prompt options : tokens_in (dropdown args_key prompt options) = [].
Proof.
  unfold dropdown. rewrite tokens_in_field by done.
  set (items := _ <$> options).
  assert (tokens_in (Value.Array items) = []) as Hi.
  { rewrite tokens_in_array. by apply tokens_of_fmap_nil. }
  clearbody items. lazy in Hi |- *. by rewrite Hi.
Qed.

Lemma form_field_tokens f : tokens_in (form_field f) = [].
Proof. unfold form_field. destruct (ff_boolean f); reflexivity. Qed.

Lemma card_widgets_tokens theme f signed widgets pending ws :
  card_widgets theme f signed widgets pending = Some ws →
  tokens_of ws = tokens_of widgets ++ tokens_of pending ++ signed.*2.
Proof.
  revert widgets pending. induction signed as [|[spec token] signed IH]; intros widgets pending;
    cbn [card_widgets].
  { intros [= <-]. by rewrite tokens_of_app, flush_tokens, app_nil_r. }
  destruct spec; unfold mbind, option_bind; case_match eqn:Hb; try done; intros Hw%IH;
    rewrite Hw; clear Hw IH.
  - apply action_button_tokens in Hb. rewrite tokens_of_app. unfold tokens_of at 3.
    cbn. rewrite Hb. by rewrite <-app_assoc.
  - apply action_button_tokens in Hb. rewrite !tokens_of_app, flush_tokens.
    unfold tokens_of at 3 4. cbn [fmap list_fmap concat].
    rewrite dropdown_tokens, button_list_tokens. unfold tokens_of at 3. cbn.
    rewrite Hb. cbn. by rewrite <-!app_assoc.
  - apply action_button_tokens in Hb. rewrite !tokens_of_app, flush_tokens.
    rewrite (tokens_of_fmap_nil form_field) by apply form_field_tokens.
    assert (∀ l, tokens_of (if is_empty title then []
      else [json_object [(§"decoratedText", json_object [(§"text", js title)])]]) ++ l = l) as Ht.
    { intros l. by destruct (is_empty title). }
    rewrite Ht. unfold tokens_of at 3. cbn [fmap list_fmap concat app].
    rewrite button_list_tokens. unfold tokens_of at 3. cbn.
    rewrite Hb. cbn. by rewrite <-!app_assoc.
  - apply dialog_button_tokens in Hb. rewrite tokens_of_app. unfold tokens_of at 3.
    cbn. rewrite Hb. by rewrite <-app_assoc.
Qed.

(** A section object with an optional header. *)
Lemma section_tokens ws header :
  tokens_in (json_object ((§"widgets", Value.Array ws) :: opt §"header" js header)) = tokens_of ws.
Proof.
  rewrite <-tokens_in_array. set (v := Value.Array ws). clearbody v.
  assert (∀ (l : list str), l ++ [] = l) as Hn by (intros; apply app_nil_r).
  destruct header as [h|]; lazy; lazy in Hn; apply Hn.
Qed.

Lemma image_tokens url alt : tokens_in (image_widget url alt) = [].
Proof. reflexivity. Qed.

Lemma banner_tokens theme : tokens_of (banner theme) = [].
Proof.
  unfold banner, logo_banner_section. case_decide; [|done].
  by destruct (nonempty (cc_logo_url theme)).
Qed.

Lemma dashboard_tokens d url : tokens_in (dashboard_section d url) = [].
Proof.
  unfold dashboard_section.
  set (w := match url with Some _ => _ | None => _ end).
  assert (tokens_of [w] = []) as Hw.
  { subst w. destruct url as [url|]; [done|]. set (items := _ <$> d.2).
    assert (tokens_in (Value.Array items) = []) as Hi.
    { rewrite tokens_in_array. by apply tokens_of_fmap_nil. }
    clearbody items. unfold tokens_of. cbn [fmap list_fmap concat].
    lazy in Hi |- *. by rewrite Hi. }
  clearbody w. pose proof (section_tokens [w] (if is_empty d.1 then None else Some d.1)) as Hs.
  destruct (is_empty d.1); cbn [opt] in Hs; by rewrite Hs.
Qed.

Lemma header_tokens theme h : card_header theme = Some h → tokens_in h = [].
Proof.
  unfold card_header. destruct (nonempty (cc_title theme)) as [t|];
    (destruct (decide _); [destruct (nonempty (cc_logo_url theme)) as [l|]|]); cbn [app is_empty];
    intros [= <-]; reflexivity.
Qed.

Lemma card_message_tokens card_id text theme sections :
  tokens_in (card_message card_id text theme sections) = tokens_of sections.
Proof.
  unfold card_message. rewrite <-tokens_in_array. set (v := Value.Array sections). clearbody v.
  destruct (card_header theme) as [h|] eqn:Hh.
  - apply header_tokens in Hh. lazy in Hh.
    destruct (is_empty text); lazy; rewrite Hh; lazy;
      match goal with |- ?l = _ => idtac end;
      assert (∀ (l : list str), l ++ [] = l) as Hn by (intros; apply app_nil_r); lazy in Hn;
      by rewrite !Hn.
  - assert (∀ (l : list str), l ++ [] = l) as Hn by (intros; apply app_nil_r). lazy in Hn.
    destruct (is_empty text); lazy; by rewrite !Hn.
Qed.

Lemma wrap_tokens message addon : tokens_in (wrap_message message addon) = tokens_in message.
Proof.
  unfold wrap_message. destruct addon; [|done]. by rewrite !tokens_in_field by done.
Qed.

(** Sections of an answer bring no control. *)
Definition plain_builder (b : Builder) : Prop :=
  tokens_of (b_sections b) = [] ∧ tokens_of (b_widgets b) = [].

Lemma paragraph_tokens t : tokens_in (text_paragraph t) = [].
Proof. reflexivity. Qed.
Lemma row_tokens l r : tokens_in (table_row_widget l r) = [].
Proof. unfold table_row_widget. by destruct (is_empty r). Qed.
Lemma body_row_tokens header cells : tokens_in (body_row header cells) = [].
Proof. unfold body_row. case_match; apply row_tokens. Qed.

Lemma b_push_plain ws b : tokens_of ws = [] → plain_builder b → plain_builder (b_push ws b).
Proof. intros Hw [? Hb]. split; [done|]. cbn [b_push b_widgets].
  by rewrite tokens_of_app, Hb. Qed.

Lemma b_close_plain b : plain_builder b → plain_builder (b_close b).
Proof.
  intros [Hs Hw]. unfold b_close. case_match; [done|]. split; [|done]. cbn [b_sections].
  rewrite tokens_of_app, Hs. unfold tokens_of at 1. cbn [fmap list_fmap concat app].
  rewrite section_tokens, app_nil_r. by destruct (is_empty (b_widgets b)).
Qed.

Lemma b_open_plain h b : plain_builder b → plain_builder (b_open h b).
Proof. intros Hb. by apply b_close_plain in Hb. Qed.

Lemma b_paragraph_plain para b : plain_builder b → plain_builder (b_paragraph para b).
Proof. intros Hb. unfold b_paragraph. case_match; [done|]. by apply b_push_plain. Qed.

Lemma b_table_plain header rows b : plain_builder b → plain_builder (b_table header rows b).
Proof.
  intros Hb. unfold b_table. apply b_push_plain; [|done].
  rewrite !tokens_of_app. rewrite (tokens_of_fmap_nil (body_row header)) by apply body_row_tokens.
  unfold tokens_of at 1. cbn [fmap list_fmap concat]. rewrite row_tokens. by case_match.
Qed.

Lemma rich_loop_plain al fuel ls para b : plain_builder b → plain_builder (rich_loop al fuel ls para b).
Proof.
  revert ls para b. induction fuel as [|fuel IH]; intros ls para b Hb; cbn [rich_loop].
  { by apply b_paragraph_plain. }
  destruct ls as [|line rest]; [by apply b_paragraph_plain|].
  case_match; [by apply IH, b_paragraph_plain|].
  destruct (heading_text line); [by apply IH, b_open_plain, b_paragraph_plain|].
  destruct (is_rule (trim line)); [by apply IH, b_open_plain, b_paragraph_plain|].
  destruct (starts_table (line :: rest)); [|by apply IH].
  destruct (span_rows (drop 1 rest)) as [rows rest'].
  by apply IH, b_table_plain, b_paragraph_plain.
Qed.

Lemma rich_answer_plain al md r : rich_answer al md = Some r → tokens_of (ra_sections r) = [].
Proof.
  unfold rich_answer. case_match; [done|]. destruct (split_lead (lines md)) as [lead rest].
  intros [= <-]. cbn. by apply b_close_plain, rich_loop_plain.
Qed.

(** A card carries the tokens of its controls, each once and in their order, and
    no other: the answer's own sections, the dashboard, the banner and the
    header bring none. *)
Theorem card_carries_tokens al md r text dashboard url signed addon theme click v :
  rich_answer al md = Some r →
  build_interactive_card_with_answer text (ra_sections r) dashboard url signed addon theme click
    = Some v →
  tokens_in v = signed.*2.
Proof.
  intros Hr%rich_answer_plain. unfold build_interactive_card_with_answer.
  destruct (card_widgets _ _ signed [] []) as [ws|] eqn:Hw; [|done]. cbn [mbind option_bind].
  intros [= <-]. apply card_widgets_tokens in Hw. cbn [app] in Hw.
  rewrite wrap_tokens, card_message_tokens, !tokens_of_app, banner_tokens, Hr. cbn [app].
  assert (∀ l, tokens_of match dashboard with
                         | Some d => [dashboard_section d url] | None => [] end ++ l = l) as Hd.
  { intros l. destruct dashboard as [d|]; [|done]. unfold tokens_of.
    cbn [fmap list_fmap concat]. by rewrite dashboard_tokens. }
  rewrite Hd. change (tokens_of [] ++ tokens_of [] ++ signed.*2) with signed.*2 in Hw.
  rewrite <-Hw. destruct ws as [|w ws]; [done|]. cbn [is_empty].
  unfold tokens_of at 1. cbn [fmap list_fmap concat]. rewrite app_nil_r.
  unfold section_of. by rewrite tokens_in_field, tokens_in_array by done.
Qed.

Lemma span_rows_shorter ls : length (span_rows ls).2 ≤ length ls.
Proof.
  induction ls as [|line ls IH]; [done|]. cbn [span_rows]. case_match; [|done].
  destruct (span_rows ls). cbn in *. lia.
Qed.

(** The loop takes a line or more each round, so the number of lines is fuel
    enough. *)
Lemma rich_loop_fuel al fuel ls para b :
  length ls ≤ fuel → rich_loop al fuel ls para b = rich_loop al (length ls) ls para b.
Proof.
  revert ls para b. induction fuel as [fuel IH] using lt_wf_ind. intros ls para b Hl.
  destruct ls as [|line rest]; [by destruct fuel|]. destruct fuel as [|fuel]; [cbn in Hl; lia|].
  cbn in Hl. cbn [rich_loop length].
  assert (∀ ls' para' b', length ls' ≤ length rest →
    rich_loop al fuel ls' para' b' = rich_loop al (length rest) ls' para' b') as Hstep.
  { intros ls' para' b' Hlt. rewrite (IH fuel) by lia.
    destruct (decide (length rest = fuel)) as [->|]; [by rewrite <-(IH fuel) by lia|].
    symmetry. apply IH; lia. }
  case_match; [by apply Hstep|]. destruct (heading_text line); [by apply Hstep|].
  destruct (is_rule (trim line)); [by apply Hstep|].
  destruct (starts_table (line :: rest)); [|by apply Hstep].
  pose proof (span_rows_shorter (drop 1 rest)) as Hsp.
  destruct (span_rows (drop 1 rest)) as [rows rest']. cbn in Hsp.
  apply Hstep. rewrite length_drop in Hsp. lia.
Qed.

(** Nothing of an answer is lost at the split. *)
Lemma split_lead_app ls : (split_lead ls).1 ++ (split_lead ls).2 = ls.
Proof.
  induction ls as [|line ls IH]; [done|]. cbn [split_lead]. case_match; [done|].
  destruct (split_lead ls). cbn in *. by rewrite IH.
Qed.

(** * What the renderings do to some inputs *)

(** The second of two italics that one space separates stays as it was typed:
    the space belongs to the first match. *)
Example adjacent_italics_missed : italicize "*" §"*a* *b*" = §"<i>a</i> *b*".
Proof. vm_compute. reflexivity. Qed.

(** Two underscores in an address are taken for bold, in both renderings. *)
Example bold_inside_address :
  chat_line §"[x](https://e.example/__init__.py)" = §"<https://e.example/*init*.py|x>"
  ∧ format_inline §"[x](https://e.example/__init__.py)"
    = §"<a " ++ attr §"href" §"https://e.example/<b>init</b>.py" ++ §">x</a>".
Proof. split; vm_compute; reflexivity. Qed.

(** Any scheme becomes a link of a card, and a quote ends its address. *)
Example card_link_unchecked :
  format_inline §"[x](javascript:a)" = §"<a " ++ attr §"href" §"javascript:a" ++ §">x</a>"
  ∧ format_inline (§"[x](https://e" ++ [QUOTE] ++ §"/y)")
    = §"<a " ++ attr §"href" (§"https://e" ++ [QUOTE] ++ §"/y") ++ §">x</a>".
Proof. split; vm_compute; reflexivity. Qed.

(** A brand colour of six bytes that are not all ASCII makes the card panic; one
    with plus signs is a colour. *)
Example color_panics : hex_to_color §"1éabc" = None.
Proof. vm_compute. reflexivity. Qed.
Example plus_is_a_digit : ∃ c, hex_to_color §"+1+2+3" = Some (Some c).
Proof. eexists. vm_compute. reflexivity. Qed.

(** A table with a heading, and what follows it. *)
Example table_becomes_rows :
  (λ r, (ra_lead_md r, length (ra_sections r)))
    <$> rich_answer (λ _, true)
          (§"Up 3%." ++ nl ++ §"## Sales (`s1`) #" ++ nl ++ §"| a | b |" ++ nl ++ §"|---|:-:|" ++ nl
             ++ §"| 1 | 2 |" ++ nl ++ §"done")
  = Some (§"Up 3%.", 1).
Proof. vm_compute. reflexivity. Qed.

(** A card over that answer with a button and a menu. *)
Definition demo_answer : str :=
  §"Up 3%." ++ nl ++ §"| a | b |" ++ nl ++ §"|---|---|" ++ nl ++ §"| 1 | 2 |".
Definition demo_controls : list (InteractiveSpec * str) :=
  [(InteractiveSpec.Button §"a" §"x" Value.Null, §"t1");
   (InteractiveSpec.Selection §"p" [(§"l", §"v")] §"y" §"k", §"t2")].

Lemma card_carries_tokens_witness :
  ∃ r v, rich_answer (λ _, true) demo_answer = Some r
    ∧ build_interactive_card_with_answer §"t" (ra_sections r) None None demo_controls true
        default_chrome None = Some v
    ∧ tokens_in v = [§"t1"; §"t2"].
Proof.
  eexists _, _. split; [vm_compute; reflexivity|]. split; [vm_compute; reflexivity|].
  eapply (card_carries_tokens (λ _, true) demo_answer _ §"t" None None demo_controls true
            default_chrome None _); vm_compute; reflexivity.
Defined.
