(* ===== verification/Rasterizer.v ===== *)
(** * Rasterizer: dashboards as images (crates/triton-rasterizer/src)

    The caps on a request, the SVG document it becomes (svg.rs), the service in
    front of the renderer (bin/triton-rasterizer.rs, render.rs), and the two ways
    an adapter has to reach a renderer: the HTTP client (lib.rs) and the upstream
    tool (delegate.rs).  A request is the [RasterDashboard] of the mappers.  SVG
    parsing and drawing, HTTP and base64 are parameters. *)

From S2P Require Import Prelude Json Errors Principal Context AuditLog Dispatcher.
From S2P Require Import A2ui TelegramMapper EmailMapper DiscordMapper.

(** ** The caps *)

Definition MAX_TILES : nat := 32.
Definition MAX_TITLE_BYTES : nat := 256.
Definition MAX_TILE_FIELD_BYTES : nat := 128.
Definition MAX_RESPONSE_BYTES : Z := 2 * 1024 * 1024.

Definition tile_over_cap (i : nat) (field s : str) : option str :=
  if (MAX_TILE_FIELD_BYTES <? length s)%nat
  then Some (§"tile[" ++ dec (Z.of_nat i) ++ §"]." ++ field ++ §" exceeds "
               ++ dec (Z.of_nat MAX_TILE_FIELD_BYTES) ++ §"-byte cap (got "
               ++ dec (Z.of_nat (length s)) ++ §" bytes)")
  else None.

(** The first cap a tile is over. *)
Definition check_tile (i : nat) (t : DashboardTile) : option str :=
  match tile_over_cap i §"label" (t_label t) with
  | Some m => Some m
  | None =>
      match tile_over_cap i §"value" (t_value t) with
      | Some m => Some m
      | None => s ← t_trend t; tile_over_cap i §"trend" s
      end
  end.

Fixpoint check_tiles (i : nat) (tiles : list DashboardTile) : result unit str :=
  match tiles with
  | [] => Ok ()
  | t :: tiles => match check_tile i t with Some m => Err m | None => check_tiles (S i) tiles end
  end.

Definition validate (req : RasterDashboard) : result unit str :=
  if (MAX_TITLE_BYTES <? length (rd_title req))%nat then
    Err (§"dashboard title exceeds " ++ dec (Z.of_nat MAX_TITLE_BYTES) ++ §"-byte cap (got "
           ++ dec (Z.of_nat (length (rd_title req))) ++ §" bytes)")
  else if (MAX_TILES <? length (rd_tiles req))%nat then
    Err (§"dashboard has " ++ dec (Z.of_nat (length (rd_tiles req))) ++ §" tiles; max is "
           ++ dec (Z.of_nat MAX_TILES))
  else check_tiles 0 (rd_tiles req).

(** ** The document *)

Definition CANVAS_WIDTH : Z := 1200.
Definition COLUMNS : Z := 4.
Definition TILE_W : Z := 270.
Definition TILE_H : Z := 140.
Definition TILE_GAP : Z := 20.
Definition MARGIN : Z := 40.
Definition TITLE_HEIGHT : Z := 80.
Definition BG_COLOR : str := §"#f8fafc".
Definition TILE_BG : str := §"#ffffff".
Definition TILE_BORDER : str := §"#cbd5e1".
Definition TITLE_COLOR : str := §"#0f172a".
Definition LABEL_COLOR : str := §"#475569".
Definition VALUE_COLOR : str := §"#0f172a".
Definition TREND_COLOR : str := §"#475569".

Definition xml_escape_char (c : ascii) : str :=
  if decide (c = "&"%char) then §"&amp;"
  else if decide (c = "<"%char) then §"&lt;"
  else if decide (c = ">"%char) then §"&gt;"
  else if decide (c = QUOTE) then §"&quot;"
  else if decide (c = "'"%char) then §"&apos;"
  else [c].
Definition xml_escape (s : str) : str := concat (xml_escape_char <$> s).

(** A name and its attributes, as they stand in a tag. *)
Definition element (name : str) (attrs : list (str * str)) : str :=
  name ++ concat ((λ a, §" " ++ attr a.1 a.2) <$> attrs).

Definition box (x y width height : Z) : list (str * str) :=
  [(§"x", dec x); (§"y", dec y); (§"width", dec width); (§"height", dec height)].
Definition font (size : Z) (bold : bool) (fill : str) : list (str * str) :=
  [(§"font-family", §"sans-serif"); (§"font-size", dec size)]
  ++ (if bold then [(§"font-weight", §"700")] else []) ++ [(§"fill", fill)].
Definition text_tag (x y size : Z) (bold : bool) (fill : str) : str :=
  element §"text" ((§"x", dec x) :: (§"y", dec y) :: font size bold fill).

Definition indent : str := §"  ".
Definition open_tag (tag : str) : str := §"<" ++ tag ++ §">".
Definition text_line (tag content : str) : str :=
  indent ++ open_tag tag ++ xml_escape content ++ open_tag §"/text" ++ nl.

Definition xml_tag : str :=
  §"?xml " ++ attr §"version" §"1.0" ++ §" " ++ attr §"encoding" §"UTF-8" ++ §"?".
Definition svg_tag (height : Z) : str :=
  element §"svg" [(§"xmlns", §"http://www.w3.org/2000/svg"); (§"width", dec CANVAS_WIDTH);
                  (§"height", dec height);
                  (§"viewBox", §"0 0 " ++ dec CANVAS_WIDTH ++ §" " ++ dec height)].
Definition canvas_tag (height : Z) : str :=
  element §"rect" (box 0 0 CANVAS_WIDTH height ++ [(§"fill", BG_COLOR)]) ++ §"/".
Definition title_tag : str := text_tag MARGIN (MARGIN + 40) 36 true TITLE_COLOR.

Definition tile_tag (x y : Z) : str :=
  element §"rect" (box x y TILE_W TILE_H
    ++ [(§"rx", §"12"); (§"ry", §"12"); (§"fill", TILE_BG); (§"stroke", TILE_BORDER);
        (§"stroke-width", §"1")]) ++ §"/".

Definition push_tile (x y : Z) (tile : DashboardTile) : str :=
  indent ++ open_tag (tile_tag x y) ++ nl
  ++ text_line (text_tag (x + 20) (y + 32) 16 false LABEL_COLOR) (t_label tile)
  ++ text_line (text_tag (x + 20) (y + 84) 32 true VALUE_COLOR) (t_value tile)
  ++ match t_trend tile with
     | Some trend => text_line (text_tag (x + 20) (y + 118) 14 false TREND_COLOR) trend
     | None => []
     end.

(** The grid; the arithmetic is that of [u32], which [tiles_on_canvas] shows is
    not exceeded. *)
Definition tile_x (idx : Z) : Z := MARGIN + idx mod COLUMNS * (TILE_W + TILE_GAP).
Definition tile_y (idx : Z) : Z := MARGIN + TITLE_HEIGHT + idx / COLUMNS * (TILE_H + TILE_GAP).

Definition canvas_height (tiles : Z) : Z :=
  let rows := Z.max 1 (div_ceil tiles COLUMNS) in
  MARGIN + TITLE_HEIGHT + rows * TILE_H + Z.max 0 (rows - 1) * TILE_GAP + MARGIN.

Fixpoint push_tiles (idx : Z) (tiles : list DashboardTile) : str :=
  match tiles with
  | [] => []
  | t :: tiles => push_tile (tile_x idx) (tile_y idx) t ++ push_tiles (idx + 1) tiles
  end.

Definition build (req : RasterDashboard) : str * Z :=
  let height := canvas_height (Z.of_nat (length (rd_tiles req))) in
  (open_tag xml_tag ++ nl ++ open_tag (svg_tag height) ++ nl
   ++ indent ++ open_tag (canvas_tag height) ++ nl
   ++ text_line title_tag (rd_title req)
   ++ push_tiles 0 (rd_tiles req)
   ++ open_tag §"/svg" ++ nl, height).

(** ** Drawing *)

Inductive RenderError :=
  | SvgParse (m : str)
  | Pixmap (width height : Z)
  | Encode (m : str).

Definition render_error_str (e : RenderError) : str :=
  match e with
  | SvgParse m => §"SVG parse failed: " ++ m
  | Pixmap w h => §"could not allocate " ++ dec w ++ §"x" ++ dec h ++ §" pixmap"
  | Encode m => §"PNG encode failed: " ++ m
  end.

(** [env] is [TRITON_RASTERIZER_LOAD_SYSTEM_FONTS]. *)
Definition load_system_fonts_opt_in (env : option str) : bool :=
  match env with
  | Some v => existsb (λ x, bool_decide (to_ascii_lowercase (trim v) = x))
                [§"1"; §"true"; §"yes"; §"on"]
  | None => false
  end.

Section Draw.
Context {Tree Canvas : Type}.
(** [usvg::Tree::from_str] over the embedded face, and the host's fonts if the
    flag is set; [Pixmap::new]; [resvg::render]; [encode_png]. *)
Variable tree_from_str : bool → str → result Tree str.
Variable pixmap_new : Z → Z → option Canvas.
Variable draw : Tree → Canvas → Canvas.
Variable encode_png : Canvas → result str str.
Variable fonts_env : option str.

Definition render_png (svg : str) (width height : Z) : result str RenderError :=
  tree ←? result_map_err SvgParse (tree_from_str (load_system_fonts_opt_in fonts_env) svg);
  pixmap ←? ok_or (pixmap_new width height) (Pixmap width height);
  result_map_err Encode (encode_png (draw tree pixmap)).

(** ** The service *)

(** How the render came out: past its two seconds, a panic of its worker, or
    the answer of [render_png]. *)
Inductive Rendering := Elapsed | WorkerPanicked | Finished.

Inductive RasterResponse :=
  | PlainText (status : Z) (body : str)
  | Image (png : str).

(** [serde_json::from_slice] into a request, with its error's text. *)
Variable read_request : str → result RasterDashboard str.

Definition handle_render (how : Rendering) (body : str) : RasterResponse :=
  match read_request body with
  | Err e => PlainText 400 (§"malformed dashboard body: " ++ e)
  | Ok req =>
      match validate req with
      | Err msg => PlainText 400 msg
      | Ok _ =>
          match how with
          | Elapsed => PlainText 504 §"render timeout"
          | WorkerPanicked => PlainText 500 §"internal"
          | Finished =>
              let '(svg_doc, height) := build req in
              match render_png svg_doc 1200 height with
              | Err e => PlainText 500 (§"render: " ++ render_error_str e)
              | Ok bytes => Image bytes
              end
          end
      end
  end.
End Draw.

(** ** The client *)

Inductive RasterizerError :=
  | Timeout
  | BadRequest (m : str)
  | Server (m : str)
  | Network (m : str).

Definition rasterizer_error_str (e : RasterizerError) : str :=
  match e with
  | Timeout => §"rasterizer request timed out"
  | BadRequest m => §"rasterizer rejected dashboard: " ++ m
  | Server m => §"rasterizer server error: " ++ m
  | Network m => §"rasterizer network error: " ++ m
  end.

(** A request without a response, or a response: its code, the code with its
    reason, the chunks of its body as they are read, and its text. *)
Inductive ClientReply :=
  | NoReply (timed_out : bool) (e : str)
  | Reply (status : Z) (status_text : str) (chunks : list (result str str)) (text : str).

(** The loop over the chunks. *)
Fixpoint read_capped (chunks : list (result str str)) (buf : str) : result str RasterizerError :=
  match chunks with
  | [] => Ok buf
  | Err e :: _ => Err (Network e)
  | Ok chunk :: chunks =>
      if (MAX_RESPONSE_BYTES <? Z.of_nat (length buf + length chunk))%Z then
        Err (Server (§"response too large (exceeds " ++ dec MAX_RESPONSE_BYTES
                       ++ §"-byte cap)"))
      else read_capped chunks (buf ++ chunk)
  end.

Definition request_value (req : RasterDashboard) : Value :=
  json_object [(§"title", js (rd_title req));
               (§"tiles", Value.Array (tile_value <$> rd_tiles req))].

(** What a reply means. *)
Definition client_answer (r : ClientReply) : result str RasterizerError :=
  match r with
  | NoReply timed_out e => Err (if timed_out : bool then Timeout else Network e)
  | Reply status status_text chunks text =>
      if (200 <=? status)%Z && (status <? 300)%Z then read_capped chunks []
      else if (400 <=? status)%Z && (status <? 500)%Z then Err (BadRequest text)
      else if (status =? 504)%Z then Err Timeout
      else Err (Server (status_text ++ §": " ++ text))
  end.

(** The base as [Client::new] keeps it. *)
Definition Client_new (base : str) : str := trim_end_char "/" base.

Definition Client_render {W : Type} (post : str → Value → W → ClientReply * W) (base : str)
    (req : RasterDashboard) (w : W) : result str RasterizerError * W :=
  let '(r, w) := post (base ++ §"/v1/dashboard.png") (request_value req) w in
  (client_answer r, w).

(** ** The upstream tool *)

Definition dispatch_err (e : TritonError) : RasterizerError :=
  match e with
  | Validation m | Forbidden m | Auth m => BadRequest m
  | other => Server (to_string other)
  end.

(** The image in a result of [tool]; [decode] is the standard base64 decoder,
    with its error's text. *)
Definition image_of (decode : str → result str str) (tool : str) (res : Value)
    : result str RasterizerError :=
  b64 ←? ok_or (get_str §"png_base64" res) (Server (tool ++ §" returned no png_base64 field"));
  let over n := tool ++ §" png exceeds " ++ dec MAX_RESPONSE_BYTES ++ §"-byte cap ("
                  ++ n ++ §" bytes)" in
  if (MAX_RESPONSE_BYTES / 3 * 4 + 4 <? Z.of_nat (length b64))%Z
  then Err (Server (over (§"encoded " ++ dec (Z.of_nat (length b64)))))
  else
    bytes ←? result_map_err (λ e, Server (§"bad base64 png from " ++ tool ++ §": " ++ e)) (decode b64);
    if (MAX_RESPONSE_BYTES <? Z.of_nat (length bytes))%Z
    then Err (Server (over (dec (Z.of_nat (length bytes)))))
    else Ok bytes.

Definition UpstreamRasterizer_render {W : Type} (debug_set : gset str → str)
    (decode : str → result str str) (d : Dispatcher W) (c : Clock) (tool : str)
    (req : RasterDashboard) (p : Principal) (protocol : str) (w : World W)
    : result str RasterizerError * World W :=
  let '(r, w) := invoke debug_set d c tool (request_value req) p protocol w in
  (dispatch ←? result_map_err dispatch_err r; image_of decode tool (dr_result dispatch), w).

(** * The caps hold *)

Definition tile_within (t : DashboardTile) : Prop :=
  length (t_label t) ≤ MAX_TILE_FIELD_BYTES ∧ length (t_value t) ≤ MAX_TILE_FIELD_BYTES
  ∧ (∀ s, t_trend t = Some s → length s ≤ MAX_TILE_FIELD_BYTES).

Lemma tile_over_cap_None i field s :
  tile_over_cap i field s = None ↔ length s ≤ MAX_TILE_FIELD_BYTES.
Proof. unfold tile_over_cap. destruct (_ <? _)%nat eqn:E; bool_facts; [|done]. split; [done|lia]. Qed.

Lemma check_tile_None i t : check_tile i t = None ↔ tile_within t.
Proof.
  unfold check_tile, tile_within.
  rewrite <-(tile_over_cap_None i §"label"), <-(tile_over_cap_None i §"value").
  destruct (tile_over_cap i §"label" _); [naive_solver|].
  destruct (tile_over_cap i §"value" _); [naive_solver|].
  destruct (t_trend t) as [s|]; cbn [mbind option_bind]; [|naive_solver].
  rewrite tile_over_cap_None. naive_solver.
Qed.

Lemma check_tiles_Ok i tiles : check_tiles i tiles = Ok () ↔ Forall tile_within tiles.
Proof.
  revert i. induction tiles as [|t tiles IH]; intros i; cbn [check_tiles]; [by split|].
  rewrite Forall_cons, <-(IH (S i)), <-(check_tile_None i).
  destruct (check_tile i t); [|tauto]. split; [done|by intros [? _]].
Qed.

(** What passes is within every cap, and everything within them passes. *)
Theorem validate_exact req :
  validate req = Ok () ↔
  length (rd_title req) ≤ 256 ∧ length (rd_tiles req) ≤ 32
  ∧ ∀ t, t ∈ rd_tiles req → tile_within t.
Proof.
  unfold validate, MAX_TITLE_BYTES, MAX_TILES.
  destruct (256 <? _)%nat eqn:E1; bool_facts; [split; [done|lia]|].
  destruct (32 <? _)%nat eqn:E2; bool_facts; [split; [done|lia]|].
  rewrite check_tiles_Ok, Forall_forall. naive_solver lia.
Qed.

(** * The document reads back *)

Definition entities : list (str * ascii) :=
  [(§"&amp;", "&"%char); (§"&lt;", "<"%char); (§"&gt;", ">"%char); (§"&quot;", QUOTE);
   (§"&apos;", "'"%char)].

(** The character the text starts with, an entity taken for its character. *)
Definition first_char (s : str) : option (ascii * str) :=
  match omap (λ e, (λ r, (e.2, r)) <$> strip_prefix e.1 s) entities with
  | x :: _ => Some x
  | [] => match s with a :: r => Some (a, r) | [] => None end
  end.
Fixpoint unescape (fuel : nat) (s : str) : str :=
  match fuel with
  | 0 => []
  | S fuel => match first_char s with Some (a, r) => a :: unescape fuel r | None => [] end
  end.

(** What stands between two opening marks: a tag, and for a text element what is
    written after it. *)
Definition read_piece (p : str) : option (str * str) :=
  x ← split_once ">" p;
  Some (x.1, if starts_with §"text " x.1 then unescape (length x.2) x.2 else []).
Definition elements (doc : str) : list (str * str) := omap read_piece (split_on "<" doc).

(** The elements the template means. *)
Definition text_elements (tag content : str) : list (str * str) := [(tag, content); (§"/text", [])].
Definition tile_elements (x y : Z) (t : DashboardTile) : list (str * str) :=
  (tile_tag x y, [])
  :: text_elements (text_tag (x + 20) (y + 32) 16 false LABEL_COLOR) (t_label t)
  ++ text_elements (text_tag (x + 20) (y + 84) 32 true VALUE_COLOR) (t_value t)
  ++ match t_trend t with
     | Some s => text_elements (text_tag (x + 20) (y + 118) 14 false TREND_COLOR) s
     | None => []
     end.
Fixpoint tiles_elements (idx : Z) (tiles : list DashboardTile) : list (str * str) :=
  match tiles with
  | [] => []
  | t :: tiles => tile_elements (tile_x idx) (tile_y idx) t ++ tiles_elements (idx + 1) tiles
  end.
Definition svg_elements (req : RasterDashboard) : list (str * str) :=
  let height := canvas_height (Z.of_nat (length (rd_tiles req))) in
  [(xml_tag, []); (svg_tag height, []); (canvas_tag height, [])]
  ++ text_elements title_tag (rd_title req) ++ tiles_elements 0 (rd_tiles req) ++ [(§"/svg", [])].

Lemma first_char_escaped a r : first_char (xml_escape_char a ++ r) = Some (a, r).
Proof.
  unfold xml_escape_char. repeat (case_decide; [subst; reflexivity|]).
  unfold first_char, entities, lit. cbn [app omap list_omap fst snd String.list_ascii_of_string].
  assert (∀ p, strip_prefix ("&"%char :: p) (a :: r) = None) as Hp.
  { intros p. cbn. by rewrite decide_False by done. }
  by rewrite !Hp.
Qed.

Lemma unescape_escape fuel s : length s ≤ fuel → unescape fuel (xml_escape s) = s.
Proof.
  revert fuel. induction s as [|a s IH]; intros fuel Hf; [by destruct fuel|].
  cbn in Hf. destruct fuel as [|fuel]; [lia|]. change (xml_escape (a :: s)) with
    (xml_escape_char a ++ xml_escape s). cbn [unescape]. rewrite first_char_escaped.
  by rewrite IH by lia.
Qed.

Lemma xml_escape_longer s : length s ≤ length (xml_escape s).
Proof.
  induction s as [|a s IH]; [done|]. change (xml_escape (a :: s)) with
    (xml_escape_char a ++ xml_escape s). rewrite length_app. cbn [length].
  assert (1 ≤ length (xml_escape_char a)) by (unfold xml_escape_char; repeat case_decide; cbn; lia).
  lia.
Qed.

(** No mark of a tag in it. *)
Definition clean (s : str) : Prop := ("<"%char ∉ s) ∧ (">"%char ∉ s).
#[local] Instance clean_dec s : Decision (clean s).
Proof. unfold clean. apply _. Defined.

Lemma clean_app s t : clean s → clean t → clean (s ++ t).
Proof. unfold clean. rewrite !elem_of_app. tauto. Qed.

Lemma clean_digits s : forallb is_ascii_digit s = true → clean s.
Proof.
  rewrite forallb_forall. intros Hd. split; intros Hi%list_elem_of_In%Hd; vm_compute in Hi; done.
Qed.

Lemma clean_number z : (0 ≤ z)%Z → clean (dec z).
Proof. intros. rewrite <-(Z2Nat.id z) by done. apply clean_digits, dec_digits. Qed.

Lemma clean_escape s : clean (xml_escape s).
Proof.
  induction s as [|a s IH]; [by apply (bool_decide_unpack _)|].
  change (xml_escape (a :: s)) with (xml_escape_char a ++ xml_escape s). apply clean_app; [|done].
  unfold xml_escape_char. repeat (case_decide; [by apply (bool_decide_unpack _)|]).
  split; rewrite list_elem_of_singleton; congruence.
Qed.

Lemma clean_element name attrs :
  clean name → Forall (λ a, clean a.1 ∧ clean a.2) attrs → clean (element name attrs).
Proof.
  intros Hn Ha. unfold element. apply clean_app; [done|].
  induction Ha as [|a l [H1 H2] _ IH]; [by apply (bool_decide_unpack _)|].
  cbn [fmap list_fmap concat]. apply clean_app; [|done]. unfold attr.
  repeat (apply clean_app; [done || by apply (bool_decide_unpack _)|]).
  by apply (bool_decide_unpack _).
Qed.

(** Reading on inside a piece: its tag, and the text so far. *)
Definition reading (tag text rest : str) : list (str * str) := elements (tag ++ §">" ++ text ++ rest).

Definition layout_tag (tag : str) : Prop := clean tag ∧ starts_with §"text " tag = false.

Lemma reading_next tag text rest :
  clean tag → clean text →
  reading tag text (§"<" ++ rest)
  = (tag, if starts_with §"text " tag then unescape (length text) text else []) :: elements rest.
Proof.
  intros [Ht1 Ht2] [Hx1 Hx2]. unfold reading, elements.
  change (§"<") with ["<"%char]. rewrite !(assoc_L app), <-(assoc_L app _ ["<"%char]).
  rewrite split_on_app.
  2: { rewrite !elem_of_app. intros [[?|Hg]|?]; [done| |done]. by apply list_elem_of_singleton in Hg. }
  cbn [omap list_omap]. unfold read_piece at 1. rewrite <-(assoc_L app).
  change (§">" ++ text) with (">"%char :: text).
  rewrite (split_once_app ">" tag text) by done. reflexivity.
Qed.

Lemma reading_more tag text x rest : reading tag text (x ++ rest) = reading tag (text ++ x) rest.
Proof. unfold reading. by rewrite !(assoc_L app). Qed.

Lemma reading_tag tag text tag' rest :
  layout_tag tag → clean text →
  reading tag text (open_tag tag' ++ rest) = (tag, []) :: reading tag' [] rest.
Proof.
  intros [Ht Hn] Hx. unfold open_tag. rewrite <-!(assoc_L app), reading_next by done.
  by rewrite Hn.
Qed.

Lemma clean_indent : clean indent.
Proof. by apply (bool_decide_unpack _). Qed.
Lemma clean_nl : clean nl.
Proof. by apply (bool_decide_unpack _). Qed.

(** A line of layout, and a line with a text. *)
Lemma reading_line tag text tag' rest :
  layout_tag tag → clean text →
  reading tag text (indent ++ open_tag tag' ++ nl ++ rest) = (tag, []) :: reading tag' nl rest.
Proof.
  intros Ht Hx. rewrite reading_more, reading_tag by auto using clean_app, clean_indent.
  by rewrite reading_more.
Qed.

Lemma reading_text_line tag text tag' s rest :
  layout_tag tag → clean text → clean tag' → starts_with §"text " tag' = true →
  reading tag text (text_line tag' s ++ rest)
  = (tag, []) :: (tag', s) :: reading §"/text" nl rest.
Proof.
  intros Ht Hx Hc Hs. unfold text_line. rewrite <-!(assoc_L app).
  rewrite reading_more, reading_tag by auto using clean_app, clean_indent. f_equal.
  rewrite reading_more. cbn [app]. unfold open_tag. rewrite <-!(assoc_L app).
  rewrite reading_next by auto using clean_escape. rewrite Hs, unescape_escape by apply xml_escape_longer.
  reflexivity.
Qed.

Lemma layout_end_text : layout_tag §"/text".
Proof. split; [by apply (bool_decide_unpack _)|done]. Qed.

Ltac clean_attrs :=
  repeat first
    [ apply Forall_nil_2
    | apply Forall_cons_2; [split; cbn [fst snd]; first [done|apply clean_number; lia|by apply (bool_decide_unpack _)]|] ].

Lemma clean_text_tag x y size bold fill :
  (0 ≤ x)%Z → (0 ≤ y)%Z → (0 ≤ size)%Z → clean fill →
  clean (text_tag x y size bold fill) ∧ starts_with §"text " (text_tag x y size bold fill) = true.
Proof.
  intros Hx Hy Hs Hf. split; [|done]. unfold text_tag, font. apply clean_element.
  - by apply (bool_decide_unpack _).
  - destruct bold; cbn [app]; clean_attrs.
Qed.

Lemma layout_tile_tag x y : (0 ≤ x)%Z → (0 ≤ y)%Z → layout_tag (tile_tag x y).
Proof.
  intros Hx Hy. split; [|done]. unfold tile_tag. apply clean_app; [|by apply (bool_decide_unpack _)].
  apply clean_element; [by apply (bool_decide_unpack _)|]. unfold box, TILE_W, TILE_H. cbn [app].
  clean_attrs.
Qed.

Lemma reading_tile tag text x y t rest :
  (0 ≤ x)%Z → (0 ≤ y)%Z → layout_tag tag → clean text →
  reading tag text (push_tile x y t ++ rest)
  = (tag, []) :: removelast (tile_elements x y t) ++ reading §"/text" nl rest.
Proof.
  intros Hx Hy Ht Hc. unfold push_tile. rewrite <-!(assoc_L app), reading_line by done. f_equal.
  rewrite reading_text_line; [|by apply layout_tile_tag|apply clean_nl|
    apply clean_text_tag; [lia..|by apply (bool_decide_unpack _)]|
    apply clean_text_tag; [lia..|by apply (bool_decide_unpack _)]].
  rewrite reading_text_line; [|apply layout_end_text|apply clean_nl|
    apply clean_text_tag; [lia..|by apply (bool_decide_unpack _)]|
    apply clean_text_tag; [lia..|by apply (bool_decide_unpack _)]].
  destruct (t_trend t) as [s|] eqn:E; unfold tile_elements; rewrite E; [|reflexivity].
  rewrite reading_text_line; [reflexivity|apply layout_end_text|apply clean_nl|
    apply clean_text_tag; [lia..|by apply (bool_decide_unpack _)]|
    apply clean_text_tag; [lia..|by apply (bool_decide_unpack _)]].
Qed.

Lemma tile_ends_text x y t rest :
  removelast (tile_elements x y t) ++ (§"/text", []) :: rest = tile_elements x y t ++ rest.
Proof. unfold tile_elements. by destruct (t_trend t). Qed.

Lemma tile_origin idx : (0 ≤ idx)%Z → (0 ≤ tile_x idx)%Z ∧ (0 ≤ tile_y idx)%Z.
Proof.
  intros Hi. unfold tile_x, tile_y, MARGIN, TITLE_HEIGHT, TILE_W, TILE_H, TILE_GAP, COLUMNS.
  pose proof (Z.mod_pos_bound idx 4 ltac:(lia)). pose proof (Z.div_pos idx 4 Hi ltac:(lia)). lia.
Qed.

Lemma reading_tiles tag text idx tiles :
  (0 ≤ idx)%Z → layout_tag tag → clean text →
  reading tag text (push_tiles idx tiles ++ open_tag §"/svg" ++ nl)
  = (tag, []) :: tiles_elements idx tiles ++ [(§"/svg", [])].
Proof.
  revert tag text idx. induction tiles as [|t tiles IH]; intros tag text idx Hi Ht Hc;
    cbn [push_tiles tiles_elements].
  { cbn [app]. by rewrite reading_tag. }
  destruct (tile_origin idx Hi). rewrite <-(assoc_L app), reading_tile by done. f_equal.
  rewrite IH by (try lia; auto using layout_end_text, clean_nl).
  by rewrite tile_ends_text, (assoc_L app).
Qed.

Lemma canvas_height_pos n : (0 ≤ n)%Z → (0 ≤ canvas_height n)%Z.
Proof.
  intros. unfold canvas_height, MARGIN, TITLE_HEIGHT, TILE_H, TILE_GAP. lia.
Qed.

(** No text of a request can change the drawing.  The document built for a
    dashboard reads back, markup by markup, as exactly the template's elements
    for that number of tiles, each label, value and trend alone in the text
    element it belongs to and with the very characters it has in the request,
    whatever they are. *)
Theorem svg_reads_back req : elements (build req).1 = svg_elements req.
Proof.
  unfold build, svg_elements. cbn [fst].
  set (h := canvas_height _). assert (0 ≤ h)%Z as Hh by (apply canvas_height_pos; lia).
  assert (layout_tag (svg_tag h)) as Hsvg.
  { split; [|done]. apply clean_element; [by apply (bool_decide_unpack _)|]. clean_attrs.
    apply Forall_singleton. split; [by apply (bool_decide_unpack _)|]. cbn [snd].
    repeat apply clean_app; first [apply clean_number; lia|by apply (bool_decide_unpack _)]. }
  assert (layout_tag (canvas_tag h)) as Hcanvas.
  { split; [|done]. apply clean_app; [|by apply (bool_decide_unpack _)].
    apply clean_element; [by apply (bool_decide_unpack _)|]. cbn [box app]. clean_attrs. }
  assert (layout_tag xml_tag) as Hxml by (split; [by apply (bool_decide_unpack _)|done]).
  assert (clean title_tag ∧ starts_with §"text " title_tag = true) as [Ht1 Ht2].
  { apply clean_text_tag; unfold MARGIN; [lia..|by apply (bool_decide_unpack _)]. }
  transitivity (reading xml_tag nl (open_tag (svg_tag h) ++ nl ++ indent ++ open_tag (canvas_tag h)
    ++ nl ++ text_line title_tag (rd_title req) ++ push_tiles 0 (rd_tiles req)
    ++ open_tag §"/svg" ++ nl)).
  { unfold reading, elements. unfold open_tag at 1. rewrite <-!(assoc_L app).
    change (§"<" ++ ?k) with ([] ++ ["<"%char] ++ k). rewrite split_on_app by apply not_elem_of_nil.
    reflexivity. }
  rewrite reading_tag by auto using clean_nl. rewrite reading_more. cbn [app].
  rewrite reading_line by auto using clean_nl. rewrite reading_text_line by auto using clean_nl.
  rewrite reading_tiles by (try lia; auto using layout_end_text, clean_nl). reflexivity.
Qed.

(** * The canvas *)

(** Every tile of a request within the caps is drawn inside a canvas of at most
    1200 by 1420, and no two of them overlap. *)
Theorem tiles_on_canvas n i j :
  (0 ≤ i < n)%Z → (0 ≤ j < n)%Z → i ≠ j → (n ≤ 32)%Z →
  (0 ≤ tile_x i ∧ tile_x i + TILE_W ≤ CANVAS_WIDTH)%Z
  ∧ (TITLE_HEIGHT ≤ tile_y i ∧ tile_y i + TILE_H ≤ canvas_height n)%Z
  ∧ (canvas_height n ≤ 1420)%Z
  ∧ (tile_x i + TILE_W ≤ tile_x j ∨ tile_x j + TILE_W ≤ tile_x i
     ∨ tile_y i + TILE_H ≤ tile_y j ∨ tile_y j + TILE_H ≤ tile_y i)%Z.
Proof.
  intros Hi Hj Hne Hn. pose proof (div_ceil_spec n 4 ltac:(lia)) as Hc.
  unfold tile_x, tile_y, canvas_height, CANVAS_WIDTH, MARGIN, TITLE_HEIGHT, TILE_W, TILE_H, TILE_GAP,
    COLUMNS in *.
  pose proof (Z.div_mod i 4 ltac:(lia)). pose proof (Z.mod_pos_bound i 4 ltac:(lia)).
  pose proof (Z.div_mod j 4 ltac:(lia)). pose proof (Z.mod_pos_bound j 4 ltac:(lia)).
  set (r := div_ceil n 4) in *. clearbody r.
  set (qi := (i / 4)%Z) in *. set (mi := (i mod 4)%Z) in *. clearbody qi mi.
  set (qj := (j / 4)%Z) in *. set (mj := (j mod 4)%Z) in *. clearbody qj mj. lia.
Qed.

(** * The service *)

Section ServiceFacts.
Context {Tree Canvas : Type}.
Variable tree_from_str : bool → str → result Tree str.
Variable pixmap_new : Z → Z → option Canvas.
Variable draw : Tree → Canvas → Canvas.
Variable encode_png : Canvas → result str str.
Variable fonts_env : option str.
Variable read_request : str → result RasterDashboard str.

(** The service draws requests within the caps only, on a canvas it bounds, and
    answers one that is outside them with 400. *)
Theorem service_draws_within_caps how body :
  let x := handle_render tree_from_str pixmap_new draw encode_png fonts_env read_request how body in
  match read_request body with
  | Err _ => ∃ m, x = PlainText 400 m
  | Ok req =>
      (validate req ≠ Ok () → ∃ m, x = PlainText 400 m)
      ∧ ∀ png, x = Image png →
          validate req = Ok () ∧ how = Finished ∧ (0 ≤ (build req).2 ≤ 1420)%Z
          ∧ render_png tree_from_str pixmap_new draw encode_png fonts_env (build req).1 1200
              (build req).2 = Ok png
  end.
Proof using Type.
  intros x. subst x. unfold handle_render. destruct (read_request body) as [req|e]; [|eauto].
  destruct (validate req) as [[]|m] eqn:Hv; [|split; [eauto|done]]. split; [done|].
  destruct how; [done..|]. destruct (build req) as [doc h] eqn:Hb. intros png.
  destruct (render_png _ _ _ _ _ _ _ _) as [bytes|] eqn:Hr; [|done]. intros [= ->].
  split; [done|]. split; [done|]. cbn [fst snd]. split; [|done].
  apply validate_exact in Hv as (_ & Hn & _).
  assert (h = canvas_height (Z.of_nat (length (rd_tiles req)))) as ->.
  { revert Hb. unfold build. by intros [= _ <-]. }
  set (n := Z.of_nat _). assert (0 ≤ n ≤ 32)%Z as Hz by lia. clearbody n.
  split; [apply canvas_height_pos; lia|].
  pose proof (div_ceil_spec n 4 ltac:(lia)).
  unfold canvas_height, MARGIN, TITLE_HEIGHT, TILE_H, TILE_GAP, COLUMNS. lia.
Qed.
End ServiceFacts.

(** * What an adapter is given *)

(** The body is read to its end exactly when it fits. *)
Lemma read_capped_Ok chunks buf out :
  (Z.of_nat (length buf) ≤ MAX_RESPONSE_BYTES)%Z →
  read_capped chunks buf = Ok out ↔
  ∃ cs, chunks = Ok <$> cs ∧ out = buf ++ concat cs ∧ (Z.of_nat (length out) ≤ MAX_RESPONSE_BYTES)%Z.
Proof.
  revert buf. induction chunks as [|[c|e] chunks IH]; intros buf Hb; cbn [read_capped].
  - split.
    + intros [= <-]. exists []. rewrite app_nil_r. done.
    + intros ([|? ?] & Hc & -> & _); [|done]. cbn. by rewrite app_nil_r.
  - destruct (_ <? _)%Z eqn:E; bool_facts.
    + split; [done|]. intros ([|c' cs] & Hc & -> & Hl); [done|]. injection Hc as -> _.
      rewrite !length_app in Hl. cbn [concat] in Hl. rewrite length_app in Hl. lia.
    + rewrite IH by (rewrite length_app; lia). split.
      * intros (cs & -> & -> & Hl). exists (c :: cs). cbn [concat]. by rewrite !(assoc_L app).
      * intros ([|c' cs] & Hc & -> & Hl); [done|]. injection Hc as <- ->. exists cs.
        cbn [concat] in *. by rewrite !(assoc_L app) in *.
  - split; [done|]. intros ([|? ?] & Hc & _); done.
Qed.

(** An image from either renderer is at most two mebibytes: the whole body of a
    successful reply, or what the upstream's answer decodes to; and the upstream
    is called once, audited as a call of its tool by the sender. *)
Theorem image_bounded {W : Type} reply debug_set decode (d : Dispatcher W) c tool req p protocol w :
  (∀ png, client_answer reply = Ok png →
     (Z.of_nat (length png) ≤ MAX_RESPONSE_BYTES)%Z
     ∧ ∃ status reason chunks text, reply = Reply status reason (Ok <$> chunks) text
         ∧ (200 ≤ status < 300)%Z ∧ png = concat chunks)
  ∧ let x := UpstreamRasterizer_render debug_set decode d c tool req p protocol w in
    one_line w x.2 (line_for tool protocol p)
    ∧ ∀ png, x.1 = Ok png →
        (Z.of_nat (length png) ≤ MAX_RESPONSE_BYTES)%Z
        ∧ ∃ dr b64, (invoke debug_set d c tool (request_value req) p protocol w).1 = Ok dr
            ∧ get_str §"png_base64" (dr_result dr) = Some b64 ∧ decode b64 = Ok png.
Proof.
  split.
  - intros png. destruct reply as [|status reason chunks text]; [by destruct timed_out|]. cbn.
    destruct ((200 <=? status)%Z && _) eqn:Es; [|by repeat case_match].
    intros (cs & -> & -> & Hl)%read_capped_Ok; [|done]. cbn [app] in *. split; [done|].
    apply andb_true_iff in Es as [?%Z.leb_le ?%Z.ltb_lt].
    exists status, reason, cs, text. done.
  - cbv zeta. unfold UpstreamRasterizer_render.
    pose proof (invoke_with_line debug_set d c tool (request_value req) p protocol no_overrides w) as Hl.
    fold (invoke debug_set d c tool (request_value req) p protocol w) in Hl.
    destruct (invoke _ _ _ _ _ _ _ _) as [r w1]. cbn [fst snd] in *.
    split; [by eapply one_line_impl; [|exact Hl]; intros l [? _]|]. intros png.
    destruct r as [dr|e]; [|done]. cbn [result_map_err result_bind]. unfold image_of.
    destruct (get_str _ _) as [b64|] eqn:Eb; [|done]. cbn [ok_or result_bind].
    destruct (_ <? Z.of_nat (length b64))%Z; [done|].
    destruct (decode b64) as [bytes|] eqn:Ed; [|done]. cbn [result_map_err result_bind].
    destruct (_ <? _)%Z eqn:E; [done|]. intros [= <-]. bool_facts. split; [lia|]. eauto.
Qed.

(** ** An example *)

(** A tile that tries to close its element is read back as it was typed. *)
Example hostile_tile_reads_back :
  let t := {| t_label := §"</text><rect/>"; t_value := §"a&b"; t_trend := None |} in
  drop 5 (elements (build {| rd_title := §"Q1"; rd_tiles := [t] |}).1)
  = tile_elements 40 120 t ++ [(§"/svg", [])].
Proof. vm_compute. reflexivity. Qed.

(** A request within every cap whose document is over 80 KiB: an apostrophe
    becomes six. *)
Definition widest_request : RasterDashboard :=
  let field := repeat "'"%char 128 in
  {| rd_title := repeat "'"%char 256;
     rd_tiles := repeat {| t_label := field; t_value := field; t_trend := Some field |} 32 |}.

Example widest_document :
  validate widest_request = Ok ()
  ∧ (81920 < Z.of_nat (length (build widest_request).1))%Z.
Proof. vm_compute. split; reflexivity. Qed.
