(* ===== verification/GoogleChat.v ===== *)
(** * GoogleChat: the webhook, the courier and boot
    (crates/triton-chat-googlechat/src/lib.rs)

    The verified webhook with its events, in the two shapes Google has for them;
    clicks, the document dialog, agent routing; the answer inline, or by the
    courier, which posts a placeholder and edits it into the answer; sealed
    conversation references and the sends that use them; the images of a card;
    boot.  [None] is a panic of the task: a brand colour, or a token lifetime,
    can cause one.  The theorems are in [GoogleChatFacts]. *)

From Stdlib Require Import SpecFloat.
From S2P Require Import Prelude Json Errors Principal RateLimit Context AuditLog Dispatcher.
From S2P Require Import Correlation A2ui A2uiText ChatIdentity Manifest Chat Stream Routing.
From S2P Require Import TelegramMapper Surface EmailMapper DiscordMapper Oidc Outbound.
From S2P Require Import PlatformAuth GoogleChatAuth GoogleChatMapper Rasterizer.

Definition PROTOCOL : str := §"messenger:google_chat".
Definition PROTOCOL_RESOLVE : str := §"messenger:google_chat:identity".
Definition PAIRING_SCOPE : str := §"pairing".
Definition PAIRING_TENANT : str := §"pairing".
Definition CARD_CORRELATION_CAP : nat := 1536.
Definition CONVERSATION_REF_MARKER : str := §"__conversation_ref".
Definition CONVERSATION_REF_CAP : nat := 4096.
Definition OUTBOUND_TOOL : str := §"outbound".
Definition DASHBOARD_TOKEN_CAP : nat := Z.to_nat 8192.
Definition DASHBOARD_MARKER : str := §"__dashboard_png".
Definition RENDER_REPORT_IMG_MARKER : str := §"__render_report_png".
Definition CARD_TOKEN_TTL_SECS : Z := 7 * 24 * 3600.
Definition IMG_TOKEN_TTL_SECS : Z := 7 * 24 * 3600.
Definition DASHBOARD_PNG_WIDTH : Z := 1200.
Definition PATCH_INTERVAL : Z := 1100 * 1000000.
Definition USE_AGENT_TOOL : str := §"__use_agent".
Definition WORKING : str := §"⏳ Working on it…".

(** ** Panics *)

(** A step whose task may panic, and what follows it when it does not. *)
Definition or_panic {S A B : Type} (m : ST S (option A)) (k : A → ST S (option B))
    : ST S (option B) :=
  x ←ₛ m; match x with Some a => k a | None => ret None end.
Notation "x ←ₚ m ; k" := (or_panic m (λ x, k))
  (at level 20, m at level 100, k at level 200, right associativity) : rust_scope.
Definition safe {S A : Type} (m : ST S A) : ST S (option A) := a ←ₛ m; ret (Some a).

(** ** The adapter *)

Record EnrolClaims := { ec_scopes : list str; ec_tenant : str }.

Inductive GcIdentityMode :=
  | GcSenderTable (table : SenderTable)
  | GcSelfEnrol (table : gmap str EnrolClaims)
  | GcUpstream (up : UpstreamResolver).

Record CourierConfig := { cc_enabled : bool; cc_api_base : str }.
Definition courier_default : CourierConfig :=
  {| cc_enabled := false; cc_api_base := §"https://chat.googleapis.com" |}.

(** [RouteCtx] and [RouteOutcome] of the routing crate; the router itself is the
    host's. *)
Record RouteCtx := {
  rx_key : ConvKey;
  rx_text : str;
  rx_tenant : str;
  rx_caller_sub : str;
  rx_pick : option (str * str);
  rx_conversation_ref : option Value;
}.
Inductive RouteOutcome :=
  | RouteDispatch (agent_id text : str)
  | RouteChooser (candidates : list AgentDescriptor) (reason : ChooserReason) (pending_text : str)
  | RouteInfo (text : str)
  | RouteDeny (message : str).

Definition ConvKey_googlechat (space thread caller : str) : ConvKey :=
  {| platform := §"googlechat"; space := space; thread := thread; caller := caller |}.

Section Types.
Context `{SerdeJson, TokenLib}.

Inductive OutboundAuth :=
  | WorkloadIdentity (key : ExternalAccountKey)
  | NoAuth
  | StaticToken (token : str)
  | ServiceAccount (minter : TokenMinter).

Record GoogleChatAdapter (W : Type) := {
  gc_name : str;
  gc_identity : GcIdentityMode;
  gc_inbound_tool : str;
  gc_dispatcher : Dispatcher W;
  gc_correlation_key : KeyRing;
  gc_courier : CourierConfig;
  gc_outbound : OutboundAuth;
  gc_router : option (RouteCtx → W → RouteOutcome * W);
}.

(** What the adapter keeps: the limiters beside the dispatcher's world, the key
    cache of its verifier, the cached token of its minter. *)
Record GcState (W : Type) := {
  gs_chat : ChatState W;
  gs_verifier : GoogleJwtVerifier;
  gs_token : option CachedToken;
}.
End Types.
Arguments gc_name {_ _ W} _.
Arguments gc_identity {_ _ W} _.
Arguments gc_inbound_tool {_ _ W} _.
Arguments gc_dispatcher {_ _ W} _.
Arguments gc_correlation_key {_ _ W} _.
Arguments gc_courier {_ _ W} _.
Arguments gc_outbound {_ _ W} _.
Arguments gc_router {_ _ W} _.
Arguments gs_chat {_ W} _.
Arguments gs_verifier {_ W} _.
Arguments gs_token {_ W} _.
Arguments Build_GcState {_ W} _ _ _.

(** ** Events *)

(** A sender is its [name], a thread and a space their names. *)
Record GoogleChatMessage := {
  ms_text : option str;
  ms_sender : option str;
  ms_thread : option str;
}.
(** The form inputs in the iteration order of their map, each with the values of
    its [stringInputs]. *)
Record EventCommon := {
  ev_parameters : gmap str str;
  ev_form_inputs : list (str * list str);
}.
Record GoogleChatEvent := {
  ev_kind : str;
  ev_message : option GoogleChatMessage;
  ev_user : option str;
  ev_common : option EventCommon;
  (** the parameters of the legacy [action] *)
  ev_action : option (list (str * str));
  ev_space : option str;
  ev_thread : option str;
}.

Definition event_thread_name (e : GoogleChatEvent) : option str :=
  match ev_thread e with
  | Some t => Some t
  | None => m ← ev_message e; ms_thread m
  end.

(** A parameter of the clicked control, from either shape. *)
Definition event_parameter (key : str) (e : GoogleChatEvent) : option str :=
  match (c ← ev_common e; ev_parameters c !! key) with
  | Some v => Some v
  | None => l ← ev_action e; x ← list_find (λ p : str * str, p.1 = key) l; Some x.2.2
  end.
Definition event_card_token : GoogleChatEvent → option str := event_parameter BUTTON_TOKEN_PARAM.

Definition event_form_inputs (e : GoogleChatEvent) : list (str * str) :=
  match ev_common e with
  | None => []
  | Some c => omap (λ x : str * list str, v ← head x.2; Some (x.1, v)) (ev_form_inputs c)
  end.

Definition event_action_echo (e : GoogleChatEvent) : option str :=
  match event_form_inputs e with
  | [] => event_parameter BUTTON_LABEL_PARAM e
  | inputs => Some (join §" · " inputs.*2)
  end.

(** The first object with [instances] or [document], depth first. *)
Fixpoint find_document_structured (v : Value) : option Value :=
  match v with
  | Value.Object m =>
      if bool_decide (is_Some (Map.get §"instances" m)) || bool_decide (is_Some (Map.get §"document" m))
      then Some v
      else
        (fix go m := match m with
                     | [] => None
                     | x :: m => match find_document_structured x.2 with
                                 | Some r => Some r
                                 | None => go m
                                 end
                     end) m
  | Value.Array l =>
      (fix go l := match l with
                   | [] => None
                   | x :: l => match find_document_structured x with Some r => Some r | None => go l end
                   end) l
  | _ => None
  end.

(** The first [png_base64] string, depth first. *)
Fixpoint find_png (v : Value) : option str :=
  match v with
  | Value.Object m =>
      match get_str §"png_base64" v with
      | Some s => Some s
      | None =>
          (fix go m := match m with
                       | [] => None
                       | x :: m => match find_png x.2 with Some r => Some r | None => go m end
                       end) m
      end
  | Value.Array l =>
      (fix go l := match l with
                   | [] => None
                   | x :: l => match find_png x with Some r => Some r | None => go l end
                   end) l
  | _ => None
  end.

(** [or_else] *)
Definition or_key (k : str) (v w : Value) : option Value :=
  match value_get k v with Some x => Some x | None => value_get k w end.

Definition addon_payloads : list (str * str) :=
  [(§"messagePayload", §"MESSAGE"); (§"appCommandPayload", §"MESSAGE");
   (§"buttonClickedPayload", §"CARD_CLICKED"); (§"addedToSpacePayload", §"ADDED_TO_SPACE")].

(** The message of a payload, with the actor as its sender when it has none. *)
Definition graft_sender (user message : option Value) : option Value :=
  match message, user with
  | Some (Value.Object m), Some u =>
      Some (Value.Object (if bool_decide (is_Some (Map.get §"sender" m)) then m
                          else Map.insert §"sender" u m))
  | _, _ => message
  end.

Definition normalize_addon_event (raw : Value) : Value :=
  match value_get §"chat" raw with
  | Some (Value.Object _ as chat) =>
      match omap (λ p : str * str, (λ v, (v, p.2)) <$> value_get p.1 chat) addon_payloads with
      | [] => Value.Object []
      | (payload, kind) :: _ =>
          let user := value_get §"user" chat in
          json_object
            ([(§"type", js kind)]
             ++ opt §"message" Datatypes.id (graft_sender user (value_get §"message" payload))
             ++ opt §"user" Datatypes.id user
             ++ opt §"space" Datatypes.id (or_key §"space" payload chat)
             ++ opt §"thread" Datatypes.id (or_key §"thread" payload chat)
             ++ opt §"common" Datatypes.id (value_get §"commonEventObject" raw))
      end
  | _ => raw
  end.

(** ** Text to a call *)

(** [trim_start_matches] of a string. *)
Fixpoint trim_start_str (fuel : nat) (pat s : str) : str :=
  match fuel, strip_prefix pat s with
  | S fuel, Some rest => trim_start_str fuel pat rest
  | _, _ => s
  end.

Definition gc_route_command (text default_tool : str) : str * Value :=
  let strip pat s := trim_start_str (length s) pat s in
  let trimmed := trim_start (strip §"@bot" (strip §"@bot " text)) in
  let fallback := (default_tool, json_object [(§"message", js trimmed)]) in
  match strip_prefix §"/" trimmed with
  | None => fallback
  | Some rest =>
      let '(tool, subject) := default (rest, []) (split_once " " rest) in
      if decide (tool = §"narrate") then (§"narrate", json_object [(§"subject", js subject)])
      else if decide (tool = §"help") then (§"help", json_object [])
      else if decide (tool = §"feedback") then (§"feedback", json_object [(§"text", js subject)])
      else fallback
  end.

(** What a delivery asks for: nothing, a refusal with its answer, or a turn. *)
Record Turn := {
  tn_sender : str;
  tn_tool : str;
  tn_args : Value;
  tn_echo : option str;
  (** of a message: its text *)
  tn_text : option str;
  (** of a click: its token and its filled inputs *)
  tn_token : option str;
  tn_inputs : list (str * str);
}.
Inductive Intent :=
  | Refused (m answer : str)
  | Ignored
  | Asks (t : Turn).

Definition actor (o : option str) : str := default [] o.

Definition intent_of (default_tool : str) (e : GoogleChatEvent) : Intent :=
  if decide (ev_kind e = §"MESSAGE") then
    match ev_message e with
    | None => Refused §"MESSAGE event missing message body" §"missing message"
    | Some m =>
        match nonempty (ms_text m) with
        | None => Ignored
        | Some text =>
            let '(tool, args) := gc_route_command text default_tool in
            Asks {| tn_sender := actor (ms_sender m); tn_tool := tool; tn_args := args; tn_echo := None;
                    tn_text := Some text; tn_token := None; tn_inputs := [] |}
        end
    end
  else if decide (ev_kind e = §"CARD_CLICKED") then
    match event_card_token e with
    | None => Refused §"CARD_CLICKED missing correlation token" §"missing action"
    | Some token =>
        Asks {| tn_sender := actor (ev_user e); tn_tool := []; tn_args := Value.Null;
                tn_echo := event_action_echo e; tn_text := None; tn_token := Some token;
                tn_inputs := filter (λ x, is_empty x.2 = false) (event_form_inputs e) |}
    end
  else if decide (ev_kind e = §"ADDED_TO_SPACE") then
    Asks {| tn_sender := actor (ev_user e); tn_tool := §"help"; tn_args := Value.Object [];
            tn_echo := None; tn_text := None; tn_token := None; tn_inputs := [] |}
  else Ignored.

Definition is_card_click (e : GoogleChatEvent) : bool := bool_decide (ev_kind e = §"CARD_CLICKED").

(** The values a control was filled with, over the signed arguments. *)
Definition merge_inputs (inputs : list (str * str)) (args : Value) : Value :=
  match inputs with
  | [] => args
  | _ => Value.Object (foldl (λ m x, Map.insert x.1 (js x.2) m)
                         match args with Value.Object m => m | _ => [] end inputs)
  end.

Definition is_valid_user_sender (name : str) : bool :=
  match strip_prefix §"users/" name with Some i => negb (is_empty i) | None => false end.

(** ** Sealed conversation references *)

Record GoogleChatConversationRef := {
  cr_space : str; cr_thread : str; cr_sender : str; cr_tenant_id : str;
}.
Definition reference_value (r : GoogleChatConversationRef) : Value :=
  json_object [(§"space", js (cr_space r)); (§"thread", js (cr_thread r));
               (§"sender", js (cr_sender r)); (§"tenant_id", js (cr_tenant_id r))].
(** The derived deserializer. *)
Definition read_reference (v : Value) : option GoogleChatConversationRef :=
  space ← get_str §"space" v;
  thread ← get_str §"thread" v;
  sender ← get_str §"sender" v;
  tenant_id ← get_str §"tenant_id" v;
  Some {| cr_space := space; cr_thread := thread; cr_sender := sender; cr_tenant_id := tenant_id |}.

Definition reference_ok (r : GoogleChatConversationRef) : bool :=
  starts_with §"spaces/" (cr_space r)
  && (is_empty (cr_thread r) || starts_with (cr_space r ++ §"/threads/") (cr_thread r))
  && starts_with §"users/" (cr_sender r) && negb (is_empty (cr_tenant_id r)).

(** ** Readings *)

(** What the minting of a bearer reads. *)
Record MintReadings := { mr_service : MintEnv; mr_wif : WifEnv }.

(** What the building of a reply reads: the clock of the tokens ([None] before
    the epoch) and of the image links, and the dispatch of the theme. *)
Record ReplyEnv := { re_mint_now : option Z; re_image_now : Z; re_theme : Clock }.

(** What one delivery reads. *)
Record HookEnv (W : Type) := {
  hk_chat : ChatEnv;
  (** the verification of its bearer *)
  hk_unix : Z;
  hk_keys : KeyEnv;
  (** the resolver's dispatch and its fresh id *)
  hk_resolve : Clock;
  hk_resolve_uuid : str;
  hk_token_now : option Z;
  (** [Some f]: the document took longer than its four seconds, and [f] is what
      the abandoned call did outside *)
  hk_doc_abandoned : option (W → W);
  hk_hint_now : Z;
  hk_reply : ReplyEnv;
}.
Arguments hk_chat {W} _.
Arguments hk_unix {W} _.
Arguments hk_keys {W} _.
Arguments hk_resolve {W} _.
Arguments hk_resolve_uuid {W} _.
Arguments hk_token_now {W} _.
Arguments hk_doc_abandoned {W} _.
Arguments hk_hint_now {W} _.
Arguments hk_reply {W} _.

(** The headers a delivery is read for; [Some None] is a value that is not
    visible ASCII. *)
Record Headers := {
  hd_authorization : option (option str);
  hd_forwarded_host : option (option str);
  hd_host : option (option str);
}.
Definition no_headers : Headers :=
  {| hd_authorization := None; hd_forwarded_host := None; hd_host := None |}.

(** [var] is [TRITON_GOOGLE_CHAT_PUBLIC_BASE]. *)
Definition public_base (var : option str) (h : Headers) : option str :=
  match nonempty ((λ b, trim_end_char "/" (trim b)) <$> var) with
  | Some base => Some base
  | None =>
      let header := match hd_forwarded_host h with Some v => Some v | None => hd_host h end in
      host ← nonempty (trim <$> mjoin header);
      if starts_with §"localhost" host || starts_with §"127.0.0.1" host then None
      else Some (§"https://" ++ host)
  end.

(** ** Answers, calls, tasks *)

Inductive ChatAnswer :=
  | PlainAnswer (r : Response)
  | JsonAnswer (status : Z) (body : Value).

(** What a spawned courier task is given. *)
Record CourierTask := {
  ct_space : str;
  ct_base : option str;
  ct_tool : str;
  ct_args : Value;
  ct_principal : Principal;
  ct_sender : str;
  ct_echo : option str;
}.
Definition Outcome : Type := ChatAnswer * option CourierTask.

Inductive HttpMethod := POST | PATCH.
Record ApiCall := {
  ac_method : HttpMethod;
  ac_url : str;
  ac_query : list (str * str);
  ac_bearer : str;
  ac_body : Value;
}.
(** No response, with the error's text; or a status and the body, when it is
    JSON. *)
Inductive ApiReply := NoReply (error : str) | Replied (status : Z) (body : option Value).

(** A message's status and resource name, or the text of what failed. *)
Abbreviation Sent := (result (Z * option str) str).

Definition is_success (status : Z) : bool := (200 <=? status)%Z && (status <? 300)%Z.

(** [body[key] = v] *)
Definition set_entry (key : str) (v body : Value) : option Value :=
  match body with
  | Value.Object m => Some (Value.Object (Map.insert key v m))
  | Value.Null => Some (json_object [(key, v)])
  | _ => None
  end.

(** The images of a card, as the route answers for one. *)
Inductive ImageAnswer :=
  | ImagePlain (status : Z) (body : str)
  | ImagePng (png : str).

(** The places a courier task sends from. *)
Inductive CourierSite := AtPlaceholder | AtProgress (n : nat) | AtAnswer | AtFallback | AtNotice.

(** What a courier task reads: the clocks of its dispatch and of the delivery;
    when its stream was opened and dropped; the age of the last edit at each
    token; the bearers; the reply. *)
Record CourierEnv := {
  ce_stream : Clock;
  ce_stream_when : str;
  ce_opened : Z;
  ce_drop : Z;
  ce_since_edit : nat → Z;
  ce_delivery : Clock;
  ce_mint : CourierSite → MintReadings;
  ce_hint_now : Z;
  ce_reply : ReplyEnv;
}.

Section Handlers.
Context {W : Type} `{SerdeJson, TokenLib, Crypto, UrlParse, SerdeA2ui}.
Variable cell : HttpHosts.
Variable debug_set : gset str → str.
Variable a2ui_envelope : A2uiVersion → Value → result Value str.
(** The two environment variables, the second as its flag. *)
Variable base_var : option str.
Variable doc_dialog : bool.
Variable alphanumeric : str → bool.
(** [serde_json::from_value] into an event, with its error's text, and that of
    the error of a body that is not JSON. *)
Variable parse_event : Value → result GoogleChatEvent str.
Variable body_error : str → str.
Variable decode_reply : Value → result ResolverReply str.
Variable iter : gmap str (Tracked spec_float) → list (str * Tracked spec_float).
Variable two_decimals : RetryAfter spec_float → str.
(** The Chat API, and the renderer of a dashboard: the decoder of its request
    and the drawing. *)
Variable api : ApiCall → W → ApiReply * W.
Variable read_request : Value → option RasterDashboard.
Variable draw_png : str → Z → Z → result str str.
(** The standard base64 decoder. *)
Variable b64_decode : str → option str.
Variable ad : GoogleChatAdapter W.

Definition on_chat {A} (m : ST (ChatState W) A) : ST (GcState W) A :=
  λ s, let '(a, c) := m (gs_chat s) in (a, Build_GcState c (gs_verifier s) (gs_token s)).
Definition on_world {A} (f : World W → A * World W) : ST (GcState W) A := on_chat (on_chat_world f).
Definition to_world (f : World W → World W) : ST (GcState W) unit := on_chat (to_chat_world f).
Definition on_verifier {A} (f : GoogleJwtVerifier → A * GoogleJwtVerifier) : ST (GcState W) A :=
  λ s, let '(a, v) := f (gs_verifier s) in (a, Build_GcState (gs_chat s) v (gs_token s)).
Definition on_token {A} (f : option CachedToken → A * option CachedToken) : ST (GcState W) A :=
  λ s, let '(a, t) := f (gs_token s) in (a, Build_GcState (gs_chat s) (gs_verifier s) t).
Definition on_outside {A} (f : W → A * W) (w : World W) : A * World W :=
  let '(a, o) := f (outside w) in (a, set_outside o w).

Definition gc_signing_key : str := default [] (signing (gc_correlation_key ad)).
Definition gc_binding (tenant sender : str) : Binding :=
  {| b_platform := §"google_chat"; b_tenant := tenant; b_sender := sender |}.

(** ** Links to images *)

Definition image_url (base : option str) (marker : str) (payload : Value) : option str :=
  base ← base;
  match encode_with_cap marker payload gc_signing_key DASHBOARD_TOKEN_CAP with
  | Ok token => Some (base ++ §"/" ++ gc_name ad ++ §"/img/" ++ token)
  | Err _ => None
  end.

Definition dashboard_spec (d : DashboardData) : Value :=
  json_object [(§"title", js d.1);
               (§"tiles", Value.Array ((λ t : str * str, json_object [(§"label", js t.1); (§"value", js t.2)])
                                         <$> d.2))].
Definition dashboard_image_url (now : Z) (base : option str) (d : DashboardData) : option str :=
  image_url base DASHBOARD_MARKER
    (json_object [(§"s", dashboard_spec d); (§"exp", num (now + IMG_TOKEN_TTL_SECS))]).
Definition report_image_url (now : Z) (base : option str) (rargs : Value) : option str :=
  image_url base RENDER_REPORT_IMG_MARKER
    (json_object [(§"a", rargs); (§"exp", num (now + IMG_TOKEN_TTL_SECS))]).

Definition upstream_png_bytes (res : Value) : option str := find_png res ≫= b64_decode.

(** ** Replies *)

Definition render_dispatch_result (res : Value) : result GChatMessage TelegramMapper.RenderError :=
  match gchat_try_render cell doc_dialog res with
  | Some r => r
  | None =>
      let text := bare_text res in
      if is_empty text then Err EmptyAfterRender
      else Ok {| gm_text := text; gm_deferred_buttons := 0; gm_deferred_selections := 0;
                 gm_deferred_forms := 0; gm_deferred_dashboards := 0; gm_truncated := false |}
  end.

(** The controls with their tokens; one whose token does not fit is dropped. *)
Definition sign_specs (now : option Z) (tenant sender : str) (specs : list InteractiveSpec)
    : list (InteractiveSpec * str) :=
  omap (λ spec,
    match encode_bound now (spec_tool spec) (base_args spec) gc_signing_key CARD_CORRELATION_CAP
            (gc_binding tenant sender) (Some CARD_TOKEN_TTL_SECS) with
    | Ok token => Some (spec, token)
    | Err _ => None
    end) specs.

(** What the user tapped, above the answer. *)
Definition echo_line (echo : option str) : option str :=
  e ← nonempty echo; Some (§"*↳ " ++ replace_char "*" §"\*" e ++ §"*").
Definition with_echo (echo : option str) (text : str) : str :=
  match echo_line echo with Some l => l ++ nl ++ nl ++ text | None => text end.

Definition report_args (report_id : str) (args : Value) : Value :=
  Value.Object (Map.insert §"report_id" (js report_id)
                  match args with Value.Object m => m | _ => [] end).

(** The dashboard of the reply and its image: its own, or that of a report. *)
Definition reply_chart (now : Z) (base : option str) (res : Value)
    : option DashboardData * option str :=
  match dashboard_from_result cell res with
  | Some d => (Some d, dashboard_image_url now base d)
  | None =>
      match report_from_result cell res with
      | Some (report_id, args) =>
          match report_image_url now base (report_args report_id args) with
          | Some url => (Some ([], []), Some url)
          | None => (None, None)
          end
      | None => (None, None)
      end
  end.

Definition click_endpoint_of (base : option str) : option str :=
  (λ b, trim_end_char "/" b ++ §"/" ++ gc_name ad ++ §"/webhook") <$> base.

(** The chrome of a card, which every reply dispatches for. *)
Definition fetch_theme (c : Clock) (p : Principal) (w : World W) : CardChrome * World W :=
  let '(r, w) := invoke debug_set (gc_dispatcher ad) c §"get_theme" (Value.Object []) p PROTOCOL w in
  (match r with Ok t => from_get_theme (dr_result t) | Err _ => default_chrome end, w).

(** The body, once the chrome is known; [None]: the card panics. *)
Definition reply_body (env : ReplyEnv) (base : option str) (rendered : GChatMessage) (res : Value)
    (echo : option str) (p : Principal) (sender : str) (workspace_addon : bool)
    (image_hint : option str) (chrome : CardChrome) : option Value :=
  let signed := sign_specs (re_mint_now env) (tenant p) sender
                  (interactive_from_result cell doc_dialog res) in
  let rich := md ← answer_markdown cell doc_dialog res; rich_answer alphanumeric md in
  let answer_text := match rich with Some r => chat_text (ra_lead_md r) | None => gm_text rendered end in
  let answer_sections := match rich with Some r => ra_sections r | None => [] end in
  let reply_text := with_echo echo answer_text in
  let '(dashboard, dash_img) := reply_chart (re_image_now env) base res in
  match (match dashboard with None => image_hint | Some _ => None end) with
  | Some url =>
      Some (image_reply_card (default [] (echo_line echo)) url workspace_addon chrome)
  | None =>
      if is_empty signed && bool_decide (dashboard = None) && is_empty answer_sections
      then Some (text_reply_body reply_text workspace_addon)
      else build_interactive_card_with_answer reply_text answer_sections dashboard dash_img signed
             workspace_addon chrome (click_endpoint_of base)
  end.

Definition build_reply_message (env : ReplyEnv) (base : option str) (res : Value)
    (echo : option str) (p : Principal) (sender : str) (workspace_addon : bool)
    (image_hint : option str) (w : World W) : option (result Value TelegramMapper.RenderError) * World W :=
  match render_dispatch_result res with
  | Err e => (Some (Err e), w)
  | Ok rendered =>
      let '(chrome, w) := fetch_theme (re_theme env) p w in
      (Ok <$> reply_body env base rendered res echo p sender workspace_addon image_hint chrome, w)
  end.

(** ** The Chat API *)

(** The bearer, or why there is none. *)
Definition minted_bearer (prefix : str) (r : Minted MinterError) : option (result str str) :=
  match r with
  | Answer r => Some (result_map_err (λ e, prefix ++ minter_error_str e) r)
  | Panics => None
  end.
Definition acquire_token (m : MintReadings) : ST (GcState W) (option (result str str)) :=
  match gc_outbound ad with
  | StaticToken t => ret (Some (Ok t))
  | ServiceAccount minter =>
      r ←ₛ on_token (access_token minter (mr_service m));
      ret (minted_bearer §"service-account token mint: " r)
  | WorkloadIdentity key =>
      r ←ₛ on_token (wif_access_token key (mr_wif m));
      ret (minted_bearer §"workload-identity token mint: " r)
  | NoAuth => ret (Some (Err §"no outbound token resolved"))
  end.

Definition api_base : str := trim_end_char "/" (cc_api_base (gc_courier ad)).

(** The body and the query of a message in a thread. *)
Definition threaded (thread : option str) (body : Value) : option (Value * list (str * str)) :=
  match nonempty thread with
  | Some t =>
      (λ b, (b, [(§"messageReplyOption", §"REPLY_MESSAGE_OR_FAIL")]))
        <$> set_entry §"thread" (json_object [(§"name", js t)]) body
  | None => Some (body, [])
  end.

Definition create_call (space bearer : str) (x : Value * list (str * str)) : ApiCall :=
  {| ac_method := POST; ac_url := api_base ++ §"/v1/" ++ space ++ §"/messages";
     ac_query := x.2; ac_bearer := bearer; ac_body := x.1 |}.
Definition patch_call (name bearer : str) (body : Value) : ApiCall :=
  {| ac_method := PATCH; ac_url := api_base ++ §"/v1/" ++ name ++ §"?updateMask=text,cardsV2";
     ac_query := []; ac_bearer := bearer; ac_body := body |}.

Definition created (r : ApiReply) : Sent :=
  match r with
  | NoReply e => Err e
  | Replied status body => Ok (status, b ← body; get_str §"name" b)
  end.
Definition patched (r : ApiReply) : result Z str :=
  match r with NoReply e => Err e | Replied status _ => Ok status end.

Definition send_chat_message_in_thread (m : MintReadings) (space : str) (thread : option str)
    (body : Value) : ST (GcState W) (option Sent) :=
  token ←ₚ acquire_token m;
  match token with
  | Err e => ret (Some (Err e))
  | Ok token =>
      match threaded thread body with
      | None => ret None
      | Some x =>
          r ←ₛ on_world (on_outside (api (create_call space token x)));
          ret (Some (created r))
      end
  end.
Definition send_chat_message (m : MintReadings) (space : str) (body : Value)
    : ST (GcState W) (option Sent) :=
  send_chat_message_in_thread m space None body.

Definition patch_chat_message (m : MintReadings) (name : str) (body : Value)
    : ST (GcState W) (option (result Z str)) :=
  token ←ₚ acquire_token m;
  match token with
  | Err e => ret (Some (Err e))
  | Ok token =>
      r ←ₛ on_world (on_outside (api (patch_call name token body)));
      ret (Some (patched r))
  end.

(** ** The courier *)

Definition posted_line (c : Clock) (tool_name : str) (p : Principal) (latency : Z)
    (outcome : result (Z * PostOutcome * option str) (TritonError * Z * PostOutcome * option str))
    : World W → World W :=
  record_post (gc_dispatcher ad) (c_when c) tool_name PROTOCOL p latency outcome.

Definition empty_surface : TritonError := Provider §"google_chat surface mapper: empty surface".

(** The events as the task is given them, and the stream when it is dropped
    after so many of them. *)
Definition yielded (env : CourierEnv) (s : Streamed (W := W)) : list Poll :=
  match s with
  | Buffered ev => [Item ev; End]
  | Audited _ b _ => (poll_run (Finalized_new (ce_opened env)) (answers b)).1
  end.
Definition dropped_after (k : nat) (s : Streamed (W := W)) : Streamed :=
  match s with
  | Buffered ev => Buffered ev
  | Audited _ b off =>
      let answers' := take k (answers b) in
      Audited (classify answers'.*2) {| answers := answers'; settle := settle b |} off
  end.

(** The loop over the events: the growing text is edited into the placeholder,
    at most once in its interval.  [Err k]: the task panicked at the [k]th. *)
Fixpoint follow (env : CourierEnv) (placeholder : option str) (n : nat) (polls : list Poll)
    (acc : str) (terminal : option (result Value TritonError))
    : ST (GcState W) (result (option (result Value TritonError)) nat) :=
  match polls with
  | [] | End :: _ => ret (Ok terminal)
  | Pending :: polls => follow env placeholder (S n) polls acc terminal
  | Item (StreamEvent.Token t) :: polls =>
      let acc := acc ++ t in
      let go := follow env placeholder (S n) polls acc terminal in
      match placeholder with
      | Some name =>
          if (PATCH_INTERVAL <=? ce_since_edit env n)%Z && negb (is_empty (trim acc)) then
            r ←ₛ patch_chat_message (ce_mint env (AtProgress n)) name (text_reply_body acc false);
            match r with Some _ => go | None => ret (Err (S n)) end
          else go
      | None => go
      end
  | Item (StreamEvent.Done v) :: polls => follow env placeholder (S n) polls acc (Some (Ok v))
  | Item (StreamEvent.Error e _) :: polls => follow env placeholder (S n) polls acc (Some (Err e))
  | Item _ :: polls => follow env placeholder (S n) polls acc terminal
  end.

Definition stream_result (terminal : option (result Value TritonError)) : result Value TritonError :=
  default (Err (Provider §"stream ended without a terminal frame")) terminal.

Definition close_stream (env : CourierEnv) (tool_name : str) (p : Principal) (s : Streamed)
    : ST (GcState W) unit :=
  to_world (λ w, (consume (gc_dispatcher ad) (ce_stream_when env) tool_name PROTOCOL p (ce_opened env)
                    (ce_drop env) s w).2).

Definition stream_turn (env : CourierEnv) (placeholder : option str) (tool_name : str) (args : Value)
    (p : Principal) : ST (GcState W) (option (result Value TritonError)) :=
  r ←ₛ on_world (invoke_streaming_with debug_set a2ui_envelope (gc_dispatcher ad) (ce_stream env)
                   tool_name args p PROTOCOL None no_overrides);
  match r with
  | Err e => ret (Some (Err e))
  | Ok s =>
      x ←ₛ follow env placeholder 0 (yielded env s) [] None;
      match x with
      | Ok terminal => _ ←ₛ close_stream env tool_name p s; ret (Some (stream_result terminal))
      | Err k => _ ←ₛ close_stream env tool_name p (dropped_after k s); ret None
      end
  end.

(** The placeholder's resource name, when it was created and has one. *)
Definition post_placeholder (env : CourierEnv) (space : str) : ST (GcState W) (option (option str)) :=
  r ←ₚ send_chat_message (ce_mint env AtPlaceholder) space (text_reply_body WORKING false);
  ret (Some match r with Ok (status, name) => if is_success status then name else None | Err _ => None end).

Definition create_at (env : CourierEnv) (site : CourierSite) (space : str) (body : Value)
    : ST (GcState W) (option (result Z str)) :=
  r ←ₚ send_chat_message (ce_mint env site) space body; ret (Some (result_map fst r)).

(** The placeholder becomes the answer; refused, the answer is a message of its
    own. *)
Definition deliver_body (env : CourierEnv) (space : str) (placeholder : option str) (body : Value)
    : ST (GcState W) (option (result Z str)) :=
  match placeholder with
  | None => create_at env AtAnswer space body
  | Some name =>
      r ←ₚ patch_chat_message (ce_mint env AtAnswer) name body;
      match r with
      | Ok status => if is_success status then ret (Some (Ok status)) else create_at env AtFallback space body
      | Err _ => create_at env AtFallback space body
      end
  end.

(** What a delivery means, in the two wordings the source has. *)
Definition delivery_outcome (status_text transport_text : str) (r : result Z str)
    : result (Z * PostOutcome * option str) (TritonError * Z * PostOutcome * option str) :=
  match r with
  | Ok status =>
      if is_success status then Ok (status, Posted, None)
      else Err (Provider (status_text ++ dec status), status,
                if (500 <=? status)%Z || (status =? 429)%Z then Retry else Dropped, None)
  | Err e => Err (Provider (transport_text ++ e), 0%Z, Retry, None)
  end.

(** A notice in the placeholder, its outcome ignored. *)
Definition patch_notice (env : CourierEnv) (placeholder : option str) (notice : str)
    : ST (GcState W) (option unit) :=
  match placeholder with
  | Some name =>
      _ ←ₚ patch_chat_message (ce_mint env AtNotice) name (text_reply_body notice false); ret (Some ())
  | None => ret (Some ())
  end.

Definition error_notice (env : CourierEnv) (space : str) (placeholder : option str) (e : TritonError)
    : ST (GcState W) (option unit) :=
  let notice := §"(error: " ++ class e ++ §")" in
  match placeholder with
  | Some _ => patch_notice env placeholder notice
  | None =>
      _ ←ₚ send_chat_message (ce_mint env AtNotice) space (text_reply_body notice false); ret (Some ())
  end.

Definition courier_reply (env : CourierEnv) (t : CourierTask) : ST (GcState W) (option unit) :=
  let p := ct_principal t in
  let tool_name := ct_tool t in
  let image_hint :=
    if decide (tool_name = §"render_report")
    then report_image_url (ce_hint_now env) (ct_base t) (ct_args t) else None in
  placeholder ←ₚ post_placeholder env (ct_space t);
  result ←ₚ stream_turn env placeholder tool_name (ct_args t) p;
  match result with
  | Err e =>
      _ ←ₛ to_world (posted_line (ce_delivery env) tool_name p 0
                       (Err (e, 0%Z, Dropped, Some §"error_response")));
      error_notice env (ct_space t) placeholder e
  | Ok v =>
      built ←ₚ on_world (build_reply_message (ce_reply env) (ct_base t) v (ct_echo t) p (ct_sender t)
                           false image_hint);
      match built with
      | Err EmptyAfterRender =>
          _ ←ₛ to_world (posted_line (ce_delivery env) tool_name p 0
                           (Err (empty_surface, 0%Z, Dropped, None)));
          patch_notice env placeholder §"(no answer produced)"
      | Ok body =>
          outcome ←ₚ deliver_body env (ct_space t) placeholder body;
          safe (to_world (posted_line (ce_delivery env) tool_name p (elapsed_ms (ce_delivery env))
                            (delivery_outcome §"google chat messages POST status "
                               §"google chat transport: " outcome)))
      end
  end.

(** ** Proactive sends *)

Definition conversation_reference_json (r : GoogleChatConversationRef) : Value :=
  json_object
    [(§"channel", js §"googlechat");
     (§"ref", js match encode_with_cap CONVERSATION_REF_MARKER (reference_value r) gc_signing_key
                         CONVERSATION_REF_CAP with
                 | Ok sealed => sealed
                 | Err _ => []
                 end)].

Definition open_sealed_reference (req : OutboundRequest) : result GoogleChatConversationRef TritonError :=
  sealed ←? ok_or (r ← req_reference req; get_str §"ref" r)
              (Forbidden §"googlechat outbound requires an inbound sealed reference");
  x ←? result_map_err (λ _, Forbidden §"googlechat conversation reference seal is invalid")
         (decode_with_cap_any sealed (gc_correlation_key ad) CONVERSATION_REF_CAP);
  if decide (x.1 ≠ CONVERSATION_REF_MARKER) then
    Err (Forbidden §"sealed token is not a conversation reference")
  else
    r ←? ok_or (read_reference x.2) (Forbidden §"malformed sealed reference");
    if reference_ok r then Ok r else Err (Forbidden §"malformed sealed reference").

Definition authorize (req : OutboundRequest) (p : Principal) : result unit TritonError :=
  if negb (cc_enabled (gc_courier ad)) then Err (Forbidden §"googlechat outbound courier is disabled")
  else
    r ←? open_sealed_reference req;
    if negb (bool_decide (cr_tenant_id r = tenant p))
       || (negb (is_empty (req_to req)) && negb (bool_decide (req_to req = cr_sender r)))
    then Err (Forbidden §"googlechat outbound tenant or recipient mismatch")
    else Ok ().

(** [c] times the POST. *)
Definition deliver (env : ReplyEnv) (m : MintReadings) (c : Clock) (req : OutboundRequest)
    (p : Principal) : ST (GcState W) (option (result unit TritonError)) :=
  match (_ ←? authorize req p; open_sealed_reference req) with
  | Err e => ret (Some (Err e))
  | Ok r =>
      built ←ₚ on_world (build_reply_message env (public_base base_var no_headers) (req_result req) None p
                           (cr_sender r) false None);
      match built with
      | Err EmptyAfterRender =>
          ret (Some (Err (Provider §"googlechat outbound render: EmptyAfterRender")))
      | Ok body =>
          sent ←ₚ send_chat_message_in_thread m (cr_space r) (Some (cr_thread r)) body;
          let outcome := delivery_outcome §"googlechat messages POST status "
                           §"googlechat messages POST: " (result_map fst sent) in
          _ ←ₛ to_world (record_post_to (gc_dispatcher ad) (c_when c) OUTBOUND_TOOL PROTOCOL p
                           (elapsed_ms c) outcome (Some (cr_space r)));
          ret (Some match outcome with Ok _ => Ok () | Err (e, _, _, _) => Err e end)
      end
  end.

(** ** The images of a card *)

(** [is_none_or(|exp| exp < now)] *)
Definition link_expired (now : Z) (spec : Value) : bool :=
  match value_get §"exp" spec ≫= as_u64 with Some exp => (exp <? now)%Z | None => true end.

Definition image_principal (trace : str) : Principal :=
  {| sub := §"googlechat-img"; scopes := [§"chat"]; groups := []; tenant := §"-"; raw_token := [];
     trace_id := trace; sender_ref := None; conversation_ref := None; idp := None |}.

Definition dashboard_png (spec : Value) : ImageAnswer :=
  match value_get §"s" spec with
  | None => ImagePlain 404 §"not found"
  | Some inner =>
      match read_request inner with
      | None => ImagePlain 400 §"bad spec"
      | Some req =>
          match validate req with
          | Err _ => ImagePlain 400 §"spec too large"
          | Ok _ =>
              let '(svg, height) := build req in
              match draw_png svg DASHBOARD_PNG_WIDTH height with
              | Ok png => ImagePng png
              | Err _ => ImagePlain 500 §"render failed"
              end
          end
      end
  end.

(** [now] is the clock of the expiry check, [trace] a fresh id. *)
Definition serve_dashboard_png (now : Z) (c : Clock) (trace token : str) (w : World W)
    : ImageAnswer * World W :=
  match decode_with_cap_any token (gc_correlation_key ad) DASHBOARD_TOKEN_CAP with
  | Err _ => (ImagePlain 404 §"not found", w)
  | Ok (marker, spec) =>
      if decide (marker = RENDER_REPORT_IMG_MARKER) then
        if link_expired now spec then (ImagePlain 410 §"image link expired", w)
        else
          match value_get §"a" spec with
          | None => (ImagePlain 404 §"not found", w)
          | Some rargs =>
              let '(r, w) := invoke debug_set (gc_dispatcher ad) c §"render_report" rargs
                               (image_principal trace) PROTOCOL w in
              (match r with
               | Ok rep => match upstream_png_bytes (dr_result rep) with
                           | Some png => ImagePng png
                           | None => ImagePlain 502 §"render produced no image"
                           end
               | Err _ => ImagePlain 502 §"render failed"
               end, w)
          end
      else if decide (marker ≠ DASHBOARD_MARKER) then (ImagePlain 404 §"not found", w)
      else if link_expired now spec then (ImagePlain 410 §"image link expired", w)
      else (dashboard_png spec, w)
  end.

(** ** The webhook *)

Definition reject (env : HookEnv W) (sub tenant : str) (e : TritonError) : ST (GcState W) unit :=
  let ce := hk_chat env in
  to_world (record_rejection (gc_dispatcher ad) (ce_reject_when ce) (ce_reject_now ce) (gc_name ad)
              PROTOCOL sub tenant (ce_reject_uuid ce) e).
Definition answered (a : ChatAnswer) : ST (GcState W) (option Outcome) := ret (Some (a, None)).
Definition refuse (env : HookEnv W) (sub tenant : str) (e : TritonError) (r : Response)
    : ST (GcState W) (option Outcome) :=
  _ ←ₛ reject env sub tenant e; answered (PlainAnswer r).

Definition empty_answer : ChatAnswer := JsonAnswer 200 (Value.Object []).

(** The token of the header. *)
Definition webhook_bearer (h : Headers) : option str :=
  let auth := default [] (mjoin (hd_authorization h)) in
  let t := match strip_prefix §"Bearer " auth with
           | Some t => Some t
           | None => strip_prefix §"bearer " auth
           end in
  trim <$> nonempty t.

Definition resolve_sender (identity : GcIdentityMode) (sender_name : str)
    : option (str * list str * str) :=
  match identity with
  | GcSenderTable table =>
      (λ r, (r_sub r, r_scopes r, r_tenant r)) <$> SenderTable_resolve table sender_name
  | GcSelfEnrol table =>
      if is_valid_user_sender sender_name then
        Some match table !! sender_name with
             | Some c => (sender_name, ec_scopes c, ec_tenant c)
             | None => (sender_name, [PAIRING_SCOPE], PAIRING_TENANT)
             end
      else None
  | GcUpstream _ => None
  end.

(** The sender, by any of the strategies, or the refusal and its text. *)
Definition resolve_identity (env : HookEnv W) (sender_name : str) (w : World W)
    : result (str * list str * str) (TritonError * str) * World W :=
  match gc_identity ad with
  | GcUpstream up =>
      let '(r, w) := resolver_resolve debug_set decode_reply up (gc_dispatcher ad) (hk_resolve env)
                       (hk_resolve_uuid env) sender_name w in
      (match r with
       | Ok r => Ok (r_sub r, r_scopes r, r_tenant r)
       | Err e => Err (e, §"identity resolution failed")
       end, w)
  | other =>
      (ok_or (resolve_sender other sender_name)
         (Auth (§"unknown sender `" ++ sender_name ++ §"`"), §"unknown sender"), w)
  end.

Definition hook_principal (env : HookEnv W) (e : GoogleChatEvent) (sender_name : str)
    (claims : str * list str * str) : Principal :=
  let '(sub, scopes, tenant) := claims in
  {| sub := sub; scopes := scopes; groups := []; tenant := tenant; raw_token := [];
     trace_id := ce_trace (hk_chat env);
     sender_ref := match gc_identity ad with GcUpstream _ => Some sender_name | _ => None end;
     conversation_ref :=
       if cc_enabled (gc_courier ad) then
         (λ space, conversation_reference_json
            {| cr_space := space; cr_thread := default [] (event_thread_name e);
               cr_sender := sender_name; cr_tenant_id := tenant |}) <$> nonempty (ev_space e)
       else None;
     idp := None |}.

(** The call of a turn: a click's comes out of its token, for its clicker. *)
Definition call_of (env : HookEnv W) (t : Turn) (p : Principal) : option (str * Value) :=
  match tn_token t with
  | None => Some (tn_tool t, tn_args t)
  | Some token =>
      match decode_bound_any (hk_token_now env) token (gc_correlation_key ad) CARD_CORRELATION_CAP
              (gc_binding (tenant p) (tn_sender t)) with
      | Ok (tool, args) => Some (tool, merge_inputs (tn_inputs t) args)
      | Err _ => None
      end
  end.

Definition text_of_arg (k : str) (args : Value) : str := default [] (get_str k args).

(** The dialog's post line has no latency. *)
Definition posted_inline (env : HookEnv W) (tool_name : str) (p : Principal)
    (outcome : result (Z * PostOutcome * option str) (TritonError * Z * PostOutcome * option str))
    : ST (GcState W) unit :=
  to_world (posted_line (ce_post (hk_chat env)) tool_name p 0 outcome).

(** The card of a document: [invoke] under a timeout of four seconds.  A call
    the gate refuses is over at once; one that is abandoned leaves no line. *)
Definition document_card (env : HookEnv W) (skill i : str) (p : Principal) (w : World W)
    : Value * World W :=
  let rargs := json_object
    [(§"report_id", js §"document");
     (§"params", json_object [(§"skill", js skill); (§"id", js i)])] in
  let unavailable := build_document_dialog
    (json_object [(§"document", json_object [(§"id", js (skill ++ §" · " ++ i))])]) in
  let d := gc_dispatcher ad in
  let c := ce_dispatch (hk_chat env) in
  let passed := match (gate debug_set d c §"render_report" PROTOCOL p w).1 with
                | None => true | Some _ => false end in
  match (if passed : bool then hk_doc_abandoned env else None) with
  | Some f => (unavailable, set_outside (f (outside w)) w)
  | None =>
      let '(r, w) := invoke debug_set d c §"render_report" rargs p PROTOCOL w in
      (match r with
       | Ok dr => build_document_dialog (default Value.Null (find_document_structured (dr_result dr)))
       | Err _ => unavailable
       end, w)
  end.

Definition open_document (env : HookEnv W) (args : Value) (p : Principal) (workspace_addon : bool)
    : ST (GcState W) (option Outcome) :=
  let skill := text_of_arg §"skill" args in
  let i := text_of_arg §"id" args in
  card ←ₛ (if is_empty skill || is_empty i then ret (build_document_dialog Value.Null)
           else on_world (document_card env skill i p));
  _ ←ₛ posted_inline env OPEN_DOC_TOOL p (Ok (200%Z, Posted, None));
  answered (JsonAnswer 200 (dialog_response card workspace_addon)).

Definition chooser_prompt : str :=
  §"Which agent should handle this? Pick one below, or type `/use <name>` any time (`/agents` to list, `/whoami` to check).".

(** The buttons of a chooser; a token that does not fit drops its button. *)
Definition sign_choices (now : option Z) (tenant sender pending_text : str)
    (candidates : list AgentDescriptor) : list (str * str) :=
  omap (λ a,
    match encode_bound now USE_AGENT_TOOL
            (json_object [(§"id", js (Routing.id a)); (§"msg", js pending_text)]) gc_signing_key
            CARD_CORRELATION_CAP (gc_binding tenant sender) (Some CARD_TOKEN_TTL_SECS) with
    | Ok tok => Some (display a, tok)
    | Err _ => None
    end) candidates.

Definition answer_chooser (env : HookEnv W) (h : Headers) (p : Principal) (sender pending_text : str)
    (candidates : list AgentDescriptor) (workspace_addon : bool) : ST (GcState W) (option Outcome) :=
  chrome ←ₛ on_world (fetch_theme (re_theme (hk_reply env)) p);
  let signed := sign_choices (re_mint_now (hk_reply env)) (tenant p) sender pending_text candidates in
  match build_agent_chooser chooser_prompt signed workspace_addon chrome
          (click_endpoint_of (public_base base_var h)) with
  | None => ret None
  | Some body =>
      _ ←ₛ posted_inline env USE_AGENT_TOOL p (Ok (200%Z, Posted, None));
      answered (JsonAnswer 200 body)
  end.

(** What the host's router is asked, when there is one and the turn is a message
    or the pick of an agent. *)
Definition route_request (e : GoogleChatEvent) (t : Turn) (tool_name : str) (args : Value) (p : Principal)
    : option RouteCtx :=
  let pick := if decide (tool_name = USE_AGENT_TOOL)
              then Some (text_of_arg §"id" args, text_of_arg §"msg" args) else None in
  if bool_decide (is_Some (tn_text t)) || bool_decide (is_Some pick) then
    Some {| rx_key := ConvKey_googlechat (default [] (ev_space e))
                        (if cc_enabled (gc_courier ad) then default [] (event_thread_name e) else [])
                        (sub p);
            rx_text := default [] (tn_text t); rx_tenant := tenant p; rx_caller_sub := sub p;
            rx_pick := pick; rx_conversation_ref := conversation_ref p |}
  else None.

(** [Ok]: the call goes on, as it was or as it was routed. *)
Definition route_turn (env : HookEnv W) (h : Headers) (e : GoogleChatEvent) (t : Turn) (p : Principal)
    (workspace_addon : bool) (call : str * Value)
    : ST (GcState W) (option (result (str * Value) Outcome)) :=
  match (r ← gc_router ad; ctx ← route_request e t call.1 call.2 p; Some (r, ctx)) with
  | None => ret (Some (Ok call))
  | Some (router, ctx) =>
      outcome ←ₛ on_world (on_outside (router ctx));
      match outcome with
      | RouteDispatch agent_id text => ret (Some (Ok (gc_route_command text agent_id)))
      | RouteChooser candidates _ pending_text =>
          x ←ₚ answer_chooser env h p (tn_sender t) pending_text candidates workspace_addon;
          ret (Some (Err x))
      | RouteInfo text | RouteDeny text =>
          ret (Some (Err (JsonAnswer 200 (text_reply_body text workspace_addon), None)))
      end
  end.

(** The acknowledgement of a turn the courier takes. *)
Definition courier_ack (click workspace_addon : bool) : Value :=
  if click && negb workspace_addon then
    json_object [(§"actionResponse", json_object [(§"type", js §"NEW_MESSAGE")]); (§"text", js WORKING)]
  else Value.Object [].

Definition failed_status (e : TritonError) : Z := match e with Provider _ => 502 | _ => 200 end.

(** The answer in the body of the response. *)
Definition answer_inline (env : HookEnv W) (h : Headers) (t : Turn) (p : Principal)
    (workspace_addon : bool) (call : str * Value) : ST (GcState W) (option Outcome) :=
  let '(tool_name, args) := call in
  let base := public_base base_var h in
  let image_hint := if decide (tool_name = §"render_report")
                    then report_image_url (hk_hint_now env) base args else None in
  r ←ₛ on_world (invoke debug_set (gc_dispatcher ad) (ce_dispatch (hk_chat env)) tool_name args p
                   PROTOCOL);
  match r with
  | Err e =>
      _ ←ₛ posted_inline env tool_name p (Err (e, 0%Z, Dropped, Some §"error_response"));
      answered (JsonAnswer (failed_status e)
                  (text_reply_body (§"(error: " ++ class e ++ §")") workspace_addon))
  | Ok dispatch =>
      built ←ₚ on_world (build_reply_message (hk_reply env) base (dr_result dispatch) (tn_echo t) p
                           (tn_sender t) workspace_addon image_hint);
      match built with
      | Ok body =>
          _ ←ₛ posted_inline env tool_name p (Ok (200%Z, Posted, None));
          answered (JsonAnswer 200 body)
      | Err EmptyAfterRender =>
          _ ←ₛ posted_inline env tool_name p (Err (empty_surface, 0%Z, Dropped, None));
          answered empty_answer
      end
  end.

(** The courier takes the turn when it is on and there is a space to answer in. *)
Definition answer_turn (env : HookEnv W) (h : Headers) (e : GoogleChatEvent) (t : Turn) (p : Principal)
    (workspace_addon : bool) (call : str * Value) : ST (GcState W) (option Outcome) :=
  match (if cc_enabled (gc_courier ad) then nonempty (ev_space e) else None) with
  | Some space =>
      ret (Some (JsonAnswer 200 (courier_ack (is_card_click e) workspace_addon),
                 Some {| ct_space := space; ct_base := public_base base_var h; ct_tool := call.1;
                         ct_args := call.2; ct_principal := p; ct_sender := tn_sender t;
                         ct_echo := tn_echo t |}))
  | None => answer_inline env h t p workspace_addon call
  end.

(** From the resolved sender on. *)
Definition serve_turn (env : HookEnv W) (h : Headers) (e : GoogleChatEvent) (t : Turn)
    (workspace_addon : bool) (claims : str * list str * str) : ST (GcState W) (option Outcome) :=
  let ce := hk_chat env in
  let p := hook_principal env e (tn_sender t) claims in
  taken ←ₛ on_chat (on_chat_tenants (tenant_try_take iter (ce_tenant_now ce) (tenant p)));
  match taken with
  | Err wait =>
      refuse env (sub p) (tenant p)
        (RateLimited (§"tenant `" ++ tenant p ++ §"` rate limit hit on adapter `" ++ gc_name ad
                        ++ §"`; retry in " ++ two_decimals wait ++ §"s"))
        (too_many wait §"tenant rate limited")
  | Ok _ =>
      match call_of env t p with
      | None =>
          refuse env (sub p) (tenant p) (Auth §"CARD_CLICKED correlation token invalid")
            (respond 401 §"unauthorized")
      | Some call =>
          if decide (call.1 = OPEN_DOC_TOOL) then open_document env call.2 p workspace_addon
          else
            routed ←ₚ route_turn env h e t p workspace_addon call;
            match routed with
            | Ok call => answer_turn env h e t p workspace_addon call
            | Err x => ret (Some x)
            end
      end
  end.

Definition serve_event (env : HookEnv W) (h : Headers) (e : GoogleChatEvent) (workspace_addon : bool)
    : ST (GcState W) (option Outcome) :=
  match intent_of (gc_inbound_tool ad) e with
  | Refused m body => refuse env §"-" §"-" (Errors.Validation m) (respond 400 body)
  | Ignored => answered empty_answer
  | Asks t =>
      resolved ←ₛ on_world (resolve_identity env (tn_sender t));
      match resolved with
      | Err (err, body) => refuse env §"-" §"-" err (respond 401 body)
      | Ok claims => serve_turn env h e t workspace_addon claims
      end
  end.

Definition read_event (body : str) : result GoogleChatEvent str :=
  v ←? ok_or (json_from_str body) (body_error body);
  parse_event (normalize_addon_event v).

Definition handle_webhook (env : HookEnv W) (h : Headers) (body : str)
    : ST (GcState W) (option Outcome) :=
  match webhook_bearer h with
  | None =>
      refuse env §"-" §"-" (Auth §"missing or malformed Authorization header")
        (respond 401 §"unauthorized")
  | Some raw =>
      verified ←ₛ on_verifier (verify (hk_unix env) (hk_keys env) raw);
      match verified with
      | Err e =>
          refuse env §"-" §"-" (Auth (§"google jwt verify: " ++ verify_error_str e))
            (respond 401 §"unauthorized")
      | Ok claims =>
          taken ←ₛ on_chat (on_chat_rate (try_take (ce_rate_now (hk_chat env))));
          match taken with
          | Err wait =>
              refuse env §"-" §"-"
                (RateLimited (§"google_chat adapter `" ++ gc_name ad ++ §"` rate limit hit; retry in "
                                ++ two_decimals wait ++ §"s")) (too_many wait §"rate limited")
          | Ok _ =>
              match read_event body with
              | Err e =>
                  refuse env §"-" §"-" (Errors.Validation (§"malformed event body: " ++ e))
                    (respond 400 §"malformed")
              | Ok e => serve_event env h e (is_workspace_addon claims)
              end
          end
      end
  end.
End Handlers.

(** ** Boot *)

Inductive BuildError :=
  | BadIdentity (e : IdentityError)
  | BadCorrelationKey (e : KeyRingError)
  | WrongKind
  | Unsupported (m : str)
  | MissingCredential (field : str)
  | Resolve (field : str) (e : ResolveError)
  | TableParse (m : str)
  | ServiceAccountKeyError (e : MinterError).

Section Boot.
Context {W : Type} `{SerdeJson, TokenLib}.
Variable resolver : SecretField → result str ResolveError.
Variable decode_table : str → result SenderTable str.
Variable decode_enrol : str → result (gmap str EnrolClaims) str.
Variable http_client : result unit str.
(** [Instant::now()] when the bucket is created. *)
Variable now : Z.

Definition credential (field name : str) (m : Credentials) : result str BuildError :=
  f ←? ok_or (cred name m) (MissingCredential field);
  result_map_err (Resolve field) (resolver f).

Fixpoint validate_enrolled (entries : list (str * EnrolClaims)) : result unit IdentityError :=
  match entries with
  | [] => Ok ()
  | (key, c) :: entries =>
      _ ←? validate_table_entry key key (ec_tenant c); validate_enrolled entries
  end.

Definition build_identity (a : Adapter) (d : Dispatcher W) : result GcIdentityMode BuildError :=
  let creds := id_credentials (a_identity a) in
  match id_kind (a_identity a) with
  | KUpstream =>
      tool ←? credential §"identity.resolver_tool" §"resolver_tool" creds;
      result_map GcUpstream
        (result_map_err BadIdentity (UpstreamResolver_new tool §"google_chat" PROTOCOL_RESOLVE d))
  | KSelfEnrol =>
      json ←? credential §"identity.fallback_table" §"fallback_table" creds;
      table ←? result_map_err TableParse (decode_enrol json);
      _ ←? result_map_err BadIdentity (validate_enrolled (map_to_list table));
      Ok (GcSelfEnrol table)
  | _ =>
      (* the other kinds were refused before *)
      json ←? credential §"identity.table" §"table" creds;
      result_map GcSenderTable (result_map_err BadIdentity (SenderTable_parse decode_table json))
  end.

(** How the courier authorises itself, from the shape of the secret. *)
Definition outbound_auth (token : option str) : result OutboundAuth BuildError :=
  match token with
  | None => Ok NoAuth
  | Some raw =>
      if looks_like_external_account_key raw then
        result_map WorkloadIdentity (result_map_err ServiceAccountKeyError (from_credential_json raw))
      else if looks_like_service_account_key raw then
        result_map ServiceAccount (result_map_err ServiceAccountKeyError (from_key_json raw))
      else Ok (StaticToken raw)
  end.

Definition ADAPTER_HEADROOM : Z := 10.

Definition gc_initial_state (a : Adapter) (verifier : GoogleJwtVerifier) (w : World W) : GcState W :=
  let r := a_rate_limit a in
  Build_GcState
    (Build_ChatState w
       (TokenBucket_new (u32_saturating_mul (rl_messages_per_sec r) ADAPTER_HEADROOM)
          (u32_saturating_mul (rl_burst r) ADAPTER_HEADROOM) now)
       (PerTenantBuckets_new (rl_messages_per_sec r) (rl_burst r)))
    verifier None.

(** The adapter, and the verifier it starts with. *)
Definition from_manifest (name : str) (a : Adapter) (d : Dispatcher W) (jwks_uri : str)
    (courier : CourierConfig) : result (GoogleChatAdapter W * GoogleJwtVerifier) BuildError :=
  if bool_decide (a_kind a ≠ AKGoogleChat) then Err WrongKind
  else if bool_decide (in_signature (a_inbound a) ≠ GoogleOidcJwt) then
    Err (Unsupported (§"google_chat adapter requires `signature: google_oidc_jwt`; got "
                        ++ scheme_debug (in_signature (a_inbound a))))
  else
    _ ←? result_map_err BadIdentity
           (require_supported_kind §"google_chat" (id_kind (a_identity a))
              [KSenderTable; KSelfEnrol; KUpstream]);
    audience ←? credential §"inbound.audience" §"audience" (in_credentials (a_inbound a));
    if is_empty audience then Err (Unsupported §"inbound.audience MUST be non-empty")
    else
      outbound_token ←?
        match cred §"token" (out_credentials (a_outbound a)) with
        | Some f => result_map Some (result_map_err (Resolve §"outbound.token") (resolver f))
        | None => Ok None
        end;
      if cc_enabled courier && is_empty (trim (default [] outbound_token))
      then Err (MissingCredential §"outbound.token")
      else
        outbound ←? outbound_auth outbound_token;
        identity ←? build_identity a d;
        key ←? result_map_err (Resolve §"correlation_key") (resolver (a_correlation_key a));
        ring ←? result_map_err BadCorrelationKey (KeyRing_parse key);
        _ ←? result_map_err (λ e, Unsupported (§"courier http client: " ++ e)) http_client;
        Ok ({| gc_name := name; gc_identity := identity; gc_inbound_tool := a_tool a;
               gc_dispatcher := d; gc_correlation_key := ring; gc_courier := courier;
               gc_outbound := outbound; gc_router := None |},
            GoogleJwtVerifier_new (VerifierConfig_new jwks_uri audience)).

Definition with_router (router : RouteCtx → W → RouteOutcome * W) (ad : GoogleChatAdapter W)
    : GoogleChatAdapter W :=
  {| gc_name := gc_name ad; gc_identity := gc_identity ad; gc_inbound_tool := gc_inbound_tool ad;
     gc_dispatcher := gc_dispatcher ad; gc_correlation_key := gc_correlation_key ad;
     gc_courier := gc_courier ad; gc_outbound := gc_outbound ad; gc_router := Some router |}.
End Boot.
