(* ===== verification/GoogleChatFacts.v ===== *)
(** * GoogleChatFacts: what the Google Chat adapter guarantees

    The courier's lines and what its post line stands for; what a delivery of the
    webhook leads to; the sealed references and the tokens of controls; the
    images; boot.  The programs of [GoogleChat] are reasoned about by [wp], which
    follows the audit lines a program writes and the world outside. *)

From Stdlib Require Import SpecFloat.
From S2P Require Import Prelude Json Errors Principal RateLimit Context AuditLog Dispatcher.
From S2P Require Import Correlation A2ui A2uiText ChatIdentity Manifest Chat Stream Routing.
From S2P Require Import TelegramMapper Surface EmailMapper DiscordMapper Oidc Outbound.
From S2P Require Import PlatformAuth GoogleChatAuth GoogleChatMapper Rasterizer GoogleChat.

(** ** Lines written *)

Definition writes {W : Type} (ls : list AuditRecord) (w w' : World W) : Prop :=
  sinks w' = foldl (λ k l, emit l k) (sinks w) ls.

Lemma writes_app {W} ls ls' (w w1 w2 : World W) :
  writes ls w w1 → writes ls' w1 w2 → writes (ls ++ ls') w w2.
Proof. unfold writes. intros E1 E2. by rewrite foldl_app, <-E1, E2. Qed.

Lemma one_line_writes {W} (w w' : World W) P : one_line w w' P → ∃ l, P l ∧ writes [l] w w'.
Proof. intros (l & HP & Hs & _). by exists l. Qed.

(** The line of a post of this tool by this caller. *)
Definition post_for (tl : str) (p : Principal) (l : AuditRecord) : Prop :=
  phase l = Post ∧ AuditLog.protocol l = PROTOCOL ∧ tool l = tl ∧ subject l = sub p
  ∧ au_tenant l = tenant p ∧ au_trace_id l = trace_id p.

(** What a post line says of the outcome it records. *)
Definition post_says
    (outcome : result (Z * PostOutcome * option str) (TritonError * Z * PostOutcome * option str))
    (l : AuditRecord) : Prop :=
  match outcome with
  | Ok (s, label, _) =>
      au_result l = §"ok" ∧ AuditLog.status l = s ∧ status_label l = Some (post_outcome_as_str label)
  | Err (e, s, label, _) =>
      au_result l = error_result e ∧ AuditLog.status l = s
      ∧ status_label l = Some (post_outcome_as_str label)
  end.

Section Facts.
Context {W : Type} `{SerdeJson, TokenLib, Crypto, UrlParse, SerdeA2ui}.
Variable cell : HttpHosts.
Variable debug_set : gset str → str.
Variable a2ui_envelope : A2uiVersion → Value → result Value str.
Variable base_var : option str.
Variable doc_dialog : bool.
Variable alphanumeric : str → bool.
Variable parse_event : Value → result GoogleChatEvent str.
Variable body_error : str → str.
Variable decode_reply : Value → result ResolverReply str.
Variable iter : gmap str (Tracked spec_float) → list (str * Tracked spec_float).
Variable two_decimals : RetryAfter spec_float → str.
Variable api : ApiCall → W → ApiReply * W.
Variable read_request : Value → option RasterDashboard.
Variable draw_png : str → Z → Z → result str str.
Variable b64_decode : str → option str.
Variable ad : GoogleChatAdapter W.
Implicit Types (s : GcState W) (w : World W) (p : Principal) (o : W).

Abbreviation world s := (cs_world (gs_chat s)).

Lemma record_post_to_writes d when tl p latency outcome dest w :
  let w' := record_post_to d when tl PROTOCOL p latency outcome dest w in
  ∃ l, writes [l] w w' ∧ outside w' = outside w ∧ post_for tl p l ∧ post_says outcome l ∧ destination l = dest.
Proof using Type.
  unfold writes, post_for, post_says, record_post_to.
  destruct outcome as [[[? ?] ?]|[[[? ?] ?] ?]]; eexists; split_and!; reflexivity.
Qed.

(** ** Programs *)

(** From [s], the program writes lines and leaves an outside of which [Q] holds. *)
Definition wp {A} (m : ST (GcState W) A) (Q : A → list AuditRecord → W → Prop) s : Prop :=
  ∃ ls, writes ls (world s) (world (m s).2) ∧ Q (m s).1 ls (outside (world (m s).2)).

Lemma wp_mono {A} (m : ST (GcState W) A) (Q R : A → list AuditRecord → W → Prop) s :
  wp m Q s → (∀ a ls o, Q a ls o → R a ls o) → wp m R s.
Proof using Type. intros (ls & ? & ?) HQR. exists ls. eauto. Qed.

Lemma wp_ret {A} (a : A) (Q : A → list AuditRecord → W → Prop) s :
  Q a [] (outside (world s)) → wp (ret a) Q s.
Proof using Type. intros HQ. by exists []. Qed.

Lemma wp_bind {A B} (m : ST (GcState W) A) (k : A → ST (GcState W) B)
    (Q : B → list AuditRecord → W → Prop) s :
  wp m (λ a ls o, ∀ s1, outside (world s1) = o → wp (k a) (λ b ls', Q b (ls ++ ls')) s1) s →
  wp (bind m k) Q s.
Proof using Type.
  intros (ls & Hw & Hk). specialize (Hk _ eq_refl). destruct Hk as (ls' & Hw' & HQ).
  exists (ls ++ ls'). rewrite bind_snd. split; [by eapply writes_app|exact HQ].
Qed.

Lemma wp_or_panic {A B} (m : ST (GcState W) (option A)) (k : A → ST (GcState W) (option B))
    (Q : option B → list AuditRecord → W → Prop) s :
  wp m (λ x ls o, match x with
                  | Some a => ∀ s1, outside (world s1) = o → wp (k a) (λ b ls', Q b (ls ++ ls')) s1
                  | None => Q None ls o
                  end) s →
  wp (or_panic m k) Q s.
Proof using Type.
  intros Hm. unfold or_panic. apply wp_bind. eapply wp_mono; [exact Hm|].
  intros [a|] ls o Ha s1 Hs1; [by apply Ha|]. apply wp_ret. by rewrite app_nil_r, Hs1.
Qed.

Lemma wp_on_world {A} (f : World W → A * World W) (Q : A → list AuditRecord → W → Prop) s ls :
  writes ls (world s) (f (world s)).2 → Q (f (world s)).1 ls (outside (f (world s)).2) →
  wp (on_world f) Q s.
Proof using Type.
  intros Hw HQ. exists ls. unfold on_world, on_chat, on_chat_world.
  by destruct (f (cs_world (gs_chat s))).
Qed.

Lemma wp_to_world f (Q : unit → list AuditRecord → W → Prop) s ls :
  writes ls (world s) (f (world s)) → Q () ls (outside (f (world s))) → wp (to_world f) Q s.
Proof using Type. apply (wp_on_world (λ w, ((), f w))). Qed.

(** A program that writes nothing, and leaves the outside alone. *)
Definition still {A} (m : ST (GcState W) A) : Prop := ∀ s, world (m s).2 = world s.

Lemma wp_still {A} (m : ST (GcState W) A) (Q : A → list AuditRecord → W → Prop) s :
  still m → (∀ a, Q a [] (outside (world s))) → wp m Q s.
Proof using Type. intros Hm HQ. exists []. rewrite (Hm s). by split. Qed.

Lemma acquire_token_still m : still (acquire_token ad m).
Proof using Type.
  intros s. unfold acquire_token, on_token, bind. destruct (gc_outbound ad); try done.
  - by destruct (wif_access_token _ _ _).
  - by destruct (access_token _ _ _).
Qed.

(** A program that writes nothing. *)
Definition quiet {A} (m : ST (GcState W) A) : Prop := ∀ s, sinks (world (m s).2) = sinks (world s).

Lemma wp_quiet {A} (m : ST (GcState W) A) (Q : A → list AuditRecord → W → Prop) s :
  quiet m → (∀ a o, Q a [] o) → wp m Q s.
Proof using Type. intros Hm HQ. exists []. split; [apply Hm|apply HQ]. Qed.

(** ** The Chat API *)

(** The last call made is [c], answered [status]; [o] is the outside after it. *)
Definition called (c : ApiCall) (status : Z) o : Prop := ∃ o0 b, api c o0 = (Replied status b, o).

(** A post to the space, or an edit of the placeholder. *)
Definition carries (space : str) (body : Value) (c : ApiCall) : Prop :=
  ac_body c = body
  ∧ ((∃ token, c = create_call ad space token (body, [])) ∨ ∃ name token, c = patch_call ad name token body).

(** A call, or what kept it from being made: nothing is written, and a status is
    that of the call. *)
Definition sent_by (space : str) (body : Value) (x : option (result Z str)) (ls : list AuditRecord) o : Prop :=
  ls = [] ∧ ∀ status, x = Some (Ok status) → ∃ c, carries space body c ∧ called c status o.

Lemma create_at_sent env site space body s :
  wp (create_at api ad env site space body) (sent_by space body) s.
Proof using Type.
  unfold create_at, send_chat_message, send_chat_message_in_thread.
  apply wp_or_panic, wp_or_panic, wp_still; [apply acquire_token_still|].
  intros [[token|e]|]; [|intros s1 _; apply wp_ret; intros s2 _; by apply wp_ret|by split].
  intros s1 _. cbn [threaded nonempty]. apply wp_bind.
  destruct (api (create_call ad space token (body, [])) (outside (world s1))) as [r o] eqn:Ea.
  apply (wp_on_world _ _ _ []); unfold on_outside; rewrite Ea; [done|].
  intros s2 Hs2. apply wp_ret. intros s3 Hs3. apply wp_ret. split; [done|].
  intros status. destruct r as [|st b]; [done|]. cbn. intros [= <-].
  exists (create_call ad space token (body, [])). split; [split; [done|left; by exists token]|].
  exists (outside (world s1)), b. by rewrite Ea, Hs3, Hs2.
Qed.

Lemma patch_sent m space name body s :
  wp (patch_chat_message api ad m name body) (sent_by space body) s.
Proof using Type.
  unfold patch_chat_message. apply wp_or_panic, wp_still; [apply acquire_token_still|].
  intros [[token|e]|]; [|intros s1 _; by apply wp_ret|by split].
  intros s1 _. apply wp_bind.
  destruct (api (patch_call ad name token body) (outside (world s1))) as [r o] eqn:Ea.
  apply (wp_on_world _ _ _ []); unfold on_outside; rewrite Ea; [done|].
  intros s2 Hs2. apply wp_ret. split; [done|]. intros status. destruct r as [|st b]; [done|].
  cbn. intros [= <-]. exists (patch_call ad name token body).
  split; [split; [done|right; by exists name, token]|]. exists (outside (world s1)), b. by rewrite Ea, Hs2.
Qed.

Lemma deliver_body_sent env space placeholder body s :
  wp (deliver_body api ad env space placeholder body) (sent_by space body) s.
Proof using Type.
  unfold deliver_body. destruct placeholder as [name|]; [|apply create_at_sent].
  apply wp_or_panic. eapply wp_mono; [apply (patch_sent _ space)|].
  intros [r|] ls o [-> Hr]; [|by split]. intros s1 Hs1. cbn [app].
  destruct r as [status|]; [|apply create_at_sent]. destruct (is_success status); [|apply create_at_sent].
  apply wp_ret. split; [done|]. intros status' [= <-]. rewrite Hs1. by apply Hr.
Qed.

Lemma deliver_body_quiet env space placeholder body : quiet (deliver_body api ad env space placeholder body).
Proof using Type. intros s. destruct (deliver_body_sent env space placeholder body s) as (ls & Hw & -> & _). exact Hw. Qed.
Lemma patch_quiet m name body : quiet (patch_chat_message api ad m name body).
Proof using Type. intros s. destruct (patch_sent m [] name body s) as (ls & Hw & -> & _). exact Hw. Qed.

Lemma in_thread_quiet m space thread body : quiet (send_chat_message_in_thread api ad m space thread body).
Proof using Type.
  intros s. unfold send_chat_message_in_thread, or_panic. rewrite bind_snd.
  pose proof (acquire_token_still m s) as Hw. destruct (acquire_token ad m s) as [[[token|e]|] s1];
    cbn [fst snd ret] in *; [|by rewrite Hw..].
  destruct (threaded thread body) as [x|]; [|by cbn; rewrite Hw].
  rewrite bind_snd, <-Hw. cbn [ret snd]. unfold on_world, on_chat, on_chat_world, on_outside.
  by destruct (api _ _).
Qed.
Lemma or_panic_quiet {A B} (m : ST (GcState W) (option A)) (k : A → ST (GcState W) (option B)) :
  quiet m → (∀ a, quiet (k a)) → quiet (or_panic m k).
Proof using Type.
  intros Hm Hk s. unfold or_panic. rewrite bind_snd. rewrite <-(Hm s).
  destruct (m s) as [[a|] s1]; [apply Hk|done].
Qed.
Lemma ret_quiet {A} (a : A) : quiet (ret a).
Proof using Type. by intros s. Qed.
Hint Resolve in_thread_quiet or_panic_quiet ret_quiet patch_quiet deliver_body_quiet : core.

Lemma post_placeholder_quiet env space : quiet (post_placeholder api ad env space).
Proof using Type. apply or_panic_quiet; [apply in_thread_quiet|auto]. Qed.
Lemma patch_notice_quiet env placeholder notice : quiet (patch_notice api ad env placeholder notice).
Proof using Type. destruct placeholder; [|apply ret_quiet]. apply or_panic_quiet; auto. Qed.
Lemma error_notice_quiet env space placeholder e : quiet (error_notice api ad env space placeholder e).
Proof using Type.
  destruct placeholder; [apply patch_notice_quiet|]. apply or_panic_quiet; [apply in_thread_quiet|auto].
Qed.

(** ** The streamed turn *)

(** What the events end with, the edits aside. *)
Fixpoint terminal_of (polls : list Poll) (t : option (result Value TritonError))
    : option (result Value TritonError) :=
  match polls with
  | [] | End :: _ => t
  | Item (StreamEvent.Done v) :: polls => terminal_of polls (Some (Ok v))
  | Item (StreamEvent.Error e _) :: polls => terminal_of polls (Some (Err e))
  | _ :: polls => terminal_of polls t
  end.

(** What a streamed invocation answers the task. *)
Definition answer_of (env : CourierEnv) (x : result (Streamed (W := W)) TritonError)
    : result Value TritonError :=
  match x with
  | Err e => Err e
  | Ok strm => stream_result (terminal_of (yielded env strm) None)
  end.

Lemma follow_quiet env placeholder polls n acc t s :
  wp (follow api ad env placeholder n polls acc t)
    (λ x ls _, ls = [] ∧ ∀ t', x = Ok t' → t' = terminal_of polls t) s.
Proof using Type.
  assert (∀ t', Ok (E := nat) t = Ok t' → t' = t) as Hret by congruence.
  revert n acc t s Hret. induction polls as [|poll polls IH]; intros n acc t s Hret.
  { apply wp_ret. by split. }
  assert (∀ n acc t s, wp (follow api ad env placeholder n polls acc t)
    (λ x ls _, ls = [] ∧ ∀ t', x = Ok t' → t' = terminal_of polls t) s) as IH' by (intros; apply IH; congruence).
  cbn [follow terminal_of]. destruct poll as [[]| |]; try apply IH'; [|apply wp_ret; by split].
  cbv zeta. destruct placeholder as [name|]; [|apply IH']. destruct (_ && _); [|apply IH'].
  apply wp_bind, wp_quiet; [auto|]. intros [r|] o s1 _; cbn [app]; [apply IH'|by apply wp_ret].
Qed.

Lemma audited_unsettled d c tl args p pr a2ui ov w t b off w' :
  invoke_streaming_with debug_set a2ui_envelope d c tl args p pr a2ui ov w = (Ok (Audited t b off), w') →
  sinks w' = sinks w.
Proof using Type.
  unfold invoke_streaming_with.
  destruct (gate_cases debug_set d c tl pr p w) as [[-> _]|(m & w1 & -> & _)]; [|done].
  assert (∀ ver r o, open_or_fail a2ui_envelope d c tl pr p ver r (set_outside o w)
    = (Ok (Audited t b off), w') → sinks w' = sinks w) as Hopen.
  { intros ver [inner|e] o; [|done]. unfold open_or_fail. congruence || (intros [= _ _ _ <-]; done). }
  cbv zeta. destruct (registry d !! tl) as [x|]; [destruct (supports_streaming x)|].
  - destruct (invoke_streaming_with_context _ _ _ _ _). apply Hopen.
  - destruct (run _ _ _ _ _ _) as [[]]; by intros.
  - destruct (upstream d) as [u|]; [destruct (up_invoke_streaming _ _ _ _ _ _); apply Hopen|].
    destruct (run _ _ _ _ _ _) as [[]]; by intros.
Qed.

Definition turned (env : CourierEnv) (tl : str) (args : Value) p (x : option (result Value TritonError))
    (ls : list AuditRecord) o : Prop :=
  ∃ l, ls = [l] ∧ line_for tl PROTOCOL p l
    ∧ ∀ r, x = Some r → ∃ w,
        let y := (invoke_streaming_with debug_set a2ui_envelope (gc_dispatcher ad) (ce_stream env) tl args p
                    PROTOCOL None no_overrides w).1 in
        streamed_outcome y l ∧ r = answer_of env y.

(** The lines of a stream that is closed once it was followed. *)
Definition closes (tl : str) p (strm : Streamed (W := W)) (whole : bool) (ls : list AuditRecord) : Prop :=
  match strm with
  | Buffered _ => ls = []
  | Audited _ b _ =>
      ∃ l, ls = [l] ∧ line_for tl PROTOCOL p l
        ∧ (whole = true → line_termination (classify (snd <$> answers b)) l)
  end.

Lemma close_stream_closes env tl p strm s :
  wp (close_stream ad env tl p strm) (λ _ ls _, closes tl p strm true ls) s.
Proof using Type.
  destruct strm as [ev|t b off]; [by apply (wp_to_world _ _ _ [])|].
  pose proof (consume_audited (gc_dispatcher ad) (ce_stream_when env) tl PROTOCOL p
    (ce_opened env) (ce_drop env) t b off (world s)) as Hl.
  apply one_line_writes in Hl as (l & [Hf Ho] & Hw).
  apply (wp_to_world _ _ _ [l]); [exact Hw|]. by exists l.
Qed.

Lemma follow_and_close env placeholder tl p strm s :
  wp (x ←ₛ follow api ad env placeholder 0 (yielded env strm) [] None;
      match x with
      | Ok t => _ ←ₛ close_stream ad env tl p strm; ret (Some (stream_result t))
      | Err k => _ ←ₛ close_stream ad env tl p (dropped_after k strm); ret None
      end)
     (λ r ls _, closes tl p strm (bool_decide (is_Some r)) ls ∧ ∀ v, r = Some v → v = answer_of env (Ok strm)) s.
Proof using Type.
  apply wp_bind. eapply wp_mono; [apply follow_quiet|]. intros x ls o [-> Hx] s2 _.
  destruct x as [t|k]; apply wp_bind; (eapply wp_mono; [apply close_stream_closes|]);
    intros ? ls o' Hc s3 _; apply wp_ret; cbn [app]; rewrite app_nil_r; (split; [|intros v [= <-]]).
  - exact Hc.
  - by rewrite (Hx _ eq_refl).
  - destruct strm as [ev|u b off]; [exact Hc|]. destruct Hc as (l & -> & Hf & _). by exists l.
Qed.

Lemma stream_turn_turned env placeholder tl args p s :
  wp (stream_turn debug_set a2ui_envelope api ad env placeholder tl args p) (turned env tl args p) s.
Proof using Type.
  unfold stream_turn. apply wp_bind. set (w := world s).
  pose proof (invoke_streaming_line debug_set a2ui_envelope (gc_dispatcher ad) (ce_stream env) tl args p
    PROTOCOL None no_overrides w (ce_stream_when env) (ce_opened env) (ce_drop env)) as Hl.
  pose proof (audited_unsettled (gc_dispatcher ad) (ce_stream env) tl args p PROTOCOL None no_overrides w) as Hu.
  destruct (invoke_streaming_with _ _ _ _ _ _ _ _ _ _ w) as [y w1] eqn:Ei. cbn zeta in Hl.
  assert (∀ ls, writes ls w w1 → wp (on_world (invoke_streaming_with debug_set a2ui_envelope
    (gc_dispatcher ad) (ce_stream env) tl args p PROTOCOL None no_overrides)) (λ r ls' _, r = y ∧ ls' = ls) s) as Hi.
  { intros ls Hw. apply (wp_on_world _ _ _ ls); fold w; by rewrite Ei. }
  destruct y as [[ev|t b off]|e].
  - apply one_line_writes in Hl as (l & [Hf Ho] & Hw). eapply wp_mono; [by apply (Hi [l])|].
    intros _ _ _ [-> ->] s1 _. eapply wp_mono; [apply follow_and_close|]. intros r ls o [-> Hr].
    exists l. split; [done|]. split; [done|]. intros v Hv. exists w. rewrite Ei. split; [done|]. by apply Hr.
  - eapply wp_mono; [apply (Hi []), (Hu t b off w1 eq_refl)|].
    intros _ _ _ [-> ->] s1 _. eapply wp_mono; [apply follow_and_close|]. intros r ls o [(l & -> & Hf & Ho) Hr].
    exists l. split; [done|]. split; [done|]. intros v ->. exists w. rewrite Ei. split; [|by apply Hr].
    by apply Ho.
  - apply one_line_writes in Hl as (l & [Hf Ho] & Hw). eapply wp_mono; [by apply (Hi [l])|].
    intros _ _ _ [-> ->] s1 _. apply wp_ret. exists l. split; [done|]. split; [done|].
    intros v [= <-]. exists w. by rewrite Ei.
Qed.

(** ** The courier *)

(** [body] is a reply that carries the result [res]. *)
Definition reply_of (env : ReplyEnv) (base : option str) (res : Value) (echo : option str) p (sender : str)
    (workspace_addon : bool) (image_hint : option str) (body : Value) : Prop :=
  ∃ rendered chrome, render_dispatch_result cell doc_dialog res = Ok rendered
    ∧ reply_body cell doc_dialog alphanumeric ad env base rendered res echo p sender workspace_addon
        image_hint chrome = Some body.

(** A reply's only line is that of its theme, and a reply that cannot be rendered
    has none. *)
Definition built (reply : Value → Prop) p (x : option (result Value TelegramMapper.RenderError))
    (ls : list AuditRecord) (_ : W) : Prop :=
  (ls = [] ∧ x = Some (Err EmptyAfterRender))
  ∨ ∃ l, ls = [l] ∧ line_for §"get_theme" PROTOCOL p l ∧ (x = None ∨ ∃ body, x = Some (Ok body) ∧ reply body).

Lemma build_reply_built env base res echo p sender workspace_addon image_hint s :
  wp (on_world (build_reply_message cell debug_set doc_dialog alphanumeric ad env base res echo p sender
                  workspace_addon image_hint))
    (built (reply_of env base res echo p sender workspace_addon image_hint) p) s.
Proof using Type.
  set (f := build_reply_message _ _ _ _ _ _ _ _ _ _ _ _ _).
  destruct (render_dispatch_result cell doc_dialog res) as [rendered|[]] eqn:Er.
  2: { apply (wp_on_world _ _ _ []); unfold f, build_reply_message; rewrite Er; [done|by left]. }
  pose proof (invoke_with_line debug_set (gc_dispatcher ad) (re_theme env) §"get_theme" (Value.Object []) p
    PROTOCOL no_overrides (world s)) as (l & [Hf _] & Hw)%one_line_writes.
  assert (f (world s)
    = (Ok <$> reply_body cell doc_dialog alphanumeric ad env base rendered res echo p sender workspace_addon
         image_hint (fetch_theme debug_set ad (re_theme env) p (world s)).1,
       (invoke debug_set (gc_dispatcher ad) (re_theme env) §"get_theme" (Value.Object []) p PROTOCOL (world s)).2)) as E.
  { unfold f, build_reply_message. rewrite Er. unfold fetch_theme.
    by destruct (invoke _ _ _ _ _ _ _ _) as [r w']. }
  apply (wp_on_world _ _ _ [l]); rewrite E; [exact Hw|]. right. exists l. split; [done|]. split; [done|].
  cbn [fst]. destruct (reply_body _ _ _ _ _ _ _ _ _ _ _ _ _ _) as [body|] eqn:Eb; [right|by left].
  exists body. split; [done|]. by exists rendered, (fetch_theme debug_set ad (re_theme env) p (world s)).1.
Qed.

Definition courier_hint (env : CourierEnv) (t : CourierTask) : option str :=
  if decide (ct_tool t = §"render_report")
  then report_image_url ad (ce_hint_now env) (ct_base t) (ct_args t) else None.

(** The reply was delivered: the last call carried it, and was answered with the
    success [status]. *)
Definition delivered (env : CourierEnv) (t : CourierTask) (status : Z) o : Prop :=
  ∃ w v body c,
    answer_of env (invoke_streaming_with debug_set a2ui_envelope (gc_dispatcher ad) (ce_stream env)
                     (ct_tool t) (ct_args t) (ct_principal t) PROTOCOL None no_overrides w).1 = Ok v
    ∧ reply_of (ce_reply env) (ct_base t) v (ct_echo t) (ct_principal t) (ct_sender t) false
        (courier_hint env t) body
    ∧ carries (ct_space t) body c ∧ called c status o ∧ is_success status = true.

(** The lines of a task, whole ([Some]) or cut short by a panic. *)
Definition courier_lines (env : CourierEnv) (t : CourierTask) (x : option unit) (ls : list AuditRecord) o : Prop :=
  let tl := ct_tool t in
  let p := ct_principal t in
  let dispatched := line_for tl PROTOCOL p in
  let themed := line_for §"get_theme" PROTOCOL p in
  match x with
  | Some _ => ∃ l mid lp, ls = l :: mid ++ [lp] ∧ dispatched l
      ∧ (mid = [] ∨ ∃ m, mid = [m] ∧ themed m) ∧ post_for tl p lp
      ∧ (au_result lp = §"ok" → delivered env t (AuditLog.status lp) o)
  | None => ls = [] ∨ ∃ l, dispatched l
      ∧ (ls = [l] ∨ ∃ l', ls = [l; l'] ∧ (themed l' ∨ post_for tl p l'))
  end.

Lemma error_result_not_ok e : error_result e ≠ §"ok".
Proof using Type. by destruct e. Qed.

Lemma wp_posted c tl p latency outcome (Q : unit → list AuditRecord → W → Prop) s :
  (∀ l, post_for tl p l → post_says outcome l → Q () [l] (outside (world s))) →
  wp (to_world (posted_line ad c tl p latency outcome)) Q s.
Proof using Type.
  intros HQ. unfold posted_line, record_post.
  destruct (record_post_to_writes (gc_dispatcher ad) (c_when c) tl p latency outcome None (world s))
    as (l & Hw & Ho & Hp & Hs & _).
  apply (wp_to_world _ _ _ [l]); [done|]. rewrite Ho. auto.
Qed.

(** One audit line per step of a courier turn, and a post line that is true.  A
    task of the courier that runs to its end leaves the line of its dispatch, then
    that of the card's theme when there was a reply to draw, then exactly one post
    line, all of the tool and the caller it was given; whatever fails on the way
    (the placeholder, an edit, the tool, the rendering, the delivery) ends in that
    post line.  The post line says [ok] only when the last request to the Chat API
    carried the reply drawn from what the stream ended with, to the task's space or
    into its placeholder, and was answered 2xx, with the status of the line.  A
    task that panics has left a beginning of these lines. *)
Theorem google_courier_accounted env t s :
  let x := courier_reply cell debug_set a2ui_envelope doc_dialog alphanumeric api ad env t s in
  ∃ ls, writes ls (world s) (world x.2) ∧ courier_lines env t x.1 ls (outside (world x.2)).
Proof using Type.
  change (wp (courier_reply cell debug_set a2ui_envelope doc_dialog alphanumeric api ad env t)
            (courier_lines env t) s).
  unfold courier_reply. fold (courier_hint env t). cbv zeta.
  apply wp_or_panic, wp_quiet; [apply post_placeholder_quiet|]. intros [placeholder|] o0; [|by left].
  intros s1 _. cbn [app]. apply wp_or_panic. eapply wp_mono; [apply stream_turn_turned|].
  intros x ls o (l & -> & Hl & Hx). destruct x as [r|]; [|right; exists l; eauto 8].
  destruct (Hx r eq_refl) as (w & _ & Hr). intros s2 _. destruct r as [v|e].
  - apply wp_or_panic. eapply wp_mono; [apply build_reply_built|].
    intros x ls o' [[-> ->]|(m & -> & Hm & [->|(body & -> & Hb)])].
    + intros s3 _. apply wp_bind, wp_posted. intros lp Hp Hs s4 _.
      apply wp_quiet; [apply patch_notice_quiet|].
      intros [[]|] o4; cbn [app]; [exists l, [], lp|right; exists l; eauto 8].
      split_and!; try done; [by left|]. intros E. destruct Hs as [Hs _]. by rewrite Hs in E.
    + right. exists l. eauto 8.
    + intros s3 _. apply wp_or_panic. eapply wp_mono; [apply deliver_body_sent|].
      intros x ls o3 [-> Hc]. destruct x as [outcome|]; [|right; exists l; eauto 8].
      intros s4 Hs4. apply wp_bind, wp_posted. intros lp Hp Hs s5 Hs5. apply wp_ret. cbn [app].
      exists l, [m], lp. split_and!; try done; [right; by exists m|]. intros E.
      destruct outcome as [status|e]; cbn in Hs; [|by destruct Hs as [Hs _]; rewrite Hs in E].
      destruct (is_success status) eqn:Est; [|by destruct Hs as [Hs _]; rewrite Hs in E].
      destruct Hs as (_ & -> & _). destruct (Hc _ eq_refl) as (c & Hcc & Hcalled).
      exists w, v, body, c. rewrite Hs5, Hs4. by split_and!.
  - apply wp_bind, wp_posted. intros lp Hp Hs s3 _. apply wp_quiet; [apply error_notice_quiet|].
    intros [[]|] o4; cbn [app]; [exists l, [], lp|right; exists l; eauto 8].
    split_and!; try done; [by left|]. intros E. destruct Hs as [Hs _]. rewrite Hs in E.
    by apply error_result_not_ok in E.
Qed.

(** ** What a turn leads to *)

Section Turns.
Variables (env : HookEnv W) (h : Headers) (e : GoogleChatEvent) (t : Turn) (p : Principal).
Variables (workspace_addon : bool) (call : str * Value) (w1 : World W).

(** What the host's router says of the turn, where it is asked. *)
Definition router_says (outcome : RouteOutcome) : Prop :=
  ∃ router ctx o, gc_router ad = Some router ∧ route_request ad e t call.1 call.2 p = Some ctx
    ∧ router ctx (outside w1) = (outcome, o).

(** The call the turn makes: its own where no router is asked, else the one it
    was routed to. *)
Inductive makes : str * Value → Prop :=
  | MakesOwn : gc_router ad = None ∨ route_request ad e t call.1 call.2 p = None → makes call
  | MakesRouted agent text :
      router_says (RouteDispatch agent text) → makes (gc_route_command text agent).

Definition inline_hint (call' : str * Value) : option str :=
  if decide (call'.1 = §"render_report")
  then report_image_url ad (hk_hint_now env) (public_base base_var h) call'.2 else None.
Definition is_inline_reply (call' : str * Value) (res body : Value) : Prop :=
  reply_of (hk_reply env) (public_base base_var h) res (tn_echo t) p (tn_sender t) workspace_addon
    (inline_hint call') body.

(** The answer to the dispatch [d], and what its post line says. *)
Inductive inline_answer (call' : str * Value) : result DispatchResult TritonError → ChatAnswer →
    list AuditRecord → AuditRecord → Prop :=
  | AnswersError err lp :
      post_says (Err (err, 0%Z, Dropped, None)) lp →
      inline_answer call' (Err err)
        (JsonAnswer (failed_status err) (text_reply_body (§"(error: " ++ class err ++ §")") workspace_addon)) [] lp
  | AnswersReply dr body l lp :
      line_for §"get_theme" PROTOCOL p l → is_inline_reply call' (dr_result dr) body →
      post_says (Ok (200%Z, Posted, None)) lp →
      inline_answer call' (Ok dr) (JsonAnswer 200 body) [l] lp
  | AnswersNothing dr lp :
      post_says (Err (empty_surface, 0%Z, Dropped, None)) lp → inline_answer call' (Ok dr) empty_answer [] lp.

(** The result of a turn, the lines it wrote and the outside it left. *)
Inductive served : option Outcome → list AuditRecord → W → Prop :=
  | ServedDocument card mid lp o :
      call.1 = OPEN_DOC_TOOL → (mid = [] ∨ ∃ l, mid = [l] ∧ line_for §"render_report" PROTOCOL p l) →
      post_for OPEN_DOC_TOOL p lp →
      served (Some (JsonAnswer 200 (dialog_response card workspace_addon), None)) (mid ++ [lp]) o
  | ServedText outcome text o :
      outcome = RouteInfo text ∨ outcome = RouteDeny text → router_says outcome →
      served (Some (JsonAnswer 200 (text_reply_body text workspace_addon), None)) [] o
  | ServedChooser candidates reason text body l lp o :
      router_says (RouteChooser candidates reason text) → line_for §"get_theme" PROTOCOL p l →
      post_for USE_AGENT_TOOL p lp → served (Some (JsonAnswer 200 body, None)) [l; lp] o
  | ServedCourier call' space o :
      makes call' → cc_enabled (gc_courier ad) = true → nonempty (ev_space e) = Some space →
      served (Some (JsonAnswer 200 (courier_ack (is_card_click e) workspace_addon),
                    Some {| ct_space := space; ct_base := public_base base_var h; ct_tool := call'.1;
                            ct_args := call'.2; ct_principal := p; ct_sender := tn_sender t;
                            ct_echo := tn_echo t |})) [] o
  | ServedInline call' w d a l mid lp o :
      makes call' →
      (invoke debug_set (gc_dispatcher ad) (ce_dispatch (hk_chat env)) call'.1 call'.2 p PROTOCOL w).1 = d →
      line_for call'.1 PROTOCOL p l → line_outcome d l → post_for call'.1 p lp → inline_answer call' d a mid lp →
      served (Some (a, None)) (l :: mid ++ [lp]) o
  (** the card of a reply, or of a chooser, panicked *)
  | ServedPanic ls l o :
      line_for §"get_theme" PROTOCOL p l →
      ls = [l] ∨ (∃ call' l', makes call' ∧ line_for call'.1 PROTOCOL p l' ∧ ls = [l'; l]) → served None ls o.

Lemma posted_inline_line tl outcome (Q : unit → list AuditRecord → W → Prop) s :
  (∀ l, post_for tl p l → post_says outcome l → Q () [l] (outside (world s))) →
  wp (posted_inline ad env tl p outcome) Q s.
Proof using Type. apply wp_posted. Qed.

Lemma document_card_line skill i s :
  wp (on_world (document_card debug_set ad env skill i p))
    (λ _ ls _, ls = [] ∨ ∃ l, ls = [l] ∧ line_for §"render_report" PROTOCOL p l) s.
Proof using Type.
  unfold document_card. cbv zeta. set (rargs := json_object [_; _]). clearbody rargs.
  pose proof (invoke_with_line debug_set (gc_dispatcher ad) (ce_dispatch (hk_chat env)) §"render_report" rargs p
    PROTOCOL no_overrides (world s)) as (l & [Hf _] & Hw)%one_line_writes.
  match goal with |- wp (on_world ?f) _ _ => set (F := f) end.
  assert (sinks (F (world s)).2 = sinks (world s)
    ∨ (F (world s)).2 = (invoke_with debug_set (gc_dispatcher ad) (ce_dispatch (hk_chat env)) §"render_report"
                           rargs p PROTOCOL no_overrides (world s)).2) as [HF|HF].
  { unfold F, invoke. destruct (gate _ _ _ _ _ _ _).1; [|destruct (hk_doc_abandoned env); [by left|]];
      right; by destruct (invoke_with _ _ _ _ _ _ _ _ _). }
  - apply (wp_on_world _ _ _ []); [exact HF|by left].
  - apply (wp_on_world _ _ _ [l]); [by rewrite HF|right; by exists l].
Qed.

Lemma open_document_served s :
  call.1 = OPEN_DOC_TOOL → wp (open_document debug_set ad env call.2 p workspace_addon) served s.
Proof using Type.
  intros Hc. unfold open_document. cbv zeta. apply wp_bind.
  set (m := if _ || _ then ret (build_document_dialog Value.Null) else _).
  assert (wp m (λ _ ls _, ls = [] ∨ ∃ l, ls = [l] ∧ line_for §"render_report" PROTOCOL p l) s) as Hm.
  { unfold m. destruct (_ || _); [apply wp_ret; by left|apply document_card_line]. }
  eapply wp_mono; [exact Hm|]. intros card ls o Hls s1 _. apply wp_bind, posted_inline_line.
  intros lp Hp _ s2 _. apply wp_ret. cbn [app]. rewrite ?app_nil_r. by apply ServedDocument.
Qed.

Lemma fetch_theme_line c s :
  wp (on_world (fetch_theme debug_set ad c p)) (λ _ ls _, ∃ l, ls = [l] ∧ line_for §"get_theme" PROTOCOL p l) s.
Proof using Type.
  pose proof (invoke_with_line debug_set (gc_dispatcher ad) c §"get_theme" (Value.Object []) p
    PROTOCOL no_overrides (world s)) as (l & [Hf _] & Hw)%one_line_writes.
  assert ((fetch_theme debug_set ad c p (world s)).2
    = (invoke debug_set (gc_dispatcher ad) c §"get_theme" (Value.Object []) p PROTOCOL (world s)).2) as E.
  { unfold fetch_theme. by destruct (invoke _ _ _ _ _ _ _ _). }
  apply (wp_on_world _ _ _ [l]); [by rewrite E|by exists l].
Qed.

Lemma answer_chooser_served candidates reason text s :
  router_says (RouteChooser candidates reason text) →
  wp (answer_chooser debug_set base_var ad env h p (tn_sender t) text candidates workspace_addon) served s.
Proof using Type.
  intros Hr. unfold answer_chooser. apply wp_bind. eapply wp_mono; [apply fetch_theme_line|].
  intros chrome ls o (l & -> & Hl) s1 _. cbv zeta. destruct (build_agent_chooser _ _ _ _ _) as [body|].
  2: { apply wp_ret. eapply ServedPanic; [exact Hl|by left]. }
  apply wp_bind, posted_inline_line. intros lp Hp _ s2 _. apply wp_ret. cbn [app]. by eapply ServedChooser.
Qed.

Lemma answer_inline_served call' s :
  makes call' →
  wp (answer_inline cell debug_set base_var doc_dialog alphanumeric ad env h t p workspace_addon call') served s.
Proof using Type.
  intros Hm. unfold answer_inline. destruct call' as [tl args]. cbv zeta. apply wp_bind.
  pose proof (invoke_with_line debug_set (gc_dispatcher ad) (ce_dispatch (hk_chat env)) tl args p
    PROTOCOL no_overrides (world s)) as (l & [Hf Ho] & Hw)%one_line_writes.
  apply (wp_on_world _ _ _ [l]); [exact Hw|]. unfold invoke.
  destruct (invoke_with debug_set (gc_dispatcher ad) _ tl args p PROTOCOL no_overrides (world s)) as [d w2] eqn:Ei.
  cbn [fst snd] in *. intros s1 _.
  assert ((invoke debug_set (gc_dispatcher ad) (ce_dispatch (hk_chat env)) tl args p PROTOCOL (world s)).1 = d)
    as Hd by (unfold invoke; by rewrite Ei).
  assert (∀ a mid lp o, post_for tl p lp → inline_answer (tl, args) d a mid lp →
    served (Some (a, None)) (l :: mid ++ [lp]) o) as Hs by (intros; by eapply ServedInline).
  destruct d as [dr|err].
  - apply wp_or_panic. eapply wp_mono; [apply build_reply_built|].
    intros x ls o [[-> ->]|(m & -> & Hm' & [->|(body & -> & Hb)])].
    + intros s2 _. apply wp_bind, posted_inline_line. intros lp Hp Hsay s3 _. apply wp_ret.
      apply (Hs _ []); [done|by apply AnswersNothing].
    + eapply ServedPanic; [exact Hm'|]. right. by exists (tl, args), l.
    + intros s2 _. apply wp_bind, posted_inline_line. intros lp Hp Hsay s3 _. apply wp_ret.
      apply (Hs _ [m]); [done|by eapply AnswersReply].
  - apply wp_bind, posted_inline_line. intros lp Hp Hsay s3 _. apply wp_ret.
    apply (Hs _ []); [done|by apply AnswersError].
Qed.

Lemma answer_turn_served call' s :
  makes call' →
  wp (answer_turn cell debug_set base_var doc_dialog alphanumeric ad env h e t p workspace_addon call') served s.
Proof using Type.
  intros Hm. unfold answer_turn. destruct (cc_enabled (gc_courier ad)) eqn:Ec; [|by apply answer_inline_served].
  destruct (nonempty (ev_space e)) as [space|] eqn:Es; [|by apply answer_inline_served].
  apply wp_ret. by apply ServedCourier.
Qed.

Lemma routed_served s :
  world s = w1 →
  wp (routed ←ₚ route_turn debug_set base_var ad env h e t p workspace_addon call;
      match routed with
      | Ok call' => answer_turn cell debug_set base_var doc_dialog alphanumeric ad env h e t p workspace_addon call'
      | Err x => ret (Some x)
      end) served s.
Proof using Type.
  intros Hw. apply wp_or_panic. unfold route_turn.
  destruct (gc_router ad) as [router|] eqn:Er; cbn [mbind option_bind].
  2: { apply wp_ret. intros s1 _. apply answer_turn_served, MakesOwn. by left. }
  destruct (route_request ad e t call.1 call.2 p) as [ctx|] eqn:Ectx; cbn [mbind option_bind].
  2: { apply wp_ret. intros s1 _. apply answer_turn_served, MakesOwn. by right. }
  apply wp_bind. destruct (router ctx (outside w1)) as [outcome o] eqn:Ero.
  assert (router_says outcome) as Hsays by by exists router, ctx, o.
  apply (wp_on_world _ _ _ []); unfold on_outside; rewrite Hw, Ero; [done|]. cbn [fst]. intros s1 _.
  destruct outcome as [agent text|candidates reason text|text|text].
  - apply wp_ret. intros s2 _. by apply answer_turn_served, MakesRouted.
  - apply wp_or_panic. eapply wp_mono; [by eapply answer_chooser_served|].
    intros [x|] ls o1 Hx; [|exact Hx]. intros s2 Hs2. apply wp_ret. intros s3 Hs3. apply wp_ret.
    cbn [app]. rewrite !app_nil_r, Hs3, Hs2. exact Hx.
  - apply wp_ret. intros s2 _. apply wp_ret. eapply ServedText; [by left|done].
  - apply wp_ret. intros s2 _. apply wp_ret. eapply ServedText; [by right|done].
Qed.
End Turns.

(** ** What a delivery leads to *)

(** Refused, or acknowledged and ignored: no more was touched outside than, with
    an upstream resolver, its dispatch. *)
Definition turned_away (env : HookEnv W) s (x : option Outcome * GcState W) : Prop :=
  ∃ a, x.1 = Some (a, None)
    ∧ (a = empty_answer ∨ ∃ r, a = PlainAnswer r ∧ resp_status r ∈ [400; 401; 429]%Z)
    ∧ (outside (world x.2) = outside (world s)
       ∨ ∃ up sender, gc_identity ad = GcUpstream up
           ∧ outside (world x.2) = outside (resolver_resolve debug_set decode_reply up (gc_dispatcher ad)
                                              (hk_resolve env) (hk_resolve_uuid env) sender (world s)).2).

Lemma refuse_outside env sb tn err r s :
  outside (world (refuse ad env sb tn err r s).2) = outside (world s).
Proof using Type.
  unfold refuse, reject, to_world, on_chat. rewrite bind_snd. cbn. unfold record_rejection. by repeat case_match.
Qed.
Lemma refuse_answer env sb tn err r s : (refuse ad env sb tn err r s).1 = Some (PlainAnswer r, None).
Proof using Type. done. Qed.

Lemma refusal_turned_away env sb tn err r s s0 :
  resp_status r ∈ [400; 401; 429]%Z → world s0 = world s → turned_away env s (refuse ad env sb tn err r s0).
Proof using Type.
  intros Hr Hs. exists (PlainAnswer r). split; [done|]. split; [right; by exists r|].
  left. by rewrite refuse_outside, Hs.
Qed.

(** Who a sender is, by the adapter's table, or what the resolver answered. *)
Definition identified (env : HookEnv W) (sender : str) (who : str * list str * str) w : Prop :=
  match gc_identity ad with
  | GcSenderTable table => ∃ c, table !! sender = Some c ∧ who = (sc_sub c, sc_scopes c, sc_tenant c)
  | GcSelfEnrol table =>
      (∃ user, user ≠ [] ∧ sender = §"users/" ++ user)
      ∧ who = match table !! sender with
              | Some c => (sender, ec_scopes c, ec_tenant c)
              | None => (sender, [PAIRING_SCOPE], PAIRING_TENANT)
              end
  | GcUpstream up => ∃ r,
      (resolver_resolve debug_set decode_reply up (gc_dispatcher ad) (hk_resolve env) (hk_resolve_uuid env)
         sender w).1 = Ok r ∧ who = (r_sub r, r_scopes r, r_tenant r)
  end.

(** The sender an event names, and the call it stands for when that sender is
    [p]: the text of a message; the call sealed for this tenant and sender in the
    token of the clicked control, under its filled inputs; or help. *)
Inductive asks (env : HookEnv W) (e : GoogleChatEvent) (p : Principal) : str → str * Value → Prop :=
  | AsksMessage m text :
      ev_kind e = §"MESSAGE" → ev_message e = Some m → ms_text m = Some text → text ≠ [] →
      asks env e p (actor (ms_sender m)) (gc_route_command text (gc_inbound_tool ad))
  | AsksClick token tool args :
      ev_kind e = §"CARD_CLICKED" → event_card_token e = Some token →
      decode_bound_any (hk_token_now env) token (gc_correlation_key ad) CARD_CORRELATION_CAP
        (gc_binding (tenant p) (actor (ev_user e))) = Ok (tool, args) →
      asks env e p (actor (ev_user e))
        (tool, merge_inputs (filter (λ x, is_empty x.2 = false) (event_form_inputs e)) args)
  | AsksHelp :
      ev_kind e = §"ADDED_TO_SPACE" → asks env e p (actor (ev_user e)) (§"help", Value.Object []).

(** The turn of the event [e] was served, as the call it stands for by the sender
    it resolves to. *)
Definition carried_out (env : HookEnv W) (h : Headers) (e : GoogleChatEvent) (workspace_addon : bool) s
    (x : option Outcome * GcState W) : Prop :=
  ∃ t p w1 call ls,
    identified env (tn_sender t) (sub p, scopes p, tenant p) (world s)
    ∧ asks env e p (tn_sender t) call ∧ writes ls w1 (world x.2)
    ∧ served env h e t p workspace_addon call w1 x.1 ls (outside (world x.2)).

Lemma resolve_identity_Ok env sender w who w1 :
  resolve_identity debug_set decode_reply ad env sender w = (Ok who, w1) → identified env sender who w.
Proof using Type.
  unfold resolve_identity, identified. destruct (gc_identity ad) as [table|table|up]; cbn [resolve_sender].
  - unfold SenderTable_resolve. destruct (table !! sender) as [c|]; [|done]. cbn [mbind option_bind].
    destruct (checked _ _ _ _) as [r|] eqn:Ec; [|done]. apply checked_spec in Ec as (_ & _ & ->).
    cbn. intros [= <- _]. by exists c.
  - unfold is_valid_user_sender. destruct (strip_prefix §"users/" sender) as [user|] eqn:Es; [|done].
    apply strip_prefix_Some in Es as ->. destruct user as [|ch user]; [done|]. cbn [is_empty negb ok_or].
    intros [= <- _]. split; [by exists (ch :: user)|done].
  - destruct (resolver_resolve _ _ _ _ _ _ _ _) as [[r|] w'] eqn:E; [|done]. intros [= <- _]. by exists r.
Qed.

Lemma call_of_asks env e t p call :
  intent_of (gc_inbound_tool ad) e = Asks t → call_of ad env t p = Some call → asks env e p (tn_sender t) call.
Proof using Type.
  unfold intent_of, call_of. destruct (decide (ev_kind e = §"MESSAGE")) as [Hk|_].
  { destruct (ev_message e) as [m|] eqn:Em; [|done]. destruct (ms_text m) as [[|c text]|] eqn:Et; [done| |done].
    change (nonempty (Some (c :: text))) with (Some (c :: text)). cbv beta iota.
    destruct (gc_route_command (c :: text) (gc_inbound_tool ad)) as [tl args] eqn:Er. intros Ht.
    injection Ht as <-. cbn [tn_token tn_tool tn_args tn_sender]. intros [= <-]. rewrite <-Er.
    by eapply AsksMessage. }
  destruct (decide (ev_kind e = §"CARD_CLICKED")) as [Hk|_].
  { destruct (event_card_token e) as [token|] eqn:Et; [|done]. intros Ht. injection Ht as <-.
    cbn [tn_token tn_tool tn_args tn_sender tn_inputs].
    destruct (decode_bound_any _ _ _ _ _) as [[tl args]|] eqn:Ed; [|done]. intros [= <-].
    by eapply AsksClick. }
  destruct (decide (ev_kind e = §"ADDED_TO_SPACE")) as [Hk|_]; [|done].
  intros Ht. injection Ht as <-. cbn [tn_token tn_tool tn_args tn_sender]. intros [= <-]. by apply AsksHelp.
Qed.

(** What the resolver leaves of the outside. *)
Lemma resolve_identity_outside env sender w r w1 :
  resolve_identity debug_set decode_reply ad env sender w = (r, w1) →
  outside w1 = outside w
  ∨ ∃ up sender, gc_identity ad = GcUpstream up
      ∧ outside w1 = outside (resolver_resolve debug_set decode_reply up (gc_dispatcher ad)
                                (hk_resolve env) (hk_resolve_uuid env) sender w).2.
Proof using Type.
  unfold resolve_identity. destruct (gc_identity ad) as [table|table|up]; [intros [= _ <-]; by left..|].
  destruct (resolver_resolve _ _ _ _ _ _ _ _) as [x w'] eqn:E. intros [= _ <-]. right. exists up, sender.
  by rewrite E.
Qed.

Lemma serve_event_outcome env h e workspace_addon s s0 :
  world s0 = world s →
  let x := serve_event cell debug_set base_var doc_dialog alphanumeric decode_reply iter two_decimals ad env h e
             workspace_addon s0 in
  turned_away env s x ∨ carried_out env h e workspace_addon s x.
Proof using Type.
  intros Hs x. subst x. unfold serve_event. destruct (intent_of (gc_inbound_tool ad) e) as [m b| |t] eqn:Ei.
  { left. apply refusal_turned_away; [by apply (bool_decide_unpack _)|done]. }
  { left. exists empty_answer. split; [done|]. split; [by left|]. left. cbn. by rewrite Hs. }
  rewrite bind_snd.
  destruct (resolve_identity debug_set decode_reply ad env (tn_sender t) (world s)) as [r w1] eqn:Er.
  pose proof (resolve_identity_outside _ _ _ _ _ Er) as Ho.
  set (y := on_world _ s0). assert (y.1 = r ∧ world y.2 = w1) as [Hy1 Hy2].
  { subst y. unfold on_world, on_chat, on_chat_world. by rewrite Hs, Er. }
  clearbody y. destruct y as [r' s1]. cbn [fst snd] in *. subst r'.
  assert (∀ sb tn err r s2, outside (world s2) = outside w1 → resp_status r ∈ [400; 401; 429]%Z →
    turned_away env s (refuse ad env sb tn err r s2)) as Haway.
  { intros sb tn err r' s2 Hs2 Hr. exists (PlainAnswer r'). split; [done|]. split; [right; by exists r'|].
    by rewrite refuse_outside, Hs2. }
  destruct r as [who|[err b]].
  2: { left. apply Haway; [by rewrite Hy2|by apply (bool_decide_unpack _)]. }
  unfold serve_turn. cbv zeta. rewrite bind_snd. set (p := hook_principal ad env e (tn_sender t) who).
  set (y := on_chat _ s1). assert (world y.2 = w1) as Hy.
  { subst y. unfold on_chat, on_chat_tenants. by destruct (tenant_try_take _ _ _ _). }
  clearbody y. destruct y as [taken s2]. cbn [fst snd] in *. destruct taken as [|wait].
  2: { left. apply Haway; [by rewrite Hy|by apply (bool_decide_unpack _)]. }
  destruct (call_of ad env t p) as [call|] eqn:Ec.
  2: { left. apply Haway; [by rewrite Hy|by apply (bool_decide_unpack _)]. }
  right. apply resolve_identity_Ok in Er. pose proof (call_of_asks _ _ _ _ _ Ei Ec) as Hask.
  assert ((sub p, scopes p, tenant p) = who) as Hwho by (subst p; by destruct who as [[? ?] ?]).
  rewrite <-Hwho in Er.
  assert (∀ m, wp m (served env h e t p workspace_addon call w1) s2 →
    carried_out env h e workspace_addon s (m s2)) as Hwp.
  { intros m (ls & Hw & Hv). exists t, p, w1, call, ls. by rewrite <-Hy at 1. }
  destruct (decide (call.1 = OPEN_DOC_TOOL)) as [Hd|Hd].
  - apply (Hwp (open_document debug_set ad env call.2 p workspace_addon)). by apply open_document_served.
  - match goal with |- context [or_panic ?a ?b s2] => apply (Hwp (or_panic a b)) end. by apply routed_served.
Qed.

(** What a delivery of the webhook may do.  Either it is turned away: answered
    400, 401 or 429, or acknowledged with an empty object, with nothing touched
    outside but, where senders are resolved upstream, the resolver's dispatch.  Or
    its bearer verified as Google's own, of Chat or of a Workspace add-on; its
    body read as an event that asks for a turn; its sender resolved; and, as that
    sender, exactly the call the turn stands for was served: the routed text of a
    message, the help of a bot added to a space, or the tool and arguments
    sealed, for this tenant and sender, in the token of the clicked control.
    Served means one of: the host's router answered in text or with a choice of
    agents; the call, or the one it was routed to, was handed to the courier whole,
    with no line written; or it was dispatched once, with one line, and answered
    in the response, with a post line that says [ok] only for a reply drawn from
    that dispatch's result. *)
Theorem google_chat_webhook_outcome env h body s :
  let x := handle_webhook cell debug_set base_var doc_dialog alphanumeric parse_event body_error decode_reply
             iter two_decimals ad env h body s in
  turned_away env s x
  ∨ ∃ raw claims e, webhook_bearer h = Some raw
      ∧ (verify (hk_unix env) (hk_keys env) raw (gs_verifier s)).1 = Ok claims
      ∧ read_event parse_event body_error body = Ok e
      ∧ carried_out env h e (is_workspace_addon claims) s x.
Proof using Type.
  intros x. subst x. unfold handle_webhook. destruct (webhook_bearer h) as [raw|] eqn:Eb.
  2: { left. by apply refusal_turned_away; [apply (bool_decide_unpack _)|]. }
  rewrite bind_snd. destruct (verify (hk_unix env) (hk_keys env) raw (gs_verifier s)) as [verified v'] eqn:Ev.
  set (y := on_verifier _ s). assert (y.1 = verified ∧ world y.2 = world s) as [Hy1 Hy2].
  { subst y. unfold on_verifier. by rewrite Ev. }
  clearbody y. destruct y as [r s1]. cbn [fst snd] in *. subst r. destruct verified as [claims|err].
  2: { left. by apply refusal_turned_away; [apply (bool_decide_unpack _)|]. }
  rewrite bind_snd. set (y := on_chat _ s1). assert (world y.2 = world s) as Hy.
  { subst y. unfold on_chat, on_chat_rate. by destruct (try_take _ _). }
  clearbody y. destruct y as [taken s2]. cbn [fst snd] in *. destruct taken as [|wait].
  2: { left. by apply refusal_turned_away; [apply (bool_decide_unpack _)|]. }
  destruct (read_event parse_event body_error body) as [e|err] eqn:Ee.
  2: { left. by apply refusal_turned_away; [apply (bool_decide_unpack _)|]. }
  destruct (serve_event_outcome env h e (is_workspace_addon claims) s s2 Hy) as [Ht|Hc]; [by left|right].
  exists raw, claims, e. by rewrite Ev.
Qed.

(** ** Sealed tokens *)

(** A text under a tag of a key on the ring says [marker] and [v]. *)
Definition sealed (marker : str) (v : Value) (cap : nat) (token : str) : Prop :=
  length token ≤ cap
  ∧ ∃ key x y text parsed, key ∈ Correlation.keys (gc_correlation_key ad) ∧ split_once "." token = Some (x, y)
      ∧ b64url_decode x = Some text ∧ b64url_decode y = Some (compute_truncated_hmac text key)
      ∧ body_from_slice text = Ok parsed ∧ cb_t parsed = marker ∧ cb_a parsed = v.

Lemma decode_any_sealed token cap marker v :
  decode_with_cap_any token (gc_correlation_key ad) cap = Ok (marker, v) → sealed marker v cap token.
Proof using Type.
  intros (key & Hk & Hd)%try_keys_sound. unfold decode_with_cap in Hd.
  destruct (decode_parsed token key cap) as [parsed|] eqn:E; [|done]. injection Hd as <- <-.
  apply decode_parsed_sound in E as (x & y & text & ? & ? & ? & ? & ? & _).
  split; [done|]. by exists key, x, y, text, parsed.
Qed.

(** The caller may send into the conversation [r]: its reference was sealed by
    the adapter, for the caller's tenant, and names the recipient, if one is
    named. *)
Definition may_send (req : OutboundRequest) p (r : GoogleChatConversationRef) : Prop :=
  cc_enabled (gc_courier ad) = true
  ∧ ∃ v token, (req_reference req ≫= get_str §"ref") = Some token
      ∧ sealed CONVERSATION_REF_MARKER v CONVERSATION_REF_CAP token ∧ read_reference v = Some r
      ∧ reference_ok r = true ∧ cr_tenant_id r = tenant p ∧ (req_to req = [] ∨ req_to req = cr_sender r).

Lemma authorize_sound req p r :
  authorize ad req p = Ok () → open_sealed_reference ad req = Ok r → may_send req p r.
Proof using Type.
  unfold authorize. destruct (cc_enabled (gc_courier ad)) eqn:Ec; [|done]. cbn [negb]. intros Ha Ho.
  rewrite Ho in Ha. cbn [result_bind] in Ha. destruct (_ || _) eqn:E; [done|]. clear Ha.
  apply orb_false_iff in E as [E1 E2]. apply negb_false_iff, bool_decide_eq_true in E1.
  split; [done|]. unfold open_sealed_reference in Ho. cbv zeta in Ho.
  destruct (req_reference req ≫= get_str §"ref") as [token|] eqn:Et; [|done]. cbn [ok_or result_bind] in Ho.
  destruct (decode_with_cap_any token _ _) as [[marker v]|] eqn:Ed; [|done].
  cbn [result_map_err result_bind fst snd] in Ho. destruct (decide _) as [|Hm]; [done|].
  apply dec_stable in Hm. subst marker. destruct (read_reference v) as [r'|] eqn:Er; [|done].
  cbn [ok_or result_bind] in Ho. destruct (reference_ok r') eqn:Eok; [|done]. injection Ho as ->.
  exists v, token. split_and!; try done; [by apply decode_any_sealed|].
  apply andb_false_iff in E2 as [E2|E2]; [left|right].
  - destruct (req_to req); [done|by cbn in E2].
  - by apply negb_false_iff, bool_decide_eq_true in E2.
Qed.

(** What a send wrote and answered. *)
Inductive sent (p : Principal) (r : GoogleChatConversationRef)
    : option (result unit TritonError) → list AuditRecord → W → Prop :=
  | SentNothing e o : sent p r (Some (Err e)) [] o
  | SentPanic l o : line_for §"get_theme" PROTOCOL p l → sent p r None [l] o
  | SentFailed l lp err o :
      line_for §"get_theme" PROTOCOL p l → post_for OUTBOUND_TOOL p lp → destination lp = Some (cr_space r) →
      au_result lp = error_result err → sent p r (Some (Err err)) [l; lp] o
  | SentOk l lp token x body o :
      line_for §"get_theme" PROTOCOL p l → post_for OUTBOUND_TOOL p lp → destination lp = Some (cr_space r) →
      au_result lp = §"ok" → is_success (AuditLog.status lp) = true →
      threaded (Some (cr_thread r)) body = Some x →
      called (create_call ad (cr_space r) token x) (AuditLog.status lp) o → sent p r (Some (Ok ())) [l; lp] o.

Lemma in_thread_sent m space thread body s :
  wp (send_chat_message_in_thread api ad m space thread body)
    (λ x ls o, ls = [] ∧ ∀ status name, x = Some (Ok (status, name)) →
       ∃ token y, threaded thread body = Some y ∧ called (create_call ad space token y) status o) s.
Proof using Type.
  unfold send_chat_message_in_thread. apply wp_or_panic, wp_still; [apply acquire_token_still|].
  intros [[token|e]|]; [|intros s1 _; by apply wp_ret|by split].
  intros s1 _. destruct (threaded thread body) as [y|]; [|by apply wp_ret].
  apply wp_bind. destruct (api (create_call ad space token y) (outside (world s1))) as [r o] eqn:Ea.
  apply (wp_on_world _ _ _ []); unfold on_outside; rewrite Ea; [done|]. intros s2 Hs2. apply wp_ret.
  split; [done|]. intros status name. destruct r as [|st b]; [done|]. cbn. intros [= <- _].
  exists token, y. split; [done|]. exists (outside (world s1)), b. by rewrite Ea, Hs2.
Qed.

(** A send goes only into a conversation the adapter itself sealed, for the
    caller's tenant.  An agent's send either fails with nothing changed, or the
    courier is on and the request carries a reference with a tag of a key on the
    adapter's ring, well-formed, of the caller's tenant and, where the request
    names a recipient, of that sender.  Then it writes the line of the card's
    theme and one post line that names the space; the send succeeds only when the
    last request was a message created in the reference's space, and in its
    thread if it has one, that the Chat API answered 2xx. *)
Theorem google_send_sealed env m c req p s :
  let x := deliver cell debug_set base_var doc_dialog alphanumeric api ad env m c req p s in
  (∃ e, x = (Some (Err e), s))
  ∨ ∃ r ls, may_send req p r ∧ writes ls (world s) (world x.2) ∧ sent p r x.1 ls (outside (world x.2)).
Proof using Type.
  intros x. subst x. unfold deliver.
  destruct (_ ←? authorize ad req p; open_sealed_reference ad req) as [r|e] eqn:Ea; [right|left; by exists e].
  destruct (authorize ad req p) as [[]|] eqn:Eau; [|done]. cbn [result_bind] in Ea. exists r.
  match goal with |- context [or_panic ?a ?b s] => set (m0 := or_panic a b) end.
  assert (wp m0 (sent p r) s) as (ls & Hw & Hs); [|exists ls; split; [by apply authorize_sound|done]].
  unfold m0. apply wp_or_panic. eapply wp_mono; [apply build_reply_built|].
  intros x ls o [[-> ->]|(l & -> & Hl & [->|(body & -> & Hb)])].
  - intros s1 _. apply wp_ret. apply SentNothing.
  - by apply SentPanic.
  - intros s1 _. apply wp_or_panic. eapply wp_mono; [apply in_thread_sent|].
    intros x ls o1 [-> Hc]. destruct x as [res|]; [|by apply SentPanic]. intros s2 Hs2. cbv zeta.
    set (outcome := delivery_outcome _ _ _). apply wp_bind.
    destruct (record_post_to_writes (gc_dispatcher ad) (c_when c) OUTBOUND_TOOL p (elapsed_ms c) outcome
                (Some (cr_space r)) (world s2)) as (lp & Hw & Ho & Hp & Hs & Hd).
    apply (wp_to_world _ _ _ [lp]); [exact Hw|]. intros s3 Hs3. apply wp_ret. cbn [app].
    rewrite Hs3, Ho, Hs2. unfold outcome in *. destruct res as [[status name]|e]; cbn in Hs |- *.
    2: { destruct Hs as (Hs & _). by apply SentFailed. }
    destruct (is_success status) eqn:Est; [|destruct Hs as (Hs & _); by apply SentFailed].
    destruct Hs as (Hs & <- & _). destruct (Hc _ _ eq_refl) as (token & y & Hy & Hcalled).
    by eapply SentOk.
Qed.

(** ** Images *)

(** The link has an expiry, and it is not past. *)
Definition unexpired (now : Z) (spec : Value) : Prop :=
  ∃ exp, (value_get §"exp" spec ≫= as_u64) = Some exp ∧ (now ≤ exp)%Z.

Lemma link_expired_false now spec : link_expired now spec = false → unexpired now spec.
Proof using Type.
  unfold link_expired. destruct (_ ≫= _) as [exp|] eqn:E; [|done]. intros Hl%Z.ltb_ge. by exists exp.
Qed.

(** The picture of a dashboard a link was made for. *)
Definition drawn (spec : Value) (png : str) : Prop :=
  ∃ inner req, value_get §"s" spec = Some inner ∧ read_request inner = Some req ∧ validate req = Ok ()
    ∧ draw_png (build req).1 DASHBOARD_PNG_WIDTH (build req).2 = Ok png.

(** The image route, which anybody can call, does only what the adapter sealed.
    Whatever the token, either nothing at all changes, and a picture is answered
    only for an unexpired link with a tag of a key on the adapter's ring, and is
    the drawing of the dashboard in the link, which is within the rasterizer's
    caps; or the token is such a link to a report, and what was dispatched is
    [render_report] with exactly the arguments in it, without a tenant and as the
    image principal, and a picture is the one of that dispatch's result. *)
Theorem google_images_sealed now c trace token w :
  let x := serve_dashboard_png debug_set read_request draw_png b64_decode ad now c trace token w in
  (x.2 = w ∧ ∀ png, x.1 = ImagePng png → ∃ spec,
     sealed DASHBOARD_MARKER spec DASHBOARD_TOKEN_CAP token ∧ unexpired now spec ∧ drawn spec png)
  ∨ ∃ spec rargs, sealed RENDER_REPORT_IMG_MARKER spec DASHBOARD_TOKEN_CAP token ∧ unexpired now spec
      ∧ value_get §"a" spec = Some rargs
      ∧ let d := invoke debug_set (gc_dispatcher ad) c §"render_report" rargs (image_principal trace)
                   PROTOCOL w in
        x.2 = d.2 ∧ ∀ png, x.1 = ImagePng png →
          ∃ rep, d.1 = Ok rep ∧ upstream_png_bytes b64_decode (dr_result rep) = Some png.
Proof using Type.
  intros x. subst x. unfold serve_dashboard_png.
  destruct (decode_with_cap_any token _ _) as [[marker spec]|] eqn:Ed; [|by left].
  apply decode_any_sealed in Ed. destruct (decide (marker = RENDER_REPORT_IMG_MARKER)) as [->|Hm].
  - destruct (link_expired now spec) eqn:El; [by left|]. apply link_expired_false in El.
    destruct (value_get §"a" spec) as [rargs|] eqn:Ea; [|by left]. right. exists spec, rargs.
    split; [done|]. split; [done|]. split; [done|].
    destruct (invoke _ _ _ _ _ _ _ _) as [[rep|e] w']; (split; [done|]); [|done].
    cbn [fst]. destruct (upstream_png_bytes b64_decode (dr_result rep)) as [png'|] eqn:Eu; [|done].
    intros png [= <-]. by exists rep.
  - left. destruct (decide (marker ≠ DASHBOARD_MARKER)) as [|Hn]; [done|]. apply dec_stable in Hn as ->.
    destruct (link_expired now spec) eqn:El; [done|]. apply link_expired_false in El. split; [done|].
    intros png Hp. exists spec. split; [done|]. split; [done|]. cbn [fst] in Hp. unfold dashboard_png in Hp.
    destruct (value_get §"s" spec) as [inner|] eqn:Es; [|done].
    destruct (read_request inner) as [req|] eqn:Er; [|done].
    destruct (validate req) as [[]|] eqn:Ev; [|done].
    destruct (build req) as [svg height] eqn:Eb.
    destruct (draw_png svg DASHBOARD_PNG_WIDTH height) as [png'|] eqn:Ep; [|done]. injection Hp as ->.
    exists inner, req. by rewrite Eb.
Qed.

(** ** A control and its click *)

(** The tokens of a reply come back whole.  Where the adapter's ring signs with a
    key, the token signed for a control at [n] redeems, at any time in the seven
    days after, and for a click of the same tenant and sender, as exactly the
    control's tool and arguments, with the inputs filled in over them. *)
Theorem google_click_redeems `{!CryptoLaws} tn sender specs spec token env t p key rest n n' :
  Correlation.keys (gc_correlation_key ad) = key :: rest →
  (spec, token) ∈ sign_specs ad (Some n) tn sender specs →
  (0 ≤ n)%Z → (n + CARD_TOKEN_TTL_SECS + 3600 ≤ u64_max)%Z →
  body_roundtrips {| cb_t := spec_tool spec; cb_a := base_args spec;
                     cb_x := Some (div_ceil (n + CARD_TOKEN_TTL_SECS) 3600) |} →
  tn_token t = Some token → tn_sender t = sender → tenant p = tn →
  hk_token_now env = Some n' → (n' ≤ n + CARD_TOKEN_TTL_SECS)%Z →
  call_of ad env t p = Some (spec_tool spec, merge_inputs (tn_inputs t) (base_args spec)).
Proof using Type.
  intros Hk Hin Hn Hmax Hrt Ht <- <- Hnow Hle. unfold sign_specs in Hin.
  apply list_elem_of_omap in Hin as (spec' & _ & Hin).
  destruct (encode_bound _ _ _ _ _ _ _) as [token'|] eqn:Ee; [|done]. injection Hin as -> ->.
  unfold call_of. rewrite Ht, Hnow. unfold decode_bound_any, try_ring, verifying. rewrite Hk. cbn [try_keys].
  assert (gc_signing_key ad = key) as Es by (unfold gc_signing_key, signing; by rewrite Hk).
  rewrite Es in Ee.
  destruct (minted_lifetime n CARD_TOKEN_TTL_SECS (spec_tool spec) (base_args spec) key CARD_CORRELATION_CAP
    (gc_binding (tenant p) (tn_sender t)) token n') as (_ & Hd & _); try done.
  by rewrite (Hd Hle).
Qed.

(** A reference the adapter sealed opens to itself. *)
Theorem google_reference_reopens `{!CryptoLaws} r key rest token req :
  Correlation.keys (gc_correlation_key ad) = key :: rest → reference_ok r = true →
  encode_with_cap CONVERSATION_REF_MARKER (reference_value r) key CONVERSATION_REF_CAP = Ok token →
  body_roundtrips {| cb_t := CONVERSATION_REF_MARKER; cb_a := reference_value r; cb_x := None |} →
  req_reference req = Some (conversation_reference_json ad r) →
  open_sealed_reference ad req = Ok r.
Proof using Type.
  intros Hk Hok He Hrt Hr. unfold open_sealed_reference. rewrite Hr.
  assert (gc_signing_key ad = key) as Es by (unfold gc_signing_key, signing; by rewrite Hk).
  assert (get_str §"ref" (conversation_reference_json ad r) = Some token) as Eg.
  { unfold conversation_reference_json. rewrite Es, He. vm_compute. reflexivity. }
  cbn [mbind option_bind]. rewrite Eg. cbn [ok_or result_bind].
  unfold decode_with_cap_any, try_ring, verifying. rewrite Hk. cbn [try_keys]. unfold decode_with_cap.
  unfold encode_with_cap in He. change (is_empty CONVERSATION_REF_MARKER) with false in He. cbn iota in He.
  destruct (decode_minted _ _ key _ _ He Hrt) as (json & _ & ->); [done|].
  rewrite bool_decide_eq_true_2 by done. cbn [result_map result_map_err result_bind cb_t cb_a fst snd].
  destruct (decide _) as [Hm|_]; [done|].
  assert (read_reference (reference_value r) = Some r) as ->; [|cbn; by rewrite Hok].
  destruct r as [sp th sd tn]. vm_compute. reflexivity.
Qed.

(** ** Behaviours worth knowing *)

(** An answer of the host's router in text leaves no line at all. *)
Lemma router_text_unrecorded env h e t p workspace_addon call router ctx outcome text o s :
  gc_router ad = Some router → route_request ad e t call.1 call.2 p = Some ctx →
  router ctx (outside (world s)) = (outcome, o) → outcome = RouteInfo text ∨ outcome = RouteDeny text →
  let x := route_turn debug_set base_var ad env h e t p workspace_addon call s in
  x.1 = Some (Err (JsonAnswer 200 (text_reply_body text workspace_addon), None))
  ∧ sinks (world x.2) = sinks (world s) ∧ metrics (world x.2) = metrics (world s).
Proof using Type.
  intros Hr Hc Hro Ho x. subst x. unfold route_turn. rewrite Hr. cbn [mbind option_bind]. rewrite Hc.
  cbn [mbind option_bind]. rewrite bind_snd. unfold on_world, on_chat, on_chat_world, on_outside. rewrite Hro.
  by destruct Ho as [-> | ->].
Qed.

(** A document that takes longer than its four seconds is left in mid-call: the
    only line is that of the post, and it says [ok]. *)
Lemma abandoned_document_unlogged env args p workspace_addon f s :
  text_of_arg §"skill" args ≠ [] → text_of_arg §"id" args ≠ [] → hk_doc_abandoned env = Some f →
  (gate debug_set (gc_dispatcher ad) (ce_dispatch (hk_chat env)) §"render_report" PROTOCOL p (world s)).1 = None →
  let x := open_document debug_set ad env args p workspace_addon s in
  ∃ lp, writes [lp] (world s) (world x.2) ∧ post_for OPEN_DOC_TOOL p lp ∧ au_result lp = §"ok".
Proof using Type.
  intros Hs Hi Hf Hg x.
  assert (wp (open_document debug_set ad env args p workspace_addon)
    (λ _ ls _, ∃ lp, ls = [lp] ∧ post_for OPEN_DOC_TOOL p lp ∧ au_result lp = §"ok") s) as (ls & Hw & lp & -> & Hp & Ho);
    [|by exists lp].
  unfold open_document. cbv zeta.
  assert (∀ y : str, y ≠ [] → is_empty y = false) as Hne by by intros [].
  rewrite (Hne _ Hs), (Hne _ Hi). cbn [orb]. apply wp_bind, (wp_on_world _ _ _ []); unfold document_card; rewrite Hg, Hf; [done|].
  intros s1 _. apply wp_bind, posted_inline_line. intros lp Hp (Ho & _) s2 _. apply wp_ret. by exists lp.
Qed.

(** Of the arguments a token was signed with, those that share a name with a
    filled input of the clicked card are the clicker's. *)
Lemma inputs_override_signed k v (inputs : list (str * str)) m :
  NoDup inputs.*1 → (k, v) ∈ inputs →
  get_str k (merge_inputs inputs (Value.Object m)) = Some v.
Proof using Type.
  intros Hnd Hin. destruct inputs as [|x inputs]; [by apply list_elem_of_In in Hin|].
  unfold merge_inputs. set (l := x :: inputs) in *. clearbody l. unfold get_str, value_get.
  assert (Map.get k (foldl (λ m x, Map.insert x.1 (js x.2) m) m l) = Some (js v)) as ->; [|done].
  assert (∀ l m, k ∉ l.*1 → Map.get k (foldl (λ m x, Map.insert x.1 (js x.2) m) m l) = Map.get k m) as Hne.
  { clear. induction l as [|[a b] l IH]; intros m Hk; [done|]. cbn [foldl fst snd fmap list_fmap] in *.
    apply not_elem_of_cons in Hk as [Ha Hk]. rewrite IH by done. by rewrite Map.get_insert_ne. }
  revert m. induction l as [|[a b] l IH]; intros m; [by apply list_elem_of_In in Hin|].
  cbn [foldl fst snd fmap list_fmap] in *. apply NoDup_cons in Hnd as [Ha Hnd].
  apply elem_of_cons in Hin as [[= -> ->]|Hin]; [|by apply IH].
  rewrite Hne by done. by rewrite Map.get_insert_eq.
Qed.

(** A dashboard whose title is over the rasterizer's cap is linked to all the
    same; its link is refused by the image route. *)
Lemma oversized_dashboard_refused now c trace token w spec inner req :
  decode_with_cap_any token (gc_correlation_key ad) DASHBOARD_TOKEN_CAP = Ok (DASHBOARD_MARKER, spec) →
  link_expired now spec = false → value_get §"s" spec = Some inner → read_request inner = Some req →
  256 < length (rd_title req) →
  serve_dashboard_png debug_set read_request draw_png b64_decode ad now c trace token w
  = (ImagePlain 400 §"spec too large", w).
Proof using Type.
  intros Hd Hl Hs Hr Hlen. unfold serve_dashboard_png. rewrite Hd.
  destruct (decide (DASHBOARD_MARKER = RENDER_REPORT_IMG_MARKER)) as [|_]; [done|].
  destruct (decide (DASHBOARD_MARKER ≠ DASHBOARD_MARKER)) as [|_]; [done|]. rewrite Hl.
  unfold dashboard_png. rewrite Hs, Hr. unfold validate, MAX_TITLE_BYTES.
  by rewrite (proj2 (Nat.ltb_lt _ _) Hlen).
Qed.

(** A text that fills a message is over Google Chat's limit under the echo of a
    tap. *)
Lemma echo_added_uncapped e text :
  e ≠ [] → GOOGLE_CHAT_TEXT_MAX_BYTES ≤ length text →
  GOOGLE_CHAT_TEXT_MAX_BYTES < length (with_echo (Some e) text).
Proof using Type.
  intros He Hl. set (cap := GOOGLE_CHAT_TEXT_MAX_BYTES) in *. clearbody cap.
  assert (∃ l, echo_line (Some e) = Some l) as [l El] by (destruct e; [done|by eexists]).
  unfold with_echo. rewrite El, !length_app. change (length nl) with 1. lia.
Qed.
End Facts.

(** ** Boot *)

Lemma validate_enrolled_Ok l :
  validate_enrolled l = Ok () ↔ Forall (λ e, validate_resolved e.1 (ec_tenant e.2) = Ok ()) l.
Proof.
  induction l as [|[k c] l IH]; cbn [validate_enrolled]; [by split|].
  rewrite Forall_cons, <-IH. unfold validate_table_entry. cbn [fst snd].
  destruct (validate_resolved k (ec_tenant c)) as [[]|e]; cbn [result_map_err result_bind]; [tauto|].
  split; [done|by intros [? _]].
Qed.

Section BootFacts.
Context {W : Type} `{SerdeJson, TokenLib}.
Variable resolver : SecretField → result str ResolveError.
Variable decode_table : str → result SenderTable str.
Variable decode_enrol : str → result (gmap str EnrolClaims) str.
Variable http_client : result unit str.

(** A strategy the boot accepts. *)
Definition gc_identity_sound (d : Dispatcher W) (i : GcIdentityMode) : Prop :=
  match i with
  | GcSenderTable t => ∃ json, SenderTable_parse decode_table json = Ok t
  | GcSelfEnrol t => ∀ k c, t !! k = Some c → validate_resolved k (ec_tenant c) = Ok ()
  | GcUpstream up => registry d !! ur_tool up = None ∧ ur_protocol up = PROTOCOL_RESOLVE
  end.

Lemma gc_build_identity_sound a d i :
  build_identity resolver decode_table decode_enrol a d = Ok i → gc_identity_sound d i.
Proof using Type.
  assert (∀ r : result GcIdentityMode BuildError,
    r = (json ←? credential resolver §"identity.table" §"table" (id_credentials (a_identity a));
         result_map GcSenderTable (result_map_err BadIdentity (SenderTable_parse decode_table json))) →
    r = Ok i → gc_identity_sound d i) as Htable.
  { intros r -> (json & _ & Ht)%result_bind_Ok.
    apply result_map_Ok in Ht as (t & Ht%result_map_err_Ok & ->). by exists json. }
  unfold build_identity. destruct (id_kind (a_identity a)); try (by apply Htable).
  - intros (json & _ & Hb)%result_bind_Ok. apply result_bind_Ok in Hb as (t & _ & Hb).
    apply result_bind_Ok in Hb as ([] & Hv%result_map_err_Ok & [= <-]).
    apply validate_enrolled_Ok in Hv. rewrite Forall_forall in Hv. intros k c Hk.
    by apply (Hv (k, c)), elem_of_map_to_list.
  - intros (tool & _ & Hu)%result_bind_Ok. apply result_map_Ok in Hu as (up & Hu%result_map_err_Ok & ->).
    unfold UpstreamResolver_new in Hu. destruct (is_empty (trim tool)); [done|].
    case_bool_decide as Hn; [done|]. injection Hu as <-. split; [by apply eq_None_not_Some|done].
Qed.

(** The adapter fails closed at boot.  An adapter comes out of a manifest entry
    only if the entry is a Google Chat one with Google-signed deliveries; its
    verifier expects a resolved audience that is not empty; its identity strategy
    was accepted, every enrolled user's name and tenant being well-formed; its ring
    has a key to sign with and none under 16 bytes; and a courier that is on has a
    bearer to send with, minted or fixed, the fixed one not blank. *)
Theorem google_boot_fails_closed name a d jwks_uri courier ad v :
  from_manifest (W := W) resolver decode_table decode_enrol http_client name a d jwks_uri courier = Ok (ad, v) →
  a_kind a = AKGoogleChat ∧ in_signature (a_inbound a) = GoogleOidcJwt
  ∧ vc_audience (gv_config v) ≠ [] ∧ gc_identity_sound (gc_dispatcher ad) (gc_identity ad)
  ∧ is_Some (signing (gc_correlation_key ad)) ∧ Forall (λ k, 16 ≤ length k) (Correlation.keys (gc_correlation_key ad))
  ∧ (cc_enabled (gc_courier ad) = true →
     gc_outbound ad ≠ NoAuth ∧ ∀ token, gc_outbound ad = StaticToken token → trim token ≠ []).
Proof using Type.
  unfold from_manifest. destruct (bool_decide (a_kind a ≠ _)) eqn:E1; [done|].
  destruct (bool_decide (in_signature _ ≠ _)) eqn:E2; [done|].
  apply bool_decide_eq_false, dec_stable in E1. apply bool_decide_eq_false, dec_stable in E2.
  intros ([] & _ & Hb)%result_bind_Ok. apply result_bind_Ok in Hb as (audience & _ & Hb).
  destruct (is_empty audience) eqn:Ea; [done|]. apply result_bind_Ok in Hb as (token & _ & Hb).
  destruct (cc_enabled courier && _) eqn:Et; [done|].
  apply result_bind_Ok in Hb as (outbound & Hout & Hb).
  apply result_bind_Ok in Hb as (identity & Hid & Hb). apply result_bind_Ok in Hb as (key & _ & Hb).
  apply result_bind_Ok in Hb as (ring & Hring%result_map_err_Ok & Hb).
  apply result_bind_Ok in Hb as ([] & _ & [= <- <-]).
  apply gc_build_identity_sound in Hid. apply key_ring_sound in Hring as [[k Hsig] Hlen].
  cbn [gc_dispatcher gc_identity gc_correlation_key gc_courier gc_outbound].
  split; [done|]. split; [done|]. split; [by destruct audience|]. split; [exact Hid|].
  split; [by rewrite Hsig|]. split; [exact Hlen|]. intros Hc. rewrite Hc in Et. cbn [andb] in Et.
  destruct token as [raw|]; [|done]. change (is_empty (trim raw) = false) in Et. unfold outbound_auth in Hout.
  assert (trim raw ≠ []) as Hraw by (intros E; by rewrite E in Et).
  destruct (looks_like_external_account_key raw).
  { apply result_map_Ok in Hout as (x & _ & ->). by split. }
  destruct (looks_like_service_account_key raw).
  { apply result_map_Ok in Hout as (x & _ & ->). by split. }
  injection Hout as <-. split; [done|]. by intros token [= <-].
Qed.
End BootFacts.

(** ** A delivery, in full *)

Section Demo.
#[local] Instance demo_json : SerdeJson := toy_json demo_body.
#[local] Instance demo_jwt : Jwt := toy_jwt.
#[local] Instance demo_lib : TokenLib := toy_lib demo_body.
#[local] Instance demo_urls : UrlParse := sample_url.
#[local] Instance demo_serde : SerdeA2ui := sample_serde.
(** No token here has to be read back. *)
#[local] Instance demo_crypto : Crypto := {|
  hmac_sha256 k m := take 32 (k ++ m); b64url_encode x := x; b64url_decode := Some;
  body_to_string _ := Ok §"body"; body_from_slice _ := Err §"eof" |}.

Definition demo_adapter (courier : bool) : GoogleChatAdapter nat :=
  {| gc_name := §"chat";
     gc_identity := GcSenderTable {[ §"users/7" := {| sc_sub := §"alice"; sc_tenant := §"acme"; sc_scopes := [];
                                                      sc_groups := [] |} ]};
     gc_inbound_tool := §"echo"; gc_dispatcher := demo_dispatcher None unenforced;
     gc_correlation_key := {| Correlation.keys := [§"0123456789abcdef"] |};
     gc_courier := {| cc_enabled := courier; cc_api_base := §"https://chat.example" |};
     gc_outbound := StaticToken §"token"; gc_router := None |}.

Definition demo_reading : ReplyEnv := {| re_mint_now := Some 0%Z; re_image_now := 0; re_theme := tick |}.
Definition demo_hook : HookEnv nat :=
  {| hk_chat := {| ce_rate_now := 0; ce_tenant_now := {| at_entry := 0; at_scan := λ _, 0%Z; at_create := 0; at_take := 0 |};
                   ce_reject_when := []; ce_reject_now := 0; ce_reject_uuid := []; ce_trace := §"t-1";
                   ce_dispatch := tick; ce_post := tick |};
     hk_unix := 1500; hk_keys := demo_env (Fetched demo_keyset); hk_resolve := tick; hk_resolve_uuid := [];
     hk_token_now := Some 0%Z; hk_doc_abandoned := None; hk_hint_now := 0; hk_reply := demo_reading |}.
Definition demo_headers : Headers :=
  {| hd_authorization := Some (Some (§"Bearer " ++ toy_token)); hd_forwarded_host := None; hd_host := None |}.
Definition demo_event : GoogleChatEvent :=
  {| ev_kind := §"MESSAGE";
     ev_message := Some {| ms_text := Some §"hi there"; ms_sender := Some §"users/7"; ms_thread := None |};
     ev_user := None; ev_common := None; ev_action := None; ev_space := Some §"spaces/A"; ev_thread := None |}.
Definition demo_state : GcState nat :=
  Build_GcState (Build_ChatState (World_new unenforced 0) (TokenBucket_new 10 10 0) (PerTenantBuckets_new 1 1))
    demo_verifier None.
Definition demo_deliver (courier : bool) : option Outcome * GcState nat :=
  handle_webhook None no_debug None true (λ _, false) (λ _, Ok demo_event) (λ _, []) (λ _, Err []) map_to_list
    (λ _, []) (demo_adapter courier) demo_hook demo_headers §"body" demo_state.
(** A Chat API that knows every message. *)
Definition demo_api (c : ApiCall) (n : nat) : ApiReply * nat :=
  (Replied 200 (Some (json_object [(§"name", js §"spaces/A/messages/1")])), S n).
Definition demo_courier_env : CourierEnv :=
  {| ce_stream := tick; ce_stream_when := []; ce_opened := 0; ce_drop := 0; ce_since_edit _ := 0%Z;
     ce_delivery := tick; ce_hint_now := 0; ce_reply := demo_reading;
     ce_mint _ := {| mr_service := demo_mint 0 0 0; mr_wif := demo_wif |} |}.
Definition demo_lines (s : GcState nat) : list (AuditPhase * str * str) :=
  (λ l, (phase l, tool l, au_result l)) <$> stdout (sinks (cs_world (gs_chat s))).

(** A message is answered in the response: its dispatch, the theme (there is no
    such tool), the post. *)
Example message_answered_inline :
  let x := demo_deliver false in
  x.1 = Some (JsonAnswer 200 (text_reply_body §"hi there" true), None)
  ∧ demo_lines x.2 = [(Dispatch, §"echo", §"ok"); (Dispatch, §"get_theme", §"error:validation");
                      (Post, §"echo", §"ok")]
  ∧ outside (cs_world (gs_chat x.2)) = 1.
Proof. vm_compute. repeat split. Qed.

(** With the courier it is acknowledged, and the task posts the answer into its
    placeholder: three calls, of which the tool is one. *)
Example message_answered_by_courier :
  match demo_deliver true with
  | (Some (a, Some task), s) =>
      a = JsonAnswer 200 (Value.Object []) ∧ demo_lines s = []
      ∧ let x := courier_reply None no_debug no_surface true (λ _, false) demo_api (demo_adapter true)
                   demo_courier_env task s in
        x.1 = Some () ∧ outside (cs_world (gs_chat x.2)) = 3
        ∧ demo_lines x.2 = [(Dispatch, §"echo", §"ok"); (Dispatch, §"get_theme", §"error:validation");
                            (Post, §"echo", §"ok")]
  | _ => False
  end.
Proof. vm_compute. repeat split. Qed.
End Demo.
